(* ===== verification/_CoqProject ===== *)
-Q . S2P
Prelude.v
PyStr.v
PyCase.v
Regex.v
PyValue.v
PyPath.v
Processes.v
Json.v
JsonText.v
Protocol.v
Acl.v
Isolation.v
HostProbe.v
Manifest.v
I18n.v
Profile.v
Plan.v
PlanOrder.v
PlanText.v
Assemble.v
Build.v
Grouping.v
Services.v
Roles.v
RolePreferences.v
DepGraph.v
Msysd.v
Foreground.v
Calls.v
Restart.v
Dispatch.v
RoleSwitch.v
Messages.v
PublicSocket.v
Launch.v
Outage.v
Lifecycle.v
LifecycleSafety.v
Execution.v
Readiness.v
Endings.v
Cancellation.v
Shutdown.v
Reload.v
Migration.v
MigrationSafety.v
Introspect.v
Preferences.v
Control.v
ControlSafety.v
Startup.v
Ownership.v
