(* ===== verification/Prelude.v ===== *)
(** * Verification of msys-core

    msys-core is the session supervisor of a small device: a Python process,
    [msysd], that starts the components of installed packages, routes their
    calls and events over sockets, arbitrates roles, survives the loss of the
    display and replaces packages at run time.  This library models it function
    by function and proves what its parts promise.  Every definition carries
    the name of the Python function, method or constant it translates; the
    files, in dependency order, are these.

    ** The language
    - [Prelude]: the exception monad [result], insertion-ordered dictionaries
      ([dict]), stable sorting, deduplication, loops that may raise, and the
      tactics [inv_result] and [bool_simp].
    - [PyStr], [PyCase]: strings as lists of code points, comparison, splitting,
      case mapping (the Unicode tables are the interface [PyLib]).
    - [Regex]: the regular expressions of the validators, matched by
      derivatives.  [PyValue]: decoded JSON values ([pyval]), exceptions and
      the conversions [str], [int], truth.  [PyPath]: pure paths and the
      interface [FileSystem].
    - [Json]: [json.dumps] and [json.loads] with [object_pairs_hook], as
      functions on code points; the texts of floats and the depth of the
      interpreter's stack are the interface [JsonLib].  [JsonText]: the
      indented texts of [json.dumps(indent=2)] with their escapes and member
      orders, and that [json.loads] reads them back.

    ** Packages and policies
    - [Acl] (mipc_acl.py): topics, patterns, call and event permissions.
    - [Isolation] (isolation.py): the parser of policies, the launch plan, and
      the prologue of a child process as a state monad over an abstract kernel
      ([Kernel]), which may refuse any operation.  [HostProbe]: what the host
      offers ([Host]), and that plans ask for nothing else.
    - [Manifest] (manifest.py): decoding of manifests into [Component] records,
      catalog merging, recovery of interrupted installations.
    - [I18n] (presentation_i18n.py): locale names, fallback chains, message
      catalogs and their bounded cache.
    - [Profile] (profile_contract.py): the validator, with the declarative
      contract it implements.
    - [Plan], [PlanOrder], [PlanText] (native/scripts/compile_runtime_plan.py):
      validation of a runtime plan, Kahn's order by in-degree queue against a
      reference order, and the text format.
    - [Assemble] (native/scripts/assemble_runtime_source.py): the document made
      of a profile and manifests, from its command line; the theorems about it
      are stated of the checks in [Plan] and [PlanText] that read it next.
      [Build]: the two scripts' files, output and exit codes.
    - [Protocol] (protocol.py): packets, and what the reader of a component's
      channel makes of them.
    - [Grouping], [Services] (services.py), [Roles] (roles.py): providers of
      interfaces, events and capabilities; role candidates, preferences, leases.
      [RolePreferences] (msysd.py): the choices of roles in their file.
    - [DepGraph] (msysd.py): the depth-first search for ordering cycles.

    ** The supervisor (msysd.py)
    - [Msysd]: the state.  [Instance] objects live in a heap, because tasks,
      the [instances] map and outage records share them; [component_object] is
      the identity of the catalog object an instance was made for, so that
      [x is y] is an equality of numbers.  [Supervisor] holds the attributes.
    - [Foreground], [Calls], [Restart]: the App stack and memory reclaim; calls
      in flight, idle stops and replies; the failure window and quarantine.
    - [Dispatch]: targets, failover and authorisation, against the interface
      [Activation] (what is awaited) and its laws [ActivationLaws].
    - [Messages]: a component's messages, broadcast and the public socket,
      over [World] (the supervisor, the packets sent, the tasks created).
      [PublicSocket]: a public connection from the kernel's credentials to the
      one line of its answer ([Stream]).
    - [Launch]: locale, environment, private directories and arguments of a
      generation.
    - [Outage]: display outages and faults over [Core], their begin and the
      recovery turn by turn, with the step relation [outage_step].
    - [Lifecycle]: starts, stops, readiness and exits as segments, the code
      between two awaits, each a function from the state to the state and
      where it waits next.  [LifecycleSafety]: the interleaving of these
      segments under the per-component lock ([System], [step]) and its
      invariant.  Whatever is sent may fail and every task may be cancelled at
      its await; [sys_reachable L] names the lost instances [L], those whose
      termination an exception or a cancellation abandoned while they were
      alive, and the theorems say what holds of all the others.  [Execution]: the isolation plan, [Popen] and the child's hook
      in one spawn.  [Readiness]: the polling of a readiness probe, turn by turn.
      [Endings]: the waits for an exit, and a stop from wake-up to wake-up.
      [Shutdown]: the end of the session.  [Cancellation]: scenarios in which
      cancelling the reader of a lost display loses the stops of its clients,
      and in which an announcement that cannot be encoded loses a process.
    - [Reload]: installer transactions, preflights, the commit of a new
      catalog, the switch of the running session and its health proof.
    - [RoleSwitch]: the switch of a role to another provider and its rollback.
    - [Migration]: the transaction that moves the session to another display,
      over [Scene] (Core, the role choices in memory and those in their file),
      and the table of its records ([Desk]).  [MigrationSafety]: what the
      transaction and its rollback guarantee, whatever is awaited
      ([Stagehands], [StagehandsLaws]).
    - [Processes]: the readers of /proc (memory of a process group, process
      records, the bounded list of foreign processes), over the interface
      [Proc].
    - [Introspect]: summaries of components and services, localized names and
      their caches ([View], the monad [viewing]), intents, the process list.
    - [Preferences]: the language of the session and the file it is kept in,
      over a small disk whose system calls may fail ([Disk], [Faults]).
    - [Control]: every method of [_core_call] over all of the above
      ([Desktop]); what a method awaits is the interface [Control].
      [ControlSafety]: theorems about all methods at once.
    - [Startup]: [Msysd.__init__], from the manifests, the profile and the
      files of the last session to the first [Desktop], and that it is the
      initial state the other files start from.
    - [Ownership]: the life of the process itself, [main] and [run]: the lock
      of the runtime directory and the public socket's path, shared by all
      supervisors over it, with a step for every system call and every kill.

    ** What is proved
    - Processes (LifecycleSafety): besides the lost processes, one live process
      per component in every interleaving; a spawn is guarded by the catalog,
      stop requests and the exit of its predecessors; a stop leaves no process
      and makes progress;
      [ensure_ready] satisfies the law that [Dispatch] assumes of it; probes
      end and count only fresh evidence; the end of a session leaves no process
      behind; a constructed supervisor is an initial state of all the
      transition systems (Startup); every stop ends; a fail-closed program runs isolated or not at
      all; one supervisor owns a runtime directory.
    - Catalog (Manifest, DepGraph, Reload, RoleSwitch): merging and reloading
      are atomic, the preflight predicts the commit, reports are truthful,
      and a failed role switch or display migration restores the choice;
      written choices are those a restarted supervisor takes.
    - Routing (Services, Roles, Dispatch, Calls, Messages): lookups are
      complete, leases consistent, calls delivered at most once where that
      is required, replies matched, events inside the grants, one line of
      answer on a public connection.
    - Control (Introspect, Processes, Preferences, ControlSafety): listings
      change nothing and are exact although bounded, the session language in
      force is the one on disk whatever fails but the removal of the temporary
      file after the new file is in place (a finding), intents start handlers only,
      every answer is addressed to its call.
    - Failures (Restart, Outage): exact quarantine through fences, renewals,
      pardons and restored accounts, the fence around the clients of a lost
      display, failure budgets that outages do not spend.
    - Data (Acl, Isolation, I18n, Profile, Plan*, Launch): validators accept
      exactly their contract, formats can be read back, restrictions are all
      applied, arguments stay inside their package.
    - Build (Assemble, Build): an assembled source is closed, the compiler
      resolves all its references, and output files are whole or untouched.

    ** Fuel
    The recursions whose depth depends on data take fuel, and each has a
    lemma that its caller supplies enough: [DepGraph.visit] one unit per
    component; [Dispatch.failover] one per provider that is not yet excluded;
    [Lifecycle._ensure_started_locked] two, as a start restarts itself only
    when the catalog object it was entered with has been replaced, which
    cannot happen twice in one segment ([ensure_fuel]); [ready_rounds] two
    ([ready_fuel]); [PlanOrder.kahn] one per component; [Json.scan] twice the
    length of the text and one ([Json.loads_fuel]).

    ** What is a parameter, and what is not modelled
    The file system, the kernel, the inherited environment, sockets and
    process handles, the files of /proc, Unicode tables, [repr] and wall-clock
    time are interfaces; their laws are stated as classes and discharged by the
    instances the witnesses use.  Times are integers in nanoseconds.  Awaited
    coroutines appear as arbitrary changes of state ([Activation], [Runtime]),
    or as separate steps.  Not modelled: the native C++ runtime; in
    msysd.py, command-line parsing, the event-loop plumbing that creates tasks,
    waits for file descriptors and delivers signals; how floats are printed and
    read, so that the round trips of packets are about messages without
    floats; the texts of exceptions the interpreter raises, which are
    abbreviated; and log lines. *)

(** ** Shared prelude

    Generic material every component file uses: the exception monad, Python's
    insertion-ordered dictionary, stable sorting by a key, order-preserving
    deduplication, and the tactics for them. *)

From stdpp Require Export prelude.
From stdpp Require Export countable list.
From Stdlib Require Sorting.Sorted.

#[global] Set Default Goal Selector "!".

Declare Scope msys_scope.
Delimit Scope msys_scope with msys.

(* ------------------------------------------------------------------ *)
(** ** Exceptions

    A Python function that may raise is a Rocq function returning [result]. *)

Inductive result (E A : Type) : Type :=
| Ok (a : A)
| Raise (e : E).

Arguments Ok {E A} _.
Arguments Raise {E A} _.

Definition rbind {E A B} (m : result E A) (f : A -> result E B) : result E B :=
  match m with Ok a => f a | Raise e => Raise e end.

#[export] Instance result_ret {E} : MRet (result E) := fun A a => Ok a.
#[export] Instance result_bind {E} : MBind (result E) := fun A B f m => rbind m f.
#[export] Instance result_fmap {E} : FMap (result E) :=
  fun A B f m => rbind m (fun a => Ok (f a)).

(** Sequencing of statements; the bound computation is elaborated first. *)
Notation "x ← y ; z" := (rbind y (fun x => z))
  (at level 20, y at level 100, z at level 200, only parsing) : msys_scope.
Notation "' x ← y ; z" := (rbind y (fun x => z))
  (at level 20, x pattern, y at level 100, z at level 200, only parsing) : msys_scope.
Notation "y ;; z" := (rbind y (fun _ => z))
  (at level 100, z at level 200, right associativity, only parsing) : msys_scope.
Open Scope msys_scope.

(** [if b: raise e] *)
Definition raise_if {E} (b : bool) (e : E) : result E () :=
  if b then Raise e else Ok tt.

Definition is_ok {E A} (r : result E A) : bool :=
  match r with Ok _ => true | Raise _ => false end.

Definition ok_or {E A} (o : option A) (e : E) : result E A :=
  match o with Some a => Ok a | None => Raise e end.

(** [try: r except exc: raise f(exc) from exc] *)
Definition reraise {E A} (f : E -> E) (r : result E A) : result E A :=
  match r with Ok a => Ok a | Raise e => Raise (f e) end.

(** A comprehension [[f(x) for x in l]] whose body may raise. *)
Fixpoint mapR {E A B} (f : A -> result E B) (l : list A) : result E (list B) :=
  match l with
  | [] => Ok []
  | x :: l => y ← f x; ys ← mapR f l; Ok (y :: ys)
  end.

(** The comprehension over [enumerate(l)]. *)
Fixpoint imapR_from {E A B} (i : nat) (f : nat -> A -> result E B) (l : list A)
    : result E (list B) :=
  match l with
  | [] => Ok []
  | x :: l => y ← f i x; ys ← imapR_from (S i) f l; Ok (y :: ys)
  end.
Definition imapR {E A B} (f : nat -> A -> result E B) := @imapR_from E A B 0 f.

(** A loop [for x in l: acc = f(acc, x)] whose body may raise. *)
Fixpoint foldR {E A B} (f : A -> B -> result E A) (acc : A) (l : list B)
    : result E A :=
  match l with
  | [] => Ok acc
  | x :: l => acc' ← f acc x; foldR f acc' l
  end.

Section Result.
Context {E : Type}.

Lemma bind_Ok {A B} (m : result E A) (f : A -> result E B) b :
  rbind m f = Ok b <-> exists a, m = Ok a /\ f a = Ok b.
Proof.
  destruct m as [a|e]; simpl; split; [eauto| |discriminate|].
  - intros (a' & [= ->] & ?); done.
  - intros (a' & ? & _); discriminate.
Qed.

Lemma raise_if_Ok b (e : E) u : raise_if b e = Ok u <-> b = false.
Proof. destruct b, u; simpl; split; done. Qed.

Lemma raise_if_Raise b (e e' : E) : raise_if b e = Raise e' <-> b = true /\ e = e'.
Proof. destruct b; simpl; split; [intros [= ->]|intros [_ ->]|..]; naive_solver. Qed.

Lemma ok_or_Ok {A} (o : option A) (e : E) a : ok_or o e = Ok a <-> o = Some a.
Proof. destruct o; simpl; naive_solver. Qed.

Lemma reraise_Ok {A} f (r : result E A) a : reraise f r = Ok a <-> r = Ok a.
Proof. destruct r; simpl; naive_solver. Qed.

Lemma is_ok_spec {A} (r : result E A) : is_ok r = true <-> exists a, r = Ok a.
Proof. destruct r; simpl; naive_solver. Qed.

Lemma mapR_Ok {A B} (f : A -> result E B) l ys :
  mapR f l = Ok ys <-> Forall2 (fun x y => f x = Ok y) l ys.
Proof.
  revert ys; induction l as [|x l IH]; intros ys; simpl.
  - split; [intros [= <-]; constructor|inversion 1; done].
  - rewrite bind_Ok. setoid_rewrite bind_Ok. split.
    + intros (y & Hy & ys' & Hys & [= <-]). constructor; [done|]. by apply IH.
    + inversion 1 as [|? y ? ys' Hy Hys]; subst. exists y; split; [done|].
      exists ys'; split; [by apply IH|done].
Qed.

(** Every result of a comprehension has what its body guarantees. *)
Lemma mapR_Forall {A B} (P : B -> Prop) (f : A -> result E B) l ys :
  (forall x y, f x = Ok y -> P y) -> mapR f l = Ok ys -> Forall P ys.
Proof. rewrite mapR_Ok. intros HP Hl. induction Hl; constructor; eauto. Qed.

Lemma mapR_total {A B} (f : A -> result E B) l :
  (forall x, x ∈ l -> exists y, f x = Ok y) -> exists ys, mapR f l = Ok ys.
Proof.
  induction l as [|x l IH]; intros Hf; simpl; [by eexists|].
  destruct (Hf x) as [y ->]; [by left|]. destruct IH as [ys ->]; [|by eexists].
  intros z Hz. apply Hf. by right.
Qed.

Lemma imapR_from_Ok {A B} (f : nat -> A -> result E B) i l ys :
  imapR_from i f l = Ok ys <->
  length ys = length l /\
  forall j x, l !! j = Some x -> exists y, ys !! j = Some y /\ f (i + j) x = Ok y.
Proof.
  revert i ys; induction l as [|x l IH]; intros i ys; simpl.
  - split; [intros [= <-]; done|]. intros [Hlen _]. by destruct ys.
  - rewrite bind_Ok. setoid_rewrite bind_Ok. split.
    + intros (y & Hy & ys' & Hys & [= <-]). apply IH in Hys as [Hlen Hys].
      split; [simpl; congruence|]. intros [|j] x' Hj; simpl in *.
      * exists y. rewrite Nat.add_0_r. naive_solver.
      * rewrite Nat.add_succ_r. by apply Hys.
    + destruct ys as [|y ys]; simpl; [intros [? _]; lia|]. intros [Hlen Hys].
      exists y. split.
      * destruct (Hys 0 x eq_refl) as (y' & [= <-] & Hf). by rewrite Nat.add_0_r in Hf.
      * exists ys; split; [|done]. apply IH. split; [lia|]. intros j x' Hj.
        specialize (Hys (S j) x' Hj). by rewrite Nat.add_succ_r in Hys.
Qed.

(** Rule for loops: an invariant kept by every successful iteration. *)
Lemma foldR_ind {A B} (P : A -> Prop) (f : A -> B -> result E A) l acc acc' :
  P acc -> (forall a x a', x ∈ l -> P a -> f a x = Ok a' -> P a') ->
  foldR f acc l = Ok acc' -> P acc'.
Proof.
  revert acc; induction l as [|x l IH]; intros acc HP Hstep; simpl.
  - by intros [= <-].
  - rewrite bind_Ok. intros (a & Ha & Hl). apply (IH a); [|set_solver|done].
    eapply Hstep; [|done..]. set_solver.
Qed.
End Result.

Create HintDb dict.
#[global] Hint Rewrite @bind_Ok @raise_if_Ok @ok_or_Ok @reraise_Ok : result.

(** Invert hypotheses saying that a sequence of checks succeeded. *)
Ltac inv_result :=
  cbv beta in *;
  repeat match goal with
  | H : Ok _ = Ok _ |- _ => injection H as H; subst
  | H : Ok _ = Raise _ |- _ => discriminate H
  | H : Raise _ = Ok _ |- _ => discriminate H
  | H : mret _ = Ok _ |- _ => injection H as H; subst
  | H : rbind _ _ = Ok _ |- _ => apply bind_Ok in H; destruct H as (? & ? & H)
  | H : raise_if _ _ = Ok _ |- _ => apply raise_if_Ok in H
  | H : ok_or _ _ = Ok _ |- _ => apply ok_or_Ok in H
  | H : reraise _ _ = Ok _ |- _ => apply reraise_Ok in H
  end.

(** Turn boolean guards that evaluated to [true]/[false] into propositions. *)
Ltac bool_simp :=
  repeat match goal with
  | H : _ && _ = true |- _ => apply andb_true_iff in H; destruct H
  | H : _ || _ = false |- _ => apply orb_false_iff in H; destruct H
  | H : negb _ = true |- _ => apply negb_true_iff in H
  | H : negb _ = false |- _ => apply negb_false_iff in H
  | H : bool_decide _ = true |- _ => apply bool_decide_eq_true in H
  | H : bool_decide _ = false |- _ => apply bool_decide_eq_false in H
  | H : context [true && _] |- _ => rewrite andb_true_l in H
  | H : context [false || _] |- _ => rewrite orb_false_l in H
  end.

(* ------------------------------------------------------------------ *)
(** ** Python dictionaries

    A [dict] iterates in insertion order and several results of the program
    depend on that order, so a dictionary is the list of its items.  [dset]
    keeps the position of a key that is already present, as CPython does. *)

Abbreviation dict K V := (list (K * V)).

Section Dict.
Context {K V : Type} `{!EqDecision K}.
Implicit Types (d : dict K V) (k : K) (v : V).

Fixpoint dget d k : option V :=
  match d with
  | [] => None
  | (k', v) :: d => if decide (k = k') then Some v else dget d k
  end.

Fixpoint dset d k v : dict K V :=
  match d with
  | [] => [(k, v)]
  | (k', v') :: d =>
      if decide (k = k') then (k', v) :: d else (k', v') :: dset d k v
  end.

(** [d.pop(k, None)] without its result. *)
Fixpoint ddel d k : dict K V :=
  match d with
  | [] => []
  | (k', v') :: d => if decide (k = k') then d else (k', v') :: ddel d k
  end.

Definition dkeys d : list K := d.*1.
Definition dvalues d : list V := d.*2.
Definition dhas d k : bool := bool_decide (is_Some (dget d k)).

(** [d.get(k, default)] *)
Definition dget_or d k v : V := default v (dget d k).

(** [d1.update(d2)] *)
Definition dupdate d1 d2 : dict K V :=
  foldl (fun d p => dset d p.1 p.2) d1 d2.

(** [{k: v for k, v in items}] from a sequence of pairs. *)
Definition dict_of (l : list (K * V)) : dict K V := dupdate [] l.

(** The invariant of the representation: keys are distinct. *)
Definition dict_wf d : Prop := NoDup (dkeys d).

Lemma dget_dset d k k' v :
  dget (dset d k v) k' = if decide (k' = k) then Some v else dget d k'.
Proof.
  induction d as [|[k0 v0] d IH]; simpl; [done|].
  destruct (decide (k = k0)) as [->|]; simpl; [by case_decide|].
  rewrite IH. repeat case_decide; congruence.
Qed.

Lemma dget_dset_eq d k v : dget (dset d k v) k = Some v.
Proof. rewrite dget_dset. by rewrite decide_True. Qed.

Lemma dget_dset_ne d k k' v : k' ≠ k -> dget (dset d k v) k' = dget d k'.
Proof. intros. rewrite dget_dset. by rewrite decide_False. Qed.

Lemma dget_None d k : dget d k = None <-> k ∉ dkeys d.
Proof.
  unfold dkeys. induction d as [|[k0 v0] d IH]; simpl; [set_solver|].
  case_decide; subst; set_solver.
Qed.

Lemma dget_elem d k v : dget d k = Some v -> (k, v) ∈ d.
Proof.
  induction d as [|[k0 v0] d IH]; simpl; [done|].
  case_decide; subst; [intros [= ->]|]; set_solver.
Qed.

Lemma dget_Some_key d k v : dget d k = Some v -> k ∈ dkeys d.
Proof. intros H%dget_elem. apply list_elem_of_fmap. by exists (k, v). Qed.

Lemma dkeys_elem d k : k ∈ dkeys d <-> is_Some (dget d k).
Proof.
  rewrite <- not_eq_None_Some. rewrite dget_None.
  destruct (decide (k ∈ dkeys d)); naive_solver.
Qed.

Lemma dhas_true d k : dhas d k = true <-> k ∈ dkeys d.
Proof. unfold dhas. rewrite bool_decide_eq_true. by rewrite dkeys_elem. Qed.

Lemma dhas_false d k : dhas d k = false <-> dget d k = None.
Proof.
  unfold dhas. rewrite bool_decide_eq_false. by rewrite eq_None_not_Some.
Qed.

Lemma elem_dget d k v : dict_wf d -> (k, v) ∈ d <-> dget d k = Some v.
Proof.
  unfold dict_wf, dkeys. induction d as [|[k0 v0] d IH]; simpl.
  { intros _; split; [set_solver|done]. }
  rewrite NoDup_cons. intros [Hn Hwf]. rewrite elem_of_cons, IH by done.
  assert (dget d k = Some v -> k ≠ k0) as Hne.
  { intros Hk ->. apply Hn. by eapply dget_Some_key. }
  case_decide; subst; naive_solver.
Qed.

Lemma dkeys_dset d k v :
  dkeys (dset d k v) = if decide (k ∈ dkeys d) then dkeys d else dkeys d ++ [k].
Proof.
  unfold dkeys. induction d as [|[k0 v0] d IH].
  { rewrite decide_False by set_solver. done. }
  destruct (decide (k = k0)) as [->|Hk].
  - rewrite decide_True by set_solver. simpl. by rewrite decide_True.
  - simpl dset. rewrite decide_False by done. rewrite !fmap_cons, IH. simpl fst.
    destruct (decide (k ∈ d.*1)) as [Hd|Hd].
    + by rewrite decide_True by set_solver.
    + by rewrite decide_False by set_solver.
Qed.

Lemma dkeys_dset_elem d k v k' : k' ∈ dkeys (dset d k v) <-> k' = k \/ k' ∈ dkeys d.
Proof. rewrite dkeys_dset. case_decide; set_solver. Qed.

Lemma dset_fresh d k v : k ∉ dkeys d -> dset d k v = d ++ [(k, v)].
Proof.
  unfold dkeys. induction d as [|[k0 v0] d IH]; cbn; [done|]. rewrite not_elem_of_cons. intros [Hk Hd].
  rewrite decide_False by done. by rewrite IH.
Qed.

Lemma dget_snoc d k v : k ∉ dkeys d -> dget (d ++ [(k, v)]) k = Some v.
Proof. intros Hk. rewrite <- dset_fresh by done. apply dget_dset_eq. Qed.

Lemma dset_snoc d k v v' : k ∉ dkeys d -> dset (d ++ [(k, v)]) k v' = d ++ [(k, v')].
Proof.
  unfold dkeys. induction d as [|[k0 v0] d IH]; cbn; [intros _; by rewrite decide_True|].
  rewrite not_elem_of_cons. intros [Hk Hd]. rewrite decide_False by done. by rewrite IH.
Qed.

Lemma dset_wf d k v : dict_wf d -> dict_wf (dset d k v).
Proof.
  unfold dict_wf. rewrite dkeys_dset. case_decide; [done|]. intros.
  apply NoDup_app. split; [done|]. split; [set_solver|apply NoDup_singleton].
Qed.

Lemma dkeys_ddel_elem d k k' :
  dict_wf d -> k' ∈ dkeys (ddel d k) <-> k' ≠ k /\ k' ∈ dkeys d.
Proof.
  unfold dict_wf, dkeys. induction d as [|[k0 v0] d IH]; simpl; [set_solver|].
  rewrite NoDup_cons. intros [Hn Hwf]. specialize (IH Hwf).
  case_decide; subst; simpl; set_solver.
Qed.

Lemma ddel_sublist d k : ddel d k `sublist_of` d.
Proof.
  induction d as [|[k0 v0] d IH]; simpl; [done|].
  case_decide; [by constructor|by constructor].
Qed.

Lemma ddel_wf d k : dict_wf d -> dict_wf (ddel d k).
Proof.
  unfold dict_wf, dkeys. intros Hwf. eapply sublist_NoDup; [done|].
  apply (fmap_sublist fst), ddel_sublist.
Qed.

Lemma dget_ddel d k k' : dict_wf d ->
  dget (ddel d k) k' = if decide (k' = k) then None else dget d k'.
Proof.
  intros Hwf. apply option_eq. intros v.
  rewrite <- elem_dget by (by apply ddel_wf). case_decide as Hk; subst.
  - split; [|done]. intros Hin. exfalso.
    assert (k ∈ dkeys (ddel d k)) as Hk.
    { apply list_elem_of_fmap. by exists (k, v). }
    apply dkeys_ddel_elem in Hk; [|done]. naive_solver.
  - rewrite <- elem_dget by done. clear Hwf.
    induction d as [|[k0 v0] d IH]; simpl; [done|].
    case_decide; subst; set_solver.
Qed.

Lemma dupdate_wf d1 d2 : dict_wf d1 -> dict_wf (dupdate d1 d2).
Proof.
  unfold dupdate. revert d1; induction d2 as [|[k v] d2 IH]; intros d1 Hwf; simpl; [done|].
  by apply IH, dset_wf.
Qed.

Lemma dupdate_snoc d1 d2 k v : dupdate d1 (d2 ++ [(k, v)]) = dset (dupdate d1 d2) k v.
Proof. unfold dupdate. by rewrite foldl_app. Qed.

(** [update] is right-biased. *)
Lemma dget_dupdate d1 d2 k : dict_wf d2 ->
  dget (dupdate d1 d2) k =
    match dget d2 k with Some v => Some v | None => dget d1 k end.
Proof.
  unfold dict_wf, dkeys, dupdate. revert d1; induction d2 as [|[k0 v0] d2 IH]; intros d1; simpl; [done|].
  rewrite NoDup_cons. intros [Hn Hwf]. rewrite IH by done. rewrite dget_dset.
  assert (dget d2 k0 = None) as Hk0 by (by apply dget_None).
  repeat case_decide; subst; rewrite ?Hk0; done.
Qed.

Lemma dkeys_dupdate_elem d1 d2 k :
  k ∈ dkeys (dupdate d1 d2) <-> k ∈ dkeys d1 \/ k ∈ dkeys d2.
Proof.
  unfold dupdate. revert d1; induction d2 as [|[k0 v0] d2 IH]; intros d1; simpl; [set_solver|].
  rewrite IH, dkeys_dset_elem. unfold dkeys; simpl. set_solver.
Qed.

Lemma dict_of_wf l : dict_wf (dict_of l).
Proof. apply dupdate_wf. constructor. Qed.

(** The comprehension [{k: v for k, v in d.items() if p(k, v)}]. *)
Lemma dict_filter_wf (P : K * V -> Prop) `{!forall x, Decision (P x)} d :
  dict_wf d -> dict_wf (filter P d).
Proof.
  unfold dict_wf, dkeys. intros Hwf. eapply sublist_NoDup; [done|].
  apply (fmap_sublist fst), sublist_filter.
Qed.

Lemma dget_filter (P : K * V -> Prop) `{!forall x, Decision (P x)} d k :
  dict_wf d ->
  dget (filter P d) k =
    match dget d k with
    | Some v => if decide (P (k, v)) then Some v else None
    | None => None
    end.
Proof.
  intros Hwf. apply option_eq. intros v.
  rewrite <- elem_dget by (by apply dict_filter_wf).
  rewrite list_elem_of_filter, elem_dget by done.
  destruct (dget d k) as [v'|]; [|naive_solver]. case_decide; naive_solver.
Qed.

Lemma dict_of_NoDup (l : dict K V) : dict_wf l -> dict_of l = l.
Proof.
  unfold dict_of. intros Hwf.
  enough (forall d, dict_wf (d ++ l) -> dupdate d l = d ++ l) as Hgen by (by apply (Hgen [])).
  clear Hwf. induction l as [|[k v] l IH]; intros d Hwf; simpl; [by rewrite app_nil_r|].
  assert (dset d k v = d ++ [(k, v)]) as Hset.
  { assert (k ∉ dkeys d) as Hk.
    { unfold dict_wf, dkeys in Hwf. rewrite fmap_app, NoDup_app in Hwf.
      destruct Hwf as (_ & Hd & _). intros Hin. apply (Hd k Hin). simpl. set_solver. }
    clear -Hk. induction d as [|[k0 v0] d IHd]; simpl; [done|].
    unfold dkeys in *; simpl in *. case_decide; [set_solver|]. f_equal. set_solver. }
  unfold dupdate; simpl. rewrite Hset. change (dupdate (d ++ [(k, v)]) l = d ++ (k, v) :: l).
  rewrite IH; rewrite <- app_assoc; simpl; done.
Qed.
End Dict.

#[export] Hint Resolve dset_wf ddel_wf dupdate_wf dict_of_wf dict_filter_wf : dict.
#[global] Hint Rewrite @dget_dset_eq : dict.

(** Looking a key up after a mapped comprehension over the values. *)
Lemma dget_fmap {K V W} `{!EqDecision K} (f : V -> W) (d : dict K V) k :
  dget (prod_map id f <$> d) k = f <$> dget d k.
Proof.
  induction d as [|[k0 v0] d IH]; simpl; [done|]. by case_decide.
Qed.

Lemma dkeys_fmap {K V W} (f : V -> W) (d : dict K V) :
  dkeys (prod_map id f <$> d) = dkeys d.
Proof. unfold dkeys. rewrite <- list_fmap_compose. by apply list_fmap_ext. Qed.

(* ------------------------------------------------------------------ *)
(** ** Stable sorting

    [sorted(l, key=...)] for a boolean comparison.  An element is put before
    the equal elements that followed it, so the sort is stable. *)

Section Sort.
Context {A : Type} (le : A -> A -> bool).

Fixpoint sort_insert (x : A) (l : list A) : list A :=
  match l with
  | [] => [x]
  | y :: l' => if le x y then x :: l else y :: sort_insert x l'
  end.

Definition py_sorted (l : list A) : list A := foldr sort_insert [] l.

Lemma sort_insert_perm x l : sort_insert x l ≡ₚ x :: l.
Proof.
  induction l as [|y l IH]; simpl; [done|]. destruct (le x y); [done|].
  rewrite IH. constructor.
Qed.

Lemma py_sorted_perm l : py_sorted l ≡ₚ l.
Proof.
  induction l as [|x l IH]; simpl; [done|]. by rewrite sort_insert_perm, IH.
Qed.

Lemma py_sorted_elem l x : x ∈ py_sorted l <-> x ∈ l.
Proof. by rewrite py_sorted_perm. Qed.

Lemma py_sorted_length l : length (py_sorted l) = length l.
Proof. by rewrite py_sorted_perm. Qed.

Lemma py_sorted_NoDup l : NoDup (py_sorted l) <-> NoDup l.
Proof. by rewrite py_sorted_perm. Qed.

Definition sorted_by : list A -> Prop := Sorted.StronglySorted (fun x y => le x y = true).

Context (le_total : forall x y, le x y = true \/ le y x = true).
Context (le_trans : forall x y z, le x y = true -> le y z = true -> le x z = true).

Lemma sort_insert_sorted x l : sorted_by l -> sorted_by (sort_insert x l).
Proof using le_total le_trans.
  induction 1 as [|y l Hl IH Hy]; simpl; [repeat constructor|].
  destruct (le x y) eqn:Hxy.
  - constructor; [by constructor|]. constructor; [done|].
    eapply Forall_impl; [done|]. simpl. eauto.
  - constructor; [done|]. rewrite sort_insert_perm. constructor; [|done].
    destruct (le_total x y); congruence.
Qed.

Lemma py_sorted_sorted l : sorted_by (py_sorted l).
Proof using le_total le_trans.
  induction l as [|x l IH]; simpl; [constructor|]. by apply sort_insert_sorted.
Qed.

Lemma sorted_snoc l x : sorted_by l -> Forall (fun y => le y x = true) l -> sorted_by (l ++ [x]).
Proof using.
  induction 1 as [|y l Hl IH Hy]; cbn; intros Hx; [repeat constructor|]. apply Forall_cons in Hx as [Hyx Hx].
  constructor; [by apply IH|]. apply Forall_app. by repeat constructor.
Qed.

Lemma sorted_filter (P : A -> Prop) `{!forall x, Decision (P x)} l : sorted_by l -> sorted_by (filter P l).
Proof using.
  induction 1 as [|x l Hl IH Hx]; [constructor|]. rewrite filter_cons. case_decide; [|done]. constructor; [done|].
  apply Forall_forall. intros y Hy. apply list_elem_of_filter in Hy as [_ Hy]. rewrite Forall_forall in Hx. by apply Hx.
Qed.

Lemma sorted_app_le l1 l2 x y : sorted_by (l1 ++ l2) -> x ∈ l1 -> y ∈ l2 -> le x y = true.
Proof using.
  induction l1 as [|z l1 IH]; cbn; intros Hs Hx Hy; [by apply not_elem_of_nil in Hx|].
  inversion Hs as [|? ? Hl Hz]; subst. apply elem_of_cons in Hx as [->|Hx]; [|by apply IH].
  rewrite Forall_forall in Hz. apply Hz, elem_of_app. by right.
Qed.

(** A sorted list is determined by its elements, when the comparison tells
    them apart. *)
Lemma sorted_by_unique l1 l2 :
  (forall x y, x ∈ l1 -> y ∈ l1 -> le x y = true -> le y x = true -> x = y) ->
  sorted_by l1 -> sorted_by l2 -> l1 ≡ₚ l2 -> l1 = l2.
Proof using le_total le_trans.
  intros Ha H1; revert l2; induction H1 as [|x l1 H1 IH Hx]; intros l2 H2 Hp.
  { apply Permutation_nil_l in Hp. by subst. }
  destruct H2 as [|y l2 H2 Hy]; [by apply Permutation_nil_r in Hp|].
  assert (x = y) as ->.
  { assert (x ∈ y :: l2) as Hxin by (rewrite <- Hp; set_solver).
    assert (y ∈ x :: l1) as Hyin by (rewrite Hp; set_solver).
    rewrite Forall_forall in Hx, Hy.
    apply elem_of_cons in Hxin as [?|Hxin]; [done|].
    apply elem_of_cons in Hyin as [?|Hyin']; [done|].
    apply Ha; [set_solver..|by apply Hx|by apply Hy]. }
  f_equal. apply IH; [set_solver|done|]. by apply Permutation_cons_inv in Hp.
Qed.

Lemma py_sorted_unique l1 l2 :
  (forall x y, x ∈ l1 -> y ∈ l1 -> le x y = true -> le y x = true -> x = y) ->
  l1 ≡ₚ l2 -> py_sorted l1 = py_sorted l2.
Proof using le_total le_trans.
  intros Ha Hp. apply sorted_by_unique; [|apply py_sorted_sorted..|by rewrite !py_sorted_perm].
  intros x y. rewrite !py_sorted_elem. apply Ha.
Qed.
End Sort.

(* ------------------------------------------------------------------ *)
(** ** [dict.fromkeys] on a sequence: keep the first occurrence of each *)

Section FromKeys.
Context {A : Type} `{!EqDecision A}.

Fixpoint fromkeys_from (seen : list A) (l : list A) : list A :=
  match l with
  | [] => []
  | x :: l =>
      if decide (x ∈ seen) then fromkeys_from seen l
      else x :: fromkeys_from (x :: seen) l
  end.
Definition fromkeys : list A -> list A := fromkeys_from [].

Lemma fromkeys_from_elem seen l x :
  x ∈ fromkeys_from seen l <-> x ∈ l /\ x ∉ seen.
Proof.
  revert seen; induction l as [|y l IH]; intros seen; simpl; [set_solver|].
  case_decide; [|rewrite elem_of_cons]; rewrite IH; [set_solver|].
  rewrite elem_of_cons. destruct (decide (x = y)); set_solver.
Qed.

Lemma fromkeys_elem l x : x ∈ fromkeys l <-> x ∈ l.
Proof. unfold fromkeys. rewrite fromkeys_from_elem. set_solver. Qed.

Lemma fromkeys_from_NoDup seen l : NoDup (fromkeys_from seen l).
Proof.
  revert seen; induction l as [|y l IH]; intros seen; simpl; [constructor|].
  case_decide; [done|]. constructor; [|done]. rewrite fromkeys_from_elem. set_solver.
Qed.

Lemma fromkeys_NoDup l : NoDup (fromkeys l).
Proof. apply fromkeys_from_NoDup. Qed.

Lemma fromkeys_cons x l : exists l', fromkeys (x :: l) = x :: l'.
Proof. unfold fromkeys; simpl. eauto. Qed.
End FromKeys.

(** [head] of a list as the program's [xs[0] if xs else None]. *)
Lemma head_elem {A} (l : list A) x : head l = Some x -> x ∈ l.
Proof. destruct l; simpl; [done|]. intros [= ->]. set_solver. Qed.

(** First element satisfying a test: [for x in l: if p(x): return x]. *)
Fixpoint find_first {A} (p : A -> bool) (l : list A) : option A :=
  match l with
  | [] => None
  | x :: l => if p x then Some x else find_first p l
  end.

Lemma find_first_Some {A} (p : A -> bool) l x :
  find_first p l = Some x -> x ∈ l /\ p x = true.
Proof.
  induction l as [|y l IH]; simpl; [done|]. destruct (p y) eqn:Hy.
  - intros [= ->]. set_solver.
  - intros [??]%IH. set_solver.
Qed.

Lemma find_first_None {A} (p : A -> bool) l :
  find_first p l = None <-> forall x, x ∈ l -> p x = false.
Proof.
  induction l as [|y l IH]; simpl; [set_solver|]. destruct (p y) eqn:Hy.
  - split; [done|]. intros H. rewrite (H y) in Hy by set_solver. done.
  - rewrite IH. set_solver.
Qed.

Lemma existsb_elem {A} (p : A -> bool) l :
  existsb p l = true <-> exists x, x ∈ l /\ p x = true.
Proof. rewrite existsb_exists. by setoid_rewrite list_elem_of_In. Qed.

Lemma forallb_elem {A} (p : A -> bool) l :
  forallb p l = true <-> forall x, x ∈ l -> p x = true.
Proof. rewrite forallb_forall. by setoid_rewrite list_elem_of_In. Qed.

Lemma filter_all {A} (P : A -> Prop) `{!forall x, Decision (P x)} (l : list A) :
  (forall x, x ∈ l -> P x) -> filter P l = l.
Proof.
  induction l as [|x l IH]; intros HP; [done|]. rewrite filter_cons_True by set_solver.
  f_equal. apply IH. set_solver.
Qed.

(** [List.filter] with a boolean test is stdpp's [filter]. *)
Lemma filter_bool {A} (P : A -> Prop) `{!forall x, Decision (P x)} (l : list A) :
  List.filter (fun x => bool_decide (P x)) l = filter P l.
Proof.
  induction l as [|x l IH]; [done|]. rewrite filter_cons. cbn [List.filter]. rewrite IH.
  by case_bool_decide; case_decide.
Qed.

Lemma omap_ext_elem {A B} (f g : A -> option B) (l : list A) :
  (forall x, x ∈ l -> f x = g x) -> omap f l = omap g l.
Proof.
  induction l as [|x l IH]; intros Hfg; [done|]. cbn [omap list_omap].
  rewrite Hfg by set_solver. assert (omap f l = omap g l) as Heq by (apply IH; set_solver).
  destruct (g x); [f_equal|]; exact Heq.
Qed.

Lemma mapR_ext_elem {E A B} (f g : A -> result E B) (l : list A) :
  (forall x, x ∈ l -> f x = g x) -> mapR f l = mapR g l.
Proof.
  induction l as [|x l IH]; intros Hfg; [done|]. cbn [mapR]. rewrite (Hfg x), IH by set_solver. done.
Qed.

(** Elements are determined by a key that no two of them share. *)
Lemma NoDup_key_inj {A B} (f : A -> B) (l : list A) x y :
  NoDup (f <$> l) -> x ∈ l -> y ∈ l -> f x = f y -> x = y.
Proof.
  induction l as [|z l IH]; cbn; [set_solver|]. rewrite NoDup_cons. intros [Hz Hnd] Hx Hy Hf.
  assert (forall w, w ∈ l -> f z ≠ f w) as Hne.
  { intros w Hw Heq. apply Hz, list_elem_of_fmap. eauto. }
  apply elem_of_cons in Hx as [->|Hx], Hy as [->|Hy]; [done| | |by apply IH].
  - by destruct (Hne y).
  - by destruct (Hne x).
Qed.

Lemma fromkeys_from_NoDup_id {A} `{!EqDecision A} (seen l : list A) :
  NoDup l -> (forall x, x ∈ l -> x ∉ seen) -> fromkeys_from seen l = l.
Proof.
  revert seen; induction l as [|x l IH]; intros seen; [done|]. rewrite NoDup_cons. intros [Hx Hnd] Hs.
  cbn. rewrite decide_False by (apply Hs; set_solver). f_equal. apply IH; [done|].
  intros y Hy. apply not_elem_of_cons. split; [by intros ->|]. apply Hs. set_solver.
Qed.

Lemma fromkeys_from_app {A} `{!EqDecision A} (seen l1 l2 : list A) :
  NoDup l2 -> (forall x, x ∈ l2 -> x ∉ seen /\ x ∉ l1) ->
  fromkeys_from seen (l1 ++ l2) = fromkeys_from seen l1 ++ l2.
Proof.
  revert seen; induction l1 as [|x l1 IH]; intros seen Hnd Hs; cbn.
  - apply fromkeys_from_NoDup_id; [done|]. intros y Hy. by destruct (Hs y Hy).
  - case_decide.
    + apply IH; [done|]. set_solver.
    + cbn. f_equal. apply IH; [done|]. set_solver.
Qed.
