(* ===== verification/PyStr.v ===== *)
(** * Python strings

    A Python [str] is a sequence of code points.  This file defines the string
    operations the program calls, the comparison [sorted] uses, decimal
    printing, UTF-8 and hexadecimal encoding.  What the standard library reads
    from the Unicode database beyond ASCII is the [PyLib] interface. *)

From Stdlib Require Import String Ascii NArith ZArith.
From S2P Require Export Prelude.
Export String.StringSyntax Ascii.AsciiSyntax.

Open Scope N_scope.

Definition pystr := list N.

#[export] Instance pystr_eq_dec : EqDecision pystr := list_eq_dec.
#[export] Instance pystr_countable : Countable pystr := _.

Fixpoint lit (s : string) : pystr :=
  match s with
  | EmptyString => []
  | String c s => N_of_ascii c :: lit s
  end.
Arguments lit s : simpl never.

Notation "§ s" := (lit s%string) (at level 1, s at level 0, format "§ s").

(* ------------------------------------------------------------------ *)
(** ** Characters *)

Definition isascii_c (c : N) : bool := c <? 128.
Definition upper_ascii (c : N) : bool := (65 <=? c) && (c <=? 90).
Definition lower_ascii (c : N) : bool := (97 <=? c) && (c <=? 122).
Definition digit_ascii (c : N) : bool := (48 <=? c) && (c <=? 57).
Definition alpha_ascii (c : N) : bool := upper_ascii c || lower_ascii c.
Definition alnum_ascii (c : N) : bool := alpha_ascii c || digit_ascii c.
(** [str.isspace] on ASCII: TAB..CR, FS..US and the space. *)
Definition space_ascii (c : N) : bool :=
  ((9 <=? c) && (c <=? 13)) || ((28 <=? c) && (c <=? 32)).

Definition to_lower_ascii (c : N) : N := if upper_ascii c then c + 32 else c.
Definition to_upper_ascii (c : N) : N := if lower_ascii c then c - 32 else c.

(** ** The Unicode database

    Beyond ASCII the standard library consults tables that are not part of the
    program.  Every operation below takes the ASCII path itself and asks this
    interface only for the rest; the case mappings are of whole strings. *)
Class PyLib := {
  uni_alpha : N -> bool;
  uni_alnum : N -> bool;
  uni_digit : N -> bool;
  uni_space : N -> bool;
  uni_printable : N -> bool;
  uni_lower : pystr -> pystr;
  uni_upper : pystr -> pystr;
  uni_title : pystr -> pystr;
  uni_casefold : pystr -> pystr;
  (** [int(s)] on a string with a non-ASCII character. *)
  uni_int : pystr -> option Z;
}.

(** The interface of a program that only meets ASCII text. *)
#[export] Instance ascii_lib : PyLib := {|
  uni_alpha _ := false;
  uni_alnum _ := false;
  uni_digit _ := false;
  uni_space _ := false;
  uni_printable _ := false;
  uni_lower s := s;
  uni_upper s := s;
  uni_title s := s;
  uni_casefold s := s;
  uni_int _ := None;
|}.

(* ------------------------------------------------------------------ *)
(** ** Strings *)

Definition str_isascii (s : pystr) : bool := forallb isascii_c s.

(** [bool(s)] *)
Definition str_true (s : pystr) : bool := match s with [] => false | _ => true end.

Fixpoint title_ascii (prev_cased : bool) (s : pystr) : pystr :=
  match s with
  | [] => []
  | c :: s =>
      (if prev_cased then to_lower_ascii c else to_upper_ascii c)
        :: title_ascii (alpha_ascii c) s
  end.

Section Lib.
Context `{PyLib}.

Definition isalpha_c (c : N) : bool := if isascii_c c then alpha_ascii c else uni_alpha c.
Definition isalnum_c (c : N) : bool := if isascii_c c then alnum_ascii c else uni_alnum c.
Definition isdigit_c (c : N) : bool := if isascii_c c then digit_ascii c else uni_digit c.
Definition isspace_c (c : N) : bool := if isascii_c c then space_ascii c else uni_space c.
Definition isprintable_c (c : N) : bool :=
  if isascii_c c then (32 <=? c) && (c <=? 126) else uni_printable c.

(** The predicates are false on the empty string. *)
Definition str_isalpha (s : pystr) : bool := str_true s && forallb isalpha_c s.
Definition str_isalnum (s : pystr) : bool := str_true s && forallb isalnum_c s.
Definition str_isdigit (s : pystr) : bool := str_true s && forallb isdigit_c s.

Definition str_lower (s : pystr) : pystr :=
  if str_isascii s then to_lower_ascii <$> s else uni_lower s.
Definition str_upper (s : pystr) : pystr :=
  if str_isascii s then to_upper_ascii <$> s else uni_upper s.
Definition str_title (s : pystr) : pystr :=
  if str_isascii s then title_ascii false s else uni_title s.
Definition str_casefold (s : pystr) : pystr :=
  if str_isascii s then to_lower_ascii <$> s else uni_casefold s.

(** The longest prefix of characters with a property, and the rest. *)
Fixpoint str_span (p : N -> bool) (s : pystr) : pystr * pystr :=
  match s with
  | [] => ([], [])
  | c :: s' => if p c then let '(a, b) := str_span p s' in (c :: a, b) else ([], s)
  end.

Lemma str_span_app p s rest : Forall (fun c => p c = true) s -> match rest with [] => True | c :: _ => p c = false end ->
  str_span p (s ++ rest) = (s, rest).
Proof.
  intros Hs Hr. induction Hs as [|c s Hc Hs IH]; cbn; [destruct rest as [|c rest]; [done|cbn; by rewrite Hr]|].
  by rewrite Hc, IH.
Qed.

Lemma str_span_spec p s : s = (str_span p s).1 ++ (str_span p s).2.
Proof. induction s as [|c s IH]; cbn; [done|]. destruct (p c); [|done]. destruct (str_span p s). cbn in *. by rewrite <- IH. Qed.


Fixpoint drop_space (s : pystr) : pystr :=
  match s with
  | [] => []
  | c :: s' => if isspace_c c then drop_space s' else s
  end.
Definition str_strip (s : pystr) : pystr := reverse (drop_space (reverse (drop_space s))).
End Lib.

Fixpoint str_startswith (p s : pystr) : bool :=
  match p, s with
  | [], _ => true
  | _, [] => false
  | a :: p, b :: s => (a =? b) && str_startswith p s
  end.

Definition str_endswith (p s : pystr) : bool := str_startswith (reverse p) (reverse s).

(** [c in s] for a single character. *)
Definition str_has (c : N) (s : pystr) : bool := existsb (N.eqb c) s.

(** [p in s] *)
Fixpoint str_contains (p s : pystr) : bool :=
  str_startswith p s || match s with [] => false | _ :: s => str_contains p s end.

(** [s.removeprefix(p)] *)
Definition str_removeprefix (p s : pystr) : pystr :=
  if str_startswith p s then drop (length p) s else s.

(** [s.split(c)] for a single character. *)
Fixpoint str_split (c : N) (s : pystr) : list pystr :=
  match s with
  | [] => [[]]
  | x :: s =>
      match str_split c s with
      | [] => [[x]]
      | w :: ws => if x =? c then [] :: w :: ws else (x :: w) :: ws
      end
  end.

(** [s.split(c, 1)[0]] and the part after the first separator, if any. *)
Fixpoint str_before (c : N) (s : pystr) : pystr :=
  match s with
  | [] => []
  | x :: s => if x =? c then [] else x :: str_before c s
  end.
Fixpoint str_after (c : N) (s : pystr) : option pystr :=
  match s with
  | [] => None
  | x :: s => if x =? c then Some s else str_after c s
  end.

(** [s.rpartition(c)[0]] *)
Definition str_rpartition_head (c : N) (s : pystr) : pystr :=
  match str_after c (reverse s) with Some r => reverse r | None => [] end.

Definition str_replace_c (a b : N) (s : pystr) : pystr :=
  (fun c => if c =? a then b else c) <$> s.

Fixpoint str_join (sep : pystr) (l : list pystr) : pystr :=
  match l with
  | [] => []
  | [s] => s
  | s :: l => s ++ sep ++ str_join sep l
  end.

(** Comparison by code points, as [sorted] and [<=] on [str]. *)
Fixpoint str_leb (s t : pystr) : bool :=
  match s, t with
  | [], _ => true
  | _ :: _, [] => false
  | a :: s, b :: t => (a <? b) || ((a =? b) && str_leb s t)
  end.

Lemma str_leb_refl s : str_leb s s = true.
Proof. induction s as [|c s IH]; simpl; [done|]. rewrite N.eqb_refl, IH. by destruct (c <? c). Qed.

Lemma str_leb_total s t : str_leb s t = true \/ str_leb t s = true.
Proof.
  revert t; induction s as [|a s IH]; intros [|b t]; simpl; auto.
  destruct (N.lt_trichotomy a b) as [Hlt|[->|Hlt]].
  - apply N.ltb_lt in Hlt. rewrite Hlt. auto.
  - rewrite N.eqb_refl. destruct (IH t) as [->| ->]; rewrite ?andb_true_r, ?orb_true_r; auto.
  - apply N.ltb_lt in Hlt. rewrite Hlt. auto.
Qed.

Lemma str_leb_cons a s b t :
  str_leb (a :: s) (b :: t) = true <-> a < b \/ (a = b /\ str_leb s t = true).
Proof.
  simpl. rewrite orb_true_iff, andb_true_iff, N.ltb_lt, N.eqb_eq. done.
Qed.

Lemma str_leb_trans s t u :
  str_leb s t = true -> str_leb t u = true -> str_leb s u = true.
Proof.
  revert t u; induction s as [|a s IH]; intros [|b t] [|c u]; try done.
  rewrite !str_leb_cons. intros [Hab|[-> Hst]] [Hbc|[-> Htu]]; [left; lia|left; lia|left; lia|].
  right. eauto.
Qed.

Lemma str_leb_antisym s t : str_leb s t = true -> str_leb t s = true -> s = t.
Proof.
  revert t; induction s as [|a s IH]; intros [|b t]; try done.
  rewrite !str_leb_cons. intros [Hab|[-> Hst]] [Hba|[? Hts]]; [lia..|]. f_equal. auto.
Qed.

(** [sorted] on strings. *)
Definition sorted_strs : list pystr -> list pystr := py_sorted str_leb.

Lemma sorted_strs_elem l x : x ∈ sorted_strs l <-> x ∈ l.
Proof. apply py_sorted_elem. Qed.

Lemma sorted_strs_unique l1 l2 : l1 ≡ₚ l2 -> sorted_strs l1 = sorted_strs l2.
Proof.
  apply py_sorted_unique; [apply str_leb_total|apply str_leb_trans|].
  intros x y _ _. apply str_leb_antisym.
Qed.

Lemma str_startswith_spec p s : str_startswith p s = true <-> exists r, s = p ++ r.
Proof.
  revert s; induction p as [|a p IH]; intros s; simpl.
  - split; [eauto|done].
  - destruct s as [|b s]; [split; [done|intros [r ?]; done]|].
    rewrite andb_true_iff, N.eqb_eq, IH. split.
    + intros [-> [r ->]]. eauto.
    + intros [r [= -> ->]]. eauto.
Qed.

Lemma str_startswith_app p s : str_startswith p (p ++ s) = true.
Proof. apply str_startswith_spec. eauto. Qed.

Lemma str_startswith_trans p q s :
  str_startswith p q = true -> str_startswith q s = true -> str_startswith p s = true.
Proof.
  rewrite !str_startswith_spec. intros [r ->] [r' ->]. exists (r ++ r'). by rewrite <- app_assoc.
Qed.

Lemma str_endswith_spec p s : str_endswith p s = true <-> exists r, s = r ++ p.
Proof.
  unfold str_endswith. rewrite str_startswith_spec. split; intros [r Hr].
  - exists (reverse r). apply (inj reverse). by rewrite reverse_app, reverse_involutive.
  - exists (reverse r). by rewrite Hr, reverse_app.
Qed.

Lemma str_has_spec c s : str_has c s = true <-> c ∈ s.
Proof.
  unfold str_has. rewrite existsb_elem. setoid_rewrite N.eqb_eq. naive_solver.
Qed.

Lemma str_after_before c s r : str_after c s = Some r -> s = str_before c s ++ c :: r.
Proof.
  induction s as [|x s IH]; simpl; [done|]. destruct (x =? c) eqn:E.
  - apply N.eqb_eq in E as ->. by intros [= ->].
  - intros ?. simpl. f_equal. auto.
Qed.

Lemma str_after_app c p s : c ∉ p -> str_after c (p ++ c :: s) = Some s.
Proof.
  induction p as [|x p IH]; simpl; [by rewrite N.eqb_refl|].
  intros Hn. destruct (N.eqb_spec x c); [set_solver|]. apply IH. set_solver.
Qed.

Lemma str_split_ne c s : str_split c s ≠ [].
Proof. destruct s; simpl; [done|]. destruct (str_split c s); [done|]. by destruct (_ =? _). Qed.

(** [sep.join] undoes [split]. *)
Lemma str_join_split c s : str_join [c] (str_split c s) = s.
Proof.
  induction s as [|x s IH]; simpl; [done|].
  destruct (str_split c s) as [|w ws] eqn:Hs; [by apply str_split_ne in Hs|].
  destruct (N.eqb_spec x c) as [->|].
  - simpl in *. by rewrite IH.
  - destruct ws; simpl in *; by rewrite IH.
Qed.

(** [split] undoes [join] when the pieces do not contain the separator. *)
Lemma str_split_piece c w : c ∉ w -> str_split c w = [w].
Proof.
  induction w as [|x w IH]; simpl; [done|]. intros Hn.
  rewrite IH by set_solver. destruct (N.eqb_spec x c); [set_solver|done].
Qed.

Lemma str_split_app c w s : c ∉ w -> str_split c (w ++ c :: s) = w :: str_split c s.
Proof.
  induction w as [|x w IH]; simpl; intros Hn.
  - destruct (str_split c s) eqn:Hs; [by apply str_split_ne in Hs|]. by rewrite N.eqb_refl.
  - rewrite IH by set_solver. destruct (N.eqb_spec x c); [set_solver|done].
Qed.

Lemma str_split_join c l :
  l ≠ [] -> Forall (fun w => c ∉ w) l -> str_split c (str_join [c] l) = l.
Proof.
  intros Hne Hl. induction Hl as [|w l Hw Hl IH]; [done|].
  destruct l as [|w' l]; simpl; [by apply str_split_piece|].
  rewrite str_split_app by done. f_equal. by apply IH.
Qed.

(* ------------------------------------------------------------------ *)
(** ** Decimal printing: [str(n)] for an integer *)

Fixpoint dec_digits (fuel : nat) (n : N) : pystr :=
  match fuel with
  | O => []
  | S fuel => if n <? 10 then [48 + n] else dec_digits fuel (n / 10) ++ [48 + n mod 10]
  end.

(** The number of bits bounds the number of decimal digits. *)
Definition dec_N (n : N) : pystr := dec_digits (S (N.size_nat n)) n.

Definition dec_Z (z : Z) : pystr :=
  match z with
  | Z0 => dec_N 0
  | Zpos p => dec_N (Npos p)
  | Zneg p => 45 :: dec_N (Npos p)
  end.

(** The number a sequence of ASCII digits denotes. *)
Definition digits_value (s : pystr) : N := foldl (fun acc c => 10 * acc + (c - 48)) 0 s.

#[local] Ltac Zify.zify_post_hook ::= Z.to_euclidean_division_equations.

Lemma size_nat_div n : n <> 0 -> (N.size_nat (n / 10) < N.size_nat n)%nat.
Proof.
  intros Hn.
  assert (forall m, m <> 0 -> N.size m = N.succ (N.log2 m)) as Hsz by (apply N.size_log2).
  assert (forall m, N.of_nat (N.size_nat m) = N.size m) as Hnat.
  { intros [|p]; simpl; [done|]. induction p as [p IH|p IH|]; simpl in *; lia. }
  enough (N.size (n / 10) < N.size n) by (rewrite <- !Hnat in *; lia).
  rewrite (Hsz n Hn). destruct (N.eq_dec (n / 10) 0) as [->|Hd]; [simpl; lia|].
  rewrite Hsz by done. enough (N.log2 (n / 10) < N.log2 n) by lia.
  apply N.log2_lt_pow2; [lia|].
  pose proof (N.log2_spec n ltac:(lia)) as [_ Hlog].
  apply N.Div0.div_lt_upper_bound. rewrite N.pow_succ_r' in Hlog. lia.
Qed.

Lemma digits_value_app s c : digits_value (s ++ [c]) = 10 * digits_value s + (c - 48).
Proof. unfold digits_value. by rewrite foldl_app. Qed.

Lemma dec_digits_value fuel n :
  (N.size_nat n < fuel)%nat -> digits_value (dec_digits fuel n) = n.
Proof.
  revert n; induction fuel as [|fuel IH]; intros n Hf; [lia|]. cbn [dec_digits].
  destruct (N.ltb_spec n 10) as [Hn|Hn].
  - unfold digits_value. cbn -[N.add N.sub N.mul]. lia.
  - rewrite digits_value_app, IH.
    + pose proof (N.div_mod n 10 ltac:(lia)). lia.
    + pose proof (size_nat_div n ltac:(lia)). lia.
Qed.

(** Printing an integer and reading its digits back. *)
Lemma dec_N_value n : digits_value (dec_N n) = n.
Proof. apply dec_digits_value. lia. Qed.

#[export] Instance dec_N_inj : Inj (=) (=) dec_N.
Proof. intros n m Hnm. by rewrite <- (dec_N_value n), Hnm, dec_N_value. Qed.

Lemma dec_digits_digit fuel n : Forall (fun c => digit_ascii c = true) (dec_digits fuel n).
Proof.
  unfold digit_ascii. revert n; induction fuel as [|fuel IH]; intros n; cbn [dec_digits]; [constructor|].
  destruct (N.ltb_spec n 10).
  - repeat constructor. rewrite andb_true_iff, !N.leb_le. lia.
  - apply Forall_app. split; [done|]. repeat constructor.
    rewrite andb_true_iff, !N.leb_le. pose proof (N.mod_lt n 10). lia.
Qed.

Lemma dec_N_digits n : Forall (fun c => digit_ascii c = true) (dec_N n).
Proof. apply dec_digits_digit. Qed.

#[export] Instance dec_Z_inj : Inj (=) (=) dec_Z.
Proof.
  assert (forall n s, dec_N n <> 45 :: s) as Hsign.
  { intros n s Heq. pose proof (dec_N_digits n) as Hd. rewrite Heq in Hd.
    by inversion Hd. }
  intros [|p|p] [|q|q]; cbn [dec_Z]; intros Heq;
    try (by apply (inj dec_N) in Heq; congruence);
    try (by exfalso; eapply Hsign; (exact Heq || exact (eq_sym Heq))).
  injection Heq as Heq%(inj dec_N). congruence.
Qed.

(* ------------------------------------------------------------------ *)
(** ** UTF-8

    [s.encode("utf-8")] raises on a surrogate code point. *)

Definition is_scalar (c : N) : bool :=
  (c <? 55296) || ((57344 <=? c) && (c <? 1114112)).

Definition utf8_char (c : N) : list N :=
  if c <? 128 then [c]
  else if c <? 2048 then [192 + c / 64; 128 + c mod 64]
  else if c <? 65536 then [224 + c / 4096; 128 + (c / 64) mod 64; 128 + c mod 64]
  else [240 + c / 262144; 128 + (c / 4096) mod 64; 128 + (c / 64) mod 64; 128 + c mod 64].

Definition utf8_encode (s : pystr) : option (list N) :=
  if forallb is_scalar s then Some (s ≫= utf8_char) else None.

(** Reading one code point back. *)
Definition utf8_head (b : list N) : option (N * list N) :=
  match b with
  | [] => None
  | b0 :: r =>
      if b0 <? 128 then Some (b0, r)
      else if b0 <? 224 then
        match r with b1 :: r => Some ((b0 - 192) * 64 + (b1 - 128), r) | _ => None end
      else if b0 <? 240 then
        match r with
        | b1 :: b2 :: r => Some ((b0 - 224) * 4096 + (b1 - 128) * 64 + (b2 - 128), r)
        | _ => None end
      else
        match r with
        | b1 :: b2 :: b3 :: r =>
            Some ((b0 - 240) * 262144 + (b1 - 128) * 4096 + (b2 - 128) * 64 + (b3 - 128), r)
        | _ => None end
  end.

#[local] Ltac Zify.zify_post_hook ::= idtac.

Lemma div_mod_64 c : c = 64 * (c / 64) + c mod 64.
Proof. apply N.div_mod. lia. Qed.

Lemma utf8_head_char c b : c < 1114112 -> utf8_head (utf8_char c ++ b) = Some (c, b).
Proof.
  intros Hc. unfold utf8_char.
  assert (c / 4096 = c / 64 / 64) as -> by (by rewrite N.Div0.div_div).
  assert (c / 262144 = c / 64 / 64 / 64) as -> by (by rewrite !N.Div0.div_div).
  assert (forall x, x mod 64 < 64) as Hm by (intros; by apply N.mod_lt).
  pose proof (div_mod_64 c) as E0. pose proof (div_mod_64 (c / 64)) as E1.
  pose proof (div_mod_64 (c / 64 / 64)) as E2.
  pose proof (Hm c) as R0. pose proof (Hm (c / 64)) as R1. pose proof (Hm (c / 64 / 64)) as R2.
  revert E0 E1 E2 R0 R1 R2.
  generalize (c mod 64), ((c / 64) mod 64), ((c / 64 / 64) mod 64), (c / 64 / 64 / 64).
  generalize (c / 64 / 64). generalize (c / 64). intros q1 q2 r0 r1 r2 q3 E0 E1 E2 R0 R1 R2.
  repeat match goal with |- context [if ?x <? ?y then _ else _] =>
    destruct (N.ltb_spec x y); [|try lia]; simpl utf8_head end;
  cbn -[N.ltb N.add N.mul N.sub];
  repeat match goal with |- context [?x <? ?y] => destruct (N.ltb_spec x y); try lia end;
  repeat f_equal; lia.
Qed.

Lemma is_scalar_bound c : is_scalar c = true -> c < 1114112.
Proof.
  unfold is_scalar. rewrite orb_true_iff, andb_true_iff, N.leb_le, !N.ltb_lt. lia.
Qed.

(** UTF-8 encoding loses nothing. *)
Lemma utf8_encode_inj s t b : utf8_encode s = Some b -> utf8_encode t = Some b -> s = t.
Proof.
  unfold utf8_encode. destruct (forallb is_scalar s) eqn:Hs; [|done].
  destruct (forallb is_scalar t) eqn:Ht; [|done].
  intros [= <-] [= Heq]. revert t Ht Heq.
  assert (forall c l, utf8_char c ++ l <> []) as Hne.
  { intros c l. unfold utf8_char. repeat case_match; done. }
  induction s as [|c s IH]; intros [|d t]; simpl; try done.
  - intros _ Heq. by apply Hne in Heq.
  - intros _ Heq. symmetry in Heq. by apply Hne in Heq.
  - simpl in Hs. bool_simp. intros Hd Heq. bool_simp.
    pose proof (utf8_head_char c (s ≫= utf8_char) ltac:(by apply is_scalar_bound)) as Hc.
    pose proof (utf8_head_char d (t ≫= utf8_char) ltac:(by apply is_scalar_bound)) as Hd'.
    assert (utf8_head (utf8_char d ++ t ≫= utf8_char) = Some (c, s ≫= utf8_char)) as Hcd.
    { rewrite <- Hc. f_equal. exact Heq. }
    rewrite Hd' in Hcd. injection Hcd as <- E.
    f_equal. by apply IH.
Qed.

(** [data.decode("utf-8")]: the strict decoder accepts exactly the encodings. *)
Definition utf8_step (b : list N) : option (N * list N) :=
  match utf8_head b with
  | Some (c, r) => if is_scalar c && bool_decide (b = utf8_char c ++ r) then Some (c, r) else None
  | None => None
  end.

Fixpoint utf8_decode_from (fuel : nat) (b : list N) : option pystr :=
  match fuel with
  | O => None
  | S fuel =>
      match b with
      | [] => Some []
      | _ => match utf8_step b with
             | Some (c, r) => cons c <$> utf8_decode_from fuel r
             | None => None
             end
      end
  end.

Definition utf8_decode (b : list N) : option pystr := utf8_decode_from (S (length b)) b.

Lemma utf8_char_ne c : utf8_char c <> [].
Proof. unfold utf8_char. by repeat case_match. Qed.

Lemma utf8_decode_from_encode fuel s : forallb is_scalar s = true -> (length (s ≫= utf8_char) < fuel)%nat ->
  utf8_decode_from fuel (s ≫= utf8_char) = Some s.
Proof.
  revert s; induction fuel as [|fuel IH]; intros s Hs Hf; [lia|]. destruct s as [|c s]; [done|].
  cbn [forallb] in Hs. apply andb_true_iff in Hs as [Hc Hs]. change ((c :: s) ≫= utf8_char) with (utf8_char c ++ (s ≫= utf8_char)) in *.
  pose proof (utf8_char_ne c) as Hne. destruct (utf8_char c) as [|x xs] eqn:Hx; [done|].
  cbn [app utf8_decode_from]. change (x :: xs ++ (s ≫= utf8_char)) with ((x :: xs) ++ (s ≫= utf8_char)). rewrite <- Hx.
  unfold utf8_step. rewrite utf8_head_char by (by apply is_scalar_bound). rewrite Hc, bool_decide_eq_true_2 by done. cbn [andb].
  rewrite IH; [done|done|]. cbn in Hf. rewrite length_app in Hf. lia.
Qed.

Lemma utf8_decode_encode s b : utf8_encode s = Some b -> utf8_decode b = Some s.
Proof.
  unfold utf8_encode. destruct (forallb is_scalar s) eqn:Hs; [|done]. intros [= <-].
  apply utf8_decode_from_encode; [done|lia].
Qed.

(** What is accepted is an encoding. *)
Lemma utf8_decode_from_sound fuel b s : utf8_decode_from fuel b = Some s -> utf8_encode s = Some b.
Proof.
  revert b s; induction fuel as [|fuel IH]; intros b s; [done|]. cbn [utf8_decode_from].
  destruct b as [|x b]; [by intros [= <-]|]. set (bs := x :: b) in *. unfold utf8_step.
  destruct (utf8_head bs) as [[c r]|]; [|done]. destruct (is_scalar c) eqn:Hc; cbn [andb]; [|done].
  case_bool_decide as Hb; [|done]. destruct (utf8_decode_from fuel r) as [s'|] eqn:Hr; [|done]. cbn. intros [= <-].
  apply IH in Hr. unfold utf8_encode in *. cbn [forallb]. rewrite Hc. cbn [andb].
  destruct (forallb is_scalar s'); [|done]. injection Hr as Hr. rewrite Hb. f_equal. cbn. by rewrite Hr.
Qed.

(** ** Hexadecimal: [bytes.hex()] *)

Definition hex_digit (n : N) : N := if n <? 10 then 48 + n else 87 + n.
Definition hex_byte (b : N) : pystr := [hex_digit (b / 16); hex_digit (b mod 16)].
Definition hex (bs : list N) : pystr := bs ≫= hex_byte.

Lemma hex_digit_inj n m : n < 16 -> m < 16 -> hex_digit n = hex_digit m -> n = m.
Proof.
  unfold hex_digit. intros ??. destruct (N.ltb_spec n 10), (N.ltb_spec m 10); lia.
Qed.

Lemma hex_inj l1 l2 :
  Forall (fun b => b < 256) l1 -> Forall (fun b => b < 256) l2 -> hex l1 = hex l2 -> l1 = l2.
Proof.
  intros H1; revert l2; induction H1 as [|a l1 Ha H1 IH]; intros l2 H2; destruct H2 as [|b l2 Hb H2];
    try done.
  unfold hex; simpl. intros [= Hq Hr Hl].
  assert (forall x, x < 256 -> x / 16 < 16) as Hdiv.
  { intros x Hx. by apply N.Div0.div_lt_upper_bound. }
  apply hex_digit_inj in Hq; [|auto..].
  apply hex_digit_inj in Hr; [|by apply N.mod_lt..].
  f_equal; [|by apply IH].
  rewrite (N.div_mod a 16), (N.div_mod b 16) by done. congruence.
Qed.

Lemma utf8_bytes s b : utf8_encode s = Some b -> Forall (fun x => x < 256) b.
Proof.
  unfold utf8_encode. destruct (forallb is_scalar s) eqn:Hs; [|done]. intros [= <-].
  apply Forall_forall. intros x (c & Hx & Hc)%list_elem_of_bind.
  rewrite forallb_elem in Hs. specialize (Hs c Hc) as Hb%is_scalar_bound.
  assert (c / 262144 < 5) by (apply N.Div0.div_lt_upper_bound; lia).
  assert (forall y, y mod 64 < 64) as Hm by (intros; by apply N.mod_lt).
  pose proof (Hm c). pose proof (Hm (c / 64)). pose proof (Hm (c / 4096)).
  unfold utf8_char in Hx. repeat match type of Hx with context [if ?x <? ?y then _ else _] =>
    destruct (N.ltb_spec x y) end;
  repeat (apply elem_of_cons in Hx as [-> |Hx]); try (by apply not_elem_of_nil in Hx); try lia.
  - assert (c / 64 < 32) by (apply N.Div0.div_lt_upper_bound; lia). lia.
  - assert (c / 4096 < 16) by (apply N.Div0.div_lt_upper_bound; lia). lia.
Qed.

Lemma hex_digit_ascii n : n < 16 -> alnum_ascii (hex_digit n) = true.
Proof.
  unfold hex_digit, alnum_ascii, alpha_ascii, upper_ascii, lower_ascii, digit_ascii. intros.
  destruct (N.ltb_spec n 10);
    rewrite !orb_true_iff, !andb_true_iff, !N.leb_le; lia.
Qed.
