(* ===== verification/PyCase.v ===== *)
(** * Case mappings of ASCII strings

    [lower], [upper] and [title] keep the length of an ASCII string and the kind
    of each of its characters, and are idempotent. *)

From Stdlib Require Import NArith.
From S2P Require Export PyStr.

Definition ascii (s : pystr) : Prop := Forall (fun c => isascii_c c = true) s.

Lemma ascii_spec s : str_isascii s = true <-> ascii s.
Proof. unfold str_isascii, ascii. rewrite forallb_forall, Forall_forall. by setoid_rewrite list_elem_of_In. Qed.

Lemma char_bool (P Q : N -> bool) : (forall c, c < 128 -> P c = Q c) -> forall c, isascii_c c = true -> P c = Q c.
Proof. intros HPQ c Hc. apply HPQ. by apply N.ltb_lt. Qed.

Ltac char_cases :=
  unfold isascii_c, to_lower_ascii, to_upper_ascii, alnum_ascii, alpha_ascii, upper_ascii,
    lower_ascii, digit_ascii in *;
  repeat match goal with
  | |- context [?a <=? ?b] => destruct (N.leb_spec a b)
  | H : context [?a <=? ?b] |- _ => destruct (N.leb_spec a b)
  | |- context [?a <? ?b] => destruct (N.ltb_spec a b)
  | H : context [?a <? ?b] |- _ => destruct (N.ltb_spec a b)
  end; cbn [andb orb] in *; try done; try lia.

(** [f] maps ASCII characters to ASCII characters of the same kind. *)
Record keeps_kind (f : N -> N) : Prop := {
  kind_ascii c : isascii_c c = true -> isascii_c (f c) = true;
  kind_alpha c : alpha_ascii (f c) = alpha_ascii c;
  kind_digit c : digit_ascii (f c) = digit_ascii c;
}.

Lemma lower_kind : keeps_kind to_lower_ascii.
Proof. split; intros c; char_cases. Qed.
Lemma upper_kind : keeps_kind to_upper_ascii.
Proof. split; intros c; char_cases. Qed.

(** Strings of the same length whose characters have the same kinds. *)
Definition same_kind : pystr -> pystr -> Prop :=
  Forall2 (fun c d => isascii_c c = true /\ isascii_c d = true /\
                      alpha_ascii c = alpha_ascii d /\ digit_ascii c = digit_ascii d).

Lemma map_same_kind f s : keeps_kind f -> ascii s -> same_kind s (f <$> s).
Proof.
  intros [Ha Hal Hd]. induction 1 as [|c s Hc Hs IH]; cbn; constructor; [|done].
  by rewrite Hal, Hd, Ha.
Qed.

Lemma title_same_kind b s : ascii s -> same_kind s (title_ascii b s).
Proof.
  intros Hs. revert b; induction Hs as [|c s Hc Hs IH]; intros b; cbn; constructor; [|apply IH].
  destruct b.
  - destruct lower_kind as [Ha Hal Hd]. by rewrite Hal, Hd, Ha.
  - destruct upper_kind as [Ha Hal Hd]. by rewrite Hal, Hd, Ha.
Qed.

Lemma same_kind_ascii s t : same_kind s t -> ascii s /\ ascii t.
Proof. induction 1 as [|c d s t (Hc & Hd & _) _ [? ?]]; split; by constructor. Qed.

Section Kinds.
Context `{PyLib}.

Lemma lower_ascii_eq s : ascii s -> str_lower s = to_lower_ascii <$> s.
Proof. intros Hs. unfold str_lower. by rewrite (proj2 (ascii_spec s) Hs). Qed.
Lemma upper_ascii_eq s : ascii s -> str_upper s = to_upper_ascii <$> s.
Proof. intros Hs. unfold str_upper. by rewrite (proj2 (ascii_spec s) Hs). Qed.
Lemma title_ascii_eq s : ascii s -> str_title s = title_ascii false s.
Proof. intros Hs. unfold str_title. by rewrite (proj2 (ascii_spec s) Hs). Qed.

Lemma lower_same_kind s : ascii s -> same_kind s (str_lower s).
Proof. intros. rewrite lower_ascii_eq by done. by apply map_same_kind; [apply lower_kind|]. Qed.
Lemma upper_same_kind s : ascii s -> same_kind s (str_upper s).
Proof. intros. rewrite upper_ascii_eq by done. by apply map_same_kind; [apply upper_kind|]. Qed.
Lemma title_same_kind_str s : ascii s -> same_kind s (str_title s).
Proof. intros. rewrite title_ascii_eq by done. by apply title_same_kind. Qed.

Lemma lower_idem s : ascii s -> str_lower (str_lower s) = str_lower s.
Proof.
  intros Hs. pose proof (lower_same_kind s Hs) as [_ Hl]%same_kind_ascii.
  rewrite (lower_ascii_eq (str_lower s)) by done. rewrite lower_ascii_eq by done.
  rewrite <- list_fmap_compose. apply list_fmap_ext. intros _ c _. cbn. char_cases.
Qed.
Lemma upper_idem s : ascii s -> str_upper (str_upper s) = str_upper s.
Proof.
  intros Hs. pose proof (upper_same_kind s Hs) as [_ Hl]%same_kind_ascii.
  rewrite (upper_ascii_eq (str_upper s)) by done. rewrite upper_ascii_eq by done.
  rewrite <- list_fmap_compose. apply list_fmap_ext. intros _ c _. cbn. char_cases.
Qed.
Lemma title_title b s : title_ascii b (title_ascii b s) = title_ascii b s.
Proof.
  revert b; induction s as [|c s IH]; intros b; cbn; [done|].
  replace (alpha_ascii (if b then to_lower_ascii c else to_upper_ascii c)) with (alpha_ascii c).
  - rewrite IH. f_equal. destruct b; char_cases.
  - destruct b; [by rewrite (kind_alpha _ lower_kind)|by rewrite (kind_alpha _ upper_kind)].
Qed.
Lemma title_idem s : ascii s -> str_title (str_title s) = str_title s.
Proof.
  intros Hs. pose proof (title_same_kind_str s Hs) as [_ Hl]%same_kind_ascii.
  rewrite (title_ascii_eq (str_title s)) by done. rewrite title_ascii_eq by done. apply title_title.
Qed.
Lemma upper_lower s : ascii s -> str_upper (str_lower s) = str_upper s.
Proof.
  intros Hs. pose proof (lower_same_kind s Hs) as [_ Hl]%same_kind_ascii.
  rewrite (upper_ascii_eq (str_lower s)) by done. rewrite lower_ascii_eq, upper_ascii_eq by done.
  rewrite <- list_fmap_compose. apply list_fmap_ext. intros _ c _. cbn. char_cases.
Qed.

Lemma kind_length s t : same_kind s t -> length s = length t.
Proof. apply Forall2_length. Qed.
Lemma kind_true s t : same_kind s t -> str_true s = str_true t.
Proof. by inversion 1. Qed.

Lemma kind_isalpha s t : same_kind s t -> str_isalpha s = str_isalpha t.
Proof.
  intros Hk. unfold str_isalpha. rewrite (kind_true s t Hk). f_equal.
  induction Hk as [|c d s t (Hc & Hd & Ha & _) _ IH]; cbn; [done|].
  unfold isalpha_c at 1 3. by rewrite IH, Hc, Hd, Ha.
Qed.
Lemma kind_isdigit s t : same_kind s t -> str_isdigit s = str_isdigit t.
Proof.
  intros Hk. unfold str_isdigit. rewrite (kind_true s t Hk). f_equal.
  induction Hk as [|c d s t (Hc & Hd & _ & Ha) _ IH]; cbn; [done|].
  unfold isdigit_c at 1 3. by rewrite IH, Hc, Hd, Ha.
Qed.
Lemma kind_isalnum s t : same_kind s t -> str_isalnum s = str_isalnum t.
Proof.
  intros Hk. unfold str_isalnum. rewrite (kind_true s t Hk). f_equal.
  induction Hk as [|c d s t (Hc & Hd & Ha & Hdig) _ IH]; cbn; [done|].
  unfold isalnum_c at 1 3, alnum_ascii. by rewrite IH, Hc, Hd, Ha, Hdig.
Qed.

End Kinds.
