(* ===== verification/Regex.v ===== *)
(** * Regular expressions

    The program validates identifiers with [re.fullmatch] on patterns that use
    classes, sequence, alternation and repetition.  [fullmatch] decides them by
    derivatives; [fullmatch_spec] relates it to the language of the pattern.
    An anchored pattern [^...$] given to [fullmatch] is the pattern itself. *)

From S2P Require Export PyStr.

Inductive regex :=
| REmpty
| REps
| RClass (p : N -> bool)
| RSeq (r1 r2 : regex)
| RAlt (r1 r2 : regex)
| RStar (r : regex).

(** The words a pattern denotes. *)
Inductive matches : regex -> pystr -> Prop :=
| m_eps : matches REps []
| m_class p c : p c = true -> matches (RClass p) [c]
| m_seq r1 r2 s1 s2 : matches r1 s1 -> matches r2 s2 -> matches (RSeq r1 r2) (s1 ++ s2)
| m_alt_l r1 r2 s : matches r1 s -> matches (RAlt r1 r2) s
| m_alt_r r1 r2 s : matches r2 s -> matches (RAlt r1 r2) s
| m_star_nil r : matches (RStar r) []
| m_star_app r s1 s2 : matches r s1 -> matches (RStar r) s2 -> matches (RStar r) (s1 ++ s2).

Create HintDb regex.
#[export] Hint Constructors matches : regex.

Fixpoint nullable (r : regex) : bool :=
  match r with
  | REmpty | RClass _ => false
  | REps | RStar _ => true
  | RSeq r1 r2 => nullable r1 && nullable r2
  | RAlt r1 r2 => nullable r1 || nullable r2
  end.

(** Constructors that prune, so derivatives stay small. *)
Definition rseq (r1 r2 : regex) : regex :=
  match r1, r2 with
  | REmpty, _ | _, REmpty => REmpty
  | REps, r | r, REps => r
  | _, _ => RSeq r1 r2
  end.
Definition ralt (r1 r2 : regex) : regex :=
  match r1, r2 with
  | REmpty, r | r, REmpty => r
  | _, _ => RAlt r1 r2
  end.

Fixpoint deriv (c : N) (r : regex) : regex :=
  match r with
  | REmpty | REps => REmpty
  | RClass p => if p c then REps else REmpty
  | RSeq r1 r2 =>
      let d := rseq (deriv c r1) r2 in
      if nullable r1 then ralt d (deriv c r2) else d
  | RAlt r1 r2 => ralt (deriv c r1) (deriv c r2)
  | RStar r => rseq (deriv c r) (RStar r)
  end.

Fixpoint fullmatch (r : regex) (s : pystr) : bool :=
  match s with
  | [] => nullable r
  | c :: s => fullmatch (deriv c r) s
  end.

(* ------------------------------------------------------------------ *)
(** ** Pattern notation *)

Definition ropt (r : regex) : regex := RAlt r REps.
Definition rplus (r : regex) : regex := RSeq r (RStar r).
Definition rchar (c : N) : regex := RClass (N.eqb c).
Fixpoint rlit (s : pystr) : regex :=
  match s with [] => REps | [c] => rchar c | c :: s => RSeq (rchar c) (rlit s) end.
(** [r{n}] *)
Fixpoint rtimes (n : nat) (r : regex) : regex :=
  match n with O => REps | 1%nat => r | S n => RSeq r (rtimes n r) end.
(** [r{0,n}] *)
Fixpoint rupto (n : nat) (r : regex) : regex :=
  match n with O => REps | S n => ropt (RSeq r (rupto n r)) end.
(** [r{m,n}] *)
Definition rbetween (m n : nat) (r : regex) : regex := RSeq (rtimes m r) (rupto (n - m) r).

(** A class: ranges and single characters. *)
Definition one_of (cs : pystr) (c : N) : bool := existsb (N.eqb c) cs.
Definition cls (p : N -> bool) : regex := RClass p.

(* ------------------------------------------------------------------ *)
(** ** Correctness of the matcher *)

Lemma matches_empty s : ~ matches REmpty s.
Proof. inversion 1. Qed.

Lemma matches_eps s : matches REps s <-> s = [].
Proof. split; [by inversion 1|intros ->; constructor]. Qed.

Lemma matches_seq r1 r2 s :
  matches (RSeq r1 r2) s <-> exists s1 s2, s = s1 ++ s2 /\ matches r1 s1 /\ matches r2 s2.
Proof.
  split.
  - inversion 1; subst. eauto.
  - intros (s1 & s2 & -> & ? & ?). by constructor.
Qed.

Lemma matches_alt r1 r2 s : matches (RAlt r1 r2) s <-> matches r1 s \/ matches r2 s.
Proof. split; [inversion 1; auto|intros [?|?]; auto with regex]. Qed.

Lemma matches_class p s : matches (RClass p) s <-> exists c, s = [c] /\ p c = true.
Proof. split; [inversion 1; eauto|intros (c & -> & ?); by constructor]. Qed.

Lemma seq_empty_l r s : matches (RSeq REmpty r) s <-> matches REmpty s.
Proof. rewrite matches_seq. split; [|by intros ?%matches_empty]. by intros (? & ? & _ & ?%matches_empty & _). Qed.
Lemma seq_empty_r r s : matches (RSeq r REmpty) s <-> matches REmpty s.
Proof. rewrite matches_seq. split; [|by intros ?%matches_empty]. by intros (? & ? & _ & _ & ?%matches_empty). Qed.
Lemma seq_eps_l r s : matches (RSeq REps r) s <-> matches r s.
Proof.
  rewrite matches_seq. split; [|intros; by exists [], s; eauto with regex].
  by intros (? & ? & -> & ->%matches_eps & ?).
Qed.
Lemma seq_eps_r r s : matches (RSeq r REps) s <-> matches r s.
Proof.
  rewrite matches_seq. split.
  - intros (? & ? & -> & ? & ->%matches_eps). by rewrite app_nil_r.
  - intros. exists s, []. rewrite app_nil_r. eauto with regex.
Qed.

Lemma rseq_matches r1 r2 s : matches (rseq r1 r2) s <-> matches (RSeq r1 r2) s.
Proof.
  destruct r1, r2; simpl; rewrite ?seq_empty_l, ?seq_empty_r, ?seq_eps_l, ?seq_eps_r; done.
Qed.

Lemma ralt_matches r1 r2 s : matches (ralt r1 r2) s <-> matches r1 s \/ matches r2 s.
Proof.
  pose proof (matches_empty s).
  unfold ralt. destruct r1, r2; rewrite ?matches_alt; naive_solver.
Qed.

Lemma nullable_spec r : nullable r = true <-> matches r [].
Proof.
  induction r as [| |p|r1 IH1 r2 IH2|r1 IH1 r2 IH2|r IH]; simpl.
  - split; [done|by inversion 1].
  - split; auto with regex.
  - split; [done|by inversion 1].
  - rewrite andb_true_iff, IH1, IH2, matches_seq. split.
    + intros [??]. by exists [], [].
    + intros (s1 & s2 & [-> ->]%eq_sym%app_nil & ? & ?). done.
  - by rewrite orb_true_iff, IH1, IH2, matches_alt.
  - split; auto with regex.
Qed.

(** A nonempty word of [r*] starts with a nonempty word of [r]. *)
Lemma matches_star_cons r c s :
  matches (RStar r) (c :: s) ->
  exists s1 s2, s = s1 ++ s2 /\ matches r (c :: s1) /\ matches (RStar r) s2.
Proof.
  remember (RStar r) as r' eqn:Hr. remember (c :: s) as w eqn:Hw. intros Hm.
  revert s Hw; induction Hm as [| | | | |r0|r0 s1 s2 H1 IH1 H2 IH2]; intros t Hw;
    try discriminate.
  injection Hr as ->. destruct s1 as [|c' s1]; simpl in Hw.
  - by apply IH2.
  - injection Hw as -> <-. eauto.
Qed.

Lemma deriv_spec r c s : matches (deriv c r) s <-> matches r (c :: s).
Proof.
  revert s; induction r as [| |p|r1 IH1 r2 IH2|r1 IH1 r2 IH2|r IH]; intros s; simpl.
  - split; intros Hm; inversion Hm.
  - split; intros Hm; inversion Hm.
  - rewrite matches_class. destruct (p c) eqn:Hp.
    + rewrite matches_eps. split; [intros ->; eauto|by intros (c' & [= -> ->] & ?)].
    + split; [by intros ?%matches_empty|intros (c' & [= -> ->] & ?); congruence].
  - assert (matches (rseq (deriv c r1) r2) s <->
            exists s1 s2, s = s1 ++ s2 /\ matches r1 (c :: s1) /\ matches r2 s2) as Hd.
    { rewrite rseq_matches, matches_seq. by setoid_rewrite IH1. }
    rewrite matches_seq. destruct (nullable r1) eqn:Hn; [rewrite ralt_matches, IH2|].
    + apply nullable_spec in Hn. rewrite Hd. split.
      * intros [(s1 & s2 & -> & ? & ?)|?]; [by exists (c :: s1), s2|by exists [], (c :: s)].
      * intros ([|c' s1] & s2 & Heq & H1 & H2); simpl in Heq; [subst; auto|].
        injection Heq as -> ->. left. eauto.
    + rewrite Hd. split.
      * intros (s1 & s2 & -> & ? & ?). by exists (c :: s1), s2.
      * intros ([|c' s1] & s2 & Heq & H1 & H2); simpl in Heq.
        { apply nullable_spec in H1. congruence. }
        injection Heq as -> ->. eauto.
  - by rewrite ralt_matches, IH1, IH2, matches_alt.
  - rewrite rseq_matches, matches_seq. setoid_rewrite IH. split.
    + intros (s1 & s2 & -> & H1 & H2). by apply (m_star_app r (c :: s1) s2).
    + apply matches_star_cons.
Qed.

(** [re.fullmatch] succeeds exactly on the words of the pattern. *)
Lemma fullmatch_spec r s : fullmatch r s = true <-> matches r s.
Proof.
  revert r; induction s as [|c s IH]; intros r; simpl; [apply nullable_spec|].
  rewrite IH. apply deriv_spec.
Qed.

(* ------------------------------------------------------------------ *)
(** ** What the characters of a match satisfy *)

Fixpoint rforall (P : N -> bool) (r : regex) : Prop :=
  match r with
  | REmpty | REps => True
  | RClass p => forall c, p c = true -> P c = true
  | RSeq r1 r2 | RAlt r1 r2 => rforall P r1 /\ rforall P r2
  | RStar r => rforall P r
  end.

Lemma matches_forall P r s : rforall P r -> matches r s -> Forall (fun c => P c = true) s.
Proof.
  intros Hr Hm; induction Hm; simpl in *; try destruct Hr; try constructor; auto;
    apply Forall_app; auto.
Qed.

Lemma rforall_opt P r : rforall P r -> rforall P (ropt r).
Proof. done. Qed.

Lemma rforall_times P n r : rforall P r -> rforall P (rtimes n r).
Proof. intros; induction n as [|[|n] IH]; simpl in *; auto. Qed.

Lemma rforall_upto P n r : rforall P r -> rforall P (rupto n r).
Proof. intros; induction n as [|n IH]; simpl; auto. Qed.
