(* ===== verification/PyValue.v ===== *)
(** * Python values and exceptions

    The values [json.loads] produces and the built-in conversions the program
    applies to them ([str], [int], [bool], subscripting, [dict.get], iteration),
    with the exceptions they raise. *)

From Stdlib Require Import ZArith Floats.SpecFloat.
From S2P Require Export Regex.

#[warnings="-register-all"]
Inductive pyval :=
| VNone
| VBool (b : bool)
| VInt (z : Z)
| VFloat (f : spec_float)
| VStr (s : pystr)
| VList (l : list pyval)
| VDict (d : list (pystr * pyval))
(** any other object, by the name of its type *)
| VOther (type_name : pystr).

(* ------------------------------------------------------------------ *)
(** ** Exceptions *)

(** The exception classes the modelled code raises or distinguishes. *)
Inductive exn_class :=
| ValueError | TypeError | KeyError | AttributeError | RuntimeError
| OverflowError | UnicodeEncodeError | AssertionError | OSError | RecursionError
| LookupError | PermissionError | ProcessLookupError
| UnicodeDecodeError | JSONDecodeError
| IsolationConfigurationError | IsolationUnavailable | PartialIsolationError
| ProfileContractError | PlanError | PresentationCatalogError
| UnknownServiceError | UnknownServiceProviderError
| UnknownRoleError | UnknownCandidateError | NoCandidateError | AssemblyError
| LeaseConflictError | UnknownLeaseError
| CatalogPreflightError | CatalogReloadError | ProtocolError | SubprocessError | CancelledError.

#[export] Instance exn_class_eq_dec : EqDecision exn_class.
Proof. solve_decision. Defined.

Record exn := Exn { exn_type : exn_class; exn_msg : pystr }.

#[export] Instance exn_eq_dec : EqDecision exn.
Proof. solve_decision. Defined.

(** [issubclass(c, ValueError)] *)
Definition is_value_error (c : exn_class) : bool :=
  match c with
  | ValueError | UnicodeEncodeError | UnicodeDecodeError | JSONDecodeError | IsolationConfigurationError | ProfileContractError
  | PlanError | AssemblyError | PresentationCatalogError | UnknownServiceProviderError | UnknownCandidateError => true
  | _ => false
  end.

(** [issubclass(c, OSError)] and [issubclass(c, KeyError)] *)
Definition is_os_error (c : exn_class) : bool :=
  match c with OSError | PermissionError | ProcessLookupError => true | _ => false end.
Definition is_key_error (c : exn_class) : bool :=
  match c with KeyError | UnknownRoleError | UnknownLeaseError | UnknownServiceError => true | _ => false end.

Abbreviation py A := (result exn A).

(** Values whose [repr] is not computed here: strings with escapes, floats and
    containers. *)
Class PyRepr := { py_repr : pyval -> pystr }.

(* ------------------------------------------------------------------ *)
(** ** Type tests *)

Definition is_str (v : pyval) : bool := match v with VStr _ => true | _ => false end.
Definition is_dict (v : pyval) : bool := match v with VDict _ => true | _ => false end.
Definition is_list (v : pyval) : bool := match v with VList _ => true | _ => false end.
Definition is_bool (v : pyval) : bool := match v with VBool _ => true | _ => false end.
(** [isinstance(v, int)]: a bool is an int. *)
Definition is_int (v : pyval) : bool := match v with VInt _ | VBool _ => true | _ => false end.

(** [isinstance(v, int) and not isinstance(v, bool)] *)
Definition as_int (v : pyval) : option Z := match v with VInt z => Some z | _ => None end.
Definition as_str (v : pyval) : option pystr := match v with VStr s => Some s | _ => None end.
Definition as_dict (v : pyval) : option (dict pystr pyval) :=
  match v with VDict d => Some d | _ => None end.
Definition as_list (v : pyval) : option (list pyval) :=
  match v with VList l => Some l | _ => None end.

(** [v == s] for a string constant. *)
Definition eq_str (v : pyval) (s : pystr) : bool :=
  match v with VStr t => bool_decide (t = s) | _ => false end.

Definition float_zero (f : spec_float) : bool :=
  match f with S754_zero _ => true | _ => false end.
(** [math.isfinite] *)
Definition float_finite (f : spec_float) : bool :=
  match f with S754_infinity _ | S754_nan => false | _ => true end.

(** [bool(v)] *)
Definition truthy (v : pyval) : bool :=
  match v with
  | VNone => false
  | VBool b => b
  | VInt z => negb (Z.eqb z 0)
  | VFloat f => negb (float_zero f)
  | VStr s => str_true s
  | VList l => match l with [] => false | _ => true end
  | VDict d => match d with [] => false | _ => true end
  | VOther _ => true
  end.

(** [a or b] on values. *)
Definition py_or (a b : pyval) : pyval := if truthy a then a else b.

(* ------------------------------------------------------------------ *)
(** ** Conversions *)

(** [int(f)]: truncation toward zero. *)
Definition float_trunc (f : spec_float) : py Z :=
  match f with
  | S754_zero _ => Ok 0%Z
  | S754_infinity _ => Raise (Exn OverflowError §"cannot convert float infinity to integer")
  | S754_nan => Raise (Exn ValueError §"cannot convert float NaN to integer")
  | S754_finite s m e =>
      let a := if (0 <=? e)%Z then (Zpos m * 2 ^ e)%Z else (Zpos m / 2 ^ (- e))%Z in
      Ok (if s then (- a)%Z else a)
  end.

(** Digits of an integer literal: ASCII digits with single underscores between. *)
Fixpoint int_digits (prev_digit : bool) (s : pystr) : option pystr :=
  match s with
  | [] => if prev_digit then Some [] else None
  | c :: s =>
      if digit_ascii c then cons c <$> int_digits true s
      else if (c =? 95) && prev_digit then int_digits false s
      else None
  end.

(** CPython refuses to parse more than 4300 digits. *)
Definition max_int_digits : nat := 4300.

Section Conv.
Context `{PyLib} `{PyRepr}.

Definition py_str (v : pyval) : pystr :=
  match v with
  | VNone => §"None"
  | VBool true => §"True"
  | VBool false => §"False"
  | VInt z => dec_Z z
  | VStr s => s
  | v => py_repr v
  end.

Definition int_of_str (s : pystr) : option Z :=
  if str_isascii s then
    let s := str_strip s in
    let '(neg, ds) :=
      match s with
      | c :: r => if c =? 45 then (true, r) else if c =? 43 then (false, r) else (false, s)
      | [] => (false, s)
      end in
    int_digits false ds ≫= fun ds =>
    if bool_decide (length ds <= max_int_digits)%nat
    then Some (if neg then (- Z.of_N (digits_value ds))%Z else Z.of_N (digits_value ds))
    else None
  else uni_int s.

(** [int(v)] *)
Definition py_int (v : pyval) : py Z :=
  match v with
  | VInt z => Ok z
  | VBool b => Ok (if b then 1 else 0)%Z
  | VFloat f => float_trunc f
  | VStr s => ok_or (int_of_str s)
      (Exn ValueError (§"invalid literal for int() with base 10: " ++ py_repr v))
  | _ => Raise (Exn TypeError §"int() argument must be a string or a number")
  end.

Definition attr_error : exn := Exn AttributeError §"object has no attribute".

(** [v.get(k, default)] *)
Definition py_get (v : pyval) (k : pystr) (default : pyval) : py pyval :=
  match v with VDict d => Ok (dget_or d k default) | _ => Raise attr_error end.

(** [v.items()] *)
Definition py_items (v : pyval) : py (list (pystr * pyval)) :=
  match v with VDict d => Ok d | _ => Raise attr_error end.

(** [v[k]] for a string [k] *)
Definition py_item (v : pyval) (k : pystr) : py pyval :=
  match v with
  | VDict d => ok_or (dget d k) (Exn KeyError k)
  | _ => Raise (Exn TypeError §"object is not subscriptable by a string")
  end.

(** The elements [for x in v] visits. *)
Definition py_iter (v : pyval) : py (list pyval) :=
  match v with
  | VList l => Ok l
  | VStr s => Ok ((fun c => VStr [c]) <$> s)
  | VDict d => Ok (VStr <$> dkeys d)
  | _ => Raise (Exn TypeError §"object is not iterable")
  end.

(** [[str(x) for x in v]] *)
Definition py_strs (v : pyval) : py (list pystr) := xs ← py_iter v; Ok (py_str <$> xs).

(** [k in v] for a string [k] *)
Definition py_contains (k : pystr) (v : pyval) : py bool :=
  match v with
  | VDict d => Ok (dhas d k)
  | VList l => Ok (existsb (fun x => eq_str x k) l)
  | VStr s => Ok (str_contains k s)
  | _ => Raise (Exn TypeError §"argument is not iterable")
  end.

(** One element of the sequence given to [dict]: a pair with a string key,
    or [None] for a pair whose key is another scalar (no such key is ever
    looked up). *)
Definition py_pair (v : pyval) : py (option (pystr * pyval)) :=
  let pair k x :=
    match k with
    | VStr k => Ok (Some (k, x))
    | VList _ | VDict _ => Raise (Exn TypeError §"unhashable type")
    | _ => Ok None
    end in
  match v with
  | VList [k; x] => pair k x
  | VStr [a; b] => Ok (Some ([a], VStr [b]))
  | VDict [(a, _); (b, _)] => Ok (Some (a, VStr b))
  | VList _ | VStr _ | VDict _ =>
      Raise (Exn ValueError §"dictionary update sequence element has the wrong length")
  | _ => Raise (Exn TypeError §"cannot convert dictionary update sequence element to a sequence")
  end.

(** [dict(v)] *)
Definition py_dict (v : pyval) : py (dict pystr pyval) :=
  match v with
  | VDict d => Ok d
  | _ => items ← py_iter v; pairs ← mapR py_pair items; Ok (dict_of (omap id pairs))
  end.
End Conv.

Arguments attr_error : simpl never.

(** An evaluation instance for witnesses. *)
#[export] Instance plain_repr : PyRepr := {|
  py_repr v :=
    match v with
    | VStr s => §"'" ++ s ++ §"'"
    | _ => §"<object>"
    end;
|}.

Lemma truthy_py_or a b : truthy (py_or a b) = truthy a || truthy b.
Proof. unfold py_or. by destruct (truthy a) eqn:Ha; rewrite ?Ha. Qed.

Lemma as_int_Some v z : as_int v = Some z <-> v = VInt z.
Proof. destruct v; naive_solver. Qed.
Lemma as_str_Some v s : as_str v = Some s <-> v = VStr s.
Proof. destruct v; naive_solver. Qed.
Lemma as_dict_Some v d : as_dict v = Some d <-> v = VDict d.
Proof. destruct v; naive_solver. Qed.
Lemma as_list_Some v l : as_list v = Some l <-> v = VList l.
Proof. destruct v; naive_solver. Qed.
Lemma eq_str_true v s : eq_str v s = true <-> v = VStr s.
Proof. unfold eq_str. destruct v; rewrite ?bool_decide_eq_true; naive_solver. Qed.
