(* ===== verification/PyPath.v ===== *)
(** * POSIX paths ([pathlib]) and the files the program reads

    A [Path] is a root and its parts, with empty and [.] parts dropped.  The
    file system itself is the [FileSystem] interface. *)

From S2P Require Export PyValue.

Record ppath := PPath { proot : pystr; pparts : list pystr }.

#[export] Instance ppath_eq_dec : EqDecision ppath.
Proof. solve_decision. Defined.

Definition slash : N := 47.

(** [Path(s)]: exactly two leading slashes are a root of their own. *)
Definition path_of (s : pystr) : ppath :=
  let parts := List.filter (fun p => str_true p && negb (bool_decide (p = §"."))) (str_split slash s) in
  let root :=
    if str_startswith §"///" s then §"/"
    else if str_startswith §"//" s then §"//"
    else if str_startswith §"/" s then §"/" else [] in
  PPath root parts.

(** [str(p)] *)
Definition path_str (p : ppath) : pystr :=
  match proot p ++ str_join [slash] (pparts p) with [] => §"." | s => s end.

Definition path_absolute (p : ppath) : bool := str_true (proot p).

(** [p / q] *)
Definition path_div (p q : ppath) : ppath :=
  if path_absolute q then q else PPath (proot p) (pparts p ++ pparts q).

Fixpoint strs_leb (l1 l2 : list pystr) : bool :=
  match l1, l2 with
  | [], _ => true
  | _ :: _, [] => false
  | a :: l1, b :: l2 =>
      (str_leb a b && negb (bool_decide (a = b))) || (bool_decide (a = b) && strs_leb l1 l2)
  end.

(** Paths are ordered by their parts, the root first. *)
Definition path_leb (p q : ppath) : bool :=
  strs_leb (proot p :: pparts p) (proot q :: pparts q).

Class FileSystem := {
  path_exists : ppath -> bool;
  path_is_file : ppath -> bool;
  path_resolve : ppath -> ppath;
  (** [json.loads(path.read_text(...))] *)
  read_json : ppath -> py pyval;
  glob_manifests_recursive : ppath -> list ppath;
  glob_manifests : ppath -> list ppath;
}.
