(* ===== verification/Processes.v ===== *)
(** * Process snapshots from procfs ([msys_core/msysd.py])

    The text of [/proc] files is the interface [Proc]; the parsers, the memory
    of a process group and the bounded listing of the other processes of the
    system are the program's.  A heap of [heapq] is the sorted list of its
    content. *)

From Stdlib Require Import ZArith.
From stdpp Require Export gmap.
From S2P Require Export PyValue.

Module Processes.

Definition DEFAULT_SYSTEM_PROCESS_LIMIT : Z := 64.
Definition MAX_SYSTEM_PROCESS_LIMIT : Z := 128.
Definition MAX_PROCESS_NAME_LENGTH : nat := 64.

Definition _LINUX_PROCESS_STATES : dict pystr pystr :=
  [(§"R", §"running"); (§"S", §"sleeping"); (§"D", §"disk-sleep"); (§"Z", §"zombie"); (§"T", §"stopped");
   (§"t", §"tracing-stop"); (§"X", §"dead"); (§"x", §"dead"); (§"I", §"idle"); (§"P", §"parked")].

(** The directory, and a file of the directory of a process, read as ASCII with
    replacement characters. *)
Class Proc := {
  proc_entries : py (list pystr);
  proc_text : pystr -> pystr -> py pystr;
  meminfo_text : py pystr;
}.

(** A process of the system. *)
Record ProcRecord := {
  pid : Z;
  ppid : option Z;
  process_group : Z;
  session : Z;
  uid : option Z;
  name : pystr;
  pstate : pystr;
  rss_kib : option Z;
}.

Section Processes.
Context `{PyLib} `{PyRepr} `{Proc}.

(* ------------------------------------------------------------------ *)
(** ** Reading the files *)

(** [s.split()] *)
Fixpoint split_words (word : pystr) (s : pystr) : list pystr :=
  match s with
  | [] => if str_true word then [word] else []
  | c :: s =>
      if isspace_c c then (if str_true word then word :: split_words [] s else split_words [] s)
      else split_words (word ++ [c]) s
  end.
Definition words (s : pystr) : list pystr := split_words [] s.

(** [s[s.rindex(c) + 1:]], when [c] occurs *)
Fixpoint after_last (c : N) (s : pystr) : option pystr :=
  match s with
  | [] => None
  | d :: s => match after_last c s with
              | Some r => Some r
              | None => if (d =? c)%N then Some s else None
              end
  end.
Fixpoint before_last (c : N) (s : pystr) : option pystr :=
  match s with
  | [] => None
  | d :: s => match before_last c s with
              | Some r => Some (d :: r)
              | None => if (d =? c)%N then Some [] else None
              end
  end.

Definition paren_open : N := 40.
Definition paren_close : N := 41.
Definition newline : N := 10.

(** The word at an index, as an integer. *)
Definition int_at (l : list pystr) (i : nat) : option Z := l !! i ≫= int_of_str.

(** What follows a key at the beginning of a line: blanks, digits, then [rest]
    accepts the remainder. *)
Definition number_after (rest : pystr -> bool) (s : pystr) : option pystr :=
  let '(blanks, s) := str_span isspace_c s in
  let '(digits, s) := str_span digit_ascii s in
  if str_true blanks && str_true digits && rest s then Some digits else None.

(** [\s+kB\s*$] and [(?:\s|$)] of a multi-line pattern *)
Definition ends_line (s : pystr) : bool :=
  let '(blanks, rest) := str_span isspace_c s in negb (str_true rest) || str_has newline blanks.
Definition kib_unit (s : pystr) : bool :=
  let '(blanks, rest) := str_span isspace_c s in
  str_true blanks && str_startswith §"kB" rest && ends_line (str_removeprefix §"kB" rest).
Definition ends_word (s : pystr) : bool :=
  match s with [] => true | c :: _ => isspace_c c end.

(** [re.search] of [^key\s+([0-9]+)rest]: the digits at the first line that
    matches. *)
Fixpoint search_lines (line_start : bool) (key : pystr) (rest : pystr -> bool) (s : pystr) : option pystr :=
  let here := if line_start && str_startswith key s then number_after rest (str_removeprefix key s) else None in
  match here with
  | Some digits => Some digits
  | None => match s with
            | [] => None
            | c :: s => search_lines (c =? newline)%N key rest s
            end
  end.

(** [int(match.group(1))] when there is a match *)
Definition number_field (key : pystr) (rest : pystr -> bool) (text : pystr) : py (option Z) :=
  match search_lines true key rest text with
  | None => Ok None
  | Some digits => z ← py_int (VStr digits); Ok (Some z)
  end.

(** The names of the processes, with the pids. *)
Definition process_entry (n : pystr) : py (option Z) :=
  if str_isdigit n then z ← py_int (VStr n); Ok (Some z) else Ok None.

(** The group in the text of a [stat] file; [None] where the [try] block
    raises. *)
Definition stat_group (text : pystr) : option Z :=
  after_last paren_close text ≫= fun rest => int_at (words rest) 2.

Definition group_step (leader : Z) (members : list Z) (n : pystr) : py (list Z) :=
  if negb (str_isdigit n) then Ok members
  else match proc_text n §"stat" with
       | Raise e => if is_os_error (exn_type e) then Ok members else Raise e
       | Ok text =>
           if bool_decide (stat_group text = Some leader)
           then z ← py_int (VStr n); Ok (members ++ [z])
           else Ok members
       end.

Definition _process_group_members (leader : Z) : py (list Z) :=
  if (leader <=? 0)%Z then Ok []
  else match proc_entries with
       | Raise e => if is_os_error (exn_type e) then Ok [] else Raise e
       | Ok entries =>
           members ← foldR (group_step leader) [] entries;
           Ok (py_sorted Z.leb (remove_dups members))
       end.

(** [except OSError: return default] *)
Definition or_os_error {A} (default : A) (r : py A) : py A :=
  match r with Raise e => if is_os_error (exn_type e) then Ok default else Raise e | _ => r end.

Definition _memory_values (n : pystr) : py (option Z * option Z) :=
  text ← or_os_error None (t ← proc_text n §"smaps_rollup"; Ok (Some t));
  match text with
  | None => Ok (None, None)
  | Some text =>
      rss ← number_field §"Rss:" kib_unit text;
      pss ← number_field §"Pss:" kib_unit text;
      Ok (rss, pss)
  end.

Definition _status_rss (n : pystr) : py (option Z) :=
  text ← or_os_error None (t ← proc_text n §"status"; Ok (Some t));
  match text with
  | None => Ok None
  | Some text => number_field §"VmRSS:" kib_unit text
  end.

(** The memory of one member. *)
Definition member_memory (p : Z) : py (option Z * option Z) :=
  m ← _memory_values (dec_Z p);
  match m with
  | (None, pss) => rss ← _status_rss (dec_Z p); Ok (rss, pss)
  | (rss, pss) => Ok (rss, pss)
  end.

Definition sum_Z (l : list Z) : Z := foldr Z.add 0%Z l.

Record MemorySnapshot := {
  member_count : nat;
  available : bool;
  total_rss : option Z;
  pss_available : bool;
  total_pss : option Z;
}.

(** What the samples of the members add up to. *)
Definition summarize (samples : list (option Z * option Z)) : MemorySnapshot :=
  let rss_values := omap fst samples in
  let pss_values := omap snd samples in
  let rss_complete := bool_decide (samples ≠ []) && (length rss_values =? length samples)%nat in
  let pss_complete := rss_complete && (length pss_values =? length samples)%nat in
  {| member_count := length samples; available := rss_complete;
     total_rss := if rss_complete then Some (sum_Z rss_values) else None;
     pss_available := pss_complete;
     total_pss := if pss_complete then Some (sum_Z pss_values) else None |}.

Definition opt_int (o : option Z) : pyval := match o with Some z => VInt z | None => VNone end.

Definition memory_document (leader : Z) (m : MemorySnapshot) : pyval :=
  VDict [(§"schema", VStr §"msys.process-memory.v1"); (§"scope", VStr §"process-group"); (§"unit", VStr §"KiB");
         (§"leader_pid", VInt leader); (§"member_count", VInt (Z.of_nat (member_count m)));
         (§"available", VBool (available m)); (§"rss_kib", opt_int (total_rss m));
         (§"pss_available", VBool (pss_available m)); (§"pss_kib", opt_int (total_pss m));
         (§"reason", if pss_available m then VNone
                     else if available m then VStr §"pss-unavailable" else VStr §"memory-unavailable")].

Definition process_memory_snapshot (leader : Z) : py pyval :=
  members ← _process_group_members leader;
  samples ← mapR member_memory members;
  Ok (memory_document leader (summarize samples)).

(* ------------------------------------------------------------------ *)
(** ** One process *)

Definition printable (c : N) : bool :=
  isprintable_c c && negb (c =? 13)%N && negb (c =? newline)%N && negb (c =? 0)%N.

Definition _bounded_process_name (value fallback : pystr) : pystr :=
  let text := str_strip ((fun c => if printable c then c else 63%N) <$> value) in
  take MAX_PROCESS_NAME_LENGTH (if str_true text then text else fallback).

(** What the [try] block reads from [stat]: state, parent, group, session and
    the bounded name. *)
Definition stat_fields (p : Z) (text : pystr) : option (pystr * Z * Z * Z * pystr) :=
  match str_after paren_open text, before_last paren_close text, after_last paren_close text with
  | Some _, Some front, Some rest =>
      let fields := words rest in
      match fields !! 0%nat, int_at fields 1, int_at fields 2, int_at fields 3 with
      | Some code, Some parent, Some group, Some session =>
          let raw := match str_after paren_open front with Some n => n | None => [] end in
          Some (code, parent, group, session, _bounded_process_name raw (dec_Z p))
      | _, _, _, _ => None
      end
  | _, _, _ => None
  end.

Definition _proc_process_record (p : Z) : py (option ProcRecord) :=
  if (p <=? 0)%Z then Ok None
  else
    text ← or_os_error None (t ← proc_text (dec_Z p) §"stat"; Ok (Some t));
    match text ≫= stat_fields p with
    | None => Ok None
    | Some (code, parent, group, session, name) =>
        status ← or_os_error [] (proc_text (dec_Z p) §"status");
        uid ← number_field §"Uid:" ends_word status;
        rss ← number_field §"VmRSS:" kib_unit status;
        Ok (Some {| pid := p; ppid := Some parent; process_group := group; session := session; uid := uid;
                    name := name; pstate := default §"unknown" (dget _LINUX_PROCESS_STATES code); rss_kib := rss |})
    end.

(** The public fields. *)
Record Owner := {
  source : pystr;
  msys_owned : bool;
  owner_component : option pystr;
  component_state : option pystr;
  owner_runtime : option pystr;
  owner_lifecycle : option pystr;
  owner_generation : option Z;
}.

Definition opt_str (o : option pystr) : pyval := match o with Some s => VStr s | None => VNone end.

Definition _public_process_record (r : ProcRecord) (o : Owner) : pyval :=
  VDict [(§"pid", VInt (pid r)); (§"ppid", opt_int (ppid r)); (§"uid", opt_int (uid r)); (§"name", VStr (name r));
         (§"state", VStr (pstate r)); (§"rss_kib", opt_int (rss_kib r)); (§"source", VStr (source o));
         (§"msys_owned", VBool (msys_owned o)); (§"component", opt_str (owner_component o));
         (§"component_state", opt_str (component_state o)); (§"runtime", opt_str (owner_runtime o));
         (§"lifecycle", opt_str (owner_lifecycle o)); (§"generation", opt_int (owner_generation o))].

(* ------------------------------------------------------------------ *)
(** ** The other processes of the system *)

(** [(rss is not None, rss or 0, -pid)], compared as tuples. *)
Definition rank (r : ProcRecord) : bool * Z * Z :=
  (bool_decide (is_Some (rss_kib r)), default 0%Z (rss_kib r), (- pid r)%Z).
Definition rank_leb (a b : bool * Z * Z) : bool :=
  let '(fa, ra, pa) := a in
  let '(fb, rb, pb) := b in
  if negb (Bool.eqb fa fb) then fb
  else if negb (ra =? rb)%Z then (ra <? rb)%Z
  else (pa <=? pb)%Z.
Definition less_important (a b : ProcRecord) : bool := rank_leb (rank a) (rank b).

(** [heappush], and [heapreplace] of the smallest item. *)
Definition heappush (r : ProcRecord) (heap : list ProcRecord) : list ProcRecord := sort_insert less_important r heap.
Definition heapreplace (r : ProcRecord) (heap : list ProcRecord) : list ProcRecord :=
  sort_insert less_important r (tail heap).

(** Kernel threads are not listed, nor are the processes of components. *)
Definition eligible (managed : gset Z) (supervisor : Z) (r : ProcRecord) : bool :=
  negb (bool_decide (pid r = supervisor) || bool_decide (pid r ∈ managed)
        || bool_decide (process_group r ∈ managed) || bool_decide (session r ∈ managed))
  && negb (bool_decide (rss_kib r = None) && (bool_decide (pid r = 2%Z) || bool_decide (ppid r = Some 2%Z))).

Definition keep (limit : nat) (heap : list ProcRecord) (r : ProcRecord) : list ProcRecord :=
  if (length heap <? limit)%nat then heappush r heap
  else match heap with
       | least :: _ => if negb (rank_leb (rank r) (rank least)) then heapreplace r heap else heap
       | [] => heap
       end.

Definition scan_step (managed : gset Z) (supervisor : Z) (limit : nat) (acc : list ProcRecord * nat) (n : pystr)
    : py (list ProcRecord * nat) :=
  let '(heap, count) := acc in
  entry ← process_entry n;
  match entry with
  | None => Ok acc
  | Some p =>
      record ← _proc_process_record p;
      match record with
      | None => Ok acc
      | Some r => if eligible managed supervisor r then Ok (keep limit heap r, S count) else Ok acc
      end
  end.

(** [(rss is None, -rss, pid)], the order of the answer. *)
Definition final_key (r : ProcRecord) : bool * Z * Z :=
  (bool_decide (rss_kib r = None), (- default 0%Z (rss_kib r))%Z, pid r).
Definition final_leb (a b : ProcRecord) : bool := rank_leb (final_key a) (final_key b).

Definition procfs_owner : Owner :=
  {| source := §"procfs"; msys_owned := false; owner_component := None; component_state := None;
     owner_runtime := None; owner_lifecycle := None; owner_generation := None |}.

Definition system_process_snapshot (managed : gset Z) (limit supervisor : Z) : py (list pyval * bool) :=
  if negb ((1 <=? limit)%Z && (limit <=? MAX_SYSTEM_PROCESS_LIMIT)%Z)
  then Raise (Exn ValueError §"system process limit is out of range")
  else match proc_entries with
       | Raise e => if is_os_error (exn_type e) then Ok ([], false) else Raise e
       | Ok entries =>
           acc ← foldR (scan_step managed supervisor (Z.to_nat limit)) ([], 0%nat) entries;
           let '(heap, count) := acc in
           Ok ((fun r => _public_process_record r procfs_owner) <$> py_sorted final_leb heap,
               (limit <? Z.of_nat count)%Z)
       end.

(* ------------------------------------------------------------------ *)
(** ** Available memory *)

Definition line_break (c : N) : bool :=
  ((10 <=? c) && (c <=? 13) || (28 <=? c) && (c <=? 30))%N.

(** [s.splitlines()] of an ASCII text *)
Fixpoint split_lines (line : pystr) (s : pystr) : list pystr :=
  match s with
  | [] => if str_true line then [line] else []
  | c :: s =>
      if line_break c
      then line :: match s with
                   | d :: s' => if (c =? 13)%N && (d =? 10)%N then split_lines [] s' else split_lines [] s
                   | [] => []
                   end
      else split_lines (line ++ [c]) s
  end.

Definition colon_c : N := 58.

(** The first [MemAvailable] line decides. *)
Fixpoint mem_available (lines : list pystr) : option Z :=
  match lines with
  | [] => None
  | line :: lines =>
      match str_after colon_c line with
      | Some value =>
          if bool_decide (str_before colon_c line = §"MemAvailable")
          then match words value with
               | [amount; unit] =>
                   if bool_decide (unit = §"kB") && str_isascii amount
                   then int_of_str amount ≫= fun z => if (0 <=? z)%Z then Some z else None
                   else None
               | _ => None
               end
          else mem_available lines
      | None => mem_available lines
      end
  end.

Definition read_mem_available_kib : py (option Z) :=
  match meminfo_text with
  | Raise e => if is_os_error (exn_type e) || bool_decide (exn_type e = UnicodeDecodeError) then Ok None else Raise e
  | Ok text => Ok (mem_available (split_lines [] text))
  end.
End Processes.

(* ------------------------------------------------------------------ *)
(** ** The bounded selection *)

Lemma rank_total a b : rank_leb a b = true \/ rank_leb b a = true.
Proof.
  destruct a as [[fa ra] pa], b as [[fb rb] pb]. unfold rank_leb.
  destruct fa, fb; cbn; auto; destruct (Z.eqb_spec ra rb), (Z.eqb_spec rb ra); cbn;
    rewrite ?Z.leb_le, ?Z.ltb_lt; lia.
Qed.

Lemma rank_trans a b c : rank_leb a b = true -> rank_leb b c = true -> rank_leb a c = true.
Proof.
  destruct a as [[fa ra] pa], b as [[fb rb] pb], c as [[fc rc] pc]. unfold rank_leb.
  destruct fa, fb, fc; cbn; try done; destruct (Z.eqb_spec ra rb), (Z.eqb_spec rb rc), (Z.eqb_spec ra rc);
    cbn; rewrite ?Z.leb_le, ?Z.ltb_lt; intros; subst; try congruence; lia.
Qed.

Lemma rank_antisym a b : rank_leb a b = true -> rank_leb b a = true -> a = b.
Proof.
  destruct a as [[fa ra] pa], b as [[fb rb] pb]. unfold rank_leb.
  destruct fa, fb; cbn; try done; destruct (Z.eqb_spec ra rb), (Z.eqb_spec rb ra);
    cbn; rewrite ?Z.leb_le, ?Z.ltb_lt; intros; f_equal; try (f_equal; lia); lia.
Qed.

(** The answer's order is the reverse of the heap's. *)
Lemma final_reverses a b : final_leb a b = less_important b a.
Proof.
  unfold final_leb, less_important, final_key, rank, rank_leb.
  destruct (rss_kib a) as [ra|], (rss_kib b) as [rb|]; cbn;
    rewrite ?(bool_decide_eq_false_2 (Some _ = None)), ?(bool_decide_eq_true_2 (None = None)),
      ?(bool_decide_eq_true_2 (is_Some (Some _))), ?(bool_decide_eq_false_2 (is_Some None)) by
      (done || (by eexists) || (by intros [? ?])); cbn; try done.
  - destruct (Z.eqb_spec (- ra) (- rb)), (Z.eqb_spec rb ra); cbn; try lia; apply eq_true_iff_eq; rewrite ?Z.leb_le, ?Z.ltb_lt; lia.
  - rewrite Z.eqb_refl. cbn [negb]. apply eq_true_iff_eq. rewrite !Z.leb_le. lia.
Qed.

Lemma less_total a b : less_important a b = true \/ less_important b a = true.
Proof. apply rank_total. Qed.
Lemma less_trans a b c : less_important a b = true -> less_important b c = true -> less_important a c = true.
Proof. apply rank_trans. Qed.

Lemma sort_insert_length r l : length (sort_insert less_important r l) = S (length l).
Proof. by rewrite sort_insert_perm. Qed.

(** Inserting into a sorted list, below or above its [k]-th element. *)
Lemma drop_insert_low r l k least rest : sorted_by less_important l -> drop k l = least :: rest ->
  less_important r least = true -> drop (S k) (sort_insert less_important r l) = least :: rest.
Proof.
  revert l; induction k as [|k IH]; intros l Hs Hd Hle.
  - rewrite drop_0 in Hd. subst l. cbn [sort_insert]. rewrite Hle. cbn [drop]. by rewrite ?drop_0.
  - destruct l as [|x l]; [done|]. cbn [drop] in Hd. inversion Hs as [|? ? Hl Hx]; subst. cbn [sort_insert].
    destruct (less_important r x); cbn [drop]; [exact Hd|]. by apply IH.
Qed.

Lemma drop_insert_high r l k least rest : sorted_by less_important l -> drop k l = least :: rest ->
  less_important r least = false ->
  drop (S k) (sort_insert less_important r l) = sort_insert less_important r rest.
Proof.
  revert l; induction k as [|k IH]; intros l Hs Hd Hle.
  - rewrite drop_0 in Hd. subst l. cbn [sort_insert]. rewrite Hle. cbn [drop]. by rewrite ?drop_0.
  - destruct l as [|x l]; [done|]. cbn [drop] in Hd. inversion Hs as [|? ? Hl Hx]; subst. cbn [sort_insert].
    assert (less_important r x = false) as ->.
    { destruct (less_important r x) eqn:Hrx; [|done]. rewrite <- Hle. symmetry. apply (less_trans r x least); [done|].
      rewrite Forall_forall in Hx. apply Hx. rewrite <- (take_drop k l), Hd. apply elem_of_app. right. by left. }
    cbn [drop]. by apply IH.
Qed.

(** The heap holds the [limit] greatest records seen. *)
Lemma keep_greatest limit records : (0 < limit)%nat ->
  foldl (keep limit) [] records = drop (length records - limit) (py_sorted less_important (rev records)).
Proof.
  intros Hl. induction records as [|r records IH] using rev_ind; [done|].
  rewrite foldl_snoc, IH, rev_app_distr, length_app. cbn [rev app length py_sorted]. clear IH.
  set (S0 := py_sorted less_important (rev records)).
  assert (length S0 = length records) as HS by (unfold S0; by rewrite py_sorted_length, length_rev).
  assert (sorted_by less_important S0) as Hs by (apply py_sorted_sorted; [apply less_total|apply less_trans]).
  change (py_sorted less_important (r :: rev records)) with (sort_insert less_important r S0).
  unfold keep. rewrite length_drop, HS. destruct (_ <? limit)%nat eqn:Hlt.
  - apply Nat.ltb_lt in Hlt. assert (length records < limit)%nat by lia.
    replace (length records - limit)%nat with 0%nat by lia. replace (length records + 1 - limit)%nat with 0%nat by lia. done.
  - apply Nat.ltb_ge in Hlt. assert (limit <= length records)%nat by lia.
    replace (length records + 1 - limit)%nat with (S (length records - limit)) by lia.
    set (k := (length records - limit)%nat) in *. destruct (drop k S0) as [|least rest] eqn:Hd.
    { apply (f_equal length) in Hd. rewrite length_drop in Hd. cbn in Hd. lia. }
    unfold heapreplace. cbn [tail]. change (rank_leb (rank r) (rank least)) with (less_important r least).
    destruct (less_important r least) eqn:Hle; cbn [negb].
    + symmetry. by apply (drop_insert_low _ _ _ least rest).
    + symmetry. by apply (drop_insert_high _ _ _ least rest).
Qed.

Section Listing.
Context `{PyLib} `{PyRepr} `{Proc}.

(** The eligible process a directory entry stands for. *)
Definition listed_entry (managed : gset Z) (supervisor : Z) (n : pystr) : py (option ProcRecord) :=
  entry ← process_entry n;
  match entry with
  | None => Ok None
  | Some p =>
      record ← _proc_process_record p;
      Ok (r ← record; if eligible managed supervisor r then Some r else None)%stdpp
  end.

Definition listed (managed : gset Z) (supervisor : Z) (entries : list pystr) : py (list ProcRecord) :=
  rs ← mapR (listed_entry managed supervisor) entries; Ok (omap id rs).

Lemma scan_listed managed supervisor limit entries heap count :
  foldR (scan_step managed supervisor limit) (heap, count) entries =
  (rs ← listed managed supervisor entries; Ok (foldl (keep limit) heap rs, (count + length rs)%nat)).
Proof.
  revert heap count; unfold listed; induction entries as [|n entries IH]; intros heap count; cbn [foldR mapR].
  { cbn. by rewrite Nat.add_0_r. }
  unfold scan_step at 1, listed_entry at 1. destruct (process_entry n) as [[p|]|e]; cbn [rbind]; [|rewrite IH|done].
  - destruct (_proc_process_record p) as [[r|]|e]; cbn [rbind mbind option_bind]; [|rewrite IH|done].
    + destruct (eligible managed supervisor r); cbn [rbind]; rewrite IH;
        destruct (mapR _ entries) as [rs|e]; cbn; try done. by rewrite Nat.add_succ_r.
    + by destruct (mapR _ entries).
  - by destruct (mapR _ entries).
Qed.

Lemma sorted_tail l1 l2 : sorted_by less_important (l1 ++ l2) -> sorted_by less_important l2.
Proof. induction l1 as [|x l1 IH]; cbn; intros Hs; [done|]. inversion Hs; subst. by apply IH. Qed.

(** Records with different pids have one order. *)
Lemma sort_final l l' : sorted_by less_important l -> l' ≡ₚ l -> NoDup (pid <$> l') -> py_sorted final_leb l' = rev l.
Proof.
  intros Hs Hp Hnd.
  assert (forall a b, final_leb a b = true \/ final_leb b a = true) as Ht by (intros a b; rewrite !final_reverses; apply less_total).
  assert (forall a b c, final_leb a b = true -> final_leb b c = true -> final_leb a c = true) as Htr.
  { intros a b c. rewrite !final_reverses. intros ? ?. by eapply less_trans. }
  assert (sorted_by final_leb (rev l)) as Hrev.
  { induction Hs as [|x l0 Hl IH Hx] in l, Hs |- *; [constructor|]. cbn [rev]. apply sorted_snoc; [done|].
    apply Forall_rev. eapply Forall_impl; [exact Hx|]. intros y Hy. by rewrite final_reverses. }
  apply (sorted_by_unique final_leb Ht Htr); [|by apply py_sorted_sorted|done|by rewrite py_sorted_perm, Hp, <- Permutation_rev].
  intros a b Ha Hb Hab Hba. rewrite py_sorted_elem in Ha, Hb. rewrite final_reverses in Hab, Hba.
  pose proof (rank_antisym _ _ Hba Hab) as Heq. unfold rank in Heq. injection Heq as _ _ Hpid.
  apply list_elem_of_lookup in Ha as [i Hi]. apply list_elem_of_lookup in Hb as [j Hj].
  assert (i = j) as ->; [|congruence]. apply (NoDup_lookup (pid <$> l') i j (pid a)); [done|by rewrite list_lookup_fmap, Hi|].
  rewrite list_lookup_fmap, Hj. cbn. f_equal. lia.
Qed.

(** C28: the listing of the other processes is exact although the scan keeps only
    [limit] records: the answer is the first [limit] of all eligible processes
    in its order (those with a resident size first, by decreasing size, then by
    pid), and it is marked truncated exactly when there are more.  An error of
    the scan is the error of the listing. *)
Theorem system_process_snapshot_exact managed limit supervisor entries :
  (1 <= limit <= MAX_SYSTEM_PROCESS_LIMIT)%Z -> proc_entries = Ok entries ->
  (forall records, listed managed supervisor entries = Ok records -> NoDup (pid <$> records)) ->
  system_process_snapshot managed limit supervisor =
    (records ← listed managed supervisor entries;
     Ok ((fun r => _public_process_record r procfs_owner) <$> take (Z.to_nat limit) (py_sorted final_leb records),
         (limit <? Z.of_nat (length records))%Z)).
Proof.
  intros Hlim He Hnd. unfold system_process_snapshot.
  rewrite (proj2 (Z.leb_le 1 limit)), (proj2 (Z.leb_le limit _)) by lia. cbn [andb negb]. rewrite He, scan_listed.
  destruct (listed managed supervisor entries) as [records|e]; [|done]. cbn [rbind Nat.add]. specialize (Hnd _ eq_refl).
  rewrite keep_greatest by lia. set (S0 := py_sorted less_important (rev records)).
  set (n := Z.to_nat limit). assert (length S0 = length records) as HS by (unfold S0; by rewrite py_sorted_length, length_rev).
  assert (sorted_by less_important S0) as Hs by (apply py_sorted_sorted; [apply less_total|apply less_trans]).
  assert (records ≡ₚ S0) as Hp by (unfold S0; by rewrite py_sorted_perm, <- Permutation_rev).
  rewrite (sort_final S0 records Hs Hp Hnd). do 3 f_equal. set (k := (length records - n)%nat).
  rewrite <- (take_drop k S0) in Hs. rewrite (sort_final (drop k S0) (drop k S0)); [|by apply sorted_tail in Hs|done|].
  - rewrite <- (take_drop k S0) at 2. rewrite rev_app_distr. destruct (decide (n <= length records)%nat) as [Hn|Hn].
    + rewrite take_app_length'; [done|]. rewrite length_rev, length_drop, HS. unfold k. lia.
    + replace k with 0%nat by lia. cbn [take rev]. rewrite app_nil_r, take_ge; [done|]. rewrite length_rev, length_drop. lia.
  - rewrite Hp in Hnd. rewrite <- (take_drop k S0), fmap_app in Hnd. by apply NoDup_app in Hnd as (_ & _ & ?).
Qed.

(* ------------------------------------------------------------------ *)
(** ** Memory *)

Lemma complete_samples {A B} (f : A -> option B) (l : list A) :
  (length (omap f l) =? length l)%nat = true <-> Forall (fun x => is_Some (f x)) l.
Proof.
  assert (length (omap f l) <= length l)%nat as Hle.
  { induction l as [|x l IH]; cbn; [lia|]. destruct (f x); cbn; lia. }
  rewrite Nat.eqb_eq. induction l as [|x l IH]; cbn; [by split|]. assert (length (omap f l) <= length l)%nat.
  { clear. induction l as [|x l IH]; cbn; [lia|]. destruct (f x); cbn; lia. }
  rewrite Forall_cons. destruct (f x); cbn in *.
  - rewrite <- IH by lia. split; [intros [= ?]; split; [by eexists|lia]|intros [_ ?]; lia].
  - split; [lia|by intros [[? ?] _]].
Qed.

(** A total is reported exactly when the group has members and every one of
    them has a value; it is then their sum.  The proportional size needs the
    resident size of all members as well. *)
Theorem memory_total_is_complete samples :
  let m := summarize samples in
  (available m = true <-> samples ≠ [] /\ Forall (fun x => is_Some x.1) samples) /\
  (pss_available m = true <-> available m = true /\ Forall (fun x => is_Some x.2) samples) /\
  total_rss m = (if available m then Some (sum_Z (omap fst samples)) else None) /\
  total_pss m = (if pss_available m then Some (sum_Z (omap snd samples)) else None).
Proof.
  cbn. rewrite !andb_true_iff, !complete_samples, !bool_decide_eq_true. done.
Qed.

Theorem mem_available_nonneg z : read_mem_available_kib = Ok (Some z) -> (0 <= z)%Z.
Proof.
  unfold read_mem_available_kib. destruct meminfo_text as [text|e]; [|by destruct (_ || _)]. intros [= Hm].
  induction (split_lines [] text) as [|line lines IH]; cbn in Hm; [done|].
  destruct (str_after colon_c line) as [value|]; [|auto]. destruct (bool_decide _); [|auto].
  destruct (words value) as [|amount [|unit [|? ?]]]; try done. destruct (_ && _); [|done].
  destruct (int_of_str amount) as [z'|]; [|done]. cbn in Hm. destruct (0 <=? z')%Z eqn:Hz; [|done].
  injection Hm as <-. by apply Z.leb_le.
Qed.

Lemma group_step_sub leader members n members' : group_step leader members n = Ok members' ->
  forall p, p ∈ members' -> p ∈ members \/ exists text, str_isdigit n = true /\ py_int (VStr n) = Ok p /\
    proc_text n §"stat" = Ok text /\ stat_group text = Some leader.
Proof.
  unfold group_step. destruct (str_isdigit n) eqn:Hd; cbn [negb]; [|intros [= <-]; auto].
  destruct (proc_text n §"stat") as [text|e]; [|destruct (is_os_error _); intros [= <-]; auto].
  case_bool_decide as Hg; [|intros [= <-]; auto]. destruct (py_int (VStr n)) as [z|]; [|done]. intros [= <-] p.
  rewrite elem_of_app, list_elem_of_singleton. intros [?|Hp]; [by left|]. subst. right. by exists text.
Qed.

(** The members of a process group: in increasing order, without repetition,
    and each one a process whose [stat] names the leader's group. *)
Theorem process_group_members_sound leader members : _process_group_members leader = Ok members ->
  sorted_by Z.leb members /\ NoDup members /\
  forall p, p ∈ members -> exists n text, py_int (VStr n) = Ok p /\ proc_text n §"stat" = Ok text /\
    stat_group text = Some leader.
Proof.
  unfold _process_group_members. destruct (_ <=? 0)%Z; [intros [= <-]; repeat constructor; by intros p ?%not_elem_of_nil|].
  destruct proc_entries as [entries|e]; [|destruct (is_os_error _); intros [= <-]; repeat constructor; by intros p ?%not_elem_of_nil].
  destruct (foldR _ [] entries) as [ms|] eqn:Hf; [|done]. intros [= <-]. split; [|split].
  - apply py_sorted_sorted; [intros x y; rewrite !Z.leb_le; lia|intros x y z; rewrite !Z.leb_le; lia].
  - apply py_sorted_NoDup, NoDup_remove_dups.
  - intros p. rewrite py_sorted_elem, elem_of_remove_dups.
    assert (forall acc, (forall p, p ∈ acc -> exists n text, py_int (VStr n) = Ok p /\ proc_text n §"stat" = Ok text /\
      stat_group text = Some leader) -> foldR (group_step leader) acc entries = Ok ms -> p ∈ ms ->
      exists n text, py_int (VStr n) = Ok p /\ proc_text n §"stat" = Ok text /\ stat_group text = Some leader) as Hall.
    { clear. induction entries as [|n entries IH]; intros acc Hacc; cbn [foldR]; [intros [= ->]; auto|].
      destruct (group_step leader acc n) as [acc'|] eqn:Hs; [|done]. cbn [rbind]. apply IH.
      intros q Hq. destruct (group_step_sub _ _ _ _ Hs q Hq) as [?|(text & _ & ? & ? & ?)]; [auto|by exists n, text]. }
    apply (Hall [] ltac:(by intros q ?%not_elem_of_nil) Hf).
Qed.
End Listing.

(* ------------------------------------------------------------------ *)
(** ** Witnesses *)

(** Four processes: init, a kernel thread, an editor and a compiler whose
    [status] cannot be read. *)
Definition sample_proc : Proc := {|
  proc_entries := Ok [§"1"; §"self"; §"2"; §"7"; §"9"; §"meminfo"];
  proc_text n f :=
    if bool_decide (f = §"stat") then
      match dget [(§"1", §"1 (init) S 0 1 1"); (§"2", §"2 (kthreadd) S 0 0 0"); (§"7", §"7 (an (odd) editor) R 1 7 7");
                  (§"9", §"9 (cc) D 7 9 7")] n with
      | Some t => Ok t | None => Raise (Exn OSError []) end
    else match dget [(§"1", lit "Uid:" ++ [9] ++ §"0" ++ [9] ++ §"0" ++ [10] ++ §"VmRSS:   100 kB" ++ [10]);
                     (§"7", §"VmRSS:  2000 kB")] n with
         | Some t => Ok t | None => Raise (Exn OSError []) end;
  meminfo_text := Ok (§"MemTotal: 9 kB" ++ [10] ++ §"MemAvailable:  5120 kB") |}.

Definition pid_of (v : pyval) : option Z :=
  match v with VDict d => dget d §"pid" ≫= as_int | _ => None end.

Lemma system_process_snapshot_exact_witness :
  (r ← @system_process_snapshot _ _ sample_proc ∅ 2 4; Ok (pid_of <$> r.1, r.2)) = Ok ([Some 7; Some 1]%Z, true).
Proof.
  rewrite (@system_process_snapshot_exact _ _ sample_proc ∅ 2 4 [§"1"; §"self"; §"2"; §"7"; §"9"; §"meminfo"]).
  - vm_compute. reflexivity.
  - unfold MAX_SYSTEM_PROCESS_LIMIT. lia.
  - reflexivity.
  - intros records Hr. assert (pid <$> records = [1; 7; 9]%Z) as ->.
    { assert ((r ← @listed _ _ sample_proc ∅ 4 [§"1"; §"self"; §"2"; §"7"; §"9"; §"meminfo"]; Ok (pid <$> r)) = Ok [1; 7; 9]%Z) as Hp
        by (vm_compute; reflexivity).
      rewrite Hr in Hp. by injection Hp. }
    repeat constructor; rewrite ?elem_of_cons; set_solver.
Defined.
End Processes.
