(* ===== verification/Json.v ===== *)
(** * JSON text, as [json.dumps] writes and [json.loads] reads it

    The compact form ([ensure_ascii=False], separators without blanks) of the
    values the program exchanges, and the decoder: blanks, escapes and surrogate
    pairs, duplicate members, the limit on the digits of an integer and the
    limit of the interpreter on nesting.  The position and the text of a syntax
    error are not kept; the text of floats is an interface. *)

From Stdlib Require Import ZArith Floats.SpecFloat.
From S2P Require Export PyValue.

Module Json.

(** How floats are written and read, and how deep values may nest. *)
Class JsonLib := {
  float_repr : spec_float -> pystr;
  float_of : pystr -> spec_float;
  encode_depth : nat;
  decode_depth : nat;
}.

Definition c_quote : N := 34.
Definition c_backslash : N := 92.
Definition c_lbrace : N := 123.
Definition c_rbrace : N := 125.
Definition c_lbracket : N := 91.
Definition c_rbracket : N := 93.
Definition c_comma : N := 44.
Definition c_colon : N := 58.
Definition c_minus : N := 45.

Definition recursion_error : exn := Exn RecursionError §"maximum recursion depth exceeded".
Definition syntax_error : exn := Exn JSONDecodeError [].
Definition digits_error : exn := Exn ValueError §"Exceeds the limit (4300 digits) for integer string conversion".

(* ------------------------------------------------------------------ *)
(** ** Writing *)

(** The escapes of one letter. *)
Definition short_escapes : list (N * N) :=
  [(c_quote, c_quote); (c_backslash, c_backslash); (8, 98); (12, 102); (10, 110); (13, 114); (9, 116)].

Definition escape_char (c : N) : pystr :=
  match dget short_escapes c with
  | Some e => [c_backslash; e]
  | None => if c <? 32 then c_backslash :: 117 :: 48 :: 48 :: hex_byte c else [c]
  end.

Definition quoted (s : pystr) : pystr := c_quote :: (s ≫= escape_char) ++ [c_quote].

Definition int_text (z : Z) : py pystr :=
  if bool_decide (length (dec_N (Z.abs_N z)) <= max_int_digits)%nat then Ok (dec_Z z) else Raise digits_error.

Definition float_text `{JsonLib} (f : spec_float) : pystr :=
  match f with
  | S754_nan => §"NaN"
  | S754_infinity false => §"Infinity"
  | S754_infinity true => §"-Infinity"
  | f => float_repr f
  end.

Section Json.
Context `{JsonLib}.

Definition member_text (kt : pystr * pystr) : pystr := quoted kt.1 ++ c_colon :: kt.2.

Fixpoint text (depth : nat) (v : pyval) : py pystr :=
  match v with
  | VNone => Ok §"null"
  | VBool true => Ok §"true"
  | VBool false => Ok §"false"
  | VInt z => int_text z
  | VFloat f => Ok (float_text f)
  | VStr s => Ok (quoted s)
  | VOther t => Raise (Exn TypeError (§"Object of type " ++ t ++ §" is not JSON serializable"))
  | VList l =>
      match depth with
      | O => Raise recursion_error
      | S depth => ts ← mapR (text depth) l; Ok (c_lbracket :: str_join [c_comma] ts ++ [c_rbracket])
      end
  | VDict d =>
      match depth with
      | O => Raise recursion_error
      | S depth =>
          ts ← mapR (fun kv => t ← text depth kv.2; Ok (kv.1, t)) d;
          Ok (c_lbrace :: str_join [c_comma] (member_text <$> ts) ++ [c_rbrace])
      end
  end.

Lemma text_str depth s : text depth (VStr s) = Ok (quoted s).
Proof. by destruct depth. Qed.

(** [json.dumps(v, ensure_ascii=False, separators=(",", ":"))] *)
Definition dumps (v : pyval) : py pystr := text encode_depth v.

(* ------------------------------------------------------------------ *)
(** ** Reading *)

Definition blank (c : N) : bool := one_of [32; 9; 10; 13] c.
Definition skip_blanks (s : pystr) : pystr := (str_span blank s).2.

(** The text after a character, when it is the next one. *)
Definition expect (c : N) (s : pystr) : option pystr :=
  match s with d :: s => if (d =? c) then Some s else None | [] => None end.

Definition hex_value (c : N) : option N :=
  if digit_ascii c then Some (c - 48)
  else if (97 <=? c) && (c <=? 102) then Some (c - 87)
  else if (65 <=? c) && (c <=? 70) then Some (c - 55)
  else None.

Definition unit_value (a b c d : N) : option N :=
  match hex_value a, hex_value b, hex_value c, hex_value d with
  | Some a, Some b, Some c, Some d => Some (4096 * a + 256 * b + 16 * c + d)
  | _, _, _, _ => None
  end.

Definition high_surrogate (u : N) : bool := (55296 <=? u) && (u <=? 56319).
Definition low_surrogate (u : N) : bool := (56320 <=? u) && (u <=? 57343).

(** The character a letter after a backslash stands for. *)
Definition unescape (e : N) : option N :=
  dget [(c_quote, c_quote); (c_backslash, c_backslash); (47, 47); (98, 8); (102, 12); (110, 10); (114, 13); (116, 9)] e.

(** A string, after its opening quote.  A high surrogate written as an escape
    and followed by the escape of a low one is one character. *)
Fixpoint scan_string (s : pystr) : py (pystr * pystr) :=
  match s with
  | [] => Raise syntax_error
  | c :: s =>
      if c =? c_quote then Ok ([], s)
      else if c =? c_backslash then
        match s with
        | [] => Raise syntax_error
        | e :: s =>
            if e =? 117 then
              match s with
              | h1 :: h2 :: h3 :: h4 :: s =>
                  match unit_value h1 h2 h3 h4 with
                  | None => Raise syntax_error
                  | Some u =>
                      match s with
                      | b :: u' :: l1 :: l2 :: l3 :: l4 :: s' =>
                          if high_surrogate u && (b =? c_backslash) && (u' =? 117)
                          then match unit_value l1 l2 l3 l4 with
                               | None => Raise syntax_error
                               | Some w =>
                                   if low_surrogate w
                                   then r ← scan_string s';
                                        Ok (65536 + (u - 55296) * 1024 + (w - 56320) :: r.1, r.2)
                                   else r ← scan_string s; Ok (u :: r.1, r.2)
                               end
                          else r ← scan_string s; Ok (u :: r.1, r.2)
                      | _ => r ← scan_string s; Ok (u :: r.1, r.2)
                      end
                  end
              | _ => Raise syntax_error
              end
            else match unescape e with
                 | Some x => r ← scan_string s; Ok (x :: r.1, r.2)
                 | None => Raise syntax_error
                 end
        end
      else if c <? 32 then Raise syntax_error
      else r ← scan_string s; Ok (c :: r.1, r.2)
  end.

(** The digits before the point: no leading zero. *)
Definition int_part (s : pystr) : option (pystr * pystr) :=
  match s with
  | c :: r => if c =? 48 then Some ([c], r) else if digit_ascii c then Some (str_span digit_ascii s) else None
  | [] => None
  end.

Definition fraction (s : pystr) : option (pystr * pystr) :=
  match expect 46 s with
  | Some r => let '(ds, r) := str_span digit_ascii r in if str_true ds then Some (46 :: ds, r) else None
  | None => None
  end.

Definition exponent (s : pystr) : option (pystr * pystr) :=
  match s with
  | e :: r =>
      if one_of §"eE" e then
        let '(sign, r) := match r with c :: r' => if one_of §"+-" c then ([c], r') else ([], r) | [] => ([], []) end in
        let '(ds, r) := str_span digit_ascii r in
        if str_true ds then Some (e :: sign ++ ds, r) else None
      else None
  | [] => None
  end.

Definition optional_part (p : pystr -> option (pystr * pystr)) (s : pystr) : pystr * pystr :=
  match p s with Some r => r | None => ([], s) end.

Definition number_value (negative : bool) (digits tail : pystr) : py pyval :=
  if str_true tail then Ok (VFloat (float_of ((if negative then [c_minus] else []) ++ digits ++ tail)))
  else if bool_decide (length digits <= max_int_digits)%nat
  then let z := Z.of_N (digits_value digits) in Ok (VInt (if negative then - z else z)%Z)
  else Raise digits_error.

Definition scan_number (s : pystr) : py (pyval * pystr) :=
  let '(negative, s) := match expect c_minus s with Some s => (true, s) | None => (false, s) end in
  match int_part s with
  | None => Raise syntax_error
  | Some (digits, s) =>
      let '(frac, s) := optional_part fraction s in
      let '(expo, s) := optional_part exponent s in
      v ← number_value negative digits (frac ++ expo); Ok (v, s)
  end.

(** The literals, in the order they are tried. *)
Definition literals : list (pystr * pyval) :=
  [(§"null", VNone); (§"true", VBool true); (§"false", VBool false); (§"NaN", VFloat S754_nan);
   (§"Infinity", VFloat (S754_infinity false)); (§"-Infinity", VFloat (S754_infinity true))].

Definition scan_atom (s : pystr) : py (pyval * pystr) :=
  match find_first (fun lv => str_startswith lv.1 s) literals with
  | Some (l, v) => Ok (v, str_removeprefix l s)
  | None => scan_number s
  end.

(** What an object becomes when no hook is given: the last of equal members
    stays. *)
Definition plain_object (pairs : list (pystr * pyval)) : py pyval := Ok (VDict (dict_of pairs)).

(** Each step consumes fuel and most consume a character: twice the length of
    the text is enough.  [hook] is [object_pairs_hook]. *)
Section Scan.
Variable hook : list (pystr * pyval) -> py pyval.

Fixpoint scan (fuel depth : nat) (s : pystr) : py (pyval * pystr) :=
  match fuel with
  | O => Raise syntax_error
  | S fuel =>
      match expect c_quote s, expect c_lbrace s, expect c_lbracket s, depth with
      | Some s, _, _, _ => r ← scan_string s; Ok (VStr r.1, r.2)
      | None, Some _, _, O | None, None, Some _, O => Raise recursion_error
      | None, Some s, _, S depth =>
          match expect c_rbrace (skip_blanks s) with
          | Some s => v ← hook []; Ok (v, s)
          | None => r ← scan_members fuel depth (skip_blanks s); v ← hook r.1; Ok (v, r.2)
          end
      | None, None, Some s, S depth =>
          match expect c_rbracket (skip_blanks s) with
          | Some s => Ok (VList [], s)
          | None => r ← scan_elements fuel depth (skip_blanks s); Ok (VList r.1, r.2)
          end
      | None, None, None, _ => scan_atom s
      end
  end
with scan_members (fuel depth : nat) (s : pystr) : py (list (pystr * pyval) * pystr) :=
  match fuel with
  | O => Raise syntax_error
  | S fuel =>
      match expect c_quote s with
      | None => Raise syntax_error
      | Some s =>
          k ← scan_string s;
          match expect c_colon (skip_blanks k.2) with
          | None => Raise syntax_error
          | Some s =>
              v ← scan fuel depth (skip_blanks s);
              match expect c_rbrace (skip_blanks v.2), expect c_comma (skip_blanks v.2) with
              | Some s, _ => Ok ([(k.1, v.1)], s)
              | None, Some s => r ← scan_members fuel depth (skip_blanks s); Ok ((k.1, v.1) :: r.1, r.2)
              | None, None => Raise syntax_error
              end
          end
      end
  end
with scan_elements (fuel depth : nat) (s : pystr) : py (list pyval * pystr) :=
  match fuel with
  | O => Raise syntax_error
  | S fuel =>
      v ← scan fuel depth s;
      match expect c_rbracket (skip_blanks v.2), expect c_comma (skip_blanks v.2) with
      | Some s, _ => Ok ([v.1], s)
      | None, Some s => r ← scan_elements fuel depth (skip_blanks s); Ok (v.1 :: r.1, r.2)
      | None, None => Raise syntax_error
      end
  end.

Definition byte_order_mark : N := 65279.

(** [json.loads(s, object_pairs_hook=hook)] *)
Definition loads_with (s : pystr) : py pyval :=
  match expect byte_order_mark s with
  | Some _ => Raise syntax_error
  | None =>
      r ← scan (S (2 * length s)) decode_depth (skip_blanks s);
      if str_true (skip_blanks r.2) then Raise syntax_error else Ok r.1
  end.
End Scan.

(** [json.loads(s)] *)
Definition loads (s : pystr) : py pyval := loads_with plain_object s.

(* ------------------------------------------------------------------ *)
(** ** Reading what was written *)

(** Values without floats or foreign objects, whose objects have distinct
    members. *)
#[warnings="-register-all"]
Inductive Plain : pyval -> Prop :=
| plain_none : Plain VNone
| plain_bool b : Plain (VBool b)
| plain_int z : Plain (VInt z)
| plain_str s : Plain (VStr s)
| plain_list l : Forall Plain l -> Plain (VList l)
| plain_dict d : dict_wf d -> Forall (fun kv => Plain kv.2) d -> Plain (VDict d).

Lemma expect_eq c s : expect c (c :: s) = Some s.
Proof. cbn. by rewrite N.eqb_refl. Qed.

Lemma expect_ne c d s : d ≠ c -> expect c (d :: s) = None.
Proof. intros Hd. cbn. by destruct (N.eqb_spec d c). Qed.

Lemma skip_blanks_ne c s : blank c = false -> skip_blanks (c :: s) = c :: s.
Proof. intros Hc. unfold skip_blanks. cbn [str_span]. by rewrite Hc. Qed.

Lemma hex_value_digit n : n < 16 -> hex_value (hex_digit n) = Some n.
Proof.
  intros Hn. unfold hex_value, hex_digit, digit_ascii.
  destruct (N.ltb_spec n 10);
    repeat match goal with |- context [?x <=? ?y] => destruct (N.leb_spec x y) end; cbn [andb]; try lia;
    f_equal; lia.
Qed.

(** One character, written and read back. *)
Lemma scan_escape c s : scan_string (escape_char c ++ s) = (r ← scan_string s; Ok (c :: r.1, r.2)).
Proof.
  unfold escape_char. destruct (dget short_escapes c) as [e|] eqn:He.
  - unfold short_escapes in He. cbn [dget] in He.
    repeat (case_decide; [subst c; injection He as <-; reflexivity|]). done.
  - assert (c ≠ c_quote) as Hq by (intros ->; done). assert (c ≠ c_backslash) as Hb by (intros ->; done).
    destruct (N.ltb_spec c 32) as [Hlt|Hge].
    + unfold hex_byte. cbn [app scan_string].
      change (c_backslash =? c_quote) with false. change (c_backslash =? c_backslash) with true. cbn [N.eqb Pos.eqb].
      assert (c / 16 < 16) by (apply N.Div0.div_lt_upper_bound; lia).
      assert (c mod 16 < 16) by (by apply N.mod_lt).
      assert (unit_value 48 48 (hex_digit (c / 16)) (hex_digit (c mod 16)) = Some c) as ->.
      { unfold unit_value. rewrite !hex_value_digit by done. change (hex_value 48) with (Some 0). f_equal.
        rewrite (N.div_mod c 16) at 3 by done. lia. }
      assert (high_surrogate c = false) as Hs by (unfold high_surrogate; destruct (N.leb_spec 55296 c); [lia|done]).
      repeat (destruct s as [|? s]; [done|]). by rewrite Hs.
    + cbn [app scan_string]. destruct (N.eqb_spec c c_quote), (N.eqb_spec c c_backslash); try done.
      by rewrite (proj2 (N.ltb_ge c 32)).
Qed.

Lemma scan_quoted s rest : scan_string ((s ≫= escape_char) ++ c_quote :: rest) = Ok (s, rest).
Proof.
  induction s as [|c s IH]; [done|]. change ((c :: s) ≫= escape_char) with (escape_char c ++ (s ≫= escape_char)).
  rewrite <- app_assoc, scan_escape, IH. done.
Qed.

(** Printed numbers have no leading zero. *)
Lemma dec_digits_head fuel n : (N.size_nat n < fuel)%nat -> n <> 0 ->
  exists c s, dec_digits fuel n = c :: s /\ c ≠ 48 /\ digit_ascii c = true.
Proof.
  revert n; induction fuel as [|fuel IH]; intros n Hf Hn; [lia|]. cbn [dec_digits].
  destruct (N.ltb_spec n 10) as [Hlt|Hge].
  - exists (48 + n), []. split; [done|]. unfold digit_ascii. rewrite andb_true_iff, !N.leb_le. lia.
  - assert (n / 10 <> 0) as Hd by (intros Hd; apply N.div_small_iff in Hd; lia).
    destruct (IH (n / 10)) as (c & s & -> & Hc); [|done|by exists c, (s ++ [48 + n mod 10])].
    pose proof (size_nat_div n Hn). lia.
Qed.

Lemma dec_N_head n : exists c s, dec_N n = c :: s /\ digit_ascii c = true.
Proof.
  destruct (decide (n = 0)) as [->|Hn]; [by exists 48, []|].
  destruct (dec_digits_head (S (N.size_nat n)) n) as (c & s & ? & _ & ?); [lia|done|by exists c, s].
Qed.

(** What may follow a number. *)
Definition ends_number (s : pystr) : Prop :=
  match s with [] => True | c :: _ => c ∉ [46; 101; 69] /\ digit_ascii c = false end.

Lemma int_part_dec n rest : ends_number rest -> int_part (dec_N n ++ rest) = Some (dec_N n, rest).
Proof.
  intros Hr. destruct (decide (n = 0)) as [->|Hn]; [reflexivity|].
  destruct (dec_digits_head (S (N.size_nat n)) n) as (c & s & Hd & Hc & Hdc); [lia|done|].
  fold (dec_N n) in Hd. pose proof (dec_N_digits n) as Hall. rewrite Hd in *. cbn [app int_part].
  destruct (N.eqb_spec c 48); [done|]. rewrite Hdc. f_equal. apply (str_span_app digit_ascii (c :: s) rest Hall).
  destruct rest as [|x rest]; [done|]. apply Hr.
Qed.

Lemma no_tail s : ends_number s -> optional_part fraction s = ([], s) /\ optional_part exponent s = ([], s).
Proof.
  intros Hr. unfold optional_part, fraction, exponent. destruct s as [|c s]; [done|]. destruct Hr as [Hc _].
  rewrite expect_ne by set_solver. split; [done|].
  destruct (one_of §"eE" c) eqn:He; [|done]. exfalso. apply Hc. apply existsb_elem in He as (x & Hx & He).
  apply N.eqb_eq in He as ->. change §"eE" with [101; 69]%N in Hx. set_solver.
Qed.

(** A number does not begin like a literal. *)
Lemma scan_atom_number s : (match s with c :: d :: _ => digit_ascii c = true \/ c = c_minus /\ digit_ascii d = true
                                   | [c] => digit_ascii c = true | [] => False end) -> scan_atom s = scan_number s.
Proof.
  intros Hs. unfold scan_atom. assert (find_first (fun lv => str_startswith lv.1 s) literals = None) as ->; [|done].
  apply find_first_None. intros [l v] Hl. unfold literals in Hl.
  destruct (str_startswith l s) eqn:He; cbn [fst]; [|done]. exfalso. apply str_startswith_spec in He as [r ->].
  repeat (apply elem_of_cons in Hl as [[= -> ->]|Hl]; [cbn in Hs; naive_solver|]). by apply not_elem_of_nil in Hl.
Qed.

Lemma scan_int z t rest : int_text z = Ok t -> ends_number rest -> scan_atom (t ++ rest) = Ok (VInt z, rest).
Proof.
  unfold int_text. case_bool_decide as Hlen; [|done]. intros [= <-] Hr. destruct (no_tail rest Hr) as [Hf He].
  assert (forall n, expect c_minus (dec_N n ++ rest) = None) as Hminus.
  { intros n. destruct (dec_N_head n) as (c & s & -> & Hc). apply expect_ne. by intros ->. }
  rewrite scan_atom_number.
  - unfold scan_number. destruct z as [|p|p]; cbn [dec_Z Z.abs_N] in *.
    + rewrite Hminus, int_part_dec by done. rewrite Hf, He. reflexivity.
    + rewrite Hminus, int_part_dec by done. rewrite Hf, He. unfold number_value. cbn [app str_true].
      rewrite bool_decide_eq_true_2 by done. rewrite dec_N_value. done.
    + change (expect c_minus ((45 :: dec_N (N.pos p)) ++ rest)) with (Some (dec_N (N.pos p) ++ rest)). cbv iota beta.
      rewrite int_part_dec by done. rewrite Hf, He. unfold number_value. cbn [app str_true].
      rewrite bool_decide_eq_true_2 by done. rewrite dec_N_value. done.
  - destruct z as [|p|p]; cbn [dec_Z].
    + destruct (dec_N_head 0) as (c & s & -> & Hc). cbn. destruct (s ++ rest); auto.
    + destruct (dec_N_head (Npos p)) as (c & s & -> & Hc). cbn. destruct (s ++ rest); auto.
    + destruct (dec_N_head (Npos p)) as (c & s & -> & Hc). cbn. auto.
Qed.

Definition starts (c : N) : Prop := blank c = false /\ c ≠ c_rbracket /\ c < 128.

Lemma digit_starts c : digit_ascii c = true -> starts c.
Proof.
  unfold digit_ascii. rewrite andb_true_iff, !N.leb_le. intros Hc. split; [|split; [unfold c_rbracket; lia|lia]].
  unfold blank, one_of. cbn. rewrite !orb_false_iff, !N.eqb_neq. lia.
Qed.

Lemma text_head depth v t : text depth v = Ok t -> Plain v -> exists c s, t = c :: s /\ starts c.
Proof.
  intros Ht Hv. destruct Hv as [|b|z|str|l _|d _ _]; destruct depth as [|depth]; cbn [text] in Ht; try discriminate Ht.
  all: try (destruct b).
  all: try (injection Ht as <-; eexists _, _; split; [reflexivity|]; by split_and!).
  all: try (destruct (mapR _ _); [|done]; injection Ht as <-; eexists _, _; split; [reflexivity|]; by split_and!).
  all: unfold int_text in Ht; case_bool_decide; [|done]; injection Ht as <-.
  all: destruct z as [|p|p]; cbn [dec_Z]; [destruct (dec_N_head 0) as (c & s & -> & Hc)
    |destruct (dec_N_head (Npos p)) as (c & s & -> & Hc)|exists c_minus, (dec_N (Npos p)); by split_and!].
  all: exists c, s; by split; [|apply digit_starts].
Qed.

(** Arithmetic on lengths. *)
Local Ltac lengths := repeat (progress (cbn [length app] in *; rewrite ?length_app in *)); lia.

(** A value of depth [depth] is read back, whatever follows it. *)
Definition reads (depth : nat) : Prop := forall v t fuel depth' rest,
  text depth v = Ok t -> Plain v -> (depth <= depth')%nat -> (2 * length (t ++ rest) < fuel)%nat -> ends_number rest ->
  scan plain_object fuel depth' (t ++ rest) = Ok (v, rest).

Lemma ends_comma s : ends_number (c_comma :: s).
Proof. split; [set_solver|done]. Qed.
Lemma ends_rbracket s : ends_number (c_rbracket :: s).
Proof. split; [set_solver|done]. Qed.
Lemma ends_rbrace s : ends_number (c_rbrace :: s).
Proof. split; [set_solver|done]. Qed.
#[local] Hint Resolve ends_comma ends_rbracket ends_rbrace : core.

Lemma str_join_more sep t t' ts : str_join sep (t :: t' :: ts) = t ++ sep ++ str_join sep (t' :: ts).
Proof. done. Qed.

(** A joined list begins like its first text. *)
Lemma skip_join (P : N -> Prop) (t : pystr) (ts : list pystr) (s : pystr) :
  (exists c (t0 : pystr), t = c :: t0 /\ blank c = false /\ P c) ->
  skip_blanks (str_join [c_comma] (t :: ts) ++ s) = str_join [c_comma] (t :: ts) ++ s /\
  exists c (r : pystr), str_join [c_comma] (t :: ts) ++ s = c :: r /\ P c.
Proof.
  intros (c & t0 & Ht & Hb & Hc).
  assert (exists r : pystr, str_join [c_comma] (t :: ts) ++ s = c :: r) as [r Hj] by (subst t; destruct ts; by eexists).
  rewrite Hj. split; [by apply skip_blanks_ne|by exists c, r].
Qed.

Lemma scan_elements_spec depth depth' vs ts fuel rest : reads depth -> (depth <= depth')%nat ->
  Forall2 (fun v t => text depth v = Ok t) vs ts -> Forall Plain vs -> vs ≠ [] ->
  (S (2 * length (str_join [c_comma] ts ++ c_rbracket :: rest)) < fuel)%nat ->
  scan_elements plain_object fuel depth' (str_join [c_comma] ts ++ c_rbracket :: rest) = Ok (vs, rest).
Proof.
  intros Hr Hd Hts. revert fuel. induction Hts as [|v t vs ts Ht Hts IH]; intros fuel Hp Hne Hf; [done|].
  apply Forall_cons in Hp as [Hv Hp]. destruct fuel as [|fuel]; [lia|]. cbn [scan_elements].
  destruct (text_head _ _ _ Ht Hv) as (c & t0 & Hc & _).
  destruct Hts as [|v' t' vs ts Ht' Hts].
  - cbn [str_join] in *. rewrite (Hr v t) by (auto; rewrite Hc in *; lengths). reflexivity.
  - rewrite str_join_more in *. rewrite <- !app_assoc in *. cbn [app] in *.
    rewrite (Hr v t) by (auto; rewrite Hc in *; lengths). cbn [rbind fst snd].
    rewrite !skip_blanks_ne by done. rewrite expect_ne, expect_eq by done.
    assert (skip_blanks (str_join [c_comma] (t' :: ts) ++ c_rbracket :: rest) =
            str_join [c_comma] (t' :: ts) ++ c_rbracket :: rest) as ->.
    { apply (skip_join (fun _ => True)). apply Forall_cons in Hp as [Hv' _].
      destruct (text_head _ _ _ Ht' Hv') as (c' & t0' & ? & ? & _). by exists c', t0'. }
    rewrite IH; [done|done|done|]. rewrite Hc in *. lengths.
Qed.

Lemma scan_members_spec depth depth' d ts fuel rest : reads depth -> (depth <= depth')%nat ->
  Forall2 (fun kv kt => kt.1 = kv.1 /\ text depth kv.2 = Ok kt.2) d ts -> Forall (fun kv => Plain kv.2) d -> d ≠ [] ->
  (S (2 * length (str_join [c_comma] (member_text <$> ts) ++ c_rbrace :: rest)) < fuel)%nat ->
  scan_members plain_object fuel depth' (str_join [c_comma] (member_text <$> ts) ++ c_rbrace :: rest) = Ok (d, rest).
Proof.
  intros Hr Hd Hts. revert fuel. induction Hts as [|[k v] [k' t] d ts [Hk Ht] Hts IH]; intros fuel Hp Hne Hf; [done|].
  cbn [fst snd] in Hk, Ht. subst k'. apply Forall_cons in Hp as [Hv Hp]. destruct fuel as [|fuel]; [lia|].
  destruct (text_head _ _ _ Ht Hv) as (c & t0 & Hc & Hb & _).
  assert (forall x, member_text (k, t) ++ x = c_quote :: (k ≫= escape_char) ++ c_quote :: c_colon :: t ++ x) as Hm.
  { intros x. unfold member_text, quoted. cbn [fst snd app]. by rewrite <- !app_assoc. }
  destruct Hts as [|kv' kt' d ts Ht' Hts].
  - cbn [fmap list_fmap str_join] in *. rewrite Hm in *. cbn [scan_members]. rewrite expect_eq, scan_quoted.
    cbn [rbind fst snd]. rewrite skip_blanks_ne, expect_eq, Hc by done. cbn [app]. rewrite skip_blanks_ne by done.
    change (c :: t0 ++ c_rbrace :: rest) with ((c :: t0) ++ c_rbrace :: rest). rewrite <- Hc.
    rewrite (Hr v t) by (auto; lengths). reflexivity.
  - cbn [fmap list_fmap] in *. rewrite str_join_more in *. rewrite <- !app_assoc in *. rewrite Hm in *. cbn [scan_members].
    rewrite expect_eq, scan_quoted.
    cbn [rbind fst snd]. rewrite skip_blanks_ne, expect_eq, Hc by done. cbn [app]. rewrite skip_blanks_ne by done.
    set (more := str_join _ _ ++ _) in *. change (c :: t0 ++ c_comma :: more) with ((c :: t0) ++ c_comma :: more). rewrite <- Hc.
    rewrite (Hr v t) by (auto; lengths). cbn [rbind fst snd].
    rewrite skip_blanks_ne, expect_ne, expect_eq by done.
    assert (skip_blanks more = more) as ->.
    { apply (skip_join (fun _ => True)). unfold member_text, quoted. by eexists _, _. }
    unfold more in *. rewrite IH; [done|done|done|].
    lengths.
Qed.

Lemma expect_other c d s : negb (d =? c) = true -> expect c (d :: s) = None.
Proof. intros Hd. cbn. by destruct (d =? c). Qed.

(** Scanning what is neither a string nor a container. *)
Lemma scan_other hook fuel depth c s : c ∉ [c_quote; c_lbrace; c_lbracket] ->
  scan hook (S fuel) depth (c :: s) = scan_atom (c :: s).
Proof.
  intros Hc. cbn [scan]. rewrite !expect_ne by set_solver. by destruct depth.
Qed.

Lemma scan_literal hook fuel depth l v rest : (l, v) ∈ take 3 literals -> scan hook (S fuel) depth (l ++ rest) = Ok (v, rest).
Proof.
  intros Hl. unfold literals in Hl. cbn [take] in Hl.
  repeat (apply elem_of_cons in Hl as [[= -> ->]|Hl]; [destruct depth; reflexivity|]). by apply not_elem_of_nil in Hl.
Qed.

Lemma int_text_start z t : int_text z = Ok t -> exists c s, t = c :: s /\ c ∉ [c_quote; c_lbrace; c_lbracket].
Proof.
  assert (forall c, digit_ascii c = true -> c ∉ [c_quote; c_lbrace; c_lbracket]) as Hd.
  { intros c Hc Hin. unfold digit_ascii in Hc. rewrite andb_true_iff, !N.leb_le in Hc.
    unfold c_quote, c_lbrace, c_lbracket in Hin. set_unfold. lia. }
  unfold int_text. case_bool_decide; [|done]. intros [= <-].
  destruct z as [|p|p]; cbn [dec_Z]; [destruct (dec_N_head 0) as (c & s & -> & Hc)
    |destruct (dec_N_head (Npos p)) as (c & s & -> & Hc)|exists c_minus, (dec_N (Npos p)); split; [done|set_solver]].
  all: exists c, s; auto.
Qed.

Lemma scan_int_text hook fuel depth z t rest : int_text z = Ok t -> ends_number rest ->
  scan hook (S fuel) depth (t ++ rest) = Ok (VInt z, rest).
Proof.
  intros Ht Hr. rewrite <- (scan_int z t rest Ht Hr). destruct (int_text_start z t Ht) as (c & s & -> & Hc).
  by apply scan_other.
Qed.

Lemma reads_all depth : reads depth.
Proof.
  induction depth as [|depth IH]; intros v t fuel depth' rest Ht Hv Hd Hf Hr;
    (destruct fuel as [|fuel]; [lia|]); destruct Hv as [|b|z|str|l Hl|d Hwf Hl]; cbn [text] in Ht; try discriminate Ht.
  all: try (injection Ht as <-; apply scan_literal; set_solver).
  all: try (destruct b; injection Ht as <-; apply scan_literal; set_solver).
  all: try (injection Ht as <-; unfold quoted; cbn [app]; rewrite <- app_assoc; cbn [app scan];
            rewrite expect_eq, scan_quoted; done).
  1-2: by apply (scan_int_text _ _ _ z).
  - destruct (mapR (text depth) l) as [ts|] eqn:Hts; [|done]. cbn [rbind] in Ht. injection Ht as <-. apply mapR_Ok in Hts.
    cbn [app] in *. destruct depth' as [|depth']; [lia|]. cbn [scan].
    rewrite !expect_ne, expect_eq by done. rewrite <- app_assoc in *. cbn [app] in *.
    destruct Hts as [|v t l ts Hvt Hts].
    + cbn [str_join app]. rewrite skip_blanks_ne, expect_eq by done. done.
    + inversion Hl as [|? ? Hv Hl']; subst. destruct (text_head _ _ _ Hvt Hv) as (c & t0 & Hc & Hb & Hne & _).
      destruct (skip_join (fun c => c ≠ c_rbracket) t ts (c_rbracket :: rest)) as [-> (c' & r & Heq & Hc')]; [by exists c, t0|].
      rewrite Heq, expect_ne by done. rewrite <- Heq.
      rewrite (scan_elements_spec depth depth' (v :: l)); [done|done|lia|by constructor|done|done|]. lengths.
  - destruct (mapR _ d) as [ts|] eqn:Hts; [|done]. cbn [rbind] in Ht. injection Ht as <-. apply mapR_Ok in Hts.
    assert (Forall2 (fun kv kt => kt.1 = kv.1 /\ text depth kv.2 = Ok kt.2) d ts) as Hts'.
    { eapply Forall2_impl; [exact Hts|]. intros [k v] kt Hkt. cbn in *. destruct (text depth v); [|done]. by injection Hkt as <-. }
    clear Hts. cbn [app] in *. destruct depth' as [|depth']; [lia|]. cbn [scan].
    rewrite !expect_ne, expect_eq by done. rewrite <- app_assoc in *. cbn [app] in *.
    destruct Hts' as [|kv kt d ts Hvt Hts].
    + cbn. done.
    + cbn [fmap list_fmap] in *.
      destruct (skip_join (fun c => c ≠ c_rbrace) (member_text kt) (member_text <$> ts) (c_rbrace :: rest)) as [Heq (c' & r & Heq' & Hc')].
      { unfold member_text, quoted. by eexists _, _. }
      cbn [fmap list_fmap] in *. rewrite Heq. rewrite Heq' at 1. rewrite expect_ne by done.
      change (scan_members plain_object fuel depth' _) with
        (scan_members plain_object fuel depth' (str_join [c_comma] (member_text <$> (kt :: ts)) ++ c_rbrace :: rest)).
      rewrite (scan_members_spec depth depth' (kv :: d)); [|done|lia|by constructor|done|done|cbn [fmap list_fmap] in *; lengths].
      unfold plain_object. cbn [rbind fst snd]. by rewrite dict_of_NoDup.
Qed.

(** A document that was written, followed by blanks, is read back. *)
Lemma loads_dumps v t blanks : (encode_depth <= decode_depth)%nat -> dumps v = Ok t -> Plain v ->
  Forall (fun c => blank c = true) blanks -> loads (t ++ blanks) = Ok v.
Proof.
  intros Hd Ht Hv Hb. unfold loads, loads_with. destruct (text_head _ _ _ Ht Hv) as (c & t0 & Hc & Hblank & _ & Hlt).
  assert (expect byte_order_mark (t ++ blanks) = None) as ->.
  { rewrite Hc. apply expect_ne. unfold byte_order_mark. lia. }
  assert (skip_blanks (t ++ blanks) = t ++ blanks) as -> by (rewrite Hc; by apply skip_blanks_ne).
  rewrite (reads_all encode_depth v t _ decode_depth blanks Ht Hv Hd); [|lia|].
  - cbn [rbind fst snd]. unfold skip_blanks.
    pose proof (str_span_app blank blanks [] Hb I) as Hs. rewrite app_nil_r in Hs. by rewrite Hs.
  - destruct Hb as [|b blanks Hb _]; [done|]. unfold blank, one_of in Hb. cbn in Hb.
    rewrite !orb_true_iff, !N.eqb_eq in Hb. split.
    + intros Hin. set_unfold. lia.
    + unfold digit_ascii. apply andb_false_iff. left. apply N.leb_gt. lia.
Qed.

(* ------------------------------------------------------------------ *)
(** ** The fuel of the decoder is enough *)

Lemma span_length p s : (length (str_span p s).2 <= length s)%nat.
Proof. rewrite (str_span_spec p s) at 2. rewrite length_app. lia. Qed.

Lemma skip_length s : (length (skip_blanks s) <= length s)%nat.
Proof. apply span_length. Qed.

Lemma expect_length c s r : expect c s = Some r -> length s = S (length r).
Proof. destruct s as [|d s]; cbn; [done|]. destruct (d =? c); [|done]. by intros [= ->]. Qed.

Lemma rbind_Ok {A B} (x : py A) (f : A -> py B) b : rbind x f = Ok b -> exists a, x = Ok a /\ f a = Ok b.
Proof. destruct x as [a|e]; [by exists a|done]. Qed.

Lemma scan_string_length n s t r : (length s <= n)%nat -> scan_string s = Ok (t, r) -> (length r < length s)%nat.
Proof.
  revert s t r; induction n as [|n IH]; intros s t r Hn; [by destruct s; [|cbn in Hn; lia]|].
  destruct s as [|c s]; [done|]. cbn [scan_string]. cbn [length] in *.
  assert (forall s' x, (length s' < S (length s))%nat -> (q ← scan_string s'; Ok (x :: q.1, q.2)) = Ok (t, r) ->
    (length r < S (length s))%nat) as Hrec.
  { intros s' x Hs (q & Hq & [= <- <-])%rbind_Ok. destruct q as [t' r']. apply IH in Hq; cbn; lia. }
  destruct (c =? c_quote); [intros [= <- <-]; lia|]. destruct (c =? c_backslash).
  - destruct s as [|e s]; [done|]. cbn [length] in *. destruct (e =? 117); [|destruct (unescape e); [apply Hrec; lia|done]].
    destruct s as [|h1 [|h2 [|h3 [|h4 s]]]]; try done. cbn [length] in *.
    destruct (unit_value h1 h2 h3 h4) as [u|]; [|done].
    destruct s as [|b [|u' [|l1 [|l2 [|l3 [|l4 s]]]]]]; try (apply Hrec; cbn; lia). cbn [length] in *.
    destruct (_ && _ && _); [|apply Hrec; cbn; lia]. destruct (unit_value l1 l2 l3 l4) as [w|]; [|done].
    destruct (low_surrogate w); apply Hrec; cbn; lia.
  - destruct (c <? 32); [done|]. apply Hrec. lia.
Qed.

Lemma optional_length p s : (forall r, p s = Some r -> (length r.2 <= length s)%nat) ->
  (length (optional_part p s).2 <= length s)%nat.
Proof. unfold optional_part. destruct (p s) as [r|]; [auto|done]. Qed.

Lemma scan_atom_length s v r : scan_atom s = Ok (v, r) -> (length r < length s)%nat.
Proof.
  unfold scan_atom. destruct (find_first _ literals) as [[l x]|] eqn:Hf.
  - intros [= <- <-]. apply find_first_Some in Hf as [Hl Hs]. cbn [fst] in Hs. apply str_startswith_spec in Hs as [q ->].
    unfold str_removeprefix. rewrite str_startswith_app, drop_app_length, length_app.
    assert (forallb (fun lv => (0 <? length lv.1)%nat) literals = true) as Hne by reflexivity.
    rewrite forallb_elem in Hne. specialize (Hne _ Hl). apply Nat.ltb_lt in Hne. cbn [fst] in Hne. lia.
  - unfold scan_number. set (s1 := match expect c_minus s with Some s => (true, s) | None => (false, s) end).
    assert (length s1.2 <= length s)%nat as Hs1.
    { unfold s1. destruct (expect c_minus s) as [q|] eqn:Hq; [apply expect_length in Hq; cbn; lia|done]. }
    destruct s1 as [negative s']. cbn [snd] in Hs1. destruct (int_part s') as [[digits s2]|] eqn:Hi; [|done].
    assert (length s2 < length s')%nat as Hs2.
    { unfold int_part in Hi. destruct s' as [|c q]; [done|]. destruct (c =? 48); [injection Hi as <- <-; cbn; lia|].
      destruct (digit_ascii c) eqn:Hc; [|done]. injection Hi as Hi. cbn [str_span] in Hi. rewrite Hc in Hi.
      pose proof (span_length digit_ascii q). destruct (str_span digit_ascii q) as [a b]. injection Hi as <- <-. cbn in *. lia. }
    pose proof (optional_length fraction s2) as Hfr. destruct (optional_part fraction s2) as [frac s3].
    pose proof (optional_length exponent s3) as Hex. destruct (optional_part exponent s3) as [expo s4].
    intros (x & _ & [= <- <-])%rbind_Ok. cbn [snd] in *.
    assert (length s4 <= length s3)%nat; [apply Hex|assert (length s3 <= length s2)%nat; [apply Hfr|lia]].
    + intros q. unfold exponent. destruct s3 as [|e q']; [done|]. destruct (one_of _ e); [|done].
      destruct q' as [|c q']; [done|]. destruct (one_of _ c).
      * pose proof (span_length digit_ascii q'). destruct (str_span digit_ascii q') as [ds q'']. destruct (str_true ds); [|done].
        intros [= <-]. cbn in *. lia.
      * pose proof (span_length digit_ascii (c :: q')). destruct (str_span digit_ascii (c :: q')) as [ds q''].
        destruct (str_true ds); [|done]. intros [= <-]. cbn in *. lia.
    + intros q. unfold fraction. destruct (expect 46 s2) as [q'|] eqn:He; [|done]. apply expect_length in He.
      pose proof (span_length digit_ascii q'). destruct (str_span digit_ascii q') as [ds q'']. destruct (str_true ds); [|done].
      intros [= <-]. cbn in *. lia.
Qed.

Section Fuel.
Variable hook : list (pystr * pyval) -> py pyval.

(** Steps with enough fuel: more fuel changes nothing, and the rest is shorter. *)
Definition settled {A} (f : nat -> py (A * pystr)) (fuel : nat) (s : pystr) : Prop :=
  (forall more, (fuel <= more)%nat -> f more = f fuel) /\
  forall a r, f fuel = Ok (a, r) -> (length r < length s)%nat.

Definition settled_at (fuel : nat) : Prop := forall depth s,
  ((2 * length s < fuel)%nat -> settled (fun n => scan hook n depth s) fuel s) /\
  ((S (2 * length s) < fuel)%nat -> settled (fun n => scan_members hook n depth s) fuel s) /\
  ((S (2 * length s) < fuel)%nat -> settled (fun n => scan_elements hook n depth s) fuel s).

Lemma settled_step {A} (f : nat -> py (A * pystr)) fuel s :
  (forall more, (fuel <= more)%nat -> f (S more) = f (S fuel)) ->
  (forall a r, f (S fuel) = Ok (a, r) -> (length r < length s)%nat) -> settled f (S fuel) s.
Proof.
  intros H1 H2. split; [|exact H2]. intros [|more] Hm; [lia|]. apply H1. lia.
Qed.

Lemma settled_scan fuel depth s : settled_at fuel -> (2 * length s < S fuel)%nat ->
  settled (fun n => scan hook n depth s) (S fuel) s.
Proof.
  intros IH Hs. apply settled_step; cbn [scan].
  - intros more Hm. destruct (expect c_quote s); [done|]. destruct (expect c_lbrace s) as [q|] eqn:Hq.
    + apply expect_length in Hq. pose proof (skip_length q). destruct depth as [|depth]; [done|].
      destruct (expect c_rbrace _); [done|]. destruct (IH depth (skip_blanks q)) as (_ & [Hmore _] & _); [lia|]. cbv beta in Hmore. by rewrite Hmore.
    + destruct (expect c_lbracket s) as [q|] eqn:Hq'; [|done]. apply expect_length in Hq'. pose proof (skip_length q).
      destruct depth as [|depth]; [done|]. destruct (expect c_rbracket _); [done|].
      destruct (IH depth (skip_blanks q)) as (_ & _ & [Hmore _]); [lia|]. cbv beta in Hmore. by rewrite Hmore.
  - intros v r. destruct (expect c_quote s) as [q|] eqn:Hq.
    { apply expect_length in Hq. intros ([t r'] & Ht & [= <- <-])%rbind_Ok. apply scan_string_length with (n := length q) in Ht; cbn; lia. }
    destruct (expect c_lbrace s) as [q|] eqn:Hq'; [|destruct (expect c_lbracket s) as [q|] eqn:Hq''].
    + apply expect_length in Hq'. pose proof (skip_length q). destruct depth as [|depth]; [done|].
      destruct (expect c_rbrace _) as [q'|] eqn:He; [apply expect_length in He; intros (? & _ & [= <- <-])%rbind_Ok; lia|].
      intros ([m r'] & Hm & (? & _ & [= <- <-])%rbind_Ok)%rbind_Ok. destruct (IH depth (skip_blanks q)) as (_ & [_ Hlen] & _); [lia|]. apply Hlen in Hm. cbn. lia.
    + apply expect_length in Hq''. pose proof (skip_length q). destruct depth as [|depth]; [done|].
      destruct (expect c_rbracket _) as [q'|] eqn:He; [apply expect_length in He; intros [= <- <-]; lia|].
      intros ([m r'] & Hm & [= <- <-])%rbind_Ok. destruct (IH depth (skip_blanks q)) as (_ & _ & [_ Hlen]); [lia|]. apply Hlen in Hm. cbn. lia.
    + destruct depth; apply scan_atom_length.
Qed.

Lemma settled_elements fuel depth s : settled_at fuel -> (S (2 * length s) < S fuel)%nat ->
  settled (fun n => scan_elements hook n depth s) (S fuel) s.
Proof.
  intros IH Hs. destruct (IH depth s) as ([Hv Hl] & _ & _); [lia|].
  apply settled_step; cbn [scan_elements].
  - intros more Hm. cbv beta in Hv. rewrite Hv by done. destruct (scan hook fuel depth s) as [[v r]|e]; [|done]. specialize (Hl v r eq_refl). cbn [rbind fst snd].
    pose proof (skip_length r). destruct (expect c_rbracket _); [done|]. destruct (expect c_comma _) as [q|] eqn:Hq; [|done].
    apply expect_length in Hq. pose proof (skip_length q). destruct (IH depth (skip_blanks q)) as (_ & _ & [Hmore _]); [lia|]. cbv beta in Hmore. by rewrite Hmore.
  - intros a r. destruct (scan hook fuel depth s) as [[v r']|e]; [|done]. specialize (Hl v r' eq_refl). cbn [rbind fst snd].
    pose proof (skip_length r'). destruct (expect c_rbracket _) as [q|] eqn:Hq; [apply expect_length in Hq; intros [= <- <-]; lia|].
    destruct (expect c_comma _) as [q|] eqn:Hq'; [|done]. apply expect_length in Hq'. pose proof (skip_length q).
    intros ([m r''] & Hm & [= <- <-])%rbind_Ok. destruct (IH depth (skip_blanks q)) as (_ & _ & [_ Hlen]); [lia|]. apply Hlen in Hm. cbn. lia.
Qed.

Lemma settled_members fuel depth s : settled_at fuel -> (S (2 * length s) < S fuel)%nat ->
  settled (fun n => scan_members hook n depth s) (S fuel) s.
Proof.
  intros IH Hs.
  assert (forall k r0 q, expect c_quote s = Some q -> scan_string q = Ok (k, r0) ->
    forall q', expect c_colon (skip_blanks r0) = Some q' -> (2 * length (skip_blanks q') < fuel)%nat /\ (length (skip_blanks q') < length s)%nat) as Hin.
  { intros k r0 q Hq Hk q' Hq'. apply expect_length in Hq, Hq'. apply scan_string_length with (n := length q) in Hk; [|lia].
    pose proof (skip_length r0). pose proof (skip_length q'). lia. }
  apply (settled_step (fun n => scan_members hook n depth s)); cbn [scan_members].
  - intros more Hm. destruct (expect c_quote s) as [q|] eqn:Hq; [|done]. destruct (scan_string q) as [[k r0]|e] eqn:Hk; [|done].
    cbn [rbind fst snd]. destruct (expect c_colon _) as [q'|] eqn:Hq'; [|done]. destruct (Hin k r0 q eq_refl Hk q' Hq') as [Hf Hlt].
    destruct (IH depth (skip_blanks q')) as ([Hv Hl] & _ & _); [done|]. cbv beta in Hv. rewrite Hv by done.
    destruct (scan hook fuel depth (skip_blanks q')) as [[v r]|e]; [|done]. specialize (Hl v r eq_refl). cbn [rbind fst snd].
    pose proof (skip_length r). destruct (expect c_rbrace _); [done|]. destruct (expect c_comma _) as [p|] eqn:Hp; [|done].
    apply expect_length in Hp. pose proof (skip_length p). destruct (IH depth (skip_blanks p)) as (_ & [Hmore _] & _); [lia|]. cbv beta in Hmore. by rewrite Hmore.
  - intros a r. destruct (expect c_quote s) as [q|] eqn:Hq; [|done]. destruct (scan_string q) as [[k r0]|e] eqn:Hk; [|done].
    cbn [rbind fst snd]. destruct (expect c_colon _) as [q'|] eqn:Hq'; [|done]. destruct (Hin k r0 q eq_refl Hk q' Hq') as [Hf Hlt].
    destruct (IH depth (skip_blanks q')) as ([_ Hl] & _ & _); [done|].
    destruct (scan hook fuel depth (skip_blanks q')) as [[v r']|e]; [|done]. specialize (Hl v r' eq_refl). cbn [rbind fst snd].
    pose proof (skip_length r'). destruct (expect c_rbrace _) as [p|] eqn:Hp; [apply expect_length in Hp; intros [= <- <-]; lia|].
    destruct (expect c_comma _) as [p|] eqn:Hp'; [|done]. apply expect_length in Hp'. pose proof (skip_length p).
    intros ([m r''] & Hm & [= <- <-])%rbind_Ok. destruct (IH depth (skip_blanks p)) as (_ & [_ Hlen] & _); [lia|]. apply Hlen in Hm. cbn. lia.
Qed.

Lemma settled_all fuel : settled_at fuel.
Proof.
  induction fuel as [|fuel IH]; intros depth s; [split_and!; lia|].
  split_and!; intros Hs; [by apply settled_scan|by apply settled_members|by apply settled_elements].
Qed.

(** More fuel than [loads_with] takes changes nothing. *)
Lemma loads_fuel s fuel : (2 * length s < fuel)%nat -> loads_with hook s =
  match expect byte_order_mark s with
  | Some _ => Raise syntax_error
  | None => r ← scan hook fuel decode_depth (skip_blanks s);
            if str_true (skip_blanks r.2) then Raise syntax_error else Ok r.1
  end.
Proof.
  intros Hf. unfold loads_with. destruct (expect byte_order_mark s); [done|].
  pose proof (skip_length s). destruct (settled_all (S (2 * length s)) decode_depth (skip_blanks s)) as ([Hmore _] & _ & _); [lia|].
  by rewrite <- (Hmore fuel) by lia.
Qed.
End Fuel.

(* ------------------------------------------------------------------ *)
(** ** What is read has distinct members *)

#[warnings="-register-all"]
Inductive Distinct : pyval -> Prop :=
| distinct_dict d : dict_wf d -> Forall (fun kv => Distinct kv.2) d -> Distinct (VDict d)
| distinct_list l : Forall Distinct l -> Distinct (VList l)
| distinct_leaf v : match v with VList _ | VDict _ => False | _ => True end -> Distinct v.

Lemma scan_atom_distinct s r : scan_atom s = Ok r -> Distinct r.1.
Proof.
  unfold scan_atom. destruct (find_first _ literals) as [[l v]|] eqn:Hl.
  - intros [= <-]. cbn [fst]. apply distinct_leaf. unfold literals in Hl. cbn [find_first] in Hl.
    repeat case_match; simplify_eq; done.
  - unfold scan_number, number_value. intros Hs. apply distinct_leaf. repeat case_match; inv_result; repeat case_match; inv_result; done.
Qed.

Lemma dict_of_Forall {V} (P : V -> Prop) l : Forall (fun kv => P kv.2) l -> Forall (fun kv => P kv.2) (dict_of (K:=pystr) l).
Proof.
  unfold dict_of, dupdate. assert (Forall (fun kv : pystr * V => P kv.2) []) as Hd by constructor. revert Hd.
  generalize (@nil (pystr * V)) as d. induction l as [|kv l IH]; intros d Hd Hl; [done|]. inversion_clear Hl.
  apply IH; [|done]. clear IH. induction Hd as [|[k' v'] d Hv Hd IH]; cbn; [by repeat constructor|].
  case_decide; by repeat constructor.
Qed.

Lemma scans_distinct fuel :
  (forall depth s r, scan plain_object fuel depth s = Ok r -> Distinct r.1) /\
  (forall depth s r, scan_members plain_object fuel depth s = Ok r -> Forall (fun kv => Distinct kv.2) r.1) /\
  (forall depth s r, scan_elements plain_object fuel depth s = Ok r -> Forall Distinct r.1).
Proof.
  induction fuel as [|fuel (IHv & IHm & IHe)]; [by split_and!|].
  assert (forall l v, plain_object l = Ok v -> Forall (fun kv => Distinct kv.2) l -> Distinct v) as Hd.
  { intros l v [= <-] Hl. constructor; [apply dict_of_wf|by apply dict_of_Forall]. }
  split_and!; intros depth s r Hs; cbn in Hs;
    repeat (first [case_match|progress inv_result]); cbn [fst snd] in *;
    eauto using scan_atom_distinct, distinct_leaf, distinct_list.
  apply (Hd []); [done|constructor].
Qed.

(** Every object that is read has distinct members. *)
Lemma loads_distinct s v : loads s = Ok v -> Distinct v.
Proof.
  unfold loads, loads_with. destruct (expect _ s); [done|]. intros Hl. inv_result. repeat case_match; inv_result.
  by eapply scans_distinct.
Qed.

Lemma distinct_member v k x : Distinct v -> py_get v k (VDict []) = Ok x -> Distinct x.
Proof.
  destruct v as [| | | | | |d|]; try done. intros Hd [= <-]. unfold dget_or. inversion_clear Hd as [? ? Hv| |]; [|done].
  destruct (dget d k) as [y|] eqn:Hy; [|by repeat constructor]. apply dget_elem in Hy.
  by apply (proj1 (Forall_forall _ _) Hv) in Hy.
Qed.

Lemma distinct_py_dict v d : Distinct v -> py_dict v = Ok d -> dict_wf d.
Proof.
  destruct v; cbn; intros Hd Hp; inv_result; try done; [..|by inversion Hd]; eauto with dict.
Qed.
End Json.
End Json.
