(* ===== verification/JsonText.v ===== *)
(** * Indented JSON ([json.dumps(..., indent=2)])

    The writer of the files that people read: the durable choices of roles and
    the source of a native plan.  It is parametric in how a character is escaped
    ([ensure_ascii]) and in the order of members ([sort_keys]); a decoder with
    any hook that keeps distinct members reads back what was written. *)

From Stdlib Require Import ZArith Floats.SpecFloat.
From S2P Require Export Json.

Module JsonText.
Import Json.

(** [[k, v], ...] in the order it is written. *)
Definition ordering : Type := list (pystr * pyval) -> list (pystr * pyval).

Definition new_line (level : nat) : pystr := 10 :: replicate (2 * level) 32.

(** The items of a container between its brackets, one on each line. *)
Definition item_lines (opening closing : N) (level : nat) (items : list pystr) : pystr :=
  opening :: new_line (S level) ++ str_join (c_comma :: new_line (S level)) items ++ new_line level ++ [closing].

Definition colon_space : pystr := [c_colon; 32].

(** [ensure_ascii=True]: everything but printable ASCII is escaped, by UTF-16 units. *)
Definition escape_unit (u : N) : pystr :=
  c_backslash :: 117 :: hex_byte (u / 256) ++ hex_byte (u mod 256).
Definition ascii_escape (c : N) : pystr :=
  match dget short_escapes c with
  | Some e => [c_backslash; e]
  | None =>
      if (32 <=? c) && (c <=? 126) then [c]
      else if c <? 65536 then escape_unit c
      else escape_unit (55296 + (c - 65536) / 1024) ++ escape_unit (56320 + (c - 65536) mod 1024)
  end.

Section Writer.
Context `{JsonLib} (esc : N -> pystr) (order : ordering).

Definition quoted_by (s : pystr) : pystr := c_quote :: (s ≫= esc) ++ [c_quote].

Fixpoint indented (depth level : nat) (v : pyval) : py pystr :=
  match v, depth with
  | VStr s, _ => Ok (quoted_by s)
  | VList [], _ => Ok §"[]"
  | VDict [], _ => Ok §"{}"
  | VList l, S depth => ts ← mapR (indented depth (S level)) l; Ok (item_lines c_lbracket c_rbracket level ts)
  | VDict d, S depth =>
      ts ← mapR (fun kv => t ← indented depth (S level) kv.2; Ok (quoted_by kv.1 ++ colon_space ++ t)) (order d);
      Ok (item_lines c_lbrace c_rbrace level ts)
  | VList _, O | VDict _, O => Raise recursion_error
  | v, _ => text 0 v
  end.

Definition dumps_indented (v : pyval) : py pystr := indented encode_depth 0 v.
End Writer.

(* ------------------------------------------------------------------ *)
(** ** Reading it back *)

(** Values without floats or foreign objects, with distinct members and strings
    in [P]. *)
#[warnings="-register-all"]
Inductive Written (P : pystr -> Prop) : pyval -> Prop :=
| written_none : Written P VNone
| written_bool b : Written P (VBool b)
| written_int z : Written P (VInt z)
| written_str s : P s -> Written P (VStr s)
| written_list l : Forall (Written P) l -> Written P (VList l)
| written_dict d : dict_wf d -> Forall (fun kv => P kv.1 /\ Written P kv.2) d -> Written P (VDict d).

(** The same value with the members of every object in the order they were
    written. *)
#[warnings="-register-all"]
Inductive Arranged (order : ordering) : pyval -> pyval -> Prop :=
| arranged_none : Arranged order VNone VNone
| arranged_bool b : Arranged order (VBool b) (VBool b)
| arranged_int z : Arranged order (VInt z) (VInt z)
| arranged_str s : Arranged order (VStr s) (VStr s)
| arranged_list l l' : Forall2 (Arranged order) l l' -> Arranged order (VList l) (VList l')
| arranged_dict d d' : Forall2 (fun kv kv' => kv'.1 = kv.1 /\ Arranged order kv.2 kv'.2) (order d) d' ->
    Arranged order (VDict d) (VDict d').

(** Two passes over a list. *)
Lemma forall2_through {A B C} (W : A -> Prop) (F : A -> C -> Prop) (R : A -> B -> Prop) (S : B -> C -> Prop) l ts :
  (forall x t, W x -> F x t -> exists y, R x y /\ S y t) -> Forall W l -> Forall2 F l ts ->
  exists l', Forall2 R l l' /\ Forall2 S l' ts.
Proof.
  intros Hstep Hl Hts. induction Hts as [|x t l ts Ht Hts IH]; [by exists []|].
  apply Forall_cons in Hl as [Hx Hl]. destruct (Hstep x t Hx Ht) as (y & Hr & Hs). destruct (IH Hl) as (l' & Hl' & Hts').
  exists (y :: l'). by split; constructor.
Qed.

Section Reader.
Context {json : JsonLib} (esc : N -> pystr) (P : pystr -> Prop).
Context (hook : list (pystr * pyval) -> py pyval).
Context (esc_read : forall s rest, P s -> scan_string ((s ≫= esc) ++ c_quote :: rest) = Ok (s, rest)).

(** A text that begins without blanks and is read as [v] with [depth] levels of
    nesting left. *)
Definition readable (depth : nat) (v : pyval) (t : pystr) : Prop :=
  (exists c t0, t = c :: t0 /\ starts c) /\
  forall fuel rest, (2 * length (t ++ rest) < fuel)%nat -> ends_number rest ->
    scan hook fuel depth (t ++ rest) = Ok (v, rest).

Definition blanks (s : pystr) : Prop := Forall (fun c => blank c = true) s.

Lemma blanks_new_line level : blanks (new_line level).
Proof. unfold new_line. constructor; [done|]. by apply Forall_replicate. Qed.

Lemma skip_blanks_app b c s : blanks b -> blank c = false -> skip_blanks (b ++ c :: s) = c :: s.
Proof.
  intros Hb Hc. unfold skip_blanks. pose proof (str_span_app blank b (c :: s) Hb Hc) as Hs. by rewrite Hs.
Qed.

Lemma blank_ends b s : blanks b -> ends_number s -> ends_number (b ++ s).
Proof.
  intros Hb Hs. destruct Hb as [|c b Hc _]; [done|]. cbn. unfold blank, one_of in Hc. cbn in Hc.
  rewrite !orb_true_iff, !N.eqb_eq in Hc. split.
  - intros Hin. set_unfold. lia.
  - unfold digit_ascii. apply andb_false_iff. left. apply N.leb_gt. lia.
Qed.

Local Ltac lengths := repeat (progress (cbn [length app] in *; rewrite ?length_app in *)); lia.

Lemma ends_after b c s : blanks b -> c ∈ [c_comma; c_rbracket; c_rbrace] -> ends_number (b ++ c :: s).
Proof.
  intros Hb Hc. apply blank_ends; [done|].
  repeat (apply elem_of_cons in Hc as [->|Hc]; [split; [set_solver|done]|]). by apply not_elem_of_nil in Hc.
Qed.

Lemma joined_head (sep t : pystr) (ts : list pystr) (s : pystr) : (exists (c : N) (t0 : pystr), t = c :: t0 /\ starts c) ->
  exists (c : N) (r : pystr), str_join sep (t :: ts) ++ s = c :: r /\ starts c.
Proof. intros (c & t0 & -> & Hc). destruct ts; by eexists c, _. Qed.

Lemma read_elements depth vs ts gap fin rest : blanks gap -> blanks fin -> Forall2 (readable depth) vs ts -> vs ≠ [] ->
  forall fuel, (S (2 * length (str_join (c_comma :: gap) ts ++ fin ++ c_rbracket :: rest)) < fuel)%nat ->
  scan_elements hook fuel depth (str_join (c_comma :: gap) ts ++ fin ++ c_rbracket :: rest) = Ok (vs, rest).
Proof.
  intros Hg Hf Hts. induction Hts as [|v t vs ts [Hhead Ht] Hts IH]; intros Hne fuel Hfuel; [done|].
  destruct fuel as [|fuel]; [lia|]. cbn [scan_elements]. destruct Hts as [|v' t' vs ts Ht' Hts].
  - cbn [str_join] in *. destruct Hhead as (c & t0 & Hc & _).
    rewrite Ht by (first [apply ends_after; [done|set_solver] | rewrite Hc in *; lengths]). cbn [rbind fst snd].
    rewrite skip_blanks_app, expect_eq by done. done.
  - rewrite str_join_more in *. rewrite <- !app_assoc in *. cbn [app] in *. destruct Hhead as (c & t0 & Hc & _).
    rewrite Ht by (first [apply (ends_after []); [by constructor|set_solver] | rewrite Hc in *; lengths]). cbn [rbind fst snd].
    rewrite !skip_blanks_ne by done. rewrite expect_ne, expect_eq by done.
    destruct (joined_head (c_comma :: gap) t' ts (fin ++ c_rbracket :: rest) (proj1 Ht')) as (c' & r & Hr & Hb & _).
    rewrite Hr, skip_blanks_app by done. rewrite <- Hr. rewrite IH; [done|done|]. rewrite Hc in *. lengths.
Qed.

(** A member and its value. *)
Definition member_readable (depth : nat) (kv : pystr * pyval) (item : pystr) : Prop :=
  P kv.1 /\ exists t, item = quoted_by esc kv.1 ++ colon_space ++ t /\ readable depth kv.2 t.

Lemma member_head depth kv item : member_readable depth kv item ->
  exists (c : N) (t0 : pystr), item = c :: t0 /\ starts c.
Proof. intros (_ & t & -> & _). exists c_quote. eexists. by split_and!. Qed.

Lemma read_members depth d items gap fin rest : blanks gap -> blanks fin -> Forall2 (member_readable depth) d items -> d ≠ [] ->
  forall fuel, (S (2 * length (str_join (c_comma :: gap) items ++ fin ++ c_rbrace :: rest)) < fuel)%nat ->
  scan_members hook fuel depth (str_join (c_comma :: gap) items ++ fin ++ c_rbrace :: rest) = Ok (d, rest).
Proof using esc_read.
  intros Hg Hf Hts. induction Hts as [|[k v] item d items Hitem Hts IH]; intros Hne fuel Hfuel; [done|].
  destruct fuel as [|fuel]; [lia|]. cbn [scan_members]. destruct Hitem as (Hk & t & -> & (c & t0 & Hc & Hb & _) & Ht). cbn [fst snd] in *.
  assert (forall x, (quoted_by esc k ++ colon_space ++ t) ++ x = c_quote :: (k ≫= esc) ++ c_quote :: c_colon :: 32 :: t ++ x) as Hm.
  { intros x. unfold quoted_by, colon_space. cbn [app]. by rewrite <- !app_assoc. }
  assert (forall x, skip_blanks (32 :: t ++ x) = t ++ x) as Hskip.
  { intros x. rewrite Hc. by apply (skip_blanks_app [32]); [repeat constructor|]. }
  destruct Hts as [|kv' item' d items Hitem' Hts].
  - cbn [str_join] in *. rewrite Hm in *. rewrite expect_eq, esc_read by done. cbn [rbind fst snd].
    rewrite skip_blanks_ne, expect_eq, Hskip by done.
    rewrite Ht by (first [apply ends_after; [done|set_solver] | lengths]). cbn [rbind fst snd].
    rewrite skip_blanks_app, expect_eq by done. done.
  - rewrite str_join_more in *. rewrite <- !(app_assoc _ _ (fin ++ _)) in *. rewrite Hm in *. cbn [app] in *.
    rewrite expect_eq, esc_read by done. cbn [rbind fst snd]. rewrite skip_blanks_ne, expect_eq, Hskip by done.
    rewrite Ht by (first [apply (ends_after []); [by constructor|set_solver] | lengths]). cbn [rbind fst snd].
    rewrite !skip_blanks_ne by done. rewrite expect_ne, expect_eq by done.
    destruct (joined_head (c_comma :: gap) item' items (fin ++ c_rbrace :: rest) (member_head _ _ _ Hitem')) as (c' & r & Hr & Hb' & _).
    rewrite Hr, skip_blanks_app by done. rewrite <- Hr. rewrite IH; [done|done|]. lengths.
Qed.

Context (order : ordering) (order_perm : forall d, order d ≡ₚ d).
Context (hook_distinct : forall d, dict_wf d -> hook d = Ok (VDict d)).

Lemma readable_scalar depth v t : (exists c t0, t = c :: t0 /\ starts c) ->
  (forall fuel rest, ends_number rest -> scan hook (S fuel) depth (t ++ rest) = Ok (v, rest)) -> readable depth v t.
Proof. intros Hh Hs. split; [done|]. intros [|fuel] rest Hf Hr; [lia|]. by apply Hs. Qed.

Lemma readable_str depth s : P s -> readable depth (VStr s) (quoted_by esc s).
Proof using esc_read.
  intros Hs. apply readable_scalar; [eexists c_quote, _; by split_and!|]. intros fuel rest _.
  unfold quoted_by. cbn [app]. rewrite <- app_assoc. cbn [app scan]. by rewrite expect_eq, esc_read.
Qed.

Lemma readable_list depth level l ts : Forall2 (readable depth) l ts -> l ≠ [] ->
  readable (S depth) (VList l) (item_lines c_lbracket c_rbracket level ts).
Proof.
  intros Hts Hne. split; [eexists c_lbracket, _; by split_and!|]. intros [|fuel] rest Hf Hr; [lia|].
  unfold item_lines in *. cbn [app scan]. rewrite !expect_ne, expect_eq by done. rewrite <- !app_assoc. cbn [app].
  destruct Hts as [|v t l ts Ht Hts]; [done|].
  destruct (joined_head (c_comma :: new_line (S level)) t ts (new_line level ++ c_rbracket :: rest) (proj1 Ht)) as (c & r & Heq & Hb & Hc & _).
  rewrite Heq, skip_blanks_app by (done || apply blanks_new_line). rewrite expect_ne by done. rewrite <- Heq.
  rewrite (read_elements depth (v :: l)); [done|apply blanks_new_line..|by constructor|done|]. lengths.
Qed.

Lemma readable_dict depth level d items : Forall2 (member_readable depth) d items -> d ≠ [] -> dict_wf d ->
  readable (S depth) (VDict d) (item_lines c_lbrace c_rbrace level items).
Proof using esc_read hook_distinct.
  intros Hts Hne Hwf. split; [eexists c_lbrace, _; by split_and!|]. intros [|fuel] rest Hf Hr; [lia|].
  unfold item_lines in *. cbn [app scan]. rewrite expect_ne, expect_eq by done. rewrite <- !app_assoc. cbn [app].
  destruct Hts as [|kv item d items Hitem Hts]; [done|].
  assert (exists (c : N) (r : pystr), str_join (c_comma :: new_line (S level)) (item :: items) ++ new_line level ++ c_rbrace :: rest = c :: r
    /\ blank c = false /\ c ≠ c_rbrace) as (c & r & Heq & Hb & Hc).
  { destruct Hitem as (_ & t & -> & _). exists c_quote. destruct items; eexists; by split_and!. }
  rewrite Heq, skip_blanks_app by (done || apply blanks_new_line). rewrite expect_ne by done. rewrite <- Heq.
  rewrite (read_members depth (kv :: d)); [|apply blanks_new_line..|by constructor|done|].
  - cbn [rbind fst snd]. rewrite hook_distinct by done. done.
  - lengths.
Qed.

Lemma readable_text0 depth v t : text 0 v = Ok t -> Plain v ->
  (forall fuel rest, ends_number rest -> scan hook (S fuel) depth (t ++ rest) = Ok (v, rest)) -> readable depth v t.
Proof. intros Ht Hv Hs. apply readable_scalar; [by eapply text_head|done]. Qed.

Lemma order_nil : order [] = [].
Proof using order_perm. apply Permutation_nil_r. by rewrite order_perm. Qed.

Lemma order_ne d : d ≠ [] -> order d ≠ [].
Proof using order_perm. intros Hd Ho. apply Hd. apply Permutation_nil_r. by rewrite <- Ho, order_perm. Qed.

Lemma readable_nil_list depth : readable (S depth) (VList []) §"[]".
Proof. apply readable_scalar; [eexists c_lbracket, _; by split_and!|]. intros fuel rest _. reflexivity. Qed.

Lemma readable_nil_dict depth : readable (S depth) (VDict []) §"{}".
Proof using hook_distinct.
  apply readable_scalar; [eexists c_lbrace, _; by split_and!|]. intros fuel rest _.
  change (scan hook (S fuel) (S depth) (§"{}" ++ rest)) with (v ← hook []; Ok (v, rest)). by rewrite hook_distinct by constructor.
Qed.

(** What was written is read back, members in the order they were written. *)
Lemma indented_readable depth : forall level v t depth', indented esc order depth level v = Ok t -> Written P v ->
  (depth < depth')%nat -> exists v', Arranged order v v' /\ readable depth' v' t.
Proof using esc_read hook_distinct order_perm.
  induction depth as [|depth IH]; intros level v t depth' Ht Hv Hd; (destruct depth' as [|depth']; [lia|]);
    destruct Hv as [|b|z|s Hs|l Hl|d Hwf Hl]; cbn [indented] in Ht.
  all: try (destruct l as [|v0 l]; [injection Ht as <-; eexists; split; [by do 2 constructor|apply readable_nil_list]|]; try discriminate Ht).
  all: try (destruct d as [|kv0 d]; [injection Ht as <-; eexists; split; [constructor; rewrite order_nil; constructor|apply readable_nil_dict]|]; try discriminate Ht).
  all: try (eexists; split; [by constructor|]; apply readable_text0; [exact Ht|by constructor|]; intros fuel rest Hr).
  all: try (injection Ht as <-; apply scan_literal; set_solver).
  all: try (destruct b; injection Ht as <-; apply scan_literal; set_solver).
  all: try (by apply scan_int_text).
  all: try (injection Ht as <-; eexists; split; [by constructor|by apply readable_str]).
  - apply bind_Ok in Ht as (ts & Hts & [= <-]). apply mapR_Ok in Hts.
    destruct (forall2_through _ _ (Arranged order) (readable depth') _ _ (fun v t Hv Ht => IH (S level) v t depth' Ht Hv ltac:(lia)) Hl Hts)
      as (l' & Hl' & Hr).
    exists (VList l'). split; [by constructor|]. apply readable_list; [done|]. by inversion Hl'.
  - apply bind_Ok in Ht as (ts & Hts & [= <-]). apply mapR_Ok in Hts. set (d0 := kv0 :: d) in *.
    assert (Forall (fun kv => P kv.1 /\ Written P kv.2) (order d0)) as Ho by (by rewrite order_perm).
    assert (dict_wf (order d0)) as Hwo by (unfold dict_wf, dkeys; by rewrite order_perm).
    assert (forall kv item, P kv.1 /\ Written P kv.2 ->
      (t ← indented esc order depth (S level) kv.2; Ok (quoted_by esc kv.1 ++ colon_space ++ t)) = Ok item ->
      exists kv' : pystr * pyval, (kv'.1 = kv.1 /\ Arranged order kv.2 kv'.2) /\ member_readable depth' kv' item) as Hmember.
    { intros kv item [Hk Hv] (t & Ht & [= <-])%bind_Ok. destruct (IH _ _ _ depth' Ht Hv) as (v' & Ha & Hr); [lia|].
      exists (kv.1, v'). split; [done|]. split; [done|]. by exists t. }
    destruct (forall2_through _ _ _ _ _ _ Hmember Ho Hts) as (d' & Hd' & Hr).
    exists (VDict d'). split; [by constructor|]. apply readable_dict; [done| |].
    + intros ->. inversion Hd' as [Hnil|]. by apply (order_ne d0).
    + assert (dkeys d' = dkeys (order d0)) as Hkeys; [|unfold dict_wf; by rewrite Hkeys].
      clear -Hd'. unfold dkeys. induction Hd' as [|kv kv' l l' [Hk _] _ IHd]; [done|]. cbn. by rewrite Hk, IHd.
Qed.

Lemma loads_indented v t : (encode_depth < decode_depth)%nat -> dumps_indented esc order v = Ok t -> Written P v ->
  exists v', Arranged order v v' /\ loads_with hook (t ++ [10]) = Ok v'.
Proof using esc_read hook_distinct order_perm.
  intros Hd Ht Hv. destruct (indented_readable _ _ _ _ _ Ht Hv Hd) as (v' & Ha & (c & t0 & Hc & Hb & _ & Hlt) & Hr).
  exists v'. split; [done|]. unfold loads_with.
  assert (expect byte_order_mark (t ++ [10]) = None) as ->.
  { rewrite Hc. apply expect_ne. unfold byte_order_mark. lia. }
  assert (skip_blanks (t ++ [10]) = t ++ [10]) as -> by (rewrite Hc; by apply skip_blanks_ne).
  rewrite Hr; [done|lia|]. split; [set_solver|done].
Qed.
End Reader.

(** Without sorting the value itself is read back. *)
Definition as_given : ordering := fun d => d.

Lemma arranged_as_given P v v' : Written P v -> Arranged as_given v v' -> v' = v.
Proof.
  revert v v'. fix IH 3. intros v v' Hv Ha. destruct Hv as [|b|z|s Hs|l Hl|d Hwf Hl]; inversion Ha as [| | | |l0 l' Hl'|d0 d' Hd']; subst; try done.
  - f_equal. revert l' Hl' Ha. induction Hl as [|v l Hv Hl IHl]; intros l' Hl' Ha; inversion Hl' as [|? v' ? l1 Hv' Hl1]; subst; [done|].
    f_equal; [by apply IH|]. apply IHl; [done|by constructor].
  - f_equal. unfold as_given in Hd'. clear Ha Hwf. revert d' Hd'.
    induction Hl as [|[k v] d [Hk Hv] Hl IHl]; intros d' Hd'; inversion Hd' as [|? [k' v'] ? d1 [Hk' Hv'] Hd1]; subst; [done|].
    cbn in *. subst k'. f_equal; [|by apply IHl]. f_equal. by apply IH.
Qed.

(* ------------------------------------------------------------------ *)
(** ** The two ways of escaping, and hooks *)

Lemma written_all v : Plain v -> Written (fun _ => True) v.
Proof.
  revert v. fix IH 2. intros v Hv. destruct Hv as [|b|z|s|l Hl|d Hwf Hl]; constructor; try done.
  - induction Hl as [|v l Hv Hl IHl]; constructor; [by apply IH|done].
  - clear Hwf. induction Hl as [|kv d Hv Hl IHl]; constructor; [split; [done|by apply IH]|done].
Qed.

Lemma unit_value_hex u : u < 65536 ->
  unit_value (hex_digit (u / 256 / 16)) (hex_digit (u / 256 mod 16)) (hex_digit (u mod 256 / 16)) (hex_digit (u mod 256 mod 16)) = Some u.
Proof.
  intros Hu. assert (u / 256 < 256) by (apply N.Div0.div_lt_upper_bound; lia). assert (u mod 256 < 256) by (by apply N.mod_lt).
  assert (forall x, x < 256 -> x / 16 < 16 /\ x mod 16 < 16 /\ x = 16 * (x / 16) + x mod 16) as Hx.
  { intros x Hx. split; [apply N.Div0.div_lt_upper_bound; lia|]. split; [by apply N.mod_lt|]. by apply N.div_mod. }
  destruct (Hx (u / 256)) as (? & ? & E1); [done|]. destruct (Hx (u mod 256)) as (? & ? & E2); [done|].
  unfold unit_value. rewrite !hex_value_digit by done. f_equal. pose proof (N.div_mod u 256 ltac:(done)). lia.
Qed.

Lemma scan_unit u s : u < 65536 -> high_surrogate u = false ->
  scan_string (escape_unit u ++ s) = (r ← scan_string s; Ok (u :: r.1, r.2)).
Proof.
  intros Hu Hs. unfold escape_unit, hex_byte. cbn [app scan_string].
  change (c_backslash =? c_quote) with false. change (c_backslash =? c_backslash) with true. cbn [N.eqb Pos.eqb].
  rewrite unit_value_hex by done. repeat (destruct s as [|? s]; [done|]). by rewrite Hs.
Qed.

Lemma scan_pair n s : n < 1048576 ->
  scan_string (escape_unit (55296 + n / 1024) ++ escape_unit (56320 + n mod 1024) ++ s) =
  (r ← scan_string s; Ok (65536 + n :: r.1, r.2)).
Proof.
  intros Hn. assert (n / 1024 < 1024) as Hq by (apply N.Div0.div_lt_upper_bound; lia).
  assert (n mod 1024 < 1024) as Hr by (by apply N.mod_lt). pose proof (N.div_mod n 1024 ltac:(done)) as Hdiv.
  revert Hq Hr Hdiv. generalize (n / 1024) (n mod 1024). intros q m Hq Hm Hdiv.
  unfold escape_unit, hex_byte. cbn [app scan_string].
  change (c_backslash =? c_quote) with false. change (c_backslash =? c_backslash) with true. cbn [N.eqb Pos.eqb].
  rewrite !unit_value_hex by lia.
  assert (high_surrogate (55296 + q) = true) as -> by (unfold high_surrogate; apply andb_true_iff; rewrite !N.leb_le; lia).
  assert (low_surrogate (56320 + m) = true) as -> by (unfold low_surrogate; apply andb_true_iff; rewrite !N.leb_le; lia).
  cbn [andb]. assert (65536 + (55296 + q - 55296) * 1024 + (56320 + m - 56320) = 65536 + n) as ->; [lia|done].
Qed.

Lemma scan_ascii c s : is_scalar c = true ->
  scan_string (ascii_escape c ++ s) = (r ← scan_string s; Ok (c :: r.1, r.2)).
Proof.
  intros Hc. unfold ascii_escape. destruct (dget short_escapes c) as [e|] eqn:He.
  { pose proof (scan_escape c s) as Hs. unfold escape_char in Hs. by rewrite He in Hs. }
  destruct (N.leb_spec 32 c), (N.leb_spec c 126); cbn [andb].
  { pose proof (scan_escape c s) as Hs. unfold escape_char in Hs. rewrite He in Hs. by rewrite (proj2 (N.ltb_ge c 32)) in Hs. }
  all: unfold is_scalar in Hc; rewrite orb_true_iff, andb_true_iff, N.leb_le, !N.ltb_lt in Hc.
  all: destruct (N.ltb_spec c 65536); try lia.
  all: try (apply scan_unit; [done|]; unfold high_surrogate; apply andb_false_iff; rewrite !N.leb_gt; lia).
  rewrite <- app_assoc, scan_pair by lia. by replace (65536 + (c - 65536)) with c by lia.
Qed.

Definition scalars (s : pystr) : Prop := forallb is_scalar s = true.

Lemma read_ascii s rest : scalars s -> scan_string ((s ≫= ascii_escape) ++ c_quote :: rest) = Ok (s, rest).
Proof.
  unfold scalars. induction s as [|c s IH]; [done|]. cbn [forallb]. intros [Hc Hs]%andb_true_iff.
  change ((c :: s) ≫= ascii_escape) with (ascii_escape c ++ (s ≫= ascii_escape)).
  rewrite <- app_assoc, scan_ascii, IH by done. done.
Qed.

Lemma plain_object_distinct d : dict_wf d -> plain_object d = Ok (VDict d).
Proof. intros Hd. unfold plain_object. by rewrite dict_of_NoDup. Qed.

(** The loop of the hooks that refuse duplicates. *)
Lemma distinct_members {A} (error : pystr -> exn) (d : dict pystr A) : dict_wf d ->
  foldR (fun result kv => raise_if (dhas result kv.1) (error kv.1);; Ok (dset result kv.1 kv.2)) [] d = Ok d.
Proof.
  intros Hd. enough (forall l acc, dict_wf (acc ++ l) ->
    foldR (fun result kv => raise_if (dhas result kv.1) (error kv.1);; Ok (dset result kv.1 kv.2)) acc l = Ok (acc ++ l)) as Hall
    by (by apply (Hall d [])).
  induction l as [|[k v] l IH]; intros acc Hwf; cbn [foldR]; [by rewrite app_nil_r|].
  assert (k ∉ dkeys acc) as Hk.
  { unfold dict_wf, dkeys in *. rewrite fmap_app in Hwf. apply NoDup_app in Hwf as (_ & Hwf & _). intros Hin. apply (Hwf _ Hin). by left. }
  cbn [fst snd]. assert (dhas acc k = false) as -> by (by apply dhas_false, dget_None). cbn [raise_if rbind].
  rewrite dset_fresh by done. rewrite IH; [by rewrite <- app_assoc|by rewrite <- app_assoc].
Qed.
End JsonText.
