(* ===== verification/Protocol.v ===== *)
(** * Packets ([msys_core/protocol.py])

    A packet is a JSON object with a string [type], in UTF-8, of at most 256 KiB;
    and what the reader of a component's channel makes of what it receives. *)

From Stdlib Require Import ZArith Floats.SpecFloat.
From S2P Require Export Json.

Module Protocol.
Import Json.

Definition MAX_PACKET : N := 256 * 1024.

Definition protocol_error (m : pystr) : exn := Exn ProtocolError m.
Definition too_large : exn := protocol_error §"mIPC packet is too large".

Definition size (data : list N) : N := N.of_nat (length data).

(** A socket: [sendall], and [recv], which yields nothing when it would block. *)
Class Socket := {
  sendall : list N -> py unit;
  recv : N -> py (option (list N));
}.

Section Protocol.
Context `{JsonLib}.

Definition encode (message : dict pystr pyval) : py (list N) :=
  t ← dumps (VDict message);
  data ← ok_or (utf8_encode t) (Exn UnicodeEncodeError §"surrogates not allowed");
  if MAX_PACKET <? size data then Raise too_large else Ok data.

(** [json.loads(data.decode("utf-8"))] *)
Definition parse_packet (data : list N) : py pyval :=
  t ← ok_or (utf8_decode data) (Exn UnicodeDecodeError []); loads t.

Definition is_syntax (c : exn_class) : bool := bool_decide (c = UnicodeDecodeError \/ c = JSONDecodeError).

Definition decode (data : list N) : py (dict pystr pyval) :=
  if MAX_PACKET <? size data then Raise too_large
  else match parse_packet data with
       | Raise e =>
           if is_syntax (exn_type e) then Raise (protocol_error (§"invalid mIPC packet: " ++ exn_msg e)) else Raise e
       | Ok (VDict value) =>
           match dget value §"type" with
           | Some (VStr _) => Ok value
           | _ => Raise (protocol_error §"mIPC packet requires string type")
           end
       | Ok _ => Raise (protocol_error §"mIPC packet must be an object")
       end.

Definition send_packet `{Socket} (message : dict pystr pyval) : py unit :=
  data ← encode message; sendall data.

Definition recv_packet `{Socket} : py (option (dict pystr pyval)) :=
  data ← recv (MAX_PACKET + 1);
  match data with
  | None => Ok None
  | Some [] => Ok (Some [(§"type", VStr §"eof")])
  | Some data => m ← decode data; Ok (Some m)
  end.

(** One turn of the loop of [_read_component]: a message to handle, the end of
    the loop with [channel_failed], or an exception that ends the task. *)
Inductive turn :=
| Message (m : dict pystr pyval)
| ChannelFailed
| ReaderRaises (e : exn).

Definition read_turn (received : py (list N)) : turn :=
  match received with
  | Raise e =>
      if is_os_error (exn_type e) || bool_decide (exn_type e = ProtocolError) then ChannelFailed else ReaderRaises e
  | Ok [] => ChannelFailed
  | Ok data =>
      match decode data with
      | Ok m => Message m
      | Raise e => if bool_decide (exn_type e = ProtocolError) then ChannelFailed else ReaderRaises e
      end
  end.
End Protocol.

(* ------------------------------------------------------------------ *)
(** ** Round trip *)

Section Theorems.
Context `{JsonLib}.

Definition has_type (m : dict pystr pyval) : Prop := exists t, dget m §"type" = Some (VStr t).

Lemma encode_Ok m data : encode m = Ok data ->
  exists txt, dumps (VDict m) = Ok txt /\ utf8_encode txt = Some data /\ (size data <= MAX_PACKET)%N.
Proof.
  unfold encode. intros (txt & Ht & He)%bind_Ok. apply bind_Ok in He as (bytes & Hb%ok_or_Ok & He).
  destruct (N.ltb_spec MAX_PACKET (size bytes)); [done|]. injection He as <-. by exists txt.
Qed.

Lemma decode_encode m data : (encode_depth <= decode_depth)%nat -> Plain (VDict m) -> has_type m ->
  encode m = Ok data -> decode data = Ok m.
Proof.
  intros Hd Hp [t Ht] (txt & Htxt & Hb & Hle)%encode_Ok.
  unfold decode, parse_packet. rewrite (proj2 (N.ltb_ge _ _) Hle), (utf8_decode_encode _ _ Hb). cbn [ok_or rbind].
  rewrite <- (app_nil_r txt), (loads_dumps (VDict m) txt []) by (done || constructor). by rewrite Ht.
Qed.

(** C35: a message that the encoder accepts is at most 256 KiB on the wire.  The
    peer decodes exactly that message, members in order, when it has a string
    type, without which the decoder refuses it, holds no float (how Python
    prints and reads floats is not modelled), its objects have distinct members,
    as those of Python do, and the decoder may nest as deep as the encoder. *)
Theorem packet_roundtrip m data : encode m = Ok data ->
  (size data <= MAX_PACKET)%N /\
  ((encode_depth <= decode_depth)%nat -> Plain (VDict m) -> has_type m -> decode data = Ok m).
Proof.
  intros He. split; [by destruct (encode_Ok m data He) as (txt & _ & _ & Hle)|]. intros Hd Hp Ht. by apply decode_encode.
Qed.

(** What is accepted is a bounded object with a string type. *)
Lemma decode_sound data m : decode data = Ok m -> (size data <= MAX_PACKET)%N /\ has_type m.
Proof.
  unfold decode. destruct (N.ltb_spec MAX_PACKET (size data)) as [|Hle]; [done|].
  destruct (parse_packet data) as [v|e]; [|destruct (is_syntax _); done]. destruct v; try done.
  unfold has_type. destruct (dget d _) as [[]|] eqn:Hd; try done. intros [= <-]. split; [done|by eexists].
Qed.

(* ------------------------------------------------------------------ *)
(** ** What the decoder raises *)

Definition json_failure (e : exn) : Prop := e = syntax_error \/ e = recursion_error \/ e = digits_error.

Definition fails_well {A} (r : py A) : Prop := forall e, r = Raise e -> json_failure e.

Lemma fails_syntax {A} : @fails_well A (Raise syntax_error).
Proof. intros e [= <-]. by left. Qed.
Lemma fails_recursion {A} : @fails_well A (Raise recursion_error).
Proof. intros e [= <-]. right. by left. Qed.
Lemma fails_ok {A} (a : A) : fails_well (Ok a).
Proof. done. Qed.
Lemma fails_bind {A B} (r : py A) (f : A -> py B) : fails_well r -> (forall a, fails_well (f a)) -> fails_well (rbind r f).
Proof. intros Hr Hf e. destruct r as [a|e']; cbn; [apply Hf|intros [= <-]; by apply Hr]. Qed.

Lemma fails_plain pairs : fails_well (plain_object pairs).
Proof. done. Qed.

#[local] Create HintDb fails.
#[local] Hint Resolve fails_plain fails_syntax fails_recursion fails_ok fails_bind : fails.

Lemma fails_string n s : (length s <= n)%nat -> fails_well (scan_string s).
Proof.
  revert s; induction n as [|n IH]; intros s Hn; [destruct s; [auto with fails|cbn in Hn; lia]|].
  destruct s as [|c s]; [auto with fails|]. cbn [length] in Hn. cbn [scan_string].
  destruct (c =? c_quote)%N; [auto with fails|]. destruct (c =? c_backslash)%N.
  - destruct s as [|e s]; [auto with fails|]. cbn [length] in Hn. destruct (e =? 117)%N.
    + destruct s as [|h1 [|h2 [|h3 [|h4 s]]]]; auto with fails. cbn [length] in Hn.
      destruct (unit_value h1 h2 h3 h4); [|auto with fails].
      destruct s as [|b [|u' [|l1 [|l2 [|l3 [|l4 s]]]]]]; try (apply fails_bind; [apply IH; cbn in *; lia|auto with fails]).
      cbn [length] in Hn. destruct (_ && _ && _); [|apply fails_bind; [apply IH; cbn in *; lia|auto with fails]].
      destruct (unit_value l1 l2 l3 l4) as [w|]; [|auto with fails].
      destruct (low_surrogate w); (apply fails_bind; [apply IH; cbn in *; lia|auto with fails]).
    + destruct (unescape e); [|auto with fails]. apply fails_bind; [apply IH; lia|auto with fails].
  - destruct (c <? 32)%N; [auto with fails|]. apply fails_bind; [apply IH; lia|auto with fails].
Qed.

Lemma fails_atom s : fails_well (scan_atom s).
Proof.
  unfold scan_atom. destruct (find_first _ _) as [[l v]|]; [auto with fails|]. unfold scan_number.
  destruct (expect c_minus s); (destruct (int_part _) as [[digits s']|]; [|auto with fails];
    destruct (optional_part fraction s') as [frac s2], (optional_part exponent s2) as [expo s3];
    apply fails_bind; [|auto with fails]; unfold number_value; destruct (str_true _); [auto with fails|];
    case_bool_decide; [auto with fails|]; intros e [= <-]; right; by right).
Qed.

Lemma fails_scan fuel : forall depth s,
  fails_well (scan plain_object fuel depth s) /\ fails_well (scan_members plain_object fuel depth s)
  /\ fails_well (scan_elements plain_object fuel depth s).
Proof.
  induction fuel as [|fuel IH]; intros depth s; [auto with fails|]. cbn [scan scan_members scan_elements]. split_and!.
  - destruct (expect c_quote s) as [q|]; [eauto using fails_string with fails|].
    destruct (expect c_lbrace s) as [q|]; [|destruct (expect c_lbracket s) as [q|]].
    + destruct depth as [|depth]; [auto with fails|]. destruct (expect c_rbrace _); [auto with fails|].
      apply fails_bind; [apply IH|]. intros [m r]. apply fails_bind; auto with fails.
    + destruct depth as [|depth]; [auto with fails|]. destruct (expect c_rbracket _); [auto with fails|].
      apply fails_bind; [apply IH|auto with fails].
    + destruct depth; apply fails_atom.
  - destruct (expect c_quote s) as [q|]; [|auto with fails]. apply fails_bind; [by eapply fails_string|]. intros [k r].
    destruct (expect c_colon _) as [q'|]; [|auto with fails]. apply fails_bind; [apply IH|]. intros [v r'].
    destruct (expect c_rbrace _); [auto with fails|]. destruct (expect c_comma _); [|auto with fails].
    apply fails_bind; [apply IH|auto with fails].
  - apply fails_bind; [apply IH|]. intros [v r'].
    destruct (expect c_rbracket _); [auto with fails|]. destruct (expect c_comma _); [|auto with fails].
    apply fails_bind; [apply IH|auto with fails].
Qed.

Lemma fails_loads s : fails_well (loads s).
Proof.
  unfold loads, loads_with. destruct (expect byte_order_mark s); [auto with fails|]. apply fails_bind; [apply fails_scan|].
  intros [v r]. destruct (str_true _); auto with fails.
Qed.

(** The reader of a channel either handles a decoded message, declares the
    channel failed, or dies: of what [sock_recv] raised, or of a packet that
    nests too deeply or writes an integer with too many digits. *)
Lemma read_turn_cases received :
  match read_turn received with
  | Message m => has_type m
  | ChannelFailed => True
  | ReaderRaises e => received = Raise e \/ e = recursion_error \/ e = digits_error
  end.
Proof.
  unfold read_turn. destruct received as [[|b data]|e]; [done| |].
  - destruct (decode (b :: data)) as [m|e] eqn:Hd; [by apply decode_sound in Hd as [_ ?]|].
    case_bool_decide as He; [done|]. right. unfold decode in Hd. destruct (_ <? _)%N; [by injection Hd as <-|].
    unfold parse_packet in Hd. destruct (utf8_decode _) as [t|]; cbn [ok_or rbind] in Hd; [|by injection Hd as <-].
    destruct (loads t) as [v|e'] eqn:Hl.
    + destruct v; try (by injection Hd as <-). destruct (dget d _) as [[]|]; (done || by injection Hd as <-).
    + destruct (fails_loads t e' Hl) as [-> |[-> | ->]]; cbn in Hd; injection Hd as <-; [done|by left|by right].
  - destruct (_ || _); [done|]. by left.
Qed.

(** A packet of five kilobytes ends the reader of a channel without declaring
    the channel failed: the decoder of an integer of more than 4300 digits raises
    [ValueError], which is neither [JSONDecodeError] nor [ProtocolError], so
    neither [decode] nor the loop of the reader turns it into a failure of the
    channel. *)
Theorem long_integer_ends_reader : (0 < decode_depth)%nat ->
  exists data, (size data < 5000)%N /\ read_turn (Ok data) = ReaderRaises digits_error.
Proof.
  intros Hd. destruct decode_depth as [|depth] eqn:Hdepth; [lia|].
  set (digits := replicate 4301 49%N : pystr).
  set (txt := (§"{" ++ [34%N] ++ §"type" ++ [34%N] ++ §":" ++ digits ++ §"}" : pystr)).
  exists txt. split; [unfold size; vm_compute; reflexivity|].
  assert (utf8_decode txt = Some txt) as Hu by (apply utf8_decode_encode; vm_compute; reflexivity).
  assert (MAX_PACKET <? size txt = false)%N as Hs by (vm_compute; reflexivity).
  assert (loads txt = Raise digits_error) as Hl.
  { unfold loads, loads_with. rewrite Hdepth. vm_compute. reflexivity. }
  unfold read_turn. change (Ok txt) with (Ok (123%N :: tail txt) : py (list N)). cbv iota beta.
  change (123%N :: tail txt) with txt. unfold decode, parse_packet. rewrite Hs, Hu. cbn [ok_or rbind]. rewrite Hl. reflexivity.
Qed.
End Theorems.

(* ------------------------------------------------------------------ *)
(** ** Witnesses *)

Definition sample_json : JsonLib :=
  {| float_repr _ := §"0.5"; float_of _ := S754_zero false; encode_depth := 900; decode_depth := 1000 |}.

Definition sample_message : dict pystr pyval :=
  [(§"type", VStr §"event"); (§"id", VInt (-12)); (§"text", VStr ([34; 92; 10; 7]%N ++ [8364; 128512]%N));
   (§"payload", VDict [(§"items", VList [VNone; VBool true; VList []; VDict []])])].

Lemma packet_roundtrip_witness : exists data,
  @encode sample_json sample_message = Ok data /\ length data = 92%nat /\ @decode sample_json data = Ok sample_message.
Proof.
  destruct (@encode sample_json sample_message) as [data|e] eqn:He; [|vm_compute in He; discriminate He].
  exists data. split; [reflexivity|]. split.
  - vm_compute in He. injection He as <-. reflexivity.
  - refine (proj2 (@packet_roundtrip sample_json sample_message data He) _ _ _).
    + cbn. lia.
    + repeat (constructor || (apply (bool_decide_unpack _); vm_compute; exact I)).
    + by exists §"event".
Defined.

Lemma long_integer_ends_reader_witness :
  exists data, (size data < 5000)%N /\ @read_turn sample_json (Ok data) = ReaderRaises digits_error.
Proof. apply (@long_integer_ends_reader sample_json). cbn. lia. Defined.
End Protocol.
