(* ===== verification/Acl.v ===== *)
(** * Authorization of component messages ([msys_core/mipc_acl.py])

    A supervised component may call a target or publish and subscribe to a
    topic only when its manifest lists a permission for it.  The grant language
    is exact names, [prefix*] and [*]. *)

From S2P Require Export PyValue.

Module Acl.

(* ------------------------------------------------------------------ *)
(** ** Topics and subscription patterns *)

Definition MAX_TOPIC_LENGTH : nat := 128.

Definition star : N := 42.

(** The characters of a topic: ASCII letters, digits and [._:-]. *)
Definition topic_char `{PyLib} (character : N) : bool :=
  isascii_c character && (isalnum_c character || str_has character §"._:-").

Definition bounded_length (s : pystr) : bool :=
  bool_decide (1 <= length s <= MAX_TOPIC_LENGTH)%nat.

Section Acl.
Context `{PyLib}.

Definition valid_event_topic (topic : pyval) : bool :=
  match topic with
  | VStr s =>
      bounded_length s
      && match s with
         | c :: _ => isalnum_c c && isascii_c c
         | [] => false
         end
      && forallb topic_char s
  | _ => false
  end.

(** [pattern[:-1]] *)
Definition drop_last (s : pystr) : pystr := take (length s - 1) s.

Definition valid_subscription (pattern : pyval) : bool :=
  eq_str pattern [star] ||
  match pattern with
  | VStr s =>
      bounded_length s
      && (if str_endswith [star] s
          then str_true (drop_last s) && valid_event_topic (VStr (drop_last s))
          else valid_event_topic (VStr s))
  | _ => false
  end.

Definition subscription_matches (pattern topic : pystr) : bool :=
  if bool_decide (pattern = [star]) then true
  else if str_endswith [star] pattern then str_startswith (drop_last pattern) topic
  else bool_decide (pattern = topic).

Definition subscription_covers (grant requested : pystr) : bool :=
  if negb (valid_subscription (VStr grant)) || negb (valid_subscription (VStr requested))
  then false
  else if bool_decide (grant = [star]) then true
  else if negb (str_endswith [star] grant) then bool_decide (grant = requested)
  else
    let grant_prefix := drop_last grant in
    let requested_prefix :=
      if str_endswith [star] requested then drop_last requested else requested in
    str_startswith grant_prefix requested_prefix.

(** ** Permissions *)

(** [frozenset(item for item in permissions if isinstance(item, str))] *)
Definition permission_set (permissions : list pyval) : list pystr := omap as_str permissions.

Definition call_permission_candidates (target method : pystr) : list pystr :=
  let resources := (if str_true method then [target ++ §"." ++ method] else []) ++ [target] in
  let resources :=
    if str_startswith §"interface:" target then
      match str_after 58 target with
      | Some interface =>
          if str_true interface then
            resources ++ (if str_true method then [interface ++ §"." ++ method] else [])
              ++ [interface]
          else resources
      | None => resources
      end
    else resources in
  (fun resource => §"mipc.call:" ++ resource) <$> fromkeys resources.

Definition allows_call (permissions : list pyval) (target method : pystr) : bool :=
  let declared := permission_set permissions in
  if bool_decide (§"mipc.call:*" ∈ declared) then true
  else existsb (fun permission => bool_decide (permission ∈ declared))
         (call_permission_candidates target method).

Definition event_permission (action pattern : pystr) : pystr :=
  §"mipc.event:" ++ action ++ §":" ++ pattern.

Definition allows_event (permissions : list pyval) (action : pystr) (requested : pystr) : bool :=
  if negb (bool_decide (action = §"publish" \/ action = §"subscribe")) then false
  else if bool_decide (action = §"publish") && negb (valid_event_topic (VStr requested)) then false
  else if bool_decide (action = §"subscribe") && negb (valid_subscription (VStr requested)) then false
  else
    let prefix := §"mipc.event:" ++ action ++ §":" in
    existsb (fun permission =>
      if negb (str_startswith prefix permission) then false
      else
        let grant := drop (length prefix) permission in
        subscription_covers grant requested)
      (permission_set permissions).

(* ---------------------------------------------------------------- *)
(** ** Lemmas on patterns *)

Lemma drop_last_snoc s c : drop_last (s ++ [c]) = s.
Proof.
  unfold drop_last. rewrite length_app. simpl.
  replace (length s + 1 - 1)%nat with (length s) by lia. by rewrite take_app_length.
Qed.

Lemma endswith_star s : str_endswith [star] s = true <-> exists p, s = p ++ [star].
Proof. apply str_endswith_spec. Qed.

Lemma topic_char_not_star : topic_char star = false.
Proof. done. Qed.

Lemma valid_topic_no_star s : valid_event_topic (VStr s) = true -> star ∉ s.
Proof.
  simpl. rewrite !andb_true_iff, forallb_elem. intros [_ Hall] Hin.
  specialize (Hall _ Hin). by rewrite topic_char_not_star in Hall.
Qed.

Lemma valid_topic_not_wild s : valid_event_topic (VStr s) = true -> str_endswith [star] s = false.
Proof.
  intros Hv%valid_topic_no_star. apply not_true_iff_false. rewrite endswith_star.
  intros [p ->]. apply Hv. set_solver.
Qed.

(** A topic stays valid when an allowed character is appended within the bound. *)
Lemma valid_topic_snoc s c :
  valid_event_topic (VStr s) = true -> (length s < MAX_TOPIC_LENGTH)%nat ->
  topic_char c = true -> valid_event_topic (VStr (s ++ [c])) = true.
Proof.
  simpl. rewrite !andb_true_iff, forallb_app. unfold bounded_length.
  rewrite !bool_decide_eq_true, length_app. simpl.
  intros [[Hb Hh] Hall] Hlt Hc. rewrite Hall, Hc.
  split; [|done]. split; [lia|]. by destruct s.
Qed.

(** The shapes of a valid pattern. *)
Lemma valid_subscription_cases p :
  valid_subscription (VStr p) = true ->
  p = [star] \/
  (exists q, p = q ++ [star] /\ valid_event_topic (VStr q) = true /\
             (length q < MAX_TOPIC_LENGTH)%nat) \/
  valid_event_topic (VStr p) = true.
Proof.
  unfold valid_subscription. rewrite orb_true_iff, eq_str_true.
  intros [[= ->]|Hp]; [auto|right].
  apply andb_true_iff in Hp as [Hb Hp]. unfold bounded_length in Hb. bool_simp.
  destruct (str_endswith [star] p) eqn:He; [left|by right].
  apply endswith_star in He as [q ->]. rewrite drop_last_snoc in Hp.
  bool_simp. exists q. rewrite length_app in Hb. simpl in Hb. split_and!; [done|done|lia].
Qed.

Lemma matches_wild q t : q ≠ [] ->
  subscription_matches (q ++ [star]) t = str_startswith q t.
Proof.
  intros Hq. unfold subscription_matches. rewrite bool_decide_eq_false_2.
  - rewrite (proj2 (endswith_star _)) by eauto. by rewrite drop_last_snoc.
  - intros Heq. by apply (app_inj_2 q []) in Heq as [? _].
Qed.

Lemma matches_exact p t : valid_event_topic (VStr p) = true ->
  subscription_matches p t = bool_decide (p = t).
Proof.
  intros Hv. unfold subscription_matches.
  rewrite (valid_topic_not_wild p Hv), bool_decide_eq_false_2; [done|].
  intros ->. by apply valid_topic_no_star in Hv; set_solver.
Qed.

Lemma valid_topic_ne q : valid_event_topic (VStr q) = true -> q ≠ [].
Proof. by destruct q. Qed.

Lemma valid_subscription_star : valid_subscription (VStr [star]) = true.
Proof. done. Qed.

Lemma valid_exact p : valid_event_topic (VStr p) = true -> valid_subscription (VStr p) = true.
Proof.
  intros Hv. unfold valid_subscription. rewrite (valid_topic_not_wild p Hv).
  apply orb_true_iff. right. rewrite Hv. simpl in Hv. bool_simp. by rewrite andb_true_r.
Qed.

Definition topic_a : pystr := §"a".
Definition topic_b : pystr := §"b".

(** Some topic escapes any nonempty prefix, and any exact name. *)
Lemma escape_prefix q : q ≠ [] ->
  exists t, valid_event_topic (VStr t) = true /\ str_startswith q t = false.
Proof.
  destruct q as [|c q]; [done|intros _].
  destruct (decide (c = 97)) as [->|Hc]; [by exists topic_b|]. exists topic_a.
  split; [done|]. change topic_a with [97]. simpl. by destruct (N.eqb_spec c 97).
Qed.

Lemma escape_exact g : exists t, valid_event_topic (VStr t) = true /\ t ≠ g.
Proof.
  destruct (decide (g = topic_a)) as [->|]; [by exists topic_b|by exists topic_a].
Qed.

(** The comparison once both patterns are known to be well formed. *)
Lemma covers_valid g r :
  valid_subscription (VStr g) = true -> valid_subscription (VStr r) = true ->
  subscription_covers g r =
    if bool_decide (g = [star]) then true
    else if negb (str_endswith [star] g) then bool_decide (g = r)
    else str_startswith (drop_last g) (if str_endswith [star] r then drop_last r else r).
Proof. intros Hg Hr. unfold subscription_covers. by rewrite Hg, Hr. Qed.

Lemma covers_exact g r :
  valid_event_topic (VStr g) = true -> valid_subscription (VStr r) = true ->
  subscription_covers g r = bool_decide (g = r).
Proof.
  intros Hg Hr. rewrite covers_valid by auto using valid_exact.
  rewrite (valid_topic_not_wild g Hg). rewrite bool_decide_eq_false_2; [done|].
  intros ->. by apply valid_topic_no_star in Hg; set_solver.
Qed.

Lemma covers_wild q r :
  valid_subscription (VStr (q ++ [star])) = true -> q ≠ [] -> valid_subscription (VStr r) = true ->
  subscription_covers (q ++ [star]) r =
    str_startswith q (if str_endswith [star] r then drop_last r else r).
Proof.
  intros Hg Hq Hr. rewrite covers_valid by done.
  rewrite (proj2 (endswith_star (q ++ [star]))) by eauto. rewrite drop_last_snoc.
  rewrite bool_decide_eq_false_2; [done|].
  intros Heq. by apply (app_inj_2 q []) in Heq as [? _].
Qed.

Lemma snoc_wild q : str_endswith [star] (q ++ [star]) = true.
Proof. apply endswith_star. eauto. Qed.

(** Soundness: a covering grant admits every topic of the request. *)
Lemma covers_sound g r t :
  subscription_covers g r = true -> valid_event_topic (VStr t) = true ->
  subscription_matches r t = true -> subscription_matches g t = true.
Proof.
  intros Hc Ht Hr.
  destruct (valid_subscription (VStr g)) eqn:Hg;
    [|unfold subscription_covers in Hc; by rewrite Hg in Hc].
  destruct (valid_subscription (VStr r)) eqn:Hvr;
    [|unfold subscription_covers in Hc; by rewrite Hg, Hvr in Hc].
  apply valid_subscription_cases in Hg as Hcases.
  destruct Hcases as [->|[(q & -> & Hq & Hl)|Hge]]; [done| |].
  - apply valid_topic_ne in Hq. rewrite covers_wild in Hc by done.
    rewrite matches_wild by done.
    apply valid_subscription_cases in Hvr as [->|[(p & -> & Hp & _)|Hre]].
    + change (drop_last [star]) with (@nil N) in Hc. by destruct q.
    + rewrite snoc_wild, drop_last_snoc in Hc.
      rewrite matches_wild in Hr by (by apply valid_topic_ne).
      by eapply str_startswith_trans.
    + rewrite matches_exact in Hr by done. bool_simp. subst.
      by rewrite (valid_topic_not_wild t Hre) in Hc.
  - rewrite covers_exact in Hc by done. bool_simp. by subst.
Qed.

(** Completeness: a grant that admits every topic of the request covers it. *)
Lemma covers_complete g r :
  valid_subscription (VStr g) = true -> valid_subscription (VStr r) = true ->
  (forall t, valid_event_topic (VStr t) = true ->
     subscription_matches r t = true -> subscription_matches g t = true) ->
  subscription_covers g r = true.
Proof.
  intros Hg Hvr Hall.
  apply valid_subscription_cases in Hg as Hcases.
  destruct Hcases as [->|[(q & -> & Hq & Hl)|Hge]]; [by rewrite covers_valid| |].
  - apply valid_topic_ne in Hq. rewrite covers_wild by done.
    setoid_rewrite matches_wild in Hall; [|done].
    apply valid_subscription_cases in Hvr as [->|[(p & -> & Hp & _)|Hre]].
    + destruct (escape_prefix q Hq) as (t & Ht & He). by rewrite Hall in He.
    + rewrite snoc_wild, drop_last_snoc. apply Hall; [done|].
      rewrite matches_wild by (by apply valid_topic_ne). rewrite <- (app_nil_r p) at 2.
      apply str_startswith_app.
    + rewrite (valid_topic_not_wild r Hre). apply Hall; [done|].
      rewrite matches_exact by done. by apply bool_decide_eq_true.
  - setoid_rewrite (matches_exact g) in Hall; [|done].
    rewrite covers_exact by done.
    apply valid_subscription_cases in Hvr as [->|[(p & -> & Hp & Hl)|Hre]].
    + destruct (escape_exact g) as (t & Ht & Hne). specialize (Hall t Ht eq_refl).
      by apply bool_decide_eq_true in Hall.
    + exfalso. setoid_rewrite matches_wild in Hall; [|by apply valid_topic_ne].
      assert (forall u, str_startswith p (p ++ u) = true) as Hpre by (apply str_startswith_app).
      assert (str_startswith p p = true) as Hpp by (rewrite <- (app_nil_r p) at 2; done).
      pose proof (Hall p Hp Hpp) as H1. pose proof (Hall (p ++ [97])) as H2.
      rewrite valid_topic_snoc in H2 by done. specialize (H2 eq_refl (Hpre _)). bool_simp.
      apply (f_equal length) in H2. rewrite H1, length_app in H2. simpl in H2. lia.
    + apply Hall; [done|]. rewrite matches_exact by done. by apply bool_decide_eq_true.
Qed.

(** Membership in the declared permissions, for calls. *)
Lemma allows_call_iff permissions target method :
  allows_call permissions target method = true <->
  §"mipc.call:*" ∈ permission_set permissions \/
  exists p, p ∈ call_permission_candidates target method /\ p ∈ permission_set permissions.
Proof.
  unfold allows_call. case_bool_decide as Hs; [naive_solver|].
  rewrite existsb_elem. setoid_rewrite bool_decide_eq_true. naive_solver.
Qed.

(** A permission for an event topic that the list declares. *)
Lemma allows_event_iff permissions action requested :
  allows_event permissions action requested = true <->
  (action = §"publish" /\ valid_event_topic (VStr requested) = true \/
   action = §"subscribe" /\ valid_subscription (VStr requested) = true) /\
  exists grant, event_permission action grant ∈ permission_set permissions /\
                subscription_covers grant requested = true.
Proof.
  assert (forall l, existsb (fun permission =>
      if negb (str_startswith (§"mipc.event:" ++ action ++ §":") permission) then false
      else subscription_covers
             (drop (length (§"mipc.event:" ++ action ++ §":")) permission) requested) l = true
    <-> exists grant, event_permission action grant ∈ l /\
                      subscription_covers grant requested = true) as Hex.
  { intros l. rewrite existsb_elem. unfold event_permission. split.
    - intros (p & Hp & Hm). destruct (str_startswith _ p) eqn:Hst; [cbn [negb] in Hm|done].
      apply str_startswith_spec in Hst as [g ->]. rewrite drop_app_length in Hm.
      exists g. by rewrite <- !app_assoc in Hp.
    - intros (g & Hp & Hm). exists ((§"mipc.event:" ++ action ++ §":") ++ g).
      rewrite <- !app_assoc. split; [done|]. rewrite !app_assoc, <- app_assoc.
      rewrite str_startswith_app, drop_app_length. done. }
  unfold allows_event. rewrite <- Hex. clear Hex.
  assert (§"publish" ≠ §"subscribe") as Hps by done.
  destruct (decide (action = §"publish")) as [->|Hp]; [|destruct (decide (action = §"subscribe")) as [->|Hs]].
  - rewrite (bool_decide_eq_true_2 (_ \/ _)) by auto. rewrite bool_decide_eq_true_2 by done.
    rewrite bool_decide_eq_false_2 by done.
    destruct (valid_event_topic (VStr requested)); cbn [negb andb]; split; try tauto; intuition congruence.
  - rewrite (bool_decide_eq_true_2 (_ \/ _)) by auto. rewrite bool_decide_eq_false_2 by done.
    rewrite bool_decide_eq_true_2 by done.
    destruct (valid_subscription (VStr requested)); cbn [negb andb]; split; try tauto; intuition congruence.
  - rewrite bool_decide_eq_false_2 by tauto. cbn [negb]. split; intuition congruence.
Qed.

(** The candidates, without the deduplication. *)
Lemma call_candidates_elem target method p :
  p ∈ call_permission_candidates target method <->
  p = §"mipc.call:" ++ target \/
  (method ≠ [] /\ p = §"mipc.call:" ++ target ++ §"." ++ method) \/
  exists i, target = §"interface:" ++ i /\ i ≠ [] /\
    (p = §"mipc.call:" ++ i \/ (method ≠ [] /\ p = §"mipc.call:" ++ i ++ §"." ++ method)).
Proof.
  assert (forall s, str_true s = true <-> s ≠ []) as Htrue by (intros []; simpl; split; done).
  assert (forall r x, x ∈ (if str_true method then [r ++ §"." ++ method] else []) ++ [r] <->
            x = r \/ (method ≠ [] /\ x = r ++ §"." ++ method)) as Hres.
  { intros r x. destruct (str_true method) eqn:Hm.
    - apply Htrue in Hm. set_solver.
    - assert (method = []) as -> by (by destruct method). set_solver. }
  unfold call_permission_candidates. rewrite list_elem_of_fmap. setoid_rewrite fromkeys_elem.
  assert (forall i, str_after 58 (§"interface:" ++ i) = Some i) as Hafter by done.
  destruct (str_startswith §"interface:" target) eqn:Hst.
  - apply str_startswith_spec in Hst as [i ->]. rewrite Hafter.
    assert (forall j, §"interface:" ++ i = §"interface:" ++ j -> i = j) as Hinj.
    { intros j Hj. by apply (inj (app §"interface:")) in Hj. }
    destruct (str_true i) eqn:Hi.
    + apply Htrue in Hi. setoid_rewrite elem_of_app. setoid_rewrite Hres. split.
      * intros (y & -> & [[->|[? ->]]|[->|[? ->]]]); eauto 10.
      * intros [->|[[? ->]|(j & Hj%Hinj & ? & [->|[? ->]])]]; subst; eauto 10.
    + assert (i = []) as -> by (by destruct i). setoid_rewrite Hres. split.
      * intros (y & -> & [->|[? ->]]); eauto 10.
      * intros [->|[[? ->]|(j & Hj%Hinj & ? & ?)]]; subst; eauto 10. done.
  - setoid_rewrite Hres. split.
    + intros (y & -> & [->|[? ->]]); eauto 10.
    + intros [->|[[? ->]|(j & -> & ?)]]; eauto 10.
      by rewrite str_startswith_app in Hst.
Qed.

(* ---------------------------------------------------------------- *)
(** ** Properties *)

(** [subscription_covers] decides containment of patterns: a grant covers
    a requested subscription exactly when both are well formed and every
    valid topic the request matches is matched by the grant. *)
Theorem subscription_covers_containment grant requested :
  subscription_covers grant requested = true <->
  valid_subscription (VStr grant) = true /\ valid_subscription (VStr requested) = true /\
  forall topic, valid_event_topic (VStr topic) = true ->
    subscription_matches requested topic = true -> subscription_matches grant topic = true.
Proof.
  split.
  - intros Hc. assert (subscription_covers grant requested = true) as Hc' by done.
    unfold subscription_covers in Hc'.
    destruct (valid_subscription (VStr grant)), (valid_subscription (VStr requested)); try done.
    eauto using covers_sound.
  - intros (Hg & Hr & Hall). by apply covers_complete.
Qed.

(** An authorized subscription never widens a component's reach: every
    valid topic that the accepted pattern can deliver is matched by a pattern
    granted in the manifest, and an authorized publication is itself such a
    topic. *)
Theorem allows_event_within_grants permissions action requested topic :
  allows_event permissions action requested = true ->
  valid_event_topic (VStr topic) = true ->
  subscription_matches requested topic = true ->
  exists grant, event_permission action grant ∈ permission_set permissions /\
                subscription_matches grant topic = true.
Proof.
  rewrite allows_event_iff. intros (_ & grant & Hg & Hc) Ht Hm.
  exists grant. eauto using covers_sound.
Qed.

(** Calls are authorized by complete-string equality only: the wildcard,
    the target, the target narrowed by the method, or the same two spellings
    of the bare interface name; no other permission string authorizes. *)
Theorem allows_call_exact permissions target method :
  allows_call permissions target method = true <->
  let granted p := §"mipc.call:" ++ p ∈ permission_set permissions in
  granted §"*" \/ granted target \/ (method ≠ [] /\ granted (target ++ §"." ++ method)) \/
  exists i, target = §"interface:" ++ i /\ i ≠ [] /\
    (granted i \/ (method ≠ [] /\ granted (i ++ §"." ++ method))).
Proof.
  rewrite allows_call_iff. setoid_rewrite call_candidates_elem. cbv zeta.
  change (§"mipc.call:*") with (§"mipc.call:" ++ §"*").
  split.
  - intros [?|(p & [->|[[? ->]|(i & -> & ? & [->|[? ->]])]] & ?)]; eauto 12.
  - intros [?|[?|[[? ?]|(i & -> & ? & [?|[? ?]])]]]; eauto 12.
Qed.
End Acl.

Lemma allows_event_within_grants_witness :
  exists grant, event_permission §"subscribe" grant ∈
      permission_set [VNone; VStr §"mipc.event:subscribe:msys.hal.*"] /\
    subscription_matches grant §"msys.hal.battery.changed" = true.
Proof.
  apply (allows_event_within_grants _ §"subscribe" §"msys.hal.battery.*");
    vm_compute; reflexivity.
Defined.
End Acl.
