(* ===== verification/Isolation.v ===== *)
(** * Component isolation ([msys_core/isolation.py])

    [parse_isolation] turns a manifest declaration into an [IsolationSpec];
    [prepare_isolation_launch] checks it against the host's capabilities and
    builds the launch plan; [IsolationPreexec] applies the plan in the child,
    against an operating system given as an oracle on the calls made so far. *)

From Stdlib Require Import ZArith.
From S2P Require Export PyValue.

Module Isolation.

Definition FAIL_CLOSED : pystr := §"fail-closed".
Definition BEST_EFFORT : pystr := §"best-effort".
Definition FAILURE_POLICIES : list pystr := [FAIL_CLOSED; BEST_EFFORT].
Definition NAMESPACE_ORDER : list pystr :=
  [§"user"; §"mount"; §"ipc"; §"uts"; §"network"].
Definition NAMESPACE_FLAGS : dict pystr Z :=
  [(§"user", 0x10000000%Z); (§"mount", 0x00020000%Z); (§"ipc", 0x08000000%Z);
   (§"uts", 0x04000000%Z); (§"network", 0x40000000%Z)].

(** The [RLIMIT_*] constants the [resource] module of the platform defines. *)
Class Platform := { has_rlimit : pystr -> bool }.
#[export] Instance linux_platform : Platform := {| has_rlimit _ := true |}.

Definition RLIMIT_RESOURCES `{Platform} : list pystr :=
  List.filter has_rlimit
    [§"as"; §"core"; §"cpu"; §"data"; §"fsize"; §"memlock"; §"nofile"; §"nproc"; §"stack"].

Record RlimitSpec := { soft : Z; hard : Z }.

Record SeccompSpec := { mode : pystr; seccomp_profile : pystr }.
Definition seccomp_default : SeccompSpec := {| mode := §"off"; seccomp_profile := §"default" |}.

Record IsolationSpec := {
  profile : pystr;
  failure : pystr;
  namespaces : list pystr;
  no_new_privs : bool;
  dumpable : option bool;
  rlimits : dict pystr RlimitSpec;
  seccomp : SeccompSpec;
}.

Definition spec_default : IsolationSpec := {|
  profile := §"none"; failure := BEST_EFFORT; namespaces := []; no_new_privs := false;
  dumpable := None; rlimits := []; seccomp := seccomp_default;
|}.

(** [IsolationSpec.requested] *)
Definition requested (s : IsolationSpec) : bool :=
  negb (bool_decide (profile s = §"none"))
  || match namespaces s with [] => false | _ => true end
  || no_new_privs s
  || match dumpable s with None => false | _ => true end
  || match rlimits s with [] => false | _ => true end
  || negb (bool_decide (mode (seccomp s) = §"off")).

Definition config_error (m : pystr) : exn := Exn IsolationConfigurationError m.

(* ------------------------------------------------------------------ *)
(** ** Descriptions *)

Definition opt_bool (o : option bool) : pyval :=
  match o with Some b => VBool b | None => VNone end.
Definition opt_str (o : option pystr) : pyval :=
  match o with Some s => VStr s | None => VNone end.

(** [sorted(d.items())] on a dictionary with string keys. *)
Definition sorted_items {V} (d : dict pystr V) : list (pystr * V) :=
  py_sorted (fun a b => str_leb a.1 b.1) d.

Definition rlimits_value (d : dict pystr RlimitSpec) : pyval :=
  VDict ((fun p => (p.1, VDict [(§"soft", VInt (soft p.2)); (§"hard", VInt (hard p.2))]))
           <$> sorted_items d).

Definition describe_isolation (s : IsolationSpec) : pyval := VDict [
  (§"profile", VStr (profile s));
  (§"failure", VStr (failure s));
  (§"requested", VBool (requested s));
  (§"namespaces", VList (VStr <$> namespaces s));
  (§"no_new_privs", VBool (no_new_privs s));
  (§"dumpable", opt_bool (dumpable s));
  (§"rlimits", rlimits_value (rlimits s));
  (§"seccomp", VDict [
    (§"mode", VStr (mode (seccomp s)));
    (§"profile", VStr (seccomp_profile (seccomp s)))]);
  (§"security_boundary", VStr §"partial-not-a-filesystem-sandbox")].

(* ------------------------------------------------------------------ *)
(** ** Parsing a declaration *)

Definition PROFILE_DEFAULTS : dict pystr (dict pystr pyval) := [
  (§"none", []);
  (§"baseline", [
    (§"no_new_privs", VBool true);
    (§"dumpable", VBool false);
    (§"rlimits", VDict [(§"core", VInt 0); (§"nofile", VInt 1024)])]);
  (§"namespaced", [
    (§"namespaces", VList (VStr <$> NAMESPACE_ORDER));
    (§"no_new_privs", VBool true);
    (§"dumpable", VBool false);
    (§"rlimits", VDict [(§"core", VInt 0); (§"nofile", VInt 512); (§"nproc", VInt 256)])]);
  (§"custom", [])].

(** [_boolean]: the value must be absent, null or a bool. *)
Definition _boolean (raw : dict pystr pyval) (name : pystr) (default : option bool)
    : py (option bool) :=
  match dget_or raw name (opt_bool default) with
  | VNone => Ok None
  | VBool b => Ok (Some b)
  | _ => Raise (config_error (§"isolation." ++ name ++ §" must be boolean"))
  end.

Definition _limit_value (value : pyval) (field_name : pystr) : py Z :=
  match as_int value with
  | Some z =>
      if (z <? 0)%Z then Raise (config_error (field_name ++ §" must be a non-negative integer"))
      else Ok z
  | None => Raise (config_error (field_name ++ §" must be a non-negative integer"))
  end.

(** [sorted(set(d).difference(allowed))] *)
Definition unknown_fields (d : dict pystr pyval) (allowed : list pystr) : list pystr :=
  sorted_strs (filter (fun k => k ∉ allowed) (dkeys d)).

Definition is_nil {A} (l : list A) : bool := match l with [] => true | _ => false end.

Definition comma (l : list pystr) : pystr := str_join §", " l.

Section Parse.
Context `{PyLib} `{PyRepr} `{Platform}.

Definition _parse_rlimit (name : pystr) (value : pyval) : py RlimitSpec :=
  if negb (bool_decide (name ∈ RLIMIT_RESOURCES))
  then Raise (config_error (§"unsupported rlimit " ++ name))
  else match value with
  | VInt _ =>
      limit ← _limit_value value (§"isolation.rlimits." ++ name);
      Ok {| soft := limit; hard := limit |}
  | VDict d =>
      let unknown := unknown_fields d [§"soft"; §"hard"] in
      raise_if (negb (is_nil unknown)) (config_error (§"unknown rlimit fields: " ++ comma unknown));;
      raise_if (negb (dhas d §"soft") && negb (dhas d §"hard"))
        (config_error (§"isolation.rlimits." ++ name ++ §" is empty"));;
      hard ← _limit_value (dget_or d §"hard" (dget_or d §"soft" VNone))
               (§"isolation.rlimits." ++ name ++ §".hard");
      soft ← _limit_value (dget_or d §"soft" (VInt hard))
               (§"isolation.rlimits." ++ name ++ §".soft");
      raise_if (hard <? soft)%Z
        (config_error (§"isolation.rlimits." ++ name ++ §".soft exceeds hard"));;
      Ok {| soft := soft; hard := hard |}
  | _ => Raise (config_error
           (§"isolation.rlimits." ++ name ++ §" must be an integer or soft/hard object"))
  end.

(** [[A-Za-z0-9][A-Za-z0-9._-]{0,63}] *)
Definition seccomp_profile_re : regex :=
  RSeq (cls alnum_ascii)
    (rupto 63 (cls (fun c => alnum_ascii c || one_of §"._-" c))).

Definition _parse_seccomp (value : pyval) : py SeccompSpec :=
  match value with
  | VNone => Ok seccomp_default
  | _ =>
    if eq_str value §"off" then Ok seccomp_default
    else if eq_str value §"helper"
    then Ok {| mode := §"helper"; seccomp_profile := §"default" |}
    else match value with
    | VDict d =>
        let unknown := unknown_fields d [§"mode"; §"profile"] in
        raise_if (negb (is_nil unknown))
          (config_error (§"unknown seccomp fields: " ++ comma unknown));;
        let mode := py_str (dget_or d §"mode" (VStr §"off")) in
        raise_if (negb (bool_decide (mode ∈ [§"off"; §"helper"])))
          (config_error (§"unsupported seccomp mode " ++ mode));;
        let profile := py_str (dget_or d §"profile" (VStr §"default")) in
        raise_if (negb (fullmatch seccomp_profile_re profile))
          (config_error §"invalid seccomp helper profile");;
        Ok {| mode := mode; seccomp_profile := profile |}
    | _ => Raise (config_error §"isolation.seccomp must be off, helper, or an object")
    end
  end.

Definition isolation_fields : list pystr :=
  [§"profile"; §"failure"; §"namespaces"; §"no_new_privs"; §"dumpable"; §"rlimits"; §"seccomp"].

(** The namespaces field: an array of supported names, duplicates dropped. *)
Definition parse_namespaces (value : pyval) : py (list pystr) :=
  match value with
  | VList items =>
      match mapR (fun v => ok_or (as_str v) tt) items with
      | Raise _ => Raise (config_error §"isolation.namespaces must be an array of names")
      | Ok names =>
          let namespaces := fromkeys names in
          let unsupported :=
            filter (fun n => n ∉ dkeys NAMESPACE_FLAGS) namespaces in
          let detail := comma (sorted_strs unsupported) ++
            (if bool_decide (§"pid" ∈ unsupported)
             then §" (pid needs a double-fork/helper and is not implemented)" else []) in
          raise_if (negb (is_nil unsupported))
            (config_error (§"unsupported namespaces: " ++ detail));;
          Ok namespaces
      end
  | _ => Raise (config_error §"isolation.namespaces must be an array of names")
  end.

(** The profile's limits with the declared overrides; null removes a limit. *)
Definition override_limits (defaults overrides : dict pystr pyval) : dict pystr pyval :=
  foldl (fun acc p =>
    match p.2 with VNone => ddel acc p.1 | v => dset acc p.1 v end) defaults overrides.

Definition parse_limits (d : dict pystr pyval) : py (dict pystr RlimitSpec) :=
  mapR (fun p => limit ← _parse_rlimit p.1 p.2; Ok (p.1, limit)) d.

Definition parse_isolation_object (raw : dict pystr pyval) : py IsolationSpec :=
  let unknown := unknown_fields raw isolation_fields in
  raise_if (negb (is_nil unknown))
    (config_error (§"unknown isolation fields: " ++ comma unknown));;
  let profile := py_str (dget_or raw §"profile" (VStr §"custom")) in
  defaults ← ok_or (dget PROFILE_DEFAULTS profile)
    (config_error (§"unknown isolation profile " ++ profile));
  let failure := py_str (dget_or raw §"failure" (VStr FAIL_CLOSED)) in
  raise_if (negb (bool_decide (failure ∈ FAILURE_POLICIES)))
    (config_error (§"invalid isolation failure policy " ++ failure));;
  namespaces ← parse_namespaces
    (dget_or raw §"namespaces" (dget_or defaults §"namespaces" (VList [])));
  no_new_privs ← _boolean raw §"no_new_privs"
    (Some (truthy (dget_or defaults §"no_new_privs" (VBool false))));
  dumpable ← _boolean raw §"dumpable"
    match dget defaults §"dumpable" with Some (VBool b) => Some b | _ => None end;
  (* assert isinstance(no_new_privs, bool) *)
  no_new_privs ← ok_or no_new_privs (Exn AssertionError []);
  overrides ← ok_or (as_dict (dget_or raw §"rlimits" (VDict [])))
    (config_error §"isolation.rlimits must be an object");
  let raw_limits := override_limits
    match dget defaults §"rlimits" with Some (VDict d) => d | _ => [] end overrides in
  limits ← parse_limits raw_limits;
  seccomp ← _parse_seccomp (dget_or raw §"seccomp" (dget_or defaults §"seccomp" (VStr §"off")));
  raise_if (bool_decide (mode seccomp = §"helper") && negb no_new_privs)
    (config_error §"seccomp helper requires no_new_privs=true");;
  Ok {| profile := profile; failure := failure; namespaces := namespaces;
        no_new_privs := no_new_privs; dumpable := dumpable; rlimits := limits;
        seccomp := seccomp |}.

Definition parse_isolation (value : pyval) : py IsolationSpec :=
  match value with
  | VNone => Ok spec_default
  | VStr s => parse_isolation_object [(§"profile", VStr s)]
  | VDict d => parse_isolation_object d
  | _ => Raise (config_error §"component isolation must be a profile string or object")
  end.
End Parse.

(* ------------------------------------------------------------------ *)
(** ** Capabilities and the launch plan *)

Record IsolationCapabilities := {
  linux : bool;
  prctl : bool;
  unshare : bool;
  cap_namespaces : list pystr;
  cap_rlimits : list pystr;
  seccomp_helper : option pystr;
}.

(** [IsolationCapabilities.as_dict] *)
Definition capabilities_dict (c : IsolationCapabilities) : pyval := VDict [
  (§"linux", VBool (linux c));
  (§"no_new_privs", VBool (prctl c));
  (§"dumpable", VBool (prctl c));
  (§"unshare_api", VBool (unshare c));
  (§"namespaces", VDict ((fun n => (n, VBool (bool_decide (n ∈ cap_namespaces c)))) <$> NAMESPACE_ORDER));
  (§"rlimits", VList (VStr <$> sorted_strs (cap_rlimits c)));
  (§"seccomp", VDict [
    (§"mode", VStr §"optional-helper");
    (§"helper", opt_str (seccomp_helper c));
    (§"available", VBool (bool_decide (is_Some (seccomp_helper c))))]);
  (§"permission_probe", VStr §"deferred-to-child");
  (§"security_boundary", VStr §"partial-not-a-filesystem-sandbox")].

(** [preexec_spec] is the specification held by the [IsolationPreexec] object
    that becomes [preexec_fn], if there is one. *)
Record IsolationLaunchPlan := {
  argv : list pystr;
  preexec_spec : option IsolationSpec;
  plan_spec : IsolationSpec;
  effective : IsolationSpec;
  skipped : list pystr;
  plan_helper : option pystr;
}.

(** [IsolationLaunchPlan.summary] *)
Definition plan_summary (p : IsolationLaunchPlan) : pyval := VDict [
  (§"profile", VStr (profile (plan_spec p)));
  (§"failure", VStr (failure (plan_spec p)));
  (§"requested", VBool (requested (plan_spec p)));
  (§"namespaces", VList (VStr <$> namespaces (effective p)));
  (§"no_new_privs", VBool (no_new_privs (effective p)));
  (§"dumpable", opt_bool (dumpable (effective p)));
  (§"rlimits", rlimits_value (rlimits (effective p)));
  (§"seccomp", VDict [
    (§"mode", VStr (mode (seccomp (effective p))));
    (§"profile", VStr (seccomp_profile (seccomp (effective p))));
    (§"helper", opt_str (plan_helper p))]);
  (§"degraded", VBool (negb (is_nil (skipped p))));
  (§"skipped", VList (VStr <$> skipped p));
  (§"security_boundary", VStr §"partial-not-a-filesystem-sandbox")].

(** [unavailable(feature)]: refuse the launch, or record the degradation. *)
Definition unavailable (spec : IsolationSpec) (skipped : list pystr) (feature : pystr)
    : py (list pystr) :=
  if bool_decide (failure spec = FAIL_CLOSED)
  then Raise (Exn IsolationUnavailable (§"isolation capability unavailable: " ++ feature))
  else Ok (skipped ++ [feature]).

(** [for x in requested: keep it if supported, else unavailable(label)] *)
Definition keep_supported {A} (spec : IsolationSpec) (supported : A -> bool) (label : A -> pystr)
    (items : list A) (skipped : list pystr) : py (list A * list pystr) :=
  foldR (fun acc x =>
    if supported x then Ok (acc.1 ++ [x], acc.2)
    else skipped ← unavailable spec acc.2 (label x); Ok (acc.1, skipped))
    ([], skipped) items.

Definition ns_label (n : pystr) : pystr := §"namespace:" ++ n.
Definition rlimit_label (n : pystr) : pystr := §"rlimit:" ++ n.

Definition prepare_isolation_launch (spec : IsolationSpec) (argv : list pystr)
    (capabilities : IsolationCapabilities) : py IsolationLaunchPlan :=
  '(effective_namespaces, skipped) ← keep_supported spec
     (fun n => linux capabilities && unshare capabilities
               && bool_decide (n ∈ cap_namespaces capabilities))
     ns_label (namespaces spec) [];
  let privs_ok := linux capabilities && prctl capabilities in
  skipped ← (if no_new_privs spec && negb privs_ok
             then unavailable spec skipped §"no_new_privs" else Ok skipped);
  let no_new_privs' := no_new_privs spec && privs_ok in
  skipped ← (if bool_decide (is_Some (dumpable spec)) && negb privs_ok
             then unavailable spec skipped §"dumpable" else Ok skipped);
  let dumpable' := if privs_ok then dumpable spec else None in
  '(effective_limits, skipped) ← keep_supported spec
     (fun p => linux capabilities && bool_decide (p.1 ∈ cap_rlimits capabilities))
     (fun p => rlimit_label p.1) (rlimits spec) skipped;
  '(effective_seccomp, helper, launch_argv, skipped) ←
    (if bool_decide (mode (seccomp spec) = §"helper") then
       match seccomp_helper capabilities with
       | Some helper =>
           if linux capabilities
           then Ok (seccomp spec, Some helper,
                    [helper; §"--profile"; seccomp_profile (seccomp spec); §"--"] ++ argv, skipped)
           else skipped ← unavailable spec skipped §"seccomp:helper";
                Ok (seccomp_default, None, argv, skipped)
       | None => skipped ← unavailable spec skipped §"seccomp:helper";
                 Ok (seccomp_default, None, argv, skipped)
       end
     else Ok (seccomp spec, seccomp_helper capabilities, argv, skipped));
  let effective := {|
    profile := profile spec; failure := failure spec; namespaces := effective_namespaces;
    no_new_privs := no_new_privs'; dumpable := dumpable'; rlimits := effective_limits;
    seccomp := effective_seccomp |} in
  let needs_preexec :=
    negb (is_nil (namespaces effective)) || no_new_privs effective
    || bool_decide (is_Some (dumpable effective)) || negb (is_nil (rlimits effective)) in
  Ok {| argv := launch_argv;
        preexec_spec := if needs_preexec then Some effective else None;
        plan_spec := spec; effective := effective; skipped := skipped;
        plan_helper := if bool_decide (mode effective_seccomp = §"helper") then helper else None |}.

(* ------------------------------------------------------------------ *)
(** ** Applying the plan in the child *)

(** The kernel requests [LinuxIsolationBackend] makes. *)
Inductive syscall :=
| SysUnshare (flags : Z)
| SysWriteMapping (path value : pystr)
| SysMountPrivate (flags : Z)
| SysPrctl (option value : Z)
| SysSetrlimit (name : pystr) (soft hard : Z).

Inductive sys_result := SysOk | SysMissing | SysFail (detail : pystr).

Inductive event := Call (c : syscall) | Diag (disposition label : pystr).

Definition PR_SET_DUMPABLE : Z := 4.
Definition PR_SET_NO_NEW_PRIVS : Z := 38.
Definition MS_PRIVATE : Z := 2 ^ 18.
Definition MS_REC : Z := 2 ^ 14.

(** What the kernel answers may depend on everything done so far. *)
Class Kernel := {
  answer : list event -> syscall -> sys_result;
  uid : Z;
  gid : Z;
}.

(** Computations in the child: they append to the trace and may raise. *)
Definition M (A : Type) := list event -> list event * py A.
Definition mreturn {A} (a : A) : M A := fun h => (h, Ok a).
Definition mraise {A} (e : exn) : M A := fun h => (h, Raise e).
Definition mthen {A B} (m : M A) (f : A -> M B) : M B := fun h =>
  match m h with (h, Ok a) => f a h | (h, Raise e) => (h, Raise e) end.
(** [try: m except Exception as exc: handler(exc)] *)
Definition mtry {A} (m : M A) (handler : exn -> M A) : M A := fun h =>
  match m h with (h, Ok a) => (h, Ok a) | (h, Raise e) => handler e h end.
Definition mwhen (b : bool) (m : M ()) : M () := if b then m else mreturn tt.
Definition mdrop {A} (m : M A) : M () := mthen m (fun _ => mreturn tt).
Fixpoint mfor {A} (l : list A) (f : A -> M ()) : M () :=
  match l with [] => mreturn tt | x :: l => mthen (f x) (fun _ => mfor l f) end.

Definition diagnostic (disposition label : pystr) : M () :=
  fun h => (h ++ [Diag disposition label], Ok tt).

Section Preexec.
Context `{Kernel}.

(** A request whose failure is an [OSError]. *)
Definition sys (c : syscall) : M () := fun h =>
  (h ++ [Call c],
   match answer h c with
   | SysOk => Ok tt
   | SysMissing => Raise (Exn OSError §"No such file or directory")
   | SysFail d => Raise (Exn OSError d)
   end).

Definition backend_unshare (namespace : pystr) : M () :=
  match dget NAMESPACE_FLAGS namespace with
  | Some f => sys (SysUnshare f)
  | None => mraise (Exn KeyError namespace)
  end.

(** [_write_mapping]: only a missing file may be tolerated. *)
Definition _write_mapping (path value : pystr) (optional : bool) : M () := fun h =>
  (h ++ [Call (SysWriteMapping path value)],
   match answer h (SysWriteMapping path value) with
   | SysOk => Ok tt
   | SysMissing => if optional then Ok tt else Raise (Exn OSError §"No such file or directory")
   | SysFail d => Raise (Exn OSError d)
   end).

Definition newline : pystr := [10].

Definition enter_user_namespace : M () :=
  mthen (backend_unshare §"user") (fun _ =>
  mtry
    (mthen (_write_mapping §"/proc/self/setgroups" (§"deny" ++ newline) true) (fun _ =>
     mthen (_write_mapping §"/proc/self/uid_map" (§"0 " ++ dec_Z uid ++ §" 1" ++ newline) false)
       (fun _ =>
     _write_mapping §"/proc/self/gid_map" (§"0 " ++ dec_Z gid ++ §" 1" ++ newline) false)))
    (fun exc => mraise (Exn PartialIsolationError
                          (§"user namespace mapping failed: " ++ exn_msg exc)))).

Definition make_mounts_private : M () := sys (SysMountPrivate (Z.lor MS_REC MS_PRIVATE)).
Definition set_no_new_privs : M () := sys (SysPrctl PR_SET_NO_NEW_PRIVS 1).
Definition set_dumpable (enabled : bool) : M () :=
  sys (SysPrctl PR_SET_DUMPABLE (if enabled then 1 else 0)).
Definition set_rlimit (name : pystr) (limit : RlimitSpec) : M () :=
  sys (SysSetrlimit name (soft limit) (hard limit)).

(** [IsolationPreexec._apply] *)
Definition _apply (spec : IsolationSpec) (label : pystr) (operation : M ()) : M bool :=
  mtry (mthen operation (fun _ => mreturn true)) (fun exc =>
    if bool_decide (exn_type exc = PartialIsolationError)
    then mthen (diagnostic §"aborting" label) (fun _ => mraise exc)
    else if bool_decide (failure spec = FAIL_CLOSED)
    then mthen (diagnostic §"aborting" label) (fun _ =>
           mraise (Exn IsolationUnavailable (label ++ §" failed: " ++ exn_msg exc)))
    else mthen (diagnostic §"best-effort skipped" label) (fun _ => mreturn false)).

Definition enter_namespace (spec : IsolationSpec) (namespace : pystr) : M () :=
  if bool_decide (namespace = §"user") || negb (bool_decide (namespace ∈ namespaces spec))
  then mreturn tt
  else
    mthen (_apply spec (ns_label namespace) (backend_unshare namespace)) (fun entered =>
    mwhen (bool_decide (namespace = §"mount") && entered)
      (mdrop (_apply spec §"mount-propagation-private" make_mounts_private))).

(** [IsolationPreexec.__call__], after the user namespace *)
Definition preexec_rest (spec : IsolationSpec) : M () :=
  mthen (mfor NAMESPACE_ORDER (enter_namespace spec)) (fun _ =>
  mthen (mwhen (no_new_privs spec) (mdrop (_apply spec §"no_new_privs" set_no_new_privs))) (fun _ =>
  mthen (match dumpable spec with
         | Some enabled => mdrop (_apply spec §"dumpable" (set_dumpable enabled))
         | None => mreturn tt
         end) (fun _ =>
  mfor (sorted_items (rlimits spec)) (fun p =>
    mdrop (_apply spec (rlimit_label p.1) (set_rlimit p.1 p.2)))))).

(** [IsolationPreexec.__call__] *)
Definition preexec (spec : IsolationSpec) : M () :=
  mthen (mwhen (bool_decide (§"user" ∈ namespaces spec))
           (mdrop (_apply spec §"namespace:user" enter_user_namespace))) (fun _ =>
  preexec_rest spec).
End Preexec.

(* ------------------------------------------------------------------ *)
(** ** Well-formed specifications *)

Record spec_wf `{Platform} (s : IsolationSpec) : Prop := {
  wf_profile : profile s ∈ dkeys PROFILE_DEFAULTS;
  wf_failure : failure s ∈ FAILURE_POLICIES;
  wf_namespaces : Forall (fun n => n ∈ NAMESPACE_ORDER) (namespaces s);
  wf_namespaces_nodup : NoDup (namespaces s);
  wf_rlimits : Forall (fun p => p.1 ∈ RLIMIT_RESOURCES /\ (0 <= soft p.2 <= hard p.2)%Z) (rlimits s);
  wf_rlimits_dict : dict_wf (rlimits s);
  wf_mode : mode (seccomp s) ∈ [§"off"; §"helper"];
  wf_seccomp : mode (seccomp s) = §"helper" -> no_new_privs s = true;
}.

Section ParseFacts.
Context `{PyLib} `{PyRepr} `{Platform}.

Lemma limit_value_Ok v f z : _limit_value v f = Ok z -> v = VInt z /\ (0 <= z)%Z.
Proof.
  unfold _limit_value. destruct (as_int v) as [z'|] eqn:Hv; [|done].
  apply as_int_Some in Hv as ->. destruct (Z.ltb_spec z' 0); [done|]. by intros [= <-].
Qed.

Lemma parse_rlimit_Ok name v r :
  _parse_rlimit name v = Ok r -> name ∈ RLIMIT_RESOURCES /\ (0 <= soft r <= hard r)%Z.
Proof.
  unfold _parse_rlimit. case_bool_decide as Hn; [|done]. cbn [negb].
  destruct v; try done; intros Hr; inv_result.
  - apply limit_value_Ok in H2 as [_ ?]. simpl. split; [done|lia].
  - repeat match goal with Hl : _limit_value _ _ = Ok _ |- _ => apply limit_value_Ok in Hl as [_ Hl] end.
    apply Z.ltb_ge in H6. simpl. split; [done|lia].
Qed.

Lemma parse_limits_keys d l : parse_limits d = Ok l -> dkeys l = dkeys d.
Proof.
  unfold parse_limits. rewrite mapR_Ok. unfold dkeys. induction 1 as [|p q d l Hpq Hdl IH]; [done|].
  inv_result. rewrite !fmap_cons. by rewrite IH.
Qed.

Lemma parse_limits_Ok d l : parse_limits d = Ok l ->
  Forall (fun p => p.1 ∈ RLIMIT_RESOURCES /\ (0 <= soft p.2 <= hard p.2)%Z) l.
Proof.
  unfold parse_limits. rewrite mapR_Ok. induction 1 as [|p q d l Hpq Hdl IH]; constructor; [|done].
  inv_result. by eapply parse_rlimit_Ok.
Qed.

Lemma parse_namespaces_Ok v l : parse_namespaces v = Ok l ->
  Forall (fun n => n ∈ NAMESPACE_ORDER) l /\ NoDup l.
Proof.
  unfold parse_namespaces. destruct v; try done. destruct (mapR _ _) as [names|]; [|done].
  intros Hl. inv_result. split; [|apply fromkeys_NoDup].
  apply negb_false_iff in H2. apply Forall_forall. intros n Hn.
  destruct (decide (n ∈ dkeys NAMESPACE_FLAGS)) as [Hin|Hin]; [exact Hin|exfalso].
  assert (n ∈ filter (fun n => n ∉ dkeys NAMESPACE_FLAGS) (fromkeys names)) as Hf
    by (rewrite list_elem_of_filter; done).
  revert Hf H2. by destruct (filter (fun n => n ∉ dkeys NAMESPACE_FLAGS) (fromkeys names));
    [intros ?%not_elem_of_nil|].
Qed.

Lemma override_limits_wf d1 d2 : dict_wf d1 -> dict_wf (override_limits d1 d2).
Proof.
  unfold override_limits. revert d1; induction d2 as [|[k v] d2 IH]; intros d1 Hwf; simpl; [done|].
  apply IH. destruct v; auto with dict.
Qed.

Lemma parse_seccomp_mode v s : _parse_seccomp v = Ok s -> mode s ∈ [§"off"; §"helper"].
Proof.
  unfold _parse_seccomp. intros Hs.
  destruct v; repeat case_match; inv_result; simpl; try set_solver.
  - apply negb_false_iff in H4. by bool_simp.
Qed.

Lemma profile_default_limits_wf p d :
  dget PROFILE_DEFAULTS p = Some d ->
  dict_wf match dget d §"rlimits" with Some (VDict l) => l | _ => [] end.
Proof.
  intros Hd%dget_elem. unfold dict_wf. apply (bool_decide_unpack _).
  repeat (apply elem_of_cons in Hd as [[= -> ->]|Hd]; [vm_compute; done|]).
  by apply not_elem_of_nil in Hd.
Qed.

Lemma spec_default_wf : spec_wf spec_default.
Proof. split; simpl; try constructor; set_solver. Qed.

Lemma parse_isolation_object_wf raw s : parse_isolation_object raw = Ok s -> spec_wf s.
Proof.
  unfold parse_isolation_object. intros Hs. inv_result.
  match goal with Hn : parse_namespaces _ = Ok _ |- _ => apply parse_namespaces_Ok in Hn as [? ?] end.
  match goal with Hd : dget PROFILE_DEFAULTS _ = Some _ |- _ =>
    pose proof (profile_default_limits_wf _ _ Hd); apply dget_Some_key in Hd end.
  match goal with Hl : parse_limits _ = Ok _ |- _ =>
    pose proof (parse_limits_Ok _ _ Hl); apply parse_limits_keys in Hl end.
  match goal with Hm : _parse_seccomp _ = Ok _ |- _ => apply parse_seccomp_mode in Hm end.
  bool_simp. split; simpl; try done.
  - unfold dict_wf. match goal with Hl : dkeys _ = dkeys _ |- _ => rewrite Hl end.
    by apply override_limits_wf.
  - intros Hm. match goal with Hg : bool_decide _ && _ = false |- _ =>
      rewrite Hm, bool_decide_eq_true_2 in Hg by done; by apply negb_false_iff in Hg end.
Qed.

Lemma parse_isolation_spec_wf v s : parse_isolation v = Ok s -> spec_wf s.
Proof.
  unfold parse_isolation. destruct v; try done; intros Hs; inv_result;
    eauto using spec_default_wf, parse_isolation_object_wf.
Qed.
End ParseFacts.

(* ------------------------------------------------------------------ *)
(** ** What a launch plan keeps and what it reports *)

Definition opt_label (b : bool) (label : pystr) : list pystr := if b then [label] else [].

Definition is_some {A} (o : option A) : bool := match o with Some _ => true | None => false end.

(** The features a specification asks for, by the labels the code reports. *)
Definition features (s : IsolationSpec) : list pystr :=
  (ns_label <$> namespaces s)
  ++ opt_label (no_new_privs s) §"no_new_privs"
  ++ opt_label (is_some (dumpable s)) §"dumpable"
  ++ ((fun p => rlimit_label p.1) <$> rlimits s)
  ++ opt_label (bool_decide (mode (seccomp s) = §"helper")) §"seccomp:helper".

Definition has_namespace (c : IsolationCapabilities) (n : pystr) : bool :=
  linux c && unshare c && bool_decide (n ∈ cap_namespaces c).
Definition has_prctl (c : IsolationCapabilities) : bool := linux c && prctl c.
Definition has_limit (c : IsolationCapabilities) (p : pystr * RlimitSpec) : bool :=
  linux c && bool_decide (p.1 ∈ cap_rlimits c).
Definition has_helper (c : IsolationCapabilities) : bool :=
  linux c && is_some (seccomp_helper c).

(** The requested features the host lacks, in the order they are examined. *)
Definition missing (c : IsolationCapabilities) (s : IsolationSpec) : list pystr :=
  (ns_label <$> List.filter (fun n => negb (has_namespace c n)) (namespaces s))
  ++ opt_label (no_new_privs s && negb (has_prctl c)) §"no_new_privs"
  ++ opt_label (is_some (dumpable s) && negb (has_prctl c)) §"dumpable"
  ++ ((fun p => rlimit_label p.1) <$> List.filter (fun p => negb (has_limit c p)) (rlimits s))
  ++ opt_label (bool_decide (mode (seccomp s) = §"helper") && negb (has_helper c)) §"seccomp:helper".

Lemma filter_split_perm {A} (f : A -> bool) l :
  l ≡ₚ List.filter f l ++ List.filter (fun x => negb (f x)) l.
Proof.
  induction l as [|x l IH]; simpl; [done|]. destruct (f x); simpl.
  - by constructor.
  - rewrite <- Permutation_middle. by constructor.
Qed.

Lemma filter_none_missing {A} (f : A -> bool) l :
  List.filter (fun x => negb (f x)) l = [] -> List.filter f l = l.
Proof.
  induction l as [|x l IH]; simpl; [done|]. destruct (f x); simpl; [|done]. intros. f_equal; auto.
Qed.

(** Collecting refusals: all of them under best effort, none under fail closed. *)
Definition refuse (s : IsolationSpec) (skipped : list pystr) (r : py (list pystr)) (lost : list pystr)
    : Prop :=
  match r with
  | Ok sk => sk = skipped ++ lost /\ (failure s = FAIL_CLOSED -> lost = [])
  | Raise e => exn_type e = IsolationUnavailable /\ failure s = FAIL_CLOSED /\ lost ≠ []
  end.

Lemma unavailable_spec s sk f : refuse s sk (unavailable s sk f) [f].
Proof. unfold unavailable. case_bool_decide; simpl; naive_solver. Qed.

Lemma keep_supported_spec {A} s (sup : A -> bool) label items sk :
  match keep_supported s sup label items sk with
  | Ok (kept, sk') => kept = List.filter sup items /\
      refuse s sk (Ok sk') (label <$> List.filter (fun x => negb (sup x)) items)
  | Raise e => refuse s sk (Raise e) (label <$> List.filter (fun x => negb (sup x)) items)
  end.
Proof.
  unfold keep_supported.
  enough (forall kept sk, match foldR (fun acc x => if sup x then Ok (acc.1 ++ [x], acc.2)
      else skipped ← unavailable s acc.2 (label x); Ok (acc.1, skipped)) (kept, sk) items with
    | Ok (kept', sk') => kept' = kept ++ List.filter sup items /\
        refuse s sk (Ok sk') (label <$> List.filter (fun x => negb (sup x)) items)
    | Raise e => refuse s sk (Raise e) (label <$> List.filter (fun x => negb (sup x)) items)
    end) as Hgen by exact (Hgen [] sk).
  clear sk. induction items as [|x items IH]; intros kept sk; cbn [foldR].
  { simpl. by rewrite !app_nil_r. }
  cbn [List.filter]. destruct (sup x); cbn [negb].
  - specialize (IH (kept ++ [x]) sk). cbn [rbind fst snd].
    destruct (foldR _ _ _) as [[??]|]; [|done]. destruct IH as [-> ?].
    by rewrite <- app_assoc.
  - pose proof (unavailable_spec s sk (label x)) as Hu. cbn [snd fst].
    destruct (unavailable s sk (label x)) as [sk'|e]; cbn [rbind].
    + destruct Hu as [-> Hfc]. specialize (IH kept (sk ++ [label x])).
      destruct (foldR _ _ _) as [[kept' sk']|e].
      * destruct IH as [-> [-> ?]]. split; [done|]. simpl. split; [by rewrite <- app_assoc|].
        intros Hf. discriminate (Hfc Hf).
      * destruct IH as (? & ? & ?). split_and!; [done|done|]. done.
    + destruct Hu as (? & ? & ?). by split_and!.
Qed.

Lemma maybe_unavailable_spec s sk (b : bool) f :
  refuse s sk (if b then unavailable s sk f else Ok sk) (opt_label b f).
Proof.
  destruct b; [apply unavailable_spec|]. split; [by rewrite app_nil_r|done].
Qed.


Lemma refuse_Raise_app s sk e l1 l2 l3 :
  refuse s sk (Raise e) l2 -> refuse s sk (Raise e) (l1 ++ l2 ++ l3).
Proof.
  intros (? & ? & Hne). split_and!; [done..|]. intros [? [? ?]%app_nil]%app_nil. by apply Hne.
Qed.

(** The seccomp step, as one refusal. *)
Definition seccomp_step (spec : IsolationSpec) (argv : list pystr) (c : IsolationCapabilities)
    (skipped : list pystr) : py (SeccompSpec * option pystr * list pystr * list pystr) :=
  if bool_decide (mode (seccomp spec) = §"helper") then
    match seccomp_helper c with
    | Some helper =>
        if linux c
        then Ok (seccomp spec, Some helper,
                 [helper; §"--profile"; seccomp_profile (seccomp spec); §"--"] ++ argv, skipped)
        else skipped ← unavailable spec skipped §"seccomp:helper";
             Ok (seccomp_default, None, argv, skipped)
    | None => skipped ← unavailable spec skipped §"seccomp:helper";
              Ok (seccomp_default, None, argv, skipped)
    end
  else Ok (seccomp spec, seccomp_helper c, argv, skipped).

Lemma seccomp_step_spec s argv c sk :
  let lost := opt_label (bool_decide (mode (seccomp s) = §"helper") && negb (has_helper c))
                §"seccomp:helper" in
  match seccomp_step s argv c sk with
  | Ok (eff, h, av, sk') =>
      refuse s sk (Ok sk') lost /\
      eff = (if is_nil lost then seccomp s else seccomp_default) /\
      av = match h with
           | Some helper => if bool_decide (mode (seccomp s) = §"helper")
               then [helper; §"--profile"; seccomp_profile (seccomp s); §"--"] ++ argv else argv
           | None => argv
           end
  | Raise e => refuse s sk (Raise e) lost
  end.
Proof.
  unfold seccomp_step, has_helper. case_bool_decide as Hm; cbn [andb opt_label is_nil].
  - pose proof (unavailable_spec s sk §"seccomp:helper") as Hu.
    destruct (seccomp_helper c) as [h|], (linux c); cbn [is_some andb negb opt_label is_nil];
      try (destruct (unavailable _ _ _) as [sk'|e]; cbn [rbind]; [by split_and!|done]).
    split; [split; [by rewrite app_nil_r|done]|done].
  - split; [split; [by rewrite app_nil_r|done]|]. by destruct (seccomp_helper c).
Qed.

(** The outcome of [prepare_isolation_launch], field by field. *)
Lemma prepare_outcome spec av c :
  match prepare_isolation_launch spec av c with
  | Ok p =>
      skipped p = missing c spec /\ (failure spec = FAIL_CLOSED -> missing c spec = []) /\
      plan_spec p = spec /\
      effective p = {|
        profile := profile spec; failure := failure spec;
        namespaces := List.filter (has_namespace c) (namespaces spec);
        no_new_privs := no_new_privs spec && has_prctl c;
        dumpable := if has_prctl c then dumpable spec else None;
        rlimits := List.filter (has_limit c) (rlimits spec);
        seccomp := if bool_decide (mode (seccomp spec) = §"helper") && negb (has_helper c)
                   then seccomp_default else seccomp spec |}
  | Raise e =>
      exn_type e = IsolationUnavailable /\ failure spec = FAIL_CLOSED /\ missing c spec ≠ []
  end.
Proof.
  unfold prepare_isolation_launch, missing.
  pose proof (keep_supported_spec spec (has_namespace c) ns_label (namespaces spec) []) as Hns.
  unfold has_namespace in Hns at 1.
  destruct (keep_supported _ _ _ (namespaces spec) _) as [[kn sk1]|e]; cbn [rbind];
    [|by apply (refuse_Raise_app _ _ _ [] _ _ Hns)].
  destruct Hns as [-> [-> F1]].
  match goal with |- context [?a ++ ?b ++ ?d] => set (L1 := a) in * end.
  change (linux c && prctl c) with (has_prctl c).
  pose proof (maybe_unavailable_spec spec ([] ++ L1) (no_new_privs spec && negb (has_prctl c))
                §"no_new_privs") as H2.
  destruct (if no_new_privs spec && _ then _ else _) as [sk2|e]; cbn [rbind];
    [|by apply (refuse_Raise_app _ _ _ L1 _ _ H2)].
  destruct H2 as [-> F2].
  replace (bool_decide (is_Some (dumpable spec))) with (is_some (dumpable spec))
    by (by destruct (dumpable spec)).
  match goal with |- context [(_ ++ L1) ++ ?d] => set (L2 := d) in * end.
  pose proof (maybe_unavailable_spec spec (([] ++ L1) ++ L2)
    (is_some (dumpable spec) && negb (has_prctl c)) §"dumpable") as H3.
  destruct (if is_some _ && _ then _ else _) as [sk3|e]; cbn [rbind];
    [|rewrite app_assoc; by apply (refuse_Raise_app _ _ _ (L1 ++ L2) _ _ H3)].
  destruct H3 as [-> F3].
  match goal with |- context [(_ ++ L2) ++ ?d] => set (L3 := d) in * end.
  pose proof (keep_supported_spec spec (has_limit c) (fun p => rlimit_label p.1) (rlimits spec)
    ((([] ++ L1) ++ L2) ++ L3)) as H4.
  unfold has_limit in H4 at 1.
  destruct (keep_supported _ _ _ (rlimits spec) _) as [[kl sk4]|e]; cbn [rbind];
    [|rewrite !app_assoc, <- (app_assoc _ _ (opt_label _ _));
      by apply (refuse_Raise_app _ _ _ ((L1 ++ L2) ++ L3) _ _ H4)].
  destruct H4 as [-> [-> F4]].
  match goal with |- context [(_ ++ L3) ++ ?d] => set (L4 := d) in * end.
  pose proof (seccomp_step_spec spec av c (((([] ++ L1) ++ L2) ++ L3) ++ L4)) as H5.
  unfold seccomp_step in H5. cbv zeta in H5.
  match type of H5 with match ?r with _ => _ end => destruct r as [[[[eff h] av'] sk5]|e] end;
    cbn [rbind].
  - destruct H5 as ([-> F5] & -> & _). cbn [skipped plan_spec effective]. split_and!; [| |done|].
    + by rewrite <- !app_assoc.
    + intros Hf. by rewrite F1, F2, F3, F4, F5.
    + f_equal. destruct (bool_decide _ && negb (has_helper c)); done.
  - rewrite !app_assoc, <- (app_nil_r (opt_label _ §"seccomp:helper")).
    exact (refuse_Raise_app _ _ _ (((L1 ++ L2) ++ L3) ++ L4) _ [] H5).
Qed.

Lemma features_split c s :
  features s ≡ₚ features {|
    profile := profile s; failure := failure s;
    namespaces := List.filter (has_namespace c) (namespaces s);
    no_new_privs := no_new_privs s && has_prctl c;
    dumpable := if has_prctl c then dumpable s else None;
    rlimits := List.filter (has_limit c) (rlimits s);
    seccomp := if bool_decide (mode (seccomp s) = §"helper") && negb (has_helper c)
               then seccomp_default else seccomp s |} ++ missing c s.
Proof.
  unfold features, missing. cbn [namespaces no_new_privs dumpable rlimits seccomp].
  assert (forall b d l, opt_label b l ≡ₚ opt_label (b && d) l ++ opt_label (b && negb d) l) as Hopt
    by (by intros [] [] l).
  rewrite (filter_split_perm (has_namespace c) (namespaces s)) at 1.
  rewrite (filter_split_perm (has_limit c) (rlimits s)) at 1.
  rewrite !fmap_app. rewrite (Hopt (no_new_privs s) (has_prctl c)).
  assert (is_some (if has_prctl c then dumpable s else None) = is_some (dumpable s) && has_prctl c) as ->.
  { destruct (has_prctl c), (dumpable s); done. }
  rewrite (Hopt (is_some (dumpable s)) (has_prctl c)).
  assert (bool_decide (mode (if bool_decide (mode (seccomp s) = §"helper") && negb (has_helper c)
             then seccomp_default else seccomp s) = §"helper")
          = bool_decide (mode (seccomp s) = §"helper") && has_helper c) as ->.
  { destruct (decide (mode (seccomp s) = §"helper")) as [E|E].
    - rewrite (bool_decide_eq_true_2 _ E). destruct (has_helper c); [|done]. cbn.
      by apply bool_decide_eq_true_2.
    - rewrite (bool_decide_eq_false_2 _ E). cbn. by apply bool_decide_eq_false_2. }
  rewrite (Hopt (bool_decide _) (has_helper c)). solve_Permutation.
Qed.

(** With nothing missing the effective specification is the requested one. *)
Lemma missing_nil c s : missing c s = [] ->
  {| profile := profile s; failure := failure s;
     namespaces := List.filter (has_namespace c) (namespaces s);
     no_new_privs := no_new_privs s && has_prctl c;
     dumpable := if has_prctl c then dumpable s else None;
     rlimits := List.filter (has_limit c) (rlimits s);
     seccomp := if bool_decide (mode (seccomp s) = §"helper") && negb (has_helper c)
                then seccomp_default else seccomp s |} = s.
Proof.
  unfold missing. intros [H1 [H2 [H3 [H4 H5]%app_nil]%app_nil]%app_nil]%app_nil.
  apply fmap_nil_inv in H1, H4.
  assert (forall b l, opt_label b l = [] -> b = false) as Hopt by (by intros []).
  apply Hopt in H2, H3, H5. rewrite H5.
  rewrite (filter_none_missing _ _ H1), (filter_none_missing _ _ H4).
  destruct s as [pr fa ns np du rl se]; cbn [no_new_privs dumpable] in *. f_equal.
  - by destruct np, (has_prctl c).
  - by destruct du, (has_prctl c).
Qed.

(* ------------------------------------------------------------------ *)
(** ** The calls the child makes *)

Section PreexecFacts.
Context `{Kernel}.

Definition user_flag : Z := 0x10000000.
Definition setgroups_call : syscall :=
  SysWriteMapping §"/proc/self/setgroups" (§"deny" ++ newline).
Definition mapping_calls : list syscall :=
  [setgroups_call;
   SysWriteMapping §"/proc/self/uid_map" (§"0 " ++ dec_Z uid ++ §" 1" ++ newline);
   SysWriteMapping §"/proc/self/gid_map" (§"0 " ++ dec_Z gid ++ §" 1" ++ newline)].

Definition namespace_calls (s : IsolationSpec) (n : pystr) : list syscall :=
  if bool_decide (n = §"user") || negb (bool_decide (n ∈ namespaces s)) then []
  else match dget NAMESPACE_FLAGS n with
       | Some f => SysUnshare f ::
           (if bool_decide (n = §"mount") then [SysMountPrivate (Z.lor MS_REC MS_PRIVATE)] else [])
       | None => []
       end.

(** Everything a specification asks of the kernel, in the order required:
    the user namespace and its mappings, the other namespaces with the mount
    propagation change right after the mount namespace, then the privilege
    bits and the limits by name. *)
Definition plan_calls (s : IsolationSpec) : list syscall :=
  (if bool_decide (§"user" ∈ namespaces s) then SysUnshare user_flag :: mapping_calls else [])
  ++ (NAMESPACE_ORDER ≫= namespace_calls s)
  ++ (if no_new_privs s then [SysPrctl PR_SET_NO_NEW_PRIVS 1] else [])
  ++ (match dumpable s with
      | Some b => [SysPrctl PR_SET_DUMPABLE (if b then 1 else 0)] | None => [] end)
  ++ ((fun p => SysSetrlimit p.1 (soft p.2) (hard p.2)) <$> sorted_items (rlimits s)).

(** The kernel granted the call; only [setgroups] may be absent. *)
Definition granted (h : list event) (c : syscall) : Prop :=
  answer h c = SysOk \/ (c = setgroups_call /\ answer h c = SysMissing).

Fixpoint all_granted (h : list event) (cs : list syscall) : Prop :=
  match cs with
  | [] => True
  | c :: cs => granted h c /\ all_granted (h ++ [Call c]) cs
  end.

(** A computation that, when it returns, made exactly the calls [cs]. *)
Definition emits {A} (m : M A) (cs : list syscall) (Q : A -> Prop) : Prop :=
  forall h h' a, m h = (h', Ok a) ->
    h' = h ++ (Call <$> cs) /\ all_granted h cs /\ Q a.

Lemma all_granted_app h cs1 cs2 :
  all_granted h (cs1 ++ cs2) <->
  all_granted h cs1 /\ all_granted (h ++ (Call <$> cs1)) cs2.
Proof.
  revert h; induction cs1 as [|c cs1 IH]; intros h; simpl; [rewrite app_nil_r; tauto|].
  rewrite IH, <- app_assoc. simpl. tauto.
Qed.

Lemma emits_return {A} (a : A) (Q : A -> Prop) : Q a -> emits (mreturn a) [] Q.
Proof. intros HQ h h' a' [= <- <-]. simpl. by rewrite app_nil_r. Qed.

Lemma emits_then {A B} (m : M A) (f : A -> M B) cs1 cs2 Q R :
  emits m cs1 Q -> (forall a, Q a -> emits (f a) cs2 R) -> emits (mthen m f) (cs1 ++ cs2) R.
Proof.
  intros Hm Hf h h' b. unfold mthen. destruct (m h) as [h1 [a|e]] eqn:Hmh; [|done].
  intros Hfh. destruct (Hm _ _ _ Hmh) as (-> & H1 & Ha).
  destruct (Hf a Ha _ _ _ Hfh) as (-> & H2 & Hb).
  rewrite fmap_app, app_assoc. split_and!; [done|by apply all_granted_app|done].
Qed.

Lemma emits_sys c : emits (sys c) [c] (fun _ => True).
Proof.
  intros h h' a. unfold sys. destruct (answer h c) eqn:Ha; intros [= <-].
  split_and!; [done|split; [by left|done]|done].
Qed.

Lemma emits_mapping path value optional :
  (optional = true -> SysWriteMapping path value = setgroups_call) ->
  emits (_write_mapping path value optional) [SysWriteMapping path value] (fun _ => True).
Proof.
  intros Hopt h h' a. unfold _write_mapping. destruct (answer h _) eqn:Ha.
  - intros [= <-]. split_and!; [done|split; [by left|done]|done].
  - destruct optional; intros [= <-]. split_and!; [done|split; [right; auto|done]|done].
  - intros [= <-].
Qed.

Lemma emits_try {A} (m : M A) hd cs Q :
  emits m cs Q -> (forall e h h' a, hd e h = (h', Ok a) -> False) -> emits (mtry m hd) cs Q.
Proof.
  intros Hm Hhd h h' a. unfold mtry. destruct (m h) as [h1 [a1|e]] eqn:Hmh.
  - intros [= <- <-]. by apply Hm.
  - intros He. by apply Hhd in He.
Qed.

Lemma emits_apply s label op cs :
  failure s = FAIL_CLOSED -> emits op cs (fun _ => True) ->
  emits (_apply s label op) cs (fun b => b = true).
Proof.
  intros Hf Hop. unfold _apply. apply emits_try.
  - rewrite <- (app_nil_r cs). eapply emits_then; [exact Hop|]. intros [] _. by apply emits_return.
  - intros e h h' a. case_bool_decide; [done|]. by rewrite bool_decide_eq_true_2.
Qed.

Lemma emits_drop {A} (m : M A) cs Q : emits m cs Q -> emits (mdrop m) cs (fun _ => True).
Proof.
  intros Hm. unfold mdrop. rewrite <- (app_nil_r cs).
  eapply emits_then; [exact Hm|]. intros. by apply emits_return.
Qed.

Lemma emits_for {A} (l : list A) (f : A -> M ()) (cs : A -> list syscall) :
  (forall x, x ∈ l -> emits (f x) (cs x) (fun _ => True)) ->
  emits (mfor l f) (l ≫= cs) (fun _ => True).
Proof.
  induction l as [|x l IH]; intros Hl; [by apply emits_return|].
  cbn [mfor]. rewrite bind_cons. eapply emits_then; [apply Hl; set_solver|].
  intros _ _. apply IH. set_solver.
Qed.

Lemma emits_user_namespace :
  emits enter_user_namespace (SysUnshare user_flag :: mapping_calls) (fun _ => True).
Proof.
  unfold enter_user_namespace. apply (emits_then _ _ [_] _ _ _ (emits_sys (SysUnshare user_flag))).
  intros _ _. apply emits_try; [|done]. unfold mapping_calls.
  apply (emits_then _ _ [_] [_; _] (fun _ => True)); [by apply emits_mapping|]. intros _ _.
  apply (emits_then _ _ [_] [_] (fun _ => True)); [by apply emits_mapping|]. intros _ _.
  by apply emits_mapping.
Qed.

Lemma emits_namespace s n :
  failure s = FAIL_CLOSED -> n ∈ NAMESPACE_ORDER ->
  emits (enter_namespace s n) (namespace_calls s n) (fun _ => True).
Proof.
  intros Hf Hn. unfold enter_namespace, namespace_calls.
  destruct (bool_decide (n = §"user") || _); [by apply emits_return|].
  assert (exists f, dget NAMESPACE_FLAGS n = Some f) as [f Hflag].
  { repeat (apply elem_of_cons in Hn as [->|Hn]; [eexists; reflexivity|]).
    by apply not_elem_of_nil in Hn. }
  rewrite Hflag. unfold backend_unshare. rewrite Hflag.
  eapply (emits_then _ _ [_]); [by apply emits_apply, emits_sys|].
  intros b ->. rewrite andb_true_r. case_bool_decide; [|by apply emits_return].
  apply (emits_drop _ _ (fun b => b = true)). by apply emits_apply, emits_sys.
Qed.

Lemma preexec_emits s :
  failure s = FAIL_CLOSED -> emits (preexec s) (plan_calls s) (fun _ => True).
Proof.
  intros Hf. unfold preexec, preexec_rest, plan_calls.
  apply (emits_then _ _ _ _ (fun _ => True)).
  { case_bool_decide; [|by apply emits_return]. eapply emits_drop, emits_apply; [done|].
    apply emits_user_namespace. }
  intros _ _. apply (emits_then _ _ _ _ (fun _ => True)).
  { apply emits_for. intros. by apply emits_namespace. }
  intros _ _. apply (emits_then _ _ _ _ (fun _ => True)).
  { destruct (no_new_privs s); [|by apply emits_return].
    eapply emits_drop, emits_apply; [done|]. apply emits_sys. }
  intros _ _. apply (emits_then _ _ _ _ (fun _ => True)).
  { destruct (dumpable s); [|by apply emits_return].
    eapply emits_drop, emits_apply; [done|]. apply emits_sys. }
  intros _ _.
  assert (forall l : list (pystr * RlimitSpec),
    (fun p => SysSetrlimit p.1 (soft p.2) (hard p.2)) <$> l =
    l ≫= fun p => [SysSetrlimit p.1 (soft p.2) (hard p.2)]) as ->.
  { intros l. induction l as [|p l IH]; [done|]. rewrite bind_cons, <- IH. done. }
  apply emits_for. intros p _. eapply emits_drop, emits_apply; [done|]. apply emits_sys.
Qed.

(** *** Failures *)

(** How a computation may raise: trace before, trace after, exception. *)
Definition raises {A} (m : M A) (P : list event -> list event -> exn -> Prop) : Prop :=
  forall h h' e, m h = (h', Raise e) -> P h h' e.

(** The policy's own exception. *)
Definition refused (s : IsolationSpec) (e : exn) : Prop :=
  exn_type e = IsolationUnavailable /\ failure s = FAIL_CLOSED.

Lemma raises_apply s label op :
  raises op (fun _ _ e => exn_type e ≠ PartialIsolationError) ->
  raises (_apply s label op) (fun _ _ e => refused s e).
Proof.
  intros Hop h h' e. unfold _apply, mtry, mthen at 1.
  destruct (op h) as [h1 [u|e1]] eqn:Hoh; [done|].
  apply Hop in Hoh. rewrite bool_decide_eq_false_2 by done.
  case_bool_decide; [|done]. intros [= _ <-]. done.
Qed.

Lemma raises_sys c : raises (sys c) (fun _ _ e => exn_type e ≠ PartialIsolationError).
Proof. intros h h' e. unfold sys. destruct (answer h c); intros [= <- <-]; done. Qed.

Lemma raises_unshare n : raises (backend_unshare n) (fun _ _ e => exn_type e ≠ PartialIsolationError).
Proof.
  unfold backend_unshare. destruct (dget _ _); [apply raises_sys|]. by intros h h' e [= <- <-].
Qed.

Lemma raises_then {A B} (m : M A) (f : A -> M B) (P : exn -> Prop) :
  raises m (fun _ _ e => P e) -> (forall a, raises (f a) (fun _ _ e => P e)) ->
  raises (mthen m f) (fun _ _ e => P e).
Proof.
  intros Hm Hf h h' e. unfold mthen. destruct (m h) as [h1 [a|e1]] eqn:Hmh.
  - apply Hf.
  - intros [= <- <-]. by eapply Hm.
Qed.

Lemma raises_return {A} (a : A) (P : exn -> Prop) : raises (mreturn a) (fun _ _ e => P e).
Proof. done. Qed.

Lemma raises_drop {A} (m : M A) (P : exn -> Prop) :
  raises m (fun _ _ e => P e) -> raises (mdrop m) (fun _ _ e => P e).
Proof. intros. apply raises_then; [done|]. intros. apply raises_return. Qed.

Lemma raises_for {A} (l : list A) (f : A -> M ()) (P : exn -> Prop) :
  (forall x, raises (f x) (fun _ _ e => P e)) -> raises (mfor l f) (fun _ _ e => P e).
Proof.
  intros Hf. induction l as [|x l IH]; [apply raises_return|]. by apply raises_then.
Qed.

Lemma raises_namespace s n : raises (enter_namespace s n) (fun _ _ e => refused s e).
Proof.
  unfold enter_namespace. case_match; [apply raises_return|].
  apply raises_then; [apply raises_apply, raises_unshare|]. intros b.
  destruct (_ && b); [|apply raises_return]. apply raises_drop, raises_apply, raises_sys.
Qed.

(** A half-entered user namespace: the trace ends with its diagnostic. *)
Definition half_user_namespace (h h' : list event) (e : exn) : Prop :=
  exn_type e = PartialIsolationError /\ answer h (SysUnshare user_flag) = SysOk /\
  exists cs, cs `prefix_of` mapping_calls /\
    h' = h ++ Call (SysUnshare user_flag) :: (Call <$> cs) ++ [Diag §"aborting" §"namespace:user"].

Lemma raises_user_namespace s :
  raises (_apply s §"namespace:user" enter_user_namespace)
    (fun h h' e => refused s e \/ half_user_namespace h h' e).
Proof.
  intros h h' e. unfold _apply, mtry at 1, mthen at 1, enter_user_namespace, mthen at 1.
  change (backend_unshare §"user") with (sys (SysUnshare user_flag)). unfold sys at 1.
  destruct (answer h (SysUnshare user_flag)) eqn:Ha; cbn beta iota;
    try (case_bool_decide; [done|]; case_bool_decide; [|done];
         intros [= _ <-]; by left).
  intros Hr. right. unfold half_user_namespace. unfold mtry, mthen, _write_mapping in Hr.
  fold setgroups_call in Hr.
  repeat match type of Hr with context [answer ?x ?c] => destruct (answer x c); cbn beta iota in Hr end;
    try discriminate Hr;
    cbn [exn_type mraise] in Hr; injection Hr as <- <-; (split; [done|]); (split; [done|]);
    rewrite <- ?app_assoc.
  all: first [ exists [setgroups_call]; split; [by apply prefix_cons, prefix_nil|done]
             | exists (take 2 mapping_calls); split; [apply prefix_take|done]
             | exists mapping_calls; split; [done|done] ].
Qed.

Lemma raises_rest s : raises (preexec_rest s) (fun _ _ e => refused s e).
Proof.
  unfold preexec_rest.
  apply raises_then; [apply raises_for; intros; apply raises_namespace|]. intros _.
  apply raises_then; [destruct (no_new_privs s); [|apply raises_return];
    apply raises_drop, raises_apply, raises_sys|]. intros _.
  apply raises_then; [destruct (dumpable s); [|apply raises_return];
    apply raises_drop, raises_apply, raises_sys|]. intros _.
  apply raises_for. intros. apply raises_drop, raises_apply, raises_sys.
Qed.

Lemma preexec_raises s h h' e :
  preexec s h = (h', Raise e) ->
  refused s e \/ (§"user" ∈ namespaces s /\ half_user_namespace h h' e).
Proof.
  unfold preexec. unfold mthen at 1. case_bool_decide as Hu; cbn [mwhen].
  - unfold mdrop, mthen at 1.
    destruct (_apply s _ enter_user_namespace h) as [h1 [b|e1]] eqn:Ha; cbn beta iota.
    + intros Hh. left. exact (raises_rest s _ _ _ Hh).
    + intros [= -> ->]. apply raises_user_namespace in Ha as [?|?]; auto.
  - intros Hh. left. exact (raises_rest s _ _ _ Hh).
Qed.
End PreexecFacts.

(* ------------------------------------------------------------------ *)
(** ** Properties *)

(** Every declaration [parse_isolation] accepts yields a well-formed
    specification: a known profile and policy, distinct supported namespaces,
    supported limits with [0 <= soft <= hard], a known seccomp mode, and a
    seccomp helper only together with [no_new_privs]. *)
Theorem parse_isolation_wf `{PyLib} `{PyRepr} `{Platform} value s :
  parse_isolation value = Ok s -> spec_wf s.
Proof. apply parse_isolation_spec_wf. Qed.

Lemma parse_isolation_wf_witness :
  exists s, parse_isolation (VDict [(§"profile", VStr §"namespaced");
      (§"rlimits", VDict [(§"nproc", VNone); (§"as", VDict [(§"soft", VInt 5)])])]) = Ok s /\
    spec_wf s.
Proof.
  eexists. split; [vm_compute; reflexivity|].
  apply (parse_isolation_wf (VDict [(§"profile", VStr §"namespaced");
      (§"rlimits", VDict [(§"nproc", VNone); (§"as", VDict [(§"soft", VInt 5)])])])).
  vm_compute. reflexivity.
Defined.

(** A component that declares isolation and omits the policy gets
    fail-closed; only the absence of the whole declaration is best-effort, and
    then nothing at all is requested. *)
Theorem omitted_policy_is_fail_closed `{PyLib} `{PyRepr} `{Platform} value s :
  parse_isolation value = Ok s ->
  match value with
  | VNone => failure s = BEST_EFFORT /\ requested s = false
  | VDict raw => dget raw §"failure" = None -> failure s = FAIL_CLOSED
  | _ => failure s = FAIL_CLOSED
  end.
Proof.
  unfold parse_isolation. destruct value; try done; unfold parse_isolation_object; intros Hs;
    inv_result; cbn [failure]; [done|done|].
  intros Hd. unfold dget_or. by rewrite Hd.
Qed.

Lemma omitted_policy_is_fail_closed_witness :
  exists s, parse_isolation (VStr §"baseline") = Ok s /\ failure s = FAIL_CLOSED.
Proof.
  eexists. split; [vm_compute; reflexivity|].
  apply (omitted_policy_is_fail_closed (VStr §"baseline")). vm_compute. reflexivity.
Defined.

(** [prepare_isolation_launch] loses nothing silently.  A plan partitions
    the requested features into those still effective and those reported as
    skipped, and the skipped ones are exactly those the host lacks; under
    fail-closed the plan is the whole request, and the launch is refused with
    [IsolationUnavailable] only under that policy and only if a feature is
    missing. *)
Theorem prepare_isolation_launch_accounts spec av caps :
  match prepare_isolation_launch spec av caps with
  | Ok p =>
      features spec ≡ₚ features (effective p) ++ skipped p /\
      skipped p = missing caps spec /\
      (failure spec = FAIL_CLOSED -> effective p = spec)
  | Raise e =>
      exn_type e = IsolationUnavailable /\ failure spec = FAIL_CLOSED /\ missing caps spec ≠ []
  end.
Proof.
  pose proof (prepare_outcome spec av caps) as Hp. pose proof (features_split caps spec) as Hf.
  destruct (prepare_isolation_launch spec av caps) as [p|e]; [|done].
  destruct Hp as (-> & Hfc & _ & ->). split_and!; [done|done|].
  intros Hc. apply missing_nil. auto.
Qed.

(** Under fail-closed, a child whose isolation hook returns has made every
    call its specification requires, in order, and the kernel granted each of
    them (only [setgroups] may be absent). *)
Theorem preexec_fail_closed_complete `{Kernel} spec h h' :
  failure spec = FAIL_CLOSED -> preexec spec h = (h', Ok tt) ->
  h' = h ++ (Call <$> plan_calls spec) /\ all_granted h (plan_calls spec).
Proof.
  intros Hf Hp. destruct (preexec_emits spec Hf h h' tt Hp) as (? & ? & _). done.
Qed.

Definition granting_kernel : Kernel := {| answer _ _ := SysOk; uid := 1000; gid := 1000 |}.

Definition sample_spec : IsolationSpec := {|
  profile := §"custom"; failure := FAIL_CLOSED; namespaces := [§"mount"; §"user"];
  no_new_privs := true; dumpable := Some false;
  rlimits := [(§"nofile", {| soft := 512; hard := 1024 |}); (§"core", {| soft := 0; hard := 0 |})];
  seccomp := seccomp_default |}.

Lemma preexec_fail_closed_complete_witness :
  exists h', @preexec granting_kernel sample_spec [] = (h', Ok tt) /\
    h' = [] ++ (Call <$> @plan_calls granting_kernel sample_spec) /\
    @all_granted granting_kernel [] (@plan_calls granting_kernel sample_spec).
Proof.
  eexists. split; [vm_compute; reflexivity|].
  apply (@preexec_fail_closed_complete granting_kernel sample_spec); vm_compute; reflexivity.
Defined.

(** Whatever the kernel answers, the hook raises only the policy's own
    [IsolationUnavailable] under fail-closed, or [PartialIsolationError] for a
    user namespace that was entered but not mapped, and in that case nothing
    was attempted after the mappings, under either policy. *)
Theorem preexec_failure_modes `{Kernel} spec h h' e :
  preexec spec h = (h', Raise e) ->
  (exn_type e = IsolationUnavailable /\ failure spec = FAIL_CLOSED) \/
  (exn_type e = PartialIsolationError /\ §"user" ∈ namespaces spec /\
   answer h (SysUnshare user_flag) = SysOk /\
   exists cs, cs `prefix_of` mapping_calls /\
     h' = h ++ Call (SysUnshare user_flag) :: (Call <$> cs) ++ [Diag §"aborting" §"namespace:user"]).
Proof.
  intros Hp. apply preexec_raises in Hp as [Hr|(Hu & ? & ? & ?)]; [by left|right]. auto.
Qed.

(** A kernel that lets the namespace be entered and then refuses [uid_map]. *)
Definition unmapped_kernel : Kernel := {|
  answer _ c := match c with SysWriteMapping _ _ => SysFail §"EPERM" | _ => SysOk end;
  uid := 0; gid := 0 |}.

Lemma preexec_failure_modes_witness :
  let e := Exn PartialIsolationError §"user namespace mapping failed: EPERM" in
  exists h', @preexec unmapped_kernel sample_spec [] = (h', Raise e) /\
   ((exn_type e = IsolationUnavailable /\ failure sample_spec = FAIL_CLOSED) \/
    (exn_type e = PartialIsolationError /\ §"user" ∈ namespaces sample_spec /\
     @answer unmapped_kernel [] (SysUnshare user_flag) = SysOk /\
     exists cs, cs `prefix_of` @mapping_calls unmapped_kernel /\
       h' = [] ++ Call (SysUnshare user_flag) :: (Call <$> cs) ++ [Diag §"aborting" §"namespace:user"])).
Proof.
  intros e. eexists. split; [vm_compute; reflexivity|].
  apply (@preexec_failure_modes unmapped_kernel sample_spec). vm_compute. reflexivity.
Defined.
End Isolation.
