(* ===== verification/HostProbe.v ===== *)
(** * What the host offers to isolation ([msys_core/isolation.py])

    The probing of the host's capabilities, the choice of the seccomp helper and
    the capabilities a supervisor keeps ([msys_core/msysd.py]): from these
    [Isolation.prepare_isolation_launch] makes its plans. *)

From S2P Require Export Isolation.

Module HostProbe.
Import Isolation.

(** The interpreter's host: [sys.platform]; whether the C library can be loaded
    and has [prctl] and [unshare]; files; [shutil.which]. *)
Class Host := {
  platform : pystr;
  c_library : option (bool * bool);
  file_exists : pystr -> bool;
  is_file : pystr -> bool;
  may_execute : pystr -> bool;
  resolved : pystr -> pystr;
  which : pystr -> option pystr;
  environ : dict pystr pystr;
}.

Definition NAMESPACE_PROC_NAMES : dict pystr pystr :=
  [(§"user", §"user"); (§"mount", §"mnt"); (§"ipc", §"ipc"); (§"uts", §"uts"); (§"network", §"net")].

Definition namespace_file (proc_name : pystr) : pystr := §"/proc/self/ns/" ++ proc_name.

Section HostProbe.
Context `{PyLib} `{PyRepr} `{Platform} `{Host}.

(** A command with a slash is a path, absolute or not. *)
Definition resolve_executable (command : option pystr) : option pystr :=
  match command with
  | None | Some [] => None
  | Some c =>
      if str_has 47 c then if is_file c && may_execute c then Some (resolved c) else None
      else which c
  end.

Definition detect_capabilities (seccomp_helper : option pystr) : IsolationCapabilities :=
  let linux := str_startswith §"linux" platform in
  let '(prctl, unshare) := if linux then default (false, false) c_library else (false, false) in
  {| linux := linux; prctl := prctl; unshare := unshare;
     cap_namespaces := dkeys (filter (fun kv => (unshare && file_exists (namespace_file kv.2)) = true) NAMESPACE_PROC_NAMES);
     cap_rlimits := if linux then RLIMIT_RESOURCES else [];
     seccomp_helper := if linux then resolve_executable seccomp_helper else None |}.

(** [Msysd._seccomp_helper]: the profile's setting, else the environment's. *)
Definition _seccomp_helper (profile : dict pystr pyval) : option pystr :=
  let configured :=
    match dget_or profile §"isolation" (VDict []) with
    | VDict settings => dget_or settings §"seccomp_helper" VNone
    | _ => VNone
    end in
  let value :=
    py_or configured (match dget environ §"MSYS_SECCOMP_HELPER" with Some v => VStr v | None => VNone end) in
  if truthy value then Some (py_str value) else None.

(** [Msysd._runtime_isolation_capabilities]: probed once. *)
Definition _runtime_isolation_capabilities (profile : dict pystr pyval) (kept : option IsolationCapabilities)
    : IsolationCapabilities * option IsolationCapabilities :=
  let capabilities := match kept with Some c => c | None => detect_capabilities (_seccomp_helper profile) end in
  (capabilities, Some capabilities).

(* ------------------------------------------------------------------ *)
(** ** Plans of a probed host *)

(** The features of the host, by the labels of a plan. *)
Definition offers_namespace (n : pystr) : Prop :=
  exists f, dget NAMESPACE_PROC_NAMES n = Some f /\ file_exists (namespace_file f) = true /\ exists p, c_library = Some (p, true).
Definition offers_prctl : Prop := exists u, c_library = Some (true, u).

(** What [command] runs: an executable regular file at a path with a slash, or
    what the search path finds. *)
Definition runs (command helper : pystr) : Prop :=
  (47 ∈ command /\ is_file command = true /\ may_execute command = true /\ helper = resolved command) \/
  (~ 47 ∈ command /\ which command = Some helper).

Lemma resolve_runs command helper : resolve_executable command = Some helper ->
  exists c, command = Some c /\ runs c helper.
Proof.
  unfold resolve_executable. destruct command as [[|x c]|]; [done| |done]. intros Hc. exists (x :: c). split; [done|].
  destruct (str_has 47 (x :: c)) eqn:Hs.
  - left. apply str_has_spec in Hs. destruct (is_file _) eqn:Hf, (may_execute _) eqn:Hx; try done. by injection Hc as <-.
  - right. split; [|done]. intros Hin%str_has_spec. congruence.
Qed.

Lemma detected_namespace helper n : n ∈ cap_namespaces (detect_capabilities helper) -> offers_namespace n.
Proof.
  unfold detect_capabilities, offers_namespace. destruct (str_startswith _ _); cbn [default].
  - destruct c_library as [[p u]|]; cbn [default from_option id cap_namespaces];
      intros ([k f] & -> & [Hb Hin]%list_elem_of_filter)%list_elem_of_fmap; cbn [fst snd] in *; [|done].
    apply andb_true_iff in Hb as [-> Hb]. exists f. split_and!; [|done|by eexists].
    revert Hin. clear. intros Hin. repeat (apply elem_of_cons in Hin as [[= -> ->]|Hin]; [reflexivity|]).
    by apply not_elem_of_nil in Hin.
  - cbn [cap_namespaces]. intros ([k f] & _ & [Hb _]%list_elem_of_filter)%list_elem_of_fmap. done.
Qed.

Lemma elem_of_filterb {A} (f : A -> bool) l x : x ∈ List.filter f l <-> x ∈ l /\ f x = true.
Proof. by rewrite !list_elem_of_In, filter_In. Qed.

Lemma plan_helper_known spec av c p h : prepare_isolation_launch spec av c = Ok p -> plan_helper p = Some h ->
  linux c = true /\ seccomp_helper c = Some h /\ argv p = [h; §"--profile"; seccomp_profile (seccomp spec); §"--"] ++ av.
Proof.
  unfold prepare_isolation_launch. intros ([ns sk] & _ & Hp)%bind_Ok. apply bind_Ok in Hp as (sk2 & _ & Hp).
  apply bind_Ok in Hp as (sk3 & _ & Hp). apply bind_Ok in Hp as ([lim sk4] & _ & Hp).
  apply bind_Ok in Hp as ([[[eff hlp] av'] sk5] & Hs & [= <-]). cbn [plan_helper argv].
  destruct (bool_decide (mode (seccomp spec) = §"helper")) eqn:Hm.
  - destruct (seccomp_helper c) as [h'|]; [destruct (linux c)|].
    + injection Hs as <- <- <- <-. rewrite Hm. by intros [= ->].
    + apply bind_Ok in Hs as (? & _ & [= <- <- <- <-]). done.
    + apply bind_Ok in Hs as (? & _ & [= <- <- <- <-]). done.
  - injection Hs as <- <- <- <-. by rewrite Hm.
Qed.

(** A plan made for this host asks only for what the host has: namespaces the
    kernel lists under [/proc/self/ns], with [unshare]; [prctl]; limits the
    platform defines; and its command runs the helper that was configured. *)
Theorem plan_runs_on_this_host spec av helper p :
  prepare_isolation_launch spec av (detect_capabilities helper) = Ok p ->
  (forall n, n ∈ namespaces (effective p) -> offers_namespace n) /\
  (no_new_privs (effective p) = true \/ is_Some (dumpable (effective p)) -> offers_prctl) /\
  (forall kv, kv ∈ rlimits (effective p) -> kv.1 ∈ RLIMIT_RESOURCES) /\
  (forall h, plan_helper p = Some h -> exists c, helper = Some c /\ runs c h /\
     argv p = [h; §"--profile"; seccomp_profile (seccomp spec); §"--"] ++ av).
Proof.
  intros Hp. pose proof (prepare_outcome spec av (detect_capabilities helper)) as Ho. rewrite Hp in Ho.
  destruct Ho as (_ & _ & _ & ->). cbn [namespaces no_new_privs dumpable rlimits]. split_and!.
  - intros n Hn. apply elem_of_filterb in Hn as [_ Hn]. unfold has_namespace in Hn.
    apply andb_true_iff in Hn as [_ Hn%bool_decide_eq_true]. by eapply detected_namespace.
  - intros Hn. assert (has_prctl (detect_capabilities helper) = true) as Hc.
    { destruct (has_prctl _); [done|]. destruct Hn as [Hn|[? Hn]]; [by rewrite andb_false_r in Hn|done]. }
    unfold has_prctl, detect_capabilities, offers_prctl in *. destruct (str_startswith _ _); [|done].
    destruct c_library as [[pr u]|]; cbn in Hc; [|done]. subst pr. by eexists.
  - intros kv Hkv. apply elem_of_filterb in Hkv as [_ Hkv]. unfold has_limit, detect_capabilities in Hkv.
    apply andb_true_iff in Hkv as [Hl Hkv%bool_decide_eq_true]. destruct (str_startswith _ _); [|done].
    by destruct (default (false, false) c_library).
  - intros h Hh. destruct (plan_helper_known _ _ _ _ _ Hp Hh) as (Hl & Hs & Ha).
    unfold detect_capabilities in Hl, Hs. destruct (str_startswith _ _).
    + destruct (default (false, false) c_library); cbn in Hs. destruct (resolve_runs _ _ Hs) as (c & -> & Hr).
      exists c. by split_and!.
    + done.
Qed.

(** Probing happens once in the life of a supervisor. *)
Lemma capabilities_kept profile kept :
  let '(c, kept') := _runtime_isolation_capabilities profile kept in
  _runtime_isolation_capabilities profile kept' = (c, Some c).
Proof. by destruct kept. Qed.
End HostProbe.

(* ------------------------------------------------------------------ *)
(** ** Witness *)

Definition sample_host : Host :=
  {| platform := §"linux"; c_library := Some (true, true); file_exists f := bool_decide (f ≠ §"/proc/self/ns/uts");
     is_file _ := true; may_execute _ := true; resolved c := c; which _ := None; environ := [] |}.

Lemma plan_runs_on_this_host_witness : exists p,
  prepare_isolation_launch sample_spec [§"/bin/app"] (@detect_capabilities linux_platform sample_host None) = Ok p /\
  namespaces (effective p) = [§"mount"; §"user"] /\ @offers_namespace sample_host §"mount".
Proof.
  destruct (prepare_isolation_launch sample_spec [§"/bin/app"] (@detect_capabilities linux_platform sample_host None))
    as [p|e] eqn:Hp; [|vm_compute in Hp; discriminate Hp].
  exists p. split; [reflexivity|].
  assert (namespaces (effective p) = [§"mount"; §"user"]) as Hn.
  { transitivity (match prepare_isolation_launch sample_spec [§"/bin/app"] (@detect_capabilities linux_platform sample_host None)
      with Ok p => namespaces (effective p) | Raise _ => [] end); [by rewrite Hp|vm_compute; reflexivity]. }
  split; [exact Hn|]. destruct (@plan_runs_on_this_host linux_platform sample_host _ _ _ _ Hp) as [Hns _]. apply Hns. rewrite Hn. constructor.
Defined.
End HostProbe.
