(* ===== verification/Manifest.v ===== *)
(** * Package manifests ([msys_core/manifest.py])

    From a JSON manifest to [Component] records, the component catalogs built
    from several manifests, and the package-atomic replacement of one catalog
    by another. *)

From Stdlib Require Import ZArith.
From S2P Require Export PyPath Isolation.

Module Manifest.
Import Isolation.

Definition MIN_IDLE_TIMEOUT_MS : Z := 1000.
Definition MAX_IDLE_TIMEOUT_MS : Z := 86400000.

Record Provide := {
  kind : pystr;
  name : pystr;
  exclusive : bool;
  priority : Z;
}.

Record Component := {
  package_id : pystr;
  package_version : pystr;
  id : pystr;
  exec : list pystr;
  lifecycle : pystr;
  package_kind : pystr;
  package_name : pystr;
  package_icons : list pyval;
  runtime : pystr;
  restart : pystr;
  idle_timeout_ms : option Z;
  cwd : option pystr;
  env : dict pystr pystr;
  readiness_mode : pystr;
  readiness_timeout_ms : Z;
  provides : list Provide;
  requires : list pystr;
  wants : list pystr;
  after : list pystr;
  windowing : dict pystr pyval;
  activation : dict pystr pyval;
  permissions : list pystr;
  isolation : IsolationSpec;
  raw : dict pystr pyval;
  manifest_path : option ppath;
  package_summary : pystr;
  package_i18n : pyval;
}.

Definition key_of (package component : pystr) : pystr := package ++ §":" ++ component.

(** [Component.key] *)
Definition key (c : Component) : pystr := key_of (package_id c) (id c).

Definition value_error (m : pystr) : exn := Exn ValueError m.

Section Load.
Context `{PyLib} `{PyRepr} `{Platform}.

Definition provide_of (k : pystr) (exclusive_default : bool) (raw : pyval) : py Provide :=
  n ← py_item raw k;
  e ← py_get raw §"exclusive" (VBool exclusive_default);
  p ← py_get raw §"priority" (VInt 0);
  p ← py_int p;
  Ok {| kind := k; name := py_str n; exclusive := truthy e; priority := p |}.

Definition _provide (raw : pyval) : py Provide :=
  has_role ← py_contains §"role" raw;
  if (has_role : bool) then provide_of §"role" true raw else
  has_interface ← py_contains §"interface" raw;
  if (has_interface : bool) then provide_of §"interface" false raw else
  has_capability ← py_contains §"capability" raw;
  if (has_capability : bool) then provide_of §"capability" false raw else
  Raise (value_error (§"unknown provide entry: " ++ py_repr raw)).

Definition _component_reference (package_id : pystr) (value : pyval) : pystr :=
  let reference := py_str value in
  if str_has 58 reference then reference else key_of package_id reference.

Definition _idle_timeout (path : ppath) (raw : dict pystr pyval) (lifecycle : pystr)
    : py (option Z) :=
  match dget raw §"idle_timeout_ms" with
  | None => Ok None
  | Some value =>
      let where_ := path_str path ++ §": component " ++ py_str (dget_or raw §"id" (VStr [])) in
      z ← ok_or (as_int value) (value_error (where_ ++ §" idle_timeout_ms must be an integer"));
      raise_if (negb ((MIN_IDLE_TIMEOUT_MS <=? z)%Z && (z <=? MAX_IDLE_TIMEOUT_MS)%Z))
        (value_error (where_ ++ §" idle_timeout_ms must be between " ++ dec_Z MIN_IDLE_TIMEOUT_MS
                        ++ §" and " ++ dec_Z MAX_IDLE_TIMEOUT_MS));;
      raise_if (negb (bool_decide (lifecycle = §"on-demand")))
        (value_error (where_ ++ §" idle_timeout_ms requires lifecycle=on-demand"));;
      Ok (Some z)
  end.

(** [{str(k): str(v) for k, v in value.items()}] *)
Definition str_items (value : pyval) : py (dict pystr pystr) :=
  items ← py_items value;
  Ok (dict_of ((fun p => (p.1, py_str p.2)) <$> items)).

(** One iteration of the loop of [load_manifest]. *)
Definition load_component (path : ppath) (pkg : pyval) (package_id package_version package_kind
    package_name package_summary : pystr) (package_i18n raw_value : pyval) : py Component :=
  readiness ← py_get raw_value §"readiness" (VDict []);
  raw ← ok_or (as_dict raw_value) attr_error;
  let lifecycle := py_str (dget_or raw §"lifecycle" (VStr §"manual")) in
  raise_if (dhas raw §"isolation" && dhas raw §"x-msys-isolation")
    (value_error (path_str path ++ §": component " ++ py_str (dget_or raw §"id" (VStr []))
                    ++ §" declares isolation twice"));;
  isolation ← parse_isolation (dget_or raw §"isolation" (dget_or raw §"x-msys-isolation" VNone));
  icons ← py_get pkg §"icons" (VList []);
  icons ← py_iter icons;
  component_id ← py_item raw_value §"id";
  argv ← py_item raw_value §"exec";
  argv ← py_strs argv;
  idle ← _idle_timeout path raw lifecycle;
  env ← str_items (dget_or raw §"env" (VDict []));
  readiness_mode ← py_get readiness §"mode" (VStr §"exec");
  readiness_timeout ← py_get readiness §"timeout_ms" (VInt 5000);
  readiness_timeout ← py_int readiness_timeout;
  provides ← py_iter (dget_or raw §"provides" (VList []));
  provides ← mapR _provide provides;
  requires ← py_iter (dget_or raw §"requires" (VList []));
  wants ← py_iter (dget_or raw §"wants" (VList []));
  after ← py_iter (dget_or raw §"after" (VList []));
  windowing ← py_dict (dget_or raw §"windowing" (VDict []));
  activation ← py_dict (dget_or raw §"activation" (VDict []));
  permissions ← py_strs (dget_or raw §"permissions" (VList []));
  Ok {|
    package_id := package_id; package_version := package_version;
    package_kind := package_kind; package_name := package_name;
    package_summary := package_summary; package_i18n := package_i18n;
    package_icons := List.filter is_dict icons;
    id := py_str component_id; exec := argv; lifecycle := lifecycle;
    runtime := py_str (dget_or raw §"runtime" (VStr §"custom"));
    restart := py_str (dget_or raw §"restart" (VStr §"never"));
    idle_timeout_ms := idle;
    cwd := if truthy (dget_or raw §"cwd" VNone) then Some (py_str (dget_or raw §"cwd" VNone)) else None;
    env := env; readiness_mode := py_str readiness_mode;
    readiness_timeout_ms := readiness_timeout; provides := provides;
    requires := _component_reference package_id <$> requires;
    wants := _component_reference package_id <$> wants;
    after := _component_reference package_id <$> after;
    windowing := windowing; activation := activation; permissions := permissions;
    isolation := isolation; raw := raw; manifest_path := Some path |}.

Definition load_manifest_data (path : ppath) (data : pyval) : py (list Component) :=
  schema ← py_get data §"schema" VNone;
  raise_if (negb (eq_str schema §"msys.manifest.v1"))
    (value_error (path_str path ++ §" is not an MSYS v1 manifest"));;
  pkg ← py_item data §"package";
  package_id ← py_item pkg §"id";
  let package_id := py_str package_id in
  package_version ← py_get pkg §"version" (VStr §"0.0.0");
  package_kind ← py_get pkg §"kind" (VStr §"application");
  package_name ← py_get pkg §"name" VNone;
  let package_name := py_str (py_or package_name (VStr package_id)) in
  package_summary ← py_get pkg §"summary" (VStr []);
  let package_summary := default [] (as_str package_summary) in
  package_i18n ← py_get pkg §"x-msys-i18n" VNone;
  components ← py_get data §"components" (VList []);
  components ← py_iter components;
  mapR (load_component path pkg package_id (py_str package_version) (py_str package_kind)
          package_name package_summary package_i18n) components.

Context `{FileSystem}.

Definition load_manifest (path : ppath) : py (list Component) :=
  data ← read_json path; load_manifest_data path data.

(** [if component.key in result: raise ...; result[component.key] = component] *)
Definition add_component (duplicate : pystr) (result : dict pystr Component) (c : Component)
    : py (dict pystr Component) :=
  raise_if (dhas result (key c)) (value_error (duplicate ++ key c));;
  Ok (dset result (key c) c).

Definition load_manifests (config_dir : ppath) : py (dict pystr Component) :=
  let manifests := py_sorted path_leb (glob_manifests_recursive config_dir)
                   ++ py_sorted path_leb (glob_manifests config_dir) in
  foldR (fun result path =>
    components ← load_manifest path;
    foldR (add_component §"duplicate component id ") result components)
    [] (fromkeys manifests).

Definition load_manifest_paths (paths : list ppath) : py (dict pystr Component) :=
  foldR (fun result path =>
    raise_if (negb (path_is_file path))
      (value_error (§"canonical manifest is not a file: " ++ path_str path));;
    components ← load_manifest path;
    foldR (add_component §"duplicate canonical component id ") result components)
    [] (fromkeys (path_resolve <$> paths)).

Definition replace_package_components (base replacements : dict pystr Component)
    : dict pystr Component :=
  let package_ids := package_id <$> dvalues replacements in
  let result := filter (fun p => package_id p.2 ∉ package_ids) base in
  dupdate result replacements.

(** The packages to load when an interrupted installation is pending. *)
Definition recovered_packages (packages transaction : pyval) : py (list pyval) :=
  schema ← py_get transaction §"schema" VNone;
  phase ← py_get transaction §"phase" VNone;
  raise_if (eq_str schema §"msys.install-transaction.v1" && (is_list phase || is_dict phase))
    (Exn TypeError §"unhashable type");;
  if eq_str schema §"msys.install-transaction.v1"
     && (eq_str phase §"health_pending" || eq_str phase §"rolling_back")
  then
    package ← py_get transaction §"package" (VStr []);
    let package_id := py_str package in
    listed ← py_iter packages;
    restore_current ← py_get transaction §"restore_current" VNone;
    let others := List.filter (fun p =>
      match p with
      | VDict d => negb (eq_str (dget_or d §"package" VNone) package_id)
      | _ => true
      end) listed in
    Ok (others ++ if is_dict restore_current then [restore_current] else [])
  else py_iter packages.

Definition with_cwd (root : pystr) (c : Component) : Component :=
  {| package_id := package_id c; package_version := package_version c; id := id c;
     exec := exec c; lifecycle := lifecycle c; package_kind := package_kind c;
     package_name := package_name c; package_icons := package_icons c; runtime := runtime c;
     restart := restart c; idle_timeout_ms := idle_timeout_ms c;
     cwd := match cwd c with Some d => Some d | None => Some root end;
     env := env c; readiness_mode := readiness_mode c;
     readiness_timeout_ms := readiness_timeout_ms c; provides := provides c;
     requires := requires c; wants := wants c; after := after c; windowing := windowing c;
     activation := activation c; permissions := permissions c; isolation := isolation c;
     raw := raw c; manifest_path := manifest_path c; package_summary := package_summary c;
     package_i18n := package_i18n c |}.

Definition registry_file (state_dir : ppath) (file : pystr) : ppath :=
  path_div (path_div state_dir (path_of §"registry")) (path_of file).

Definition load_installed_package (result : dict pystr Component) (package : pyval)
    : py (dict pystr Component) :=
  path ← py_get package §"path" (VStr []);
  let root := path_of (py_str path) in
  let manifest := path_div root (path_of §"manifest.json") in
  if negb (path_exists manifest) then Ok result
  else
    components ← load_manifest manifest;
    foldR (add_component §"duplicate installed component id ") result
      (with_cwd (path_str root) <$> components).

Definition load_installed_manifests (state_dir : ppath) (recover_pending : bool)
    : py (dict pystr Component) :=
  let registry := registry_file state_dir §"installed.json" in
  if negb (path_exists registry) then Ok []
  else
    data ← read_json registry;
    packages ← py_get data §"packages" (VList []);
    let transaction_path := registry_file state_dir §"install-transaction.json" in
    packages ←
      (if recover_pending && path_exists transaction_path
       then transaction ← read_json transaction_path; recovered_packages packages transaction
       else py_iter packages);
    foldR load_installed_package [] packages.
End Load.

(* ------------------------------------------------------------------ *)
(** ** Components and catalogs *)

(** What every component of a loaded manifest satisfies. *)
Record component_wf `{Platform} (c : Component) : Prop := {
  cwf_isolation : spec_wf (isolation c);
  cwf_idle : match idle_timeout_ms c with
             | Some t => (MIN_IDLE_TIMEOUT_MS <= t <= MAX_IDLE_TIMEOUT_MS)%Z /\
                         lifecycle c = §"on-demand"
             | None => True
             end;
  cwf_references : Forall (fun r => 58 ∈ r) (requires c ++ wants c ++ after c);
  cwf_provides : Forall (fun p => kind p ∈ [§"role"; §"interface"; §"capability"]) (provides c);
  cwf_env : dict_wf (env c);
}.

(** A catalog maps the global id of each component to it. *)
Definition catalog_wf (cat : dict pystr Component) : Prop :=
  dict_wf cat /\ forall k c, dget cat k = Some c -> key c = k.

Section Facts.
Context `{PyLib} `{PyRepr} `{Platform}.

Lemma reference_has_colon pkg v : 58 ∈ _component_reference pkg v.
Proof.
  unfold _component_reference. destruct (str_has 58 (py_str v)) eqn:Hs.
  - by apply str_has_spec.
  - unfold key_of. rewrite !elem_of_app. right. left. set_solver.
Qed.

Lemma provide_kind raw p : _provide raw = Ok p ->
  kind p ∈ [§"role"; §"interface"; §"capability"].
Proof.
  unfold _provide, provide_of. intros Hp. inv_result.
  repeat match goal with Hp : context [if ?b then _ else _] |- _ => destruct b; inv_result end;
    simpl; set_solver.
Qed.

Lemma idle_timeout_Ok path raw lc t : _idle_timeout path raw lc = Ok (Some t) ->
  (MIN_IDLE_TIMEOUT_MS <= t <= MAX_IDLE_TIMEOUT_MS)%Z /\ lc = §"on-demand".
Proof.
  unfold _idle_timeout. destruct (dget raw _); [|done]. cbv zeta. intros Hi. inv_result.
  bool_simp. split; [|done]. split; by apply Z.leb_le.
Qed.

Lemma str_items_wf v d : str_items v = Ok d -> dict_wf d.
Proof. unfold str_items. intros Hd. inv_result. apply dict_of_wf. Qed.

Lemma load_component_wf path pkg pid ver pk pn ps i18n v c :
  load_component path pkg pid ver pk pn ps i18n v = Ok c ->
  component_wf c /\ package_id c = pid /\ manifest_path c = Some path.
Proof.
  unfold load_component. intros Hc. inv_result. split; [|done]. split; simpl.
  - eauto using parse_isolation_spec_wf.
  - case_match; [subst; by eapply idle_timeout_Ok|done].
  - apply Forall_forall. intros r. rewrite !elem_of_app, !list_elem_of_fmap.
    intros [(? & -> & _)|[(? & -> & _)|(? & -> & _)]]; apply reference_has_colon.
  - eapply mapR_Forall; [|eassumption]. exact provide_kind.
  - eauto using str_items_wf.
Qed.

Lemma load_manifest_data_wf path data cs :
  load_manifest_data path data = Ok cs ->
  exists pid, Forall (fun c => component_wf c /\ package_id c = pid /\
                               manifest_path c = Some path) cs.
Proof.
  unfold load_manifest_data. cbv zeta. intros Hc. inv_result.
  eexists. eapply mapR_Forall; [|exact Hc]. intros v c. apply load_component_wf.
Qed.

Lemma catalog_nil : catalog_wf [].
Proof. split; [constructor|done]. Qed.

Lemma catalog_add cat c : catalog_wf cat -> catalog_wf (dset cat (key c) c).
Proof.
  intros [Hwf Hk]. split; [by apply dset_wf|]. intros k c'. rewrite dget_dset.
  case_decide; [intros [= <-]; done|apply Hk].
Qed.

Lemma add_component_Ok msg cat c cat' : add_component msg cat c = Ok cat' ->
  dget cat (key c) = None /\ cat' = dset cat (key c) c.
Proof.
  unfold add_component. intros Ha. inv_result. by rewrite dhas_false in *.
Qed.

(** Adding a list of components: each lands under its own key, and nothing
    that was present is overwritten. *)
Lemma add_components_Ok msg cs cat cat' :
  catalog_wf cat -> foldR (add_component msg) cat cs = Ok cat' ->
  catalog_wf cat' /\ (forall k c, dget cat' k = Some c <-> dget cat k = Some c \/ (c ∈ cs /\ key c = k)).
Proof.
  revert cat; induction cs as [|c cs IH]; intros cat Hwf; cbn [foldR].
  - intros [= <-]. split; [done|]. set_solver.
  - intros Ha. inv_result. apply add_component_Ok in H2 as [Hn ->].
    apply IH in Ha as [Hwf' Hk]; [|by apply catalog_add]. split; [done|].
    intros k c'. rewrite Hk, dget_dset, elem_of_cons. case_decide; subst; [|naive_solver].
    rewrite Hn. naive_solver.
Qed.

Lemma replace_catalog_wf base repl :
  catalog_wf base -> catalog_wf repl -> catalog_wf (replace_package_components base repl).
Proof.
  intros [Hb Kb] [Hr Kr]. unfold replace_package_components. split; [auto with dict|].
  intros k c. rewrite dget_dupdate by done. destruct (dget repl k) as [c'|] eqn:Hk.
  - intros [= ->]. by apply Kr.
  - rewrite dget_filter by done. destruct (dget base k) as [c'|] eqn:Hkb; [|done].
    case_decide; [|done]. intros [= ->]. by apply Kb.
Qed.

Lemma replace_lookup base repl k : dict_wf base -> dict_wf repl ->
  dget (replace_package_components base repl) k =
    match dget repl k with
    | Some c => Some c
    | None => match dget base k with
              | Some c => if decide (package_id c ∈ package_id <$> dvalues repl) then None else Some c
              | None => None
              end
    end.
Proof.
  intros Hb Hr. unfold replace_package_components. rewrite dget_dupdate by done.
  destruct (dget repl k); [done|]. rewrite dget_filter by done.
  destruct (dget base k) as [c|]; [|done]. simpl. repeat case_decide; naive_solver.
Qed.

Context `{FileSystem}.

Lemma load_manifest_paths_catalog paths cat :
  load_manifest_paths paths = Ok cat -> catalog_wf cat.
Proof.
  unfold load_manifest_paths. intros Hl. eapply foldR_ind; [| |exact Hl]; [apply catalog_nil|].
  intros a p a' _ Ha Hp. inv_result. by eapply add_components_Ok.
Qed.

Lemma load_manifests_catalog dir cat : load_manifests dir = Ok cat -> catalog_wf cat.
Proof.
  unfold load_manifests. cbv zeta. intros Hl. eapply foldR_ind; [| |exact Hl]; [apply catalog_nil|].
  intros a p a' _ Ha Hp. inv_result. by eapply add_components_Ok.
Qed.

Lemma load_installed_catalog sd rp cat :
  load_installed_manifests sd rp = Ok cat -> catalog_wf cat.
Proof.
  unfold load_installed_manifests. case_match; [intros [= <-]; apply catalog_nil|].
  intros Hl. inv_result. eapply foldR_ind; [| |exact Hl]; [apply catalog_nil|].
  intros a p a' _ Ha. unfold load_installed_package. intros Hp. inv_result.
  case_match; inv_result; [done|]. by eapply add_components_Ok.
Qed.
End Facts.

(* ------------------------------------------------------------------ *)
(** ** Properties *)

(** Every component of an accepted manifest is well formed: its isolation
    is, an idle timeout is within 1000..86400000 ms and only on an on-demand
    component, every [requires]/[wants]/[after] reference is global, every
    provide is a role, an interface or a capability; and they all carry the
    manifest's package id and path. *)
Theorem load_manifest_components `{PyLib} `{PyRepr} `{Platform} path data cs :
  load_manifest_data path data = Ok cs ->
  exists pid, Forall (fun c => component_wf c /\ package_id c = pid /\
                               manifest_path c = Some path) cs.
Proof. apply load_manifest_data_wf. Qed.

Definition sample_manifest : pyval := VDict [
  (§"schema", VStr §"msys.manifest.v1");
  (§"package", VDict [(§"id", VStr §"org.demo"); (§"kind", VStr §"system")]);
  (§"components", VList [
    VDict [(§"id", VStr §"shell"); (§"exec", VList [VStr §"@package/bin/shell"]);
           (§"lifecycle", VStr §"background"); (§"after", VList [VStr §"hal"]);
           (§"provides", VList [VDict [(§"role", VStr §"launcher"); (§"priority", VInt 10)]])];
    VDict [(§"id", VStr §"hal"); (§"exec", VList [VStr §"/usr/bin/hal"]);
           (§"lifecycle", VStr §"on-demand"); (§"idle_timeout_ms", VInt 30000);
           (§"isolation", VStr §"baseline");
           (§"provides", VList [VDict [(§"interface", VStr §"org.demo.hal")]])]])].

Lemma load_manifest_components_witness :
  exists cs, load_manifest_data (path_of §"/pkg/manifest.json") sample_manifest = Ok cs /\
    exists pid, Forall (fun c => component_wf c /\ package_id c = pid /\
                               manifest_path c = Some (path_of §"/pkg/manifest.json")) cs.
Proof.
  eexists. split; [vm_compute; reflexivity|].
  apply (load_manifest_components (path_of §"/pkg/manifest.json") sample_manifest).
  vm_compute. reflexivity.
Defined.

(** Replacing packages is atomic.  A key of the result comes from the
    replacement catalog, or from the base when no component of the replacement
    belongs to its package; so a component that an update drops cannot survive
    from the fallback, and other packages are untouched. *)
Theorem replace_package_components_atomic base replacements :
  dict_wf base -> dict_wf replacements ->
  let package_ids := package_id <$> dvalues replacements in
  let result := replace_package_components base replacements in
  dict_wf result /\
  (forall k, dget result k =
     match dget replacements k with
     | Some c => Some c
     | None => match dget base k with
               | Some c => if decide (package_id c ∈ package_ids) then None else Some c
               | None => None
               end
     end) /\
  (forall k c, dget result k = Some c -> package_id c ∈ package_ids -> dget replacements k = Some c).
Proof.
  intros Hb Hr. split_and!.
  - unfold replace_package_components. auto with dict.
  - intros k. by apply replace_lookup.
  - intros k c. rewrite replace_lookup by done. destruct (dget replacements k); [done|].
    destruct (dget base k); [|done]. case_decide; [done|]. by intros [= ->].
Qed.

Definition sample_provider (pkg cid : pystr) (ps : list Provide) : Component := {|
  package_id := pkg; package_version := §"1"; id := cid; exec := [§"/bin/true"];
  lifecycle := §"manual"; package_kind := §"application"; package_name := pkg;
  package_icons := []; runtime := §"custom"; restart := §"never"; idle_timeout_ms := None;
  cwd := None; env := []; readiness_mode := §"exec"; readiness_timeout_ms := 5000;
  provides := ps; requires := []; wants := []; after := []; windowing := []; activation := [];
  permissions := []; isolation := spec_default; raw := []; manifest_path := None;
  package_summary := []; package_i18n := VNone |}.

Definition sample_component (pkg cid : pystr) : Component := sample_provider pkg cid [].

Definition sample_catalog (l : list (pystr * pystr)) : dict pystr Component :=
  (fun p => (key_of p.1 p.2, sample_component p.1 p.2)) <$> l.

Lemma replace_package_components_atomic_witness :
  let base := sample_catalog [(§"a.b", §"old"); (§"a.b", §"main"); (§"c.d", §"x")] in
  let repl := sample_catalog [(§"a.b", §"main")] in
  dget (replace_package_components base repl) §"a.b:old" = None /\
  dict_wf (replace_package_components base repl).
Proof.
  intros base repl.
  destruct (replace_package_components_atomic base repl) as (Hwf & Hget & _).
  - apply (bool_decide_unpack _). vm_compute. exact I.
  - apply (bool_decide_unpack _). vm_compute. exact I.
  - split; [rewrite Hget; vm_compute; reflexivity|exact Hwf].
Defined.

(** An interrupted installation is never loaded.  While the transaction of
    a package is pending, the only entry of that package the catalog loads is
    the version the transaction restores, and every other installed entry is
    kept. *)
Theorem pending_package_not_loaded packages tx l :
  recovered_packages (VList packages) (VDict tx) = Ok l ->
  eq_str (dget_or tx §"schema" VNone) §"msys.install-transaction.v1" = true ->
  (eq_str (dget_or tx §"phase" VNone) §"health_pending"
   || eq_str (dget_or tx §"phase" VNone) §"rolling_back") = true ->
  forall package, dget tx §"package" = Some (VStr package) ->
  (forall d, VDict d ∈ l -> eq_str (dget_or d §"package" VNone) package = true ->
     dget tx §"restore_current" = Some (VDict d)) /\
  (forall d, VDict d ∈ packages -> eq_str (dget_or d §"package" VNone) package = false ->
     VDict d ∈ l).
Proof.
  intros Hl Hs Hp package Hpkg.
  assert (dget_or tx §"package" (VStr []) = VStr package) as Hget
    by (unfold dget_or; by rewrite Hpkg).
  unfold recovered_packages in Hl. cbn [py_get rbind] in Hl.
  rewrite Hs in Hl. cbn [andb] in Hl. apply bind_Ok in Hl as (_ & _ & Hl).
  rewrite Hp, Hget in Hl. cbn [py_iter rbind py_str] in Hl. injection Hl as <-. split.
  - intros d. rewrite elem_of_app. intros [Hin|Hin] Hd.
    + apply list_elem_of_In, filter_In in Hin as [_ Hin]. by rewrite Hd in Hin.
    + unfold dget_or in Hin. destruct (dget tx §"restore_current") as [r|]; simpl in Hin.
      * destruct r; simpl in Hin; try (by apply not_elem_of_nil in Hin).
        apply list_elem_of_singleton in Hin. congruence.
      * by apply not_elem_of_nil in Hin.
  - intros d Hin Hd. apply elem_of_app. left. apply list_elem_of_In, filter_In.
    split; [by apply list_elem_of_In|]. by rewrite Hd.
Qed.

Lemma pending_package_not_loaded_witness :
  let broken := VDict [(§"package", VStr §"a.b"); (§"path", VStr §"/v2")] in
  let good := [(§"package", VStr §"a.b"); (§"path", VStr §"/v1")] in
  let other := VDict [(§"package", VStr §"c.d")] in
  let tx := [(§"schema", VStr §"msys.install-transaction.v1"); (§"phase", VStr §"health_pending");
             (§"package", VStr §"a.b"); (§"restore_current", VDict good)] in
  exists l, recovered_packages (VList [broken; other]) (VDict tx) = Ok l /\
    forall d, VDict d ∈ l -> eq_str (dget_or d §"package" VNone) §"a.b" = true ->
      dget tx §"restore_current" = Some (VDict d).
Proof.
  intros broken good other tx. eexists. split; [vm_compute; reflexivity|].
  apply (pending_package_not_loaded [broken; other] tx); vm_compute; reflexivity.
Defined.
End Manifest.
