(* ===== verification/I18n.v ===== *)
(** * Presentation catalogs ([msys_core/presentation_i18n.py])

    Locale names, the parent fallback, the catalog document and the bounded
    cache of catalogs.  Reading and decoding a file is the [CatalogFiles]
    interface. *)

From Stdlib Require Import ZArith.
From S2P Require Export PyPath PyCase.

Module I18n.

Definition CATALOG_SCHEMA : pystr := §"msys.i18n.catalog.v1".
Definition MAX_CATALOG_BYTES : Z := 2 * 1024 * 1024.
Definition DEFAULT_CACHE_ENTRIES : Z := 16.

Definition dash : N := 45.

Definition segment_re : regex :=
  RSeq (cls alnum_ascii) (RStar (cls (fun c => alnum_ascii c || one_of §"._-" c))).

Definition _PACKAGE_RELATIVE_PATH : regex :=
  RSeq segment_re (RStar (RSeq (rchar slash) segment_re)).

Definition lower_alnum (c : N) : bool := lower_ascii c || digit_ascii c.

Definition _CANONICAL_LOCALE : regex :=
  RSeq (rbetween 2 8 (cls lower_ascii))
  (RSeq (ropt (RSeq (rchar dash) (RSeq (cls upper_ascii) (rtimes 3 (cls lower_ascii)))))
  (RSeq (ropt (RSeq (rchar dash) (RAlt (rtimes 2 (cls upper_ascii)) (rtimes 3 (cls digit_ascii)))))
    (RStar (RSeq (rchar dash)
       (RAlt (rbetween 5 8 (cls lower_alnum))
             (RSeq (cls digit_ascii) (rtimes 3 (cls lower_alnum)))))))).

Definition catalog_error (m : pystr) : exn := Exn PresentationCatalogError m.

(* ------------------------------------------------------------------ *)
(** ** Locale names *)

Section Locale.
Context `{PyLib}.

Definition is_script (p : pystr) : bool := (length p =? 4)%nat && str_isalpha p.
Definition is_region (p : pystr) : bool :=
  ((length p =? 2)%nat && str_isalpha p) || ((length p =? 3)%nat && str_isdigit p).

(** An optional part, when it comes next. *)
Definition take_part (test : pystr -> bool) (f : pystr -> pystr) (parts : list pystr)
    : list pystr * list pystr :=
  match parts with
  | p :: rest => if test p then ([f p], rest) else ([], parts)
  | [] => ([], [])
  end.

Definition is_variant (p : pystr) : bool :=
  str_isascii p && str_isalnum p
  && (((5 <=? length p)%nat && (length p <=? 8)%nat)
      || ((length p =? 4)%nat && match p with c :: _ => isdigit_c c | [] => false end)).

Definition canonical_parts (parts : list pystr) : option (list pystr) :=
  match parts with
  | [] => None
  | language :: rest =>
      if negb ((2 <=? length language)%nat && (length language <=? 8)%nat && str_isalpha language)
      then None
      else
        let '(script, rest) := take_part is_script str_title rest in
        let '(region, rest) := take_part is_region str_upper rest in
        if forallb is_variant rest
        then Some (str_lower language :: script ++ region ++ (str_lower <$> rest))
        else None
  end.

(** The language tag without its [@modifier] and its [.encoding]. *)
Definition without_encoding (raw : pystr) : pystr := str_before 46 (str_before 64 raw).

Definition _normalized_locale (value : pyval) : option pystr :=
  match value with
  | VStr value =>
      let raw := str_strip value in
      if negb (str_true raw) then None
      else
        let tag := without_encoding raw in
        if bool_decide (str_upper tag ∈ [§"C"; §"POSIX"]) then None
        else
          canonical ← canonical_parts (str_split dash (str_replace_c 95 dash tag));
          let normalized := str_join [dash] canonical in
          if fullmatch _CANONICAL_LOCALE normalized then Some normalized else None
  | _ => None
  end%stdpp.

(** [while current: ... current = current.rpartition("-")[0]]: the string gets
    shorter on every turn. *)
Fixpoint parents (fuel : nat) (current : pystr) (result : list pystr) : list pystr :=
  match fuel with
  | O => result
  | S fuel =>
      if str_true current
      then parents fuel (str_rpartition_head dash current)
             (if bool_decide (current ∈ result) then result else result ++ [current])
      else result
  end.

Definition _locale_chain (requested : option pystr) (default_locale : pystr) : list pystr :=
  let normalized := match requested with Some r => _normalized_locale (VStr r) | None => None end in
  let current := match normalized with
                 | Some n => if str_true n then n else default_locale
                 | None => default_locale
                 end in
  let result := parents (S (length current)) current [] in
  if bool_decide (default_locale ∈ result) then result else result ++ [default_locale].
End Locale.

(* ------------------------------------------------------------------ *)
(** ** Catalog documents *)

Record PresentationCatalog := {
  default_locale : pystr;
  messages : dict pystr (dict pystr pystr);
}.

Record FileStat := { is_regular : bool; st_size : Z }.

(** Files and the JSON decoder.  [decode_json] is [raw.decode("utf-8")] followed
    by [json.loads] with its two hooks. *)
Class CatalogFiles := {
  file_stat : ppath -> py FileStat;
  read_bytes : ppath -> py (list N);
  decode_json : (list (pystr * pyval) -> py (dict pystr pyval)) -> (pystr -> exn) ->
                list N -> py pyval;
  (** [path.resolve(strict=True)] *)
  resolve_strict : ppath -> py ppath;
  (** [str(path.absolute())] *)
  absolute_str : ppath -> pystr;
}.

Section Catalog.
Context `{PyLib} `{PyRepr}.

(** The hook that rejects duplicate members. *)
Definition _strict_object (pairs : list (pystr * pyval)) : py (dict pystr pyval) :=
  foldR (fun result p =>
    if dhas result p.1
    then Raise (catalog_error (§"duplicate JSON member " ++ py_repr (VStr p.1)))
    else Ok (dset result p.1 p.2)) [] pairs.

Definition non_json_number (value : pystr) : exn := catalog_error (§"non-JSON number " ++ value).

Definition valid_message (key : pystr) (value : pyval) : bool :=
  str_true key && (length key <=? 160)%nat
  && match value with
     | VStr v => (length v <=? Z.to_nat 16384)%nat && negb (str_has 0 v)
     | _ => false
     end.

Definition copy_messages (values : dict pystr pyval) : py (dict pystr pystr) :=
  foldR (fun copied kv =>
    if valid_message kv.1 kv.2
    then Ok (dset copied kv.1 (default [] (as_str kv.2)))
    else Raise (catalog_error §"invalid presentation message")) [] values.

Definition copy_locale (locale : pystr) (values : pyval) : py (dict pystr pystr) :=
  match values with
  | VDict values =>
      if bool_decide (_normalized_locale (VStr locale) = Some locale)
         && (length values <=? Z.to_nat 20000)%nat
      then copy_messages values
      else Raise (catalog_error §"invalid locale message map")
  | _ => Raise (catalog_error §"invalid locale message map")
  end.

Definition load_document (document : pyval) : py PresentationCatalog :=
  match document with
  | VDict d =>
      raise_if (negb (eq_str (dget_or d §"schema" VNone) CATALOG_SCHEMA))
        (catalog_error §"unsupported catalog schema");;
      match dget_or d §"default_locale" VNone, dget_or d §"messages" VNone with
      | VStr locale, VDict ms =>
          raise_if (negb (bool_decide (_normalized_locale (VStr locale) = Some locale))
                    || bool_decide (ms = []) || (128 <? length ms)%nat || negb (dhas ms locale))
            (catalog_error §"invalid locale catalog metadata");;
          copied ← foldR (fun copied kv =>
            values ← copy_locale kv.1 kv.2; Ok (dset copied kv.1 values)) [] ms;
          Ok {| default_locale := locale; messages := copied |}
      | _, _ => Raise (catalog_error §"invalid locale catalog metadata")
      end
  | _ => Raise (catalog_error §"catalog root must be an object")
  end.

(** [except PresentationCatalogError: raise / except (OSError, ValueError, ...)] *)
Definition as_catalog_error (e : exn) : exn :=
  if bool_decide (exn_type e = PresentationCatalogError) then e
  else if is_os_error (exn_type e) || is_value_error (exn_type e)
  then catalog_error (exn_msg e)
  else e.

Definition load `{CatalogFiles} (path : ppath) : py PresentationCatalog :=
  document ← reraise as_catalog_error
    (metadata ← file_stat path;
     raise_if (negb (is_regular metadata)) (catalog_error §"catalog is not a regular file");;
     raise_if (MAX_CATALOG_BYTES <? st_size metadata)%Z
       (catalog_error §"catalog exceeds the 2 MiB limit");;
     raw ← read_bytes path;
     raise_if (MAX_CATALOG_BYTES <? Z.of_nat (length raw))%Z
       (catalog_error §"catalog exceeds the 2 MiB limit");;
     decode_json _strict_object non_json_number raw);
  load_document document.

(** The first non-empty text along the fallback chain. *)
Definition text (c : PresentationCatalog) (key : pystr) (locale : option pystr) : option pystr :=
  find_first str_true
    (omap (fun candidate => dget (dget_or (messages c) candidate []) key)
       (_locale_chain locale (default_locale c))).
End Catalog.

(* ------------------------------------------------------------------ *)
(** ** The cache *)

(** The ordered dictionary, oldest entry first. *)
Record PresentationCatalogCache := {
  limit : Z;
  _entries : dict (pystr * pystr) (option PresentationCatalog);
}.

Definition make (requested : Z) : PresentationCatalogCache :=
  {| limit := Z.max 1 requested; _entries := [] |}.

Section Cache.
Context `{PyLib} `{PyRepr} `{CatalogFiles}.

Definition valid_relative_path (relative_path : pyval) : option pystr :=
  match relative_path with
  | VStr r =>
      if str_true r && (length r <=? 1024)%nat && negb (str_has 0 r)
         && fullmatch _PACKAGE_RELATIVE_PATH r
      then Some r else None
  | _ => None
  end.

Definition path_parent (p : ppath) : ppath :=
  {| proot := proot p; pparts := take (length (pparts p) - 1) (pparts p) |}.

(** [resolved.relative_to(root)] *)
Definition relative_to (resolved root : ppath) : py unit :=
  if bool_decide (proot root = proot resolved)
     && bool_decide (take (length (pparts root)) (pparts resolved) = pparts root)
  then Ok tt
  else Raise (Exn ValueError (path_str resolved ++ §" is not in the subpath of " ++ path_str root)).

(** What a lookup that misses the cache computes. *)
Definition load_entry (manifest_path : ppath) (relative_path : pystr)
    : py (option PresentationCatalog) :=
  match
    package_root ← resolve_strict (path_parent manifest_path);
    resolved ← resolve_strict
      (foldl (fun p part => path_div p (path_of part)) package_root (str_split slash relative_path));
    relative_to resolved package_root;;
    load resolved
  with
  | Ok catalog => Ok (Some catalog)
  | Raise e =>
      if is_os_error (exn_type e) || is_value_error (exn_type e) then Ok None else Raise e
  end.

(** [while len(self._entries) > self.limit: self._entries.popitem(last=False)] *)
Definition evict {V} (limit : Z) (entries : list V) : list V :=
  drop (length entries - Z.to_nat limit) entries.

Definition get (cache : PresentationCatalogCache) (manifest_path : ppath) (relative_path : pyval)
    : PresentationCatalogCache * py (option PresentationCatalog) :=
  match valid_relative_path relative_path with
  | None => (cache, Ok None)
  | Some r =>
      let k := (absolute_str manifest_path, r) in
      match dget (_entries cache) k with
      | Some value =>
          ({| limit := limit cache; _entries := ddel (_entries cache) k ++ [(k, value)] |}, Ok value)
      | None =>
          match load_entry manifest_path r with
          | Raise e => (cache, Raise e)
          | Ok catalog =>
              ({| limit := limit cache;
                  _entries := evict (limit cache) (dset (_entries cache) k catalog) |}, Ok catalog)
          end
      end
  end.
End Cache.

(* ------------------------------------------------------------------ *)
(** ** The cache behaves like no cache at all *)

Section CacheLemmas.
Context `{PyLib} `{PyRepr} `{CatalogFiles}.

(** Every entry is what loading it would give. *)
Record cache_ok (cache : PresentationCatalogCache) : Prop := {
  limit_positive : (1 <= limit cache)%Z;
  entries_bounded : (Z.of_nat (length (_entries cache)) <= limit cache)%Z;
  entries_distinct : dict_wf (_entries cache);
  entries_loaded k v : (k, v) ∈ _entries cache ->
    exists manifest_path, k.1 = absolute_str manifest_path /\ load_entry manifest_path k.2 = Ok v;
}.

Lemma make_ok requested : cache_ok (make requested).
Proof.
  split; cbn; [lia|lia|constructor|]. intros k v Hin. destruct (not_elem_of_nil _ Hin).
Qed.

Lemma ddel_move {K V} `{!EqDecision K} (d : dict K V) k v :
  dget d k = Some v -> ddel d k ++ [(k, v)] ≡ₚ d.
Proof.
  induction d as [|[k' v'] d IH]; cbn; [done|]. case_decide as Hk.
  - intros [= ->]. subst. by rewrite Permutation_app_comm.
  - intros Hd. cbn. by rewrite IH.
Qed.

Lemma ddel_keys {K V} `{!EqDecision K} (d : dict K V) k :
  dict_wf d -> dkeys (ddel d k) = filter (.≠ k) (dkeys d).
Proof.
  unfold dict_wf, dkeys. induction d as [|[k' v'] d IH]; cbn [ddel fmap list_fmap fst]; [done|].
  rewrite NoDup_cons. intros [Hn Hwf]. rewrite filter_cons. case_decide as Hk.
  - subst. rewrite decide_False by tauto. symmetry. apply filter_all.
    by intros x Hx ->.
  - rewrite decide_True by congruence. cbn. by rewrite IH.
Qed.

Lemma In_drop {A} n (l : list A) x : In x (drop n l) -> In x l.
Proof. intros Hin. rewrite <- (take_drop n l). apply in_or_app. by right. Qed.

Lemma dset_absent {K V} `{!EqDecision K} (d : dict K V) k v :
  dget d k = None -> dset d k v = d ++ [(k, v)].
Proof.
  induction d as [|[k' v'] d IH]; cbn; [done|]. case_decide; [done|]. intros Hd. by rewrite IH.
Qed.

(** Two names of one file give the same catalog. *)
Context (absolute_same : forall p q r,
  absolute_str p = absolute_str q -> load_entry p r = load_entry q r).

(** C40: the catalog cache is transparent and bounded.  A lookup returns what an
    uncached load of the file returns, hits and misses, failures to load
    included; the cache keeps at most [limit] entries, moves the one just used
    to the end, keeps the others in their order, and drops only the least
    recently used ones, and those only when it is full. *)
Theorem catalog_cache_transparent cache manifest_path relative_path cache' r :
  cache_ok cache -> get cache manifest_path relative_path = (cache', r) ->
  cache_ok cache' /\ limit cache' = limit cache /\
  match valid_relative_path relative_path with
  | None => r = Ok None /\ cache' = cache
  | Some rel =>
      r = load_entry manifest_path rel /\
      let k := (absolute_str manifest_path, rel) in
      match r with
      | Raise _ => cache' = cache
      | Ok v =>
          exists dropped kept, filter (.≠ k) (dkeys (_entries cache)) = dropped ++ kept /\
            dkeys (_entries cache') = kept ++ [k] /\
            (dropped = [] \/ Z.of_nat (length (_entries cache)) = limit cache)
      end
  end.
Proof.
  intros Hok. unfold get. destruct (valid_relative_path relative_path) as [rel|]; [|by intros [= <- <-]].
  cbv zeta. set (k := (absolute_str manifest_path, rel)). destruct Hok as [Hpos Hlen Hwf Hload].
  destruct (dget (_entries cache) k) as [v|] eqn:Hk.
  - intros [= <- <-]. pose proof (ddel_move _ _ _ Hk) as Hperm.
    split; [split; cbn [limit _entries]|].
    + done.
    + by rewrite Hperm.
    + unfold dict_wf, dkeys. rewrite Hperm. done.
    + intros k' v'. rewrite Hperm. apply Hload.
    + split; [done|]. apply dget_elem, Hload in Hk as (mp & Habs & Hl). split.
      { rewrite <- Hl. by apply absolute_same. }
      exists [], (dkeys (ddel (_entries cache) k)). split; [by rewrite ddel_keys|].
      split; [|by left]. cbn. unfold dkeys. by rewrite fmap_app.
  - destruct (load_entry manifest_path rel) as [catalog|e] eqn:Hl; intros [= <- <-].
    2:{ split; [by split|]. split; [done|]. by split. }
    assert (dset (_entries cache) k catalog = _entries cache ++ [(k, catalog)]) as Hset.
    { by apply dset_absent. }
    assert (k ∉ dkeys (_entries cache)) as Hnk by (by apply dget_None).
    split; [split; cbn [limit _entries]; [done|..]|].
    + unfold evict. rewrite length_drop. lia.
    + unfold evict, dict_wf, dkeys. rewrite fmap_drop. eapply sublist_NoDup; [exact (dset_wf _ k catalog Hwf)|apply sublist_drop].
    + intros k' v' Hin. unfold evict in Hin. rewrite Hset in Hin.
      rewrite list_elem_of_In in Hin. apply In_drop in Hin. rewrite <- list_elem_of_In in Hin.
      apply elem_of_app in Hin as [Hin|Hin]; [by apply Hload|].
      apply list_elem_of_singleton in Hin as [= -> ->]. by exists manifest_path.
    + split; [done|]. split; [done|]. set (n := (length (_entries cache ++ [(k, catalog)]) - Z.to_nat (limit cache))%nat).
      exists (take n (dkeys (_entries cache))), (drop n (dkeys (_entries cache))).
      rewrite take_drop. split; [apply filter_all; by intros x Hx ->|].
      cbn [_entries]. unfold evict. rewrite Hset. fold n. unfold n, dkeys.
      rewrite length_app. cbn [length]. split.
      * rewrite fmap_drop, fmap_app, drop_app_le; [done|]. rewrite length_fmap. lia.
      * destruct (decide (Z.of_nat (length (_entries cache)) = limit cache)); [by right|left].
        replace (_ - _)%nat with 0%nat by lia. done.
Qed.
End CacheLemmas.

(* ------------------------------------------------------------------ *)
(** ** Canonical locale names *)

(** The expression of one part of a locale name. *)
Ltac solve_part_re :=
  split; [cbn; repeat split; intros c; unfold lower_alnum; char_cases|reflexivity].

Section LocaleLemmas.
Context `{PyLib}.

(** The tests of the parser depend only on the kinds of the characters. *)
Lemma same_kind_trans s t u : same_kind s t -> same_kind t u -> same_kind s u.
Proof.
  intros Hst. revert u; induction Hst as [|c d s t (? & ? & ? & ?) _ IH]; intros u Htu; inversion Htu as [|? e ? u' (? & ? & ? & ?)]; subst;
    constructor; [|by apply IH]. repeat split; congruence.
Qed.

Lemma kind_script s t : same_kind s t -> is_script s = is_script t.
Proof. intros Hk. unfold is_script. by rewrite (kind_length s t), (kind_isalpha s t). Qed.
Lemma kind_region s t : same_kind s t -> is_region s = is_region t.
Proof.
  intros Hk. unfold is_region. by rewrite (kind_length s t), (kind_isalpha s t), (kind_isdigit s t).
Qed.
Lemma kind_variant s t : same_kind s t -> is_variant s = is_variant t.
Proof.
  intros Hk. unfold is_variant. destruct (same_kind_ascii s t Hk) as [Hs Ht].
  rewrite (proj2 (ascii_spec s) Hs), (proj2 (ascii_spec t) Ht), (kind_length s t), (kind_isalnum s t) by done.
  do 3 f_equal. inversion Hk as [|c d ? ? (Hc & Hd & _ & Hdig)]; [done|].
  unfold isdigit_c. by rewrite Hc, Hd, Hdig.
Qed.

Lemma kind_language s t : same_kind s t ->
  ((2 <=? length s)%nat && (length s <=? 8)%nat && str_isalpha s)
  = ((2 <=? length t)%nat && (length t <=? 8)%nat && str_isalpha t).
Proof. intros Hk. by rewrite (kind_length s t), (kind_isalpha s t). Qed.

(** Taking an optional part again finds the same part. *)
Lemma take_part_again test f parts taken rest :
  (forall s t, same_kind s t -> test s = test t) ->
  (forall s, ascii s -> same_kind s (f s) /\ f (f s) = f s) ->
  Forall ascii parts -> take_part test f parts = (taken, rest) ->
  Forall ascii rest /\
  forall rest', Forall2 same_kind rest rest' ->
    take_part test f (taken ++ rest') = (taken, rest').
Proof.
  intros Htest Hf Hparts Ht. destruct Hparts as [|p parts Hp Hparts]; cbn in Ht.
  { injection Ht as <- <-. split; [constructor|]. intros rest' Hr. by inversion Hr. }
  destruct (test p) eqn:Hp'; injection Ht as <- <-.
  - split; [done|]. intros rest' _. destruct (Hf p Hp) as [Hk Hi]. cbn.
    by rewrite <- (Htest _ _ Hk), Hp', Hi.
  - split; [by constructor|]. intros rest' Hr. inversion Hr as [|? q ? rest'' Hq]; subst. cbn.
    by rewrite <- (Htest _ _ Hq), Hp'.
Qed.

Lemma take_part_kinds test f parts taken rest :
  (forall s, ascii s -> same_kind s (f s)) -> Forall ascii parts ->
  take_part test f parts = (taken, rest) ->
  Forall2 same_kind parts (taken ++ rest).
Proof.
  intros Hf Hparts Ht. assert (forall l, Forall ascii l -> Forall2 same_kind l l) as Hrefl.
  { induction 1 as [|s l Hs _ IH]; constructor; [|done]. clear -Hs. by induction Hs; constructor. }
  destruct Hparts as [|p parts Hp Hparts]; cbn in Ht; [by injection Ht as <- <-|].
  destruct (test p); injection Ht as <- <-; cbn; constructor; auto. by induction Hp; constructor.
Qed.

Lemma lower_kinds l : Forall ascii l -> Forall2 same_kind l (str_lower <$> l).
Proof. induction 1; cbn; constructor; [by apply lower_same_kind|done]. Qed.

Lemma kind_variants l l' : Forall2 same_kind l l' -> forallb is_variant l = forallb is_variant l'.
Proof. induction 1 as [|s t l l' Hk _ IH]; cbn; [done|]. by rewrite IH, (kind_variant s t). Qed.

Lemma canonical_parts_idem parts canonical :
  Forall ascii parts -> canonical_parts parts = Some canonical ->
  canonical_parts canonical = Some canonical.
Proof.
  intros Hparts. unfold canonical_parts at 1. destruct Hparts as [|language rest Hl Hrest]; [done|].
  destruct (negb _) eqn:Hlang; [done|].
  destruct (take_part is_script str_title rest) as [script rest1] eqn:Hs.
  destruct (take_part is_region str_upper rest1) as [region rest2] eqn:Hr.
  destruct (forallb is_variant rest2) eqn:Hv; [|done]. intros [= <-].
  apply take_part_again in Hs as [Hrest1 Hs]; [|apply kind_script| |done].
  2:{ intros s Ha. by split; [apply title_same_kind_str|apply title_idem]. }
  pose proof (take_part_kinds _ _ _ _ _ upper_same_kind Hrest1 Hr) as Hkinds.
  apply take_part_again in Hr as [Hrest2 Hr]; [|apply kind_region| |done].
  2:{ intros s Ha. by split; [apply upper_same_kind|apply upper_idem]. }
  pose proof (lower_kinds rest2 Hrest2) as Hlow.
  cbn [canonical_parts]. rewrite <- (kind_language _ _ (lower_same_kind language Hl)), Hlang.
  rewrite Hs.
  2:{ apply Forall2_app_inv_r in Hkinds as (l1 & l2 & H1 & H2 & ->). apply Forall2_app; [done|].
      clear -H2 Hlow. revert H2 Hlow. generalize (str_lower <$> rest2). intros l3 H2 H3.
      revert l3 H3; induction H2; inversion 1; subst; constructor; eauto using same_kind_trans. }
  rewrite Hr by done. rewrite <- (kind_variants _ _ Hlow), Hv, lower_idem by done. do 3 f_equal.
  f_equal. clear -Hrest2. induction Hrest2; cbn; [done|]. by rewrite lower_idem, IHHrest2.
Qed.

Definition alnum (s : pystr) : Prop := Forall (fun c => alnum_ascii c = true) s.

Lemma kind_alnum s t : same_kind s t -> alnum s -> alnum t.
Proof.
  induction 1 as [|c d s t (_ & _ & Ha & Hd) _ IH]; [done|]. intros [Hc Hs]%Forall_cons.
  constructor; [|by apply IH]. unfold alnum_ascii in *. by rewrite <- Ha, <- Hd.
Qed.

Lemma alpha_alnum s : ascii s -> str_isalpha s = true -> alnum s.
Proof.
  intros Hs Ha. unfold str_isalpha in Ha. apply andb_true_iff in Ha as [_ Ha].
  induction Hs as [|c s Hc Hs IH]; [constructor|]. cbn in Ha. apply andb_true_iff in Ha as [Hc' Ha].
  constructor; [|by apply IH]. unfold isalpha_c in Hc'. rewrite Hc in Hc'. unfold alnum_ascii. by rewrite Hc'.
Qed.
Lemma digit_alnum s : ascii s -> str_isdigit s = true -> alnum s.
Proof.
  intros Hs Ha. unfold str_isdigit in Ha. apply andb_true_iff in Ha as [_ Ha].
  induction Hs as [|c s Hc Hs IH]; [constructor|]. cbn in Ha. apply andb_true_iff in Ha as [Hc' Ha].
  constructor; [|by apply IH]. unfold isdigit_c in Hc'. rewrite Hc in Hc'. unfold alnum_ascii. rewrite Hc'.
  by rewrite orb_true_r.
Qed.
Lemma isalnum_alnum s : ascii s -> str_isalnum s = true -> alnum s.
Proof.
  intros Hs Ha. unfold str_isalnum in Ha. apply andb_true_iff in Ha as [_ Ha].
  induction Hs as [|c s Hc Hs IH]; [constructor|]. cbn in Ha. apply andb_true_iff in Ha as [Hc' Ha].
  constructor; [|by apply IH]. unfold isalnum_c in Hc'. by rewrite Hc in Hc'.
Qed.

Lemma script_alnum s : ascii s -> is_script s = true -> alnum s.
Proof. intros Hs Hi. apply andb_true_iff in Hi as [_ Hi]. by apply alpha_alnum. Qed.
Lemma region_alnum s : ascii s -> is_region s = true -> alnum s.
Proof.
  intros Hs Hi. apply orb_true_iff in Hi as [Hi|Hi]; apply andb_true_iff in Hi as [_ Hi];
    [by apply alpha_alnum|by apply digit_alnum].
Qed.
Lemma variant_alnum s : ascii s -> is_variant s = true -> alnum s.
Proof.
  intros Hs Hi. apply andb_true_iff in Hi as [Hi _]. apply andb_true_iff in Hi as [_ Hi].
  by apply isalnum_alnum.
Qed.

Lemma take_part_alnum test f parts taken rest :
  (forall s, ascii s -> test s = true -> alnum s) -> (forall s, ascii s -> same_kind s (f s)) ->
  Forall ascii parts -> take_part test f parts = (taken, rest) -> Forall alnum taken /\ Forall ascii rest.
Proof.
  intros Htest Hf Hparts Ht. destruct Hparts as [|p parts Hp Hparts]; cbn in Ht.
  { injection Ht as <- <-. split; constructor. }
  destruct (test p) eqn:Hp'; injection Ht as <- <-; [|by repeat constructor].
  split; [|done]. constructor; [|constructor]. eapply kind_alnum; [by apply Hf|]. by apply Htest.
Qed.

(** The parts of a canonical name, and the single part it may come from. *)
Lemma canonical_parts_spec parts canonical :
  Forall ascii parts -> canonical_parts parts = Some canonical ->
  exists language rest rest', parts = language :: rest /\ canonical = str_lower language :: rest' /\
    Forall alnum canonical /\ (2 <= length language)%nat /\ alnum language /\ (rest' = [] -> rest = []).
Proof.
  intros Hparts. unfold canonical_parts. destruct Hparts as [|language rest Hl Hrest]; [done|].
  destruct (negb _) eqn:Hlang; [done|]. apply negb_false_iff in Hlang.
  apply andb_true_iff in Hlang as [Hlang Ha]. apply andb_true_iff in Hlang as [H2 _].
  apply Nat.leb_le in H2.
  destruct (take_part is_script str_title rest) as [script rest1] eqn:Hs.
  destruct (take_part is_region str_upper rest1) as [region rest2] eqn:Hr.
  destruct (forallb is_variant rest2) eqn:Hv; [|done]. intros [= <-].
  pose proof (take_part_alnum _ _ _ _ _ script_alnum title_same_kind_str Hrest Hs) as [Hscript Hrest1].
  pose proof (take_part_alnum _ _ _ _ _ region_alnum upper_same_kind Hrest1 Hr) as [Hregion Hrest2].
  exists language, rest, (script ++ region ++ (str_lower <$> rest2)).
  split; [done|]. split; [done|]. pose proof (alpha_alnum _ Hl Ha) as Hla. split; [|split; [done|split; [done|]]].
  - constructor; [by eapply kind_alnum; [apply lower_same_kind|]|].
    apply Forall_app. split; [done|]. apply Forall_app. split; [done|].
    apply Forall_fmap, Forall_forall. intros s Hin. cbn.
    pose proof (proj1 (Forall_forall _ _) Hrest2 s Hin) as Has.
    eapply kind_alnum; [by apply lower_same_kind|]. apply variant_alnum; [done|].
    by apply (proj1 (forallb_elem _ _) Hv).
  - intros Hnil. apply app_eq_nil in Hnil as [-> Hnil]. apply app_eq_nil in Hnil as [-> Hnil].
    apply fmap_nil_inv in Hnil as ->.
    destruct rest as [|p rest]; [done|]. cbn in Hs. destruct (is_script p); [done|].
    injection Hs as <-. cbn in Hr. by destruct (is_region p).
Qed.

(* ------------------------------------------------------------------ *)
(** ** Normalisation is idempotent *)

(** The characters of a canonical name. *)
Definition tag_char (c : N) : bool := alnum_ascii c || (c =? dash).

Lemma alnum_no_dash s : alnum s -> dash ∉ s.
Proof. intros Hs Hin. apply (proj1 (Forall_forall _ _) Hs) in Hin. vm_compute in Hin. discriminate Hin. Qed.

Lemma join_tag l : Forall alnum l -> Forall (fun c => tag_char c = true) (str_join [dash] l).
Proof.
  intros Hl. assert (forall s, alnum s -> Forall (fun c => tag_char c = true) s) as Ha.
  { intros s Hs. eapply Forall_impl; [exact Hs|]. intros c Hc. unfold tag_char. by rewrite Hc. }
  induction Hl as [|s l Hs Hl IH]; cbn [str_join]; [constructor|]. destruct l; [by apply Ha|].
  apply Forall_app. split; [by apply Ha|]. by constructor.
Qed.

Lemma strip_tag s : Forall (fun c => tag_char c = true) s -> str_strip s = s.
Proof.
  intros Hs. assert (forall t, Forall (fun c => tag_char c = true) t -> drop_space t = t) as Hd.
  { intros t Ht. destruct Ht as [|c t Hc Ht]; [done|]. cbn.
    replace (isspace_c c) with false; [done|].
    unfold tag_char, dash in Hc. unfold isspace_c, space_ascii. destruct (isascii_c c) eqn:Hasc;
      destruct (N.eqb_spec c 45); char_cases. }
  unfold str_strip. rewrite (Hd s) by done. rewrite Hd; [by rewrite reverse_involutive|].
  by apply Forall_reverse.
Qed.

Lemma str_before_id c s : c ∉ s -> str_before c s = s.
Proof.
  induction s as [|x s IH]; cbn; [done|]. intros Hn. destruct (N.eqb_spec x c); [set_solver|].
  f_equal. apply IH. set_solver.
Qed.

Lemma replace_id a b s : a ∉ s -> str_replace_c a b s = s.
Proof.
  intros Hn. unfold str_replace_c. induction s as [|x s IH]; cbn; [done|].
  destruct (N.eqb_spec x a); [set_solver|]. f_equal. apply IH. set_solver.
Qed.

Lemma drop_space_ascii s : ascii s -> ascii (drop_space s).
Proof. induction 1 as [|c s Hc Hs IH]; cbn; [constructor|]. destruct (isspace_c c); [done|by constructor]. Qed.
Lemma strip_ascii s : ascii s -> ascii (str_strip s).
Proof. intros Hs. by apply Forall_reverse, drop_space_ascii, Forall_reverse, drop_space_ascii. Qed.
Lemma before_ascii c s : ascii s -> ascii (str_before c s).
Proof. induction 1 as [|x s Hx Hs IH]; cbn; [constructor|]. destruct (x =? c); by constructor. Qed.
Lemma replace_ascii s : ascii s -> ascii (str_replace_c 95 dash s).
Proof.
  intros Hs. apply Forall_fmap. eapply Forall_impl; [exact Hs|]. intros c Hc. cbn.
  by destruct (c =? 95).
Qed.
Lemma split_ascii c s : ascii s -> Forall ascii (str_split c s).
Proof.
  induction 1 as [|x s Hx Hs IH]; cbn; [by repeat constructor|].
  destruct (str_split c s) as [|w ws]; [by repeat constructor|].
  apply Forall_cons in IH as [Hw Hws]. destruct (x =? c); repeat constructor; done.
Qed.

Lemma tag_excludes s c : Forall (fun c => tag_char c = true) s -> tag_char c = false -> c ∉ s.
Proof. intros Hs Hc Hin. apply (proj1 (Forall_forall _ _) Hs) in Hin. congruence. Qed.

(** What a successful normalisation of an ASCII value goes through. *)
Lemma normalized_inv value s : ascii value -> _normalized_locale (VStr value) = Some s ->
  exists tag canonical, ascii tag /\ str_upper tag ∉ [§"C"; §"POSIX"] /\
    canonical_parts (str_split dash (str_replace_c 95 dash tag)) = Some canonical /\
    s = str_join [dash] canonical /\ fullmatch _CANONICAL_LOCALE s = true.
Proof.
  intros Hascii. unfold _normalized_locale. destruct (negb _); [done|]. case_bool_decide as Hc; [done|].
  set (tag := without_encoding (str_strip value)) in *.
  destruct (canonical_parts _) as [canonical|] eqn:Hp; [|done]. cbn [mbind option_bind].
  destruct (fullmatch _ _) eqn:Hm; [|done]. intros [= <-].
  exists tag, canonical. split; [|done]. by apply before_ascii, before_ascii, strip_ascii.
Qed.

Lemma join_two_dash s t l : dash ∈ str_join [dash] (s :: t :: l).
Proof. cbn [str_join]. set_solver. Qed.

Lemma upper_dash s : ascii s -> dash ∈ s -> dash ∈ str_upper s.
Proof.
  intros Hs Hin. rewrite upper_ascii_eq by done. apply list_elem_of_fmap. by exists dash.
Qed.

Lemma tag_ascii s : Forall (fun c => tag_char c = true) s -> ascii s.
Proof.
  intros Hs. eapply Forall_impl; [exact Hs|]. intros c Hch. unfold tag_char, dash in Hch.
  destruct (N.eqb_spec c 45); char_cases.
Qed.

Lemma lower_join_length language rest' : ascii language ->
  (length language <= length (str_join [dash] (str_lower language :: rest')))%nat.
Proof.
  intros Hl. pose proof (kind_length _ _ (lower_same_kind language Hl)). cbn [str_join].
  destruct rest'; rewrite ?length_app; lia.
Qed.

(** A canonical name is not one of the reserved names either. *)
Lemma canonical_not_reserved tag language rest rest' :
  str_upper tag ∉ [§"C"; §"POSIX"] ->
  str_split dash (str_replace_c 95 dash tag) = language :: rest ->
  Forall alnum (str_lower language :: rest') -> alnum language -> ascii language ->
  (2 <= length language)%nat -> (rest' = [] -> rest = []) ->
  str_upper (str_join [dash] (str_lower language :: rest')) ∉ [§"C"; §"POSIX"].
Proof.
  intros Hc Hsplit Halnum Hlang Hla H2 Hnil Hin.
  set (s := str_join [dash] (str_lower language :: rest')) in *.
  assert (ascii s) as Has by (by apply tag_ascii, join_tag).
  pose proof (lower_join_length language rest' Hla) as Hlen. fold s in Hlen.
  apply elem_of_cons in Hin as [HC|HP%list_elem_of_singleton].
  { apply (f_equal length) in HC. rewrite <- (kind_length _ _ (upper_same_kind s Has)) in HC.
    change (length §"C") with 1%nat in HC. lia. }
  destruct rest' as [|r' rest'].
  2:{ assert (dash ∈ str_upper s) as Hd by (apply upper_dash; [done|]; apply join_two_dash).
      rewrite HP in Hd. vm_compute in Hd. set_solver. }
  apply Hc. rewrite (Hnil eq_refl) in Hsplit.
  assert (str_replace_c 95 dash tag = language) as Htl.
  { rewrite <- (str_join_split dash (str_replace_c 95 dash tag)), Hsplit. done. }
  assert (95 ∉ tag) as H95.
  { intros Hin. apply (alnum_no_dash language Hlang). rewrite <- Htl.
    apply list_elem_of_fmap. by exists 95. }
  rewrite (replace_id 95 dash tag H95) in Htl. rewrite Htl, <- upper_lower by done.
  change (str_upper s = §"POSIX") in HP. unfold s in HP. cbn [str_join] in HP. rewrite HP. set_solver.
Qed.

Lemma normalized_idem value s : ascii value -> _normalized_locale (VStr value) = Some s ->
  _normalized_locale (VStr s) = Some s.
Proof.
  intros Hascii Hn. destruct (normalized_inv value s Hascii Hn) as (tag & canonical & Htag & Hc & Hp & -> & Hm).
  assert (Forall ascii (str_split dash (str_replace_c 95 dash tag))) as Hparts.
  { by apply split_ascii, replace_ascii. }
  pose proof (canonical_parts_idem _ _ Hparts Hp) as Hidem.
  destruct (canonical_parts_spec _ _ Hparts Hp) as (language & rest & rest' & Hsplit & -> & Halnum & H2 & Hlang & Hnil).
  assert (ascii language) as Hla by (rewrite Hsplit in Hparts; by apply Forall_cons in Hparts as [? _]).
  pose proof (canonical_not_reserved _ _ _ _ Hc Hsplit Halnum Hlang Hla H2 Hnil) as Hfree.
  pose proof (lower_join_length language rest' Hla) as Hlen. pose proof (join_tag _ Halnum) as Hs.
  assert (str_split dash (str_join [dash] (str_lower language :: rest')) = str_lower language :: rest') as Hback.
  { apply str_split_join; [done|]. eapply Forall_impl; [exact Halnum|]. apply alnum_no_dash. }
  set (s := str_join [dash] (str_lower language :: rest')) in *.
  unfold _normalized_locale. rewrite strip_tag by done. unfold without_encoding.
  rewrite (str_before_id 64 s) by by apply tag_excludes.
  rewrite (str_before_id 46 s) by by apply tag_excludes.
  assert (str_true s = true) as -> by (destruct s; [cbn in Hlen; lia|done]).
  cbn [negb]. rewrite bool_decide_eq_false_2 by done. rewrite replace_id by by apply tag_excludes.
  rewrite Hback, Hidem. cbn [mbind option_bind]. fold s. by rewrite Hm.
Qed.

(* ------------------------------------------------------------------ *)
(** ** The fallback chain *)

(** A locale and its parents, the most specific first. *)
Definition prefixes (parts : list pystr) : list pystr :=
  (fun n => str_join [dash] (take n parts)) <$> reverse (seq 1 (length parts)).

Lemma prefixes_snoc l w : prefixes (l ++ [w]) = str_join [dash] (l ++ [w]) :: prefixes l.
Proof.
  unfold prefixes. rewrite length_app. cbn [length]. rewrite Nat.add_1_r, seq_S, reverse_snoc.
  cbn [fmap list_fmap]. f_equal; [by rewrite firstn_all2 by (rewrite length_app; cbn; lia)|].
  apply list_fmap_ext. intros i n Hn. apply list_elem_of_lookup_2, elem_of_reverse, elem_of_seq in Hn.
  rewrite take_app_le; [done|lia].
Qed.

Lemma join_snoc l w : l ≠ [] -> str_join [dash] (l ++ [w]) = str_join [dash] l ++ dash :: w.
Proof.
  induction l as [|s l IH]; [done|]. intros _. destruct l as [|t l]; [done|].
  change (str_join [dash] ((s :: t :: l) ++ [w])) with (s ++ [dash] ++ str_join [dash] ((t :: l) ++ [w])).
  rewrite IH by done. change (str_join [dash] (s :: t :: l)) with (s ++ [dash] ++ str_join [dash] (t :: l)).
  by rewrite <- !app_assoc.
Qed.

Lemma rpartition_join l w : dash ∉ w ->
  str_rpartition_head dash (str_join [dash] (l ++ [w])) = str_join [dash] l.
Proof.
  intros Hw. unfold str_rpartition_head. destruct (decide (l = [])) as [->|Hl].
  - cbn [app str_join]. destruct (str_after dash (reverse w)) as [r|] eqn:Ha; [|done].
    apply str_after_before in Ha. assert (dash ∈ reverse w) as Hin by (rewrite Ha; set_solver).
    exfalso. apply Hw. rewrite elem_of_reverse in Hin. done.
  - rewrite join_snoc by done. rewrite reverse_app, reverse_cons, <- app_assoc. cbn [app].
    rewrite str_after_app; [by rewrite reverse_involutive|]. by rewrite elem_of_reverse.
Qed.

Lemma join_longer l w : w ≠ [] ->
  (length (str_join [dash] l) < length (str_join [dash] (l ++ [w])))%nat.
Proof.
  intros Hw. destruct (decide (l = [])) as [->|Hl].
  - destruct w; [done|cbn; lia].
  - rewrite join_snoc by done. rewrite length_app. cbn. lia.
Qed.

Lemma longer_true n (s : pystr) : (n < length s)%nat -> str_true s = true.
Proof. destruct s; [cbn; lia|done]. Qed.

Definition part_ok (w : pystr) : Prop := w ≠ [] /\ dash ∉ w.

Lemma parents_spec l fuel acc :
  Forall part_ok l -> (length (str_join [dash] l) < fuel)%nat ->
  (forall x, x ∈ acc -> (length (str_join [dash] l) < length x)%nat) ->
  parents fuel (str_join [dash] l) acc = acc ++ prefixes l.
Proof.
  revert fuel acc. induction l as [|w l IH] using rev_ind; intros fuel acc Hok Hfuel Hacc.
  { destruct fuel; cbn; by rewrite app_nil_r. }
  apply Forall_app in Hok as [Hok [[Hw Hd] _]%Forall_cons].
  destruct fuel as [|fuel]; [lia|]. cbn [parents].
  pose proof (join_longer l w Hw) as Hlt.
  assert (str_true (str_join [dash] (l ++ [w])) = true) as ->.
  { by eapply longer_true. }
  rewrite bool_decide_eq_false_2 by (intros Hin; specialize (Hacc _ Hin); lia).
  rewrite rpartition_join by done. rewrite IH.
  - by rewrite prefixes_snoc, <- app_assoc.
  - done.
  - unfold pystr in *. lia.
  - unfold pystr in *. intros x [Hx| ->%list_elem_of_singleton]%elem_of_app; [specialize (Hacc x Hx); lia|lia].
Qed.

(** A string of parts, each after a dash. *)
Definition dashed (ws : list pystr) : pystr := ws ≫= (cons dash).

Lemma split_dashed w ws : dash ∉ w -> Forall part_ok ws -> str_split dash (w ++ dashed ws) = w :: ws.
Proof.
  intros Hw Hws. revert w Hw. induction Hws as [|w' ws [_ Hd] Hws IH]; intros w Hw.
  - cbn. rewrite app_nil_r. by apply str_split_piece.
  - cbn [dashed mbind list_bind]. change (w ++ (dash :: w') ++ (ws ≫= cons dash)) with (w ++ dash :: w' ++ dashed ws).
    rewrite str_split_app by done. by rewrite IH.
Qed.

Definition part_re (r : regex) : Prop := rforall alnum_ascii r /\ nullable r = false.

Lemma part_re_ok r s : part_re r -> matches r s -> part_ok s.
Proof.
  intros [Hr Hn] Hm. split.
  - intros ->. apply nullable_spec in Hm. congruence.
  - apply alnum_no_dash. by eapply matches_forall.
Qed.

Lemma dash_part r s : part_re r -> matches (RSeq (rchar dash) r) s ->
  exists w, s = dash :: w /\ part_ok w.
Proof.
  intros Hr (s1 & s2 & -> & Hd & Hm)%matches_seq. apply matches_class in Hd as (c & -> & Hc).
  apply N.eqb_eq in Hc as <-. exists s2. split; [done|]. by eapply part_re_ok.
Qed.

Lemma opt_part r s : part_re r -> matches (ropt (RSeq (rchar dash) r)) s ->
  exists ws, s = dashed ws /\ Forall part_ok ws.
Proof.
  intros Hr [Hm|Hm]%matches_alt.
  - apply (dash_part _ _ Hr) in Hm as (w & -> & Hw). exists [w]. split; [cbn; by rewrite app_nil_r|]. by apply Forall_singleton.
  - apply matches_eps in Hm as ->. by exists [].
Qed.

Lemma star_part r s : part_re r -> matches (RStar (RSeq (rchar dash) r)) s ->
  exists ws, s = dashed ws /\ Forall part_ok ws.
Proof.
  intros Hr. remember (length s) as n eqn:Hn. revert s Hn.
  induction (lt_wf n) as [n _ IH]. intros s Hn Hm. destruct s as [|c s]; [by exists []|].
  apply matches_star_cons in Hm as (s1 & s2 & -> & H1 & H2).
  apply (dash_part _ _ Hr) in H1 as (w & [= -> ->] & Hw).
  destruct (IH (length s2)) with (s := s2) as (ws & -> & Hws); [subst n; cbn; rewrite length_app; lia|done|done|].
  exists (w :: ws). split; [done|]. by constructor.
Qed.

Lemma canonical_locale_parts s : fullmatch _CANONICAL_LOCALE s = true ->
  Forall part_ok (str_split dash s).
Proof.
  intros Hm. apply fullmatch_spec in Hm.
  apply matches_seq in Hm as (s1 & r1 & -> & H1 & Hm). apply matches_seq in Hm as (s2 & r2 & -> & H2 & Hm).
  apply matches_seq in Hm as (s3 & s4 & -> & H3 & H4).
  assert (part_ok s1) as Hs1 by (eapply part_re_ok; [|exact H1]; solve_part_re).
  apply opt_part in H2 as (w2 & -> & H2); [|solve_part_re].
  apply opt_part in H3 as (w3 & -> & H3); [|solve_part_re].
  apply star_part in H4 as (w4 & -> & H4); [|solve_part_re].
  assert (dashed w2 ++ dashed w3 ++ dashed w4 = dashed (w2 ++ w3 ++ w4)) as ->.
  { unfold dashed. by rewrite !bind_app. }
  assert (Forall part_ok (w2 ++ w3 ++ w4)) as Hall by (rewrite !Forall_app; done).
  rewrite split_dashed by (done || apply Hs1). by constructor.
Qed.

Lemma normalized_full v s : _normalized_locale v = Some s -> fullmatch _CANONICAL_LOCALE s = true.
Proof.
  unfold _normalized_locale. destruct v as [| | | |value| | |]; try done.
  destruct (negb _); [done|]. case_bool_decide; [done|].
  destruct (canonical_parts _) as [canonical|]; [|done]. cbn [mbind option_bind].
  destruct (fullmatch _ _) eqn:Hm; [|done]. by intros [= <-].
Qed.

Lemma canonical_true s : fullmatch _CANONICAL_LOCALE s = true -> str_true s = true.
Proof. destruct s; [|done]. intros Hm. vm_compute in Hm. discriminate Hm. Qed.

(** Texts fall back from the requested locale to its parents, the most
    specific first, and then to the catalog's default locale: this is the chain
    of the locales that are looked up, a request that is no locale name counts
    as the default, and a key with a text in the default locale always has one.
    Normalising a name is idempotent on ASCII names, so the canonical names a
    catalog must use are the ones requests are normalised to. *)
Theorem locale_fallback (c : PresentationCatalog) (requested : option pystr) :
  _normalized_locale (VStr (default_locale c)) = Some (default_locale c) ->
  let base := default (default_locale c) (requested ≫= fun r => _normalized_locale (VStr r)) in
  let chain := prefixes (str_split dash base) in
  _locale_chain requested (default_locale c)
    = chain ++ (if bool_decide (default_locale c ∈ chain) then [] else [default_locale c]) /\
  (forall key t, dget (dget_or (messages c) (default_locale c) []) key = Some t -> t ≠ [] ->
     is_Some (text c key requested)) /\
  (forall value s, ascii value -> _normalized_locale (VStr value) = Some s ->
     _normalized_locale (VStr s) = Some s).
Proof.
  intros Hd base chain.
  assert (fullmatch _CANONICAL_LOCALE base = true) as Hbase.
  { unfold base. destruct requested as [r|]; cbn [option_bind mbind].
    - destruct (_normalized_locale (VStr r)) as [s|] eqn:Hr; by eapply normalized_full.
    - by eapply normalized_full. }
  assert (_locale_chain requested (default_locale c)
    = chain ++ (if bool_decide (default_locale c ∈ chain) then [] else [default_locale c])) as Hchain.
  { unfold _locale_chain.
    assert (match match requested with Some r => _normalized_locale (VStr r) | None => None end with
            | Some n => if str_true n then n else default_locale c
            | None => default_locale c end = base) as ->.
    { unfold base. destruct requested as [r|]; [|done]. cbn [option_bind mbind].
      destruct (_normalized_locale (VStr r)) as [s|] eqn:Hr; [|done]. cbn.
      by rewrite (canonical_true s (normalized_full _ _ Hr)). }
    cbv zeta. pose proof (parents_spec (str_split dash base) (S (length base)) [] (canonical_locale_parts _ Hbase)) as Hp.
    rewrite str_join_split in Hp. rewrite Hp; [|lia|intros x Hx; destruct (not_elem_of_nil _ Hx)].
    fold chain. cbn [app]. case_bool_decide; [by rewrite app_nil_r|done]. }
  split; [done|]. split; [|by apply normalized_idem].
  intros key t Ht Hne. unfold text. destruct (find_first _ _) as [x|] eqn:Hf; [done|]. exfalso.
  rewrite find_first_None in Hf. assert (str_true t = false) as Hfalse; [apply Hf|by destruct t].
  rewrite list_elem_of_omap. exists (default_locale c). split; [|done].
  rewrite Hchain. case_bool_decide; set_solver.
Qed.
End LocaleLemmas.

(* ------------------------------------------------------------------ *)
(** ** Witnesses *)

Definition sample_catalog : PresentationCatalog := {|
  default_locale := §"en-US";
  messages := [(§"en-US", [(§"app.name", §"Clock")]); (§"zh", [(§"app.name", §"Shizhong")])];
|}.

Lemma locale_fallback_witness :
  _locale_chain (Some §"zh_hans_CN.UTF-8@calendar") §"en-US"
    = [§"zh-Hans-CN"; §"zh-Hans"; §"zh"; §"en-US"] /\
  text sample_catalog §"app.name" (Some §"zh_hans_CN.UTF-8@calendar") = Some §"Shizhong".
Proof.
  destruct (locale_fallback sample_catalog (Some §"zh_hans_CN.UTF-8@calendar")) as (Hc & _ & _).
  - vm_compute. reflexivity.
  - split; [|vm_compute; reflexivity].
    change §"en-US" with (default_locale sample_catalog). rewrite Hc. vm_compute. reflexivity.
Defined.

(** Two files, one of them damaged. *)
Definition sample_document : pyval := VDict [
  (§"schema", VStr CATALOG_SCHEMA); (§"default_locale", VStr §"en");
  (§"messages", VDict [(§"en", VDict [(§"app.name", VStr §"Clock")])])].

#[local] Instance sample_files : CatalogFiles := {|
  file_stat _ := Ok {| is_regular := true; st_size := 100 |};
  read_bytes p := Ok (lit "x");
  decode_json _ _ _ := Ok sample_document;
  resolve_strict _ := Ok (path_of §"/opt/app");
  absolute_str := path_str;
|}.

Definition sample_manifest : ppath := path_of §"/opt/app/manifest.json".

Lemma sample_absolute p q r : absolute_str p = absolute_str q -> load_entry p r = load_entry q r.
Proof. done. Qed.

(** A cache for one catalog that already holds another one. *)
Definition sample_cache : PresentationCatalogCache :=
  (get (make 1) sample_manifest (VStr §"i18n/a.json")).1.

Lemma catalog_cache_transparent_witness :
  (get sample_cache sample_manifest (VStr §"i18n/b.json")).2 = load_entry sample_manifest §"i18n/b.json" /\
  length (_entries (get sample_cache sample_manifest (VStr §"i18n/b.json")).1) = 1%nat.
Proof.
  assert (cache_ok sample_cache) as Hok.
  { exact (proj1 (catalog_cache_transparent sample_absolute (make 1) sample_manifest
      (VStr §"i18n/a.json") _ _ (make_ok 1) (surjective_pairing _))). }
  destruct (catalog_cache_transparent sample_absolute sample_cache sample_manifest (VStr §"i18n/b.json") _ _
    Hok (surjective_pairing _)) as (_ & _ & Hr).
  assert (valid_relative_path (VStr §"i18n/b.json") = Some §"i18n/b.json") as Hv by (vm_compute; reflexivity).
  rewrite Hv in Hr. destruct Hr as [Hr _]. split; [exact Hr|]. vm_compute. reflexivity.
Defined.
End I18n.
