(* ===== verification/Profile.v ===== *)
(** * The profile contract ([msys_core/profile_contract.py])

    The validator of [msys.profile.v1] documents, field by field, and a
    declarative specification of the profiles it accepts.  Reading and decoding
    a file is the [ProfileFiles] interface. *)

From Stdlib Require Import ZArith.
From S2P Require Export PyPath.

Module Profile.

Definition name_re (first rest : N -> bool) : regex := RSeq (cls first) (RStar (cls rest)).
Definition lower_digit (c : N) : bool := lower_ascii c || digit_ascii c.

Definition _PROFILE_ID : regex := name_re lower_ascii (fun c => lower_digit c || one_of §".-" c).
Definition _ROLE : regex := name_re lower_ascii (fun c => lower_digit c || one_of §".-" c).
Definition package_segment_re : regex := name_re lower_digit (fun c => lower_digit c || one_of §"_-" c).
Definition _COMPONENT_REF : regex :=
  RSeq (ropt (RSeq package_segment_re
                (RSeq (rplus (RSeq (rchar 46) package_segment_re)) (rchar 58))))
       (name_re lower_ascii (fun c => lower_digit c || one_of §"._-" c)).
Definition _ENV_NAME : regex :=
  name_re (fun c => alpha_ascii c || one_of §"_" c) (fun c => alnum_ascii c || one_of §"_" c).
Definition _EXTENSION : regex :=
  RSeq (rlit §"x-") (name_re lower_digit (fun c => lower_digit c || one_of §"._-" c)).

Section Validator.
Context `{PyLib} `{PyRepr}.

Definition _fail (path message : pystr) : exn := Exn ProfileContractError (path ++ §": " ++ message).

Definition _object (value : pyval) (path : pystr) : py (dict pystr pyval) :=
  ok_or (as_dict value) (_fail path §"must be an object").

Definition _array (value : pyval) (path : pystr) : py (list pyval) :=
  ok_or (as_list value) (_fail path §"must be an array").

Definition _string (value : pyval) (path : pystr) (minimum : nat) (maximum : option nat)
    (pattern : option regex) : py pystr :=
  s ← ok_or (as_str value) (_fail path §"must be a string");
  raise_if (length s <? minimum)%nat
    (_fail path (§"must contain at least " ++ dec_N (N.of_nat minimum) ++ §" character(s)"));;
  raise_if (match maximum with Some m => (m <? length s)%nat | None => false end)
    (_fail path (§"must contain at most " ++ dec_N (N.of_nat (default 0%nat maximum))
                 ++ §" character(s)"));;
  raise_if (str_has 0 s) (_fail path §"must not contain NUL");;
  raise_if (match pattern with Some r => negb (fullmatch r s) | None => false end)
    (_fail path (§"has invalid format: " ++ py_repr (VStr s)));;
  Ok s.

Definition index_path (path : pystr) (index : nat) : pystr :=
  path ++ §"[" ++ dec_N (N.of_nat index) ++ §"]".

(** [remaining] is [65 - depth]. *)
Fixpoint _json_value (remaining : nat) (value : pyval) (path : pystr) : py unit :=
  match remaining with
  | O => Raise (_fail path §"JSON nesting exceeds 64 levels")
  | S remaining =>
      match value with
      | VNone | VStr _ | VBool _ | VInt _ => Ok tt
      | VFloat f => raise_if (negb (float_finite f)) (_fail path §"must be a finite JSON number")
      | VList items =>
          imapR (fun index item => _json_value remaining item (index_path path index)) items;;
          Ok tt
      | VDict fields =>
          mapR (fun kv => _json_value remaining kv.2 (path ++ §"." ++ kv.1)) fields;;
          Ok tt
      | VOther type_name => Raise (_fail path (§"contains a non-JSON value of type " ++ type_name))
      end
  end.

Definition MAX_DEPTH : nat := 65.

Definition _keys (value : dict pystr pyval) (path : pystr) (allowed required : list pystr) : py unit :=
  let missing := sorted_strs (List.filter (fun k => negb (dhas value k)) required) in
  raise_if (negb (bool_decide (missing = [])))
    (_fail path (§"missing required field(s): " ++ str_join §", " missing));;
  mapR (fun kv =>
    if bool_decide (kv.1 ∈ allowed) then Ok tt
    else raise_if (negb (fullmatch _EXTENSION kv.1))
           (_fail path (§"unknown field " ++ py_repr (VStr kv.1)
                        ++ §"; extensions must start with x-"));;
         _json_value MAX_DEPTH kv.2 (path ++ §"." ++ kv.1)) value;;
  Ok tt.

(** The loop over the items of [_unique_strings]. *)
Fixpoint unique_items (path : pystr) (pattern : regex) (index : nat) (seen : list pystr)
    (items : list pyval) : py (list pystr) :=
  match items with
  | [] => Ok seen
  | raw :: items =>
      item ← _string raw (index_path path index) 1 (Some 255%nat) (Some pattern);
      raise_if (bool_decide (item ∈ seen))
        (_fail path (§"contains duplicate value " ++ py_repr (VStr item)));;
      unique_items path pattern (S index) (seen ++ [item]) items
  end.

Definition _unique_strings (value : pyval) (path : pystr) (pattern : regex) (maximum_items : nat)
    : py (list pystr) :=
  items ← _array value path;
  raise_if (maximum_items <? length items)%nat
    (_fail path (§"must contain at most " ++ dec_N (N.of_nat maximum_items) ++ §" items"));;
  unique_items path pattern 0 [] items.

Definition validate_profile_id (value : pyval) (path : pystr) : py pystr :=
  _string value path 1 (Some 128%nat) (Some _PROFILE_ID).

Definition profile_fields : list pystr :=
  [§"schema"; §"id"; §"roles"; §"disabled_roles"; §"startup"; §"env"; §"state_dir"; §"isolation";
   §"settings"].
Definition required_fields : list pystr := [§"schema"; §"id"; §"roles"; §"startup"].

(** [profile[k]] for a required field. *)
Definition field (profile : dict pystr pyval) (k : pystr) : pyval := dget_or profile k VNone.

Definition check_id (profile : dict pystr pyval) (expected_id : option pyval) : py unit :=
  profile_id ← validate_profile_id (field profile §"id") §"$.id";
  match expected_id with
  | None => Ok tt
  | Some expected =>
      requested ← validate_profile_id expected §"$requested_profile";
      raise_if (negb (bool_decide (profile_id = requested)))
        (_fail §"$.id" (§"must match requested profile " ++ py_repr (VStr requested)))
  end.

Definition check_roles (profile : dict pystr pyval) : py (dict pystr pyval) :=
  roles ← _object (field profile §"roles") §"$.roles";
  raise_if (256 <? length roles)%nat (_fail §"$.roles" §"must contain at most 256 roles");;
  mapR (fun rc =>
    role ← _string (VStr rc.1) §"$.roles.<name>" 1 (Some 128%nat) (Some _ROLE);
    _unique_strings rc.2 (§"$.roles." ++ role) _COMPONENT_REF 64) roles;;
  Ok roles.

Definition check_conflicts (profile : dict pystr pyval) (roles : dict pystr pyval) : py unit :=
  disabled ← _unique_strings (dget_or profile §"disabled_roles" (VList [])) §"$.disabled_roles"
    _ROLE 256;
  let conflicts := sorted_strs (fromkeys (filter (.∈ disabled) (dkeys roles))) in
  raise_if (negb (bool_decide (conflicts = [])))
    (_fail §"$" (§"roles and disabled_roles conflict for: " ++ str_join §", " conflicts)).

Definition check_env (profile : dict pystr pyval) : py unit :=
  env ← _object (dget_or profile §"env" (VDict [])) §"$.env";
  raise_if (1024 <? length env)%nat (_fail §"$.env" §"must contain at most 1024 variables");;
  mapR (fun nv =>
    name ← _string (VStr nv.1) §"$.env.<name>" 1 (Some 255%nat) (Some _ENV_NAME);
    _string nv.2 (§"$.env." ++ name) 0 (Some (Z.to_nat 32768)) None) env;;
  Ok tt.

Definition check_state_dir (profile : dict pystr pyval) : py unit :=
  match dget profile §"state_dir" with
  | None => Ok tt
  | Some value =>
      state_dir ← _string value §"$.state_dir" 1 (Some 4096%nat) None;
      raise_if (negb (str_startswith §"/" state_dir))
        (_fail §"$.state_dir" §"must be an absolute Linux path")
  end.

Definition check_isolation (profile : dict pystr pyval) : py unit :=
  isolation ← _object (dget_or profile §"isolation" (VDict [])) §"$.isolation";
  _keys isolation §"$.isolation" [§"seccomp_helper"] [];;
  match dget isolation §"seccomp_helper" with
  | None => Ok tt
  | Some helper => _string helper §"$.isolation.seccomp_helper" 1 (Some 4096%nat) None;; Ok tt
  end.

Definition check_settings (profile : dict pystr pyval) : py unit :=
  settings ← _object (dget_or profile §"settings" (VDict [])) §"$.settings";
  _json_value MAX_DEPTH (VDict settings) §"$.settings".

Definition validate_profile (data : pyval) (expected_id : option pyval) : py (dict pystr pyval) :=
  profile ← _object data §"$";
  _keys profile §"$" profile_fields required_fields;;
  raise_if (negb (eq_str (field profile §"schema") §"msys.profile.v1"))
    (_fail §"$.schema" §"must equal 'msys.profile.v1'");;
  check_id profile expected_id;;
  roles ← check_roles profile;
  check_conflicts profile roles;;
  _unique_strings (field profile §"startup") §"$.startup" _COMPONENT_REF 1024;;
  check_env profile;;
  check_state_dir profile;;
  check_isolation profile;;
  check_settings profile;;
  Ok profile.
End Validator.

(* ------------------------------------------------------------------ *)
(** ** Profile files *)

(** What [json.loads] reports about malformed text: line, column, message. *)
Record JSONDecodeError := { lineno : Z; colno : Z; msg : pystr }.

(** [path.read_text(encoding="utf-8-sig")] followed by [json.loads] with its two
    hooks. *)
Class ProfileFiles := {
  decode_file : (list (pystr * pyval) -> py (dict pystr pyval)) -> (pystr -> exn) -> ppath ->
                result (JSONDecodeError + exn) pyval
}.

Section Files.
Context `{PyLib} `{PyRepr} `{ProfileFiles}.

Definition _reject_duplicate_fields (pairs : list (pystr * pyval)) : py (dict pystr pyval) :=
  foldR (fun result kv =>
    raise_if (dhas result kv.1)
      (Exn ProfileContractError (§"duplicate JSON object field " ++ py_repr (VStr kv.1)));;
    Ok (dset result kv.1 kv.2)) [] pairs.

Definition _reject_non_finite (value : pystr) : exn :=
  Exn ProfileContractError (§"non-finite JSON number " ++ py_repr (VStr value) ++ §" is not allowed").

Definition at_path (path : ppath) (e : exn) : exn :=
  if bool_decide (exn_type e = ProfileContractError)
  then Exn ProfileContractError (path_str path ++ §": " ++ exn_msg e)
  else e.

Definition load_profile_document (path : ppath) (expected_id : pyval) : py (dict pystr pyval) :=
  match decode_file _reject_duplicate_fields _reject_non_finite path with
  | Ok data => reraise (at_path path) (validate_profile data (Some expected_id))
  | Raise (inl e) =>
      Raise (Exn ProfileContractError
        (path_str path ++ §": invalid JSON at line " ++ dec_Z (lineno e) ++ §", column "
         ++ dec_Z (colno e) ++ §": " ++ msg e))
  | Raise (inr e) => Raise (at_path path e)
  end.
End Files.

(* ------------------------------------------------------------------ *)
(** ** What a valid profile is *)

Definition string_within (minimum maximum : nat) (s : pystr) : Prop :=
  (minimum <= length s <= maximum)%nat /\ 0 ∉ s.

Definition named (pattern : regex) (maximum : nat) (s : pystr) : Prop :=
  string_within 1 maximum s /\ matches pattern s.

(** JSON values nested at most [depth] levels deep. *)
Fixpoint json_within (depth : nat) (value : pyval) : Prop :=
  match depth with
  | O => False
  | S depth =>
      match value with
      | VNone | VStr _ | VBool _ | VInt _ => True
      | VFloat f => float_finite f = true
      | VList items => Forall (json_within depth) items
      | VDict fields => Forall (fun kv => json_within depth kv.2) fields
      | VOther _ => False
      end
  end.

(** A list of distinct names. *)
Definition name_list (pattern : regex) (maximum : nat) (value : pyval) (names : list pystr) : Prop :=
  value = VList (VStr <$> names) /\ (length names <= maximum)%nat /\ NoDup names /\
  Forall (named pattern 255) names.

(** The declared fields, and extensions with any JSON value. *)
Definition fields_within (d : dict pystr pyval) (allowed : list pystr) : Prop :=
  Forall (fun kv => kv.1 ∈ allowed \/ matches _EXTENSION kv.1 /\ json_within MAX_DEPTH kv.2) d.

Record profile_ok (p : dict pystr pyval) : Prop := {
  ok_required k : k ∈ required_fields -> k ∈ dkeys p;
  ok_fields : fields_within p profile_fields;
  ok_schema : field p §"schema" = VStr §"msys.profile.v1";
  ok_id : exists id, field p §"id" = VStr id /\ named _PROFILE_ID 128 id;
  ok_roles : exists roles disabled, field p §"roles" = VDict roles /\ (length roles <= 256)%nat /\
    Forall (fun rc => named _ROLE 128 rc.1 /\ exists l, name_list _COMPONENT_REF 64 rc.2 l) roles /\
    name_list _ROLE 256 (dget_or p §"disabled_roles" (VList [])) disabled /\
    (forall r, r ∈ dkeys roles -> r ∉ disabled);
  ok_startup : exists l, name_list _COMPONENT_REF 1024 (field p §"startup") l;
  ok_env : exists env, dget_or p §"env" (VDict []) = VDict env /\ (length env <= 1024)%nat /\
    Forall (fun nv => named _ENV_NAME 255 nv.1 /\
                      exists v, nv.2 = VStr v /\ string_within 0 (Z.to_nat 32768) v) env;
  ok_state_dir v : dget p §"state_dir" = Some v ->
    exists s, v = VStr (§"/" ++ s) /\ string_within 1 4096 (§"/" ++ s);
  ok_isolation : exists iso, dget_or p §"isolation" (VDict []) = VDict iso /\
    fields_within iso [§"seccomp_helper"] /\
    (forall v, dget iso §"seccomp_helper" = Some v ->
       exists s, v = VStr s /\ string_within 1 4096 s);
  ok_settings : exists settings, dget_or p §"settings" (VDict []) = VDict settings /\
    json_within MAX_DEPTH (VDict settings);
}.

(** The profile is the one that was asked for. *)
Definition requested_ok (p : dict pystr pyval) (expected : option pyval) : Prop :=
  forall e, expected = Some e -> exists id, e = VStr id /\ field p §"id" = VStr id.

(* ------------------------------------------------------------------ *)
(** ** The validator decides the specification *)

Section Lemmas.
Context `{PyLib} `{PyRepr}.

Lemma rbind_unit_Ok {A} (m : py A) (n : py unit) : rbind m (fun _ => n) = Ok tt <-> is_ok m = true /\ n = Ok tt.
Proof. destruct m; cbn; split; [done|by intros [_ ?]|done|by intros [? _]]. Qed.

Lemma guard_Ok {A} b (e : exn) (n : py A) a :
  rbind (raise_if b e) (fun _ => n) = Ok a <-> b = false /\ n = Ok a.
Proof. destruct b; cbn; split; [done|by intros [? _]|done|by intros [_ ?]]. Qed.

Lemma unit_Ok (r : py unit) : (exists u, r = Ok u) <-> r = Ok tt.
Proof. split; [by intros [[] ?]|eauto]. Qed.

Lemma string_Ok value path minimum maximum pattern s :
  _string value path minimum maximum pattern = Ok s <->
  value = VStr s /\ (minimum <= length s)%nat /\
  (forall m, maximum = Some m -> (length s <= m)%nat) /\ 0 ∉ s /\
  (forall r, pattern = Some r -> matches r s).
Proof.
  unfold _string. rewrite bind_Ok. setoid_rewrite ok_or_Ok. setoid_rewrite as_str_Some.
  repeat setoid_rewrite bind_Ok. repeat setoid_rewrite raise_if_Ok. split.
  - intros (s' & -> & [] & Hmin & [] & Hmax & [] & Hnul & [] & Hpat & [= ->]).
    split; [done|]. apply Nat.ltb_ge in Hmin. split; [done|]. split.
    { intros m ->. by apply Nat.ltb_ge. }
    split; [rewrite <- str_has_spec, Hnul; done|]. intros r ->. apply fullmatch_spec.
    by apply negb_false_iff in Hpat.
  - intros (-> & Hmin & Hmax & Hnul & Hpat). exists s. split; [done|].
    exists tt. split; [by apply Nat.ltb_ge|].
    exists tt. split; [destruct maximum as [m|]; [|done]; apply Nat.ltb_ge; auto|].
    exists tt. split; [by apply not_true_iff_false; rewrite str_has_spec|].
    exists tt. split; [|done]. destruct pattern as [r|]; [|done].
    apply negb_false_iff, fullmatch_spec. auto.
Qed.

Lemma named_Ok value path maximum pattern s :
  _string value path 1 (Some maximum) (Some pattern) = Ok s <->
  value = VStr s /\ named pattern maximum s.
Proof.
  rewrite string_Ok. unfold named, string_within. split.
  - intros (-> & Hlo & Hm & H0' & Hp). eauto 10.
  - intros (-> & [[Hlo Hm] H0'] & Hp). split; [done|]. split; [done|].
    split; [by intros m [= <-]|]. split; [done|]. by intros r [= <-].
Qed.

Lemma mapR_all {A B} (f : A -> py B) l :
  is_ok (mapR f l) = true <-> Forall (fun x => exists y, f x = Ok y) l.
Proof.
  induction l as [|x l IH]; cbn [mapR]; [by split|]. rewrite Forall_cons, <- IH, is_ok_spec. split.
  - intros (ys & Hys). inv_result. split; [eauto|]. apply is_ok_spec. eauto.
  - intros ((y & ->) & (ys & ->)%is_ok_spec). by eexists.
Qed.

Lemma imapR_all {A B} (f : nat -> A -> py B) (P : A -> Prop) i l :
  (forall j x, (exists y, f j x = Ok y) <-> P x) ->
  is_ok (imapR_from i f l) = true <-> Forall P l.
Proof.
  intros HP. revert i; induction l as [|x l IH]; intros i; cbn [imapR_from]; [by split|].
  rewrite Forall_cons, <- (IH (S i)), <- (HP i), is_ok_spec. split.
  - intros (ys & Hys). inv_result. split; [eauto|]. apply is_ok_spec. eauto.
  - intros ((y & ->) & (ys & ->)%is_ok_spec). by eexists.
Qed.

Lemma json_value_Ok depth value path : _json_value depth value path = Ok tt <-> json_within depth value.
Proof.
  revert value path; induction depth as [|depth IH]; intros value path; [done|].
  destruct value as [| | | | |l|d|]; cbn [_json_value json_within]; try done.
  - rewrite raise_if_Ok. by rewrite negb_false_iff.
  - rewrite rbind_unit_Ok. unfold imapR. rewrite (imapR_all _ (json_within depth)); [tauto|].
    intros j x. by rewrite unit_Ok, IH.
  - rewrite rbind_unit_Ok, mapR_all. setoid_rewrite unit_Ok. setoid_rewrite IH. tauto.
Qed.

Lemma keys_Ok d path allowed required : _keys d path allowed required = Ok tt <->
  (forall k, k ∈ required -> k ∈ dkeys d) /\ fields_within d allowed.
Proof.
  unfold _keys, fields_within. rewrite guard_Ok, rbind_unit_Ok, mapR_all.
  assert (negb (bool_decide (sorted_strs (List.filter (fun k => negb (dhas d k)) required) = [])) = false
          <-> forall k, k ∈ required -> k ∈ dkeys d) as Hreq.
  { rewrite negb_false_iff, bool_decide_eq_true. split.
    - intros Hnil k Hk. apply dhas_true. destruct (dhas d k) eqn:Hd; [done|].
      assert (k ∈ sorted_strs (List.filter (fun k => negb (dhas d k)) required)) as Hin.
      { apply sorted_strs_elem, list_elem_of_In, filter_In. rewrite <- list_elem_of_In. by rewrite Hd. }
      rewrite Hnil in Hin. by apply not_elem_of_nil in Hin.
    - intros Hall. apply elem_of_nil_inv. intros k Hk. apply sorted_strs_elem, list_elem_of_In, filter_In in Hk.
      rewrite <- list_elem_of_In in Hk. destruct Hk as [Hk Hd]. apply Hall, dhas_true in Hk. by rewrite Hk in Hd. }
  assert (Forall (fun kv => exists y : unit, (if bool_decide (kv.1 ∈ allowed) then Ok tt
      else raise_if (negb (fullmatch _EXTENSION kv.1))
           (_fail path (§"unknown field " ++ py_repr (VStr kv.1) ++ §"; extensions must start with x-"));;
         _json_value MAX_DEPTH kv.2 (path ++ §"." ++ kv.1)) = Ok y) d
    <-> Forall (fun kv => kv.1 ∈ allowed \/ matches _EXTENSION kv.1 /\ json_within MAX_DEPTH kv.2) d) as ->.
  { clear Hreq. apply Forall_iff. intros [k v]. cbn [fst snd]. rewrite unit_Ok. case_bool_decide as Hk.
    { split; [by left|done]. }
    rewrite guard_Ok, json_value_Ok, negb_false_iff, fullmatch_spec. tauto. }
  rewrite Hreq. split; [by intros (? & ? & _)|by intros [? ?]].
Qed.

Lemma unique_items_Ok path pattern i seen items names :
  NoDup seen ->
  unique_items path pattern i seen items = Ok names <->
  exists l, items = VStr <$> l /\ names = seen ++ l /\ NoDup names /\ Forall (named pattern 255) l.
Proof.
  revert i seen; induction items as [|raw items IH]; intros i seen Hseen; cbn [unique_items].
  { split; [intros [= <-]; exists []; by rewrite app_nil_r|]. intros ([|] & Hl & -> & _); [|done].
    by rewrite app_nil_r. }
  rewrite bind_Ok. setoid_rewrite named_Ok. setoid_rewrite guard_Ok. split.
  - intros (item & [-> Hitem] & Hnew & Hrest). apply bool_decide_eq_false in Hnew.
    apply IH in Hrest as (l & -> & -> & Hnd & Hl).
    + exists (item :: l). rewrite <- app_assoc in Hnd |- *. split_and!; [done..|by constructor].
    + apply NoDup_app. split; [done|]. split; [set_solver|apply NoDup_singleton].
  - intros ([|item l] & Hl & -> & Hnd & Hnames); [done|]. injection Hl as -> ->.
    apply Forall_cons in Hnames as [Hitem Hl]. exists item. split; [done|].
    assert (item ∉ seen) as Hni.
    { apply NoDup_app in Hnd as (_ & Hd & _). intros Hin. apply (Hd item Hin). by left. }
    split; [by apply bool_decide_eq_false|]. apply IH.
    + apply NoDup_app. split; [done|]. split; [set_solver|apply NoDup_singleton].
    + exists l. by rewrite <- app_assoc.
Qed.

Lemma unique_strings_Ok value path pattern n names :
  _unique_strings value path pattern n = Ok names <-> name_list pattern n value names.
Proof.
  unfold _unique_strings, _array, name_list. rewrite bind_Ok. setoid_rewrite ok_or_Ok.
  setoid_rewrite as_list_Some. setoid_rewrite guard_Ok. setoid_rewrite unique_items_Ok; [|constructor..].
  split.
  - intros (items & -> & Hlen & l & -> & -> & Hnd & Hl). cbn [app] in *.
    apply Nat.ltb_ge in Hlen. by rewrite length_fmap in Hlen.
  - intros (-> & Hlen & Hnd & Hl). eexists. split; [done|]. split; [by apply Nat.ltb_ge; rewrite length_fmap|].
    by exists names.
Qed.

Lemma object_Ok value path d : _object value path = Ok d <-> value = VDict d.
Proof. unfold _object. by rewrite ok_or_Ok, as_dict_Some. Qed.

Lemma bind_is_ok {A B} (m : py A) (f : A -> py B) :
  is_ok (rbind m f) = true <-> exists a, m = Ok a /\ is_ok (f a) = true.
Proof. destruct m as [a|e]; cbn; split; [eauto|by intros (? & [= ->] & ?)|done|by intros (? & ? & _)]. Qed.

Lemma is_ok_unit (m : py unit) : is_ok m = true <-> m = Ok tt.
Proof. destruct m as [[]|]; cbn; by split. Qed.

Lemma is_ok_mapR {A B} (f : A -> py B) (P : A -> Prop) l :
  (forall x, is_ok (f x) = true <-> P x) -> is_ok (mapR f l) = true <-> Forall P l.
Proof. intros HP. rewrite mapR_all. apply Forall_iff. intros x. by rewrite <- HP, is_ok_spec. Qed.

Lemma check_id_Ok p expected : check_id p expected = Ok tt <->
  (exists id, field p §"id" = VStr id /\ named _PROFILE_ID 128 id) /\ requested_ok p expected.
Proof.
  unfold check_id, validate_profile_id, requested_ok. rewrite bind_Ok. setoid_rewrite named_Ok.
  destruct expected as [e|].
  - setoid_rewrite bind_Ok. setoid_rewrite named_Ok. setoid_rewrite raise_if_Ok. split.
    + intros (id & [Hid Hn] & r & [-> _] & Heq). apply negb_false_iff, bool_decide_eq_true in Heq as <-.
      split; [eauto|]. intros e [= <-]. eauto.
    + intros [(id & Hid & Hn) Hr]. destruct (Hr e eq_refl) as (id' & -> & Hid').
      rewrite Hid in Hid'. injection Hid' as <-. exists id. split; [done|]. exists id.
      split; [done|]. by apply negb_false_iff, bool_decide_eq_true.
  - split; [intros (id & [Hid Hn] & _); split; [eauto|done]|]. intros [(id & ? & ?) _]. by exists id.
Qed.

Lemma check_roles_Ok p roles : check_roles p = Ok roles <->
  field p §"roles" = VDict roles /\ (length roles <= 256)%nat /\
  Forall (fun rc => named _ROLE 128 rc.1 /\ exists l, name_list _COMPONENT_REF 64 rc.2 l) roles.
Proof.
  unfold check_roles. rewrite bind_Ok. setoid_rewrite object_Ok. setoid_rewrite guard_Ok.
  assert (forall roles0, Forall (fun rc => exists y, (role ← _string (VStr rc.1) §"$.roles.<name>" 1 (Some 128%nat) (Some _ROLE);
      _unique_strings rc.2 (§"$.roles." ++ role) _COMPONENT_REF 64) = Ok y) roles0
    <-> Forall (fun rc => named _ROLE 128 rc.1 /\ exists l, name_list _COMPONENT_REF 64 rc.2 l) roles0) as Hl.
  { intros roles0. apply Forall_iff. intros [r c]. cbn [fst snd]. setoid_rewrite bind_Ok. setoid_rewrite named_Ok.
    setoid_rewrite unique_strings_Ok. split.
    - intros (y & role & [[= <-] Hr] & Hy). eauto.
    - intros [Hr [l Hl]]. by exists l, r. }
  split.
  - intros (roles' & Hf & Hlen & Hm). apply bind_Ok in Hm as (ys & Hm & [= ->]).
    apply Nat.ltb_ge in Hlen. split; [done|]. split; [done|]. apply Hl, mapR_all, is_ok_spec. eauto.
  - intros (Hf & Hlen & Hall). exists roles. split; [done|]. split; [by apply Nat.ltb_ge|].
    apply Hl, mapR_all, is_ok_spec in Hall as [ys ->]. done.
Qed.

Lemma check_conflicts_Ok p roles : check_conflicts p roles = Ok tt <->
  exists disabled, name_list _ROLE 256 (dget_or p §"disabled_roles" (VList [])) disabled /\
    forall r, r ∈ dkeys roles -> r ∉ disabled.
Proof.
  unfold check_conflicts. rewrite bind_Ok. setoid_rewrite unique_strings_Ok.
  setoid_rewrite raise_if_Ok. setoid_rewrite negb_false_iff. setoid_rewrite bool_decide_eq_true.
  assert (forall disabled : list pystr, sorted_strs (fromkeys (filter (.∈ disabled) (dkeys roles))) = []
    <-> forall r, r ∈ dkeys roles -> r ∉ disabled) as Hc.
  { intros disabled. split.
    - intros Hnil r Hr Hd. assert (r ∈ sorted_strs (fromkeys (filter (.∈ disabled) (dkeys roles)))) as Hin.
      { apply sorted_strs_elem, fromkeys_elem, list_elem_of_filter. done. }
      rewrite Hnil in Hin. by apply not_elem_of_nil in Hin.
    - intros Hall. apply elem_of_nil_inv. intros r Hr.
      apply sorted_strs_elem, fromkeys_elem, list_elem_of_filter in Hr as [Hd Hr]. by apply (Hall r). }
  by setoid_rewrite Hc.
Qed.

Lemma check_env_Ok p : check_env p = Ok tt <->
  exists env, dget_or p §"env" (VDict []) = VDict env /\ (length env <= 1024)%nat /\
    Forall (fun nv => named _ENV_NAME 255 nv.1 /\
                      exists v, nv.2 = VStr v /\ string_within 0 (Z.to_nat 32768) v) env.
Proof.
  unfold check_env. rewrite bind_Ok. setoid_rewrite object_Ok. setoid_rewrite guard_Ok.
  setoid_rewrite rbind_unit_Ok.
  assert (forall env, is_ok (mapR (fun nv : pystr * pyval =>
      name ← _string (VStr nv.1) §"$.env.<name>" 1 (Some 255%nat) (Some _ENV_NAME);
      _string nv.2 (§"$.env." ++ name) 0 (Some (Z.to_nat 32768)) None) env) = true
    <-> Forall (fun nv => named _ENV_NAME 255 nv.1 /\
                      exists v, nv.2 = VStr v /\ string_within 0 (Z.to_nat 32768) v) env) as Hl.
  { intros env. apply is_ok_mapR. intros [n v]. cbn [fst snd]. rewrite bind_is_ok. setoid_rewrite named_Ok.
    setoid_rewrite is_ok_spec. setoid_rewrite string_Ok. unfold string_within. split.
    - intros (name & [[= <-] Hn] & s & Hv & Hlo & Hm & H0' & _). split; [done|]. exists s. eauto 10.
    - intros [Hn (s & Hv & [Hlo Hm] & H0')]. exists n. split; [done|]. exists s. split; [done|].
      split; [done|]. split; [by intros m [= <-]|]. done. }
  setoid_rewrite Hl. setoid_rewrite Nat.ltb_ge. split.
  - intros (env & Hf & Hlen & Hall & _). eauto.
  - intros (env & Hf & Hlen & Hall). eauto 10.
Qed.

Lemma plain_string_Ok value path n s : _string value path 1 (Some n) None = Ok s <->
  value = VStr s /\ string_within 1 n s.
Proof.
  rewrite string_Ok. unfold string_within. split.
  - intros (-> & Hlo & Hm & H0' & _). eauto 10.
  - intros (-> & [Hlo Hm] & H0'). split; [done|]. split; [done|]. split; [by intros m [= <-]|]. done.
Qed.

Lemma check_state_dir_Ok p : check_state_dir p = Ok tt <->
  forall v, dget p §"state_dir" = Some v ->
    exists s, v = VStr (§"/" ++ s) /\ string_within 1 4096 (§"/" ++ s).
Proof.
  unfold check_state_dir. destruct (dget p §"state_dir") as [v|]; [|done]. rewrite bind_Ok.
  setoid_rewrite plain_string_Ok. setoid_rewrite raise_if_Ok. setoid_rewrite negb_false_iff.
  setoid_rewrite str_startswith_spec. split.
  - intros (s & [-> Hs] & [r ->]) w [= <-]. eauto.
  - intros Hv. destruct (Hv v eq_refl) as (s & -> & Hs). eauto.
Qed.

Lemma check_isolation_Ok p : check_isolation p = Ok tt <->
  exists iso, dget_or p §"isolation" (VDict []) = VDict iso /\
    fields_within iso [§"seccomp_helper"] /\
    (forall v, dget iso §"seccomp_helper" = Some v -> exists s, v = VStr s /\ string_within 1 4096 s).
Proof.
  unfold check_isolation. rewrite bind_Ok. setoid_rewrite object_Ok. setoid_rewrite rbind_unit_Ok.
  setoid_rewrite is_ok_unit. setoid_rewrite keys_Ok.
  assert (forall iso : dict pystr pyval, match dget iso §"seccomp_helper" with
    | None => Ok tt
    | Some helper => _string helper §"$.isolation.seccomp_helper" 1 (Some 4096%nat) None;; Ok tt
    end = Ok tt <-> forall v, dget iso §"seccomp_helper" = Some v -> exists s, v = VStr s /\ string_within 1 4096 s) as Hl.
  { intros iso. destruct (dget iso §"seccomp_helper") as [v|]; [|done].
    rewrite rbind_unit_Ok, is_ok_spec. setoid_rewrite plain_string_Ok. split.
    - intros [(s & -> & Hs) _] w [= <-]. eauto.
    - intros Hv. destruct (Hv v eq_refl) as (s & -> & Hs). eauto. }
  setoid_rewrite Hl. split.
  - intros (iso & Hf & [_ Hk] & Hh). eauto.
  - intros (iso & Hf & Hk & Hh). exists iso. split; [done|]. split; [|done].
    split; [|done]. intros k Hk'. by apply not_elem_of_nil in Hk'.
Qed.

Lemma check_settings_Ok p : check_settings p = Ok tt <->
  exists settings, dget_or p §"settings" (VDict []) = VDict settings /\
    json_within MAX_DEPTH (VDict settings).
Proof.
  unfold check_settings. rewrite bind_Ok. setoid_rewrite object_Ok. by setoid_rewrite json_value_Ok.
Qed.

(* ------------------------------------------------------------------ *)
(** ** Every rejection is a contract error *)

Definition contract_error {A} (m : py A) : Prop :=
  forall e, m = Raise e -> exn_type e = ProfileContractError.

Lemma contract_Ok {A} (a : A) : contract_error (Ok a).
Proof. done. Qed.
Lemma contract_bind {A B} (m : py A) (f : A -> py B) :
  contract_error m -> (forall a, contract_error (f a)) -> contract_error (rbind m f).
Proof. intros Hm Hf e. destruct m as [a|e']; cbn; [apply Hf|intros [= ->]; by apply Hm]. Qed.
Lemma contract_raise_if b path message : contract_error (raise_if b (_fail path message)).
Proof. intros e. by destruct b; cbn; [intros [= <-]|]. Qed.
Lemma contract_ok_or {A} (o : option A) path message : contract_error (ok_or o (_fail path message)).
Proof. intros e. destruct o; cbn; [done|]. by intros [= <-]. Qed.
Lemma contract_fail {A} path message : contract_error (Raise (_fail path message) : py A).
Proof. by intros e [= <-]. Qed.
Lemma contract_mapR {A B} (f : A -> py B) l :
  (forall x, contract_error (f x)) -> contract_error (mapR f l).
Proof.
  intros Hf. induction l as [|x l IH]; cbn [mapR]; [apply contract_Ok|].
  apply contract_bind; [apply Hf|]. intros y. apply contract_bind; [done|]. intros ys. apply contract_Ok.
Qed.
Lemma contract_imapR {A B} (f : nat -> A -> py B) i l :
  (forall j x, contract_error (f j x)) -> contract_error (imapR_from i f l).
Proof.
  intros Hf. revert i; induction l as [|x l IH]; intros i; cbn [imapR_from]; [apply contract_Ok|].
  apply contract_bind; [apply Hf|]. intros y. apply contract_bind; [done|]. intros ys. apply contract_Ok.
Qed.

Create HintDb contract discriminated.
#[local] Hint Constants Opaque : contract.
#[local] Hint Resolve contract_Ok contract_raise_if contract_ok_or contract_fail contract_mapR
  contract_imapR : contract.
#[local] Hint Extern 2 (contract_error (rbind _ _)) => apply contract_bind; [|intros ?] : contract.

Lemma contract_string value path minimum maximum pattern :
  contract_error (_string value path minimum maximum pattern).
Proof. unfold _string. auto 12 with contract. Qed.
#[local] Hint Resolve contract_string : contract.

Lemma contract_json depth value path : contract_error (_json_value depth value path).
Proof.
  revert value path; induction depth as [|depth IH]; intros value path; [apply contract_fail|].
  destruct value; cbn [_json_value]; unfold imapR; auto 8 with contract.
Qed.
#[local] Hint Resolve contract_json : contract.

Lemma contract_keys d path allowed required : contract_error (_keys d path allowed required).
Proof.
  unfold _keys. apply contract_bind; [auto with contract|]. intros _.
  apply contract_bind; [|auto with contract]. apply contract_mapR. intros [k v].
  destruct (bool_decide _); auto with contract.
Qed.

Lemma contract_unique_items path pattern i seen items :
  contract_error (unique_items path pattern i seen items).
Proof.
  revert i seen; induction items as [|raw items IH]; intros i seen; cbn [unique_items];
    auto 8 with contract.
Qed.
#[local] Hint Resolve contract_keys contract_unique_items : contract.

Lemma contract_unique_strings value path pattern n :
  contract_error (_unique_strings value path pattern n).
Proof. unfold _unique_strings, _array. auto 8 with contract. Qed.
#[local] Hint Resolve contract_unique_strings : contract.

Lemma contract_validate data expected : contract_error (validate_profile data expected).
Proof.
  unfold validate_profile, _object.
  repeat (match goal with |- contract_error (rbind _ _) => apply contract_bind; [|intros ?] end);
    auto with contract.
  - unfold check_id, validate_profile_id. destruct expected; auto 8 with contract.
  - unfold check_roles, _object. auto 12 with contract.
  - unfold check_conflicts. auto 8 with contract.
  - unfold check_env, _object. auto 12 with contract.
  - unfold check_state_dir. destruct (dget _ _); auto 8 with contract.
  - unfold check_isolation, _object. apply contract_bind; [auto with contract|]. intros iso.
    apply contract_bind; [auto with contract|]. intros _. destruct (dget _ _); auto 8 with contract.
  - unfold check_settings, _object. auto 8 with contract.
Qed.

(** What an accepted document satisfies. *)
Lemma validate_profile_Ok data expected q : validate_profile data expected = Ok q ->
  data = VDict q /\ profile_ok q /\ requested_ok q expected.
Proof.
  unfold validate_profile. rewrite bind_Ok. setoid_rewrite object_Ok.
  intros (p & -> & Hp). repeat (apply bind_Ok in Hp as (? & ? & Hp)). injection Hp as ->.
  repeat match goal with u : unit |- _ => destruct u end.
  split; [done|].
  match goal with Hk : _keys _ _ _ _ = _ |- _ => apply keys_Ok in Hk as [Hreq Hfields] end.
  match goal with Hk : raise_if _ _ = _ |- _ =>
    apply raise_if_Ok, negb_false_iff, eq_str_true in Hk as Hschema end.
  match goal with Hk : check_id _ _ = _ |- _ => apply check_id_Ok in Hk as [Hid Hr] end.
  match goal with Hk : check_roles _ = _ |- _ => apply check_roles_Ok in Hk as (Hroles & Hlen & Hall) end.
  match goal with Hk : check_conflicts _ _ = _ |- _ => apply check_conflicts_Ok in Hk as (dis & Hdis & Hno) end.
  split; [|done]. split; try done; [by eauto 10| |by apply check_env_Ok|by apply check_state_dir_Ok
                      |by apply check_isolation_Ok|by apply check_settings_Ok].
  match goal with Hk : _unique_strings _ _ _ _ = _ |- _ => apply unique_strings_Ok in Hk; eauto end.
Qed.

(** C31: the validator decides the declarative contract.  It accepts a document
    exactly when it is an object that satisfies the specification of a profile
    and, when a profile was asked for, names that profile; it returns the
    document unchanged, and every rejection is a [ProfileContractError]. *)
Theorem validate_profile_spec data expected :
  (forall q, validate_profile data expected = Ok q <->
     data = VDict q /\ profile_ok q /\ requested_ok q expected) /\
  (forall e, validate_profile data expected = Raise e -> exn_type e = ProfileContractError).
Proof.
  split; [|apply contract_validate]. intros q. split; [by apply validate_profile_Ok|].
  unfold validate_profile. rewrite bind_Ok. setoid_rewrite object_Ok.
  intros (-> & [] & Hr). exists q. split; [done|].
  destruct ok_roles0 as (roles & dis & Hroles & Hlen & Hall & Hdis & Hno).
  destruct ok_startup0 as [l Hl].
  rewrite (proj2 (keys_Ok _ _ _ _)) by done. cbn [rbind].
  rewrite (proj2 (raise_if_Ok _ _ tt)) by (by apply negb_false_iff, eq_str_true). cbn [rbind].
  rewrite (proj2 (check_id_Ok _ _)) by done. cbn [rbind].
  rewrite (proj2 (check_roles_Ok _ roles)) by done. cbn [rbind].
  rewrite (proj2 (check_conflicts_Ok _ roles)) by eauto. cbn [rbind].
  rewrite (proj2 (unique_strings_Ok _ _ _ _ l)) by done. cbn [rbind].
  rewrite (proj2 (check_env_Ok _)) by done. cbn [rbind].
  rewrite (proj2 (check_state_dir_Ok _)) by done. cbn [rbind].
  rewrite (proj2 (check_isolation_Ok _)) by done. cbn [rbind].
  by rewrite (proj2 (check_settings_Ok _)).
Qed.
End Lemmas.

(* ------------------------------------------------------------------ *)
(** ** Witnesses *)

Definition sample_profile : dict pystr pyval := [
  (§"schema", VStr §"msys.profile.v1"); (§"id", VStr §"desktop");
  (§"roles", VDict [(§"launcher", VList [VStr §"org.demo:home"])]);
  (§"disabled_roles", VList [VStr §"input-method"]);
  (§"startup", VList [VStr §"org.demo:home"]);
  (§"env", VDict [(§"LANG", VStr §"C.UTF-8")]); (§"state_dir", VStr §"/var/lib/msys");
  (§"x-note", VList [VInt 3; VNone])].

Lemma validate_profile_spec_witness :
  profile_ok sample_profile /\ requested_ok sample_profile (Some (VStr §"desktop")) /\
  (forall e, validate_profile (VDict (ddel sample_profile §"roles")) None = Raise e ->
     exn_type e = ProfileContractError).
Proof.
  destruct (proj1 (proj1 (validate_profile_spec (VDict sample_profile) (Some (VStr §"desktop")))
    sample_profile)) as (_ & Hok & Hreq); [vm_compute; reflexivity|].
  split; [exact Hok|]. split; [exact Hreq|]. apply validate_profile_spec.
Defined.
End Profile.
