(* ===== verification/Plan.v ===== *)
(** * The native plan compiler: validation ([native/scripts/compile_runtime_plan.py])

    The checks that turn a decoded source document into normalized component
    records, for both versions of the format.  Ordering is in [PlanOrder], the
    text in [PlanText]. *)

From Stdlib Require Import ZArith.
From S2P Require Export PyValue.

Module Plan.

Definition SCHEMA : pystr := §"msys.native-lite-plan.source.v1".
Definition SCHEMA_V2 : pystr := §"msys.native-runtime.source.v2".
Definition MAX_BYTES : Z := 1024 * 1024.
Definition MAX_COMPONENTS : nat := 64.

Definition id_char (c : N) : bool := alnum_ascii c || one_of §"_.:-" c.
Definition ID_RE : regex := RSeq (cls alnum_ascii) (rupto 127 (cls id_char)).
Definition ENV_RE : regex :=
  RSeq (cls (fun c => alpha_ascii c || one_of §"_" c))
       (rupto 127 (cls (fun c => alnum_ascii c || one_of §"_" c))).
Definition RESERVED_ENV : list pystr :=
  [§"MSYS_READY_FD"; §"MSYS_CONTROL_FD"; §"MSYS_COMPONENT_ID"; §"MSYS_GENERATION";
   §"MSYS_RUNTIME_DIR"; §"MSYS_PACKAGE_ID"; §"MSYS_PACKAGE_VERSION"; §"MSYS_WINDOW_TITLE";
   §"MSYS_APP_ID"; §"MSYS_WINDOW_IDENTITY"; §"MSYS_X11_WM_INSTANCE"].

Definition plan_error (m : pystr) : exn := Exn PlanError m.

(** A normalized component of the first format. *)
Record component := {
  id : pystr;
  kind : pystr;
  critical : bool;
  restart : pystr;
  readiness_mode : pystr;
  readiness_timeout_ms : Z;
  initial_ms : Z;
  max_ms : Z;
  limit : Z;
  argv : list pystr;
  after : list pystr;
  environment : list (pystr * pystr);
}.

Record provide := {
  provide_kind : pystr;
  provide_name : pystr;
  exclusive : bool;
  priority : Z;
}.

(** What the second format adds. *)
Record component_v2 := {
  base : component;
  lifecycle : pystr;
  idle_timeout_ms : Z;
  provides : list provide;
  permissions : list pystr;
  package_id : pystr;
  package_name : pystr;
  package_version : pystr;
  package_kind : pystr;
  name : pystr;
  summary : pystr;
  icon : pystr;
  launchable : bool;
  window : list pystr;
}.

Section Normalize.
Context `{PyLib} `{PyRepr}.

(** The hook that rejects duplicate keys. *)
Definition object_no_duplicates (pairs : list (pystr * pyval)) : py (dict pystr pyval) :=
  foldR (fun result kv =>
    raise_if (dhas result kv.1) (plan_error (§"duplicate JSON key: " ++ kv.1));;
    Ok (dset result kv.1 kv.2)) [] pairs.

Definition closed_object (value : pyval) (path : pystr) (allowed required : list pystr)
    : py (dict pystr pyval) :=
  d ← ok_or (as_dict value) (plan_error (path ++ §" must be an object"));
  match sorted_strs (List.filter (fun k => negb (bool_decide (k ∈ allowed))) (fromkeys (dkeys d))) with
  | k :: _ => Raise (plan_error (path ++ §" has unknown field " ++ py_repr (VStr k)))
  | [] => Ok tt
  end;;
  match sorted_strs (List.filter (fun k => negb (dhas d k)) required) with
  | k :: _ => Raise (plan_error (path ++ §" is missing field " ++ py_repr (VStr k)))
  | [] => Ok tt
  end;;
  Ok d.

Definition integer (value : pyval) (path : pystr) (minimum maximum : Z) : py Z :=
  match as_int value with
  | Some z => if (minimum <=? z)%Z && (z <=? maximum)%Z then Ok z
              else Raise (plan_error (path ++ §" must be an integer in " ++ dec_Z minimum
                                      ++ §".." ++ dec_Z maximum))
  | None => Raise (plan_error (path ++ §" must be an integer in " ++ dec_Z minimum
                               ++ §".." ++ dec_Z maximum))
  end.

Definition enum_string (value : pyval) (path : pystr) (allowed : list pystr) : py pystr :=
  match as_str value with
  | Some s => if bool_decide (s ∈ allowed) then Ok s else Raise (plan_error (path ++ §" is invalid"))
  | None => Raise (plan_error (path ++ §" is invalid"))
  end.

(** [value.encode("utf-8")] *)
Definition py_encode (value : pystr) : py (list N) :=
  ok_or (utf8_encode value) (Exn UnicodeEncodeError §"surrogates not allowed").

Definition bounded_string (value : pyval) (path : pystr) (maximum_bytes : nat) (nonempty : bool)
    : py pystr :=
  s ← ok_or (as_str value) (plan_error (path ++ §" must be a NUL-free string"));
  raise_if (str_has 0 s) (plan_error (path ++ §" must be a NUL-free string"));;
  bytes ← py_encode s;
  raise_if ((nonempty && negb (str_true s)) || (maximum_bytes <? length bytes)%nat)
    (plan_error (path ++ §" has invalid encoded length"));;
  Ok s.

Definition boolean (value : pyval) (path : pystr) : py bool :=
  match value with
  | VBool b => Ok b
  | _ => Raise (plan_error (path ++ §" must be boolean"))
  end.

(** A list whose length is within bounds. *)
Definition bounded_list (value : pyval) (minimum maximum : nat) (message : pystr) : py (list pyval) :=
  l ← ok_or (as_list value) (plan_error message);
  raise_if ((length l <? minimum)%nat || (maximum <? length l)%nat) (plan_error message);;
  Ok l.

Definition at_index (path : pystr) (index : nat) : pystr :=
  path ++ §"[" ++ dec_N (N.of_nat index) ++ §"]".

(** [[bounded_string(value, f"{path}[{offset}]", ...) for offset, value in enumerate(l)]] *)
Definition bounded_strings (l : list pyval) (path : pystr) (maximum_bytes : nat) (nonempty : bool)
    : py (list pystr) :=
  imapR (fun offset value => bounded_string value (at_index path offset) maximum_bytes nonempty) l.

Definition is_id (s : pystr) : bool := fullmatch ID_RE s.

Definition read_id (value : pyval) (path : pystr) : py pystr :=
  s ← bounded_string value path 128 true;
  raise_if (negb (is_id s)) (plan_error (path ++ §" is invalid"));;
  Ok s.

Definition field (d : dict pystr pyval) (k : pystr) : pyval := dget_or d k VNone.

Definition read_readiness (item : dict pystr pyval) (path : pystr) (modes : list pystr)
    : py (pystr * Z) :=
  readiness ← closed_object (field item §"readiness") (path ++ §".readiness")
    [§"mode"; §"timeout_ms"] [§"mode"; §"timeout_ms"];
  mode ← enum_string (field readiness §"mode") (path ++ §".readiness.mode") modes;
  timeout ← integer (field readiness §"timeout_ms") (path ++ §".readiness.timeout_ms") 1 300000;
  Ok (mode, timeout).

Definition read_backoff (item : dict pystr pyval) (path : pystr) : py (Z * Z * Z) :=
  backoff ← closed_object (dget_or item §"backoff" (VDict [])) (path ++ §".backoff")
    [§"initial_ms"; §"max_ms"; §"limit"] [];
  initial ← integer (dget_or backoff §"initial_ms" (VInt 250)) (path ++ §".backoff.initial_ms") 1 60000;
  max ← integer (dget_or backoff §"max_ms" (VInt 30000)) (path ++ §".backoff.max_ms") initial 300000;
  limit ← integer (dget_or backoff §"limit" (VInt 8)) (path ++ §".backoff.limit") 0 1000;
  Ok (initial, max, limit).

Definition read_argv (item : dict pystr pyval) (path : pystr) : py (list pystr) :=
  raw ← bounded_list (field item §"exec") 1 64 (path ++ §".exec must contain 1..64 arguments");
  argv ← bounded_strings raw (path ++ §".exec") 4096 false;
  raise_if (negb (str_startswith §"/" (default [] (head argv))))
    (plan_error (path ++ §".exec[0] must be absolute"));;
  Ok argv.

(** The ids of the first format are checked one by one. *)
Definition read_after (item : dict pystr pyval) (path : pystr) : py (list pystr) :=
  raw ← bounded_list (dget_or item §"after" (VList [])) 0 32
    (path ++ §".after must contain at most 32 ids");
  after ← imapR (fun offset value => read_id value (at_index (path ++ §".after") offset)) raw;
  raise_if (negb (bool_decide (NoDup after))) (plan_error (path ++ §".after contains duplicates"));;
  Ok after.

(** Distinct ids of the second format. *)
Definition read_ids (raw : list pyval) (path message : pystr) : py (list pystr) :=
  ids ← bounded_strings raw path 128 true;
  raise_if (negb (forallb is_id ids) || negb (bool_decide (NoDup ids))) (plan_error message);;
  Ok ids.

Definition read_environment (value : pyval) (path : pystr) : py (list (pystr * pystr)) :=
  d ← ok_or (as_dict value) (plan_error (path ++ §" must contain at most 64 entries"));
  raise_if (64 <? length d)%nat (plan_error (path ++ §" must contain at most 64 entries"));;
  mapR (fun key =>
    raise_if (negb (fullmatch ENV_RE key) || bool_decide (key ∈ RESERVED_ENV))
      (plan_error (path ++ §" has invalid or reserved key " ++ py_repr (VStr key)));;
    value ← bounded_string (field d key) (path ++ §"." ++ key) 4096 false;
    Ok (key, value)) (sorted_strs (dkeys d)).

Definition KINDS : list pystr := [§"display"; §"window"; §"shell"; §"other"].
Definition RESTARTS : list pystr := [§"never"; §"on-failure"; §"always"].

Definition component_path (index : nat) : pystr := at_index §"$.components" index.

Definition normalize_component (index : nat) (raw : pyval) : py component :=
  let path := component_path index in
  item ← closed_object raw path
    [§"id"; §"kind"; §"critical"; §"restart"; §"readiness"; §"backoff"; §"exec"; §"after"; §"env"]
    [§"id"; §"kind"; §"critical"; §"restart"; §"readiness"; §"exec"];
  id ← read_id (field item §"id") (path ++ §".id");
  kind ← enum_string (field item §"kind") (path ++ §".kind") KINDS;
  critical ← boolean (field item §"critical") (path ++ §".critical");
  restart ← enum_string (field item §"restart") (path ++ §".restart") RESTARTS;
  'readiness ← read_readiness item path [§"exec"; §"fd"; §"mipc-ready"];
  'backoff ← read_backoff item path;
  argv ← read_argv item path;
  after ← read_after item path;
  environment ← read_environment (dget_or item §"env" (VDict [])) (path ++ §".env");
  Ok {| id := id; kind := kind; critical := critical; restart := restart;
        readiness_mode := readiness.1; readiness_timeout_ms := readiness.2;
        initial_ms := backoff.1.1; max_ms := backoff.1.2; limit := backoff.2;
        argv := argv; after := sorted_strs after; environment := environment |}.

(* ------------------------------------------------------------------ *)
(** ** The second format *)

Definition PROVIDE_KINDS : list pystr := [§"role"; §"interface"; §"capability"].

Definition read_provide (path : pystr) (provided_keys : list (pystr * pystr)) (raw : pyval)
    : py provide :=
  d ← closed_object raw path (PROVIDE_KINDS ++ [§"exclusive"; §"priority"]) [];
  match List.filter (dhas d) PROVIDE_KINDS with
  | [kind] =>
      name ← bounded_string (field d kind) (path ++ §"." ++ kind) 128 true;
      raise_if (negb (is_id name)) (plan_error (path ++ §" name is invalid"));;
      exclusive ← boolean (dget_or d §"exclusive" (VBool false)) (path ++ §".exclusive");
      priority ← integer (dget_or d §"priority" (VInt 0)) (path ++ §".priority") 0 1000000;
      raise_if (bool_decide ((kind, name) ∈ provided_keys))
        (plan_error (path ++ §" duplicates a provide"));;
      Ok {| provide_kind := kind; provide_name := name; exclusive := exclusive; priority := priority |}
  | _ => Raise (plan_error (path ++ §" must declare exactly one provide kind"))
  end.

(** The loop over the provides of a component. *)
Fixpoint read_provides (path : pystr) (index : nat) (found : list provide) (raw : list pyval)
    : py (list provide) :=
  match raw with
  | [] => Ok found
  | r :: raw =>
      p ← read_provide (at_index (path ++ §".provides") index)
            ((fun p => (provide_kind p, provide_name p)) <$> found) r;
      read_provides path (S index) (found ++ [p]) raw
  end.

Definition read_permissions (item : dict pystr pyval) (path : pystr) : py (list pystr) :=
  raw ← bounded_list (dget_or item §"permissions" (VList [])) 0 128
    (path ++ §".permissions must contain at most 128 entries");
  permissions ← bounded_strings raw (path ++ §".permissions") 256 true;
  raise_if (negb (bool_decide (NoDup permissions)))
    (plan_error (path ++ §".permissions contains duplicates"));;
  Ok permissions.

Definition WINDOW_LIMITS : list (pystr * nat) :=
  [(§"system", 32%nat); (§"display", 64%nat); (§"mode", 64%nat); (§"title", 256%nat);
   (§"app_id", 256%nat); (§"wm_class", 256%nat); (§"wm_instance", 256%nat)].

(** The values in the order of [window_limits]. *)
Definition read_window (item : dict pystr pyval) (path : pystr) : py (list pystr) :=
  window ← closed_object (dget_or item §"windowing" (VDict [])) (path ++ §".windowing")
    WINDOW_LIMITS.*1 [];
  mapR (fun kl => bounded_string (dget_or window kl.1 (VStr [])) (path ++ §".windowing." ++ kl.1)
                    kl.2 false) WINDOW_LIMITS.

Definition read_idle_timeout (item : dict pystr pyval) (path lifecycle : pystr) : py Z :=
  idle ← integer (dget_or item §"idle_timeout_ms" (VInt 0)) (path ++ §".idle_timeout_ms") 0 3600000;
  raise_if (bool_decide (lifecycle = §"on-demand") && (idle <? 100)%Z)
    (plan_error (path ++ §".idle_timeout_ms must be at least 100 for on-demand"));;
  raise_if (negb (bool_decide (lifecycle = §"on-demand")) && negb (idle =? 0)%Z)
    (plan_error (path ++ §".idle_timeout_ms is only valid for on-demand"));;
  Ok idle.

Definition LIFECYCLES : list pystr := [§"background"; §"on-demand"; §"manual"].

Definition normalize_v2_component (index : nat) (raw : pyval) : py component_v2 :=
  let path := component_path index in
  item ← closed_object raw path
    [§"id"; §"kind"; §"critical"; §"lifecycle"; §"idle_timeout_ms"; §"restart"; §"readiness";
     §"backoff"; §"exec"; §"after"; §"env"; §"provides"; §"permissions"; §"package"; §"name";
     §"summary"; §"icon"; §"windowing"; §"launchable"]
    [§"id"; §"kind"; §"critical"; §"lifecycle"; §"restart"; §"readiness"; §"exec"; §"package"; §"name"];
  id ← read_id (field item §"id") (path ++ §".id");
  kind ← enum_string (field item §"kind") (path ++ §".kind") KINDS;
  critical ← boolean (field item §"critical") (path ++ §".critical");
  lifecycle ← enum_string (field item §"lifecycle") (path ++ §".lifecycle") LIFECYCLES;
  idle ← read_idle_timeout item path lifecycle;
  restart ← enum_string (field item §"restart") (path ++ §".restart") RESTARTS;
  'readiness ← read_readiness item path [§"exec"; §"fd"; §"mipc-ready"; §"x11-display"];
  'backoff ← read_backoff item path;
  argv ← read_argv item path;
  after_raw ← bounded_list (dget_or item §"after" (VList [])) 0 32
    (path ++ §".after must contain at most 32 ids");
  after ← read_ids after_raw (path ++ §".after") (path ++ §".after contains invalid or duplicate ids");
  environment ← read_environment (dget_or item §"env" (VDict [])) (path ++ §".env");
  provides_raw ← bounded_list (dget_or item §"provides" (VList [])) 0 32
    (path ++ §".provides must contain at most 32 entries");
  provides ← read_provides path 0 [] provides_raw;
  permissions ← read_permissions item path;
  package ← closed_object (field item §"package") (path ++ §".package")
    [§"id"; §"name"; §"version"; §"kind"] [§"id"; §"name"; §"version"; §"kind"];
  package_id ← read_id (field package §"id") (path ++ §".package.id");
  package_name ← bounded_string (field package §"name") (path ++ §".package.name") 256 false;
  package_version ← bounded_string (field package §"version") (path ++ §".package.version") 64 false;
  package_kind ← bounded_string (field package §"kind") (path ++ §".package.kind") 64 false;
  name ← bounded_string (field item §"name") (path ++ §".name") 256 true;
  summary ← bounded_string (dget_or item §"summary" (VStr [])) (path ++ §".summary") 1024 false;
  icon ← bounded_string (dget_or item §"icon" (VStr [])) (path ++ §".icon") 4096 false;
  launchable ← boolean (dget_or item §"launchable" (VBool false)) (path ++ §".launchable");
  window ← read_window item path;
  Ok {| base := {| id := id; kind := kind; critical := critical; restart := restart;
                   readiness_mode := readiness.1; readiness_timeout_ms := readiness.2;
                   initial_ms := backoff.1.1; max_ms := backoff.1.2; limit := backoff.2;
                   argv := argv; after := sorted_strs after; environment := environment |};
        lifecycle := lifecycle; idle_timeout_ms := idle; provides := provides;
        permissions := sorted_strs permissions; package_id := package_id;
        package_name := package_name; package_version := package_version;
        package_kind := package_kind; name := name; summary := summary; icon := icon;
        launchable := launchable; window := window |}.

(** The profile of the second format. *)
Record profile := {
  profile_id : pystr;
  display : pystr;
  roles : list (pystr * list pystr);
  profile_environment : list (pystr * pystr);
  startup : list pystr;
}.

Definition PROFILE : pystr := §"$.profile".

Definition read_role (roles_raw : dict pystr pyval) (role : pystr) : py (pystr * list pystr) :=
  let path := PROFILE ++ §".roles." ++ role in
  raise_if (negb (is_id role))
    (plan_error (PROFILE ++ §".roles has invalid role " ++ py_repr (VStr role)));;
  raw ← bounded_list (field roles_raw role) 1 MAX_COMPONENTS (path ++ §" must contain 1..64 providers");
  providers ← read_ids raw path (path ++ §" contains invalid or duplicate providers");
  Ok (role, providers).

Definition read_profile (value : pyval) : py profile :=
  d ← closed_object value PROFILE [§"id"; §"display"; §"roles"; §"startup"; §"env"]
    [§"id"; §"roles"; §"startup"];
  profile_id ← read_id (field d §"id") (PROFILE ++ §".id");
  display ← bounded_string (dget_or d §"display" (VStr [])) (PROFILE ++ §".display") 63 false;
  roles_raw ← ok_or (as_dict (field d §"roles")) (plan_error (PROFILE ++ §".roles must contain at most 64 roles"));
  raise_if (64 <? length roles_raw)%nat (plan_error (PROFILE ++ §".roles must contain at most 64 roles"));;
  roles ← mapR (read_role roles_raw) (sorted_strs (dkeys roles_raw));
  startup_raw ← bounded_list (field d §"startup") 0 MAX_COMPONENTS
    (PROFILE ++ §".startup must contain at most 64 components");
  startup ← read_ids startup_raw (PROFILE ++ §".startup")
    (PROFILE ++ §".startup contains invalid or duplicate components");
  environment ← read_environment (dget_or d §"env" (VDict [])) (PROFILE ++ §".env");
  Ok {| profile_id := profile_id; display := display; roles := roles;
        profile_environment := environment; startup := startup |}.
End Normalize.
End Plan.
