(* ===== verification/PlanOrder.v ===== *)
(** * The native plan compiler: component order ([native/scripts/compile_runtime_plan.py])

    Kahn's algorithm with a priority queue, for the components of either format,
    against a reference that picks the least available id again and again. *)

From Stdlib Require Import ZArith.
From S2P Require Export Plan.

Module PlanOrder.
Import Plan.

(** Filters that agree on the members of a list. *)
Lemma list_filter_iff_in {B} (P Q : B -> Prop) `{!forall x, Decision (P x)} `{!forall x, Decision (Q x)}
    (l : list B) : (forall x, x ∈ l -> P x <-> Q x) -> filter P l = filter Q l.
Proof.
  induction l as [|x l IH]; intros HPQ; [done|]. rewrite !filter_cons, IH by (intros; apply HPQ; set_solver).
  assert (P x <-> Q x) by (apply HPQ; set_solver).
  destruct (decide (P x)), (decide (Q x)); tauto.
Qed.

Section Order.
Context {A : Type} (base : A -> component).
Implicit Types items ordered : list A.

Definition ident (item : A) : pystr := id (base item).
Definition idents items : list pystr := ident <$> items.

(** [by_id], [dependents] and [indegree]. *)
Definition by_id items : dict pystr A := dict_of ((fun item => (ident item, item)) <$> items).

Record graph := {
  dependents : dict pystr (list pystr);
  indegree : dict pystr Z;
}.

(** [d[k] = f(d[k])] for a key that is there. *)
Definition dalter {V} (f : V -> V) (d : dict pystr V) (k : pystr) : dict pystr V :=
  match dget d k with Some v => dset d k (f v) | None => d end.

Definition empty_graph (ids : dict pystr A) : graph :=
  {| dependents := (fun kv => (kv.1, [])) <$> ids; indegree := (fun kv => (kv.1, 0%Z)) <$> ids |}.

Definition link (ids : dict pystr A) (item : A) (g : graph) (dependency : pystr) : py graph :=
  raise_if (negb (dhas ids dependency))
    (plan_error (ident item ++ §" references missing dependency " ++ dependency));;
  raise_if (bool_decide (dependency = ident item))
    (plan_error (ident item ++ §" depends on itself"));;
  Ok {| dependents := dalter (fun l => l ++ [ident item]) (dependents g) dependency;
        indegree := dalter Z.succ (indegree g) (ident item) |}.

Definition build_graph (ids : dict pystr A) items : py graph :=
  foldR (fun g item => foldR (link ids item) g (after (base item))) (empty_graph ids) items.

(** [heappop]: the least element. *)
Definition pop_min (ready : list pystr) : option (pystr * list pystr) :=
  match sorted_strs ready with
  | [] => None
  | x :: rest => Some (x, rest)
  end.

(** One dependent of the component that was placed. *)
Definition release (st : dict pystr Z * list pystr) (dependent : pystr) : dict pystr Z * list pystr :=
  let degrees := dalter Z.pred st.1 dependent in
  (degrees, if bool_decide (dget degrees dependent = Some 0%Z) then st.2 ++ [dependent] else st.2).

(** The names in the order they are popped; every turn places one component. *)
Fixpoint kahn (fuel : nat) (deps : dict pystr (list pystr)) (degrees : dict pystr Z)
    (ready : list pystr) : list pystr :=
  match fuel with
  | O => []
  | S fuel =>
      match pop_min ready with
      | None => []
      | Some (name, ready) =>
          let '(degrees, ready) :=
            foldl release (degrees, ready) (sorted_strs (dget_or deps name [])) in
          name :: kahn fuel deps degrees ready
      end
  end.

Definition sources (g : graph) : list pystr :=
  (filter (fun kv : pystr * Z => kv.2 = 0%Z) (indegree g)).*1.

Definition topological_components items : py (list A) :=
  let ids := by_id items in
  raise_if (negb (length ids =? length items)%nat) (plan_error §"component ids must be unique");;
  raise_if (negb (existsb (fun item => critical (base item)) items))
    (plan_error §"at least one component must be critical");;
  g ← build_graph ids items;
  let names := kahn (length items) (dependents g) (indegree g) (sources g) in
  let ordered := omap (dget ids) names in
  raise_if (negb (length ordered =? length items)%nat)
    (plan_error §"dependency graph contains a cycle");;
  Ok ordered.

(* ------------------------------------------------------------------ *)
(** ** The reference: always the least component whose dependencies are placed *)

Definition available (placed : list pystr) items : list pystr :=
  ident <$> filter (fun item => ident item ∉ placed /\ Forall (.∈ placed) (after (base item))) items.

Fixpoint greedy (fuel : nat) (placed : list pystr) items : list pystr :=
  match fuel with
  | O => []
  | S fuel =>
      match sorted_strs (available placed items) with
      | [] => []
      | name :: _ => name :: greedy fuel (placed ++ [name]) items
      end
  end.

(** Every component comes after its dependencies. *)
Definition respects ordered : Prop :=
  forall before item rest, ordered = before ++ item :: rest ->
    Forall (.∈ idents before) (after (base item)).

(** Documents that have an order at all. *)
Definition orderable items : Prop :=
  NoDup (idents items) /\ (exists item, item ∈ items /\ critical (base item) = true) /\
  exists ordered, ordered ≡ₚ items /\ respects ordered.

(* ------------------------------------------------------------------ *)
(** ** Dictionaries and counting *)

Lemma dget_dalter {V} (f : V -> V) (d : dict pystr V) k k' :
  dget (dalter f d k) k' = if decide (k' = k) then f <$> dget d k' else dget d k'.
Proof.
  unfold dalter. case_decide as Hk.
  - subst. destruct (dget d k) as [v|] eqn:Hd; [by rewrite dget_dset_eq|by rewrite Hd].
  - destruct (dget d k) as [v|]; [by rewrite dget_dset_ne|done].
Qed.

Lemma dkeys_dalter {V} (f : V -> V) (d : dict pystr V) k : dkeys (dalter f d k) = dkeys d.
Proof.
  unfold dalter. destruct (dget d k) eqn:Hd; [|done]. rewrite dkeys_dset.
  rewrite decide_True; [done|]. by eapply dget_Some_key.
Qed.

(** How many dependencies of an item are not placed yet. *)
Definition needs (placed : list pystr) (item : A) : nat :=
  length (filter (.∉ placed) (after (base item))).

Lemma missing_zero (placed l : list pystr) :
  length (filter (.∉ placed) l) = 0%nat <-> Forall (.∈ placed) l.
Proof.
  induction l as [|x l IH]; [by split|]. rewrite filter_cons, Forall_cons, <- IH.
  case_decide as Hx; cbn; [split; [lia|tauto]|]. split; [split; [|done]|tauto].
  destruct (decide (x ∈ placed)); tauto.
Qed.

Lemma missing_other (placed l : list pystr) name : name ∉ l ->
  filter (.∉ placed ++ [name]) l = filter (.∉ placed) l.
Proof.
  induction l as [|x l IH]; [done|]. intros Hn. rewrite !filter_cons, IH by set_solver.
  destruct (decide (x ∉ placed)); [rewrite decide_True by set_solver|rewrite decide_False by set_solver]; done.
Qed.

Lemma missing_placed (placed l : list pystr) name : NoDup l -> name ∈ l -> name ∉ placed ->
  length (filter (.∉ placed) l) = S (length (filter (.∉ placed ++ [name]) l)).
Proof.
  intros Hnd. induction Hnd as [|x l Hx Hnd IH]; intros Hin Hp; [by apply not_elem_of_nil in Hin|].
  rewrite !filter_cons. destruct (decide (x = name)) as [->|Hne].
  - rewrite decide_True by done. rewrite decide_False by set_solver.
    by rewrite missing_other.
  - destruct (decide (x ∉ placed)); [rewrite decide_True by set_solver|rewrite decide_False by set_solver];
      cbn; rewrite IH by set_solver; done.
Qed.

Lemma fold_release (l : list pystr) (degrees : dict pystr Z) (ready : list pystr) :
  NoDup l ->
  exists degrees', foldl release (degrees, ready) l =
    (degrees', ready ++ filter (fun y => dget degrees y = Some 1%Z) l) /\
    forall k, dget degrees' k = if decide (k ∈ l) then Z.pred <$> dget degrees k else dget degrees k.
Proof.
  intros Hnd. revert degrees ready. induction Hnd as [|x l Hx Hnd IH]; intros degrees ready.
  { exists degrees. cbn. by rewrite app_nil_r. }
  cbn [foldl]. unfold release at 2. cbn [fst snd].
  destruct (IH (dalter Z.pred degrees x)
    (if bool_decide (dget (dalter Z.pred degrees x) x = Some 0%Z) then ready ++ [x] else ready))
    as (degrees' & -> & Hget).
  exists degrees'. split.
  - f_equal. rewrite filter_cons.
    assert (filter (fun y => dget (dalter Z.pred degrees x) y = Some 1%Z) l
            = filter (fun y => dget degrees y = Some 1%Z) l) as ->.
    { apply list_filter_iff_in. intros y Hy. rewrite dget_dalter, decide_False; [done|]. by intros ->. }
    rewrite dget_dalter, decide_True by done.
    destruct (dget degrees x) as [z|]; cbn.
    + destruct (decide (z = 1)%Z) as [->|Hz].
      * rewrite bool_decide_eq_true_2 by done. rewrite decide_True by done. by rewrite <- app_assoc.
      * rewrite bool_decide_eq_false_2 by (intros [=]; lia). rewrite decide_False by congruence. done.
    + by rewrite decide_False by done.
  - intros k. rewrite Hget, dget_dalter. destruct (decide (k = x)) as [->|Hk].
    + rewrite decide_False by done. by rewrite decide_True by set_solver.
    + destruct (decide (k ∈ l)); [by rewrite decide_True by set_solver|by rewrite decide_False by set_solver].
Qed.

(* ------------------------------------------------------------------ *)
(** ** The queue always holds the available components *)

Section Invariant.
Context (items : list A) (deps : dict pystr (list pystr)).
Context (ids_distinct : NoDup (idents items))
        (after_distinct : forall item, item ∈ items -> NoDup (after (base item)))
        (no_self : forall item, item ∈ items -> ident item ∉ after (base item))
        (deps_ok : forall name, name ∈ idents items ->
           dget_or deps name [] ≡ₚ idents (filter (fun item => name ∈ after (base item)) items)).

Record kahn_inv (placed : list pystr) (degrees : dict pystr Z) (ready : list pystr) : Prop := {
  placed_closed item : item ∈ items -> ident item ∈ placed ->
    Forall (.∈ placed) (after (base item));
  degrees_needs item : item ∈ items -> ident item ∉ placed ->
    dget degrees (ident item) = Some (Z.of_nat (needs placed item));
  ready_available : ready ≡ₚ available placed items;
}.

Lemma available_elem placed name : name ∈ available placed items <->
  exists item, item ∈ items /\ ident item = name /\ name ∉ placed /\ Forall (.∈ placed) (after (base item)).
Proof.
  unfold available. rewrite list_elem_of_fmap. setoid_rewrite list_elem_of_filter. naive_solver.
Qed.

Lemma idents_filter_NoDup (P : A -> Prop) `{!forall x, Decision (P x)} : NoDup (ident <$> filter P items).
Proof.
  eapply sublist_NoDup; [exact ids_distinct|]. apply fmap_sublist, sublist_filter.
Qed.

Lemma not_elem_snoc (l : list pystr) x y : x ∉ l -> x ≠ y -> x ∉ l ++ [y].
Proof. set_solver. Qed.

Lemma Forall_snoc_weaken (l placed : list pystr) name :
  Forall (.∈ placed) l -> Forall (.∈ placed ++ [name]) l.
Proof. intros Hl. eapply Forall_impl; [exact Hl|]. intros x Hx. apply elem_of_app. by left. Qed.

Lemma Forall_snoc_strengthen (l placed : list pystr) name :
  Forall (.∈ placed ++ [name]) l -> name ∉ l -> Forall (.∈ placed) l.
Proof.
  intros Hl Hn. apply Forall_forall. intros x Hx.
  pose proof (proj1 (Forall_forall _ _) Hl x Hx) as Hx'. cbn in Hx'.
  apply elem_of_app in Hx' as [Hx'|Hx'%list_elem_of_singleton]; [done|]. by rewrite Hx' in Hx.
Qed.

(** The dependents of a component, as the loop visits them. *)
Lemma dependent_names name : name ∈ idents items ->
  let l := sorted_strs (dget_or deps name []) in
  NoDup l /\
  forall y, y ∈ l <-> exists item, item ∈ items /\ ident item = y /\ name ∈ after (base item).
Proof.
  intros Hname l.
  assert (l ≡ₚ idents (filter (fun item => name ∈ after (base item)) items)) as Hl.
  { unfold l, sorted_strs. rewrite py_sorted_perm. by apply deps_ok. }
  split; [rewrite Hl; apply idents_filter_NoDup|]. intros y. rewrite Hl. unfold idents.
  rewrite list_elem_of_fmap. setoid_rewrite list_elem_of_filter. naive_solver.
Qed.

Lemma pop_available placed degrees ready name rest :
  kahn_inv placed degrees ready -> pop_min ready = Some (name, rest) ->
  name :: rest ≡ₚ available placed items.
Proof.
  intros Hinv Hpop. unfold pop_min in Hpop. destruct (sorted_strs ready) as [|x l] eqn:Hs; [done|].
  injection Hpop as -> ->. rewrite <- (ready_available _ _ _ Hinv), <- Hs. apply py_sorted_perm.
Qed.

Lemma unplaced placed degrees ready name item :
  kahn_inv placed degrees ready -> name ∉ placed -> item ∈ items -> name ∈ after (base item) ->
  ident item ∉ placed.
Proof.
  intros Hinv Hnp Hitem Hn Hp. apply Hnp. pose proof (placed_closed _ _ _ Hinv item Hitem Hp) as Hall.
  by apply (proj1 (Forall_forall _ _) Hall).
Qed.

(** One more placed component: the rest of the queue stays available, and a
    dependent becomes available when this was its last dependency. *)
Lemma next_available placed degrees ready name rest item :
  kahn_inv placed degrees ready -> name :: rest ≡ₚ available placed items -> name ∉ rest ->
  name ∉ placed -> item ∈ items ->
  (ident item ∉ placed ++ [name] /\ Forall (.∈ placed ++ [name]) (after (base item))) <->
  ident item ∈ rest \/ (dget degrees (ident item) = Some 1%Z /\ name ∈ after (base item)).
Proof.
  intros Hinv Hperm Hname Hnp Hitem. split.
  - intros [Hy Hall].
    assert (ident item ∉ placed) as Hy' by (intros Hp; apply Hy, elem_of_app; by left).
    destruct (decide (name ∈ after (base item))) as [Hn|Hn].
    + right. split; [|done]. rewrite (degrees_needs _ _ _ Hinv) by done. f_equal.
      unfold needs. rewrite (missing_placed placed _ name) by auto.
      apply missing_zero in Hall. by rewrite Hall.
    + left. assert (ident item ∈ name :: rest) as Hin.
      { rewrite Hperm. apply available_elem. exists item. split; [done|]. split; [done|].
        split; [done|by eapply Forall_snoc_strengthen]. }
      apply elem_of_cons in Hin as [Heq|Hin]; [|done]. exfalso. apply Hy, elem_of_app. right.
      rewrite Heq. by left.
  - intros [Hy|[Hdeg Hn]].
    + assert (ident item ∈ available placed items) as Hav by (rewrite <- Hperm; by right).
      apply available_elem in Hav as (item' & Hitem' & Hid & Hy' & Hall).
      rewrite (NoDup_key_inj ident items item' item ids_distinct Hitem' Hitem Hid) in Hall.
      split; [|by apply Forall_snoc_weaken]. apply not_elem_snoc; [done|]. by intros Heq; rewrite Heq in Hy.
    + pose proof (unplaced _ _ _ _ _ Hinv Hnp Hitem Hn) as Hup.
      rewrite (degrees_needs _ _ _ Hinv) in Hdeg by done. injection Hdeg as Hdeg.
      unfold needs in Hdeg. rewrite (missing_placed placed _ name) in Hdeg by auto.
      split; [|by apply missing_zero; lia]. apply not_elem_snoc; [done|]. intros Heq.
      rewrite <- Heq in Hn. by apply (no_self item).
Qed.

Lemma kahn_step placed degrees ready name rest :
  kahn_inv placed degrees ready -> pop_min ready = Some (name, rest) ->
  exists degrees' ready',
    foldl release (degrees, rest) (sorted_strs (dget_or deps name [])) = (degrees', ready') /\
    kahn_inv (placed ++ [name]) degrees' ready'.
Proof.
  intros Hinv Hpop. pose proof (pop_available _ _ _ _ _ Hinv Hpop) as Hperm.
  assert (NoDup (name :: rest)) as Hnd by (rewrite Hperm; apply idents_filter_NoDup).
  apply NoDup_cons in Hnd as [Hname Hrest].
  assert (name ∈ available placed items) as Hav by (rewrite <- Hperm; by left).
  apply available_elem in Hav as (it0 & Hit0 & Hid0 & Hnp & Hdone0).
  destruct (dependent_names name) as [HLnd HL]; [rewrite <- Hid0; by apply list_elem_of_fmap_2|].
  set (L := sorted_strs (dget_or deps name [])) in *.
  destruct (fold_release L degrees rest HLnd) as (degrees' & Hfold & Hget).
  eexists _, _. split; [exact Hfold|]. split.
  - intros item Hitem [Hp|Hp%list_elem_of_singleton]%elem_of_app.
    + apply Forall_snoc_weaken. by apply (placed_closed _ _ _ Hinv).
    + rewrite (NoDup_key_inj ident items item it0 ids_distinct Hitem Hit0) by congruence.
      by apply Forall_snoc_weaken.
  - intros item Hitem Hp. rewrite Hget.
    assert (ident item ∉ placed) as Hp' by (intros Hp'; apply Hp, elem_of_app; by left).
    rewrite (degrees_needs _ _ _ Hinv) by done. unfold needs.
    destruct (decide (ident item ∈ L)) as [Hin|Hin].
    + apply HL in Hin as (item' & Hitem' & Hid & Hn).
      rewrite (NoDup_key_inj ident items item' item ids_distinct Hitem' Hitem Hid) in Hn.
      rewrite (missing_placed placed _ name) by auto. cbn. f_equal. lia.
    + rewrite missing_other; [done|]. intros Hn. apply Hin, HL. eauto.
  - apply NoDup_Permutation; [|apply idents_filter_NoDup|].
    + apply NoDup_app. split; [done|]. split; [|by apply NoDup_filter].
      intros y Hy Hy'. apply list_elem_of_filter in Hy' as [_ (item & Hitem & <- & Hn)%HL].
      assert (ident item ∈ available placed items) as Hav by (rewrite <- Hperm; by right).
      apply available_elem in Hav as (item' & Hitem' & Hid & _ & Hall).
      rewrite (NoDup_key_inj ident items item' item ids_distinct Hitem' Hitem Hid) in Hall.
      apply Hnp. by apply (proj1 (Forall_forall _ _) Hall).
    + intros y. rewrite elem_of_app, list_elem_of_filter, available_elem, HL. split.
      * intros Hy. assert (exists item, item ∈ items /\ ident item = y) as (item & Hitem & <-).
        { destruct Hy as [Hy|(_ & item & ? & ? & _)]; [|eauto].
          assert (y ∈ available placed items) as (item & ? & ? & _)%available_elem by (rewrite <- Hperm; by right).
          eauto. }
        exists item. split; [done|]. split; [done|].
        apply (next_available _ _ _ _ _ _ Hinv Hperm Hname Hnp Hitem).
        destruct Hy as [?|(Hdeg & item' & Hitem' & Hid & Hn)]; [by left|right].
        by rewrite (NoDup_key_inj ident items item' item ids_distinct Hitem' Hitem Hid) in Hn.
      * intros (item & Hitem & <- & Hall).
        apply (next_available _ _ _ _ _ _ Hinv Hperm Hname Hnp Hitem) in Hall as [?|[? ?]]; [by left|right; eauto].
Qed.

(** Popping the queue is choosing the least available component. *)
Lemma kahn_greedy fuel placed degrees ready :
  kahn_inv placed degrees ready -> kahn fuel deps degrees ready = greedy fuel placed items.
Proof.
  revert placed degrees ready. induction fuel as [|fuel IH]; intros placed degrees ready Hinv; [done|].
  cbn [kahn greedy]. destruct (pop_min ready) as [[name rest]|] eqn:Hpop.
  - destruct (kahn_step _ _ _ _ _ Hinv Hpop) as (degrees' & ready' & -> & Hinv').
    unfold pop_min in Hpop. rewrite (sorted_strs_unique _ _ (ready_available _ _ _ Hinv)) in Hpop.
    destruct (sorted_strs (available placed items)) as [|x l]; [done|]. injection Hpop as -> ->.
    f_equal. by apply IH.
  - unfold pop_min in Hpop. rewrite (sorted_strs_unique _ _ (ready_available _ _ _ Hinv)) in Hpop.
    by destruct (sorted_strs (available placed items)).
Qed.
End Invariant.

(* ------------------------------------------------------------------ *)
(** ** The reference order *)

Lemma greedy_sound items fuel placed :
  let names := greedy fuel placed items in
  NoDup names /\ (length names <= fuel)%nat /\ (forall n, n ∈ names -> n ∉ placed) /\
  (forall before n rest, names = before ++ n :: rest ->
     exists item, item ∈ items /\ ident item = n /\ Forall (.∈ placed ++ before) (after (base item))).
Proof.
  revert placed; induction fuel as [|fuel IH]; intros placed; cbn [greedy].
  { split; [constructor|]. split; [done|]. split; [by intros n ?%not_elem_of_nil|]. by intros [|? before]. }
  destruct (sorted_strs (available placed items)) as [|name l] eqn:Hs.
  { split; [constructor|]. split; [cbn; lia|]. split; [by intros n ?%not_elem_of_nil|]. by intros [|? before]. }
  destruct (IH (placed ++ [name])) as (Hnd & Hlen & Hnew & Hdeps).
  assert (name ∈ available placed items) as Hav by (apply sorted_strs_elem; rewrite Hs; by left).
  apply available_elem in Hav as (item & Hitem & Hid & Hnp & Hall).
  split; [|split; [cbn; lia|split]].
  - constructor; [|done]. intros Hin. apply (Hnew _ Hin), elem_of_app. right. by left.
  - intros n [->|Hn]%elem_of_cons; [done|]. intros Hp. apply (Hnew n Hn), elem_of_app. by left.
  - intros [|x before] n rest Heq; injection Heq as -> Heq.
    + exists item. by rewrite app_nil_r.
    + destruct (Hdeps before n rest Heq) as (item' & Hitem' & Hid' & Hall'). exists item'.
      rewrite <- app_assoc in Hall'. done.
Qed.

(** The first component of an order that is not placed. *)
Lemma first_missing ordered (placed : list pystr) : ~ Forall (.∈ placed) (idents ordered) ->
  exists before item rest, ordered = before ++ item :: rest /\ ident item ∉ placed /\
    Forall (.∈ placed) (idents before).
Proof.
  induction ordered as [|item ordered IH]; [by intros []; constructor|]. intros Hn.
  destruct (decide (ident item ∈ placed)) as [Hp|Hp].
  - destruct IH as (before & x & rest & -> & Hx & Hb).
    + intros Hall. apply Hn. by constructor.
    + exists (item :: before), x, rest. split; [done|]. split; [done|]. by constructor.
  - exists [], item, ordered. split; [done|]. split; [done|]. constructor.
Qed.

(** When there is an order, the reference places everything. *)
Lemma greedy_complete items ordered fuel placed :
  NoDup (idents items) -> ordered ≡ₚ items -> respects ordered ->
  NoDup placed -> (forall p, p ∈ placed -> p ∈ idents items) ->
  (length placed + fuel = length items)%nat ->
  length (greedy fuel placed items) = fuel.
Proof.
  intros Hids Hperm Hresp. revert placed. induction fuel as [|fuel IH]; intros placed Hnd Hsub Hlen; [done|].
  cbn [greedy].
  assert (exists before item rest, ordered = before ++ item :: rest /\ ident item ∉ placed /\
            Forall (.∈ placed) (idents before)) as (before & item & rest & Heq & Hnp & Hbefore).
  { apply (first_missing ordered placed). intros Hall.
    assert (length (idents ordered) <= length placed)%nat as Hle.
    { apply NoDup_incl_length; [apply NoDup_ListNoDup; unfold idents in *; by rewrite Hperm|].
      intros x Hx. rewrite <- list_elem_of_In in *. by apply (proj1 (Forall_forall _ _) Hall). }
    unfold idents in Hle. rewrite length_fmap, Hperm in Hle. lia. }
  assert (item ∈ items) as Hitem by (rewrite <- Hperm, Heq; set_solver).
  assert (ident item ∈ available placed items) as Hav.
  { apply available_elem. exists item. split; [done|]. split; [done|]. split; [done|].
    eapply Forall_impl; [by eapply Hresp|]. intros d Hd. by apply (proj1 (Forall_forall _ _) Hbefore). }
  destruct (sorted_strs (available placed items)) as [|name l] eqn:Hs.
  { apply sorted_strs_elem in Hav. rewrite Hs in Hav. by apply not_elem_of_nil in Hav. }
  assert (name ∈ available placed items) as (item' & Hitem' & Hid' & Hnp' & _)%available_elem
    by (apply sorted_strs_elem; rewrite Hs; by left).
  cbn. f_equal. apply IH.
  - apply NoDup_app. split; [done|]. split; [|apply NoDup_singleton].
    intros x Hx ->%list_elem_of_singleton. done.
  - intros p [Hp|Hp%list_elem_of_singleton]%elem_of_app; [by apply Hsub|]. rewrite Hp, <- Hid'.
    by apply list_elem_of_fmap_2.
  - rewrite length_app. cbn. lia.
Qed.

#[local] Instance greedy_proper fuel placed : Proper ((≡ₚ) ==> (=)) (greedy fuel placed).
Proof.
  intros items items' Hperm. revert placed; induction fuel as [|fuel IH]; intros placed; cbn [greedy]; [done|].
  assert (sorted_strs (available placed items) = sorted_strs (available placed items')) as ->.
  { apply sorted_strs_unique. unfold available. by rewrite Hperm. }
  destruct (sorted_strs _); [done|]. by rewrite IH.
Qed.

(* ------------------------------------------------------------------ *)
(** ** The graph *)

(** The dependencies of an item are other known components. *)
Definition linkable (ids : dict pystr A) (item : A) (d : pystr) : Prop :=
  dhas ids d = true /\ d ≠ ident item.

Lemma link_spec ids item g d :
  match link ids item g d with
  | Ok g' => linkable ids item d /\
      g' = {| dependents := dalter (fun l => l ++ [ident item]) (dependents g) d;
              indegree := dalter Z.succ (indegree g) (ident item) |}
  | Raise e => exn_type e = PlanError /\ ~ linkable ids item d
  end.
Proof.
  unfold link, linkable. destruct (dhas ids d) eqn:Hd; cbn [negb raise_if rbind].
  - case_bool_decide; cbn [raise_if rbind]; [split; [done|]; tauto|done].
  - split; [done|]. intros [? _]. congruence.
Qed.

Lemma link_all ids item ds g : NoDup ds ->
  match foldR (link ids item) g ds with
  | Ok g' => (forall d, d ∈ ds -> linkable ids item d) /\
      (forall k, dget (dependents g') k
         = (fun l => l ++ (if decide (k ∈ ds) then [ident item] else [])) <$> dget (dependents g) k) /\
      (forall k, dget (indegree g') k
         = if decide (k = ident item) then (fun z => z + Z.of_nat (length ds))%Z <$> dget (indegree g) k
           else dget (indegree g) k) /\
      dkeys (indegree g') = dkeys (indegree g)
  | Raise e => exn_type e = PlanError /\ exists d, d ∈ ds /\ ~ linkable ids item d
  end.
Proof.
  intros Hnd. revert g. induction Hnd as [|d ds Hd Hnd IH]; intros g; cbn [foldR].
  { split; [by intros d ?%not_elem_of_nil|]. split; [|split; [|done]]; intros k.
    - rewrite decide_False by apply not_elem_of_nil. destruct (dget _ k); cbn; by rewrite ?app_nil_r.
    - case_decide; [|done]. destruct (dget _ k); cbn; [|done]. f_equal. lia. }
  pose proof (link_spec ids item g d) as Hl. destruct (link ids item g d) as [g1|e]; cbn [rbind].
  2:{ destruct Hl as [He Hl]. split; [done|]. exists d. split; [by left|done]. }
  destruct Hl as [Hlink ->]. specialize (IH {| dependents := dalter (fun l => l ++ [ident item]) (dependents g) d;
    indegree := dalter Z.succ (indegree g) (ident item) |}). cbn [dependents indegree] in IH.
  destruct (foldR _ _ ds) as [g'|e].
  - destruct IH as (Hall & Hdep & Hdeg & Hkeys). split; [by intros x [->|Hx]%elem_of_cons; auto|].
    split; [|split].
    + intros k. rewrite Hdep, dget_dalter. destruct (decide (k = d)) as [->|Hk].
      * rewrite decide_False by done. rewrite decide_True by by left.
        destruct (dget _ d); cbn; by rewrite ?app_nil_r.
      * destruct (decide (k ∈ ds)); [rewrite decide_True by by right|rewrite decide_False by
          (intros [?|?]%elem_of_cons; done)]; done.
    + intros k. rewrite Hdeg, dget_dalter. case_decide; [|done].
      destruct (dget _ k); cbn; [|done]. f_equal. lia.
    + by rewrite Hkeys, dkeys_dalter.
  - destruct IH as (He & x & Hx & Hn). split; [done|]. exists x. split; [by right|done].
Qed.

Lemma build_all ids items g :
  NoDup (idents items) -> (forall item, item ∈ items -> NoDup (after (base item))) ->
  match foldR (fun g item => foldR (link ids item) g (after (base item))) g items with
  | Ok g' => (forall item d, item ∈ items -> d ∈ after (base item) -> linkable ids item d) /\
      (forall k, dget (dependents g') k
         = (fun l => l ++ idents (filter (fun item => k ∈ after (base item)) items)) <$> dget (dependents g) k) /\
      (forall item, item ∈ items -> dget (indegree g') (ident item)
         = (fun z => z + Z.of_nat (length (after (base item))))%Z <$> dget (indegree g) (ident item)) /\
      (forall k, k ∉ idents items -> dget (indegree g') k = dget (indegree g) k) /\
      dkeys (indegree g') = dkeys (indegree g)
  | Raise e => exn_type e = PlanError /\
      exists item d, item ∈ items /\ d ∈ after (base item) /\ ~ linkable ids item d
  end.
Proof.
  revert g. induction items as [|item items IH]; intros g Hids Hnd; cbn [foldR].
  { split; [by intros item d ?%not_elem_of_nil|]. split; [|split; [by intros item ?%not_elem_of_nil|done]].
    intros k. cbn. destruct (dget _ k); cbn; by rewrite ?app_nil_r. }
  apply NoDup_cons in Hids as [Hfresh Hids].
  pose proof (link_all ids item (after (base item)) g (Hnd item ltac:(by left))) as Hl.
  destruct (foldR (link ids item) g _) as [g1|e]; cbn [rbind].
  2:{ destruct Hl as (He & d & Hd & Hn). split; [done|]. exists item, d. split; [by left|done]. }
  destruct Hl as (Hlink & Hdep & Hdeg & Hkeys).
  specialize (IH g1 Hids ltac:(intros i Hi; apply Hnd; by right)).
  destruct (foldR _ g1 items) as [g'|e].
  - destruct IH as (Hlink' & Hdep' & Hdeg' & Hother & Hkeys'). split; [|split; [|split; [|split]]].
    + intros i d [->|Hi]%elem_of_cons; eauto.
    + intros k. rewrite Hdep', Hdep. unfold idents. rewrite filter_cons.
      destruct (dget _ k) as [l|]; cbn; [|done]. case_decide; cbn; by rewrite ?app_nil_r, <- ?app_assoc.
    + intros i [->|Hi]%elem_of_cons.
      * rewrite Hother by done. by rewrite Hdeg, decide_True.
      * rewrite Hdeg' by done. rewrite Hdeg, decide_False; [done|].
        intros Heq. apply Hfresh. change (ident item ∈ idents items). rewrite <- Heq. by apply list_elem_of_fmap_2.
    + intros k Hk. rewrite Hother by (intros Hin; apply Hk; by right).
      rewrite Hdeg, decide_False; [done|]. intros ->. apply Hk. by left.
    + congruence.
  - destruct IH as (He & i & d & Hi & Hn). split; [done|]. exists i, d. split; [by right|done].
Qed.

(* ------------------------------------------------------------------ *)
(** ** The compiler's order *)

Lemma by_id_eq items : NoDup (idents items) ->
  by_id items = (fun item => (ident item, item)) <$> items.
Proof.
  intros Hids. apply dict_of_NoDup. unfold dict_wf, dkeys. by rewrite <- list_fmap_compose.
Qed.

Lemma by_id_length items : length (by_id items) = length items <-> NoDup (idents items).
Proof.
  split; [|intros Hids; by rewrite by_id_eq, length_fmap]. intros Hlen.
  apply NoDup_ListNoDup. apply (NoDup_incl_NoDup (l := dkeys (by_id items))).
  - apply NoDup_ListNoDup, dict_of_wf.
  - unfold dkeys, idents. rewrite !length_fmap. lia.
  - intros k Hk. rewrite <- list_elem_of_In in *. unfold by_id, dict_of in Hk.
    apply dkeys_dupdate_elem in Hk as [Hk|Hk]; [by apply not_elem_of_nil in Hk|].
    unfold dkeys in Hk. by rewrite <- list_fmap_compose in Hk.
Qed.

Lemma by_id_get items item : NoDup (idents items) -> item ∈ items ->
  dget (by_id items) (ident item) = Some item.
Proof.
  intros Hids Hitem. rewrite by_id_eq by done. apply elem_dget.
  - unfold dict_wf, dkeys. by rewrite <- list_fmap_compose.
  - by apply (list_elem_of_fmap_2 (fun item => (ident item, item))).
Qed.

Lemma by_id_has items d : NoDup (idents items) -> dhas (by_id items) d = true <-> d ∈ idents items.
Proof.
  intros Hids. rewrite dhas_true, by_id_eq by done. unfold dkeys. by rewrite <- list_fmap_compose.
Qed.

Lemma ordered_idents items names :
  NoDup (idents items) -> (forall n, n ∈ names -> n ∈ idents items) ->
  idents (omap (dget (by_id items)) names) = names /\
  (forall item, item ∈ omap (dget (by_id items)) names -> item ∈ items).
Proof.
  intros Hids. induction names as [|n names IH]; intros Hin; [by split; [|intros ? ?%not_elem_of_nil]|].
  destruct IH as [IH1 IH2]; [intros; apply Hin; by right|].
  assert (n ∈ idents items) as Hn by (apply Hin; by left).
  apply list_elem_of_fmap in Hn as (item & -> & Hitem).
  cbn [omap list_omap]. rewrite by_id_get by done. split.
  - change (ident item :: idents (omap (dget (by_id items)) names) = ident item :: names).
    by rewrite IH1.
  - intros i [->|Hi]%elem_of_cons; auto.
Qed.

(** The initial queue. *)
Lemma initial_inv items g :
  NoDup (idents items) -> (forall item, item ∈ items -> NoDup (after (base item))) ->
  build_graph (by_id items) items = Ok g ->
  (forall item d, item ∈ items -> d ∈ after (base item) -> linkable (by_id items) item d) /\
  (forall name, name ∈ idents items ->
     dget_or (dependents g) name [] ≡ₚ idents (filter (fun item => name ∈ after (base item)) items)) /\
  kahn_inv items [] (indegree g) (sources g).
Proof.
  intros Hids Hnd Hb. pose proof (build_all (by_id items) items (empty_graph (by_id items)) Hids Hnd) as Hall.
  unfold build_graph in Hb. rewrite Hb in Hall. destruct Hall as (Hlink & Hdep & Hdeg & _ & Hkeys).
  split; [done|].
  assert (forall (V : Type) (v : V) name, name ∈ idents items ->
            dget ((fun kv : pystr * A => (kv.1, v)) <$> by_id items) name = Some v) as Hempty.
  { intros V v name Hname. apply list_elem_of_fmap in Hname as (item & -> & Hitem).
    apply elem_dget.
    - unfold dict_wf, dkeys. rewrite <- list_fmap_compose. apply dict_of_wf.
    - pose proof (by_id_get items item Hids Hitem) as Hg%dget_elem.
      by apply (list_elem_of_fmap_2 (fun kv : pystr * A => (kv.1, v))) in Hg. }
  split.
  { intros name Hname. unfold dget_or. rewrite Hdep. cbn [dependents empty_graph]. rewrite Hempty by done. done. }
  assert (forall item, item ∈ items ->
            dget (indegree g) (ident item) = Some (Z.of_nat (length (after (base item))))) as Hdeg'.
  { intros item Hitem. rewrite Hdeg by done. cbn [indegree empty_graph].
    rewrite Hempty by by apply list_elem_of_fmap_2. cbn. f_equal. }
  assert (dkeys (indegree g) = idents items) as Hk.
  { rewrite Hkeys. cbn [indegree empty_graph]. unfold dkeys. rewrite <- list_fmap_compose, by_id_eq by done.
    by rewrite <- list_fmap_compose. }
  assert (dict_wf (indegree g)) as Hwf by (unfold dict_wf; by rewrite Hk).
  split.
  - by intros item _ ?%not_elem_of_nil.
  - intros item Hitem _. rewrite Hdeg' by done. unfold needs. by rewrite filter_all by (intros; apply not_elem_of_nil).
  - apply NoDup_Permutation.
    + eapply sublist_NoDup; [exact Hwf|]. apply fmap_sublist, sublist_filter.
    + by apply idents_filter_NoDup.
    + intros name. rewrite available_elem. unfold sources. rewrite list_elem_of_fmap. split.
      * intros ([k z] & -> & [Hz Hin]%list_elem_of_filter). cbn in Hz. subst z.
        assert (k ∈ idents items) as (item & -> & Hitem)%list_elem_of_fmap.
        { rewrite <- Hk. by apply (list_elem_of_fmap_2 fst) in Hin. }
        exists item. split; [done|]. split; [done|]. split; [apply not_elem_of_nil|].
        apply elem_dget in Hin; [|done]. cbn in Hin. rewrite Hdeg' in Hin by done. injection Hin as Hin.
        destruct (after (base item)); [constructor|cbn in Hin; lia].
      * intros (item & Hitem & <- & _ & Hall). exists (ident item, 0%Z). split; [done|].
        apply list_elem_of_filter. split; [done|]. apply elem_dget; [done|]. rewrite Hdeg' by done.
        destruct Hall as [|d ds Hd _]; [done|]. by apply not_elem_of_nil in Hd.
Qed.

Lemma respects_idents items ordered :
  (forall item, item ∈ ordered -> item ∈ items) -> NoDup (idents items) ->
  (forall before n rest, idents ordered = before ++ n :: rest ->
     exists item, item ∈ items /\ ident item = n /\ Forall (.∈ before) (after (base item))) ->
  respects ordered.
Proof.
  intros Hsub Hids Hdeps before item rest Heq.
  destruct (Hdeps (idents before) (ident item) (idents rest)) as (item' & Hitem' & Hid & Hall).
  { unfold idents. by rewrite Heq, fmap_app. }
  assert (item ∈ items) as Hitem by (apply Hsub; rewrite Heq; set_solver).
  by rewrite (NoDup_key_inj ident items item item' Hids Hitem Hitem') by done.
Qed.

(** The order the compiler computes when the document passes its checks. *)
Lemma topological_Ok items ordered :
  (forall item, item ∈ items -> NoDup (after (base item))) ->
  topological_components items = Ok ordered ->
  orderable items /\ ordered ≡ₚ items /\ respects ordered /\
  idents ordered = greedy (length items) [] items.
Proof.
  intros Hnd. unfold topological_components. set (ids := by_id items). intros Ht.
  destruct (negb (length ids =? length items)%nat) eqn:Hlen; [discriminate Ht|]. cbn [raise_if rbind] in Ht.
  apply negb_false_iff, Nat.eqb_eq, by_id_length in Hlen as Hids.
  destruct (negb (existsb _ items)) eqn:Hcrit; [discriminate Ht|]. cbn [raise_if rbind] in Ht.
  apply negb_false_iff, existsb_elem in Hcrit.
  destruct (build_graph ids items) as [g|e] eqn:Hb; [|discriminate Ht]. cbn [rbind] in Ht.
  destruct (initial_inv items g Hids Hnd Hb) as (Hlink & Hdeps & Hinv).
  assert (forall item, item ∈ items -> ident item ∉ after (base item)) as Hself.
  { intros item Hitem Hin. by destruct (Hlink item _ Hitem Hin). }
  rewrite (kahn_greedy items (dependents g) Hids Hnd Hself Hdeps _ _ _ _ Hinv) in Ht.
  destruct (greedy_sound items (length items) []) as (Hgnd & _ & _ & Hgdeps).
  set (names := greedy (length items) [] items) in *.
  destruct (ordered_idents items names Hids) as [Hnames Hsub].
  { intros n (b & r & Heq)%list_elem_of_split. destruct (Hgdeps b n r Heq) as (item & Hitem & <- & _).
    by apply list_elem_of_fmap_2. }
  fold ids in Hnames, Hsub. set (ord := omap (dget ids) names) in *.
  destruct (negb (length ord =? length items)%nat) eqn:Hfull; [discriminate Ht|].
  cbn [raise_if rbind] in Ht. injection Ht as <-. apply negb_false_iff, Nat.eqb_eq in Hfull.
  assert (NoDup ord) as Hond by (apply (NoDup_fmap_1 ident); by rewrite <- Hnames in Hgnd).
  assert (ord ≡ₚ items) as Hperm.
  { apply submseteq_length_Permutation; [|lia]. by apply NoDup_submseteq. }
  assert (respects ord) as Hresp.
  { apply (respects_idents items); [done|done|]. intros b n r Heq. rewrite Hnames in Heq. by eapply Hgdeps. }
  split; [|done]. split; [done|]. split; [naive_solver|by exists ord].
Qed.

Lemma topological_complete items :
  (forall item, item ∈ items -> NoDup (after (base item))) -> orderable items ->
  exists ordered, topological_components items = Ok ordered.
Proof.
  intros Hnd (Hids & Hcrit & order & Hperm & Hresp). unfold topological_components.
  rewrite (proj2 (by_id_length items) Hids), Nat.eqb_refl. cbn [negb raise_if rbind].
  rewrite (proj2 (existsb_elem _ items)) by naive_solver. cbn [negb raise_if rbind].
  pose proof (build_all (by_id items) items (empty_graph (by_id items)) Hids Hnd) as Hall.
  destruct (build_graph (by_id items) items) as [g|e] eqn:Hb; unfold build_graph in Hb; rewrite Hb in Hall.
  2:{ exfalso. destruct Hall as (_ & item & d & Hitem & Hd & Hn). apply Hn.
      rewrite <- Hperm in Hitem. apply list_elem_of_split in Hitem as (b & r & Heq).
      pose proof (proj1 (Forall_forall _ _) (Hresp b item r Heq) d Hd) as Hin. cbn in Hin.
      assert (NoDup (idents order)) as Hond by (unfold idents; by rewrite Hperm).
      split.
      - apply by_id_has; [done|]. unfold idents. rewrite <- Hperm, Heq, fmap_app. set_solver.
      - intros ->. rewrite Heq in Hond. unfold idents in Hond. rewrite fmap_app in Hond.
        apply NoDup_app in Hond as (_ & Hdis & _). apply (Hdis _ Hin). by left. }
  cbn [rbind]. fold (build_graph (by_id items) items) in Hb.
  destruct (initial_inv items g Hids Hnd Hb) as (Hlink & Hdeps & Hinv).
  assert (forall item, item ∈ items -> ident item ∉ after (base item)) as Hself.
  { intros item Hitem Hin. by destruct (Hlink item _ Hitem Hin). }
  rewrite (kahn_greedy items (dependents g) Hids Hnd Hself Hdeps _ _ _ _ Hinv).
  destruct (greedy_sound items (length items) []) as (_ & _ & _ & Hgdeps).
  destruct (ordered_idents items (greedy (length items) [] items) Hids) as [Hnames _].
  { intros n (b & r & Heq)%list_elem_of_split. destruct (Hgdeps b n r Heq) as (item & Hitem & <- & _).
    by apply list_elem_of_fmap_2. }
  apply (f_equal length) in Hnames. unfold idents in Hnames at 1. rewrite length_fmap in Hnames.
  rewrite (greedy_complete items order) in Hnames;
    [|done|done|done|constructor|by intros p ?%not_elem_of_nil|done].
  rewrite Hnames, Nat.eqb_refl. cbn. by eexists.
Qed.

Lemma topological_error items e :
  (forall item, item ∈ items -> NoDup (after (base item))) ->
  topological_components items = Raise e -> exn_type e = PlanError.
Proof.
  intros Hnd. unfold topological_components.
  destruct (negb (length _ =? _)%nat) eqn:Hlen; [by intros [= <-]|].
  apply negb_false_iff, Nat.eqb_eq, by_id_length in Hlen as Hids. cbn [raise_if rbind].
  destruct (negb (existsb _ _)); [by intros [= <-]|]. cbn [raise_if rbind].
  pose proof (build_all (by_id items) items (empty_graph (by_id items)) Hids Hnd) as Hall.
  unfold build_graph. destruct (foldR _ _ items) as [g|e']; cbn [rbind].
  - destruct (negb _); [by intros [= <-]|done].
  - intros [= <-]. apply Hall.
Qed.

(** Components of one document are determined by their ids. *)
Lemma idents_determine items l1 l2 : NoDup (idents items) ->
  (forall item, item ∈ l1 -> item ∈ items) -> (forall item, item ∈ l2 -> item ∈ items) ->
  idents l1 = idents l2 -> l1 = l2.
Proof.
  intros Hids. revert l2; induction l1 as [|x l1 IH]; intros [|y l2] H1 H2 Heq; try done.
  injection Heq as Hxy Heq. f_equal.
  - apply (NoDup_key_inj ident items); [done|apply H1; by left|apply H2; by left|done].
  - apply IH; [intros; apply H1; by right|intros; apply H2; by right|done].
Qed.

(** C32: the component order of a plan.  A document is accepted exactly when its
    ids are distinct, some component is critical and some order puts every
    component after its dependencies, so that dependencies exist and have no
    cycle; every rejection is a [PlanError].  The order computed through the
    in-degree queue is a reordering of the components with dependencies first,
    namely the one that always takes the least id available, and it does not
    depend on the order of the components in the source. *)
Theorem topological_components_spec items :
  (forall item, item ∈ items -> NoDup (after (base item))) ->
  match topological_components items with
  | Ok ordered =>
      ordered ≡ₚ items /\ respects ordered /\
      idents ordered = greedy (length items) [] items /\
      forall items', items' ≡ₚ items -> topological_components items' = Ok ordered
  | Raise e => exn_type e = PlanError /\ ~ orderable items
  end.
Proof.
  intros Hnd. destruct (topological_components items) as [ordered|e] eqn:Ht.
  - destruct (topological_Ok items ordered Hnd Ht) as ((Hids & (c & Hc & Hcrit) & order & Hperm' & Hresp') & Hperm & Hresp & Hnames).
    split; [done|]. split; [done|]. split; [done|]. intros items' Hp.
    assert (forall item, item ∈ items' -> NoDup (after (base item))) as Hnd'.
    { intros item Hitem. apply Hnd. by rewrite <- Hp. }
    destruct (topological_complete items' Hnd') as [ordered' Ht'].
    { split; [unfold idents; by rewrite Hp|]. split; [exists c; by rewrite Hp|]. exists order. by rewrite Hp. }
    destruct (topological_Ok items' ordered' Hnd' Ht') as (_ & Hperm2 & _ & Hnames').
    rewrite Ht'. f_equal. apply (idents_determine items); [done| | |].
    { intros item. by rewrite Hperm2, Hp. }
    { intros item. by rewrite Hperm. }
    by rewrite Hnames', Hnames, (Permutation_length Hp), Hp.
  - split; [by eapply topological_error|]. intros Hord.
    destruct (topological_complete items Hnd Hord) as [ordered Ho]. congruence.
Qed.
End Order.

(* ------------------------------------------------------------------ *)
(** ** Witness *)

Definition sample_component (cid : pystr) (after : list pystr) (critical : bool) : component := {|
  id := cid; kind := §"other"; critical := critical; restart := §"never"; readiness_mode := §"exec";
  readiness_timeout_ms := 1; initial_ms := 250; max_ms := 30000; limit := 8; argv := [§"/bin/true"];
  after := after; environment := [] |}.

Definition sample_components : list component :=
  [sample_component §"z" [§"b"; §"a"] false; sample_component §"b" [] true;
   sample_component §"a" [§"b"] false].

Lemma topological_components_spec_witness :
  idents (fun c => c) (default [] (match topological_components (fun c => c) sample_components with
                                    | Ok o => Some o | Raise _ => None end)) = [§"b"; §"a"; §"z"] /\
  ~ orderable (fun c => c) [sample_component §"a" [§"b"] true; sample_component §"b" [§"a"] true].
Proof.
  split.
  - pose proof (topological_components_spec (fun c => c) sample_components) as Hs.
    destruct (topological_components (fun c => c) sample_components) as [o|e] eqn:Ho.
    + destruct Hs as (_ & _ & Hg & _).
      * intros item Hitem. repeat (apply elem_of_cons in Hitem as [->|Hitem];
          [apply (bool_decide_unpack _); vm_compute; exact I|]). destruct (not_elem_of_nil _ Hitem).
      * transitivity (idents (fun c : component => c) o); [reflexivity|]. rewrite Hg. vm_compute. reflexivity.
    + vm_compute in Ho. discriminate Ho.
  - pose proof (topological_components_spec (fun c => c)
      [sample_component §"a" [§"b"] true; sample_component §"b" [§"a"] true]) as Hs.
    destruct Hs as [_ Hno]; [|exact Hno].
    intros item Hitem. repeat (apply elem_of_cons in Hitem as [->|Hitem];
      [apply (bool_decide_unpack _); vm_compute; exact I|]). destruct (not_elem_of_nil _ Hitem).
Defined.
End PlanOrder.
