(* ===== verification/PlanText.v ===== *)
(** * The native plan compiler: the plan text ([native/scripts/compile_runtime_plan.py])

    The line protocol the native runtime reads, for both formats, and the fact
    that a text stands for one normalized plan only: no name, argument or
    environment value can forge a line or a field. *)

From Stdlib Require Import ZArith.
From S2P Require Export PlanOrder.

Module PlanText.
Import Plan PlanOrder.

Definition HEADER : list pystr := [§"MSYS_NATIVE_LITE_PLAN"; §"1"].
Definition HEADER_V2 : list pystr := [§"MSYS_NATIVE_LITE_PLAN"; §"2"].

Definition tab : N := 9.
Definition newline : N := 10.

(** A line is its fields joined by tabs. *)
Definition row_text (row : list pystr) : pystr := str_join [tab] row.
Definition rows_text (rows : list (list pystr)) : pystr :=
  str_join [newline] (row_text <$> rows) ++ [newline].

Definition flag (b : bool) : pystr := if b then §"1" else §"0".
Definition count {A} (l : list A) : pystr := dec_N (N.of_nat (length l)).

Section Render.
Context {lib : PyLib} {repr : PyRepr}.

Definition encoded (value : pystr) : py pystr := b ← py_encode value; Ok (hex b).

Definition encoded_row (name : pystr) (values : list pystr) : py (list pystr) :=
  es ← mapR encoded values; Ok (name :: es).

(** The fields of the [component] line of the first format. *)
Definition component_fields (c : component) : list pystr :=
  [§"component"; id c; kind c; flag (critical c); restart c; readiness_mode c;
   dec_Z (readiness_timeout_ms c); dec_Z (initial_ms c); dec_Z (max_ms c); dec_Z (limit c);
   count (argv c); count (after c); count (environment c)].

(** Arguments, dependencies and environment, common to both formats. *)
Definition body_rows (c : component) : py (list (list pystr)) :=
  args ← mapR (fun value => encoded_row §"arg" [value]) (argv c);
  let afters := (fun value => [§"after"; value]) <$> after c in
  env ← mapR (fun kv => encoded_row §"env" [kv.1; kv.2]) (environment c);
  Ok (args ++ afters ++ env).

Definition component_rows (c : component) : py (list (list pystr)) :=
  body ← body_rows c; Ok (component_fields c :: body ++ [[§"end"]]).

Definition provide_row (p : provide) : py (list pystr) :=
  e ← encoded (provide_name p);
  Ok [§"provide"; provide_kind p; e; flag (exclusive p); dec_Z (priority p)].

Definition component_fields_v2 (c : component_v2) : list pystr :=
  component_fields (base c) ++
  [lifecycle c; dec_Z (idle_timeout_ms c); count (provides c); count (permissions c);
   flag (launchable c)].

Definition component_rows_v2 (c : component_v2) : py (list (list pystr)) :=
  body ← body_rows (base c);
  provided ← mapR provide_row (provides c);
  permitted ← mapR (fun value => encoded_row §"permission" [value]) (permissions c);
  package ← encoded_row §"package" [package_id c; package_name c; package_version c; package_kind c];
  metadata ← encoded_row §"metadata" [name c; summary c; icon c];
  windowing ← encoded_row §"window" (window c);
  Ok (component_fields_v2 c :: body ++ provided ++ permitted ++ [package; metadata; windowing; [§"end"]]).

Definition role_rows (role : pystr * list pystr) : py (list (list pystr)) :=
  e ← encoded role.1;
  Ok ([§"role"; e; count role.2] :: ((fun provider => [§"provider"; provider]) <$> role.2)).

Definition profile_rows (p : profile) : py (list (list pystr)) :=
  pid ← encoded (profile_id p);
  disp ← encoded (display p);
  rs ← mapR role_rows (roles p);
  env ← mapR (fun kv => encoded_row §"profile-env" [kv.1; kv.2]) (profile_environment p);
  Ok ([§"profile"; pid; disp; count (roles p); count (profile_environment p); count (startup p)]
      :: concat rs ++ env ++ ((fun value => [§"startup"; value]) <$> startup p)).

(** The normalized plans of both formats. *)
Inductive plan :=
| PlanV1 (stop_grace : Z) (components : list component)
| PlanV2 (stop_grace : Z) (prof : profile) (components : list component_v2).

Definition grace_row (stop_grace : Z) : list pystr := [§"stop_grace_ms"; dec_Z stop_grace].

Definition plan_rows (p : plan) : py (list (list pystr)) :=
  match p with
  | PlanV1 stop_grace components =>
      cs ← mapR component_rows components;
      Ok (HEADER :: grace_row stop_grace :: concat cs)
  | PlanV2 stop_grace prof components =>
      ps ← profile_rows prof;
      cs ← mapR component_rows_v2 components;
      Ok (HEADER_V2 :: grace_row stop_grace :: ps ++ concat cs)
  end.

Definition render (p : plan) : py pystr :=
  rows ← plan_rows p;
  let result := rows_text rows in
  bytes ← py_encode result;
  raise_if (MAX_BYTES <? Z.of_nat (length bytes))%Z (plan_error §"compiled plan exceeds 1 MiB");;
  Ok result.

(* ------------------------------------------------------------------ *)
(** ** Documents *)

Definition read_components {A} (base : A -> component) (normalize : nat -> pyval -> py A)
    (root : dict pystr pyval) : py (list A) :=
  raw ← bounded_list (field root §"components") 1 MAX_COMPONENTS
    §"$.components must contain 1..64 entries";
  components ← imapR normalize raw;
  topological_components base components.

(** Startup entries and preferred providers are components of the plan, and a
    preferred provider provides its role. *)
Definition check_startup (p : profile) (components : list component_v2) : py unit :=
  mapR (fun c => raise_if (negb (bool_decide (c ∈ (fun i => id (base i)) <$> components)))
    (plan_error (§"$.profile.startup references missing component " ++ c))) (startup p);;
  Ok tt.

Definition check_provider (role : pystr) (components : list component_v2) (provider : pystr) : py unit :=
  match find_first (fun i => bool_decide (id (base i) = provider)) components with
  | None => Raise (plan_error (§"$.profile.roles." ++ role ++ §" references missing component " ++ provider))
  | Some item =>
      raise_if (negb (existsb (fun p => bool_decide (provide_kind p = §"role")
                                        && bool_decide (provide_name p = role)) (provides item)))
        (plan_error (provider ++ §" does not provide preferred role " ++ role))
  end.

Definition check_roles (p : profile) (components : list component_v2) : py unit :=
  mapR (fun role => mapR (check_provider role.1 components) role.2) (roles p);; Ok tt.

Definition read_grace (root : dict pystr pyval) : py Z :=
  integer (dget_or root §"stop_grace_ms" (VInt 2000)) §"$.stop_grace_ms" 100 60000.

Definition read_document_v2 (document : pyval) : py plan :=
  root ← closed_object document §"$" [§"schema"; §"stop_grace_ms"; §"profile"; §"components"]
    [§"schema"; §"profile"; §"components"];
  stop_grace ← read_grace root;
  prof ← read_profile (field root §"profile");
  components ← read_components base normalize_v2_component root;
  check_startup prof components;;
  check_roles prof components;;
  Ok (PlanV2 stop_grace prof components).

Definition read_document_v1 (document : pyval) : py plan :=
  root ← closed_object document §"$" [§"schema"; §"stop_grace_ms"; §"components"]
    [§"schema"; §"components"];
  raise_if (negb (eq_str (field root §"schema") SCHEMA))
    (plan_error (§"$.schema must equal '" ++ SCHEMA ++ §"'"));;
  stop_grace ← read_grace root;
  components ← read_components (fun c => c) normalize_component root;
  Ok (PlanV1 stop_grace components).

Definition read_document (document : pyval) : py plan :=
  match document with
  | VDict d => if eq_str (field d §"schema") SCHEMA_V2 then read_document_v2 document
               else read_document_v1 document
  | _ => read_document_v1 document
  end.

Definition compile_document (document : pyval) : py pystr :=
  p ← read_document document; render p.

(* ------------------------------------------------------------------ *)
(** ** A text stands for one plan *)

(** Neither separator of the format. *)
Definition plain (c : N) : bool := negb ((c =? tab)%N || (c =? newline)%N).
Definition clean (s : pystr) : Prop := Forall (fun c => plain c = true) s.

Create HintDb clean discriminated.
#[local] Hint Constants Opaque : clean.

Lemma clean_not_elem s : clean s -> tab ∉ s /\ newline ∉ s.
Proof.
  intros Hs. split; intros Hin; by pose proof (proj1 (Forall_forall _ _) Hs _ Hin).
Qed.

(** A literal is clean by evaluation. *)
Lemma clean_lit s : forallb plain s = true -> clean s.
Proof. intros Hs. apply Forall_forall. by apply forallb_elem. Qed.

Lemma clean_elem s l : s ∈ l -> forallb (forallb plain) l = true -> clean s.
Proof. intros Hs Hl. apply clean_lit. exact (proj1 (forallb_elem _ _) Hl s Hs). Qed.

Lemma alnum_plain c : alnum_ascii c = true -> plain c = true.
Proof.
  unfold alnum_ascii, alpha_ascii, upper_ascii, lower_ascii, digit_ascii, plain, tab, newline.
  rewrite !orb_true_iff, !andb_true_iff, !N.leb_le, negb_true_iff, orb_false_iff, !N.eqb_neq. lia.
Qed.

Lemma clean_dec_N n : clean (dec_N n).
Proof.
  eapply Forall_impl; [apply dec_N_digits|]. intros c Hc. apply alnum_plain.
  unfold alnum_ascii. simpl in Hc. rewrite Hc. apply orb_true_r.
Qed.

Lemma clean_dec_Z z : clean (dec_Z z).
Proof. destruct z; [apply clean_dec_N..|]. constructor; [done|apply clean_dec_N]. Qed.

Lemma clean_flag b : clean (flag b).
Proof. destruct b; by apply clean_lit. Qed.

Lemma clean_count {A} (l : list A) : clean (count l).
Proof. apply clean_dec_N. Qed.

Lemma clean_hex bs : Forall (fun b => b < 256)%N bs -> clean (hex bs).
Proof.
  intros Hbs. apply Forall_forall. intros c (b & Hc & Hb)%list_elem_of_bind.
  pose proof (proj1 (Forall_forall _ _) Hbs b Hb) as Hlt. cbv beta in Hlt.
  apply alnum_plain.
  apply elem_of_cons in Hc as [->|[->|Hc]%elem_of_cons]; [| |destruct (not_elem_of_nil _ Hc)].
  - apply hex_digit_ascii. apply N.Div0.div_lt_upper_bound. lia.
  - apply hex_digit_ascii. by apply N.mod_lt.
Qed.

Lemma id_char_plain c : id_char c = true -> plain c = true.
Proof.
  unfold id_char. rewrite orb_true_iff. intros [Hc|Hc]; [by apply alnum_plain|].
  unfold one_of in Hc. apply existsb_elem in Hc as (x & Hx & ->%N.eqb_eq).
  by apply (proj1 (forallb_elem plain §"_.:-")).
Qed.

Lemma is_id_clean s : is_id s = true -> clean s.
Proof.
  unfold is_id. rewrite fullmatch_spec. apply matches_forall. split.
  - intros c. apply alnum_plain.
  - apply rforall_upto. intros c. apply id_char_plain.
Qed.

Lemma py_encode_Ok s b : py_encode s = Ok b <-> utf8_encode s = Some b.
Proof. apply ok_or_Ok. Qed.

Lemma encoded_clean s e : encoded s = Ok e -> clean e.
Proof.
  unfold encoded. rewrite bind_Ok. intros (b & Hb%py_encode_Ok & [= <-]).
  apply clean_hex. by eapply utf8_bytes.
Qed.

Lemma encoded_inj s t e : encoded s = Ok e -> encoded t = Ok e -> s = t.
Proof.
  unfold encoded. rewrite !bind_Ok. intros (b & Hb%py_encode_Ok & [= <-]) (b' & Hb'%py_encode_Ok & [= Hh]).
  apply hex_inj in Hh as ->; [|by eapply utf8_bytes..]. by eapply utf8_encode_inj.
Qed.

Lemma flag_inj b1 b2 : flag b1 = flag b2 -> b1 = b2.
Proof. by destruct b1, b2. Qed.

Lemma count_inj {A} (l1 l2 : list A) : count l1 = count l2 -> length l1 = length l2.
Proof. intros Hl%(inj dec_N)%Nat2N.inj. done. Qed.

(** *** Lines *)

Definition clean_row (row : list pystr) : Prop := row <> [] /\ Forall clean row.

Lemma row_text_inj r1 r2 : clean_row r1 -> clean_row r2 -> row_text r1 = row_text r2 -> r1 = r2.
Proof.
  intros [N1 C1] [N2 C2] Heq. unfold row_text in Heq.
  rewrite <- (str_split_join tab r1), <- (str_split_join tab r2), Heq; [done|done| |done|];
    (eapply Forall_impl; [eassumption|]; intros s Hs; apply clean_not_elem; exact Hs).
Qed.

(** A line holds no newline. *)
Lemma row_text_line row : clean_row row -> newline ∉ row_text row.
Proof.
  intros [_ Hrow]. unfold row_text. induction Hrow as [|s row Hs Hrow IH]; [apply not_elem_of_nil|].
  pose proof (proj2 (clean_not_elem s Hs)) as Hn. destruct row as [|s' row]; [done|].
  cbn [str_join] in *. rewrite !elem_of_app. intros [Hin|[Hin|Hin]]; [done| |done].
  apply list_elem_of_singleton in Hin. discriminate Hin.
Qed.

Lemma rows_text_inj l1 l2 : l1 <> [] -> l2 <> [] -> Forall clean_row l1 -> Forall clean_row l2 ->
  rows_text l1 = rows_text l2 -> l1 = l2.
Proof.
  intros N1 N2 C1 C2 Heq. unfold rows_text in Heq. apply (inj (.++ [newline])) in Heq.
  assert (row_text <$> l1 = row_text <$> l2) as Hrows.
  { rewrite <- (str_split_join newline (row_text <$> l1)), <- (str_split_join newline (row_text <$> l2)), Heq;
      [done|by destruct l2| |by destruct l1|]; apply Forall_fmap; (eapply Forall_impl; [eassumption|]);
      intros r Hr; apply row_text_line, Hr. }
  clear Heq N1 N2. revert l2 C2 Hrows. induction C1 as [|r1 l1 Hr1 C1 IH]; intros l2 C2 Hrows; destruct C2 as [|r2 l2 Hr2 C2];
    try discriminate Hrows; [done|].
  injection Hrows as Hr Hrows. f_equal; [by apply row_text_inj|by apply IH].
Qed.

(** *** Blocks of lines: an encoding whose lines determine what they encode,
    whatever follows them *)

Definition determined {A} (enc : A -> py (list (list pystr))) : Prop :=
  forall x y rx ry r1 r2, enc x = Ok rx -> enc y = Ok ry -> rx ++ r1 = ry ++ r2 -> x = y /\ r1 = r2.

Definition injective {A B} (f : A -> py B) : Prop := forall x y r, f x = Ok r -> f y = Ok r -> x = y.

Lemma mapR_inj {A B} (f : A -> py B) : injective f -> injective (mapR f).
Proof.
  intros Hf l1 l2 r H1 H2. rewrite mapR_Ok in H1, H2. revert l2 H2.
  induction H1 as [|x1 e l1 r Hx H1 IH]; intros l2 H2; inversion H2; subst; [done|]. f_equal; eauto.
Qed.

(** Lines whose number is known. *)
Lemma rows_determined {A} (enc : A -> py (list pystr)) l1 l2 rs1 rs2 r1 r2 :
  injective enc -> mapR enc l1 = Ok rs1 -> mapR enc l2 = Ok rs2 -> length l1 = length l2 ->
  rs1 ++ r1 = rs2 ++ r2 -> l1 = l2 /\ r1 = r2.
Proof.
  intros Henc H1 H2 Hlen Heq.
  assert (length rs1 = length rs2) as Hrs.
  { apply mapR_Ok, Forall2_length in H1. apply mapR_Ok, Forall2_length in H2. congruence. }
  apply app_inj_1 in Heq as [-> ->]; [|done]. split; [|done]. by eapply (mapR_inj enc).
Qed.

(** Blocks whose number is known. *)
Lemma blocks_determined {A} (enc : A -> py (list (list pystr))) l1 l2 rs1 rs2 r1 r2 :
  determined enc -> mapR enc l1 = Ok rs1 -> mapR enc l2 = Ok rs2 -> length l1 = length l2 ->
  concat rs1 ++ r1 = concat rs2 ++ r2 -> l1 = l2 /\ r1 = r2.
Proof.
  intros Henc H1%mapR_Ok H2%mapR_Ok. revert l2 rs2 H2.
  induction H1 as [|x1 e1 l1 rs1 Hx1 H1 IH]; intros l2 rs2 H2 Hlen;
    inversion H2 as [|x2 e2 l2' rs2' Hx2 H2']; subst; try discriminate Hlen; [done|].
  cbn [concat]. rewrite <- !app_assoc. intros Heq.
  destruct (Henc _ _ _ _ _ _ Hx1 Hx2 Heq) as [-> Hrest].
  destruct (IH _ _ H2' ltac:(by injection Hlen) Hrest) as [-> ->]. done.
Qed.

(** The blocks at the end of a text: their number need not be known. *)
Lemma last_blocks_determined {A} (enc : A -> py (list (list pystr))) l1 l2 rs1 rs2 :
  determined enc -> (forall x, enc x <> Ok []) ->
  mapR enc l1 = Ok rs1 -> mapR enc l2 = Ok rs2 -> concat rs1 = concat rs2 -> l1 = l2.
Proof.
  intros Henc Hne H1%mapR_Ok H2%mapR_Ok. revert l2 rs2 H2.
  induction H1 as [|x1 e1 l1 rs1 Hx1 H1 IH]; intros l2 rs2 H2;
    inversion H2 as [|x2 e2 l2' rs2' Hx2 H2']; subst; cbn [concat]; intros Heq; [done| | |].
  - destruct e2; [by apply Hne in Hx2|discriminate Heq].
  - destruct e1; [by apply Hne in Hx1|discriminate Heq].
  - destruct (Henc _ _ _ _ _ _ Hx1 Hx2 Heq) as [-> Hrest].
    f_equal. by eapply IH.
Qed.

Lemma cons_inv {A} (x y : A) l k : x :: l = y :: k -> x = y /\ l = k.
Proof. by intros [= -> ->]. Qed.

Lemma encoded_row_inj name v1 v2 r : encoded_row name v1 = Ok r -> encoded_row name v2 = Ok r -> v1 = v2.
Proof.
  unfold encoded_row. rewrite !bind_Ok. intros (e1 & H1 & [= <-]) (e2 & H2 & [= ->]).
  exact (mapR_inj encoded encoded_inj _ _ _ H1 H2).
Qed.

Lemma encoded_row_clean name vs r : clean name -> encoded_row name vs = Ok r -> clean_row r.
Proof.
  unfold encoded_row. rewrite bind_Ok. intros Hn (es & Hes & [= <-]). split; [done|].
  constructor; [done|]. eapply (mapR_Forall _ _ _ _ encoded_clean). exact Hes.
Qed.

Lemma arg_inj name : injective (fun value => encoded_row name [value]).
Proof. intros x y r H1 H2. by injection (encoded_row_inj _ _ _ _ H1 H2). Qed.

Lemma pair_inj name :
  injective (fun kv : pystr * pystr => encoded_row name [kv.1; kv.2]).
Proof.
  intros [k v] [k' v'] r H1 H2. injection (encoded_row_inj _ _ _ _ H1 H2) as Hk Hv.
  cbn in Hk, Hv. congruence.
Qed.

Lemma names_determined name (l1 l2 : list pystr) r1 r2 : length l1 = length l2 ->
  ((fun value => [name; value]) <$> l1) ++ r1 = ((fun value => [name; value]) <$> l2) ++ r2 ->
  l1 = l2 /\ r1 = r2.
Proof.
  intros Hlen Heq. apply app_inj_1 in Heq as [Heq ->]; [|by rewrite !length_fmap]. split; [|done].
  revert Heq. apply (inj (fmap (fun value => [name; value]))).
Qed.

(** What a normalized component guarantees for the text. *)
Definition MODES : list pystr := [§"exec"; §"fd"; §"mipc-ready"; §"x11-display"].

Definition component_ok (c : component) : Prop :=
  clean (id c) /\ kind c ∈ KINDS /\ restart c ∈ RESTARTS /\ readiness_mode c ∈ MODES /\
  Forall clean (after c).

Lemma component_fields_inj c1 c2 : component_fields c1 = component_fields c2 ->
  id c1 = id c2 /\ kind c1 = kind c2 /\ critical c1 = critical c2 /\ restart c1 = restart c2 /\
  readiness_mode c1 = readiness_mode c2 /\ readiness_timeout_ms c1 = readiness_timeout_ms c2 /\
  initial_ms c1 = initial_ms c2 /\ max_ms c1 = max_ms c2 /\ limit c1 = limit c2 /\
  length (argv c1) = length (argv c2) /\ length (after c1) = length (after c2) /\
  length (environment c1) = length (environment c2).
Proof.
  unfold component_fields. intros [= Hid Hk Hc Hr Hm Ht Hi Hx Hl Ha Hf He].
  apply flag_inj in Hc. apply (inj dec_Z) in Ht, Hi, Hx, Hl. apply count_inj in Ha, Hf, He. done.
Qed.

Lemma component_fields_clean c : component_ok c -> clean_row (component_fields c).
Proof.
  intros (Hid & Hk & Hr & Hm & _). split; [done|]. unfold component_fields.
  repeat (constructor; [first [done | apply clean_flag | apply clean_dec_Z | apply clean_count
    | by eapply clean_elem | by apply clean_lit]|]). constructor.
Qed.

Lemma body_determined c1 c2 b1 b2 r1 r2 :
  component_fields c1 = component_fields c2 -> body_rows c1 = Ok b1 -> body_rows c2 = Ok b2 ->
  b1 ++ r1 = b2 ++ r2 -> c1 = c2 /\ r1 = r2.
Proof.
  intros (Hid & Hk & Hc & Hr & Hm & Ht & Hi & Hx & Hl & La & Lf & Le)%component_fields_inj H1 H2 Heq.
  unfold body_rows in H1, H2. inv_result. rewrite <- !app_assoc in Heq.
  eapply rows_determined in Heq as [Ha Heq]; [|apply arg_inj|done..].
  apply names_determined in Heq as [Hf Heq]; [|done].
  eapply rows_determined in Heq as [He Heq]; [|apply pair_inj|done..].
  split; [|done]. destruct c1, c2; simpl in *. congruence.
Qed.

Lemma names_clean name l : clean name -> Forall clean l ->
  Forall clean_row ((fun value => [name; value]) <$> l).
Proof.
  intros Hn Hl. apply Forall_fmap. eapply Forall_impl; [exact Hl|]. intros s Hs. split; [done|]. by repeat constructor.
Qed.

Lemma body_clean c b : component_ok c -> body_rows c = Ok b -> Forall clean_row b.
Proof.
  intros (_ & _ & _ & _ & Hafter) Hb. unfold body_rows in Hb. inv_result. repeat apply Forall_app_2.
  - eapply mapR_Forall; [|eassumption]. intros v r. apply encoded_row_clean. by apply clean_lit.
  - apply names_clean; [by apply clean_lit|done].
  - eapply mapR_Forall; [|eassumption]. intros v r. apply encoded_row_clean. by apply clean_lit.
Qed.

Lemma component_rows_determined : determined component_rows.
Proof.
  intros c1 c2 x1 x2 r1 r2 H1 H2 Heq. unfold component_rows in H1, H2. inv_result.
  rewrite <- !app_comm_cons in Heq. apply cons_inv in Heq as [Hf Heq]. rewrite <- !app_assoc in Heq.
  eapply body_determined in Heq as [-> Heq]; [|done..]. split; [done|]. by injection Heq.
Qed.

Lemma end_clean : Forall clean_row [[§"end"]].
Proof. constructor; [|constructor]. split; [done|]. constructor; [by apply clean_lit|constructor]. Qed.

Lemma component_rows_clean c rs : component_ok c -> component_rows c = Ok rs -> Forall clean_row rs.
Proof.
  intros Hc H1. unfold component_rows in H1. inv_result. constructor; [by apply component_fields_clean|].
  apply Forall_app_2; [by eapply body_clean|apply end_clean].
Qed.

(** *** The second format *)

Lemma provide_row_inj : injective provide_row.
Proof.
  intros [k1 n1 b1 p1] [k2 n2 b2 p2] r. unfold provide_row. rewrite !bind_Ok.
  intros (e1 & H1 & [= <-]) (e2 & H2 & [= -> -> Hb%flag_inj Hp%(inj dec_Z)]). cbn in *.
  subst. f_equal. by eapply encoded_inj.
Qed.

Lemma provide_row_clean p r : provide_kind p ∈ PROVIDE_KINDS -> provide_row p = Ok r -> clean_row r.
Proof.
  intros Hk H1. unfold provide_row in H1. inv_result. split; [done|].
  constructor; [by apply clean_lit|]. constructor; [by eapply clean_elem|].
  constructor; [by eapply encoded_clean|]. constructor; [apply clean_flag|].
  constructor; [apply clean_dec_Z|constructor].
Qed.

Definition component_v2_ok (c : component_v2) : Prop :=
  component_ok (base c) /\ lifecycle c ∈ LIFECYCLES /\
  Forall (fun p => provide_kind p ∈ PROVIDE_KINDS) (provides c).

Lemma component_fields_v2_inj c1 c2 : component_fields_v2 c1 = component_fields_v2 c2 ->
  component_fields (base c1) = component_fields (base c2) /\
  lifecycle c1 = lifecycle c2 /\ idle_timeout_ms c1 = idle_timeout_ms c2 /\
  length (provides c1) = length (provides c2) /\ length (permissions c1) = length (permissions c2) /\
  launchable c1 = launchable c2.
Proof.
  unfold component_fields_v2. intros Heq. apply app_inj_1 in Heq as [Hb Heq]; [|done]. split; [done|].
  injection Heq as Hl Hi Hp Hq Hf. apply (inj dec_Z) in Hi. apply count_inj in Hp, Hq. by apply flag_inj in Hf.
Qed.

(** Names in an [encoded_row] equality are shared, so the values are equal. *)
Lemma last_rows_inj name v1 v2 x1 x2 r1 r2 :
  encoded_row name v1 = Ok x1 -> encoded_row name v2 = Ok x2 -> x1 :: r1 = x2 :: r2 -> v1 = v2 /\ r1 = r2.
Proof. intros H1 H2 [<- ->]%cons_inv. split; [by eapply encoded_row_inj|done]. Qed.

Lemma component_rows_v2_determined : determined component_rows_v2.
Proof.
  intros c1 c2 x1 x2 r1 r2 H1 H2 Heq. unfold component_rows_v2 in H1, H2. inv_result.
  rewrite <- !app_comm_cons in Heq. apply cons_inv in Heq as [Hf Heq].
  apply component_fields_v2_inj in Hf as (Hb & Hl & Hi & Lp & Lq & Hlaunch). rewrite <- !app_assoc in Heq.
  eapply body_determined in Heq as [Hbase Heq]; [|done..].
  eapply rows_determined in Heq as [Hp Heq]; [|apply provide_row_inj|done..].
  eapply rows_determined in Heq as [Hq Heq]; [|apply arg_inj|done..].
  rewrite <- !app_comm_cons in Heq.
  eapply last_rows_inj in Heq as [Hpkg Heq]; [|done..].
  eapply last_rows_inj in Heq as [Hmeta Heq]; [|done..].
  eapply last_rows_inj in Heq as [Hwin Heq]; [|done..].
  apply cons_inv in Heq as [_ Heq]. split; [|done].
  destruct c1, c2; simpl in *. simplify_eq. done.
Qed.

Lemma mapR_Forall_in {A B} (P : A -> Prop) (Q : B -> Prop) (f : A -> py B) l ys :
  Forall P l -> (forall x y, P x -> f x = Ok y -> Q y) -> mapR f l = Ok ys -> Forall Q ys.
Proof.
  rewrite mapR_Ok. intros Hl Hf H1. induction H1; [constructor|].
  apply Forall_cons in Hl as [Hx Hl]. constructor; eauto.
Qed.

Lemma component_fields_v2_clean c : component_v2_ok c -> clean_row (component_fields_v2 c).
Proof.
  intros (Hc & Hl & _). split; [done|]. apply Forall_app_2; [by apply component_fields_clean|].
  constructor; [by eapply clean_elem|]. constructor; [apply clean_dec_Z|].
  constructor; [apply clean_count|]. constructor; [apply clean_count|].
  constructor; [apply clean_flag|constructor].
Qed.

(** Lines whose values are all encoded. *)
Lemma encoded_rows_clean {A} name (values : A -> list pystr) l rs : clean name ->
  mapR (fun x => encoded_row name (values x)) l = Ok rs -> Forall clean_row rs.
Proof. intros Hn. apply mapR_Forall. intros x r. by apply encoded_row_clean. Qed.

Lemma component_rows_v2_clean c rs :
  component_v2_ok c -> component_rows_v2 c = Ok rs -> Forall clean_row rs.
Proof.
  intros Hok. pose proof Hok as (Hc & _ & Hp). unfold component_rows_v2. rewrite bind_Ok.
  intros (body & Hbody & H1). apply bind_Ok in H1 as (ps & Hps & H1). apply bind_Ok in H1 as (qs & Hqs & H1).
  inv_result. constructor; [by apply component_fields_v2_clean|].
  apply Forall_app_2; [by eapply body_clean|].
  apply Forall_app_2; [eapply mapR_Forall_in; [exact Hp|exact provide_row_clean|exact Hps]|].
  apply Forall_app_2; [eapply (encoded_rows_clean §"permission" (fun v => [v])); [by apply clean_lit|exact Hqs]|].
  repeat (constructor; [eapply encoded_row_clean; [|eassumption]; by apply clean_lit|]). apply end_clean.
Qed.

(** *** The profile *)

Lemma role_rows_determined : determined role_rows.
Proof.
  intros [k1 l1] [k2 l2] x1 x2 r1 r2. unfold role_rows. rewrite !bind_Ok.
  intros (e1 & H1 & [= <-]) (e2 & H2 & [= <-]) Heq. rewrite <- !app_comm_cons in Heq.
  apply cons_inv in Heq as [Hf Heq]. injection Hf as -> Hc%count_inj.
  apply names_determined in Heq as [Hl ->]; [|done]. cbn in *. split; [|done].
  f_equal; [by eapply encoded_inj|done].
Qed.

Lemma profile_rows_determined : determined profile_rows.
Proof.
  intros p1 p2 x1 x2 r1 r2 H1 H2 Heq. unfold profile_rows in H1, H2. inv_result.
  rewrite <- !app_comm_cons in Heq. apply cons_inv in Heq as [Hf Heq].
  injection Hf as Hid Hdisp Lr%count_inj Le%count_inj Ls%count_inj. rewrite <- !app_assoc in Heq.
  eapply blocks_determined in Heq as [Hr Heq]; [|apply role_rows_determined|done..].
  eapply rows_determined in Heq as [He Heq]; [|apply pair_inj|done..].
  apply names_determined in Heq as [Hs Heq]; [|done]. split; [|done]. subst.
  destruct p1, p2; simpl in *. f_equal; try done; by eapply encoded_inj.
Qed.

Definition profile_ok (p : profile) : Prop :=
  Forall (fun r => Forall clean r.2) (roles p) /\ Forall clean (startup p).

Lemma role_rows_clean role rs : Forall clean role.2 -> role_rows role = Ok rs -> Forall clean_row rs.
Proof.
  intros Hl. unfold role_rows. rewrite bind_Ok. intros (e & He & [= <-]). constructor.
  - split; [done|]. constructor; [by apply clean_lit|]. constructor; [by eapply encoded_clean|].
    constructor; [apply clean_count|constructor].
  - apply names_clean; [by apply clean_lit|done].
Qed.

Lemma profile_rows_clean p rs : profile_ok p -> profile_rows p = Ok rs -> Forall clean_row rs.
Proof.
  intros [Hroles Hstart]. unfold profile_rows. rewrite bind_Ok. intros (pid & Hpid & H1).
  apply bind_Ok in H1 as (disp & Hdisp & H1). apply bind_Ok in H1 as (rr & Hrr & H1).
  apply bind_Ok in H1 as (env & Henv & [= <-]). constructor.
  { split; [done|]. constructor; [by apply clean_lit|]. constructor; [by eapply encoded_clean|].
    constructor; [by eapply encoded_clean|]. repeat (constructor; [apply clean_count|]). constructor. }
  apply Forall_app_2; [|apply Forall_app_2].
  - apply Forall_concat. eapply mapR_Forall_in; [exact Hroles|exact role_rows_clean|exact Hrr].
  - eapply (encoded_rows_clean §"profile-env" (fun kv : pystr * pystr => [kv.1; kv.2])); [by apply clean_lit|exact Henv].
  - apply names_clean; [by apply clean_lit|done].
Qed.

(** *** Plans *)

Definition plan_ok (p : plan) : Prop :=
  match p with
  | PlanV1 _ components => Forall component_ok components
  | PlanV2 _ prof components => profile_ok prof /\ Forall component_v2_ok components
  end.

Lemma header_clean grace : clean_row HEADER /\ clean_row HEADER_V2 /\ clean_row (grace_row grace).
Proof.
  assert (forall name s, clean name -> clean s -> clean_row [name; s]) as Hrow.
  { intros name s Hn Hs. split; [done|]. by repeat constructor. }
  split; [|split]; apply Hrow; try by apply clean_lit. apply clean_dec_Z.
Qed.

Lemma plan_rows_clean p rs : plan_ok p -> plan_rows p = Ok rs -> rs <> [] /\ Forall clean_row rs.
Proof.
  destruct p as [grace cs|grace prof cs]; cbn [plan_ok plan_rows];
    destruct (header_clean grace) as (Ha & Hb & Hg); rewrite bind_Ok.
  - intros Hcs (cr & Hcr & [= <-]). split; [done|]. do 2 (constructor; [done|]).
    apply Forall_concat. eapply mapR_Forall_in; [exact Hcs|exact component_rows_clean|exact Hcr].
  - intros [Hp Hcs] (ps & Hps & H1). apply bind_Ok in H1 as (cr & Hcr & [= <-]). split; [done|].
    do 2 (constructor; [done|]). apply Forall_app_2; [by eapply profile_rows_clean|].
    apply Forall_concat. eapply mapR_Forall_in; [exact Hcs|exact component_rows_v2_clean|exact Hcr].
Qed.

Lemma component_rows_ne c : component_rows c <> Ok [].
Proof. unfold component_rows. by destruct (body_rows c). Qed.

Lemma component_rows_v2_ne c : component_rows_v2 c <> Ok [].
Proof. unfold component_rows_v2. intros H1. by inv_result. Qed.

Lemma plan_rows_inj : injective plan_rows.
Proof.
  assert (forall g1 g2 l1 l2, grace_row g1 :: l1 = grace_row g2 :: l2 -> g1 = g2 /\ l1 = l2) as Hgrace.
  { intros g1 g2 l1 l2 [[= Hg%(inj dec_Z)] ->]%cons_inv. done. }
  intros [g1 c1|g1 f1 c1] [g2 c2|g2 f2 c2] r; cbn [plan_rows]; rewrite !bind_Ok;
    intros (x1 & H1 & E1) (x2 & H2 & E2);
    try (apply bind_Ok in E1 as (y1 & H1' & E1)); try (apply bind_Ok in E2 as (y2 & H2' & E2));
    assert (forall a b : list (list pystr), Ok (E := exn) a = Ok b -> a = b) as Hok by (by intros ? ? [= ->]);
    rewrite <- E2 in E1; apply Hok, cons_inv in E1 as [Hh E1]; try discriminate Hh;
    apply Hgrace in E1 as [-> E1].
  - f_equal. eapply last_blocks_determined; [apply component_rows_determined|apply component_rows_ne|done..].
  - eapply profile_rows_determined in E1 as [-> E1]; [|done..]. f_equal.
    eapply last_blocks_determined; [apply component_rows_v2_determined|apply component_rows_v2_ne|done..].
Qed.

Lemma render_inj p1 p2 text : plan_ok p1 -> plan_ok p2 ->
  render p1 = Ok text -> render p2 = Ok text -> p1 = p2.
Proof.
  intros O1 O2 H1 H2. unfold render in H1, H2. inv_result.
  edestruct (plan_rows_clean p1) as [N1 C1]; [done..|]. edestruct (plan_rows_clean p2) as [N2 C2]; [done..|].
  eapply (plan_rows_inj); [eassumption|]. match goal with H : rows_text _ = rows_text _ |- _ =>
    apply rows_text_inj in H as ->; done end.
Qed.

(** *** What normalization guarantees *)

Lemma read_id_Ok v path s : read_id v path = Ok s -> clean s.
Proof. unfold read_id. intros H1. inv_result. bool_simp. by apply is_id_clean. Qed.

Lemma enum_string_Ok v path allowed s : enum_string v path allowed = Ok s -> s ∈ allowed.
Proof.
  unfold enum_string. destruct (as_str v); [|done]. case_bool_decide; [|done]. by intros [= <-].
Qed.

Lemma imapR_Forall {A B} (P : B -> Prop) (f : nat -> A -> py B) l ys :
  (forall i x y, f i x = Ok y -> P y) -> imapR f l = Ok ys -> Forall P ys.
Proof.
  unfold imapR. generalize 0%nat. revert ys. induction l as [|x l IH]; intros ys i HP H1; cbn in H1.
  - inv_result. constructor.
  - apply bind_Ok in H1 as (y & Hy & H1). apply bind_Ok in H1 as (ys' & Hys & [= <-]).
    constructor; [by eapply HP|exact (IH _ _ HP Hys)].
Qed.

Lemma read_after_Ok item path l : read_after item path = Ok l -> Forall clean l /\ NoDup l.
Proof.
  unfold read_after. intros H1. apply bind_Ok in H1 as (raw & Hraw & H1).
  apply bind_Ok in H1 as (after & Hafter & H1). inv_result. bool_simp. split; [|done].
  eapply imapR_Forall; [|exact Hafter]. intros i v s. apply read_id_Ok.
Qed.

Lemma read_ids_Ok raw path m l : read_ids raw path m = Ok l -> Forall clean l /\ NoDup l.
Proof.
  unfold read_ids. intros H1. apply bind_Ok in H1 as (ids & Hids & H1).
  apply bind_Ok in H1 as (? & [Hall Hnd]%raise_if_Ok%orb_false_iff & [= <-]). bool_simp. split; [|done]. apply Forall_forall. intros s Hs.
  apply is_id_clean. exact (proj1 (forallb_elem _ _) Hall s Hs).
Qed.

Lemma sorted_clean l : Forall clean l -> Forall clean (sorted_strs l).
Proof. intros Hl. apply Forall_forall. intros s Hs. rewrite sorted_strs_elem in Hs. exact (proj1 (Forall_forall _ _) Hl s Hs). Qed.

Lemma sorted_NoDup l : NoDup l -> NoDup (sorted_strs l).
Proof. unfold sorted_strs. by rewrite py_sorted_perm. Qed.

Lemma read_readiness_Ok item path modes r : read_readiness item path modes = Ok r -> r.1 ∈ modes.
Proof.
  unfold read_readiness. intros H1. apply bind_Ok in H1 as (d & _ & H1).
  apply bind_Ok in H1 as (mode & Hm & H1). apply bind_Ok in H1 as (t & _ & [= <-]). by eapply enum_string_Ok.
Qed.

Lemma normalize_component_Ok index raw c : normalize_component index raw = Ok c ->
  component_ok c /\ NoDup (after c).
Proof.
  unfold normalize_component. set (path := component_path index). clearbody path.
  intros (item & _ & H1)%bind_Ok. apply bind_Ok in H1 as (cid & Hid%read_id_Ok & H1).
  apply bind_Ok in H1 as (k & Hk%enum_string_Ok & H1). apply bind_Ok in H1 as (crit & _ & H1).
  apply bind_Ok in H1 as (r & Hr%enum_string_Ok & H1).
  apply bind_Ok in H1 as (rd & Hrd%read_readiness_Ok & H1). apply bind_Ok in H1 as (bo & _ & H1).
  apply bind_Ok in H1 as (av & _ & H1). apply bind_Ok in H1 as (af & [Haf Hnd]%read_after_Ok & H1).
  apply bind_Ok in H1 as (env & _ & [= <-]). split; [|by apply sorted_NoDup].
  split; [done|]. split; [done|]. split; [done|]. split; [|by apply sorted_clean].
  cbn [readiness_mode]. revert Hrd. unfold MODES. rewrite !elem_of_cons. tauto.
Qed.

Lemma read_provide_kind path keys raw p : read_provide path keys raw = Ok p ->
  provide_kind p ∈ PROVIDE_KINDS.
Proof.
  unfold read_provide. intros (d & _ & H1)%bind_Ok. destruct (List.filter (dhas d) PROVIDE_KINDS) as [|k [|]] eqn:Hk;
    [done| |done].
  apply bind_Ok in H1 as (n & _ & H1). inv_result. cbn [provide_kind].
  assert (k ∈ List.filter (dhas d) PROVIDE_KINDS) as Hin by (rewrite Hk; by left).
  apply list_elem_of_In, filter_In in Hin as [Hin _]. by apply list_elem_of_In.
Qed.

Lemma read_provides_kinds path i found raw ps :
  Forall (fun p => provide_kind p ∈ PROVIDE_KINDS) found ->
  read_provides path i found raw = Ok ps -> Forall (fun p => provide_kind p ∈ PROVIDE_KINDS) ps.
Proof.
  revert i found. induction raw as [|r raw IH]; intros i found Hf; cbn [read_provides]; [by intros [= <-]|].
  intros (p & Hp%read_provide_kind & H1)%bind_Ok. eapply IH; [|exact H1].
  apply Forall_app_2; [done|]. by apply Forall_singleton.
Qed.

Lemma normalize_v2_component_Ok index raw c : normalize_v2_component index raw = Ok c ->
  component_v2_ok c /\ NoDup (after (base c)).
Proof.
  unfold normalize_v2_component. set (path := component_path index). clearbody path.
  intros (item & _ & H1)%bind_Ok. apply bind_Ok in H1 as (cid & Hid%read_id_Ok & H1).
  apply bind_Ok in H1 as (k & Hk%enum_string_Ok & H1). apply bind_Ok in H1 as (crit & _ & H1).
  apply bind_Ok in H1 as (lc & Hlc%enum_string_Ok & H1). apply bind_Ok in H1 as (idle & _ & H1).
  apply bind_Ok in H1 as (r & Hr%enum_string_Ok & H1).
  apply bind_Ok in H1 as (rd & Hrd%read_readiness_Ok & H1). apply bind_Ok in H1 as (bo & _ & H1).
  apply bind_Ok in H1 as (av & _ & H1). apply bind_Ok in H1 as (ar & _ & H1).
  apply bind_Ok in H1 as (af & [Haf Hnd]%read_ids_Ok & H1).
  apply bind_Ok in H1 as (env & _ & H1). apply bind_Ok in H1 as (pr & _ & H1).
  apply bind_Ok in H1 as (ps & Hps & H1). apply read_provides_kinds in Hps; [|constructor].
  do 11 (apply bind_Ok in H1 as (? & _ & H1)). injection H1 as <-.
  split; [|by apply sorted_NoDup].
  split; [|done]. split; [done|]. split; [done|]. split; [done|]. split; [done|by apply sorted_clean].
Qed.

Lemma read_components_Ok {A} (base : A -> component) normalize root l (P : A -> Prop) :
  (forall i raw c, normalize i raw = Ok c -> P c /\ NoDup (after (base c))) ->
  read_components base normalize root = Ok l -> Forall P l.
Proof.
  intros Hn. unfold read_components. intros (raw & _ & H1)%bind_Ok.
  apply bind_Ok in H1 as (cs & Hcs & H1).
  assert (Forall (fun c => P c /\ NoDup (after (base c))) cs) as Hall by (eapply imapR_Forall; [exact Hn|exact Hcs]).
  pose proof (proj1 (Forall_forall _ _) Hall) as Hin. cbv beta in Hin.
  apply (topological_Ok base) in H1 as (_ & Hperm & _); [|intros c Hc; by apply Hin].
  apply Forall_forall. intros c Hc. rewrite Hperm in Hc. by apply Hin.
Qed.

Lemma read_profile_Ok v p : read_profile v = Ok p -> profile_ok p.
Proof.
  unfold read_profile. intros (d & _ & H1)%bind_Ok. apply bind_Ok in H1 as (pid & _ & H1).
  apply bind_Ok in H1 as (disp & _ & H1). apply bind_Ok in H1 as (rr & _ & H1). apply bind_Ok in H1 as (u & _ & H1).
  apply bind_Ok in H1 as (rs & Hrs & H1). apply bind_Ok in H1 as (sr & _ & H1).
  apply bind_Ok in H1 as (st & [Hst _]%read_ids_Ok & H1). apply bind_Ok in H1 as (env & _ & [= <-]).
  split; [|done]. eapply mapR_Forall; [|exact Hrs]. intros k [role l] H1. unfold read_role in H1.
  apply bind_Ok in H1 as (u' & _ & H1). apply bind_Ok in H1 as (raw & _ & H1).
  apply bind_Ok in H1 as (ps & [Hps _]%read_ids_Ok & [= <- <-]). done.
Qed.

Lemma read_document_Ok document p : read_document document = Ok p -> plan_ok p.
Proof.
  assert (forall root, read_document_v1 root = Ok p -> plan_ok p) as H1.
  { intros d. unfold read_document_v1. intros (root & _ & H1)%bind_Ok. apply bind_Ok in H1 as (? & _ & H1).
    apply bind_Ok in H1 as (g & _ & H1). apply bind_Ok in H1 as (cs & Hcs & [= <-]).
    eapply read_components_Ok; [|exact Hcs]. apply normalize_component_Ok. }
  unfold read_document. destruct document; try apply H1. destruct (eq_str _ _); [|apply H1].
  unfold read_document_v2. intros (root & _ & H2)%bind_Ok. apply bind_Ok in H2 as (g & _ & H2).
  apply bind_Ok in H2 as (prof & Hp%read_profile_Ok & H2). apply bind_Ok in H2 as (cs & Hcs & H2).
  apply bind_Ok in H2 as (? & _ & H2). apply bind_Ok in H2 as (? & _ & [= <-]).
  split; [done|]. eapply read_components_Ok; [|exact Hcs]. apply normalize_v2_component_Ok.
Qed.

(** C34: the text of a plan stands for one plan.  Two documents that compile to
    the same text have the same normalized content, in either format: every
    name, argument, environment value, role and window property, and the order
    of the components, can be read back from the text.  In particular no value,
    whatever characters it has, can forge a field or a line.  A compiled text
    is at most one MiB of UTF-8. *)
Theorem compiled_text_determines_plan d1 d2 text :
  compile_document d1 = Ok text -> compile_document d2 = Ok text ->
  read_document d1 = read_document d2 /\
  exists bytes, utf8_encode text = Some bytes /\ (Z.of_nat (length bytes) <= MAX_BYTES)%Z.
Proof.
  unfold compile_document. intros (p1 & R1 & H1)%bind_Ok (p2 & R2 & H2)%bind_Ok. split.
  - rewrite R1, R2. f_equal.
    eapply render_inj; [by eapply read_document_Ok|by eapply read_document_Ok|exact H1|exact H2].
  - unfold render in H1. apply bind_Ok in H1 as (rows & _ & H1).
    apply bind_Ok in H1 as (bytes & Hb%py_encode_Ok & H1). inv_result. exists bytes. split; [done|].
    by apply Z.ltb_ge.
Qed.
End Render.

(* ------------------------------------------------------------------ *)
(** ** Witness *)

Definition sample_item (cid : pystr) (after : list pystr) (env : pystr) : pyval := VDict
  [(§"id", VStr cid); (§"kind", VStr §"other"); (§"critical", VBool true); (§"restart", VStr §"never");
   (§"readiness", VDict [(§"mode", VStr §"exec"); (§"timeout_ms", VInt 1000)]);
   (§"exec", VList [VStr §"/bin/x"; VStr (§"a" ++ [tab] ++ §"b" ++ [newline] ++ §"end")]);
   (§"after", VList (VStr <$> after)); (§"env", VDict [(§"LANG", VStr env)])].

Definition sample_document (components : list pyval) (rest : dict pystr pyval) : pyval :=
  VDict ([(§"schema", VStr SCHEMA); (§"components", VList components)] ++ rest).

Definition sample_one : pyval :=
  sample_document [sample_item §"c" [§"b"; §"a"] §"x"; sample_item §"b" [] []; sample_item §"a" [§"b"] []] [].
Definition sample_two : pyval :=
  sample_document [sample_item §"a" [§"b"] []; sample_item §"b" [] []; sample_item §"c" [§"a"; §"b"] §"x"]
    [(§"stop_grace_ms", VInt 2000)].

Lemma compiled_text_determines_plan_witness :
  is_ok (compile_document sample_one) = true /\ read_document sample_one = read_document sample_two.
Proof.
  destruct (compile_document sample_one) as [text|e] eqn:H1.
  - split; [reflexivity|]. apply (compiled_text_determines_plan _ _ text); [exact H1|].
    rewrite <- H1. vm_compute. reflexivity.
  - vm_compute in H1. discriminate H1.
Defined.
End PlanText.
