(* ===== verification/Assemble.v ===== *)
(** * Assembling the native plan source ([native/scripts/assemble_runtime_source.py])

    The build-host script that turns a profile and installed package manifests
    into the document the native plan compiler reads.  The files it reads are
    the [SourceFiles] interface. *)

From Stdlib Require Import ZArith Floats.SpecFloat.
From S2P Require Export PlanText PyPath Protocol.

Module Assemble.

Definition SCHEMA : pystr := §"msys.native-runtime.source.v2".
Definition MAX_BYTES : N := 1024 * 1024.

Definition assembly_error (m : pystr) : exn := Exn AssemblyError m.

(** [Path.read_bytes] and [Path.resolve]. *)
Class SourceFiles := {
  read_bytes : ppath -> py (list N);
  resolve : ppath -> ppath;
}.

Record metadata := {
  package_id : pystr;
  package_name : pystr;
  package_version : pystr;
  package_kind : pystr;
}.

(** One provide of a component. *)
Record provide := {
  provide_kind : pystr;
  provide_name : pystr;
  exclusive : bool;
  priority : Z;
}.

(** The [windowing] object, in the order the script writes it. *)
Record window := {
  system : pystr;
  display : pystr;
  mode : pystr;
  title : pystr;
  app_id : pystr;
  wm_class : pystr;
  wm_instance : pystr;
}.

Record component := {
  id : pystr;
  kind : pystr;
  critical : bool;
  lifecycle : pystr;
  idle_timeout_ms : Z;
  restart : pystr;
  readiness_mode : pystr;
  readiness_timeout_ms : Z;
  exec : list pystr;
  after : list pystr;
  env : dict pystr pystr;
  provides : list provide;
  permissions : list pystr;
  package : metadata;
  name : pystr;
  summary : pystr;
  icon : pystr;
  launchable : bool;
  windowing : window;
}.

Record document := {
  profile_id : pystr;
  profile_display : pystr;
  roles : dict pystr (list pystr);
  startup : list pystr;
  profile_env : dict pystr pystr;
  components : list component;
}.

Section Assemble.
Context `{PyLib} `{PyRepr} `{Json.JsonLib} `{SourceFiles}.

(* ------------------------------------------------------------------ *)
(** ** Reading JSON *)

(** The hook that rejects duplicate keys. *)
Definition no_duplicates (pairs : list (pystr * pyval)) : py pyval :=
  d ← foldR (fun result kv =>
        raise_if (dhas result kv.1) (assembly_error (§"duplicate JSON key: " ++ kv.1));;
        Ok (dset result kv.1 kv.2)) [] pairs;
  Ok (VDict d).

(** [json.loads(raw.decode("utf-8"), object_pairs_hook=no_duplicates)] *)
Definition parse_json (raw : list N) : py pyval :=
  t ← ok_or (utf8_decode raw) (Exn UnicodeDecodeError []); Json.loads_with no_duplicates t.

Definition load_json (path : ppath) : py (dict pystr pyval) :=
  raw ← read_bytes path;
  raise_if (negb ((1 <=? Protocol.size raw) && (Protocol.size raw <=? MAX_BYTES)))
    (assembly_error (path_str path ++ §": size is outside 1..1048576 bytes"));;
  value ← reraise (fun e =>
      if Protocol.is_syntax (exn_type e)
      then assembly_error (path_str path ++ §": invalid UTF-8 JSON: " ++ exn_msg e) else e)
    (parse_json raw);
  ok_or (as_dict value) (assembly_error (path_str path ++ §": root must be an object")).

(* ------------------------------------------------------------------ *)
(** ** One component *)

Definition package_path (value : pystr) (root : ppath) : pystr :=
  if bool_decide (value = §"@package") then path_str root
  else if str_startswith §"@package/" value
  then path_str (path_div root (path_of (str_removeprefix §"@package/" value)))
  else value.

Definition resolve_exec (argv : pyval) (root : ppath) (commands : dict pystr pystr) (component : pystr)
    : py (list pystr) :=
  match as_list argv ≫= mapM as_str with
  | None | Some [] => Raise (assembly_error (component ++ §": exec must be a non-empty string array"))
  | Some (first :: rest) =>
      let first := package_path first root in
      let rest := (fun value => package_path value root) <$> rest in
      if str_startswith §"/" first then Ok (first :: rest)
      else match dget commands first with
           | Some replacement => Ok (replacement :: rest)
           | None => Raise (assembly_error (component ++ §": bare executable " ++ py_repr (VStr first)
                                            ++ §" needs --command NAME=/absolute/path"))
           end
  end.

(** The entries of [icons] that are objects with a string path. *)
Definition icon_candidate (entry : pyval) : option (dict pystr pyval * pystr) :=
  match entry with
  | VDict d => match dget d §"path" with Some (VStr path) => Some (d, path) | _ => None end
  | _ => None
  end.

(** Larger first; [sort] keeps the order of equals, also with [reverse]. *)
Definition larger (x y : Z * pystr) : bool := (y.1 <=? x.1)%Z.

Definition first_icon (component package : dict pystr pyval) (root : ppath) : py pystr :=
  match py_or (py_or (dget_or component §"icons" VNone) (dget_or package §"icons" VNone)) (VList []) with
  | VList icons =>
      candidates ← mapR (fun dp => size ← py_int (dget_or dp.1 §"size" (VInt 0)); Ok (size, dp.2))
                        (omap icon_candidate icons);
      match py_sorted larger candidates with
      | [] => Ok []
      | (_, path) :: _ => Ok (package_path path root)
      end
  | _ => Ok []
  end.

Definition text_of (d : dict pystr pyval) (k : pystr) (default : pystr) : pystr :=
  py_str (dget_or d k (VStr default)).

Definition component_kind (provides : list pyval) : pystr :=
  let roles := omap (fun entry => match entry with VDict d => Some (text_of d §"role" []) | _ => None end) provides in
  if bool_decide (§"display-output" ∈ roles) then §"display"
  else if existsb (fun role => bool_decide (role ∈ [§"window-manager"; §"window-policy"])) roles then §"window"
  else if existsb (fun role => bool_decide (role ∈ [§"launcher"; §"system-chrome"; §"navigation-bar"])) roles
  then §"shell" else §"other".

Definition read_provide (key : pystr) (provided : pyval) : py provide :=
  d ← ok_or (as_dict provided) (assembly_error (key ++ §": invalid provide entry"));
  match List.filter (dhas d) [§"role"; §"interface"; §"capability"] with
  | [kind] =>
      priority ← py_int (dget_or d §"priority" (VInt 0));
      Ok {| provide_kind := kind; provide_name := text_of d kind [];
            exclusive := truthy (dget_or d §"exclusive" (VBool false)); priority := priority |}
  | _ => Raise (assembly_error (key ++ §": provide entry needs exactly one kind"))
  end.

(** [{str(name): str(value) for name, value in environment.items()}] *)
Definition str_items (d : dict pystr pyval) : dict pystr pystr :=
  dict_of ((fun kv => (kv.1, py_str kv.2)) <$> d).

(** The names a window identifies itself with. *)
Definition window_identity (windowing : dict pystr pyval) : dict pystr pyval :=
  match dget_or windowing §"identity" (VDict []) with
  | VStr s => [(§"app_id", VStr s); (§"x11_wm_class", VStr s)]
  | VDict d => d
  | _ => []
  end.

Definition read_window (windowing : dict pystr pyval) : window :=
  let identity := window_identity windowing in
  {| system := text_of windowing §"system" []; display := text_of windowing §"display" [];
     mode := text_of windowing §"mode" []; title := text_of windowing §"title" [];
     app_id := text_of identity §"app_id" [];
     wm_class := py_str (dget_or identity §"x11_wm_class" (dget_or identity §"app_id" (VStr [])));
     wm_instance := text_of identity §"x11_wm_instance" [] |}.

(** Two fields of a component that must both have a type. *)
Definition both {A} (get : pyval -> option A) (x y : pyval) (message : pystr) : py (A * A) :=
  match get x, get y with
  | Some a, Some b => Ok (a, b)
  | _, _ => Raise (assembly_error message)
  end.

Definition default_readiness : pyval :=
  VDict [(§"mode", VStr §"exec"); (§"timeout_ms", VInt 5000)].

Definition read_component (startup : list pyval) (commands : dict pystr pystr) (target_root : ppath)
    (raw_package : dict pystr pyval) (package : metadata) (key : pystr) (raw : dict pystr pyval) : py component :=
  lists ← both as_list (dget_or raw §"provides" (VList [])) (dget_or raw §"permissions" (VList []))
    (key ++ §": provides/permissions are invalid");
  objects ← both as_dict (dget_or raw §"env" (VDict [])) (dget_or raw §"readiness" default_readiness)
    (key ++ §": env/readiness are invalid");
  views ← both as_dict (dget_or raw §"windowing" (VDict [])) (dget_or raw §"activation" (VDict []))
    (key ++ §": windowing/activation are invalid");
  let lifecycle := text_of raw §"lifecycle" §"manual" in
  idle ← (if bool_decide (lifecycle = §"on-demand")
          then py_int (dget_or raw §"idle_timeout_ms" (VInt 30000)) else Ok 0%Z);
  provides ← mapR (read_provide key) lists.1;
  timeout ← py_int (dget_or objects.2 §"timeout_ms" (VInt 5000));
  exec ← resolve_exec (dget_or raw §"exec" VNone) target_root commands key;
  after ← py_strs (dget_or raw §"after" (VList []));
  icon ← first_icon raw raw_package target_root;
  Ok {| id := key; kind := component_kind lists.1;
        critical := existsb (fun value => eq_str value key) startup;
        lifecycle := lifecycle; idle_timeout_ms := idle;
        restart := text_of raw §"restart" §"never";
        readiness_mode := text_of objects.2 §"mode" §"exec"; readiness_timeout_ms := timeout;
        exec := exec; after := after; env := str_items objects.1;
        provides := provides; permissions := py_str <$> lists.2; package := package;
        name := text_of raw §"name" (package_name package);
        summary := py_str (dget_or raw §"summary" (dget_or raw_package §"summary" (VStr [])));
        icon := icon; launchable := truthy (dget_or views.2 §"launchable" (VBool false));
        windowing := read_window views.1 |}.

(* ------------------------------------------------------------------ *)
(** ** The catalog *)

(** The components read so far and the set [known] of their keys. *)
Record catalog := { known : list pystr; found : list component }.

Definition add_component (manifest_path : ppath) (startup : list pyval) (commands : dict pystr pystr)
    (target_root : ppath) (raw_package : dict pystr pyval) (package : metadata) (c : catalog) (raw : pyval)
    : py catalog :=
  let invalid := assembly_error (path_str manifest_path ++ §": invalid component") in
  raw ← ok_or (as_dict raw) invalid;
  local_id ← ok_or (as_str (dget_or raw §"id" VNone)) invalid;
  let key := package_id package ++ §":" ++ local_id in
  raise_if (bool_decide (key ∈ known c)) (assembly_error (§"duplicate component " ++ key));;
  component ← read_component startup commands target_root raw_package package key raw;
  Ok {| known := key :: known c; found := found c ++ [component] |}.

Definition add_package (startup : list pyval) (commands : dict pystr pystr) (c : catalog) (roots : ppath * ppath)
    : py catalog :=
  let manifest_path := path_div (resolve roots.1) (path_of §"manifest.json") in
  let error m := assembly_error (path_str manifest_path ++ m) in
  manifest ← load_json manifest_path;
  raise_if (negb (eq_str (dget_or manifest §"schema" VNone) §"msys.manifest.v1"))
    (error §": schema must be msys.manifest.v1");;
  match as_dict (dget_or manifest §"package" VNone), as_list (dget_or manifest §"components" VNone) with
  | Some package, Some raw_components =>
      package_id ← ok_or (as_str (dget_or package §"id" VNone)) (error §": package.id is invalid");
      let metadata :=
        {| package_id := package_id; package_name := text_of package §"name" package_id;
           package_version := text_of package §"version" []; package_kind := text_of package §"kind" §"system" |} in
      foldR (add_component manifest_path startup commands roots.2 package metadata) c raw_components
  | _, _ => Raise (error §": package/components are invalid")
  end.

(** Only the names of the catalog. *)
Definition present (known : list pystr) (names : list pystr) : list pystr :=
  List.filter (fun value => bool_decide (value ∈ known)) names.

Definition close_after (known : list pystr) (c : component) : component :=
  {| id := id c; kind := kind c; critical := critical c; lifecycle := lifecycle c;
     idle_timeout_ms := idle_timeout_ms c; restart := restart c; readiness_mode := readiness_mode c;
     readiness_timeout_ms := readiness_timeout_ms c; exec := exec c; after := present known (after c);
     env := env c; provides := provides c; permissions := permissions c; package := package c;
     name := name c; summary := summary c; icon := icon c; launchable := launchable c;
     windowing := windowing c |}.

Definition add_role (known : list pystr) (native_roles : dict pystr (list pystr)) (role : pystr * pyval)
    : py (dict pystr (list pystr)) :=
  providers ← ok_or (as_list role.2) (assembly_error §"profile roles must map strings to arrays");
  match present known (py_str <$> providers) with
  | [] => Ok native_roles
  | present => Ok (dset native_roles role.1 present)
  end.

Definition assemble (profile_path : ppath) (package_roots : list (ppath * ppath)) (commands : dict pystr pystr)
    : py document :=
  profile ← load_json profile_path;
  raise_if (negb (eq_str (dget_or profile §"schema" VNone) §"msys.profile.v1"))
    (assembly_error §"profile schema must be msys.profile.v1");;
  match as_str (dget_or profile §"id" VNone), as_dict (dget_or profile §"roles" (VDict [])) with
  | Some profile_id, Some roles =>
      match as_list (dget_or profile §"startup" (VList [])), as_dict (dget_or profile §"env" (VDict [])),
            as_dict (dget_or profile §"settings" (VDict [])) with
      | Some startup, Some profile_env, Some settings =>
          c ← foldR (add_package startup commands) {| known := []; found := [] |} package_roots;
          native_roles ← foldR (add_role (known c)) [] roles;
          match present (known c) (py_str <$> startup) with
          | [] => Raise (assembly_error §"profile has no startup component in the supplied catalog")
          | native_startup =>
              Ok {| profile_id := profile_id; profile_display := text_of settings §"display" [];
                    roles := native_roles; startup := native_startup; profile_env := str_items profile_env;
                    components := close_after (known c) <$> found c |}
          end
      | _, _, _ => Raise (assembly_error §"profile startup/env/settings are invalid")
      end
  | _, _ => Raise (assembly_error §"profile id/roles are invalid")
  end.

(* ------------------------------------------------------------------ *)
(** ** The command line *)

Definition default_commands : dict pystr pystr :=
  [(§"python", §"/opt/msys-dev/.runtime/python/bin/python3");
   (§"python3", §"/opt/msys-dev/.runtime/python/bin/python3");
   (§"bash", §"/bin/bash"); (§"sh", §"/bin/sh")].

Definition equals_sign : N := 61.

Definition add_command (commands : dict pystr pystr) (assignment : pystr) : py (dict pystr pystr) :=
  let name := str_before equals_sign assignment in
  let value := default [] (str_after equals_sign assignment) in
  let separator := str_has equals_sign assignment in
  raise_if (negb separator || negb (str_true name) || negb (str_startswith §"/" value))
    (assembly_error §"--command must be NAME=/absolute/path");;
  Ok (dset commands name value).

Definition read_root (declaration : pystr) : py (ppath * ppath) :=
  let source_path := path_of (str_before equals_sign declaration) in
  match str_after equals_sign declaration with
  | None => Ok (source_path, resolve source_path)
  | Some target =>
      raise_if (negb (path_absolute (path_of target))) (assembly_error §"--package-root target must be absolute");;
      Ok (source_path, path_of target)
  end.

(** The document of [--profile], [--package-root] and [--command]. *)
Definition build (profile : pystr) (package_roots assignments : list pystr) : py document :=
  commands ← foldR add_command default_commands assignments;
  roots ← mapR read_root package_roots;
  assemble (path_of profile) roots commands.
End Assemble.

(* ------------------------------------------------------------------ *)
(** ** The document *)

Definition str_list (l : list pystr) : pyval := VList (VStr <$> l).
Definition str_dict (d : dict pystr pystr) : pyval := VDict ((fun kv => (kv.1, VStr kv.2)) <$> d).

Definition provide_value (p : provide) : pyval :=
  VDict [(provide_kind p, VStr (provide_name p)); (§"exclusive", VBool (exclusive p)); (§"priority", VInt (priority p))].

Definition window_value (w : window) : pyval :=
  VDict [(§"system", VStr (system w)); (§"display", VStr (display w)); (§"mode", VStr (mode w));
         (§"title", VStr (title w)); (§"app_id", VStr (app_id w)); (§"wm_class", VStr (wm_class w));
         (§"wm_instance", VStr (wm_instance w))].

Definition metadata_value (p : metadata) : pyval :=
  VDict [(§"id", VStr (package_id p)); (§"name", VStr (package_name p)); (§"version", VStr (package_version p));
         (§"kind", VStr (package_kind p))].

Definition component_members (c : component) : dict pystr pyval :=
  [(§"id", VStr (id c)); (§"kind", VStr (kind c)); (§"critical", VBool (critical c));
   (§"lifecycle", VStr (lifecycle c)); (§"idle_timeout_ms", VInt (idle_timeout_ms c));
   (§"restart", VStr (restart c));
   (§"readiness", VDict [(§"mode", VStr (readiness_mode c)); (§"timeout_ms", VInt (readiness_timeout_ms c))]);
   (§"exec", str_list (exec c)); (§"after", str_list (after c)); (§"env", str_dict (env c));
   (§"provides", VList (provide_value <$> provides c)); (§"permissions", str_list (permissions c));
   (§"package", metadata_value (package c)); (§"name", VStr (name c)); (§"summary", VStr (summary c));
   (§"icon", VStr (icon c)); (§"launchable", VBool (launchable c)); (§"windowing", window_value (windowing c))].

Definition component_value (c : component) : pyval := VDict (component_members c).

Definition profile_members (d : document) : dict pystr pyval :=
  [(§"id", VStr (profile_id d)); (§"display", VStr (profile_display d));
   (§"roles", VDict ((fun kv => (kv.1, str_list kv.2)) <$> roles d)); (§"startup", str_list (startup d));
   (§"env", str_dict (profile_env d))].

Definition document_members (d : document) : dict pystr pyval :=
  [(§"schema", VStr SCHEMA); (§"stop_grace_ms", VInt 2000); (§"profile", VDict (profile_members d));
   (§"components", VList (component_value <$> components d))].

Definition document_value (d : document) : pyval := VDict (document_members d).

(* ------------------------------------------------------------------ *)
(** ** What the catalog guarantees *)

Section Theorems.
Context {lib : PyLib} {reprs : PyRepr} {json : Json.JsonLib} {files : SourceFiles}.

Definition absolute (s : pystr) : Prop := str_startswith §"/" s = true.

(** A component as the native runtime wants it, whatever its manifest says. *)
Definition sound_component (startup : list pystr) (c : component) : Prop :=
  absolute (default [] (head (exec c))) /\
  (lifecycle c ≠ §"on-demand" -> idle_timeout_ms c = 0%Z) /\
  kind c ∈ Plan.KINDS /\
  Forall (fun p => provide_kind p ∈ Plan.PROVIDE_KINDS) (provides c) /\
  (critical c = true -> id c ∈ startup) /\ dict_wf (env c).

Definition catalog_ok (startup : list pyval) (c : catalog) : Prop :=
  NoDup (known c) /\ known c ≡ₚ id <$> found c /\ Forall (sound_component (py_str <$> startup)) (found c).

Lemma resolve_exec_absolute argv root commands component l :
  Forall (fun kv : pystr * pystr => absolute kv.2) commands ->
  resolve_exec argv root commands component = Ok l -> absolute (default [] (head l)).
Proof.
  intros Hc. unfold resolve_exec. destruct (as_list argv ≫= mapM as_str) as [[|first rest]|]; [done| |done].
  destruct (str_startswith §"/" (package_path first root)) eqn:Ha; [by intros [= <-]|].
  destruct (dget commands _) as [r|] eqn:Hr; [|done]. intros [= <-].
  apply dget_elem in Hr. exact (proj1 (Forall_forall _ _) Hc _ Hr).
Qed.

Lemma component_kind_known provides : component_kind provides ∈ Plan.KINDS.
Proof. unfold component_kind, Plan.KINDS. repeat case_match; set_solver. Qed.

Lemma read_provide_known key v p : read_provide key v = Ok p -> provide_kind p ∈ Plan.PROVIDE_KINDS.
Proof.
  unfold read_provide. intros (d & _ & H1)%bind_Ok.
  destruct (List.filter (dhas d) _) as [|k [|]] eqn:Hk; [done| |done]. apply bind_Ok in H1 as (z & _ & [= <-]).
  assert (k ∈ List.filter (dhas d) Plan.PROVIDE_KINDS) as Hin by (unfold Plan.PROVIDE_KINDS; rewrite Hk; by left).
  by apply list_elem_of_In, filter_In in Hin as [Hin%list_elem_of_In _].
Qed.

Lemma read_component_sound startup commands root raw_package package key raw c :
  Forall (fun kv : pystr * pystr => absolute kv.2) commands ->
  read_component startup commands root raw_package package key raw = Ok c -> id c = key /\ sound_component (py_str <$> startup) c.
Proof.
  intros Hc. unfold read_component. intros (lists & _ & H1)%bind_Ok. apply bind_Ok in H1 as (objects & _ & H1).
  apply bind_Ok in H1 as (views & _ & H1). apply bind_Ok in H1 as (idle & Hidle & H1).
  apply bind_Ok in H1 as (provides & Hp & H1). apply bind_Ok in H1 as (timeout & _ & H1).
  apply bind_Ok in H1 as (argv & He & H1). apply bind_Ok in H1 as (after & _ & H1).
  apply bind_Ok in H1 as (icon & _ & [= <-]). split; [done|]. unfold sound_component; cbn. split_and!.
  - by eapply resolve_exec_absolute.
  - intros Hl. rewrite bool_decide_false in Hidle by done. by injection Hidle as <-.
  - apply component_kind_known.
  - eapply mapR_Forall; [|exact Hp]. intros x y. apply read_provide_known.
  - intros (v & Hv & ->%eq_str_true)%existsb_elem. by apply (list_elem_of_fmap_2 py_str _ _ Hv).
  - apply dict_of_wf.
Qed.

Lemma add_component_ok manifest_path startup commands root raw_package package c raw c' :
  Forall (fun kv : pystr * pystr => absolute kv.2) commands -> catalog_ok startup c ->
  add_component manifest_path startup commands root raw_package package c raw = Ok c' -> catalog_ok startup c'.
Proof.
  intros Hc (Hnd & Hids & Hall). unfold add_component. intros H1. inv_result. bool_simp.
  match goal with H : read_component _ _ _ _ _ _ _ = Ok _ |- _ => apply read_component_sound in H as [Hid Hs]; [|done] end.
  split_and!; cbn.
  - by apply NoDup_cons.
  - rewrite fmap_app, Hids. cbn. rewrite Hid. by rewrite Permutation_cons_append.
  - apply Forall_app_2; [done|]. by apply Forall_singleton.
Qed.

Lemma add_package_ok startup commands c roots c' :
  Forall (fun kv : pystr * pystr => absolute kv.2) commands -> catalog_ok startup c ->
  add_package startup commands c roots = Ok c' -> catalog_ok startup c'.
Proof.
  intros Hc Hok. unfold add_package. intros (manifest & _ & H1)%bind_Ok. apply bind_Ok in H1 as (u & _ & H1).
  destruct (as_dict _) as [package|]; [|done]. destruct (as_list _) as [raws|]; [|done].
  apply bind_Ok in H1 as (pid & _ & H1). eapply foldR_ind; [exact Hok| |exact H1].
  intros a x a' _ Ha. by eapply add_component_ok.
Qed.

Lemma present_elem known names : Forall (.∈ known) (present known names).
Proof.
  apply Forall_forall. intros x Hx. unfold present in Hx. apply list_elem_of_In, filter_In in Hx as [_ Hx]. by bool_simp.
Qed.

Lemma add_roles_known known roles found native_roles : 
  Forall (fun kv => kv.2 ≠ [] /\ Forall (.∈ known) kv.2) found -> dict_wf found ->
  foldR (add_role known) found roles = Ok native_roles ->
  Forall (fun kv => kv.2 ≠ [] /\ Forall (.∈ known) kv.2) native_roles /\ dict_wf native_roles.
Proof.
  intros Hf Hwf Hr. refine (foldR_ind (fun d => Forall _ d /\ dict_wf d) _ _ _ _ (conj Hf Hwf) _ Hr).
  intros d [role v] d' _ [Hd Hdwf]. unfold add_role. intros (providers & _ & H1)%bind_Ok.
  pose proof (present_elem known (py_str <$> providers)) as Hp.
  destruct (present known (py_str <$> providers)) as [|p ps]; injection H1 as <-; [done|].
  split; [|by apply dset_wf]. apply Forall_forall. intros [k l] Hin.
  apply elem_dget in Hin; [|by apply dset_wf]. destruct (decide (k = role)) as [->|Hne].
  - cbn in Hin. rewrite dget_dset_eq in Hin. injection Hin as <-. done.
  - cbn in Hin. rewrite dget_dset_ne in Hin by done. apply dget_elem in Hin. exact (proj1 (Forall_forall _ _) Hd _ Hin).
Qed.

(** Everything a document names is one of its components. *)
Definition closed_document (d : document) : Prop :=
  let ids := id <$> components d in
  NoDup ids /\
  Forall (fun c => Forall (.∈ ids) (after c)) (components d) /\
  dict_wf (roles d) /\ Forall (fun kv => kv.2 ≠ [] /\ Forall (.∈ ids) kv.2) (roles d) /\
  startup d ≠ [] /\ Forall (.∈ ids) (startup d) /\ dict_wf (profile_env d).

Lemma assemble_closed profile_path package_roots commands d :
  Forall (fun kv : pystr * pystr => absolute kv.2) commands ->
  assemble profile_path package_roots commands = Ok d ->
  closed_document d /\ Forall (sound_component (startup d)) (components d).
Proof.
  intros Hc. unfold assemble. intros (profile & _ & H1)%bind_Ok. apply bind_Ok in H1 as (u & _ & H1).
  destruct (as_str _) as [pid|]; [|done]. destruct (as_dict _) as [raw_roles|]; [|done].
  destruct (as_list _) as [raw_startup|]; [|done]. destruct (as_dict _) as [penv|]; [|done].
  destruct (as_dict _) as [settings|]; [|done].
  apply bind_Ok in H1 as (c & Hcat & H1). apply bind_Ok in H1 as (native_roles & Hroles & H1).
  assert (catalog_ok raw_startup c) as (Hnd & Hids & Hall).
  { eapply foldR_ind; [| |exact Hcat]; [repeat constructor|]. intros a x a' _ Ha. by apply add_package_ok. }
  pose proof (present_elem (known c) (py_str <$> raw_startup)) as Hs.
  assert (forall v, v ∈ py_str <$> raw_startup -> v ∈ known c -> v ∈ present (known c) (py_str <$> raw_startup)) as Hin.
  { intros v Hv Hk. unfold present. apply list_elem_of_In, filter_In. by rewrite bool_decide_eq_true, <- list_elem_of_In. }
  destruct (present (known c) (py_str <$> raw_startup)) as [|s0 ss] eqn:Hss; [done|]. injection H1 as <-.
  apply add_roles_known in Hroles as [Hroles Hwf]; [|constructor|constructor].
  assert ((id <$> (close_after (known c) <$> found c)) = id <$> found c) as Heq by (by rewrite <- list_fmap_compose).
  assert (forall l, Forall (.∈ known c) l -> Forall (.∈ id <$> found c) l) as Hcast.
  { intros l Hl. eapply Forall_impl; [exact Hl|]. intros x. cbn. by rewrite Hids. }
  split; [unfold closed_document; cbn; rewrite Heq; split_and!|]; cbn.
  - by rewrite <- Hids.
  - apply Forall_fmap, Forall_forall. intros x _. cbn. apply Hcast, present_elem.
  - done.
  - eapply Forall_impl; [exact Hroles|]. intros kv [H1 H2]. split; [done|by apply Hcast].
  - done.
  - by apply Hcast.
  - apply dict_of_wf.
  - apply Forall_fmap, Forall_forall. intros x Hx.
    destruct (proj1 (Forall_forall _ _) Hall x Hx) as (He & Hi & Hk & Hp & Hcr & Henv). unfold sound_component; cbn.
    split_and!; [done..| |done]. intros Hcrit. apply Hin; [by apply Hcr|]. rewrite Hids. by apply list_elem_of_fmap_2.
Qed.

(* ------------------------------------------------------------------ *)
(** ** The document as the plan compiler reads it *)

Lemma closed_object_Ok v path allowed required d : Plan.closed_object v path allowed required = Ok d -> v = VDict d.
Proof.
  unfold Plan.closed_object. intros (d' & ->%ok_or_Ok%as_dict_Some & H1)%bind_Ok.
  apply bind_Ok in H1 as (? & _ & H1). apply bind_Ok in H1 as (? & _ & [= <-]). done.
Qed.

Lemma bounded_list_Ok v lo hi m l : Plan.bounded_list v lo hi m = Ok l -> v = VList l.
Proof.
  unfold Plan.bounded_list. intros (l' & ->%ok_or_Ok%as_list_Some & H1)%bind_Ok. apply bind_Ok in H1 as (? & _ & [= <-]). done.
Qed.

Lemma bounded_string_Ok v path maximum nonempty s : Plan.bounded_string v path maximum nonempty = Ok s -> v = VStr s.
Proof.
  unfold Plan.bounded_string. intros (s' & ->%ok_or_Ok%as_str_Some & H1)%bind_Ok. apply bind_Ok in H1 as (? & _ & H1).
  apply bind_Ok in H1 as (? & _ & H1). apply bind_Ok in H1 as (? & _ & [= <-]). done.
Qed.

Lemma read_id_str s path s' : Plan.read_id (VStr s) path = Ok s' -> s' = s.
Proof.
  unfold Plan.read_id. intros (x & [= <-]%bounded_string_Ok & H1)%bind_Ok. by apply bind_Ok in H1 as (? & _ & [= <-]).
Qed.

Lemma read_ids_strs l path m l' : Plan.read_ids (VStr <$> l) path m = Ok l' -> l' = l.
Proof.
  unfold Plan.read_ids, Plan.bounded_strings, imapR. intros (ids & Hids & H1)%bind_Ok.
  apply bind_Ok in H1 as (? & _ & [= <-]). apply imapR_from_Ok in Hids as [Hlen Hids]. rewrite length_fmap in Hlen.
  apply list_eq. intros i. destruct (l !! i) as [s|] eqn:Hs.
  - destruct (Hids i (VStr s)) as (y & Hy & [= <-]%bounded_string_Ok); [by rewrite list_lookup_fmap, Hs|done].
  - apply lookup_ge_None in Hs. apply lookup_ge_None. lia.
Qed.

Lemma normalize_assembled index c x : Plan.normalize_v2_component index (component_value c) = Ok x ->
  Plan.id (Plan.base x) = id c /\ forall dep, dep ∈ Plan.after (Plan.base x) <-> dep ∈ after c.
Proof.
  unfold Plan.normalize_v2_component. set (path := Plan.component_path index). clearbody path.
  intros (item & [= <-]%closed_object_Ok & H1)%bind_Ok.
  change (Plan.field (component_members c) §"id") with (VStr (id c)) in H1.
  change (dget_or (component_members c) §"after" (VList [])) with (str_list (after c)) in H1.
  apply bind_Ok in H1 as (cid & ->%read_id_str & H1). do 8 (apply bind_Ok in H1 as (? & _ & H1)).
  apply bind_Ok in H1 as (raw & [= <-]%bounded_list_Ok & H1).
  apply bind_Ok in H1 as (names & ->%read_ids_strs & H1). do 14 (apply bind_Ok in H1 as (? & _ & H1)).
  injection H1 as <-. split; [done|]. intros dep. by apply sorted_strs_elem.
Qed.

Lemma read_profile_assembled d p : Plan.read_profile (VDict (profile_members d)) = Ok p ->
  Plan.startup p = startup d /\ Forall (.∈ roles d) (Plan.roles p).
Proof.
  unfold Plan.read_profile. intros (item & [= <-]%closed_object_Ok & H1)%bind_Ok.
  change (Plan.field (profile_members d) §"roles") with (VDict ((fun kv => (kv.1, str_list kv.2)) <$> roles d)) in H1.
  change (Plan.field (profile_members d) §"startup") with (str_list (startup d)) in H1.
  do 2 (apply bind_Ok in H1 as (? & _ & H1)). apply bind_Ok in H1 as (raw & [= <-]%ok_or_Ok & H1).
  apply bind_Ok in H1 as (? & _ & H1). apply bind_Ok in H1 as (rs & Hrs & H1).
  apply bind_Ok in H1 as (raw & [= <-]%bounded_list_Ok & H1).
  apply bind_Ok in H1 as (names & ->%read_ids_strs & H1). apply bind_Ok in H1 as (? & _ & [= <-]). split; [done|].
  cbn. eapply mapR_Forall; [|exact Hrs]. intros role [role' l]. unfold Plan.read_role, Plan.field, dget_or.
  intros (? & _ & H1)%bind_Ok. apply bind_Ok in H1 as (raw & Hraw & H1).
  apply bind_Ok in H1 as (ids & Hids & [= <- <-]). apply bounded_list_Ok in Hraw.
  change (fmap _ (roles d)) with (prod_map Datatypes.id str_list <$> roles d) in Hraw. rewrite dget_fmap in Hraw.
  destruct (dget (roles d) role) as [l|] eqn:Hl; [|done]. cbn in Hraw. injection Hraw as <-.
  apply read_ids_strs in Hids as ->. by apply dget_elem.
Qed.

Lemma normalized_idents l items : imapR Plan.normalize_v2_component (component_value <$> l) = Ok items ->
  PlanOrder.idents Plan.base items = id <$> l /\
  forall item dep, item ∈ items -> dep ∈ Plan.after (Plan.base item) -> exists c, c ∈ l /\ dep ∈ after c.
Proof.
  intros [Hlen Hl]%imapR_from_Ok. rewrite length_fmap in Hlen.
  assert (forall i x, items !! i = Some x -> exists c, l !! i = Some c /\ Plan.id (Plan.base x) = id c
            /\ forall dep, dep ∈ Plan.after (Plan.base x) <-> dep ∈ after c) as Hi.
  { intros i x Hx. destruct (lookup_lt_is_Some_2 l i) as [c Hc]; [rewrite <- Hlen; by eapply lookup_lt_Some|].
    exists c. split; [done|]. destruct (Hl i (component_value c)) as (y & Hy & Hn); [by rewrite list_lookup_fmap, Hc|].
    rewrite Hx in Hy. injection Hy as <-. by eapply normalize_assembled. }
  split.
  - apply list_eq. intros i. unfold PlanOrder.idents. rewrite !list_lookup_fmap.
    destruct (items !! i) as [x|] eqn:Hx.
    + destruct (Hi i x Hx) as (c & -> & Hid & _). cbn. by rewrite <- Hid.
    + apply lookup_ge_None in Hx. rewrite (proj2 (lookup_ge_None l i)) by lia. done.
  - intros item dep [i Hx]%list_elem_of_lookup Hdep. destruct (Hi i item Hx) as (c & Hc & _ & Ha).
    exists c. split; [by eapply list_elem_of_lookup_2|by apply Ha].
Qed.

Lemma build_closed profile package_roots assignments d : build profile package_roots assignments = Ok d ->
  closed_document d /\ Forall (sound_component (startup d)) (components d).
Proof.
  unfold build. intros (commands & Hc & H1)%bind_Ok. apply bind_Ok in H1 as (roots & _ & H1).
  eapply assemble_closed; [|exact H1].
  assert (Forall (fun kv : pystr * pystr => absolute kv.2) commands /\ dict_wf commands) as [Hall _]; [|done].
  refine (foldR_ind (fun c => Forall (fun kv : pystr * pystr => absolute kv.2) c /\ dict_wf c) _ _ _ _ _ _ Hc).
  - split; [by repeat constructor|]. apply (bool_decide_unpack _). vm_compute. exact I.
  - intros c a c' _ [Hall Hwf]. unfold add_command. intros H2. inv_result. bool_simp. split; [|by apply dset_wf].
    apply Forall_forall. intros [k v] Hin. apply elem_dget in Hin; [|by apply dset_wf].
    destruct (decide (k = str_before equals_sign a)) as [->|Hne].
    + rewrite dget_dset_eq in Hin. by injection Hin as <-.
    + rewrite dget_dset_ne in Hin by done. apply dget_elem in Hin. exact (proj1 (Forall_forall _ _) Hall _ Hin).
Qed.

(** *** The document as a JSON value *)

Lemma plain_str_list l : Json.Plain (str_list l).
Proof. constructor. apply Forall_fmap, Forall_true. intros x. constructor. Qed.

Lemma plain_str_dict d : dict_wf d -> Json.Plain (str_dict d).
Proof.
  intros Hd. constructor; [|apply Forall_fmap, Forall_true; intros x; constructor].
  unfold dict_wf, dkeys in *. by rewrite <- list_fmap_compose.
Qed.

(** The members of an object written out. *)
Ltac plain_members := apply Json.plain_dict; [apply (bool_decide_unpack _); vm_compute; exact I|]; repeat apply Forall_cons_2; cbn;
  try apply Json.plain_none; try apply Json.plain_bool; try apply Json.plain_int; try apply Json.plain_str; try apply plain_str_list;
  try exact (List.Forall_nil _).

Lemma plain_provide p : provide_kind p ∈ Plan.PROVIDE_KINDS -> Json.Plain (provide_value p).
Proof.
  intros Hp. unfold provide_value. unfold Plan.PROVIDE_KINDS in Hp.
  repeat (apply elem_of_cons in Hp as [->|Hp]; [plain_members|]). by apply not_elem_of_nil in Hp.
Qed.

Lemma plain_component startup c : sound_component startup c -> Json.Plain (component_value c).
Proof.
  intros (_ & _ & _ & Hp & _ & Henv). unfold component_value, component_members. plain_members.
  - plain_members.
  - by apply plain_str_dict.
  - constructor. apply Forall_fmap. eapply Forall_impl; [exact Hp|]. intros p. apply plain_provide.
  - unfold metadata_value. plain_members.
  - unfold window_value. plain_members.
Qed.

Lemma source_document_plain profile package_roots assignments d : build profile package_roots assignments = Ok d ->
  Json.Plain (document_value d).
Proof.
  intros [(Hnd & Hafter & Hwf & Hroles & Hne & Hs & Henv) Hall]%build_closed.
  unfold document_value, document_members. plain_members.
  - unfold profile_members. plain_members; [|by apply plain_str_dict].
    constructor; [|apply Forall_fmap, Forall_true; intros x; apply plain_str_list].
    unfold dict_wf, dkeys in *. by rewrite <- list_fmap_compose.
  - constructor. apply Forall_fmap. eapply Forall_impl; [exact Hall|]. intros c. apply plain_component.
Qed.

(** C26: an assembled plan source is closed, whatever the profile and the
    manifests say: component ids are distinct; [after], the preferred providers
    of every role and the startup list name components of the document only,
    no role is left without providers and something starts; a critical
    component is in the startup list; every kind and provide kind is one the
    compiler knows; only on-demand components have an idle timeout; and every
    program is an absolute path. *)
Theorem assembled_source_is_closed profile package_roots assignments d :
  build profile package_roots assignments = Ok d ->
  let ids := id <$> components d in
  NoDup ids /\ NoDup (dkeys (roles d)) /\
  (startup d ≠ [] /\ forall name, name ∈ startup d -> name ∈ ids) /\
  (forall role providers, dget (roles d) role = Some providers ->
     providers ≠ [] /\ forall name, name ∈ providers -> name ∈ ids) /\
  forall c, c ∈ components d ->
    (forall name, name ∈ after c -> name ∈ ids) /\
    (critical c = true -> id c ∈ startup d) /\
    (lifecycle c ≠ §"on-demand" -> idle_timeout_ms c = 0%Z) /\
    kind c ∈ Plan.KINDS /\ (forall p, p ∈ provides c -> provide_kind p ∈ Plan.PROVIDE_KINDS) /\
    exists program arguments, exec c = program :: arguments /\ str_startswith §"/" program = true.
Proof.
  intros ((Hnd & Hafter & Hwf & Hroles & Hne & Hs & _) & Hall)%build_closed. rewrite !Forall_forall in *.
  split_and!; [done..|exact Hs| |].
  - intros role providers Hr%dget_elem. destruct (Hroles _ Hr) as [Hp Hin]. split; [done|]. by apply Forall_forall.
  - intros c Hc. destruct (Hall c Hc) as (He & Hi & Hk & Hp & Hcr & _). rewrite Forall_forall in Hp.
    pose proof (Hafter c Hc) as Ha. cbv beta in Ha. rewrite Forall_forall in Ha. split_and!; [done..|].
    unfold absolute in He. destruct (exec c) as [|program arguments]; [done|]. by exists program, arguments.
Qed.

(** C33: what the script assembles, the compiler can resolve.  When the profile
    and the components of an assembled document pass the compiler's own checks
    of their fields, no reference dangles: the checks of the startup list
    succeed, every preferred provider is a component, and every dependency of a
    component is one. *)
Theorem assembled_references_resolve profile package_roots assignments d p :
  build profile package_roots assignments = Ok d ->
  Plan.read_profile (VDict (profile_members d)) = Ok p ->
  (forall items, imapR Plan.normalize_v2_component (component_value <$> components d) = Ok items ->
     forall item dep, item ∈ items -> dep ∈ Plan.after (Plan.base item) -> dep ∈ PlanOrder.idents Plan.base items) /\
  (forall items, PlanText.read_components Plan.base Plan.normalize_v2_component (document_members d) = Ok items ->
     PlanText.check_startup p items = Ok tt /\
     forall role provider, role ∈ Plan.roles p -> provider ∈ role.2 ->
       exists item, find_first (fun i => bool_decide (Plan.id (Plan.base i) = provider)) items = Some item).
Proof.
  intros [(Hnd & Hafter & Hwf & Hroles & Hne & Hs & _) _]%build_closed [Hst Hr]%read_profile_assembled.
  rewrite !Forall_forall in *. split.
  - intros items [Hids Hdeps]%normalized_idents item dep Hitem Hdep. rewrite Hids.
    destruct (Hdeps item dep Hitem Hdep) as (c & Hc & Ha). pose proof (Hafter c Hc) as Hin. cbv beta in Hin.
    rewrite Forall_forall in Hin. by apply Hin.
  - intros items. unfold PlanText.read_components.
    change (Plan.field (document_members d) §"components") with (VList (component_value <$> components d)).
    intros (raw & [= <-]%bounded_list_Ok & H1)%bind_Ok. apply bind_Ok in H1 as (found & Hf & Ht).
    assert (forall item, item ∈ found -> NoDup (Plan.after (Plan.base item))) as Hdup.
    { apply (proj1 (Forall_forall (fun i => NoDup (Plan.after (Plan.base i))) found)). eapply PlanText.imapR_Forall; [|exact Hf]. intros i x y [_ Hy]%PlanText.normalize_v2_component_Ok. exact Hy. }
    apply PlanOrder.topological_Ok in Ht as (_ & Hperm & _); [|exact Hdup].
    apply normalized_idents in Hf as [Hids _].
    assert (forall name, name ∈ id <$> components d -> name ∈ (fun i => Plan.id (Plan.base i)) <$> items) as Hin.
    { intros name Hname. rewrite Hperm. change (name ∈ PlanOrder.idents Plan.base found). by rewrite Hids. }
    split.
    + unfold PlanText.check_startup. rewrite Hst.
      match goal with |- rbind (mapR ?f ?l) _ = _ => destruct (mapR_total f l) as [ys ->]; [|done] end.
      intros name Hname. exists tt. apply raise_if_Ok. by rewrite bool_decide_true by apply Hin, Hs, Hname.
    + intros [role providers] provider Hrole Hp. destruct (Hroles _ (Hr _ Hrole)) as [_ Hk]. rewrite Forall_forall in Hk.
      specialize (Hin provider (Hk provider Hp)). apply list_elem_of_fmap in Hin as (item & -> & Hitem).
      destruct (find_first _ items) as [i|] eqn:Hfind; [by exists i|].
      rewrite find_first_None in Hfind. specialize (Hfind item Hitem). cbv beta in Hfind. by rewrite bool_decide_true in Hfind.
Qed.
End Theorems.

(* ------------------------------------------------------------------ *)
(** ** Witnesses *)

(** JSON written with single quotes. *)
Definition json_text (s : pystr) : list N := str_replace_c 39 34 s.

Definition sample_profile : list N := json_text
  §"{'schema': 'msys.profile.v1', 'id': 'phone', 'startup': ['org.x:shell', 'org.y:gone'], 'settings': {'display': ':0'}, 'roles': {'launcher': ['org.y:gone', 'org.x:shell'], 'navigation-bar': ['org.y:gone']}}".
Definition sample_manifest : list N := json_text
  §"{'schema': 'msys.manifest.v1', 'package': {'id': 'org.x', 'version': '1'}, 'components': [{'id': 'shell', 'exec': ['python3', '@package/shell.py'], 'after': ['org.x:svc', 'org.y:gone'], 'provides': [{'role': 'launcher', 'priority': '5'}], 'icons': [{'path': 's.png', 'size': 16}, {'path': '@package/l.png', 'size': 64}]}, {'id': 'svc', 'exec': ['@package/bin/svc'], 'lifecycle': 'on-demand', 'env': {'LEVEL': 3}}]}".

Definition sample_files : SourceFiles := {|
  read_bytes path :=
    if bool_decide (path = path_of §"profile.json") then Ok sample_profile
    else if bool_decide (path = path_of §"/src/x/manifest.json") then Ok sample_manifest
    else Raise (Exn OSError §"No such file or directory");
  resolve path := path_div (path_of §"/src") path;
|}.

Definition sample_build : py document :=
  @build ascii_lib plain_repr Protocol.sample_json sample_files §"profile.json" [§"x=/opt/x"] [].

Definition no_document : document :=
  {| profile_id := []; profile_display := []; roles := []; startup := []; profile_env := []; components := [] |}.
Definition sample_document : document := match sample_build with Ok d => d | Raise _ => no_document end.

Lemma sample_build_eq : sample_build = Ok sample_document.
Proof. vm_compute. reflexivity. Qed.

Lemma sample_facts :
  (exec <$> components sample_document, after <$> components sample_document, icon <$> components sample_document)
  = ([[§"/opt/msys-dev/.runtime/python/bin/python3"; §"/opt/x/shell.py"]; [§"/opt/x/bin/svc"]],
     [[§"org.x:svc"]; []], [§"/opt/x/l.png"; []]) /\
  roles sample_document = [(§"launcher", [§"org.x:shell"])] /\ startup sample_document = [§"org.x:shell"].
Proof. vm_compute. auto. Qed.

Lemma assembled_source_is_closed_witness :
  length (components sample_document) = 2%nat /\ §"org.x:shell" ∈ id <$> components sample_document.
Proof.
  split; [vm_compute; reflexivity|].
  apply (@assembled_source_is_closed ascii_lib plain_repr Protocol.sample_json sample_files _ _ _ _ sample_build_eq).
  apply (bool_decide_unpack _). vm_compute. exact I.
Defined.

Lemma assembled_references_resolve_witness :
  exists p items,
    Plan.read_profile (VDict (profile_members sample_document)) = Ok p /\
    PlanText.read_components Plan.base Plan.normalize_v2_component (document_members sample_document) = Ok items /\
    PlanText.check_startup p items = Ok tt /\ is_ok (PlanText.compile_document (document_value sample_document)) = true.
Proof.
  destruct (Plan.read_profile (VDict (profile_members sample_document))) as [p|e] eqn:Hp;
    [|vm_compute in Hp; discriminate Hp].
  destruct (PlanText.read_components Plan.base Plan.normalize_v2_component (document_members sample_document)) as [items|e] eqn:Hi;
    [|vm_compute in Hi; discriminate Hi].
  exists p, items. split; [reflexivity|]. split; [reflexivity|]. split; [|vm_compute; reflexivity].
  exact (proj1 (proj2 (@assembled_references_resolve ascii_lib plain_repr Protocol.sample_json sample_files _ _ _ _ p
    sample_build_eq Hp) items Hi)).
Defined.
End Assemble.
