(* ===== verification/Build.v ===== *)
(** * Running the build scripts ([native/scripts])

    What both scripts do around their translation: the source file and its
    duplicate keys, the indented text the assembler writes, the output file
    replaced as a whole, and the exit codes of the two [main]s. *)

From Stdlib Require Import ZArith Floats.SpecFloat.
From S2P Require Export Assemble JsonText.

Module Build.
Import Json.

(** The output file and the temporary file beside it, as bytes. *)
Record Disk := { output : option (list N); temporary : option (list N) }.

(** The system calls of [write_atomic]. *)
Inductive step :=
| MakeParents | CreateTemporary | WriteTemporary | SyncTemporary | ChangeMode | ReplaceOutput | UnlinkTemporary.

(** Which of them fail, and what a write that fails leaves behind. *)
Class Faults := {
  fault : step -> option exn;
  torn : list N -> list N;
}.

(** How a script ends: with an exit code, or with an exception it does not
    catch. *)
Inductive ending := Exit (code : Z) | Crash (e : exn).

Definition exit_code (caught : exn -> bool) (r : py unit) : ending :=
  match r with
  | Ok _ => Exit 0
  | Raise e => if caught e then Exit 2 else Crash e
  end.

Section Build.
Context `{PyLib} `{PyRepr} `{JsonLib} `{Assemble.SourceFiles} `{Faults}.

(* ------------------------------------------------------------------ *)
(** ** The output file *)

Definition set_temporary (t : option (list N)) (d : Disk) : Disk := {| output := output d; temporary := t |}.

(** A system call, then the rest. *)
Definition guarded (s : step) (d : Disk) (rest : Disk * py unit) : Disk * py unit :=
  match fault s with Some e => (d, Raise e) | None => rest end.

(** [finally: temporary_path.unlink(missing_ok=True)] *)
Definition unlink (r : Disk * py unit) : Disk * py unit :=
  match fault UnlinkTemporary with
  | Some e => (r.1, Raise e)
  | None => (set_temporary None r.1, r.2)
  end.

(** Text that is not UTF-8 fails when it is written; a temporary file that was
    not written stays ([delete=False]). *)
Definition replace_output (content : pystr) (d : Disk) : Disk * py unit :=
  guarded CreateTemporary d (
  match utf8_encode content with
  | None => (set_temporary (Some []) d, Raise (Exn UnicodeEncodeError §"surrogates not allowed"))
  | Some bytes =>
      match fault WriteTemporary with
      | Some e => (set_temporary (Some (torn bytes)) d, Raise e)
      | None =>
          let d := set_temporary (Some bytes) d in
          guarded SyncTemporary d (unlink (
          guarded ChangeMode d (
          guarded ReplaceOutput d ({| output := Some bytes; temporary := None |}, Ok tt))))
      end
  end).

(** [write_atomic] of the compiler. *)
Definition write_atomic (content : pystr) (d : Disk) : Disk * py unit :=
  guarded MakeParents d (replace_output content d).

(* ------------------------------------------------------------------ *)
(** ** The assembler *)

Definition member_leb (x y : pystr * pyval) : bool := str_leb x.1 y.1.

(** [sort_keys=True] *)
Definition sorted_members : JsonText.ordering := py_sorted member_leb.

(** [json.dumps(v, ensure_ascii=False, indent=2, sort_keys=True)] *)
Definition dumps_indented (v : pyval) : py pystr := JsonText.dumps_indented escape_char sorted_members v.

(** [write_atomic] of the assembler, of a document. *)
Definition write_document (document : Assemble.document) (d : Disk) : Disk * py unit :=
  guarded MakeParents d (
  match (t ← dumps_indented (Assemble.document_value document); Ok (t ++ [10%N])) with
  | Raise e => (d, Raise e)
  | Ok content => replace_output content d
  end).

(** [except (OSError, AssemblyError, ValueError)] *)
Definition assembly_caught (e : exn) : bool := is_os_error (exn_type e) || is_value_error (exn_type e).

Definition assemble_main (profile : pystr) (package_roots commands : list pystr) (d : Disk) : Disk * ending :=
  match Assemble.build profile package_roots commands with
  | Raise e => (d, exit_code assembly_caught (Raise e))
  | Ok document => let '(d, r) := write_document document d in (d, exit_code assembly_caught r)
  end.

(* ------------------------------------------------------------------ *)
(** ** The compiler *)

Definition hook (pairs : list (pystr * pyval)) : py pyval := d ← Plan.object_no_duplicates pairs; Ok (VDict d).

(** [json.loads(raw.decode("utf-8"), object_pairs_hook=object_no_duplicates)] *)
Definition parse_source (raw : list N) : py pyval :=
  t ← ok_or (utf8_decode raw) (Exn UnicodeDecodeError []); loads_with hook t.

Definition load_json (path : ppath) : py pyval :=
  raw ← Assemble.read_bytes path;
  raise_if (negb ((1 <=? Protocol.size raw) && (Protocol.size raw <=? Z.to_N Plan.MAX_BYTES))%N)
    (Plan.plan_error §"source plan size must be 1..1048576 bytes");;
  reraise (fun e =>
      match exn_type e with
      | UnicodeDecodeError => Plan.plan_error §"source plan is not UTF-8"
      | JSONDecodeError => Plan.plan_error (§"invalid JSON: " ++ exn_msg e)
      | _ => e
      end) (parse_source raw).

(** [except (OSError, PlanError)] *)
Definition plan_caught (e : exn) : bool := is_os_error (exn_type e) || bool_decide (exn_type e = PlanError).

Inductive request := CheckOnly | ToStandardOutput | ToFile.

(** [--check] comes before [--output]. *)
Definition compile_request (check has_output : bool) : request :=
  if check then CheckOnly else if has_output then ToFile else ToStandardOutput.

(** The output file, what was printed, and how the compiler ends. *)
Definition compile_main (source : ppath) (check has_output : bool) (d : Disk) : Disk * pystr * ending :=
  match (document ← load_json source; PlanText.compile_document document) with
  | Raise e => (d, [], exit_code plan_caught (Raise e))
  | Ok result =>
      match compile_request check has_output with
      | CheckOnly => (d, §"native-lite plan: ok", Exit 0)
      | ToStandardOutput => (d, result, Exit 0)
      | ToFile => let '(d, r) := write_atomic result d in (d, [], exit_code plan_caught r)
      end
  end.
End Build.

(* ------------------------------------------------------------------ *)
(** ** The output is whole or untouched *)

Section Theorems.
Context {lib : PyLib} {reprs : PyRepr} {json : JsonLib} {files : Assemble.SourceFiles} {faults : Faults}.

(** Success leaves the text and nothing else; after a failure the file is the
    old one, unless only removing the temporary file failed. *)
Definition whole_or_untouched (bytes : option (list N)) (d : Disk) (r : Disk * py unit) : Prop :=
  match r with
  | (d', Ok _) => output d' = bytes /\ is_Some (output d') /\ temporary d' = None
  | (d', Raise _) => output d' = output d \/ output d' = bytes /\ is_Some (fault UnlinkTemporary)
  end.

Lemma guarded_whole bytes s d r : whole_or_untouched bytes d r -> whole_or_untouched bytes d (guarded s d r).
Proof. unfold guarded. destruct (fault s); [by left|done]. Qed.

Lemma replace_output_spec content d : whole_or_untouched (utf8_encode content) d (replace_output content d).
Proof.
  unfold replace_output. apply guarded_whole. destruct (utf8_encode content) as [bytes|]; [|by left].
  destruct (fault WriteTemporary); [by left|]. unfold guarded. destruct (fault SyncTemporary); [by left|]. unfold unlink.
  destruct (fault ChangeMode), (fault UnlinkTemporary) eqn:Hu; try by left.
  all: destruct (fault ReplaceOutput); try by left.
  - right. by rewrite Hu.
  - split_and!; [done|by eexists|done].
Qed.

Lemma exits_untouched (P : Prop) e d d1 d' ending : output d1 = output d ->
  (d1, exit_code assembly_caught (Raise e)) = (d', ending) ->
  (ending = Exit 0 -> P) /\
  (ending ≠ Exit 0 -> output d' = output d /\ (ending = Exit 2 \/ exists e, ending = Crash e /\ assembly_caught e = false)).
Proof. intros Ho. unfold exit_code. destruct (assembly_caught e) eqn:He; intros [= <- <-]; (split; [done|]); eauto. Qed.

Lemma hook_distinct d : dict_wf d -> hook d = Ok (VDict d).
Proof. intros Hd. unfold hook, Plan.object_no_duplicates. by rewrite (JsonText.distinct_members (fun k => Plan.plan_error (§"duplicate JSON key: " ++ k))). Qed.

Lemma sorted_members_perm d : sorted_members d ≡ₚ d.
Proof. apply py_sorted_perm. Qed.

(** What the assembler wrote, the compiler reads. *)
Lemma written_source_read profile package_roots commands document t bytes :
  (encode_depth < decode_depth)%nat -> Assemble.build profile package_roots commands = Ok document ->
  dumps_indented (Assemble.document_value document) = Ok t -> utf8_encode (t ++ [10%N]) = Some bytes ->
  exists v, JsonText.Arranged sorted_members (Assemble.document_value document) v /\ parse_source bytes = Ok v.
Proof.
  intros Hd Hb%Assemble.source_document_plain%JsonText.written_all Ht Hu.
  destruct (JsonText.loads_indented escape_char (fun _ => True) hook (fun s rest _ => scan_quoted s rest)
              sorted_members sorted_members_perm hook_distinct _ _ Hd Ht Hb) as (v & Ha & Hv).
  exists v. split; [done|]. unfold parse_source. by rewrite (utf8_decode_encode _ _ Hu).
Qed.

(** The assembler writes a whole source or none.  It ends with exit code 0
    exactly when the document was assembled and every step of writing it
    succeeded; then the output file is the text of that document, from which
    the compiler reads that same document with the members of its objects
    sorted, and no temporary file is left.  With any other ending the output file
    is as it was before. *)
Theorem assembler_writes_whole_source profile package_roots commands d d' ending :
  fault UnlinkTemporary = None ->
  assemble_main profile package_roots commands d = (d', ending) ->
  (ending = Exit 0 -> exists document t bytes,
     Assemble.build profile package_roots commands = Ok document /\
     dumps_indented (Assemble.document_value document) = Ok t /\
     utf8_encode (t ++ [10%N]) = Some bytes /\ output d' = Some bytes /\ temporary d' = None /\
     ((encode_depth < decode_depth)%nat -> exists v,
        JsonText.Arranged sorted_members (Assemble.document_value document) v /\ parse_source bytes = Ok v)) /\
  (ending ≠ Exit 0 -> output d' = output d /\
     (ending = Exit 2 \/ exists e, ending = Crash e /\ assembly_caught e = false)).
Proof.
  intros Hu. unfold assemble_main.
  destruct (Assemble.build profile package_roots commands) as [document|e] eqn:Hbuild; [|by apply exits_untouched].
  unfold write_document, guarded. destruct (fault MakeParents); [by apply exits_untouched|].
  destruct (dumps_indented (Assemble.document_value document)) as [t|e] eqn:Ht; cbn [rbind]; [|by apply exits_untouched].
  pose proof (replace_output_spec (t ++ [10%N]) d) as Hw. destruct (replace_output (t ++ [10%N]) d) as [d1 [[]|e]].
  - destruct Hw as (Ho & [bytes Hb] & Htmp). intros [= <- <-]. split; [|done]. intros _.
    exists document, t, bytes. rewrite Ho in Hb. rewrite Ho. split_and!; [done..|]. intros Hd. by eapply written_source_read.
  - destruct Hw as [Ho|(_ & ? & ?)]; [by apply exits_untouched|congruence].
Qed.

(** Checking and printing leave the output file alone; with an output file, exit
    code 0 means that it holds the compiled text of the source, and any other
    ending that it is as before. *)
Lemma compiler_endings source check has_output d d' printed ending :
  fault UnlinkTemporary = None ->
  compile_main source check has_output d = (d', printed, ending) ->
  (compile_request check has_output ≠ ToFile -> d' = d) /\
  (ending ≠ Exit 0 -> output d' = output d /\ printed = []) /\
  (ending = Exit 0 -> exists document text,
     load_json source = Ok document /\ PlanText.compile_document document = Ok text /\
     match compile_request check has_output with
     | CheckOnly => True
     | ToStandardOutput => printed = text
     | ToFile => output d' = utf8_encode text /\ is_Some (output d') /\ temporary d' = None
     end).
Proof.
  intros Hu. unfold compile_main. destruct (load_json source) as [document|e]; cbn [rbind].
  2: { unfold exit_code. destruct (plan_caught e); by intros [= <- <- <-]. }
  destruct (PlanText.compile_document document) as [text|e] eqn:Ht.
  2: { unfold exit_code. destruct (plan_caught e); by intros [= <- <- <-]. }
  destruct (compile_request check has_output).
  - intros [= <- <- <-]. split_and!; [done..|]. intros _. by exists document, text.
  - intros [= <- <- <-]. split_and!; [done..|]. intros _. by exists document, text.
  - pose proof (guarded_whole _ MakeParents _ _ (replace_output_spec text d)) as Hw. fold (write_atomic text d) in Hw.
    destruct (write_atomic text d) as [d1 [[]|e]]; cbn.
    + intros [= <- <- <-]. split_and!; [done..|]. intros _. by exists document, text.
    + destruct Hw as [Ho|(_ & ? & ?)]; [|congruence]. destruct (plan_caught e); by intros [= <- <- <-].
Qed.

(** A manifest with a null priority ends the assembler with an uncaught
    [TypeError], not with its message and exit code 2. *)
Lemma null_priority_crashes key role : exists e,
  Assemble.read_provide key (VDict [(§"role", role); (§"priority", VNone)]) = Raise e /\
  exn_type e = TypeError /\ assembly_caught e = false.
Proof. eexists. by split_and!. Qed.

(** An argument may name a file outside the package. *)
Lemma package_path_escapes root : Assemble.package_path §"@package//bin/sh" root = §"/bin/sh".
Proof. reflexivity. Qed.
End Theorems.

(* ------------------------------------------------------------------ *)
(** ** Witness *)

Definition sound_disk : Faults := {| fault _ := None; torn l := l |}.
Definition old_disk : Disk := {| output := Some [1%N]; temporary := None |}.

Lemma assembler_writes_whole_source_witness :
  let run := @assemble_main ascii_lib plain_repr Protocol.sample_json Assemble.sample_files sound_disk
               §"profile.json" [§"x=/opt/x"] [] old_disk in
  run.2 = Exit 0 /\ is_Some (output run.1) /\ temporary run.1 = None.
Proof.
  destruct (@assemble_main ascii_lib plain_repr Protocol.sample_json Assemble.sample_files sound_disk
               §"profile.json" [§"x=/opt/x"] [] old_disk) as [d' ending] eqn:Hrun.
  assert (ending = Exit 0) as Hend by (transitivity (snd (d', ending)); [done|]; rewrite <- Hrun; vm_compute; reflexivity).
  destruct (@assembler_writes_whole_source ascii_lib plain_repr Protocol.sample_json Assemble.sample_files sound_disk
              _ _ _ _ _ _ eq_refl Hrun) as [Hok _].
  destruct (Hok Hend) as (document & t & bytes & _ & _ & _ & Hout & Htmp & _). cbn. rewrite Hout. by split_and!.
Defined.
End Build.
