(* ===== verification/Grouping.v ===== *)
(** * Folding declarations into groups

    Both catalogs of the supervisor fold the [provides] of every component into
    a dictionary of dictionaries: by service or role, then by component.  A
    component that declares the same thing twice is merged into one entry. *)

From Stdlib Require Import ZArith.
From S2P Require Export PyStr.

Section Declared.
Context {G P D : Type} `{!EqDecision G} `{!EqDecision P}.

(** The declarations that fall under one group and one component. *)
Definition declared (g : G) (p : P) (es : list (G * P * D)) : list D :=
  omap (fun e => if decide (e.1 = (g, p)) then Some e.2 else None) es.

Lemma declared_elem g p es d : d ∈ declared g p es <-> (g, p, d) ∈ es.
Proof.
  unfold declared. rewrite list_elem_of_omap. split.
  - intros ([[g' p'] d'] & Hin & He). simpl in He. case_decide; [|done]. naive_solver.
  - intros Hin. exists (g, p, d). split; [done|]. simpl. by rewrite decide_True.
Qed.
End Declared.

Section Grouping.
Context {G P D : Type} `{!EqDecision G} `{!EqDecision P} (merge : D -> D -> D).

Definition merge_into (acc : option D) (d : D) : option D :=
  Some (match acc with None => d | Some previous => merge previous d end).

(** [per = m.setdefault(g, {}); per[p] = d if p not in per else merge(per[p], d)] *)
Definition group_add (m : dict G (dict P D)) (e : G * P * D) : dict G (dict P D) :=
  let '(g, p, d) := e in
  let per := dget_or m g [] in
  dset m g (dset per p (default d (merge_into (dget per p) d))).

Definition group_all (es : list (G * P * D)) : dict G (dict P D) := foldl group_add [] es.

Definition lookup2 (m : dict G (dict P D)) (g : G) (p : P) : option D :=
  dget m g ≫= fun per => dget per p.

Definition groups_wf (m : dict G (dict P D)) : Prop :=
  dict_wf m /\ forall g per, dget m g = Some per -> dict_wf per /\ per ≠ [].

Lemma dset_ne {K V} `{!EqDecision K} (d : dict K V) k v : dset d k v ≠ [].
Proof. destruct d as [|[??] ?]; simpl; [done|]. by case_decide. Qed.

Lemma group_add_wf m e : groups_wf m -> groups_wf (group_add m e).
Proof.
  destruct e as [[g p] d]. intros [Hm Hper]. unfold group_add. split; [by apply dset_wf|].
  intros g' per. rewrite dget_dset. case_decide; subst.
  - intros [= <-]. split; [|apply dset_ne]. apply dset_wf. unfold dget_or.
    destruct (dget m g) eqn:Hg; simpl; [by eapply Hper|constructor].
  - apply Hper.
Qed.

Lemma group_all_wf es : groups_wf (group_all es).
Proof.
  unfold group_all. assert (groups_wf []) as H0 by (split; [constructor|done]).
  revert H0. generalize (@nil (G * dict P D)) as m.
  induction es as [|e es IH]; intros m Hm; simpl; [done|]. by apply IH, group_add_wf.
Qed.

Lemma lookup2_add m e g p :
  lookup2 (group_add m e) g p =
    if decide (e.1 = (g, p)) then merge_into (lookup2 m g p) e.2 else lookup2 m g p.
Proof.
  destruct e as [[g' p'] d]. unfold lookup2, group_add. simpl. rewrite dget_dset.
  destruct (decide (g = g')) as [->|Hg]; simpl.
  - rewrite dget_dset. unfold dget_or.
    destruct (decide (p = p')) as [->|Hp].
    + rewrite decide_True by done. by destruct (dget m g'); simpl.
    + rewrite decide_False by congruence. by destruct (dget m g').
  - by rewrite decide_False by congruence.
Qed.

(** The entry of a component in a group is the merge of its declarations. *)
Lemma lookup2_group_all es g p :
  lookup2 (group_all es) g p = foldl merge_into None (declared g p es).
Proof.
  unfold group_all. change None with (lookup2 [] g p) at 1.
  generalize (@nil (G * dict P D)) as m.
  induction es as [|e es IH]; intros m; simpl; [done|].
  rewrite IH, lookup2_add. case_decide; done.
Qed.

Lemma merge_None ds : foldl merge_into None ds = None <-> ds = [].
Proof.
  split; [|by intros ->]. destruct ds as [|d ds]; [done|]. simpl.
  assert (forall l a, foldl merge_into (Some a) l ≠ None) as Hs.
  { induction l as [|x l IH]; intros a; simpl; [done|]. apply IH. }
  intros H. by apply Hs in H.
Qed.

Lemma group_all_keys es g : is_Some (dget (group_all es) g) <-> exists p d, (g, p, d) ∈ es.
Proof.
  assert (forall per, dget (group_all es) g = Some per -> exists p d, (g, p, d) ∈ es) as Hfwd.
  { intros per Hper. destruct (group_all_wf es) as [_ Hwf]. destruct (Hwf g per Hper) as [_ Hne].
    destruct per as [|[p d] per]; [done|].
    assert (lookup2 (group_all es) g p = Some d) as Hl.
    { unfold lookup2. rewrite Hper. simpl. by rewrite decide_True. }
    rewrite lookup2_group_all in Hl. destruct (declared g p es) as [|d0 ds] eqn:Hd; [done|].
    exists p, d0. apply declared_elem. rewrite Hd. set_solver. }
  split; [intros [per Hper]; by eapply Hfwd|].
  intros (p & d & Hin). apply declared_elem in Hin.
  destruct (dget (group_all es) g) as [per|] eqn:Hg; [done|exfalso].
  assert (lookup2 (group_all es) g p = None) as Hl by (unfold lookup2; by rewrite Hg).
  rewrite lookup2_group_all, merge_None in Hl. rewrite Hl in Hin. by apply not_elem_of_nil in Hin.
Qed.
End Grouping.

(* ------------------------------------------------------------------ *)
(** ** Merging priorities and exclusivity *)

(** The highest priority wins, while exclusivity is strict. *)
Definition strongest (l : list (Z * bool)) (r : Z * bool) : Prop :=
  (forall x, x ∈ l -> (x.1 <= r.1)%Z) /\ (exists x, x ∈ l /\ x.1 = r.1) /\
  (r.2 = true <-> exists x, x ∈ l /\ x.2 = true).

(** Only the set of declarations matters. *)
Lemma strongest_proper l1 l2 r : (forall x, x ∈ l1 <-> x ∈ l2) -> strongest l1 r -> strongest l2 r.
Proof. unfold strongest. intros Hl. setoid_rewrite Hl. done. Qed.

Lemma strongest_merge {D} (measure : D -> Z * bool) (merge : D -> D -> D) ds r :
  (forall a b, measure (merge a b) =
     (Z.max (measure a).1 (measure b).1, (measure a).2 || (measure b).2)) ->
  foldl (merge_into merge) None ds = Some r -> strongest (measure <$> ds) (measure r).
Proof.
  intros Hm. destruct ds as [|d ds]; [done|]. simpl.
  enough (forall l seen a, strongest seen (measure a) ->
            foldl (merge_into merge) (Some a) l = Some r ->
            strongest (seen ++ (measure <$> l)) (measure r)) as Hgen.
  { intros Hf. apply (Hgen ds [measure d] d); [|exact Hf]. unfold strongest. set_solver. }
  clear d ds. induction l as [|x l IH]; intros seen a Ha; simpl.
  - intros [= ->]. by rewrite app_nil_r.
  - intros Hf. rewrite cons_middle, app_assoc. eapply IH; [|exact Hf].
    destruct Ha as (Hle & (y & Hy & Hmax) & Hex). unfold strongest. rewrite Hm. simpl. split_and!.
    + intros z. rewrite elem_of_app, list_elem_of_singleton. intros [Hz| ->]; [|lia].
      specialize (Hle z Hz). lia.
    + destruct (Z.max_spec (measure a).1 (measure x).1) as [[_ ->]|[_ ->]];
        [exists (measure x)|exists y]; set_solver.
    + rewrite orb_true_iff, Hex. setoid_rewrite elem_of_app. setoid_rewrite list_elem_of_singleton.
      naive_solver.
Qed.
