(* ===== verification/Services.v ===== *)
(** * Interface and capability discovery ([msys_core/services.py])

    The catalog of callable interfaces and discoverable capabilities, built
    from the component manifests and ordered by priority, then component id. *)

From Stdlib Require Import ZArith.
From S2P Require Export Grouping Manifest.

Module Services.

Definition SERVICE_KINDS : list pystr := [§"interface"; §"capability"].

Record ServiceProvider := {
  kind : pystr;
  name : pystr;
  component : pystr;
  priority : Z;
  exclusive : bool;
}.

#[export] Instance provider_eq_dec : EqDecision ServiceProvider.
Proof. solve_decision. Defined.

Record ServiceCatalog := {
  components : dict pystr Manifest.Component;
  services : dict (pystr * pystr) (list ServiceProvider);
}.

Definition candidate_of (component_id : pystr) (p : Manifest.Provide) : ServiceProvider :=
  {| kind := Manifest.kind p; name := Manifest.name p; component := component_id;
     priority := Manifest.priority p; exclusive := Manifest.exclusive p |}.

Definition merge_providers (previous candidate : ServiceProvider) : ServiceProvider :=
  {| kind := kind candidate; name := name candidate; component := component candidate;
     priority := Z.max (priority previous) (priority candidate);
     exclusive := exclusive previous || exclusive candidate |}.

(** The service declarations of all components, in iteration order. *)
Definition service_entries (components : dict pystr Manifest.Component)
    : list ((pystr * pystr) * pystr * ServiceProvider) :=
  components ≫= fun '(component_id, c) =>
    (fun p => ((Manifest.kind p, Manifest.name p), component_id, candidate_of component_id p))
    <$> List.filter (fun p => bool_decide (Manifest.kind p ∈ SERVICE_KINDS)) (Manifest.provides c).

(** [key=lambda item: (-item.priority, item.component)] *)
Definition provider_leb (a b : ServiceProvider) : bool :=
  (priority b <? priority a)%Z
  || ((priority a =? priority b)%Z && str_leb (component a) (component b)).

Definition _build (components : dict pystr Manifest.Component)
    : dict (pystr * pystr) (list ServiceProvider) :=
  let folded := group_all merge_providers (service_entries components) in
  prod_map id (fun providers => py_sorted provider_leb (dvalues providers)) <$> folded.

Definition make (components : dict pystr Manifest.Component) : ServiceCatalog :=
  {| components := components; services := _build components |}.

Definition _checked_kind (kind : pystr) : py pystr :=
  if bool_decide (kind ∈ SERVICE_KINDS) then Ok kind
  else Raise (Exn ValueError (§"unsupported service kind: " ++ kind)).

Definition service_key_leb (a b : pystr * pystr) : bool :=
  if bool_decide (a.1 = b.1) then str_leb a.2 b.2 else str_leb a.1 b.1.

Definition names (cat : ServiceCatalog) (kind : pystr) : py (list pystr) :=
  checked ← _checked_kind kind;
  Ok ((fun k => k.2) <$>
        List.filter (fun k => bool_decide (k.1 = checked))
          (py_sorted service_key_leb (dkeys (services cat)))).

Definition providers (cat : ServiceCatalog) (kind name : pystr) : py (list ServiceProvider) :=
  checked ← _checked_kind kind;
  ok_or (dget (services cat) (checked, name))
    (Exn UnknownServiceError (checked ++ §":" ++ name)).

Definition provider_ids (cat : ServiceCatalog) (kind name : pystr) : py (list pystr) :=
  ps ← providers cat kind name; Ok (component <$> ps).

Definition get_provider (cat : ServiceCatalog) (kind name : pystr) (c : option pystr)
    : py ServiceProvider :=
  ps ← providers cat kind name;
  match c with
  | None => ok_or (head ps) (Exn LookupError §"tuple index out of range")
  | Some c =>
      ok_or (find_first (fun p => bool_decide (component p = c)) ps)
        (Exn UnknownServiceProviderError
           (c ++ §" does not provide " ++ kind ++ §":" ++ name))
  end.

Definition entries (cat : ServiceCatalog) (kind : option pystr) : py (list ServiceProvider) :=
  checked ← match kind with
            | Some k => k ← _checked_kind k; Ok (Some k)
            | None => Ok None
            end;
  Ok (py_sorted (fun a b => service_key_leb a.1 b.1) (services cat) ≫= fun '(k, ps) =>
        if bool_decide (checked = None) || bool_decide (checked = Some k.1) then ps else []).

(* ------------------------------------------------------------------ *)
(** ** The order of providers *)

Lemma provider_leb_spec a b :
  provider_leb a b = true <->
  (priority b < priority a)%Z \/ (priority a = priority b /\ str_leb (component a) (component b) = true).
Proof. unfold provider_leb. rewrite orb_true_iff, andb_true_iff, Z.ltb_lt, Z.eqb_eq. done. Qed.

Lemma provider_leb_total a b : provider_leb a b = true \/ provider_leb b a = true.
Proof.
  rewrite !provider_leb_spec.
  destruct (Z.lt_trichotomy (priority a) (priority b)) as [?|[?|?]],
    (str_leb_total (component a) (component b)); auto 10.
Qed.

Lemma provider_leb_trans a b c :
  provider_leb a b = true -> provider_leb b c = true -> provider_leb a c = true.
Proof.
  rewrite !provider_leb_spec. intros [?|[? H1]] [?|[? H2]]; [lia..|].
  right. split; [lia|]. by eapply str_leb_trans.
Qed.

(** ** What the catalog holds *)

(** The provides of a component for one service. *)
Definition matching (c : Manifest.Component) (k n : pystr) : list Manifest.Provide :=
  List.filter (fun p => bool_decide (Manifest.kind p = k) && bool_decide (Manifest.name p = n))
    (Manifest.provides c).

Definition measure (p : ServiceProvider) : Z * bool := (priority p, exclusive p).

Lemma service_entries_elem cs k n cid sp :
  ((k, n), cid, sp) ∈ service_entries cs <->
  k ∈ SERVICE_KINDS /\ exists c p, (cid, c) ∈ cs /\ p ∈ Manifest.provides c /\
    Manifest.kind p = k /\ Manifest.name p = n /\ sp = candidate_of cid p.
Proof.
  unfold service_entries. rewrite list_elem_of_bind. split.
  - intros ([cid' c] & Hin & Hc). apply list_elem_of_fmap in Hin as (p & [= -> -> -> ->] & Hp).
    apply list_elem_of_In, filter_In in Hp as [Hp Hk]. apply bool_decide_eq_true in Hk.
    split; [done|]. exists c, p. split_and!; [done|by apply list_elem_of_In|done..].
  - intros (Hk & c & p & Hc & Hp & <- & <- & ->). exists (cid, c). split; [|done].
    apply list_elem_of_fmap. exists p. split; [done|].
    apply list_elem_of_In, filter_In. split; [by apply list_elem_of_In|].
    by apply bool_decide_eq_true.
Qed.

(** An entry of the folded catalog, measured by its component's declarations. *)
Lemma folded_entry cs k n cid sp :
  dict_wf cs ->
  lookup2 (group_all merge_providers (service_entries cs)) (k, n) cid = Some sp ->
  k ∈ SERVICE_KINDS /\ component sp = cid /\ kind sp = k /\ name sp = n /\
  exists c, dget cs cid = Some c /\
    strongest ((fun p => (Manifest.priority p, Manifest.exclusive p)) <$> matching c k n) (measure sp).
Proof.
  intros Hwf Hl. rewrite lookup2_group_all in Hl.
  pose proof (strongest_merge measure merge_providers _ _ (fun a b => eq_refl) Hl) as Hs.
  assert (forall l a, (forall d, d ∈ l -> component d = cid /\ kind d = k /\ name d = n) ->
            (forall x, a = Some x -> component x = cid /\ kind x = k /\ name x = n) ->
            forall r, foldl (merge_into merge_providers) a l = Some r ->
            component r = cid /\ kind r = k /\ name r = n) as Hid.
  { induction l as [|d l IH]; intros a Hd Ha r; simpl; [intros; by apply Ha|].
    apply IH; [set_solver|]. intros x Hx. destruct a as [a|]; injection Hx as <-;
      specialize (Hd d ltac:(set_solver)); done. }
  assert (forall d, d ∈ declared (k, n) cid (service_entries cs) <->
            k ∈ SERVICE_KINDS /\ exists c p, (cid, c) ∈ cs /\ p ∈ Manifest.provides c /\
            Manifest.kind p = k /\ Manifest.name p = n /\ d = candidate_of cid p) as Hdecl.
  { intros d. rewrite declared_elem. apply service_entries_elem. }
  destruct (declared (k, n) cid (service_entries cs)) as [|d0 ds] eqn:Hds; [done|].
  destruct (proj1 (Hdecl d0) ltac:(set_solver)) as (Hk & c & _ & Hc & _).
  apply elem_dget in Hc; [|done].
  destruct (Hid (d0 :: ds) None) with (r := sp) as (? & ? & ?); [|done|exact Hl|].
  { intros d (_ & ? & p & _ & _ & ? & ? & ->)%Hdecl. done. }
  split_and!; [done..|]. exists c. split; [done|].
  eapply (strongest_proper _ _ _); [|exact Hs].
  intros x. rewrite !list_elem_of_fmap. split.
  - intros (d & -> & (_ & c' & p & Hc' & Hp & ? & ? & ->)%Hdecl).
    apply elem_dget in Hc'; [|done]. assert (c' = c) as -> by congruence. exists p.
    split; [done|]. apply list_elem_of_In, filter_In. split; [by apply list_elem_of_In|].
    rewrite andb_true_iff, !bool_decide_eq_true. done.
  - intros (p & -> & Hp). apply list_elem_of_In, filter_In in Hp as [Hp%list_elem_of_In Hb].
    rewrite andb_true_iff, !bool_decide_eq_true in Hb. destruct Hb. exists (candidate_of cid p).
    split; [done|]. apply Hdecl. split; [done|]. exists c, p. rewrite elem_dget by done. done.
Qed.

Lemma services_lookup cs k n :
  dget (services (make cs)) (k, n) =
    (fun per => py_sorted provider_leb (dvalues per)) <$>
      dget (group_all merge_providers (service_entries cs)) (k, n).
Proof. unfold make, _build. cbn [services]. apply dget_fmap. Qed.

(** The providers of a service, read off the folded catalog. *)
Lemma providers_elem cs k n ps sp :
  dict_wf cs -> dget (services (make cs)) (k, n) = Some ps ->
  sp ∈ ps <-> lookup2 (group_all merge_providers (service_entries cs)) (k, n) (component sp) = Some sp.
Proof.
  intros Hwf. rewrite services_lookup, fmap_Some. intros (per & Hper & ->).
  destruct (group_all_wf merge_providers (service_entries cs)) as [_ Hin].
  destruct (Hin _ _ Hper) as [Hwfp _].
  rewrite py_sorted_elem. unfold dvalues, lookup2. rewrite Hper. simpl.
  rewrite list_elem_of_fmap. split.
  - intros ([cid sp'] & -> & Hc). apply elem_dget in Hc; [|done]. simpl.
    assert (lookup2 (group_all merge_providers (service_entries cs)) (k, n) cid = Some sp') as Hl
      by (unfold lookup2; by rewrite Hper).
    destruct (folded_entry cs k n cid sp' Hwf Hl) as (_ & -> & _). done.
  - intros Hd. exists (component sp, sp). split; [done|]. by apply elem_dget.
Qed.

Lemma providers_NoDup cs k n ps :
  dict_wf cs -> dget (services (make cs)) (k, n) = Some ps -> NoDup (component <$> ps).
Proof.
  intros Hwf. rewrite services_lookup, fmap_Some. intros (per & Hper & ->).
  destruct (group_all_wf merge_providers (service_entries cs)) as [_ Hin].
  destruct (Hin _ _ Hper) as [Hwfp _].
  rewrite (py_sorted_perm provider_leb (dvalues per)).
  replace (component <$> dvalues per) with (dkeys per); [done|].
  unfold dkeys, dvalues. rewrite <- list_fmap_compose. apply list_fmap_ext.
  intros i [cid sp] Hi. simpl. apply list_elem_of_lookup_2, elem_dget in Hi; [|done].
  assert (lookup2 (group_all merge_providers (service_entries cs)) (k, n) cid = Some sp) as Hl
    by (unfold lookup2; by rewrite Hper).
  by destruct (folded_entry cs k n cid sp Hwf Hl) as (_ & -> & _).
Qed.

Lemma services_keys cs k n :
  dict_wf cs ->
  is_Some (dget (services (make cs)) (k, n)) <->
  k ∈ SERVICE_KINDS /\ exists cid c, dget cs cid = Some c /\ matching c k n ≠ [].
Proof.
  intros Hwf. rewrite services_lookup, fmap_is_Some, group_all_keys.
  setoid_rewrite service_entries_elem. split.
  - intros (cid & sp & Hk & c & p & Hc & Hp & <- & <- & ->). split; [done|].
    exists cid, c. split; [by apply elem_dget|]. intros Hm.
    assert (p ∈ matching c (Manifest.kind p) (Manifest.name p)) as Hin.
    { apply list_elem_of_In, filter_In. split; [by apply list_elem_of_In|].
      by rewrite !bool_decide_eq_true_2. }
    rewrite Hm in Hin. by apply not_elem_of_nil in Hin.
  - intros (Hk & cid & c & Hc & Hm). destruct (matching c k n) as [|p ms] eqn:Hms; [done|].
    assert (p ∈ matching c k n) as Hin by (rewrite Hms; set_solver).
    apply list_elem_of_In, filter_In in Hin as [Hp%list_elem_of_In Hb].
    rewrite andb_true_iff, !bool_decide_eq_true in Hb. destruct Hb.
    exists cid, (candidate_of cid p). split; [done|]. exists c, p.
    split_and!; [by apply elem_dget|done..].
Qed.

Lemma providers_complete cs k n ps cid c :
  dict_wf cs -> dget (services (make cs)) (k, n) = Some ps ->
  dget cs cid = Some c -> matching c k n ≠ [] -> cid ∈ component <$> ps.
Proof.
  intros Hwf Hps Hc Hm. assert (k ∈ SERVICE_KINDS) as Hk.
  { apply (services_keys cs k n Hwf). by rewrite Hps. }
  destruct (lookup2 (group_all merge_providers (service_entries cs)) (k, n) cid) as [sp|] eqn:Hl.
  - destruct (folded_entry cs k n cid sp Hwf Hl) as (_ & <- & _).
    apply list_elem_of_fmap. exists sp. split; [done|]. by rewrite providers_elem.
  - rewrite lookup2_group_all, merge_None in Hl. exfalso.
    destruct (matching c k n) as [|p ms] eqn:Hms; [done|].
    assert (p ∈ matching c k n) as Hin by (rewrite Hms; set_solver).
    apply list_elem_of_In, filter_In in Hin as [Hp%list_elem_of_In Hb].
    rewrite andb_true_iff, !bool_decide_eq_true in Hb. destruct Hb.
    assert (candidate_of cid p ∈ declared (k, n) cid (service_entries cs)) as Hd.
    { apply declared_elem, service_entries_elem. split; [done|]. exists c, p.
      split_and!; [by apply elem_dget|done..]. }
    rewrite Hl in Hd. by apply not_elem_of_nil in Hd.
Qed.

(** What [strongest] determines. *)
Lemma strongest_unique l r1 r2 : strongest l r1 -> strongest l r2 -> r1 = r2.
Proof.
  intros (L1 & (x1 & X1 & E1) & B1) (L2 & (x2 & X2 & E2) & B2).
  destruct r1 as [z1 b1], r2 as [z2 b2]. simpl in *. f_equal.
  - specialize (L1 x2 X2). specialize (L2 x1 X1). lia.
  - apply eq_true_iff_eq. by rewrite B1, B2.
Qed.

Lemma provider_ext a b :
  component a = component b -> kind a = kind b -> name a = name b -> measure a = measure b -> a = b.
Proof. destruct a, b. unfold measure. simpl. intros -> -> -> [= -> ->]. done. Qed.

(* ------------------------------------------------------------------ *)
(** ** Properties *)

(** [providers] lists exactly the components that declare the service, each
    once, by descending priority and then component id; each entry carries the
    highest declared priority and is exclusive when any declaration is.  The
    lookup fails with [UnknownServiceError] exactly when nobody declares it. *)
Theorem providers_correct cs k n :
  dict_wf cs -> k ∈ SERVICE_KINDS ->
  match providers (make cs) k n with
  | Ok ps =>
      ps ≠ [] /\ sorted_by provider_leb ps /\ NoDup (component <$> ps) /\
      (forall cid, cid ∈ component <$> ps <-> exists c, dget cs cid = Some c /\ matching c k n ≠ []) /\
      (forall sp, sp ∈ ps -> kind sp = k /\ name sp = n /\
         exists c, dget cs (component sp) = Some c /\
         strongest ((fun p => (Manifest.priority p, Manifest.exclusive p)) <$> matching c k n) (measure sp))
  | Raise e =>
      exn_type e = UnknownServiceError /\
      forall cid c, dget cs cid = Some c -> matching c k n = []
  end.
Proof.
  intros Hwf Hk. unfold providers, _checked_kind. rewrite bool_decide_eq_true_2 by done. cbn [rbind].
  destruct (dget (services (make cs)) (k, n)) as [ps|] eqn:Hps; cbn [ok_or].
  - assert (is_Some (dget (services (make cs)) (k, n))) as Hsome by (by rewrite Hps).
    apply services_keys in Hsome as (_ & cid0 & c0 & Hc0 & Hm0); [|done].
    assert (forall sp, sp ∈ ps -> kind sp = k /\ name sp = n /\
         exists c, dget cs (component sp) = Some c /\
         strongest ((fun p => (Manifest.priority p, Manifest.exclusive p)) <$> matching c k n) (measure sp))
      as Hall.
    { intros sp Hsp. rewrite providers_elem in Hsp by done.
      destruct (folded_entry cs k n _ sp Hwf Hsp) as (_ & _ & ? & ? & ?). done. }
    split; [|split; [|split; [by eapply providers_NoDup|split; [|exact Hall]]]].
    + intros ->. pose proof (providers_complete cs k n [] cid0 c0 Hwf Hps Hc0 Hm0). set_solver.
    + rewrite services_lookup, fmap_Some in Hps. destruct Hps as (per & _ & ->).
      apply py_sorted_sorted; [apply provider_leb_total|apply provider_leb_trans].
    + intros cid. split; [|intros (c & ? & ?); by eapply providers_complete].
      intros (sp & -> & (_ & _ & c & Hc & _ & (x & Hx & _) & _)%Hall)%list_elem_of_fmap.
      exists c. split; [done|]. intros Hm. rewrite Hm in Hx. by apply not_elem_of_nil in Hx.
  - split; [done|]. intros cid c Hc. destruct (matching c k n) eqn:Hm; [done|exfalso].
    assert (is_Some (dget (services (make cs)) (k, n))) as [? Hs]; [|congruence].
    apply services_keys; [done|]. split; [done|]. exists cid, c. by rewrite Hm.
Qed.

(** Discovery is deterministic: two catalogs with the same components, in
    whatever order the manifests were read, answer every lookup identically. *)
Theorem providers_order_independent cs1 cs2 k n :
  dict_wf cs1 -> cs1 ≡ₚ cs2 -> providers (make cs1) k n = providers (make cs2) k n.
Proof.
  intros Hwf1 Hp. assert (dict_wf cs2) as Hwf2.
  { unfold dict_wf, dkeys. by rewrite <- Hp. }
  assert (forall cid, dget cs1 cid = dget cs2 cid) as Hget.
  { intros cid. apply option_eq. intros c. rewrite <- !elem_dget by done. by rewrite Hp. }
  unfold providers, _checked_kind. case_bool_decide as Hk; [|done]. cbn [rbind].
  destruct (dget (services (make cs1)) (k, n)) as [ps1|] eqn:H1,
           (dget (services (make cs2)) (k, n)) as [ps2|] eqn:H2; [| | |done].
  - cbn [ok_or]. f_equal. assert (forall sp, sp ∈ ps1 <-> sp ∈ ps2) as Hset.
    { assert (forall csa csb psa psb, dict_wf csa -> dict_wf csb ->
        (forall cid, dget csa cid = dget csb cid) ->
        dget (services (make csa)) (k, n) = Some psa -> dget (services (make csb)) (k, n) = Some psb ->
        forall sp, sp ∈ psa -> sp ∈ psb) as Hhalf.
      { intros csa csb psa psb Wa Wb Hab Ha Hb sp Hsp. rewrite (providers_elem csa) in Hsp by done.
        destruct (folded_entry csa k n _ sp Wa Hsp) as (_ & _ & Hkd & Hnm & c & Hc & Hst).
        assert (component sp ∈ component <$> psb) as Hin.
        { eapply (providers_complete csb); [done|done|by rewrite <- Hab|].
          intros Hm. destruct Hst as (_ & (x & Hx & _) & _). rewrite Hm in Hx.
          by apply not_elem_of_nil in Hx. }
        apply list_elem_of_fmap in Hin as (sp' & Heq & Hsp').
        assert (sp = sp') as ->; [|done].
        rewrite (providers_elem csb) in Hsp' by done.
        destruct (folded_entry csb k n _ sp' Wb Hsp') as (_ & _ & ? & ? & c' & Hc' & Hst').
        rewrite <- Heq, <- Hab, Hc in Hc'. injection Hc' as <-.
        apply provider_ext; [done|congruence..|]. by eapply strongest_unique. }
      assert (forall cid, dget cs2 cid = dget cs1 cid) as Hget' by (intros; by rewrite Hget).
      intros sp. split; eauto. }
    pose proof (providers_NoDup cs1 k n ps1 Hwf1 H1) as N1.
    pose proof (providers_NoDup cs2 k n ps2 Hwf2 H2) as N2.
    apply (sorted_by_unique provider_leb provider_leb_total provider_leb_trans).
    + intros x y Hx Hy Hxy Hyx. apply provider_leb_spec in Hxy, Hyx.
      assert (component x = component y) as Heq.
      { destruct Hxy as [?|[? Hxy]], Hyx as [?|[? Hyx]]; [lia..|]. by apply str_leb_antisym. }
      rewrite (providers_elem cs1 k n ps1) in Hx, Hy by done. rewrite Heq in Hx. congruence.
    + rewrite services_lookup, fmap_Some in H1. destruct H1 as (per & _ & ->).
      apply py_sorted_sorted; [apply provider_leb_total|apply provider_leb_trans].
    + rewrite services_lookup, fmap_Some in H2. destruct H2 as (per & _ & ->).
      apply py_sorted_sorted; [apply provider_leb_total|apply provider_leb_trans].
    + apply NoDup_Permutation; [by eapply NoDup_fmap_1|by eapply NoDup_fmap_1|done].
  - assert (is_Some (dget (services (make cs2)) (k, n))) as [? ?]; [|congruence].
    apply services_keys; [done|]. setoid_rewrite <- Hget. apply services_keys; [done|]. by rewrite H1.
  - assert (is_Some (dget (services (make cs1)) (k, n))) as [? ?]; [|congruence].
    apply services_keys; [done|]. setoid_rewrite Hget. apply services_keys; [done|]. by rewrite H2.
Qed.

(* ------------------------------------------------------------------ *)
(** ** Witnesses *)

Definition sample_interface (prio : Z) : Manifest.Provide :=
  {| Manifest.kind := §"interface"; Manifest.name := §"org.demo.hal"; Manifest.priority := prio;
     Manifest.exclusive := false |}.

Definition sample_components : dict pystr Manifest.Component :=
  [(§"a.b:hal", Manifest.sample_provider §"a.b" §"hal" [sample_interface 1; sample_interface 4]);
   (§"c.d:hal", Manifest.sample_provider §"c.d" §"hal" [sample_interface 9])].

Lemma sample_components_wf : dict_wf sample_components.
Proof. apply (bool_decide_unpack _). vm_compute. exact I. Qed.

Lemma providers_correct_witness :
  provider_ids (make sample_components) §"interface" §"org.demo.hal" = Ok [§"c.d:hal"; §"a.b:hal"] /\
  exists ps, providers (make sample_components) §"interface" §"org.demo.hal" = Ok ps /\ ps ≠ [].
Proof.
  split; [vm_compute; reflexivity|].
  pose proof (providers_correct sample_components §"interface" §"org.demo.hal" sample_components_wf) as Hp.
  destruct (providers _ _ _) as [ps|e] eqn:Hps in *; [|vm_compute in Hps; discriminate Hps].
  exists ps. split; [reflexivity|]. apply Hp. apply (bool_decide_unpack _). vm_compute. exact I.
Defined.

Lemma providers_order_independent_witness :
  providers (make sample_components) §"interface" §"org.demo.hal" =
  providers (make (reverse sample_components)) §"interface" §"org.demo.hal".
Proof.
  apply (providers_order_independent sample_components (reverse sample_components)).
  - exact sample_components_wf.
  - symmetry. apply reverse_Permutation.
Defined.
End Services.
