(* ===== verification/Roles.v ===== *)
(** * Role candidates, preferences and leases ([msys_core/roles.py])

    A role is a replaceable system job.  The registry orders the components
    that may fill each role, remembers an explicit selection and tracks the
    leases of the providers that fill it now. *)

From Stdlib Require Import ZArith.
From S2P Require Export Grouping Manifest.

Module Roles.

Record RoleCandidate := {
  role : pystr;
  provider_id : pystr;
  priority : Z;
  exclusive : bool;
  profile_rank : option nat;
  declared_role : bool;
}.

#[export] Instance candidate_eq_dec : EqDecision RoleCandidate.
Proof. solve_decision. Defined.

(** [RoleCandidate.explicit] *)
Definition explicit (c : RoleCandidate) : bool := bool_decide (is_Some (profile_rank c)).

Record RoleLease := {
  token : Z;
  lease_role : pystr;
  lease_provider : pystr;
  holder : option pystr;
}.

#[export] Instance lease_eq_dec : EqDecision RoleLease.
Proof. solve_decision. Defined.

Record RoleState := { candidates : list RoleCandidate; state_exclusive : bool }.

Record RoleInfo := {
  info_name : pystr;
  info_exclusive : bool;
  info_candidates : list RoleCandidate;
  info_preferred : option pystr;
  info_active : option pystr;
  info_active_providers : list pystr;
  lease_count : nat;
}.

Record RoleRegistry := {
  _components : dict pystr Manifest.Component;
  _profile_roles : dict pystr pyval;
  _disabled_roles : list pystr;
  _roles : dict pystr RoleState;
  _preferred : dict pystr pystr;
  _leases : dict Z RoleLease;
  _role_leases : dict pystr (list Z);
  _next_lease_token : Z;
}.

Definition with_preferred (r : RoleRegistry) (p : dict pystr pystr) : RoleRegistry :=
  {| _components := _components r; _profile_roles := _profile_roles r;
     _disabled_roles := _disabled_roles r; _roles := _roles r; _preferred := p;
     _leases := _leases r; _role_leases := _role_leases r;
     _next_lease_token := _next_lease_token r |}.

Definition with_leases (r : RoleRegistry) (l : dict Z RoleLease) (rl : dict pystr (list Z))
    (next : Z) : RoleRegistry :=
  {| _components := _components r; _profile_roles := _profile_roles r;
     _disabled_roles := _disabled_roles r; _roles := _roles r; _preferred := _preferred r;
     _leases := l; _role_leases := rl; _next_lease_token := next |}.

Definition UnknownRole (r : pystr) : exn := Exn UnknownRoleError r.

(* ------------------------------------------------------------------ *)
(** ** Building the catalog *)

(** The role declarations of all components, disabled roles left out. *)
Definition role_entries (components : dict pystr Manifest.Component) (disabled : list pystr)
    : list (pystr * pystr * (Z * bool)) :=
  components ≫= fun '(provider_id, c) =>
    (fun p => (Manifest.name p, provider_id, (Manifest.priority p, Manifest.exclusive p)))
    <$> List.filter (fun p => bool_decide (Manifest.kind p = §"role")
                              && negb (bool_decide (Manifest.name p ∈ disabled)))
          (Manifest.provides c).

Definition merge_decl (a b : Z * bool) : Z * bool := (Z.max a.1 b.1, a.2 || b.2).

Definition declared_roles (components : dict pystr Manifest.Component) (disabled : list pystr)
    : dict pystr (dict pystr (Z * bool)) :=
  group_all merge_decl (role_entries components disabled).

(** The candidates the profile names, with their rank; unknown components and
    repetitions are skipped. *)
Fixpoint explicit_candidates (components : dict pystr Manifest.Component)
    (metadata : dict pystr (Z * bool)) (role : pystr) (rank : nat) (seen ids : list pystr)
    : list RoleCandidate :=
  match ids with
  | [] => []
  | provider_id :: ids =>
      if bool_decide (provider_id ∈ seen) || negb (dhas components provider_id)
      then explicit_candidates components metadata role (S rank) seen ids
      else
        let provided := dget metadata provider_id in
        {| role := role; provider_id := provider_id;
           priority := match provided with Some p => p.1 | None => 0 end;
           exclusive := match provided with Some p => p.2 | None => true end;
           profile_rank := Some rank;
           declared_role := bool_decide (is_Some provided) |}
        :: explicit_candidates components metadata role (S rank) (provider_id :: seen) ids
  end.

(** [key=lambda item: (-item[1], item[0])] *)
Definition remaining_leb (a b : pystr * (Z * bool)) : bool :=
  (b.2.1 <? a.2.1)%Z || ((a.2.1 =? b.2.1)%Z && str_leb a.1 b.1).

Definition discovered_candidates (metadata : dict pystr (Z * bool)) (role : pystr)
    (seen : list pystr) : list RoleCandidate :=
  let remaining := List.filter (fun p => negb (bool_decide (p.1 ∈ seen))) metadata in
  (fun p => {| role := role; provider_id := p.1; priority := p.2.1; exclusive := p.2.2;
               profile_rank := None; declared_role := true |})
  <$> py_sorted remaining_leb remaining.

Definition role_state (components : dict pystr Manifest.Component)
    (metadata : dict pystr (Z * bool)) (role : pystr) (explicit_ids : list pystr) : RoleState :=
  let explicit := explicit_candidates components metadata role 0 [] explicit_ids in
  let candidates := explicit ++ discovered_candidates metadata role (provider_id <$> explicit) in
  {| candidates := candidates; state_exclusive := existsb exclusive candidates |}.

Section Registry.
Context `{PyLib} `{PyRepr}.

Definition _profile_candidate_ids (value : pyval) : py (list pystr) :=
  match value with
  | VNone => Ok []
  | VStr s => Ok [s]
  | VList items => Ok (py_str <$> items)
  | _ => Raise (Exn TypeError §"profile role candidates must be a sequence of component ids")
  end.

Definition _build_roles (components : dict pystr Manifest.Component)
    (profile_roles : dict pystr pyval) (disabled : list pystr) : py (dict pystr RoleState) :=
  let declared := declared_roles components disabled in
  let named := List.filter (fun r => negb (bool_decide (r ∈ disabled))) (dkeys profile_roles) in
  let discovered :=
    sorted_strs (List.filter (fun r => negb (bool_decide (r ∈ named))) (dkeys declared)) in
  foldR (fun result role =>
    ids ← _profile_candidate_ids (dget_or profile_roles role VNone);
    Ok (dset result role (role_state components (dget_or declared role []) role ids)))
    [] (named ++ discovered).

(** [RoleRegistry(components, profile_roles, disabled_roles)] *)
Definition make (components : dict pystr Manifest.Component) (profile_roles : dict pystr pyval)
    (disabled : list pystr) : py RoleRegistry :=
  roles ← _build_roles components profile_roles disabled;
  Ok {| _components := components; _profile_roles := profile_roles;
        _disabled_roles := fromkeys disabled; _roles := roles; _preferred := []; _leases := [];
        _role_leases := (fun r => (r, [])) <$> dkeys roles; _next_lease_token := 1 |}.

Definition from_profile (components : dict pystr Manifest.Component) (profile : dict pystr pyval)
    : py RoleRegistry :=
  roles ← ok_or (as_dict (dget_or profile §"roles" (VDict [])))
    (Exn TypeError §"profile 'roles' must be a mapping");
  disabled ← ok_or (as_list (dget_or profile §"disabled_roles" (VList [])))
    (Exn TypeError §"profile 'disabled_roles' must be a sequence of role names");
  make components roles (py_str <$> disabled).
End Registry.

(* ------------------------------------------------------------------ *)
(** ** Queries *)

Definition _state (r : RoleRegistry) (role : pystr) : py RoleState :=
  ok_or (dget (_roles r) role) (UnknownRole role).

Definition list_roles (r : RoleRegistry) : list pystr := dkeys (_roles r).

Definition disabled_roles (r : RoleRegistry) : list pystr := sorted_strs (_disabled_roles r).

Definition list_candidates (r : RoleRegistry) (role : pystr) : py (list RoleCandidate) :=
  s ← _state r role; Ok (candidates s).

Definition candidate_ids (r : RoleRegistry) (role : pystr) : py (list pystr) :=
  cs ← list_candidates r role; Ok (provider_id <$> cs).

Definition is_candidate (r : RoleRegistry) (role provider : pystr) : py bool :=
  cs ← list_candidates r role;
  Ok (existsb (fun c => bool_decide (provider_id c = provider)) cs).

Definition get_candidate (r : RoleRegistry) (role provider : pystr) : py RoleCandidate :=
  cs ← list_candidates r role;
  ok_or (find_first (fun c => bool_decide (provider_id c = provider)) cs)
    (Exn UnknownCandidateError (provider ++ §" is not a candidate for role " ++ role)).

Definition preferred_provider (r : RoleRegistry) (role : pystr) : py (option pystr) :=
  state ← _state r role;
  Ok match dget (_preferred r) role with
     | Some selected => Some selected
     | None => provider_id <$> head (candidates state)
     end.

Definition resolve_candidate (r : RoleRegistry) (role : pystr) : py RoleCandidate :=
  provider ← preferred_provider r role;
  provider ← ok_or provider (Exn NoCandidateError (§"role has no installed candidate: " ++ role));
  get_candidate r role provider.

Definition resolve (r : RoleRegistry) (role : pystr) : py pystr :=
  c ← resolve_candidate r role; Ok (provider_id c).

Definition active_leases (r : RoleRegistry) (role : pystr) : py (list RoleLease) :=
  _state r role;;
  tokens ← ok_or (dget (_role_leases r) role) (Exn KeyError role);
  mapR (fun t => ok_or (dget (_leases r) t) (Exn KeyError (dec_Z t))) tokens.

Definition active_providers (r : RoleRegistry) (role : pystr) : py (list pystr) :=
  ls ← active_leases r role; Ok (fromkeys (lease_provider <$> ls)).

Definition active_provider (r : RoleRegistry) (role : pystr) : py (option pystr) :=
  ps ← active_providers r role; Ok (head ps).

Definition info (r : RoleRegistry) (role : pystr) : py RoleInfo :=
  state ← _state r role;
  leases ← active_leases r role;
  providers ← active_providers r role;
  preferred ← preferred_provider r role;
  Ok {| info_name := role; info_exclusive := state_exclusive state;
        info_candidates := candidates state; info_preferred := preferred;
        info_active := head providers; info_active_providers := providers;
        lease_count := length leases |}.

Definition list_role_info (r : RoleRegistry) : py (list RoleInfo) := mapR (info r) (list_roles r).

(* ------------------------------------------------------------------ *)
(** ** State changes: the new registry with the result *)

Definition select_preferred (r : RoleRegistry) (role provider : pystr) : py (RoleRegistry * pystr) :=
  get_candidate r role provider;;
  Ok (with_preferred r (dset (_preferred r) role provider), provider).

Definition reset_preferred (r : RoleRegistry) (role : pystr) : py (RoleRegistry * option pystr) :=
  _state r role;;
  let r := with_preferred r (ddel (_preferred r) role) in
  p ← preferred_provider r role;
  Ok (r, p).

Definition acquire (r : RoleRegistry) (role : pystr) (provider : option pystr)
    (holder : option pystr) : py (RoleRegistry * RoleLease) :=
  state ← _state r role;
  candidate ← match provider with
              | None => resolve_candidate r role
              | Some p => get_candidate r role p
              end;
  active_tokens ← ok_or (dget (_role_leases r) role) (Exn KeyError role);
  match active_tokens with
  | t :: _ =>
      if state_exclusive state then
        active ← ok_or (dget (_leases r) t) (Exn KeyError (dec_Z t));
        Raise (Exn LeaseConflictError
          (§"exclusive role " ++ role ++ §" is leased to " ++ lease_provider active))
      else Ok tt
  | [] => Ok tt
  end;;
  let token := _next_lease_token r in
  let lease := {| token := token; lease_role := role; lease_provider := provider_id candidate;
                  holder := holder |} in
  Ok (with_leases r (dset (_leases r) token lease)
        (dset (_role_leases r) role (active_tokens ++ [token])) (token + 1), lease).

(** [release] takes a lease value or a token. *)
Inductive lease_ref := ByLease (l : RoleLease) | ByToken (t : Z).

(** [tokens.remove(token)] *)
Fixpoint remove_first (t : Z) (l : list Z) : option (list Z) :=
  match l with
  | [] => None
  | x :: l => if decide (x = t) then Some l else cons x <$> remove_first t l
  end.

Definition release (r : RoleRegistry) (lease : lease_ref) : py (RoleRegistry * RoleLease) :=
  let token := match lease with ByLease l => token l | ByToken t => t end in
  let unknown := Exn UnknownLeaseError (dec_Z token) in
  stored ← ok_or (dget (_leases r) token) unknown;
  raise_if match lease with
           | ByLease l => negb (bool_decide (stored = l)) | ByToken _ => false end unknown;;
  tokens ← ok_or (dget (_role_leases r) (lease_role stored)) (Exn KeyError (lease_role stored));
  tokens ← ok_or (remove_first token tokens) (Exn ValueError §"list.remove(x): x not in list");
  Ok (with_leases r (ddel (_leases r) token)
        (dset (_role_leases r) (lease_role stored) tokens) (_next_lease_token r), stored).

Definition release_provider (r : RoleRegistry) (provider : pystr)
    : py (RoleRegistry * list RoleLease) :=
  let matching :=
    List.filter (fun l => bool_decide (lease_provider l = provider)) (dvalues (_leases r)) in
  r ← foldR (fun r l => p ← release r (ByLease l); Ok p.1) r matching;
  Ok (r, matching).

(* ------------------------------------------------------------------ *)
(** ** The registry invariant *)

Record registry_wf (r : RoleRegistry) : Prop := {
  rw_leases : dict_wf (_leases r);
  rw_tokens : forall t l, dget (_leases r) t = Some l -> token l = t /\ (t < _next_lease_token r)%Z;
  rw_keys : forall role, is_Some (dget (_roles r) role) <-> is_Some (dget (_role_leases r) role);
  rw_role_tokens : forall role ts, dget (_role_leases r) role = Some ts ->
    NoDup ts /\ forall t, t ∈ ts <-> exists l, dget (_leases r) t = Some l /\ lease_role l = role;
  rw_candidates : forall t l, dget (_leases r) t = Some l ->
    exists s, dget (_roles r) (lease_role l) = Some s /\ lease_provider l ∈ provider_id <$> candidates s;
  rw_exclusive : forall role s ts, dget (_roles r) role = Some s -> state_exclusive s = true ->
    dget (_role_leases r) role = Some ts -> (length ts <= 1)%nat;
  rw_preferred_wf : dict_wf (_preferred r);
  rw_preferred : forall role p, dget (_preferred r) role = Some p ->
    exists s, dget (_roles r) role = Some s /\ p ∈ provider_id <$> candidates s;
}.

(** The operations a supervisor performs on its registry. *)
Inductive step : RoleRegistry -> RoleRegistry -> Prop :=
| step_select r role p r' x : select_preferred r role p = Ok (r', x) -> step r r'
| step_reset r role r' x : reset_preferred r role = Ok (r', x) -> step r r'
| step_acquire r role p h r' l : acquire r role p h = Ok (r', l) -> step r r'
| step_release r ref r' l : release r ref = Ok (r', l) -> step r r'
| step_release_provider r p r' ls : release_provider r p = Ok (r', ls) -> step r r'.

(** Registries obtained from a profile by any sequence of operations. *)
Inductive reachable `{PyLib} `{PyRepr} : RoleRegistry -> Prop :=
| reach_make cs roles disabled r : make cs roles disabled = Ok r -> reachable r
| reach_step r r' : reachable r -> step r r' -> reachable r'.

Lemma get_candidate_Ok r role p c : get_candidate r role p = Ok c ->
  provider_id c = p /\ exists s, dget (_roles r) role = Some s /\ c ∈ candidates s.
Proof.
  unfold get_candidate, list_candidates, _state. intros Hc. inv_result.
  apply find_first_Some in Hc as [Hin Hp]. bool_simp. split; [done|]. eauto.
Qed.

Lemma get_candidate_id r role p c : get_candidate r role p = Ok c ->
  exists s, dget (_roles r) role = Some s /\ p ∈ provider_id <$> candidates s.
Proof.
  intros (<- & s & Hs & Hc)%get_candidate_Ok. exists s. split; [done|].
  apply list_elem_of_fmap. eauto.
Qed.

Lemma get_candidate_complete r role s p :
  dget (_roles r) role = Some s -> p ∈ provider_id <$> candidates s ->
  exists c, get_candidate r role p = Ok c /\ provider_id c = p.
Proof.
  intros Hs (c & -> & Hc)%list_elem_of_fmap.
  unfold get_candidate, list_candidates, _state. rewrite Hs. simpl.
  destruct (find_first _ _) as [c'|] eqn:Hf.
  - apply find_first_Some in Hf as [_ Hp]. bool_simp. eauto.
  - rewrite find_first_None in Hf. specialize (Hf c Hc).
    by rewrite bool_decide_eq_false in Hf.
Qed.

Lemma resolve_candidate_Ok r role c : resolve_candidate r role = Ok c ->
  exists s, dget (_roles r) role = Some s /\ c ∈ candidates s.
Proof.
  unfold resolve_candidate. intros Hc. inv_result. by apply get_candidate_Ok in Hc as (_ & ?).
Qed.

Lemma select_wf r role p r' x : registry_wf r -> select_preferred r role p = Ok (r', x) -> registry_wf r'.
Proof.
  intros [] Hs. unfold select_preferred in Hs. inv_result.
  match goal with Hg : get_candidate _ _ _ = Ok _ |- _ => apply get_candidate_id in Hg end.
  split; simpl; try done; [by apply dset_wf|]. intros role' p'. rewrite dget_dset.
  case_decide; [|eauto]. intros [= <-]. by subst.
Qed.

Lemma reset_wf r role r' x : registry_wf r -> reset_preferred r role = Ok (r', x) -> registry_wf r'.
Proof.
  intros [] Hs. unfold reset_preferred in Hs. inv_result.
  split; simpl; try done; [by apply ddel_wf|]. intros role' p'. rewrite dget_ddel by done.
  case_decide; [done|eauto].
Qed.

(** What [acquire] checks and does. *)
Lemma acquire_Ok r role p h r' l : acquire r role p h = Ok (r', l) ->
  exists s c ts, dget (_roles r) role = Some s /\ c ∈ candidates s /\
    dget (_role_leases r) role = Some ts /\ (state_exclusive s = true -> ts = []) /\
    l = {| token := _next_lease_token r; lease_role := role; lease_provider := provider_id c;
           holder := h |} /\
    (match p with Some p => provider_id c = p | None => resolve r role = Ok (provider_id c) end) /\
    r' = with_leases r (dset (_leases r) (_next_lease_token r) l)
           (dset (_role_leases r) role (ts ++ [_next_lease_token r])) (_next_lease_token r + 1).
Proof.
  unfold acquire, _state. intros Ha. inv_result.
  match goal with H1 : dget (_roles r) role = Some ?s, H2 : _ = Ok ?c, H3 : dget (_role_leases r) role = Some ?ts
    |- _ => exists s, c, ts; rename H2 into Hcand, ts into tokens end.
  split; [done|].
  assert (exists s, dget (_roles r) role = Some s /\ x0 ∈ candidates s) as (s' & Hs' & Hc).
  { destruct p; [by apply get_candidate_Ok in Hcand as (_ & ?)|by apply resolve_candidate_Ok in Hcand]. }
  split; [congruence|]. split; [done|]. split.
  - intros Hex. rewrite Hex in *. destruct tokens; [done|]. inv_result.
  - split; [done|]. split; [|done]. destruct p; [by apply get_candidate_Ok in Hcand as [? _]|].
    unfold resolve. by rewrite Hcand.
Qed.

Lemma acquire_wf r role p h r' l : registry_wf r -> acquire r role p h = Ok (r', l) -> registry_wf r'.
Proof.
  intros [Wl Wt Wk Wrt Wc We Wp Wpp] Ha.
  apply acquire_Ok in Ha as (s & c & ts & Hs & Hc & Hts & Hex & -> & _ & ->).
  assert (forall l, dget (_leases r) (_next_lease_token r) = Some l -> False) as Hfresh.
  { intros l Hl. destruct (Wt _ _ Hl). lia. }
  split; simpl; try done.
  - by apply dset_wf.
  - intros t l. rewrite dget_dset. case_decide; subst; [intros [= <-]; simpl; lia|].
    intros Hl. destruct (Wt t l Hl). split; [done|lia].
  - intros role'. rewrite dget_dset. case_decide; subst; [|done]. rewrite Wk, Hts. done.
  - intros role' ts'. rewrite dget_dset. case_decide as Hr; subst.
    + intros [= <-]. destruct (Wrt _ _ Hts) as [Hnd Hel]. split.
      * apply NoDup_app. split_and!; [done| |apply NoDup_singleton].
        intros t Ht Ht'. apply list_elem_of_singleton in Ht'. subst.
        apply Hel in Ht as (l & Hl & _). by eapply Hfresh.
      * intros t. rewrite elem_of_app, list_elem_of_singleton, Hel, dget_dset.
        case_decide; subst; [naive_solver|]. naive_solver.
    + intros Hts'. destruct (Wrt _ _ Hts') as [Hnd Hel]. split; [done|].
      intros t. rewrite Hel, dget_dset. case_decide; subst; [|done]. split.
      * intros (l & Hl & _). exfalso. by eapply Hfresh.
      * intros (l & [= <-] & Hrole). by simpl in Hrole.
  - intros t l. rewrite dget_dset. case_decide; [|eauto]. intros [= <-]. simpl. exists s.
    split; [done|]. apply list_elem_of_fmap. eauto.
  - intros role' s' ts' Hs' Hx. rewrite dget_dset. case_decide; subst; [|eauto].
    intros [= <-]. rewrite Hs in Hs'. injection Hs' as <-. by rewrite Hex.
Qed.

Lemma remove_first_spec t l l' : NoDup l -> remove_first t l = Some l' ->
  NoDup l' /\ (forall x, x ∈ l' <-> x ∈ l /\ x ≠ t) /\ (length l' <= length l)%nat.
Proof.
  revert l'; induction l as [|x l IH]; intros l'; simpl; [done|].
  rewrite NoDup_cons. intros [Hx Hnd]. case_decide; subst.
  - intros [= <-]. split_and!; [done| |lia]. set_solver.
  - intros Hl. apply fmap_Some in Hl as (l1 & Hl1 & ->).
    destruct (IH l1 Hnd Hl1) as (Hnd1 & Hel & Hlen). split_and!; [|set_solver|simpl; lia].
    apply NoDup_cons. split; [|done]. rewrite Hel. naive_solver.
Qed.

Lemma remove_first_Some t l : t ∈ l -> is_Some (remove_first t l).
Proof.
  induction l as [|x l IH]; simpl; [set_solver|]. case_decide; [done|].
  rewrite elem_of_cons. intros [?|Hl]; [done|]. apply IH in Hl as [l' ->]. done.
Qed.

Lemma remove_first_filter t l l' : NoDup l -> remove_first t l = Some l' -> l' = filter (.≠ t) l.
Proof.
  revert l'; induction l as [|x l IH]; intros l'; simpl; [done|].
  rewrite NoDup_cons. intros [Hx Hnd]. rewrite filter_cons. case_decide as Hxt.
  - intros [= <-]. rewrite decide_False by tauto. subst. symmetry.
    apply filter_all. intros y Hy ->. done.
  - intros (l1 & Hl1 & ->)%fmap_Some. rewrite decide_True by done. f_equal. by apply IH.
Qed.

Definition ref_token (ref : lease_ref) : Z :=
  match ref with ByLease l => token l | ByToken t => t end.

(** What [release] checks and does. *)
Lemma release_Ok r ref r' l : release r ref = Ok (r', l) ->
  exists ts ts', dget (_leases r) (ref_token ref) = Some l /\
    (match ref with ByLease l' => l = l' | ByToken _ => True end) /\
    dget (_role_leases r) (lease_role l) = Some ts /\ remove_first (ref_token ref) ts = Some ts' /\
    r' = with_leases r (ddel (_leases r) (ref_token ref)) (dset (_role_leases r) (lease_role l) ts')
           (_next_lease_token r).
Proof.
  unfold release. intros Hr. inv_result. fold (ref_token ref) in *.
  eexists _, _. split; [eassumption|]. split; [|split; [eassumption|split; [eassumption|done]]].
  destruct ref; [|done]. bool_simp. done.
Qed.

Lemma role_tokens_exist r t l : registry_wf r -> dget (_leases r) t = Some l ->
  exists ts, dget (_role_leases r) (lease_role l) = Some ts /\ t ∈ ts.
Proof.
  intros [_ _ Wk Wrt Wc _ _ _] Hl. destruct (Wc _ _ Hl) as (s & Hs & _).
  assert (is_Some (dget (_role_leases r) (lease_role l))) as [ts Hts] by (apply Wk; eauto).
  exists ts. split; [done|]. apply (Wrt _ _ Hts). eauto.
Qed.

(** On a well-formed registry an active lease can always be released. *)
Lemma release_total r ref l : registry_wf r -> dget (_leases r) (ref_token ref) = Some l ->
  match ref with ByLease l' => l = l' | ByToken _ => True end ->
  exists r', release r ref = Ok (r', l).
Proof.
  intros Hwf Hl Href. destruct (role_tokens_exist r _ l Hwf Hl) as (ts & Hts & Hin).
  destruct (remove_first_Some _ _ Hin) as [ts' Hts'].
  unfold release. fold (ref_token ref). rewrite Hl. cbn [ok_or rbind].
  assert (match ref with ByLease l' => negb (bool_decide (l = l')) | ByToken _ => false end = false) as ->.
  { destruct ref; [|done]. by rewrite bool_decide_eq_true_2. }
  cbn [raise_if rbind]. rewrite Hts. cbn [ok_or rbind]. rewrite Hts'. cbn [ok_or rbind]. eauto.
Qed.

(** The effect of a release, uniformly in the role. *)
Lemma release_effect r ref r' l : registry_wf r -> release r ref = Ok (r', l) ->
  _roles r' = _roles r /\ _preferred r' = _preferred r /\ _next_lease_token r' = _next_lease_token r /\
  dict_wf (_leases r') /\
  (forall t, dget (_leases r') t = if decide (t = token l) then None else dget (_leases r) t) /\
  (forall role, dget (_role_leases r') role = filter (.≠ token l) <$> dget (_role_leases r) role).
Proof.
  intros [Wl Wt Wk Wrt Wc _ _ _] (ts & ts' & Hl & _ & Hts & Hrm & ->)%release_Ok.
  destruct (Wt _ _ Hl) as [Ht _]. rewrite <- Ht in *. cbn.
  split; [done|]. split; [done|]. split; [done|]. split; [by apply ddel_wf|].
  split; [intros t; by apply dget_ddel|]. intros role. rewrite dget_dset.
  destruct (Wrt _ _ Hts) as [Hnd _].
  case_decide as Hr; subst.
  - rewrite Hts. cbn. f_equal. by apply remove_first_filter.
  - destruct (dget (_role_leases r) role) as [ts2|] eqn:Hts2; [|done]. cbn. f_equal. symmetry.
    apply filter_all. intros t Hin ->. apply (Wrt _ _ Hts2) in Hin as (l' & Hl' & <-).
    congruence.
Qed.

Lemma release_wf r ref r' l : registry_wf r -> release r ref = Ok (r', l) -> registry_wf r'.
Proof.
  intros Hwf Hr. pose proof (release_effect r ref r' l Hwf Hr) as (Er & Ep & En & El & Et & Etok).
  destruct Hwf as [Wl Wt Wk Wrt Wc We Wp Wpp].
  split; rewrite ?Er, ?Ep, ?En; try done.
  - intros t l'. rewrite Et. case_decide; [done|]. apply Wt.
  - intros role. rewrite Wk, Etok. by rewrite fmap_is_Some.
  - intros role ts. rewrite Etok. intros (ts0 & Hts & ->)%fmap_Some.
    destruct (Wrt _ _ Hts) as [Hnd Hel]. split; [by apply NoDup_filter|].
    intros t. rewrite list_elem_of_filter, Hel, Et. case_decide; [|tauto].
    split; [tauto|]. intros (? & ? & _); done.
  - intros t l'. rewrite Et. case_decide; [done|]. apply Wc.
  - intros role s ts Hs Hex. rewrite Etok. intros (ts0 & Hts & ->)%fmap_Some.
    pose proof (We _ _ _ Hs Hex Hts). pose proof (length_filter (.≠ token l) ts0). lia.
Qed.

(** Releasing a list of active leases one after the other. *)
Lemma release_all r ls : registry_wf r -> NoDup (token <$> ls) ->
  Forall (fun l => dget (_leases r) (token l) = Some l) ls ->
  exists r', foldR (fun r l => p ← release r (ByLease l); Ok p.1) r ls = Ok r' /\ registry_wf r' /\
    _roles r' = _roles r /\
    (forall t, dget (_leases r') t = if decide (t ∈ token <$> ls) then None else dget (_leases r) t) /\
    (forall role, dget (_role_leases r') role =
       filter (.∉ token <$> ls) <$> dget (_role_leases r) role).
Proof.
  revert r; induction ls as [|l ls IH]; intros r Hwf Hnd Hall.
  - exists r. split; [done|]. split; [done|]. split; [done|]. split.
    + intros t. by rewrite decide_False by apply not_elem_of_nil.
    + intros role. destruct (dget _ role) as [ts|]; [|done]. cbn. f_equal. symmetry.
      apply filter_all. intros ???. by eapply not_elem_of_nil.
  - cbn in Hnd. apply NoDup_cons in Hnd as [Hn Hnd]. apply Forall_cons in Hall as [Hl Hall].
    destruct (release_total r (ByLease l) l Hwf Hl eq_refl) as [r1 Hr1].
    pose proof (release_wf _ _ _ _ Hwf Hr1) as Hwf1.
    pose proof (release_effect _ _ _ _ Hwf Hr1) as (Er & _ & _ & _ & Et & Etok).
    destruct (IH r1 Hwf1 Hnd) as (r' & Hf & Hwf' & Er' & Et' & Etok').
    { rewrite Forall_forall in Hall |- *. intros l' Hin. rewrite Et.
      rewrite decide_False; [by apply Hall|]. intros Heq. apply Hn. rewrite <- Heq.
      apply list_elem_of_fmap. eauto. }
    exists r'. cbn [foldR]. rewrite Hr1. cbn [rbind fst]. split; [done|]. split; [done|].
    split; [congruence|]. split.
    + intros t. rewrite Et', Et. rewrite fmap_cons. repeat case_decide; set_solver.
    + intros role. rewrite Etok', Etok. destruct (dget (_role_leases r) role) as [ts|]; [|done].
      cbn. f_equal. rewrite list_filter_filter. apply list_filter_iff. set_solver.
Qed.

(* ------------------------------------------------------------------ *)
(** ** Leases as the queries see them *)

Lemma mapR_leases r ts : Forall (fun t => is_Some (dget (_leases r) t)) ts ->
  mapR (fun t => ok_or (dget (_leases r) t) (Exn KeyError (dec_Z t))) ts =
  Ok (omap (dget (_leases r)) ts).
Proof.
  induction 1 as [|t ts [l Hl] _ IH]; [done|]. cbn [mapR omap list_omap]. rewrite Hl, IH. done.
Qed.

(** On a well-formed registry the leases of a known role can always be read. *)
Lemma active_leases_total r role s : registry_wf r -> dget (_roles r) role = Some s ->
  exists ts, dget (_role_leases r) role = Some ts /\
    active_leases r role = Ok (omap (dget (_leases r)) ts).
Proof.
  intros [_ _ Wk Wrt _ _ _ _] Hs.
  assert (is_Some (dget (_role_leases r) role)) as [ts Hts] by (apply Wk; eauto).
  exists ts. split; [done|]. unfold active_leases, _state. rewrite Hs. cbn [ok_or rbind].
  rewrite Hts. cbn [ok_or rbind]. apply mapR_leases, Forall_forall. intros t Ht.
  apply (Wrt _ _ Hts) in Ht as (l & -> & _). done.
Qed.

(** Reading the leases that remain once some tokens were dropped. *)
Lemma omap_leases_filter (P : Z -> Prop) (Q : RoleLease -> Prop)
    `{!forall t, Decision (P t)} `{!forall l, Decision (Q l)} (d d' : dict Z RoleLease) (ts : list Z) :
  (forall t l, t ∈ ts -> dget d t = Some l -> P t <-> Q l) ->
  (forall t, t ∈ ts -> P t -> dget d' t = dget d t) ->
  (forall t, t ∈ ts -> is_Some (dget d t)) ->
  omap (dget d') (filter P ts) = filter Q (omap (dget d) ts).
Proof.
  intros HPQ Hd Hs. induction ts as [|t ts IH]; [done|].
  destruct (Hs t ltac:(set_solver)) as [l Hl]. cbn [omap list_omap]. rewrite Hl.
  rewrite !filter_cons, (decide_ext (Q l) (P t)) by (symmetry; apply (HPQ t); set_solver).
  assert (omap (dget d') (filter P ts) = filter Q (omap (dget d) ts)) as <- by (apply IH; set_solver).
  case_decide as HP; [|done]. cbn [omap list_omap]. rewrite (Hd t), Hl; [done|set_solver|done].
Qed.

(* ------------------------------------------------------------------ *)
(** ** The candidates of a role *)

Lemma explicit_candidates_elem cs md role rank seen ids c :
  c ∈ explicit_candidates cs md role rank seen ids ->
  provider_id c ∉ seen /\ provider_id c ∈ dkeys cs /\ Roles.role c = role /\
  priority c = (match dget md (provider_id c) with Some p => p.1 | None => 0 end)%Z /\
  exclusive c = (match dget md (provider_id c) with Some p => p.2 | None => true end) /\
  (declared_role c = true <-> is_Some (dget md (provider_id c))) /\
  exists i, profile_rank c = Some (rank + i)%nat /\ ids !! i = Some (provider_id c) /\
    provider_id c ∉ take i ids.
Proof.
  revert rank seen; induction ids as [|pid ids IH]; intros rank seen; cbn [explicit_candidates].
  { intros Hc. by apply not_elem_of_nil in Hc. }
  destruct (bool_decide (pid ∈ seen) || negb (dhas cs pid)) eqn:Hskip.
  - intros Hc. destruct (IH _ _ Hc) as (Hs & Hk & ? & ? & ? & ? & i & Hi & Hid & Hnot).
    do 6 (split; [done|]). exists (S i). split; [rewrite Hi; f_equal; lia|]. split; [done|].
    cbn [take]. apply not_elem_of_cons. split; [|done]. intros Heq.
    apply orb_true_iff in Hskip as [Hskip|Hskip]; bool_simp; [congruence|].
    apply dhas_true in Hk. congruence.
  - bool_simp. rewrite elem_of_cons. intros [->|Hc].
    + cbn. split; [done|]. split; [by apply dhas_true|]. do 3 (split; [done|]).
      split; [by rewrite bool_decide_eq_true|]. exists O. rewrite Nat.add_0_r.
      split; [done|]. split; [done|]. apply not_elem_of_nil.
    + destruct (IH _ _ Hc) as (Hs & Hk & ? & ? & ? & ? & i & Hi & Hid & Hnot).
      apply not_elem_of_cons in Hs as [Hne Hs]. do 6 (split; [done|]).
      exists (S i). split; [rewrite Hi; f_equal; lia|]. split; [done|].
      cbn [take]. by apply not_elem_of_cons.
Qed.

(** An element outside the filter may or may not be remembered as seen. *)
Lemma fromkeys_filter_seen (K : list pystr) pid (l s1 s2 : list pystr) :
  pid ∉ K -> (forall x, x ∈ s1 <-> x ∈ s2 \/ (x = pid /\ x ∈ s1)) -> (forall x, x ∈ s2 -> x ∈ s1) ->
  filter (.∈ K) (fromkeys_from s2 l) = (filter (.∈ K) (fromkeys_from s1 l)).
Proof.
  intros Hn. revert s1 s2. induction l as [|x l IHl]; intros s1 s2 H12 H21; [done|].
  cbn [fromkeys_from]. destruct (decide (x = pid)) as [->|Hx].
  - do 2 case_decide; rewrite ?filter_cons, ?(decide_False (P := pid ∈ K)) by done;
      apply IHl; set_solver.
  - assert (x ∈ s1 <-> x ∈ s2) as Hiff by (split; [rewrite H12; naive_solver|auto]).
    rewrite (decide_ext (x ∈ s1) (x ∈ s2)) by done.
    case_decide; [by apply IHl|]. rewrite !filter_cons. case_decide; [f_equal|]; apply IHl; set_solver.
Qed.

(** The explicit candidates are the installed components the profile names, in
    the order of their first mention. *)
Lemma explicit_candidates_ids cs md role rank seen ids :
  provider_id <$> explicit_candidates cs md role rank seen ids =
  filter (.∈ dkeys cs) (fromkeys_from seen ids).
Proof.
  revert rank seen. induction ids as [|pid ids IH]; intros rank seen; [done|].
  cbn [explicit_candidates fromkeys_from]. destruct (decide (pid ∈ seen)) as [Hin|Hin].
  - rewrite bool_decide_eq_true_2 by done. cbn [orb]. apply IH.
  - rewrite bool_decide_eq_false_2 by done. cbn [orb]. rewrite filter_cons.
    destruct (dhas cs pid) eqn:Hd; cbn [negb].
    + rewrite decide_True by (by apply dhas_true). cbn. f_equal. apply IH.
    + assert (pid ∉ dkeys cs) as Hn by (intros Hk%dhas_true; congruence).
      rewrite decide_False by done. rewrite IH. apply (fromkeys_filter_seen _ pid); set_solver.
Qed.

Lemma remaining_leb_spec a b : remaining_leb a b = true <->
  (b.2.1 < a.2.1)%Z \/ (a.2.1 = b.2.1 /\ str_leb a.1 b.1 = true).
Proof. unfold remaining_leb. rewrite orb_true_iff, andb_true_iff, Z.ltb_lt, Z.eqb_eq. done. Qed.

Lemma remaining_leb_total a b : remaining_leb a b = true \/ remaining_leb b a = true.
Proof.
  rewrite !remaining_leb_spec.
  destruct (Z.lt_trichotomy a.2.1 b.2.1) as [?|[?|?]], (str_leb_total a.1 b.1); auto 10.
Qed.

Lemma remaining_leb_trans a b c :
  remaining_leb a b = true -> remaining_leb b c = true -> remaining_leb a c = true.
Proof.
  rewrite !remaining_leb_spec. intros [?|[? H1]] [?|[? H2]]; [lia..|].
  right. split; [lia|]. by eapply str_leb_trans.
Qed.

(** The order of the candidates the profile does not mention. *)
Definition discovered_leb (a b : RoleCandidate) : bool :=
  remaining_leb (provider_id a, (priority a, exclusive a)) (provider_id b, (priority b, exclusive b)).

Lemma discovered_elem md role seen c : dict_wf md ->
  c ∈ discovered_candidates md role seen <->
  provider_id c ∉ seen /\ dget md (provider_id c) = Some (priority c, exclusive c) /\
  Roles.role c = role /\ profile_rank c = None /\ declared_role c = true.
Proof.
  intros Hwf. unfold discovered_candidates. rewrite list_elem_of_fmap.
  setoid_rewrite py_sorted_elem. setoid_rewrite list_elem_of_In. setoid_rewrite filter_In.
  setoid_rewrite <- list_elem_of_In. setoid_rewrite negb_true_iff.
  setoid_rewrite bool_decide_eq_false. split.
  - intros ([pid [pr ex]] & -> & Hin & Hs). apply elem_dget in Hin; [|done]. done.
  - intros (Hs & Hd & Hr & Hk & Hdecl). exists (provider_id c, (priority c, exclusive c)).
    rewrite elem_dget by done. split; [|done]. destruct c; simpl in *. by subst.
Qed.

Lemma discovered_sorted md role seen : sorted_by discovered_leb (discovered_candidates md role seen).
Proof.
  unfold discovered_candidates. set (l := List.filter _ _).
  pose proof (py_sorted_sorted remaining_leb remaining_leb_total remaining_leb_trans l) as Hs.
  unfold sorted_by in *. induction Hs as [|[pid [pr ex]] l' Hs IH Hall]; cbn; constructor; [done|].
  apply Forall_fmap. eapply Forall_impl; [exact Hall|]. intros [pid' [pr' ex']]. done.
Qed.

Lemma discovered_NoDup md role seen : dict_wf md ->
  NoDup (provider_id <$> discovered_candidates md role seen).
Proof.
  intros Hwf. unfold discovered_candidates. rewrite <- list_fmap_compose.
  rewrite (py_sorted_perm remaining_leb). cbn.
  assert (((fun x : pystr * (Z * bool) => x.1) <$> List.filter (fun p => negb (bool_decide (p.1 ∈ seen))) md)
    `sublist_of` dkeys md) as Hsub; [|by eapply sublist_NoDup].
  unfold dkeys. apply fmap_sublist. clear Hwf. induction md as [|p md IH]; [done|]. cbn.
  case_match; by constructor.
Qed.

Lemma role_state_NoDup cs md role ids : dict_wf md ->
  NoDup (provider_id <$> candidates (role_state cs md role ids)).
Proof.
  intros Hwf. cbn. rewrite fmap_app, NoDup_app. split; [|split; [|by apply discovered_NoDup]].
  - rewrite explicit_candidates_ids. apply NoDup_filter, fromkeys_from_NoDup.
  - intros pid Hin (c & -> & Hc)%list_elem_of_fmap. by apply discovered_elem in Hc as (? & _).
Qed.

(** ** Declared roles *)

(** The [provides] of a component for a role. *)
Definition role_provides (c : Manifest.Component) (role : pystr) : list (Z * bool) :=
  (fun p => (Manifest.priority p, Manifest.exclusive p)) <$>
    List.filter (fun p => bool_decide (Manifest.kind p = §"role") && bool_decide (Manifest.name p = role))
      (Manifest.provides c).

Lemma role_entries_elem cs disabled role pid d :
  (role, pid, d) ∈ role_entries cs disabled <->
  role ∉ disabled /\ exists c, (pid, c) ∈ cs /\ d ∈ role_provides c role.
Proof.
  unfold role_entries, role_provides. rewrite list_elem_of_bind. split.
  - intros ([pid' c] & Hc & Hin). apply list_elem_of_fmap in Hc as (p & [= -> -> ->] & Hp).
    apply list_elem_of_In, filter_In in Hp as [Hp%list_elem_of_In Hb]. bool_simp. split; [done|].
    exists c. split; [done|]. apply list_elem_of_fmap. exists p. split; [done|].
    apply list_elem_of_In, filter_In. rewrite <- list_elem_of_In. by rewrite !bool_decide_eq_true_2.
  - intros (Hr & c & Hc & Hd). apply list_elem_of_fmap in Hd as (p & -> & Hp).
    apply list_elem_of_In, filter_In in Hp as [Hp%list_elem_of_In Hb]. bool_simp. subst.
    exists (pid, c). split; [|done]. apply list_elem_of_fmap. exists p. split; [done|].
    apply list_elem_of_In, filter_In. rewrite <- list_elem_of_In.
    by rewrite bool_decide_eq_true_2, bool_decide_eq_false_2.
Qed.

Definition role_metadata (cs : dict pystr Manifest.Component) (disabled : list pystr) (role : pystr)
    : dict pystr (Z * bool) := dget_or (declared_roles cs disabled) role [].

Lemma role_metadata_wf cs disabled role : dict_wf (role_metadata cs disabled role).
Proof.
  unfold role_metadata, dget_or. destruct (dget _ role) eqn:Hd; [|constructor]. cbn.
  destruct (group_all_wf merge_decl (role_entries cs disabled)) as [_ Hw]. by eapply Hw.
Qed.

(** What a component's declarations of a role amount to. *)
Lemma role_metadata_spec cs disabled role pid : dict_wf cs -> role ∉ disabled ->
  match dget (role_metadata cs disabled role) pid with
  | Some d => exists c, dget cs pid = Some c /\ strongest (role_provides c role) d
  | None => forall c, dget cs pid = Some c -> role_provides c role = []
  end.
Proof.
  intros Hwf Hr.
  assert (dget (role_metadata cs disabled role) pid =
    foldl (merge_into merge_decl) None (declared role pid (role_entries cs disabled))) as ->.
  { rewrite <- lookup2_group_all. unfold role_metadata, lookup2, declared_roles, dget_or.
    by destruct (dget _ role). }
  assert (forall c, dget cs pid = Some c -> forall d,
    d ∈ declared role pid (role_entries cs disabled) <-> d ∈ role_provides c role) as Hdecl.
  { intros c Hc d. rewrite declared_elem, role_entries_elem. split.
    - intros (_ & c' & Hc' & Hd). apply elem_dget in Hc'; [|done]. by simplify_eq.
    - intros Hd. split; [done|]. exists c. by rewrite elem_dget. }
  destruct (foldl _ None _) as [d|] eqn:Hf.
  - pose proof (strongest_merge id merge_decl _ _ (fun a b => eq_refl) Hf) as Hs.
    rewrite list_fmap_id in Hs.
    destruct (declared role pid (role_entries cs disabled)) as [|d0 ds] eqn:Hds; [done|].
    assert (d0 ∈ declared role pid (role_entries cs disabled)) as Hin by (rewrite Hds; set_solver).
    apply declared_elem, role_entries_elem in Hin as (_ & c & Hc & _).
    apply elem_dget in Hc; [|done]. exists c. split; [done|].
    eapply strongest_proper; [|exact Hs]. intros x. rewrite <- (Hdecl c Hc x). done.
  - apply merge_None in Hf. intros c Hc. destruct (role_provides c role) as [|d ds] eqn:Hp; [done|].
    assert (d ∈ declared role pid (role_entries cs disabled)) as Hin.
    { apply (Hdecl c Hc). rewrite Hp. set_solver. }
    rewrite Hf in Hin. by apply not_elem_of_nil in Hin.
Qed.

(** ** A new registry *)

Section Make.
Context `{PyLib} `{PyRepr}.

(** The roles of a registry, in the order the loop visits them. *)
Definition role_names (components : dict pystr Manifest.Component)
    (profile_roles : dict pystr pyval) (disabled : list pystr) : list pystr :=
  let named := List.filter (fun r => negb (bool_decide (r ∈ disabled))) (dkeys profile_roles) in
  named ++ sorted_strs (List.filter (fun r => negb (bool_decide (r ∈ named)))
                          (dkeys (declared_roles components disabled))).

Lemma build_roles_elem cs pr dis roles : _build_roles cs pr dis = Ok roles ->
  (forall role, is_Some (dget roles role) <-> role ∈ role_names cs pr dis) /\
  (forall role s, dget roles role = Some s ->
     exists ids, _profile_candidate_ids (dget_or pr role VNone) = Ok ids /\
       s = role_state cs (role_metadata cs dis role) role ids).
Proof.
  unfold _build_roles. intros Hb. change (foldR _ [] _) with
    (foldR (fun result role => ids ← _profile_candidate_ids (dget_or pr role VNone);
       Ok (dset result role (role_state cs (role_metadata cs dis role) role ids)))
       [] (role_names cs pr dis)) in Hb.
  revert Hb. generalize (role_names cs pr dis) as l.
  enough (forall l acc, foldR (fun result role => ids ← _profile_candidate_ids (dget_or pr role VNone);
       Ok (dset result role (role_state cs (role_metadata cs dis role) role ids))) acc l = Ok roles ->
     (forall role s, dget acc role = Some s ->
       exists ids, _profile_candidate_ids (dget_or pr role VNone) = Ok ids /\
         s = role_state cs (role_metadata cs dis role) role ids) ->
     (forall role, is_Some (dget roles role) <-> is_Some (dget acc role) \/ role ∈ l) /\
     (forall role s, dget roles role = Some s ->
       exists ids, _profile_candidate_ids (dget_or pr role VNone) = Ok ids /\
         s = role_state cs (role_metadata cs dis role) role ids)) as Hgen.
  { intros l Hb. destruct (Hgen l [] Hb ltac:(done)) as [Hk Hs]. split; [|done].
    intros role. rewrite Hk. cbn. split; [intros [[??]|]; done|by right]. }
  induction l as [|role l IH]; intros acc Hf Hacc; cbn [foldR] in Hf.
  - injection Hf as <-. split; [|done]. intros role. set_solver.
  - inv_result. destruct (IH _ Hf) as [Hk Hs].
    + intros role' s. rewrite dget_dset. case_decide; [intros [= <-]; subst; eauto|apply Hacc].
    + split; [|done]. intros role'. rewrite Hk, dget_dset, elem_of_cons.
      case_decide; [|tauto]. split; [tauto|eauto].
Qed.

Lemma make_wf cs pr dis r : make cs pr dis = Ok r -> registry_wf r.
Proof.
  unfold make. intros Hm. inv_result. split; cbn; try done.
  - constructor.
  - intros role. rewrite <- !dkeys_elem. unfold dkeys. rewrite <- list_fmap_compose.
    by rewrite list_fmap_id.
  - intros role ts Hts. apply dget_elem, list_elem_of_fmap in Hts as (? & [= -> ->] & _).
    split; [constructor|]. intros t. split; [intros Ht; by apply not_elem_of_nil in Ht|].
    intros (l & ? & _). done.
  - intros role s ts _ _ Hts. apply dget_elem, list_elem_of_fmap in Hts as (? & [= -> ->] & _).
    cbn. lia.
  - constructor.
Qed.

Lemma release_provider_Ok r p : registry_wf r ->
  let ls := List.filter (fun l => bool_decide (lease_provider l = p)) (dvalues (_leases r)) in
  exists r', release_provider r p = Ok (r', ls) /\ registry_wf r' /\ _roles r' = _roles r /\
    (forall t, dget (_leases r') t = if decide (t ∈ token <$> ls) then None else dget (_leases r) t) /\
    (forall role, dget (_role_leases r') role = filter (.∉ token <$> ls) <$> dget (_role_leases r) role).
Proof.
  intros Hwf ls. pose proof (rw_tokens _ Hwf) as Wt. pose proof (rw_leases _ Hwf) as Wl.
  assert (forall l, l ∈ dvalues (_leases r) -> dget (_leases r) (token l) = Some l) as Hst.
  { intros l ([t l'] & -> & Hin)%list_elem_of_fmap. apply elem_dget in Hin; [|done].
    cbn. by destruct (Wt _ _ Hin) as [-> _]. }
  destruct (release_all r ls Hwf) as (r' & Hf & Hwf' & Hro & Ht & Htok).
  - assert (token <$> dvalues (_leases r) = dkeys (_leases r)) as Hkeys.
    { unfold dvalues, dkeys. rewrite <- list_fmap_compose. apply list_fmap_ext.
      intros i [t l] Hi. cbn. apply list_elem_of_lookup_2, elem_dget in Hi; [|done].
      by destruct (Wt _ _ Hi). }
    eapply sublist_NoDup; [unfold dict_wf in Wl; rewrite <- Hkeys in Wl; exact Wl|].
    apply fmap_sublist. unfold ls. rewrite filter_bool. apply sublist_filter.
  - apply Forall_forall. intros l Hl. apply Hst. unfold ls in Hl. rewrite filter_bool in Hl.
    by apply list_elem_of_filter in Hl as [_ ?].
  - exists r'. unfold release_provider. fold ls. rewrite Hf. cbn [rbind]. done.
Qed.

Lemma step_wf r r' : registry_wf r -> step r r' -> registry_wf r'.
Proof.
  intros Hwf Hs. destruct Hs; [eauto using select_wf, reset_wf, acquire_wf, release_wf..|].
  match goal with Hr : release_provider ?r ?p = _ |- _ =>
    destruct (release_provider_Ok r p Hwf) as (? & Heq & ? & _); rewrite Heq in Hr end.
  by simplify_eq.
Qed.

Lemma reachable_wf r : reachable r -> registry_wf r.
Proof. intros Hr. induction Hr; [by eapply make_wf|by eapply step_wf]. Qed.
End Make.

Lemma omap_leases_elem r (ts : list Z) l : registry_wf r -> l ∈ omap (dget (_leases r)) ts ->
  token l ∈ ts /\ dget (_leases r) (token l) = Some l.
Proof.
  intros Hwf (t & Ht & Hl)%list_elem_of_omap. by destruct (rw_tokens _ Hwf _ _ Hl) as [-> _].
Qed.

Lemma omap_leases_tokens r (ts : list Z) : registry_wf r ->
  Forall (fun t => is_Some (dget (_leases r) t)) ts -> token <$> omap (dget (_leases r)) ts = ts.
Proof.
  intros Hwf. induction 1 as [|t ts [l Hl] _ IH]; [done|]. cbn [omap list_omap]. rewrite Hl. cbn.
  destruct (rw_tokens _ Hwf _ _ Hl) as [-> _]. by f_equal.
Qed.

Lemma role_tokens_stored r role ts : registry_wf r -> dget (_role_leases r) role = Some ts ->
  Forall (fun t => is_Some (dget (_leases r) t)) ts.
Proof.
  intros Hwf Hts. apply Forall_forall. intros t Ht.
  apply (rw_role_tokens _ Hwf _ _ Hts) in Ht as (l & -> & _). done.
Qed.

Lemma active_leases_stored r role ls l : registry_wf r ->
  active_leases r role = Ok ls -> l ∈ ls -> dget (_leases r) (token l) = Some l /\ lease_role l = role.
Proof.
  intros Hwf Hal Hl. unfold active_leases, _state in Hal. inv_result.
  rewrite mapR_leases in Hal by (by eapply role_tokens_stored). injection Hal as <-.
  apply omap_leases_elem in Hl as [Ht Hl]; [|done].
  eapply (rw_role_tokens _ Hwf) in Ht as (l' & Hl' & Hr); [|eassumption]. by simplify_eq.
Qed.

(** The leases after a grant. *)
Lemma granted_leases r role s ts l : registry_wf r ->
  dget (_roles r) role = Some s -> dget (_role_leases r) role = Some ts ->
  let r' := with_leases r (dset (_leases r) (_next_lease_token r) l)
              (dset (_role_leases r) role (ts ++ [_next_lease_token r])) (_next_lease_token r + 1) in
  active_leases r' role = Ok (omap (dget (_leases r)) ts ++ [l]) /\
  (forall role', role' ≠ role -> active_leases r' role' = active_leases r role').
Proof.
  intros Hwf Hs Hts r'.
  assert (forall role ts t, dget (_role_leases r) role = Some ts -> t ∈ ts ->
    dget (_leases r') t = dget (_leases r) t /\ is_Some (dget (_leases r) t)) as Hsame.
  { intros role1 ts1 t Hts1 Ht. pose proof (role_tokens_stored _ _ _ Hwf Hts1) as Hst.
    rewrite Forall_forall in Hst. destruct (Hst t Ht) as [l1 Hl1]. split; [|done].
    cbn. rewrite dget_dset, decide_False; [done|]. intros ->.
    destruct (rw_tokens _ Hwf _ _ Hl1). lia. }
  split.
  - unfold active_leases, _state. cbn [_roles r' with_leases]. rewrite Hs. cbn [ok_or rbind].
    cbn [_role_leases r' with_leases]. rewrite dget_dset_eq. cbn [ok_or rbind].
    rewrite mapR_leases.
    + f_equal. rewrite omap_app. f_equal; [|cbn; by rewrite dget_dset_eq].
      apply omap_ext_elem. intros t Ht. by destruct (Hsame _ _ t Hts Ht).
    + apply Forall_forall. intros t [Ht|Ht%list_elem_of_singleton]%elem_of_app.
      * destruct (Hsame _ _ t Hts Ht) as [-> ?]. done.
      * subst. cbn. by rewrite dget_dset_eq.
  - intros role' Hne. unfold active_leases, _state. cbn [_roles r' with_leases].
    destruct (dget (_roles r) role') as [s'|]; [|done]. cbn [ok_or rbind].
    cbn [_role_leases r' with_leases]. rewrite dget_dset_ne by done.
    destruct (dget (_role_leases r) role') as [ts'|] eqn:Hts'; [|done]. cbn [ok_or rbind].
    apply mapR_ext_elem. intros t Ht. by destruct (Hsame _ _ t Hts' Ht) as [-> _].
Qed.

(* ------------------------------------------------------------------ *)
(** ** Properties *)

(** C17: whatever sequence of operations a supervisor performs on a registry,
    every role can be described (no lookup of a lease dangles), the leases of a
    role carry distinct tokens and belong to its candidates, and an exclusive
    role is never leased twice. *)
Theorem reachable_leases_consistent `{PyLib} `{PyRepr} r role s :
  reachable r -> dget (_roles r) role = Some s ->
  is_ok (info r role) = true /\
  exists ls, active_leases r role = Ok ls /\ NoDup (token <$> ls) /\
    Forall (fun l => lease_role l = role /\ lease_provider l ∈ provider_id <$> candidates s /\
                     (token l < _next_lease_token r)%Z) ls /\
    (state_exclusive s = true -> (length ls <= 1)%nat).
Proof.
  intros Hwf%reachable_wf Hs. destruct (active_leases_total r role s Hwf Hs) as (ts & Hts & Hal).
  pose proof (role_tokens_stored r role ts Hwf Hts) as Hst.
  split.
  - unfold info, active_providers, preferred_provider, _state. rewrite Hs, Hal. done.
  - eexists. split; [exact Hal|]. rewrite omap_leases_tokens by done.
    destruct (rw_role_tokens _ Hwf _ _ Hts) as [Hnd Hel]. split; [done|]. split.
    + apply Forall_forall. intros l Hin. apply omap_leases_elem in Hin as [Hin Hl]; [|done].
      apply Hel in Hin as (l' & Hl' & Hrole). rewrite Hl in Hl'. injection Hl' as <-. subst role.
      destruct (rw_candidates _ Hwf _ _ Hl) as (s' & Hs' & Hc). simplify_eq.
      destruct (rw_tokens _ Hwf _ _ Hl). done.
    + intros Hex. pose proof (rw_exclusive _ Hwf _ _ _ Hs Hex Hts).
      rewrite <- (length_fmap token), omap_leases_tokens by done. done.
Qed.

(** [acquire] grants a lease exactly when the role exists, the requested
    (or preferred) provider is a candidate, and the role is not an exclusive
    role that is already leased; the grant gets a token no active lease has, is
    appended to the role's leases and changes no other role. *)
Theorem acquire_spec `{PyLib} `{PyRepr} r role p h :
  reachable r ->
  match dget (_roles r) role with
  | None => acquire r role p h = Raise (UnknownRole role)
  | Some s =>
      exists ls, active_leases r role = Ok ls /\
      match (match p with None => resolve_candidate r role | Some p => get_candidate r role p end) with
      | Raise e => acquire r role p h = Raise e
      | Ok c =>
          if state_exclusive s && negb (bool_decide (ls = []))
          then exists msg, acquire r role p h = Raise (Exn LeaseConflictError msg)
          else exists r' l, acquire r role p h = Ok (r', l) /\
            lease_role l = role /\ lease_provider l = provider_id c /\ holder l = h /\
            (forall role' ls' l', active_leases r role' = Ok ls' -> l' ∈ ls' -> token l' ≠ token l) /\
            active_leases r' role = Ok (ls ++ [l]) /\
            (forall role', role' ≠ role -> active_leases r' role' = active_leases r role')
      end
  end.
Proof.
  intros Hwf%reachable_wf. destruct (dget (_roles r) role) as [s|] eqn:Hs.
  2:{ unfold acquire, _state. by rewrite Hs. }
  destruct (active_leases_total r role s Hwf Hs) as (ts & Hts & Hal).
  pose proof (role_tokens_stored r role ts Hwf Hts) as Hst.
  eexists. split; [exact Hal|].
  destruct (match p with Some _ => _ | None => _ end) as [c|e] eqn:Hcand;
    unfold acquire, _state; rewrite Hs; cbn [ok_or rbind]; rewrite Hcand; cbn [rbind]; [|done].
  rewrite Hts. cbn [ok_or rbind].
  assert (forall r' l, r' = with_leases r (dset (_leases r) (_next_lease_token r) l)
            (dset (_role_leases r) role (ts ++ [_next_lease_token r])) (_next_lease_token r + 1) ->
          token l = _next_lease_token r ->
          (forall role' ls' l', active_leases r role' = Ok ls' -> l' ∈ ls' -> token l' ≠ token l) /\
          active_leases r' role = Ok (omap (dget (_leases r)) ts ++ [l]) /\
          (forall role', role' ≠ role -> active_leases r' role' = active_leases r role')) as Hgrant.
  { intros r' l -> Ht. split; [|by eapply granted_leases]. intros role' ls' l' Hls' Hl'.
    eapply active_leases_stored in Hl' as [Hl' _]; [|done..].
    destruct (rw_tokens _ Hwf _ _ Hl'). lia. }
  destruct ts as [|t ts].
  - rewrite bool_decide_eq_true_2, andb_false_r by done. cbn [rbind].
    eexists _, _. split; [done|]. do 3 (split; [done|]). by apply Hgrant.
  - apply Forall_cons in Hst as [[l0 Hl0] _].
    rewrite bool_decide_eq_false_2, andb_true_r by (cbn [omap list_omap]; by rewrite Hl0).
    destruct (state_exclusive s).
    + rewrite Hl0. cbn [ok_or rbind]. eauto.
    + cbn [rbind]. eexists _, _. split; [done|]. do 3 (split; [done|]). by apply Hgrant.
Qed.

(** When a component stops or crashes all its leases can be released; the
    result is exactly the leases it held, and every role keeps the leases of
    the other providers, in order. *)
Theorem release_provider_spec `{PyLib} `{PyRepr} r p :
  reachable r ->
  exists r' ls, release_provider r p = Ok (r', ls) /\ reachable r' /\
    Forall (fun l => lease_provider l = p) ls /\
    forall role s, dget (_roles r) role = Some s ->
      exists before, active_leases r role = Ok before /\
        active_leases r' role = Ok (filter (fun l => lease_provider l ≠ p) before) /\
        (forall l, l ∈ before -> lease_provider l = p -> l ∈ ls).
Proof.
  intros Hr. pose proof (reachable_wf r Hr) as Hwf.
  destruct (release_provider_Ok r p Hwf) as (r' & Hrel & Hwf' & Hro & Ht & Htok).
  eexists r', _. split; [exact Hrel|]. split; [by eapply reach_step, step_release_provider|].
  rewrite filter_bool in *.
  set (ls := filter (fun l => lease_provider l = p) (dvalues (_leases r))) in *.
  assert (forall l, l ∈ ls <-> lease_provider l = p /\ dget (_leases r) (token l) = Some l) as Hls.
  { intros l. unfold ls. rewrite list_elem_of_filter. unfold dvalues. rewrite list_elem_of_fmap.
    split; intros [Hp Hl]; (split; [done|]).
    - destruct Hl as ([t l'] & -> & Hin). apply elem_dget in Hin; [|by apply Hwf].
      cbn. by destruct (rw_tokens _ Hwf _ _ Hin) as [-> _].
    - exists (token l, l). split; [done|]. by apply dget_elem. }
  split; [apply Forall_forall; intros l Hl; by apply Hls in Hl as [? _]|].
  intros role s Hs. destruct (active_leases_total r role s Hwf Hs) as (ts & Hts & Hal).
  pose proof (role_tokens_stored r role ts Hwf Hts) as Hst. rewrite Forall_forall in Hst.
  eexists. split; [exact Hal|]. split.
  - destruct (active_leases_total r' role s Hwf') as (ts' & Hts' & ->); [by rewrite Hro|].
    rewrite Htok, Hts in Hts'. injection Hts' as <-. f_equal.
    apply omap_leases_filter; [|intros t _ Hn; by rewrite Ht, decide_False|done].
    intros t l _ Hl. destruct (rw_tokens _ Hwf _ _ Hl) as [Htl _]. split.
    + intros Hn Hp. apply Hn, list_elem_of_fmap. exists l. split; [done|]. apply Hls. by rewrite Htl.
    + intros Hp (l' & -> & [Hp' Hl']%Hls)%list_elem_of_fmap. congruence.
  - intros l Hl Hp. apply omap_leases_elem in Hl as [_ Hl]; [|done]. by apply Hls.
Qed.

(** The candidate order is the documented one.  First the installed
    providers the profile lists, in profile order without repetitions; then
    every other component that declares the role, by descending priority and
    then id; each with the highest priority it declares and exclusive when any
    of its declarations is.  No component appears twice, and the role is
    exclusive when any candidate is. *)
Theorem candidate_order `{PyLib} `{PyRepr} cs pr dis r role s :
  dict_wf cs -> make cs pr dis = Ok r -> dget (_roles r) role = Some s -> role ∉ dis ->
  exists ids explicit_part discovered_part,
    _profile_candidate_ids (dget_or pr role VNone) = Ok ids /\
    candidates s = explicit_part ++ discovered_part /\
    provider_id <$> explicit_part = filter (.∈ dkeys cs) (fromkeys ids) /\
    sorted_by discovered_leb discovered_part /\
    NoDup (provider_id <$> candidates s) /\
    (forall pid, pid ∈ provider_id <$> candidates s <->
       exists c, dget cs pid = Some c /\ (pid ∈ ids \/ role_provides c role ≠ [])) /\
    (forall cand c, cand ∈ candidates s -> dget cs (provider_id cand) = Some c ->
       role_provides c role ≠ [] ->
       strongest (role_provides c role) (priority cand, exclusive cand)) /\
    (state_exclusive s = true <-> exists cand, cand ∈ candidates s /\ exclusive cand = true).
Proof.
  intros Hwf Hm Hs Hdis. unfold make in Hm. inv_result. cbn in Hs.
  match goal with Hb : _build_roles _ _ _ = Ok _ |- _ =>
    destruct (build_roles_elem _ _ _ _ Hb) as [_ Hbuild] end.
  destruct (Hbuild role s Hs) as (ids & Hids & ->). clear Hbuild Hs.
  set (md := role_metadata cs dis role).
  assert (dict_wf md) as Hmd by apply role_metadata_wf.
  pose proof (role_metadata_spec cs dis role) as Hspec. fold md in Hspec.
  set (ex := explicit_candidates cs md role 0 [] ids).
  exists ids, ex, (discovered_candidates md role (provider_id <$> ex)).
  assert (provider_id <$> ex = filter (.∈ dkeys cs) (fromkeys ids)) as Hex
    by apply explicit_candidates_ids.
  split; [done|]. split; [done|]. split; [done|]. split; [apply discovered_sorted|].
  split; [by apply role_state_NoDup|]. split; [|split].
  - intros pid. cbn [candidates role_state]. fold ex. rewrite fmap_app, elem_of_app.
    rewrite Hex at 1. rewrite list_elem_of_filter, fromkeys_elem, dkeys_elem.
    specialize (Hspec pid Hwf Hdis). split.
    + intros [[[c Hc] Hin]|(cand & -> & Hc)%list_elem_of_fmap]; [eauto|].
      apply discovered_elem in Hc as (_ & Hc & _); [|done]. rewrite Hc in Hspec.
      destruct Hspec as (c & Hc' & _ & (y & Hy & _) & _). exists c. split; [done|]. right.
      intros Hnil. rewrite Hnil in Hy. by apply not_elem_of_nil in Hy.
    + intros (c & Hc & Hor). destruct (decide (pid ∈ ids)) as [Hin|Hin]; [left; eauto|right].
      destruct Hor as [?|Hor]; [done|]. destruct (dget md pid) as [[q e]|] eqn:Hd.
      * apply list_elem_of_fmap. eexists {| provider_id := pid |}. split; [reflexivity|].
        apply discovered_elem; [done|]. cbn. rewrite Hex, list_elem_of_filter, fromkeys_elem.
        split; [tauto|]. split; [exact Hd|done].
      * exfalso. by apply Hor, Hspec.
  - intros cand c Hc Hd Hp. specialize (Hspec (provider_id cand) Hwf Hdis).
    assert (exists d, dget md (provider_id cand) = Some d) as [d Hmdd].
    { destruct (dget md (provider_id cand)); [eauto|]. exfalso. by apply Hp, Hspec. }
    rewrite Hmdd in Hspec. destruct Hspec as (c' & Hc' & Hst). simplify_eq.
    assert (d = (priority cand, exclusive cand)) as <-; [|done].
    cbn [candidates role_state] in Hc. apply elem_of_app in Hc as [Hc|Hc].
    + apply explicit_candidates_elem in Hc as (_ & _ & _ & -> & -> & _). rewrite Hmdd. by destruct d.
    + apply discovered_elem in Hc as (_ & Hc & _); [|done]. congruence.
  - cbn [state_exclusive role_state]. apply existsb_elem.
Qed.

(** Selecting a candidate makes it the resolved provider until the
    selection is reset, which restores the first candidate; the leases are
    untouched; a component that is not a candidate cannot be selected. *)
Theorem selection_spec `{PyLib} `{PyRepr} r role p :
  reachable r ->
  match dget (_roles r) role with
  | None => select_preferred r role p = Raise (UnknownRole role) /\
            reset_preferred r role = Raise (UnknownRole role)
  | Some s =>
      (if decide (p ∈ provider_id <$> candidates s) then
         exists r', select_preferred r role p = Ok (r', p) /\ resolve r' role = Ok p /\
           _leases r' = _leases r /\
           (forall role', role' ≠ role -> preferred_provider r' role' = preferred_provider r role')
       else exists msg, select_preferred r role p = Raise (Exn UnknownCandidateError msg)) /\
      (exists r', reset_preferred r role = Ok (r', provider_id <$> head (candidates s)) /\
         _leases r' = _leases r /\
         resolve r' role = match candidates s with
                           | c :: _ => Ok (provider_id c)
                           | [] => Raise (Exn NoCandidateError (§"role has no installed candidate: " ++ role))
                           end)
  end.
Proof.
  intros Hwf%reachable_wf. destruct (dget (_roles r) role) as [s|] eqn:Hs.
  2:{ unfold select_preferred, get_candidate, list_candidates, reset_preferred, _state. by rewrite Hs. }
  assert (forall r1, _roles r1 = _roles r -> forall p', preferred_provider r1 role = Ok (Some p') ->
    p' ∈ provider_id <$> candidates s -> resolve r1 role = Ok p') as Hres.
  { intros r1 Hr1 p' Hp' Hin. unfold resolve, resolve_candidate. rewrite Hp'. cbn [ok_or rbind].
    destruct (get_candidate_complete r1 role s p') as (c & -> & <-); [by rewrite Hr1|done|done]. }
  split.
  - case_decide as Hp.
    + destruct (get_candidate_complete r role s p Hs Hp) as (c & Hc & Hid).
      unfold select_preferred. rewrite Hc. cbn [rbind]. eexists. split; [done|].
      assert (preferred_provider (with_preferred r (dset (_preferred r) role p)) role = Ok (Some p)) as Hpp.
      { unfold preferred_provider, _state. cbn. rewrite Hs, dget_dset_eq. done. }
      split; [by apply Hres|]. split; [done|]. intros role' Hne.
      unfold preferred_provider, _state. cbn. by rewrite dget_dset_ne.
    + unfold select_preferred. destruct (get_candidate r role p) as [c|e] eqn:Hc.
      { exfalso. apply get_candidate_id in Hc as (s' & Hs' & Hin). simplify_eq. done. }
      cbn [rbind]. unfold get_candidate, list_candidates, _state in Hc. rewrite Hs in Hc. cbn in Hc.
      destruct (find_first _ _); [done|]. injection Hc as <-. eauto.
  - unfold reset_preferred, _state. rewrite Hs. cbn [ok_or rbind].
    assert (preferred_provider (with_preferred r (ddel (_preferred r) role)) role =
      Ok (provider_id <$> head (candidates s))) as Hpp.
    { unfold preferred_provider, _state. cbn. rewrite Hs, dget_ddel by apply Hwf. by rewrite decide_True. }
    rewrite Hpp. cbn [rbind]. eexists. split; [done|]. split; [done|].
    destruct (candidates s) as [|c cs] eqn:Hcs.
    + unfold resolve, resolve_candidate. rewrite Hpp. done.
    + apply Hres; [done..|]. cbn. set_solver.
Qed.

(* ------------------------------------------------------------------ *)
(** ** Witnesses *)

Definition sample_role (prio : Z) : Manifest.Provide :=
  {| Manifest.kind := §"role"; Manifest.name := §"launcher"; Manifest.priority := prio;
     Manifest.exclusive := true |}.

(** Three launchers; the profile prefers the one with the lowest priority. *)
Definition sample_components : dict pystr Manifest.Component :=
  [(§"a.b:shell", Manifest.sample_provider §"a.b" §"shell" [sample_role 1]);
   (§"c.d:home", Manifest.sample_provider §"c.d" §"home" [sample_role 5; sample_role 9]);
   (§"e.f:desk", Manifest.sample_provider §"e.f" §"desk" [sample_role 7])].

Definition sample_profile_roles : dict pystr pyval :=
  [(§"launcher", VList [VStr §"a.b:shell"; VStr §"missing"; VStr §"a.b:shell"])].

Definition sample_registry : RoleRegistry :=
  match make sample_components sample_profile_roles [] with
  | Ok r => r
  | Raise _ => {| _components := []; _profile_roles := []; _disabled_roles := []; _roles := [];
                  _preferred := []; _leases := []; _role_leases := []; _next_lease_token := 1 |}
  end.

Definition sample_leased : RoleRegistry :=
  match acquire sample_registry §"launcher" None (Some §"supervisor") with
  | Ok (r, _) => r
  | Raise _ => sample_registry
  end.

Lemma sample_reachable : reachable sample_registry.
Proof. apply (reach_make sample_components sample_profile_roles []). vm_compute. reflexivity. Qed.

Lemma sample_leased_reachable : reachable sample_leased.
Proof.
  eapply reach_step; [exact sample_reachable|].
  eapply (step_acquire _ §"launcher" None (Some §"supervisor")). vm_compute. reflexivity.
Qed.

Definition sample_state : RoleState :=
  default {| candidates := []; state_exclusive := false |} (dget (_roles sample_leased) §"launcher").

Lemma reachable_leases_consistent_witness :
  provider_id <$> candidates sample_state = [§"a.b:shell"; §"c.d:home"; §"e.f:desk"] /\
  is_ok (info sample_leased §"launcher") = true.
Proof.
  split; [vm_compute; reflexivity|].
  apply (reachable_leases_consistent sample_leased §"launcher" sample_state sample_leased_reachable).
  vm_compute. reflexivity.
Defined.

Lemma acquire_spec_witness :
  exists msg, acquire sample_leased §"launcher" (Some §"e.f:desk") None =
    Raise (Exn LeaseConflictError msg).
Proof.
  pose proof (acquire_spec sample_leased §"launcher" (Some §"e.f:desk") None sample_leased_reachable) as Ha.
  assert (dget (_roles sample_leased) §"launcher" = Some sample_state) as Hst by (vm_compute; reflexivity).
  assert (exists c, get_candidate sample_leased §"launcher" §"e.f:desk" = Ok c) as [c Hc]
    by (vm_compute; eexists; reflexivity).
  rewrite Hst, Hc in Ha. destruct Ha as (ls & Hls & Ha).
  assert (state_exclusive sample_state = true) as Hex by (vm_compute; reflexivity).
  rewrite Hex, bool_decide_eq_false_2 in Ha; [exact Ha|].
  intros ->. vm_compute in Hls. discriminate Hls.
Defined.

Lemma release_provider_spec_witness :
  exists r' ls, release_provider sample_leased §"a.b:shell" = Ok (r', ls) /\ reachable r'.
Proof.
  destruct (release_provider_spec sample_leased §"a.b:shell" sample_leased_reachable)
    as (r' & ls & Hr & Hreach & _). exists r', ls. split; [exact Hr|exact Hreach].
Defined.

Lemma candidate_order_witness :
  exists ids, _profile_candidate_ids (dget_or sample_profile_roles §"launcher" VNone) = Ok ids.
Proof.
  destruct (candidate_order sample_components sample_profile_roles [] sample_registry §"launcher"
              sample_state) as (ids & _ & _ & Hids & _).
  - apply (bool_decide_unpack _). vm_compute. exact I.
  - vm_compute. reflexivity.
  - vm_compute. reflexivity.
  - apply not_elem_of_nil.
  - exists ids. exact Hids.
Defined.

Lemma selection_spec_witness :
  exists r', select_preferred sample_registry §"launcher" §"e.f:desk" = Ok (r', §"e.f:desk") /\
    resolve r' §"launcher" = Ok §"e.f:desk".
Proof.
  pose proof (selection_spec sample_registry §"launcher" §"e.f:desk" sample_reachable) as Hs.
  assert (dget (_roles sample_registry) §"launcher" = Some sample_state) as Hst
    by (vm_compute; reflexivity).
  rewrite Hst in Hs. destruct Hs as [Hs _]. rewrite decide_True in Hs.
  - destruct Hs as (r' & H1 & H2 & _). exists r'. split; [exact H1|exact H2].
  - apply (bool_decide_unpack _). vm_compute. exact I.
Defined.
End Roles.
