(* ===== verification/RolePreferences.v ===== *)
(** * The durable choices of roles ([msys_core/msysd.py])

    [preferences/roles.json]: how the choices of the user are written, what a
    write that fails leaves behind, and what a supervisor that starts makes of
    the file.  [Migration] and [RoleSwitch] decide when it is written. *)

From Stdlib Require Import ZArith.
From S2P Require Export JsonText Protocol Roles.

Module RolePreferences.
Import Json JsonText Roles.

Definition ROLE_PREFERENCES_SCHEMA : pystr := §"msys.role-preferences.v1".

(** [roles.json] and [roles.tmp], as bytes. *)
Record Disk := { roles_file : option (list N); temporary : option (list N) }.

Inductive step := MakeDirectory | WriteTemporary | ReplaceFile.

(** Which system calls fail, and what a write that fails leaves behind. *)
Class Faults := {
  fault : step -> option exn;
  torn : list N -> list N;
}.

Section RolePreferences.
Context `{PyLib} `{PyRepr} `{JsonLib} `{Faults}.

Definition preference_document (overrides : dict pystr pystr) : pyval :=
  VDict [(§"schema", VStr ROLE_PREFERENCES_SCHEMA); (§"roles", VDict ((fun kv => (kv.1, VStr kv.2)) <$> overrides))].

(** [json.dumps(document, indent=2) + "\n"], in UTF-8. *)
Definition preference_bytes (overrides : dict pystr pystr) : py (list N) :=
  t ← dumps_indented ascii_escape as_given (preference_document overrides);
  ok_or (utf8_encode (t ++ [10%N])) (Exn UnicodeEncodeError §"surrogates not allowed").

(** A temporary file that was not moved stays. *)
Definition _persist_role_preferences (overrides : dict pystr pystr) (d : Disk) : Disk * py unit :=
  match fault MakeDirectory with
  | Some e => (d, Raise e)
  | None =>
      match preference_bytes overrides with
      | Raise e => (d, Raise e)
      | Ok bytes =>
          match fault WriteTemporary with
          | Some e => ({| roles_file := roles_file d; temporary := Some (torn bytes) |}, Raise e)
          | None =>
              match fault ReplaceFile with
              | Some e => ({| roles_file := roles_file d; temporary := Some bytes |}, Raise e)
              | None => ({| roles_file := Some bytes; temporary := None |}, Ok tt)
              end
          end
      end
  end.

Definition read_roles_file (d : Disk) : py pyval :=
  bytes ← ok_or (roles_file d) (Exn OSError §"No such file or directory");
  t ← ok_or (utf8_decode bytes) (Exn UnicodeDecodeError []);
  loads t.

(** [except (FileNotFoundError, OSError, json.JSONDecodeError)] *)
Definition load_error (c : exn_class) : bool := is_os_error c || bool_decide (c = JSONDecodeError).

(** One choice of the file; one that the catalog no longer offers is ignored. *)
Definition restore_choice (st : RoleRegistry * dict pystr pystr) (kv : pystr * pyval) : RoleRegistry * dict pystr pystr :=
  match select_preferred st.1 kv.1 (py_str kv.2) with
  | Ok (r, _) => (r, dset st.2 kv.1 (py_str kv.2))
  | Raise _ => st
  end.

Definition _load_role_preferences (d : Disk) (st : RoleRegistry * dict pystr pystr)
    : py (RoleRegistry * dict pystr pystr) :=
  match read_roles_file d with
  | Raise e => if load_error (exn_type e) then Ok st else Raise e
  | Ok data =>
      roles ← py_get data §"roles" (VDict []);
      choices ← py_dict roles;
      Ok (foldl restore_choice st choices)
  end.

(** The choices a file holds, of which the catalog may no longer offer some;
    a file that cannot be read holds none. *)
Definition file_choices (d : Disk) : dict pystr pystr :=
  match (data ← read_roles_file d; roles ← py_get data §"roles" (VDict []); py_dict roles) with
  | Ok choices => (fun kv => (kv.1, py_str kv.2)) <$> choices
  | Raise _ => []
  end.
End RolePreferences.

(* ------------------------------------------------------------------ *)
(** ** Choices survive a restart *)

Section Theorems.
Context {lib : PyLib} {reprs : PyRepr} {json : JsonLib} {faults : Faults}.

(** Choices that the catalog still offers. *)
Definition offered (r : RoleRegistry) (kv : pystr * pystr) : Prop := is_ok (get_candidate r kv.1 kv.2) = true.
#[global] Instance offered_dec r kv : Decision (offered r kv).
Proof. unfold offered. apply _. Defined.

Lemma select_offered r role p : select_preferred r role p =
  (get_candidate r role p;; Ok (with_preferred r (dset (_preferred r) role p), p)).
Proof. reflexivity. Qed.

Lemma offered_same r r' kv : _roles r' = _roles r -> offered r' kv <-> offered r kv.
Proof. intros Hr. unfold offered, get_candidate, list_candidates, _state. by rewrite Hr. Qed.

(** What restoring a list of choices does. *)
Lemma restore_all r ov choices : dict_wf (ov ++ choices) ->
  exists r', foldl restore_choice (r, ov) ((fun kv => (kv.1, VStr kv.2)) <$> choices)
             = (r', ov ++ filter (offered r) choices) /\
    _roles r' = _roles r /\ _leases r' = _leases r /\ _role_leases r' = _role_leases r /\
    (forall role, dget (_preferred r') role =
       match dget (filter (offered r) choices) role with Some p => Some p | None => dget (_preferred r) role end).
Proof.
  revert r ov. induction choices as [|[k p] choices IH]; intros r ov Hwf; cbn [fmap list_fmap foldl].
  { exists r. rewrite app_nil_r. by split_and!. }
  assert (k ∉ dkeys ov /\ k ∉ dkeys choices /\ dict_wf (ov ++ choices)) as (Hov & Hch & Hwf').
  { unfold dict_wf, dkeys in *. rewrite fmap_app in *. cbn in Hwf. rewrite NoDup_app, NoDup_cons in Hwf.
    destruct Hwf as (H1 & H2 & H3 & H4). split; [intros Hin; apply (H2 _ Hin); by left|]. split; [done|].
    apply NoDup_app. split_and!; [done| |done]. intros x Hx Hx'. apply (H2 _ Hx). by right. }
  unfold restore_choice at 2. cbn [fst snd py_str]. rewrite select_offered.
  destruct (get_candidate r k p) as [c|e] eqn:Hc; cbn [rbind].
  - assert (offered r (k, p)) as Hoff by (unfold offered; cbn [fst snd]; by rewrite Hc).
    rewrite (filter_cons_True _ _ _ Hoff), (dset_fresh ov k p Hov).
    set (r1 := with_preferred r (dset (_preferred r) k p)).
    destruct (IH r1 (ov ++ [(k, p)])) as (r' & Heq & Hr & Hl & Hrl & Hp).
    { by rewrite <- app_assoc. }
    assert (filter (offered r1) choices = filter (offered r) choices) as Hsame
      by (apply list_filter_iff; intros kv; by apply offered_same).
    rewrite Hsame in *. exists r'. rewrite Heq, <- app_assoc. split_and!; [done..|]. intros role. rewrite Hp. cbn [dget].
    case_decide as Hk.
    + subst role. assert (dget (filter (offered r) choices) k = None) as ->.
      { apply dget_None. intros Hin. apply Hch. unfold dkeys in *. apply list_elem_of_fmap in Hin as (kv & -> & Hin).
        apply list_elem_of_filter in Hin as [_ Hin]. by apply list_elem_of_fmap_2. }
      unfold r1. cbn. by rewrite dget_dset_eq.
    + unfold r1. cbn. by rewrite dget_dset_ne.
  - assert (~ offered r (k, p)) as Hoff by (unfold offered; cbn [fst snd]; by rewrite Hc).
    rewrite (filter_cons_False _ _ _ Hoff). by apply IH.
Qed.

(** Loading takes exactly the choices of the file that the catalog offers. *)
Lemma load_choices d r r' ov : _load_role_preferences d (r, []) = Ok (r', ov) ->
  dict_wf (file_choices d) /\ ov = filter (offered r') (file_choices d).
Proof.
  unfold _load_role_preferences, file_choices. destruct (read_roles_file d) as [data|e] eqn:Hr; cbn [rbind].
  2: { destruct (load_error _); [|done]. intros [= <- <-]. split; [constructor|done]. }
  assert (Distinct data) as Hd.
  { unfold read_roles_file in Hr. inv_result. by eapply loads_distinct. }
  destruct (py_get data _ _) as [roles|e] eqn:Hg; cbn [rbind]; [|done].
  destruct (py_dict roles) as [choices|e] eqn:Hc; cbn [rbind]; [|done].
  apply (distinct_member _ _ _ Hd) in Hg. apply (distinct_py_dict _ _ Hg) in Hc. intros [= Hl].
  set (ch := (fun kv => (kv.1, py_str kv.2)) <$> choices).
  assert (dict_wf ch) as Hwf by (unfold ch, dict_wf, dkeys in *; by rewrite <- list_fmap_compose).
  split; [done|]. destruct (restore_all r [] ch Hwf) as (r1 & Heq & Hroles & _).
  assert (forall st, foldl restore_choice st choices = foldl restore_choice st ((fun kv => (kv.1, VStr kv.2)) <$> ch)) as Hsame.
  { unfold ch. clear. induction choices as [|[k v] l IH]; intros st; [done|]. cbn. rewrite IH. reflexivity. }
  rewrite Hsame, Heq in Hl. injection Hl as -> <-. cbn [app].
  apply list_filter_iff. intros kv. symmetry. by apply offered_same.
Qed.

Lemma preference_written ov : dict_wf ov -> Forall (fun kv => scalars kv.1 /\ scalars kv.2) ov ->
  Written scalars (preference_document ov).
Proof.
  intros Hwf Hov. constructor.
  - apply (bool_decide_unpack _). vm_compute. exact I.
  - repeat (apply List.Forall_cons || apply List.Forall_nil); cbn [fst snd]; (split; [done|]).
    + by constructor.
    + constructor; [unfold dict_wf, dkeys in *; by rewrite <- list_fmap_compose|].
      apply Forall_fmap. eapply Forall_impl; [exact Hov|]. intros kv [Hk Hv]. cbn. split; [done|by constructor].
Qed.

(** The file that is written is read back as the document. *)
Lemma preference_read ov bytes d : (encode_depth < decode_depth)%nat -> dict_wf ov ->
  Forall (fun kv => scalars kv.1 /\ scalars kv.2) ov -> preference_bytes ov = Ok bytes ->
  read_roles_file {| roles_file := Some bytes; temporary := d |} = Ok (preference_document ov).
Proof.
  intros Hd Hwf Hov. unfold preference_bytes. destruct (dumps_indented _ _ _) as [t|] eqn:Ht; [|done]. cbn [rbind].
  destruct (utf8_encode (t ++ [10%N])) as [b|] eqn:Hb; [|done]. cbn [ok_or]. intros [= ->].
  unfold read_roles_file. cbn [roles_file ok_or rbind]. rewrite (utf8_decode_encode _ _ Hb). cbn [ok_or rbind].
  pose proof (preference_written ov Hwf Hov) as Hw.
  destruct (loads_indented ascii_escape scalars plain_object read_ascii as_given (fun d => Permutation_refl d)
              plain_object_distinct _ t Hd Ht Hw) as (v & Ha & Hl).
  unfold loads. rewrite Hl. by rewrite (arranged_as_given _ _ _ Hw Ha).
Qed.

(** C24: the choices of the user survive a restart.  A write of the choices that
    succeeds leaves a file from which a supervisor that starts takes exactly the
    choices its catalog still offers, in their order: they become the preferred
    providers, the others keep the preference of the profile, and candidates and
    leases are untouched.  A write that fails, at any step, leaves the file of
    before. *)
Theorem role_choices_survive_restart ov d d' result :
  (encode_depth < decode_depth)%nat -> dict_wf ov -> Forall (fun kv => scalars kv.1 /\ scalars kv.2) ov ->
  _persist_role_preferences ov d = (d', result) ->
  match result with
  | Raise _ => roles_file d' = roles_file d
  | Ok _ => forall r, exists r', _load_role_preferences d' (r, []) = Ok (r', filter (offered r) ov) /\
      _roles r' = _roles r /\ _leases r' = _leases r /\ _role_leases r' = _role_leases r /\
      (forall role, dget (_preferred r') role =
         match dget (filter (offered r) ov) role with Some p => Some p | None => dget (_preferred r) role end)
  end.
Proof.
  intros Hd Hwf Hov. unfold _persist_role_preferences. destruct (fault MakeDirectory); [by intros [= <- <-]|].
  destruct (preference_bytes ov) as [bytes|] eqn:Hb; [|by intros [= <- <-]].
  destruct (fault WriteTemporary); [by intros [= <- <-]|]. destruct (fault ReplaceFile); [by intros [= <- <-]|].
  intros [= <- <-] r. destruct (restore_all r [] ov Hwf) as (r' & Hf & Hr). exists r'. split; [|done].
  unfold _load_role_preferences. rewrite (preference_read ov bytes None Hd Hwf Hov Hb). by exact (f_equal Ok Hf).
Qed.

(** A file that cannot be opened or is not JSON is ignored; bytes that are not
    UTF-8, or JSON that is not an object, end the start of the supervisor. *)
Lemma unreadable_choices d st : roles_file d = None -> _load_role_preferences d st = Ok st.
Proof. intros Hd. unfold _load_role_preferences, read_roles_file. by rewrite Hd. Qed.

Lemma invalid_utf8_choices bytes d st : utf8_decode bytes = None ->
  exists e, _load_role_preferences {| roles_file := Some bytes; temporary := d |} st = Raise e /\ exn_type e = UnicodeDecodeError.
Proof. intros Hb. unfold _load_role_preferences, read_roles_file. cbn [roles_file ok_or rbind]. rewrite Hb. by eexists. Qed.
End Theorems.

(* ------------------------------------------------------------------ *)
(** ** Witness *)

Definition sound_disk : Faults := {| fault _ := None; torn l := l |}.
Definition sample_choices : dict pystr pystr := [(§"launcher", §"e.f:desk"); (§"removed", §"g.h:old")].

Lemma role_choices_survive_restart_witness : exists d' r',
  @_persist_role_preferences Protocol.sample_json sound_disk sample_choices {| roles_file := None; temporary := None |} = (d', Ok tt) /\
  @_load_role_preferences plain_repr Protocol.sample_json d' (sample_registry, []) =
    Ok (r', [(§"launcher", §"e.f:desk")]) /\
  dget (_preferred r') §"launcher" = Some §"e.f:desk".
Proof.
  destruct (@_persist_role_preferences Protocol.sample_json sound_disk sample_choices {| roles_file := None; temporary := None |})
    as [d' result] eqn:Hp.
  assert (result = Ok tt) as Hresult by (transitivity (snd (d', result)); [done|]; rewrite <- Hp; vm_compute; reflexivity).
  subst result.
  destruct (@role_choices_survive_restart plain_repr Protocol.sample_json sound_disk sample_choices _ d' (Ok tt)
              ltac:(cbn; lia) ltac:(apply (bool_decide_unpack _); vm_compute; exact I)
              ltac:(repeat constructor) Hp sample_registry) as (r' & Hl & _ & _ & _ & Hpref).
  assert (filter (offered sample_registry) sample_choices = [(§"launcher", §"e.f:desk")]) as Hf by (vm_compute; reflexivity).
  exists d', r'. split; [reflexivity|]. rewrite Hl, Hf. split; [reflexivity|]. rewrite Hpref, Hf. vm_compute. reflexivity.
Defined.
End RolePreferences.
