(* ===== verification/DepGraph.v ===== *)
(** * The dependency graph of a catalog ([Msysd._validate_dependency_graph])

    A catalog is accepted when every [requires] reference is present and the
    start order ([requires], and [after] where the target exists) is acyclic.
    The nested function [visit] is a depth-first search over the mutable sets
    [visiting] and [visited] and the current [path]. *)

From Stdlib Require Import ZArith.
From stdpp Require Import relations.
From S2P Require Export Manifest.

Module DepGraph.

Record search := {
  visiting : list pystr;
  visited : list pystr;
  path : list pystr;
}.

(** [ordering_dependencies] of one component. *)
Definition ordering_dependencies (components : dict pystr Manifest.Component)
    (c : Manifest.Component) : list pystr :=
  Manifest.requires c ++ List.filter (dhas components) (Manifest.after c).

(** [path.index(key) if key in path else 0] *)
Fixpoint index_of (key : pystr) (path : list pystr) : option nat :=
  match path with
  | [] => None
  | x :: path => if decide (x = key) then Some O else S <$> index_of key path
  end.

Definition cycle_error (st : search) (key : pystr) : exn :=
  let cycle_start := default O (index_of key (path st)) in
  let cycle := drop cycle_start (path st) ++ [key] in
  Exn ValueError (§"component dependency cycle: " ++ str_join §" -> " cycle).

(** [visit(key, path)]; each level of the recursion uses one unit of fuel. *)
Fixpoint visit (fuel : nat) (components : dict pystr Manifest.Component) (st : search)
    (key : pystr) : py search :=
  match fuel with
  | O => Raise (Exn RecursionError §"maximum recursion depth exceeded")
  | S fuel =>
      raise_if (bool_decide (key ∈ visiting st)) (cycle_error st key);;
      if bool_decide (key ∈ visited st) then Ok st
      else
        let st := {| visiting := key :: visiting st; visited := visited st;
                     path := path st ++ [key] |} in
        c ← ok_or (dget components key) (Exn KeyError key);
        st ← foldR (visit fuel components) st (ordering_dependencies components c);
        Ok {| visiting := filter (.≠ key) (visiting st); visited := key :: visited st;
              path := removelast (path st) |}
  end.

Definition missing_requires (components : dict pystr Manifest.Component)
    (c : Manifest.Component) : list pystr :=
  List.filter (fun d => negb (dhas components d)) (Manifest.requires c).

Definition check_requires (components : dict pystr Manifest.Component)
    (p : pystr * Manifest.Component) : py unit :=
  let missing := missing_requires components p.2 in
  raise_if (negb (bool_decide (missing = [])))
    (Exn ValueError (§"component " ++ p.1 ++ §" requires missing components: "
                       ++ str_join §", " missing)).

(** A path never repeats a component, so one level more than there are
    components is never needed. *)
Definition search_fuel (components : dict pystr Manifest.Component) : nat := S (length components).

Definition _validate_dependency_graph (components : dict pystr Manifest.Component) : py unit :=
  foldR (fun _ p => check_requires components p) tt components;;
  foldR (visit (search_fuel components) components)
    {| visiting := []; visited := []; path := [] |} (dkeys components);;
  Ok tt.

(* ------------------------------------------------------------------ *)
(** ** The relation the search explores *)

Section Graph.
Context (components : dict pystr Manifest.Component).

(** [k] is started after [d]. *)
Definition edge (k d : pystr) : Prop :=
  exists c, dget components k = Some c /\ d ∈ ordering_dependencies components c.

Definition requires_closed : Prop :=
  forall k c, dget components k = Some c -> forall d, d ∈ Manifest.requires c -> d ∈ dkeys components.

Definition acyclic : Prop := forall k, ~ tc edge k k.

(** Consecutive elements are edges. *)
Fixpoint chain (l : list pystr) : Prop :=
  match l with
  | x :: (y :: _) as l' => edge x y /\ chain l'
  | _ => True
  end.

Lemma chain_snoc l x y : chain (l ++ [x]) -> edge x y -> chain (l ++ [x; y]).
Proof.
  induction l as [|a l IH]; [done|]. destruct l as [|b l]; [cbn; tauto|].
  intros [Hab Hl] Hxy. split; [done|]. by apply IH.
Qed.

Lemma chain_snoc_last l x : chain l -> (forall y, last l = Some y -> edge y x) -> chain (l ++ [x]).
Proof.
  induction l as [|a l IH]; [done|]. destruct l as [|b l].
  - intros _ Hl. cbn. split; [by apply Hl|done].
  - intros [Hab Hl] Hlast. split; [done|]. by apply IH.
Qed.

Lemma chain_drop n l : chain l -> chain (drop n l).
Proof.
  revert l; induction n as [|n IH]; intros [|a l]; [done..|]. intros Hl. apply IH.
  destruct l; [done|apply Hl].
Qed.

Lemma chain_tc x l y : chain (x :: l ++ [y]) -> tc edge x y.
Proof.
  revert x; induction l as [|a l IH]; intros x.
  - intros [Hxy _]. by constructor.
  - intros [Hxa Hl]. eapply tc_l; [done|]. by apply IH.
Qed.

Lemma index_of_Some key p i : index_of key p = Some i -> p !! i = Some key.
Proof.
  revert i; induction p as [|x p IH]; intros i; [done|]. cbn.
  case_decide; [intros [= <-]; by subst|]. intros (j & Hj & ->)%fmap_Some. by apply IH.
Qed.

Lemma index_of_None key p : index_of key p = None <-> key ∉ p.
Proof.
  induction p as [|x p IH]; cbn; [set_solver|]. case_decide; [set_solver|].
  rewrite fmap_None, IH. set_solver.
Qed.

(** What holds between two steps of the search. *)
Record search_inv (st : search) : Prop := {
  si_nodup : NoDup (path st);
  si_visiting : forall k, k ∈ visiting st <-> k ∈ path st;
  si_disjoint : forall k, k ∈ path st -> k ∉ visited st;
  si_path_keys : forall k, k ∈ path st -> k ∈ dkeys components;
  si_chain : chain (path st);
  si_closed : forall k d, k ∈ visited st -> edge k d -> d ∈ visited st;
  si_acyclic : forall k, k ∈ visited st -> ~ tc edge k k;
}.

(** A rejection names a real cycle. *)
Definition cycle_reported (e : exn) : Prop :=
  exists k l, chain (k :: l ++ [k]) /\
    e = Exn ValueError (§"component dependency cycle: " ++ str_join §" -> " (k :: l ++ [k])).

Lemma tc_inv_l x y : tc edge x y -> edge x y \/ exists z, edge x z /\ tc edge z y.
Proof. intros []; eauto. Qed.

Lemma closed_tc (S : list pystr) k d :
  (forall a b, a ∈ S -> edge a b -> b ∈ S) -> k ∈ S -> tc edge k d -> d ∈ S.
Proof. intros Hc Hk. induction 1; eauto. Qed.

Lemma cycle_error_reported st key :
  search_inv st -> key ∈ path st -> (forall y, last (path st) = Some y -> edge y key) ->
  cycle_reported (cycle_error st key).
Proof.
  intros [] Hin Hlast. unfold cycle_error.
  destruct (index_of key (path st)) as [i|] eqn:Hi; [|by apply index_of_None in Hi].
  apply index_of_Some in Hi. unfold default; cbn [from_option id].
  assert (drop i (path st) = key :: drop (S i) (path st)) as Hd by (by apply drop_S).
  exists key, (drop (S i) (path st)). rewrite Hd. split; [|done].
  change (chain ((key :: drop (S i) (path st)) ++ [key])). rewrite <- Hd.
  apply chain_snoc_last; [by apply chain_drop|]. intros y Hy. apply Hlast.
  rewrite <- (take_drop i (path st)), last_app, Hy. done.
Qed.

Lemma dependency_known k d : requires_closed -> edge k d -> d ∈ dkeys components.
Proof.
  intros Hr (c & Hc & Hd). unfold ordering_dependencies in Hd.
  apply elem_of_app in Hd as [Hd|Hd]; [by eapply Hr|].
  apply list_elem_of_In, filter_In in Hd as [_ Hd]. by apply dhas_true.
Qed.

Lemma path_bound st : dict_wf components -> search_inv st ->
  (length (path st) <= length components)%nat.
Proof.
  intros Hwf []. rewrite <- (length_fmap fst components).
  apply submseteq_length, NoDup_submseteq; [done|]. intros k Hk. by apply si_path_keys0.
Qed.

(** What a finished visit guarantees. *)
Definition visited_from (st : search) (keys : list pystr) (st' : search) : Prop :=
  search_inv st' /\ path st' = path st /\ (forall k, k ∈ visited st -> k ∈ visited st') /\
  (forall k, k ∈ keys -> k ∈ visited st').

(** A loop of visits, given what each visit does. *)
Lemma visits_spec fuel keys st :
  (forall st' key, search_inv st' -> path st' = path st -> key ∈ keys ->
     match visit fuel components st' key with
     | Ok st'' => visited_from st' [key] st''
     | Raise e => cycle_reported e
     end) ->
  search_inv st ->
  match foldR (visit fuel components) st keys with
  | Ok st' => visited_from st keys st'
  | Raise e => cycle_reported e
  end.
Proof.
  revert st; induction keys as [|key keys IH]; intros st Hv Hst; cbn [foldR].
  { split; [done|]. split; [done|]. split; [done|]. set_solver. }
  pose proof (Hv st key Hst eq_refl ltac:(set_solver)) as Hkey.
  destruct (visit fuel components st key) as [st1|e]; cbn [rbind]; [|done].
  destruct Hkey as (Hst1 & Hp1 & Hv1 & Hk1).
  assert (match foldR (visit fuel components) st1 keys with
          | Ok st' => visited_from st1 keys st' | Raise e => cycle_reported e end) as Hrest.
  { apply IH; [|done]. intros st' k Hst' Hp' Hk. apply Hv; [done|congruence|set_solver]. }
  destruct (foldR _ _ keys) as [st2|e]; [|done].
  destruct Hrest as (Hst2 & Hp2 & Hv2 & Hk2). split; [done|]. split; [congruence|].
  split; [eauto|]. intros k [->|Hk]%elem_of_cons; [apply Hv2, Hk1; set_solver|eauto].
Qed.

(** Entering and leaving a component keep the invariant. *)
Lemma search_enter st key :
  search_inv st -> key ∈ dkeys components -> key ∉ path st -> key ∉ visited st ->
  (forall y, last (path st) = Some y -> edge y key) ->
  search_inv {| visiting := key :: visiting st; visited := visited st; path := path st ++ [key] |}.
Proof.
  intros [] Hk Hp Hv Hlast. split; cbn; try done.
  - apply NoDup_app. split; [done|]. split; [set_solver|apply NoDup_singleton].
  - intros k. rewrite elem_of_cons, elem_of_app, list_elem_of_singleton, si_visiting0. tauto.
  - intros k [?| ->%list_elem_of_singleton]%elem_of_app; eauto.
  - intros k [?| ->%list_elem_of_singleton]%elem_of_app; eauto.
  - by apply chain_snoc_last.
Qed.

Lemma search_leave st key p :
  search_inv st -> path st = p ++ [key] -> (forall d, edge key d -> d ∈ visited st) ->
  search_inv {| visiting := filter (.≠ key) (visiting st); visited := key :: visited st;
                path := removelast (path st) |}.
Proof.
  intros [] Hp Hdeps. rewrite Hp in *. rewrite removelast_last.
  apply NoDup_app in si_nodup0 as (Hnd & Hdis & _).
  assert (key ∉ p) as Hkp by (intros Hin; apply (Hdis key Hin); set_solver).
  assert (key ∉ visited st) as Hkv by (apply si_disjoint0; set_solver).
  split; cbn; [done| | | | | |].
  - intros k. rewrite list_elem_of_filter, si_visiting0, elem_of_app, list_elem_of_singleton.
    split; [tauto|]. intros Hk. split; [|tauto]. by intros ->.
  - intros k Hk. apply not_elem_of_cons. split; [by intros ->|]. apply si_disjoint0. set_solver.
  - intros k Hk. apply si_path_keys0. set_solver.
  - clear -si_chain0. revert si_chain0. induction p as [|x p IH]; [done|].
    destruct p as [|y p]; [done|]. intros [? ?]. split; [done|]. by apply IH.
  - intros k d [->|Hk]%elem_of_cons Hd; apply elem_of_cons; right; eauto.
  - intros k [->|Hk]%elem_of_cons Hc; [|by eapply si_acyclic0].
    apply Hkv. apply tc_inv_l in Hc as [He|(d & He & Hd)]; [by apply Hdeps|].
    by eapply (closed_tc (visited st) d); [|apply Hdeps|].
Qed.

Lemma visit_spec fuel st key :
  dict_wf components -> requires_closed ->
  search_inv st -> key ∈ dkeys components ->
  (forall y, last (path st) = Some y -> edge y key) ->
  (length components < fuel + length (path st))%nat ->
  match visit fuel components st key with
  | Ok st' => visited_from st [key] st'
  | Raise e => cycle_reported e
  end.
Proof.
  intros Hwf Hreq. revert st key; induction fuel as [|fuel IH]; intros st key Hst Hk Hlast Hfuel.
  { pose proof (path_bound st Hwf Hst). lia. }
  cbn [visit]. case_bool_decide as Hvis; cbn [raise_if rbind].
  { apply cycle_error_reported; [done| |done]. by apply Hst. }
  case_bool_decide as Hdone.
  { split; [done|]. split; [done|]. split; [done|]. set_solver. }
  apply dkeys_elem in Hk as Hc. destruct Hc as [c Hc]. rewrite Hc. cbn [ok_or rbind].
  set (st0 := {| visiting := _; visited := _; path := _ |}).
  assert (search_inv st0) as Hst0.
  { apply search_enter; [done|done| |done|done]. by rewrite <- (si_visiting st Hst). }
  opose proof (visits_spec fuel (ordering_dependencies components c) st0 _ Hst0) as Hloop.
  { intros st' d Hst' Hp' Hd. assert (edge key d) as He by (exists c; done).
    apply IH; [done|by eapply dependency_known| |].
    - intros y. rewrite Hp'. unfold st0; cbn. rewrite last_snoc. by intros [= <-].
    - rewrite Hp'. unfold st0; cbn. rewrite length_app. cbn. lia. }
  destruct (foldR _ st0 _) as [st1|e]; cbn [rbind]; [|done].
  destruct Hloop as (Hst1 & Hp1 & Hv1 & Hd1). split.
  - apply (search_leave _ _ (path st)); [done|done|]. intros d (c' & Hc' & Hd). simplify_eq. eauto.
  - cbn. rewrite Hp1. unfold st0 at 1. cbn. rewrite removelast_last. split; [done|].
    split; [intros k Hk'; apply elem_of_cons; right; by apply Hv1|]. set_solver.
Qed.

Lemma search_inv_empty : search_inv {| visiting := []; visited := []; path := [] |}.
Proof. split; cbn; try done; [constructor|set_solver..]. Qed.

Lemma check_requires_Ok : dict_wf components ->
  foldR (fun _ p => check_requires components p) tt components = Ok tt <-> requires_closed.
Proof.
  intros Hwf. assert (forall l, foldR (fun _ p => check_requires components p) tt l = Ok tt <->
    forall p, p ∈ l -> missing_requires components p.2 = []) as ->.
  { induction l as [|p l IH]; cbn [foldR]; [set_solver|].
    unfold check_requires at 1. case_bool_decide as Hm; cbn.
    - rewrite IH. set_solver.
    - split; [done|]. intros Hall. exfalso. apply Hm, Hall. set_solver. }
  unfold missing_requires. split.
  - intros Hall k c Hc d Hd. apply dget_elem in Hc. specialize (Hall _ Hc). cbn in Hall.
    destruct (dhas components d) eqn:Hh; [by apply dhas_true|exfalso].
    assert (d ∈ List.filter (fun d => negb (dhas components d)) (Manifest.requires c)) as Hin.
    { apply list_elem_of_In, filter_In. rewrite <- list_elem_of_In, Hh. done. }
    rewrite Hall in Hin. by apply not_elem_of_nil in Hin.
  - intros Hr [k c] Hp. apply elem_dget in Hp; [|done]. cbn.
    destruct (List.filter _ _) as [|d l] eqn:Hf; [done|exfalso].
    assert (d ∈ List.filter (fun d => negb (dhas components d)) (Manifest.requires c)) as Hin
      by (rewrite Hf; set_solver).
    apply list_elem_of_In, filter_In in Hin as [Hd%list_elem_of_In Hh].
    apply (Hr _ _ Hp), dhas_true in Hd. by rewrite Hd in Hh.
Qed.
End Graph.

(** C30: a catalog is accepted exactly when every required component is in it
    and no component is, through [requires] and [after], started after itself;
    the search always ends, and a rejection is a [ValueError] that either
    follows a missing requirement or names an actual cycle. *)
Theorem validate_dependency_graph_spec components :
  dict_wf components ->
  match _validate_dependency_graph components with
  | Ok _ => requires_closed components /\ acyclic components
  | Raise e =>
      exn_type e = ValueError /\
      (~ requires_closed components \/
       (requires_closed components /\ cycle_reported components e /\ ~ acyclic components))
  end.
Proof.
  intros Hwf. unfold _validate_dependency_graph.
  pose proof (check_requires_Ok components Hwf) as Hreq.
  destruct (foldR (fun _ p => check_requires components p) tt components) as [[]|e] eqn:Hc; cbn [rbind].
  2:{ split.
      - clear Hreq. revert Hc. generalize components at 2 as l.
        induction l as [|p l IH]; [done|]. cbn [foldR]. unfold check_requires at 1.
        destruct (negb _); cbn; [by intros [= <-]|done].
      - left. intros Hr. apply Hreq in Hr. done. }
  assert (requires_closed components) as Hr by (by apply Hreq).
  opose proof (visits_spec components (search_fuel components) (dkeys components)
    {| visiting := []; visited := []; path := [] |} _ (search_inv_empty components)) as Hs.
  { intros st' key Hst' Hp' Hk. apply visit_spec; rewrite ?Hp'; [done..|].
    unfold search_fuel. cbn. lia. }
  destruct (foldR (visit _ components) _ _) as [st|e]; cbn [rbind].
  - destruct Hs as ([] & _ & _ & Hall). split; [done|]. intros k Hk. apply (si_acyclic0 k); [|done].
    apply Hall. apply tc_inv_l in Hk as [(c & Hc' & _)|(d & (c & Hc' & _) & _)];
      by eapply dget_Some_key.
  - destruct Hs as (k & l & Hch & ->). split; [done|]. right. split; [done|].
    split; [by exists k, l|]. intros Ha. by apply (Ha k), (chain_tc components k l k).
Qed.

(* ------------------------------------------------------------------ *)
(** ** Witness *)

Definition sample_node (cid : pystr) (requires after : list pystr) : pystr * Manifest.Component :=
  let c := Manifest.sample_component §"p" cid in
  (Manifest.key_of §"p" cid,
   {| Manifest.package_id := Manifest.package_id c; Manifest.package_version := §"1";
      Manifest.id := cid; Manifest.exec := Manifest.exec c; Manifest.lifecycle := §"manual";
      Manifest.package_kind := §"application"; Manifest.package_name := §"p";
      Manifest.package_icons := []; Manifest.runtime := §"custom"; Manifest.restart := §"never";
      Manifest.idle_timeout_ms := None; Manifest.cwd := None; Manifest.env := [];
      Manifest.readiness_mode := §"exec"; Manifest.readiness_timeout_ms := 5000;
      Manifest.provides := []; Manifest.requires := requires; Manifest.wants := [];
      Manifest.after := after; Manifest.windowing := []; Manifest.activation := [];
      Manifest.permissions := []; Manifest.isolation := Isolation.spec_default;
      Manifest.raw := []; Manifest.manifest_path := None; Manifest.package_summary := [];
      Manifest.package_i18n := VNone |}).

Definition sample_graph : dict pystr Manifest.Component :=
  [sample_node §"a" [§"p:b"] [§"p:gone"]; sample_node §"b" [] [§"p:c"]; sample_node §"c" [] []].

Definition cyclic_graph : dict pystr Manifest.Component :=
  [sample_node §"a" [§"p:b"] []; sample_node §"b" [] [§"p:a"]].

Lemma validate_dependency_graph_spec_witness :
  acyclic sample_graph /\ ~ acyclic cyclic_graph.
Proof.
  split.
  - opose proof (validate_dependency_graph_spec sample_graph _) as H1;
      [apply (bool_decide_unpack _); vm_compute; exact I|].
    assert (_validate_dependency_graph sample_graph = Ok tt) as Hv by (vm_compute; reflexivity).
    rewrite Hv in H1. apply H1.
  - opose proof (validate_dependency_graph_spec cyclic_graph _) as H1;
      [apply (bool_decide_unpack _); vm_compute; exact I|].
    assert (exists m, _validate_dependency_graph cyclic_graph = Raise (Exn ValueError m)) as [m Hv]
      by (vm_compute; eexists; reflexivity).
    rewrite Hv in H1. destruct H1 as [_ [Hr|(_ & _ & Ha)]]; [|exact Ha].
    exfalso. apply Hr, check_requires_Ok; [apply (bool_decide_unpack _); vm_compute; exact I|].
    vm_compute. reflexivity.
Defined.
End DepGraph.
