(* ===== verification/Msysd.v ===== *)
(** * The supervisor's state ([Msysd] and [Instance] in [msys_core/msysd.py])

    An [Instance] is one generation of a component.  Instances are mutable
    objects that several tasks hold at once, so they live in a heap and are
    referred to by their identity, as are the futures of the calls they answer; [instances] names the current one of each
    component.  The catalog's [Component] objects have an identity too, since the
    code compares them with [is]: [component_object] and [component_objects].
    Times are readings of the monotonic clock in nanoseconds. *)

From Stdlib Require Import ZArith.
From stdpp Require Export gmap.
From S2P Require Export Roles Services.

Module Msysd.

(** A child process: its pid and, once it was reaped, its return code. *)
Record Process := { pid : Z; returncode : option Z }.

Record Instance := {
  component : Manifest.Component;
  component_object : nat;
  generation : Z;
  process : option Process;
  sock : bool;
  state : pystr;
  ready : bool;
  started_at : Z;
  subscriptions : gset pystr;
  pending_calls : dict Z nat;
  in_flight_calls : Z;
  idle_task : option nat;
  finalized : bool;
  backoff_until : Z;
  transition_closing : bool;
}.

(** An [_idle_stop_after] task, whether its cancellation was requested and
    whether it has finished. *)
Record IdleTask := { task_instance : nat; task_cancelled : bool; task_done : bool }.

(** [recovery_allowed] is that field of the [display_outage] record, when there
    is one. *)
Record Supervisor := {
  heap : gmap nat Instance;
  instances : dict pystr nat;
  components : dict pystr Manifest.Component;
  component_objects : dict pystr nat;
  role_registry : Roles.RoleRegistry;
  service_catalog : Services.ServiceCatalog;
  catalog_epoch : Z;
  next_request_id : Z;
  stopping : bool;
  stop_requests : gset pystr;
  foreground_stack : list pystr;
  backgrounded_components : gset pystr;
  failure_history : dict pystr (list Z);
  quarantined : gset pystr;
  quarantine_times : dict pystr Z;
  recovery_allowed : option (gset pystr);
  idle_tasks : gmap nat IdleTask;
  futures : gmap nat (option (dict pystr pyval));
}.

Definition set_sock (v : bool) (i : Instance) : Instance :=
  {| component := component i; component_object := component_object i;
     generation := generation i; process := process i; sock := v; state := state i;
     ready := ready i; started_at := started_at i; subscriptions := subscriptions i;
     pending_calls := pending_calls i; in_flight_calls := in_flight_calls i;
     idle_task := idle_task i; finalized := finalized i; backoff_until := backoff_until i;
     transition_closing := transition_closing i |}.

Definition set_state (v : pystr) (i : Instance) : Instance :=
  {| component := component i; component_object := component_object i;
     generation := generation i; process := process i; sock := sock i; state := v;
     ready := ready i; started_at := started_at i; subscriptions := subscriptions i;
     pending_calls := pending_calls i; in_flight_calls := in_flight_calls i;
     idle_task := idle_task i; finalized := finalized i; backoff_until := backoff_until i;
     transition_closing := transition_closing i |}.

Definition set_ready (v : bool) (i : Instance) : Instance :=
  {| component := component i; component_object := component_object i;
     generation := generation i; process := process i; sock := sock i; state := state i;
     ready := v; started_at := started_at i; subscriptions := subscriptions i;
     pending_calls := pending_calls i; in_flight_calls := in_flight_calls i;
     idle_task := idle_task i; finalized := finalized i; backoff_until := backoff_until i;
     transition_closing := transition_closing i |}.

Definition set_subscriptions (v : gset pystr) (i : Instance) : Instance :=
  {| component := component i; component_object := component_object i;
     generation := generation i; process := process i; sock := sock i; state := state i;
     ready := ready i; started_at := started_at i; subscriptions := v;
     pending_calls := pending_calls i; in_flight_calls := in_flight_calls i;
     idle_task := idle_task i; finalized := finalized i; backoff_until := backoff_until i;
     transition_closing := transition_closing i |}.

Definition set_pending_calls (v : dict Z nat) (i : Instance) : Instance :=
  {| component := component i; component_object := component_object i;
     generation := generation i; process := process i; sock := sock i; state := state i;
     ready := ready i; started_at := started_at i; subscriptions := subscriptions i;
     pending_calls := v; in_flight_calls := in_flight_calls i; idle_task := idle_task i;
     finalized := finalized i; backoff_until := backoff_until i;
     transition_closing := transition_closing i |}.

Definition set_in_flight_calls (v : Z) (i : Instance) : Instance :=
  {| component := component i; component_object := component_object i;
     generation := generation i; process := process i; sock := sock i; state := state i;
     ready := ready i; started_at := started_at i; subscriptions := subscriptions i;
     pending_calls := pending_calls i; in_flight_calls := v; idle_task := idle_task i;
     finalized := finalized i; backoff_until := backoff_until i;
     transition_closing := transition_closing i |}.

Definition set_idle_task (v : option nat) (i : Instance) : Instance :=
  {| component := component i; component_object := component_object i;
     generation := generation i; process := process i; sock := sock i; state := state i;
     ready := ready i; started_at := started_at i; subscriptions := subscriptions i;
     pending_calls := pending_calls i; in_flight_calls := in_flight_calls i; idle_task := v;
     finalized := finalized i; backoff_until := backoff_until i;
     transition_closing := transition_closing i |}.

Definition set_finalized (v : bool) (i : Instance) : Instance :=
  {| component := component i; component_object := component_object i;
     generation := generation i; process := process i; sock := sock i; state := state i;
     ready := ready i; started_at := started_at i; subscriptions := subscriptions i;
     pending_calls := pending_calls i; in_flight_calls := in_flight_calls i;
     idle_task := idle_task i; finalized := v; backoff_until := backoff_until i;
     transition_closing := transition_closing i |}.

Definition set_backoff_until (v : Z) (i : Instance) : Instance :=
  {| component := component i; component_object := component_object i;
     generation := generation i; process := process i; sock := sock i; state := state i;
     ready := ready i; started_at := started_at i; subscriptions := subscriptions i;
     pending_calls := pending_calls i; in_flight_calls := in_flight_calls i;
     idle_task := idle_task i; finalized := finalized i; backoff_until := v;
     transition_closing := transition_closing i |}.

Definition set_transition_closing (v : bool) (i : Instance) : Instance :=
  {| component := component i; component_object := component_object i;
     generation := generation i; process := process i; sock := sock i; state := state i;
     ready := ready i; started_at := started_at i; subscriptions := subscriptions i;
     pending_calls := pending_calls i; in_flight_calls := in_flight_calls i;
     idle_task := idle_task i; finalized := finalized i; backoff_until := backoff_until i;
     transition_closing := v |}.

Definition set_heap (v : gmap nat Instance) (s : Supervisor) : Supervisor :=
  {| heap := v; instances := instances s; components := components s;
     component_objects := component_objects s; role_registry := role_registry s;
     service_catalog := service_catalog s; catalog_epoch := catalog_epoch s;
     next_request_id := next_request_id s; stopping := stopping s;
     stop_requests := stop_requests s; foreground_stack := foreground_stack s;
     backgrounded_components := backgrounded_components s; failure_history := failure_history s;
     quarantined := quarantined s; quarantine_times := quarantine_times s;
     recovery_allowed := recovery_allowed s; idle_tasks := idle_tasks s; futures := futures s |}.

Definition set_instances (v : dict pystr nat) (s : Supervisor) : Supervisor :=
  {| heap := heap s; instances := v; components := components s;
     component_objects := component_objects s; role_registry := role_registry s;
     service_catalog := service_catalog s; catalog_epoch := catalog_epoch s;
     next_request_id := next_request_id s; stopping := stopping s;
     stop_requests := stop_requests s; foreground_stack := foreground_stack s;
     backgrounded_components := backgrounded_components s; failure_history := failure_history s;
     quarantined := quarantined s; quarantine_times := quarantine_times s;
     recovery_allowed := recovery_allowed s; idle_tasks := idle_tasks s; futures := futures s |}.

Definition set_role_registry (v : Roles.RoleRegistry) (s : Supervisor) : Supervisor :=
  {| heap := heap s; instances := instances s; components := components s;
     component_objects := component_objects s; role_registry := v;
     service_catalog := service_catalog s; catalog_epoch := catalog_epoch s;
     next_request_id := next_request_id s; stopping := stopping s;
     stop_requests := stop_requests s; foreground_stack := foreground_stack s;
     backgrounded_components := backgrounded_components s; failure_history := failure_history s;
     quarantined := quarantined s; quarantine_times := quarantine_times s;
     recovery_allowed := recovery_allowed s; idle_tasks := idle_tasks s; futures := futures s |}.

Definition set_next_request_id (v : Z) (s : Supervisor) : Supervisor :=
  {| heap := heap s; instances := instances s; components := components s;
     component_objects := component_objects s; role_registry := role_registry s;
     service_catalog := service_catalog s; catalog_epoch := catalog_epoch s;
     next_request_id := v; stopping := stopping s; stop_requests := stop_requests s;
     foreground_stack := foreground_stack s;
     backgrounded_components := backgrounded_components s; failure_history := failure_history s;
     quarantined := quarantined s; quarantine_times := quarantine_times s;
     recovery_allowed := recovery_allowed s; idle_tasks := idle_tasks s; futures := futures s |}.

Definition set_stop_requests (v : gset pystr) (s : Supervisor) : Supervisor :=
  {| heap := heap s; instances := instances s; components := components s;
     component_objects := component_objects s; role_registry := role_registry s;
     service_catalog := service_catalog s; catalog_epoch := catalog_epoch s;
     next_request_id := next_request_id s; stopping := stopping s; stop_requests := v;
     foreground_stack := foreground_stack s;
     backgrounded_components := backgrounded_components s; failure_history := failure_history s;
     quarantined := quarantined s; quarantine_times := quarantine_times s;
     recovery_allowed := recovery_allowed s; idle_tasks := idle_tasks s; futures := futures s |}.

Definition set_foreground_stack (v : list pystr) (s : Supervisor) : Supervisor :=
  {| heap := heap s; instances := instances s; components := components s;
     component_objects := component_objects s; role_registry := role_registry s;
     service_catalog := service_catalog s; catalog_epoch := catalog_epoch s;
     next_request_id := next_request_id s; stopping := stopping s;
     stop_requests := stop_requests s; foreground_stack := v;
     backgrounded_components := backgrounded_components s; failure_history := failure_history s;
     quarantined := quarantined s; quarantine_times := quarantine_times s;
     recovery_allowed := recovery_allowed s; idle_tasks := idle_tasks s; futures := futures s |}.

Definition set_backgrounded_components (v : gset pystr) (s : Supervisor) : Supervisor :=
  {| heap := heap s; instances := instances s; components := components s;
     component_objects := component_objects s; role_registry := role_registry s;
     service_catalog := service_catalog s; catalog_epoch := catalog_epoch s;
     next_request_id := next_request_id s; stopping := stopping s;
     stop_requests := stop_requests s; foreground_stack := foreground_stack s;
     backgrounded_components := v; failure_history := failure_history s;
     quarantined := quarantined s; quarantine_times := quarantine_times s;
     recovery_allowed := recovery_allowed s; idle_tasks := idle_tasks s; futures := futures s |}.

Definition set_failure_history (v : dict pystr (list Z)) (s : Supervisor) : Supervisor :=
  {| heap := heap s; instances := instances s; components := components s;
     component_objects := component_objects s; role_registry := role_registry s;
     service_catalog := service_catalog s; catalog_epoch := catalog_epoch s;
     next_request_id := next_request_id s; stopping := stopping s;
     stop_requests := stop_requests s; foreground_stack := foreground_stack s;
     backgrounded_components := backgrounded_components s; failure_history := v;
     quarantined := quarantined s; quarantine_times := quarantine_times s;
     recovery_allowed := recovery_allowed s; idle_tasks := idle_tasks s; futures := futures s |}.

Definition set_quarantined (v : gset pystr) (s : Supervisor) : Supervisor :=
  {| heap := heap s; instances := instances s; components := components s;
     component_objects := component_objects s; role_registry := role_registry s;
     service_catalog := service_catalog s; catalog_epoch := catalog_epoch s;
     next_request_id := next_request_id s; stopping := stopping s;
     stop_requests := stop_requests s; foreground_stack := foreground_stack s;
     backgrounded_components := backgrounded_components s; failure_history := failure_history s;
     quarantined := v; quarantine_times := quarantine_times s;
     recovery_allowed := recovery_allowed s; idle_tasks := idle_tasks s; futures := futures s |}.

Definition set_quarantine_times (v : dict pystr Z) (s : Supervisor) : Supervisor :=
  {| heap := heap s; instances := instances s; components := components s;
     component_objects := component_objects s; role_registry := role_registry s;
     service_catalog := service_catalog s; catalog_epoch := catalog_epoch s;
     next_request_id := next_request_id s; stopping := stopping s;
     stop_requests := stop_requests s; foreground_stack := foreground_stack s;
     backgrounded_components := backgrounded_components s; failure_history := failure_history s;
     quarantined := quarantined s; quarantine_times := v; recovery_allowed := recovery_allowed s;
     idle_tasks := idle_tasks s; futures := futures s |}.

Definition set_idle_tasks (v : gmap nat IdleTask) (s : Supervisor) : Supervisor :=
  {| heap := heap s; instances := instances s; components := components s;
     component_objects := component_objects s; role_registry := role_registry s;
     service_catalog := service_catalog s; catalog_epoch := catalog_epoch s;
     next_request_id := next_request_id s; stopping := stopping s;
     stop_requests := stop_requests s; foreground_stack := foreground_stack s;
     backgrounded_components := backgrounded_components s; failure_history := failure_history s;
     quarantined := quarantined s; quarantine_times := quarantine_times s;
     recovery_allowed := recovery_allowed s; idle_tasks := v; futures := futures s |}.

Definition set_futures (v : gmap nat (option (dict pystr pyval))) (s : Supervisor) : Supervisor :=
  {| heap := heap s; instances := instances s; components := components s;
     component_objects := component_objects s; role_registry := role_registry s;
     service_catalog := service_catalog s; catalog_epoch := catalog_epoch s;
     next_request_id := next_request_id s; stopping := stopping s;
     stop_requests := stop_requests s; foreground_stack := foreground_stack s;
     backgrounded_components := backgrounded_components s; failure_history := failure_history s;
     quarantined := quarantined s; quarantine_times := quarantine_times s;
     recovery_allowed := recovery_allowed s; idle_tasks := idle_tasks s; futures := v |}.

(** [process is not None and process.poll() is None] *)
Definition running (i : Instance) : bool :=
  match process i with
  | Some p => bool_decide (returncode p = None)
  | None => false
  end.

Definition key (i : Instance) : pystr := Manifest.key (component i).

Definition seconds (n : Z) : Z := (n * 1000000000)%Z.
Definition millis (n : Z) : Z := (n * 1000000)%Z.

(** [self.instances.get(k)] as an object. *)
Definition current (s : Supervisor) (k : pystr) : option Instance :=
  dget (instances s) k ≫= fun n => heap s !! n.

(** [self.instances.get(k) is instance] *)
Definition is_current (s : Supervisor) (k : pystr) (n : nat) : bool :=
  bool_decide (dget (instances s) k = Some n).

(** [self.components.get(k) is instance.component] *)
Definition component_current (s : Supervisor) (i : Instance) : bool :=
  bool_decide (dget (component_objects s) (key i) = Some (component_object i)).

(** Mutation of the object [n]. *)
Definition update (n : nat) (f : Instance -> Instance) (s : Supervisor) : Supervisor :=
  set_heap (alter f n (heap s)) s.

Lemma heap_update n f s m : heap (update n f s) !! m = if decide (m = n) then f <$> heap s !! m else heap s !! m.
Proof.
  unfold update. cbn. case_decide; subst; [by rewrite lookup_alter_eq|by rewrite lookup_alter_ne].
Qed.
End Msysd.
