(* ===== verification/Foreground.v ===== *)
(** * The foreground stack and memory reclaim ([msys_core/msysd.py])

    Core remembers which ordinary apps the user has in front of each other
    ([foreground_stack], most recent first) and which of them Home has hidden
    ([backgrounded_components]).  Under memory pressure it stops the oldest
    background app. *)

From Stdlib Require Import ZArith.
From S2P Require Export Msysd.

Module Foreground.
Import Msysd.

(* ------------------------------------------------------------------ *)
(** ** Which components are foreground apps *)

Definition provides_role (c : Manifest.Component) (role : pystr) : bool :=
  existsb (fun p => bool_decide (Manifest.kind p = §"role") && bool_decide (Manifest.name p = role))
    (Manifest.provides c).

Section Apps.
Context `{PyLib} `{PyRepr}.

(** [str(component.windowing.get(field, ""))] *)
Definition windowing_str (c : Manifest.Component) (field : pystr) : pystr :=
  py_str (dget_or (Manifest.windowing c) field (VStr [])).

Definition _is_foreground_app (c : Manifest.Component) : bool :=
  bool_decide (Manifest.lifecycle c = §"manual")
  && negb (provides_role c §"screen-shield")
  && (bool_decide (windowing_str c §"mode" = §"window")
      || bool_decide (windowing_str c §"mode" = §"fullscreen")).

Definition _is_ordinary_application (c : Manifest.Component) : bool :=
  bool_decide (Manifest.package_kind c = §"application")
  && (bool_decide (Manifest.lifecycle c = §"manual")
      || bool_decide (Manifest.lifecycle c = §"on-demand")).

(** The window identity reported for a component. *)
Definition window_identity (c : Manifest.Component) : pystr :=
  match dget_or (Manifest.windowing c) §"identity" (VDict []) with
  | VDict d => py_str (py_or (py_or (dget_or d §"x11_wm_class" VNone) (dget_or d §"app_id" VNone))
                         (VStr []))
  | _ => []
  end.
End Apps.

(* ------------------------------------------------------------------ *)
(** ** Stack operations *)

Definition _mark_foreground (k : pystr) (s : Supervisor) : Supervisor :=
  set_backgrounded_components (backgrounded_components s ∖ {[k]})
    (set_foreground_stack (k :: filter (.≠ k) (foreground_stack s)) s).

Definition _forget_foreground (k : pystr) (s : Supervisor) : Supervisor :=
  let was_backgrounded := bool_decide (k ∈ backgrounded_components s) in
  let stack := filter (.≠ k) (foreground_stack s) in
  let backgrounded := backgrounded_components s ∖ {[k]} in
  let backgrounded :=
    match stack with
    | front :: _ => if was_backgrounded then {[front]} ∪ backgrounded else backgrounded
    | [] => backgrounded
    end in
  set_backgrounded_components backgrounded (set_foreground_stack stack s).

(** The result is [(accepted, already)]. *)
Definition _background_foreground (k : pystr) (s : Supervisor) : Supervisor * (bool * bool) :=
  match foreground_stack s with
  | front :: _ =>
      if bool_decide (front = k)
      then (set_backgrounded_components ({[k]} ∪ backgrounded_components s) s,
            (true, bool_decide (k ∈ backgrounded_components s)))
      else (s, (false, false))
  | [] => (s, (false, false))
  end.

(** The app in front of the user: the top of the stack unless Home hid it. *)
Definition front (s : Supervisor) : option pystr :=
  match foreground_stack s with
  | k :: _ => if bool_decide (k ∈ backgrounded_components s) then None else Some k
  | [] => None
  end.

(* ------------------------------------------------------------------ *)
(** ** What the user sees *)

Section Entries.
Context `{PyLib} `{PyRepr}.
(** [process_memory_snapshot] reads procfs. *)
Context (process_memory_snapshot : Z -> pyval).

Definition foreground_entry (s : Supervisor) (include_resources : bool) (visible_index : nat)
    (k : pystr) (i : Instance) : dict pystr pyval :=
  let is_background := (0 <? visible_index)%nat || bool_decide (k ∈ backgrounded_components s) in
  [(§"component", VStr k);
   (§"title", py_or (dget_or (Manifest.raw (component i)) §"name" VNone) (VStr k));
   (§"identity", VStr (window_identity (component i)));
   (§"state", VStr (if is_background then §"background" else state i));
   (§"lifecycle", VStr (Manifest.lifecycle (component i)))]
  ++ match include_resources, process i with
     | true, Some p => [(§"resources", process_memory_snapshot (pid p))]
     | _, _ => []
     end.

Fixpoint entries_from (s : Supervisor) (include_resources : bool) (visible_index : nat)
    (stack : list pystr) : list (dict pystr pyval) :=
  match stack with
  | [] => []
  | k :: stack =>
      match current s k with
      | Some i =>
          if running i
          then foreground_entry s include_resources visible_index k i
               :: entries_from s include_resources (S visible_index) stack
          else entries_from s include_resources visible_index stack
      | None => entries_from s include_resources visible_index stack
      end
  end.

Definition _foreground_entries (s : Supervisor) (include_resources : bool)
    : list (dict pystr pyval) :=
  entries_from s include_resources 0 (foreground_stack s).

(** The generation [_announce_foreground_closing] picks, searching a copy of
    the stack from the front. *)
Definition closing_target (s : Supervisor) : option (pystr * nat) :=
  find_first (fun kn =>
    match heap s !! kn.2 with
    | Some i => negb (bool_decide (kn.1 ∈ backgrounded_components s))
                && _is_foreground_app (component i) && negb (transition_closing i) && running i
    | None => false
    end)
    (omap (fun k => (fun n => (k, n)) <$> dget (instances s) k) (foreground_stack s)).

(** The instance is marked before the transition is published. *)
Definition _announce_foreground_closing (s : Supervisor) : Supervisor * option nat :=
  match closing_target s with
  | Some (_, n) => (update n (set_transition_closing true) s, Some n)
  | None => (s, None)
  end.
End Entries.

(* ------------------------------------------------------------------ *)
(** ** Memory reclaim *)

Record MemoryReclaimPolicy := {
  enabled : bool;
  available_kib : Z;
  poll_ms : Z;
  min_app_age_ms : Z;
}.

Definition policy_default : MemoryReclaimPolicy :=
  {| enabled := false; available_kib := 49152; poll_ms := 2000; min_app_age_ms := 15000 |}.

Definition value_error (m : pystr) : exn := Exn ValueError m.

(** [bounded(name, default, minimum, maximum)] *)
Definition bounded (raw : dict pystr pyval) (name : pystr) (default minimum maximum : Z) : py Z :=
  value ← ok_or (as_int (dget_or raw name (VInt default)))
    (value_error (§"profile memory_reclaim." ++ name ++ §" must be an integer"));
  raise_if (negb ((minimum <=? value)%Z && (value <=? maximum)%Z))
    (value_error (§"profile memory_reclaim." ++ name ++ §" must be between "
                    ++ dec_Z minimum ++ §" and " ++ dec_Z maximum));;
  Ok value.

Definition policy_fields : list pystr :=
  [§"enabled"; §"available_kib"; §"poll_ms"; §"min_app_age_ms"].

Definition from_profile (profile : dict pystr pyval) : py MemoryReclaimPolicy :=
  let raw := match dget_or profile §"settings" (VDict []) with
             | VDict settings => dget_or settings §"memory_reclaim" (VDict [])
             | _ => VDict []
             end in
  match raw with
  | VNone | VDict [] => Ok policy_default
  | VDict raw =>
      let unknown :=
        sorted_strs (List.filter (fun k => negb (bool_decide (k ∈ policy_fields))) (dkeys raw)) in
      raise_if (negb (bool_decide (unknown = [])))
        (value_error (§"profile settings.memory_reclaim has unknown fields: "
                        ++ str_join §", " unknown));;
      enabled ← match dget_or raw §"enabled" (VBool true) with
                | VBool b => Ok b
                | _ => Raise (value_error §"profile memory_reclaim.enabled must be a boolean")
                end;
      available ← bounded raw §"available_kib" 49152 8192 1048576;
      poll ← bounded raw §"poll_ms" 2000 500 60000;
      age ← bounded raw §"min_app_age_ms" 15000 0 3600000;
      Ok {| enabled := enabled; available_kib := available; poll_ms := poll; min_app_age_ms := age |}
  | _ => Raise (value_error §"profile settings.memory_reclaim must be an object")
  end.

Section Reclaim.
Context `{PyLib} `{PyRepr}.

(** The checks on one entry of the stack. *)
Definition reclaimable (policy : MemoryReclaimPolicy) (now : Z) (i : Instance) : bool :=
  negb (finalized i) && running i && _is_foreground_app (component i)
  && negb (now - started_at i <? millis (min_app_age_ms policy))%Z.

Definition _memory_reclaim_candidate (policy : MemoryReclaimPolicy) (now : Z) (s : Supervisor)
    : option (pystr * nat) :=
  find_first (fun kn =>
    negb (bool_decide (Some kn.1 = front s)) &&
    match heap s !! kn.2 with
    | Some i => reclaimable policy now i
    | None => false
    end)
    (omap (fun k => (fun n => (k, n)) <$> dget (instances s) k) (reverse (foreground_stack s))).

(** One turn of [_memory_reclaim_loop]: the app to stop, given the reading of
    the available memory. *)
Definition reclaim_turn (policy : MemoryReclaimPolicy) (now : Z) (available : option Z)
    (s : Supervisor) : option (pystr * nat) :=
  match available with
  | Some kib => if (available_kib policy <=? kib)%Z then None
                else _memory_reclaim_candidate policy now s
  | None => None
  end.
End Reclaim.

(* ------------------------------------------------------------------ *)
(** ** Lemmas *)

(** The states the stack operations lead to. *)
Inductive stack_step : Supervisor -> Supervisor -> Prop :=
| stack_mark k s : stack_step s (_mark_foreground k s)
| stack_forget k s : stack_step s (_forget_foreground k s)
| stack_background k s : stack_step s (_background_foreground k s).1.

Inductive stack_reachable : Supervisor -> Prop :=
| stack_init s : foreground_stack s = [] -> backgrounded_components s = ∅ -> stack_reachable s
| stack_next s s' : stack_reachable s -> stack_step s s' -> stack_reachable s'.

Definition stack_wf (s : Supervisor) : Prop :=
  NoDup (foreground_stack s) /\ forall k, k ∈ backgrounded_components s -> k ∈ foreground_stack s.

Lemma stack_step_wf s s' : stack_wf s -> stack_step s s' -> stack_wf s'.
Proof.
  intros Hwf Hs. revert Hwf. destruct Hs as [k s0|k s0|k s0]; unfold stack_wf; intros [Hnd Hbg].
  - cbn. split.
    + apply NoDup_cons. rewrite list_elem_of_filter. split; [tauto|by apply NoDup_filter].
    + intros k'. rewrite elem_of_cons, list_elem_of_filter. set_solver.
  - cbn. split; [by apply NoDup_filter|]. intros k'.
    assert (k' ∈ backgrounded_components s0 ∖ {[k]} -> k' ∈ filter (.≠ k) (foreground_stack s0)).
    { rewrite list_elem_of_filter. set_solver. }
    destruct (filter (.≠ k) (foreground_stack s0)); [done|]. case_bool_decide; set_solver.
  - unfold _background_foreground. destruct (foreground_stack s0) as [|f l] eqn:Hst.
    + cbn. rewrite Hst. done.
    + case_bool_decide; cbn; rewrite Hst; [|done]. subst. split; [done|]. set_solver.
Qed.

Lemma stack_reachable_wf s : stack_reachable s -> stack_wf s.
Proof.
  intros Hr. induction Hr as [s H1 H2|s s' _ IH Hs]; [|exact (stack_step_wf s s' IH Hs)].
  unfold stack_wf. rewrite H1, H2. split; [constructor|set_solver].
Qed.

Lemma front_forget_hidden k s : stack_wf s -> front s = None -> front (_forget_foreground k s) = None.
Proof.
  intros [Hnd _]. unfold front, _forget_foreground. cbn.
  destruct (foreground_stack s) as [|f l]; [done|]. case_bool_decide as Hf; [intros _|done].
  rewrite filter_cons. apply NoDup_cons in Hnd as [Hn _]. case_decide as Hk.
  - rewrite bool_decide_eq_true_2; [done|]. case_bool_decide; set_solver.
  - assert (k = f) as -> by (destruct (decide (f = k)); [done|exfalso; auto]). rewrite (bool_decide_eq_true_2 (f ∈ _)) by done.
    destruct (filter _ l); [done|]. rewrite bool_decide_eq_true_2; [done|]. set_solver.
Qed.

(** The live entries of the stack with the instances that own them. *)
Definition eligible `{PyLib} `{PyRepr} policy now (s : Supervisor) (k : pystr) : Prop :=
  Some k ≠ front s /\ exists n i, dget (instances s) k = Some n /\ heap s !! n = Some i /\
    reclaimable policy now i = true.

Lemma find_first_last {A} (p : A -> bool) l x : find_first p l = Some x ->
  exists l1 l2, l = l1 ++ x :: l2 /\ p x = true /\ forall y, y ∈ l1 -> p y = false.
Proof.
  induction l as [|y l IH]; cbn; [done|]. destruct (p y) eqn:Hy.
  - intros [= ->]. exists [], l. split; [done|]. split; [done|]. set_solver.
  - intros (l1 & l2 & -> & Hx & Hl)%IH. exists (y :: l1), l2. split; [done|]. split; [done|].
    intros z [->|Hz]%elem_of_cons; auto.
Qed.

Lemma omap_current_split (d : dict pystr nat) stack l1 k n l2 :
  omap (fun k => (fun n => (k, n)) <$> dget d k) stack = l1 ++ (k, n) :: l2 ->
  exists s1 s2, stack = s1 ++ k :: s2 /\ dget d k = Some n /\
    l1 = omap (fun k => (fun n => (k, n)) <$> dget d k) s1.
Proof.
  revert l1; induction stack as [|x stack IH]; intros l1; cbn; [by destruct l1|].
  destruct (dget d x) as [m|] eqn:Hx; cbn.
  - destruct l1 as [|y l1]; cbn.
    + intros [= -> -> _]. exists [], stack. done.
    + intros [= <- Hl]. apply IH in Hl as (s1 & s2 & -> & Hk & ->). exists (x :: s1), s2.
      split; [done|]. split; [done|]. cbn. by rewrite Hx.
  - intros Hl. apply IH in Hl as (s1 & s2 & -> & Hk & ->). exists (x :: s1), s2.
    split; [done|]. split; [done|]. cbn. by rewrite Hx.
Qed.

(* ------------------------------------------------------------------ *)
(** ** Properties *)

(** The foreground stack never repeats an app, only apps on it are hidden,
    opening an app puts it in front, hiding the front app leaves none in front,
    and the end of a task never brings a hidden predecessor back to the
    front. *)
Theorem foreground_stack_spec s :
  stack_reachable s ->
  stack_wf s /\
  (forall k, front (_mark_foreground k s) = Some k) /\
  (forall k, front s = Some k ->
     let '(s', (accepted, already)) := _background_foreground k s in
     front s' = None /\ accepted = true /\ already = false /\
     foreground_stack s' = foreground_stack s) /\
  (forall k, front s = None -> front (_forget_foreground k s) = None).
Proof.
  intros Hwf%stack_reachable_wf. split; [done|]. split; [|split].
  - intros k. unfold front. cbn. rewrite bool_decide_eq_false_2; [done|set_solver].
  - intros k. unfold front, _background_foreground. destruct (foreground_stack s) as [|f l] eqn:Hst; [done|].
    case_bool_decide; [done|]. intros [= <-]. rewrite bool_decide_eq_true_2 by done. cbn.
    rewrite Hst, bool_decide_eq_true_2 by set_solver. by rewrite bool_decide_eq_false_2.
  - intros k. by apply front_forget_hidden.
Qed.

(** Memory reclaim picks the oldest task on the stack that is a live,
    old enough ordinary app and is not in front; it picks none only when there
    is no such task, and the app in front is never picked. *)
Theorem memory_reclaim_candidate_spec `{PyLib} `{PyRepr} policy now s :
  match _memory_reclaim_candidate policy now s with
  | Some (k, n) =>
      front s ≠ Some k /\ eligible policy now s k /\ dget (instances s) k = Some n /\
      exists newer older, foreground_stack s = newer ++ k :: older /\
        forall k', k' ∈ older -> ~ eligible policy now s k'
  | None => forall k, k ∈ foreground_stack s -> ~ eligible policy now s k
  end.
Proof.
  unfold _memory_reclaim_candidate. set (p := fun kn : pystr * nat => _ && _).
  assert (forall k n, dget (instances s) k = Some n -> p (k, n) = true <-> eligible policy now s k) as Hp.
  { intros k n Hk. unfold p, eligible. cbn. rewrite andb_true_iff, negb_true_iff, bool_decide_eq_false.
    rewrite Hk. split; (intros [Hf Hr]; split; [done|]).
    - destruct (heap s !! n) as [i|] eqn:Hn; [|done]. eauto.
    - destruct Hr as (m & i & [= <-] & -> & Hr). done. }
  destruct (find_first _ _) as [[k n]|] eqn:Hf.
  - apply find_first_last in Hf as (l1 & l2 & Hl & Hx & Hbefore).
    apply omap_current_split in Hl as (s1 & s2 & Hs & Hk & ->).
    apply (Hp k n Hk) in Hx. split; [by destruct Hx|]. split; [done|]. split; [done|].
    exists (reverse s2), (reverse s1). split.
    + rewrite <- (reverse_involutive (foreground_stack s)), Hs, reverse_app, reverse_cons.
      by rewrite <- app_assoc.
    + intros k' Hk'. rewrite elem_of_reverse in Hk'. intros He.
      destruct He as [Hfr (m & i & Hm & Hi & Hr)].
      assert (p (k', m) = false) as Hpf.
      { apply Hbefore. apply list_elem_of_omap. exists k'. split; [done|]. by rewrite Hm. }
      apply not_true_iff_false in Hpf. apply Hpf, (Hp k' m Hm). split; eauto 10.
  - rewrite find_first_None in Hf. intros k Hk [Hfr (m & i & Hm & Hi & Hr)].
    assert (p (k, m) = false) as Hpf.
    { apply Hf. apply list_elem_of_omap. exists k. rewrite elem_of_reverse. split; [done|]. by rewrite Hm. }
    apply not_true_iff_false in Hpf. apply Hpf, (Hp k m Hm). split; eauto 10.
Qed.

(** The end of a hidden task hides the app in front.  When a task that Home
    once hid ends while another app is in front, [_forget_foreground] marks the
    app in front as hidden; so after memory reclaim stops a hidden task, its
    next turn may stop the app the user is looking at. *)
Theorem forgetting_hidden_task_hides_front `{PyLib} `{PyRepr} s hidden visible :
  front s = Some visible -> hidden ∈ backgrounded_components s ->
  let s' := _forget_foreground hidden s in
  hidden ≠ visible /\ front s' = None /\ head (foreground_stack s') = Some visible /\
  (forall policy now n i, foreground_stack s' = [visible] ->
     dget (instances s) visible = Some n -> heap s !! n = Some i ->
     reclaimable policy now i = true ->
     _memory_reclaim_candidate policy now s' = Some (visible, n)).
Proof.
  intros Hfront Hhid s'. unfold front in Hfront.
  destruct (foreground_stack s) as [|f l] eqn:Hst; [done|].
  case_bool_decide as Hf; [done|]. injection Hfront as ->.
  assert (hidden ≠ visible) as Hne by (by intros ->).
  assert (foreground_stack s' = visible :: filter (.≠ hidden) l) as Hstack.
  { unfold s'. cbn. rewrite Hst, filter_cons, decide_True by done. done. }
  assert (front s' = None) as Hnone.
  { unfold front. rewrite Hstack. unfold s'. cbn. rewrite Hst, filter_cons, decide_True by done.
    rewrite (bool_decide_eq_true_2 (hidden ∈ _)) by done. rewrite bool_decide_eq_true_2; [done|set_solver]. }
  split; [done|]. split; [done|]. split; [by rewrite Hstack|].
  intros policy now n i Hs' Hn Hi Hr. unfold _memory_reclaim_candidate. rewrite Hs', Hnone.
  cbn. rewrite Hn. cbn. by rewrite Hi, Hr.
Qed.

(** A memory reclaim policy read from a profile keeps every number within
    its documented bounds, is off unless the profile asks for it, and any other
    settings are rejected with a [ValueError]. *)
Theorem reclaim_policy_bounded profile :
  match from_profile profile with
  | Ok p =>
      (8192 <= available_kib p <= 1048576)%Z /\ (500 <= poll_ms p <= 60000)%Z /\
      (0 <= min_app_age_ms p <= 3600000)%Z /\
      (enabled p = true -> exists settings raw, dget profile §"settings" = Some (VDict settings) /\
         dget settings §"memory_reclaim" = Some (VDict raw) /\ raw ≠ [] /\
         forall k, k ∈ dkeys raw -> k ∈ policy_fields)
  | Raise e => exn_type e = ValueError
  end.
Proof.
  assert (forall raw name d lo hi, match bounded raw name d lo hi with
    | Ok v => (lo <= v <= hi)%Z | Raise e => exn_type e = ValueError end) as Hb.
  { intros. unfold bounded. destruct (as_int _) as [v|]; cbn; [|done].
    destruct (negb _) eqn:Hv; cbn; [done|]. bool_simp. lia. }
  unfold from_profile. set (raw0 := match dget_or profile _ _ with VDict _ => _ | _ => _ end).
  destruct raw0 as [| | | | | |raw|] eqn:Hraw;
    try (cbn; done || (split_and!; done || lia)).
  destruct raw as [|kv raw]; [cbn; split_and!; done || lia|].
  set (r := kv :: raw) in *.
  destruct (negb _) eqn:Hu; cbn [raise_if rbind]; [done|].
  destruct (dget_or r §"enabled" (VBool true)) as [|b| | | | | |] eqn:He; cbn [rbind]; try done.
  pose proof (Hb r §"available_kib" 49152 8192 1048576)%Z as H1.
  destruct (bounded r §"available_kib" _ _ _) as [v1|]; cbn [rbind]; [|done].
  pose proof (Hb r §"poll_ms" 2000 500 60000)%Z as H2.
  destruct (bounded r §"poll_ms" _ _ _) as [v2|]; cbn [rbind]; [|done].
  pose proof (Hb r §"min_app_age_ms" 15000 0 3600000)%Z as H3.
  destruct (bounded r §"min_app_age_ms" _ _ _) as [v3|]; cbn [rbind]; [|done].
  cbn. split; [done|]. split; [done|]. split; [done|]. intros _.
  unfold raw0, dget_or in Hraw. destruct (dget profile §"settings") as [[| | | | | |st|]|]; try done.
  cbn in Hraw. destruct (dget st §"memory_reclaim") as [v|] eqn:Hm; [|done]. cbn in Hraw. subst v.
  exists st, r. split; [done|]. split; [done|]. split; [done|]. bool_simp.
  intros k Hk. destruct (decide (k ∈ policy_fields)) as [?|Hn]; [done|exfalso].
  assert (k ∈ sorted_strs (List.filter (fun k => negb (bool_decide (k ∈ policy_fields))) (dkeys r))) as Hin.
  { apply sorted_strs_elem, list_elem_of_In, filter_In. rewrite <- list_elem_of_In.
    by rewrite bool_decide_eq_false_2. }
  rewrite Hu in Hin. by apply not_elem_of_nil in Hin.
Qed.

(* ------------------------------------------------------------------ *)
(** ** Witnesses *)

Definition sample_app (cid : pystr) : Manifest.Component :=
  let c := Manifest.sample_component §"p" cid in
  {| Manifest.package_id := §"p"; Manifest.package_version := §"1"; Manifest.id := cid;
     Manifest.exec := Manifest.exec c; Manifest.lifecycle := §"manual";
     Manifest.package_kind := §"application"; Manifest.package_name := §"p";
     Manifest.package_icons := []; Manifest.runtime := §"custom"; Manifest.restart := §"never";
     Manifest.idle_timeout_ms := None; Manifest.cwd := None; Manifest.env := [];
     Manifest.readiness_mode := §"exec"; Manifest.readiness_timeout_ms := 5000;
     Manifest.provides := []; Manifest.requires := []; Manifest.wants := []; Manifest.after := [];
     Manifest.windowing := [(§"mode", VStr §"window")]; Manifest.activation := [];
     Manifest.permissions := []; Manifest.isolation := Isolation.spec_default; Manifest.raw := [];
     Manifest.manifest_path := None; Manifest.package_summary := []; Manifest.package_i18n := VNone |}.

Definition sample_instance (c : Manifest.Component) (p : Z) : Instance :=
  {| component := c; component_object := 0; generation := 1; process := Some {| pid := p; returncode := None |};
     sock := true; state := §"ready"; ready := true; started_at := 0; subscriptions := ∅;
     pending_calls := []; in_flight_calls := 0; idle_task := None; finalized := false;
     backoff_until := 0; transition_closing := false |}.

Definition empty_registry : Roles.RoleRegistry :=
  {| Roles._components := []; Roles._profile_roles := []; Roles._disabled_roles := [];
     Roles._roles := []; Roles._preferred := []; Roles._leases := []; Roles._role_leases := [];
     Roles._next_lease_token := 1 |}.

(** A supervisor with two running apps and an empty stack. *)
Definition sample_supervisor : Supervisor :=
  {| heap := {[ 1%nat := sample_instance (sample_app §"mail") 11;
                2%nat := sample_instance (sample_app §"maps") 12 ]};
     instances := [(§"p:mail", 1%nat); (§"p:maps", 2%nat)];
     components := [(§"p:mail", sample_app §"mail"); (§"p:maps", sample_app §"maps")];
     component_objects := [(§"p:mail", 0%nat); (§"p:maps", 1%nat)];
     role_registry := empty_registry; service_catalog := Services.make []; catalog_epoch := 0;
     next_request_id := 1; stopping := false; stop_requests := ∅; foreground_stack := [];
     backgrounded_components := ∅; failure_history := []; quarantined := ∅; quarantine_times := [];
     recovery_allowed := None; idle_tasks := ∅; futures := ∅ |}.

(** Mail is opened, hidden by Home, and maps is opened in front of it. *)
Definition sample_stack : Supervisor :=
  _mark_foreground §"p:maps"
    (_background_foreground §"p:mail" (_mark_foreground §"p:mail" sample_supervisor)).1.

Lemma sample_stack_reachable : stack_reachable sample_stack.
Proof.
  eapply stack_next; [|apply stack_mark]. eapply stack_next; [|apply stack_background].
  eapply stack_next; [|apply stack_mark]. by apply stack_init.
Qed.

Lemma foreground_stack_spec_witness :
  front sample_stack = Some §"p:maps" /\ stack_wf sample_stack.
Proof.
  destruct (foreground_stack_spec sample_stack sample_stack_reachable) as (Hwf & Hmark & _).
  split; [apply Hmark|exact Hwf].
Defined.

Lemma forgetting_hidden_task_hides_front_witness :
  stack_reachable sample_stack /\ front sample_stack = Some §"p:maps" /\
  _memory_reclaim_candidate policy_default (seconds 60) sample_stack = Some (§"p:mail", 1%nat) /\
  _memory_reclaim_candidate policy_default (seconds 60) (_forget_foreground §"p:mail" sample_stack)
    = Some (§"p:maps", 2%nat).
Proof.
  split; [exact sample_stack_reachable|]. split; [vm_compute; reflexivity|].
  split; [vm_compute; reflexivity|].
  destruct (forgetting_hidden_task_hides_front sample_stack §"p:mail" §"p:maps")
    as (_ & _ & _ & Hreclaim).
  - vm_compute. reflexivity.
  - apply (bool_decide_unpack _). vm_compute. exact I.
  - apply (Hreclaim policy_default (seconds 60) 2%nat (sample_instance (sample_app §"maps") 12));
      vm_compute; reflexivity.
Defined.
End Foreground.
