(* ===== verification/Calls.v ===== *)
(** * Forwarded calls and idle providers ([msys_core/msysd.py])

    Core forwards a call to a provider over its channel and waits for the
    answer; several calls to several providers are in flight at once.  Each
    instance counts its calls, and an on-demand instance without any is stopped
    by a timer.  A call is modelled by its two halves, before and after the
    wait, and everything that may happen in between is a step. *)

From Stdlib Require Import ZArith Floats.SpecFloat.
From S2P Require Export Msysd.

Module Calls.
Import Msysd.

Abbreviation response := (dict pystr pyval).

(* ------------------------------------------------------------------ *)
(** ** Idle timers *)

(** [_idle_timeout_seconds], in nanoseconds. *)
Definition _idle_timeout_seconds (c : Manifest.Component) : option Z :=
  if bool_decide (Manifest.lifecycle c = §"on-demand")
  then millis <$> Manifest.idle_timeout_ms c else None.

Definition cancel_task (t : nat) (s : Supervisor) : Supervisor :=
  set_idle_tasks (alter (fun k => {| task_instance := task_instance k; task_cancelled := true;
                                     task_done := task_done k |}) t (idle_tasks s)) s.

(** The task's ownership is cleared before the cancellation is delivered. *)
Definition _cancel_idle_task (n : nat) (s : Supervisor) : Supervisor :=
  match heap s !! n ≫= idle_task with
  | None => s
  | Some t => cancel_task t (update n (set_idle_task None) s)
  end.

Definition task_finished (t : nat) (s : Supervisor) : bool :=
  match idle_tasks s !! t with Some k => task_done k | None => true end.

(** The conditions [_schedule_idle_task] and [_idle_stop_after] share. *)
Definition busy (n : nat) (i : Instance) (s : Supervisor) : bool :=
  negb (in_flight_calls i =? 0)%Z || negb (ready i) || finalized i
  || negb (is_current s (key i) n) || stopping s || bool_decide (key i ∈ stop_requests s).

Definition _schedule_idle_task (n : nat) (s : Supervisor) : Supervisor :=
  match heap s !! n with
  | None => s
  | Some i =>
      if bool_decide (_idle_timeout_seconds (component i) = None) || busy n i s then s
      else
        let fire := fresh (dom (idle_tasks s)) in
        let armed := update n (set_idle_task (Some fire))
          (set_idle_tasks (<[fire := {| task_instance := n; task_cancelled := false;
                                        task_done := false |}]> (idle_tasks s)) s) in
        match idle_task i with
        | Some t => if task_finished t s then armed else s
        | None => armed
        end
  end.

(** [_idle_stop_after] once its sleep is over: the instance to stop, if any. *)
Definition idle_decision (t : nat) (s : Supervisor) : option nat :=
  match idle_tasks s !! t with
  | None => None
  | Some k =>
      match heap s !! task_instance k with
      | None => None
      | Some i =>
          if negb (bool_decide (idle_task i = Some t)) || busy (task_instance k) i s then None
          else Some (task_instance k)
      end
  end.

(** The [finally] clause of [_idle_stop_after]; the task is then done. *)
Definition idle_finally (t : nat) (s : Supervisor) : Supervisor :=
  match idle_tasks s !! t with
  | None => s
  | Some k =>
      let n := task_instance k in
      let s := if bool_decide (heap s !! n ≫= idle_task = Some t)
               then update n (set_idle_task None) s else s in
      set_idle_tasks (<[t := {| task_instance := n; task_cancelled := task_cancelled k;
                                task_done := true |}]> (idle_tasks s)) s
  end.

(* ------------------------------------------------------------------ *)
(** ** Counting calls *)

Definition _begin_forward_call (n : nat) (s : Supervisor) : Supervisor :=
  _cancel_idle_task n (update n (fun i => set_in_flight_calls (in_flight_calls i + 1) i) s).

Definition _finish_forward_call (n : nat) (s : Supervisor) : Supervisor :=
  match heap s !! n with
  | None => s
  | Some i =>
      if (in_flight_calls i <=? 0)%Z then update n (set_in_flight_calls 0) s
      else
        let s := update n (fun i => set_in_flight_calls (in_flight_calls i - 1) i) s in
        if (in_flight_calls i - 1 =? 0)%Z then _schedule_idle_task n s else s
  end.

(* ------------------------------------------------------------------ *)
(** ** Deadlines *)

Definition MAX_FORWARD_TIMEOUT : Z := seconds 300.

(** Integers whose conversion to a float overflows. *)
Definition float_overflows (z : Z) : bool := (2 ^ 1024 - 2 ^ 970 <=? Z.abs z)%Z.

(** A finite number of milliseconds in nanoseconds, rounded up. *)
Definition float_millis (f : spec_float) : option Z :=
  match f with
  | S754_zero _ => Some 0%Z
  | S754_finite sg m e =>
      let v := (if sg then Z.neg m else Z.pos m) in
      Some (if (0 <=? e)%Z then millis (v * 2 ^ e) else - ((- millis v) / 2 ^ (- e)))%Z
  | _ => None
  end.

Definition bounded_remaining (remaining : Z) : Z :=
  Z.min MAX_FORWARD_TIMEOUT (Z.max 0 remaining).

(** [forwarded_timeout_seconds(message)], in nanoseconds. *)
Definition forwarded_timeout (msg : response) (now : Z) : py Z :=
  match dget_or msg §"deadline_ms" VNone with
  | VInt raw =>
      raise_if (float_overflows raw) (Exn OverflowError §"int too large to convert to float");;
      Ok (bounded_remaining (millis raw - now))
  | VFloat f =>
      Ok match f with
         | S754_infinity false => MAX_FORWARD_TIMEOUT
         | S754_infinity true | S754_nan => 0%Z
         | _ => bounded_remaining (default 0%Z (float_millis f) - now)
         end
  | _ => Ok (Z.min MAX_FORWARD_TIMEOUT (seconds 5))
  end.

Definition CALL_DEADLINE_EXPIRED_MESSAGE : pystr := §"call deadline already expired".

Definition MAX_LOGICAL_TARGET_LENGTH : nat := 192.

Definition target_char (c : N) : bool :=
  alnum_ascii c || one_of §"._:-" c.

(** [LOGICAL_TARGET_PATTERN] *)
Definition logical_target_re : regex :=
  RSeq (RAlt (rlit §"role") (RAlt (rlit §"interface") (rlit §"component")))
    (RSeq (rchar 58) (RSeq (RClass alnum_ascii)
       (rupto (MAX_LOGICAL_TARGET_LENGTH - 2) (RClass target_char)))).

Definition logical_target (msg : response) : option pystr :=
  match dget_or msg §"target" VNone with
  | VStr t =>
      if (length t <=? MAX_LOGICAL_TARGET_LENGTH)%nat && fullmatch logical_target_re t
      then Some t else None
  | _ => None
  end.

(* ------------------------------------------------------------------ *)
(** ** Forwarding one call *)

(** The frame of a [_forward_call] that waits for its answer. *)
Record Call := {
  call_instance : nat;
  request_id : Z;
  call_future : nat;
  public_id : Z;
}.

Definition error_response (id : pyval) (code : pystr) (message : pystr) : response :=
  [(§"type", VStr §"error"); (§"id", id); (§"code", VStr code); (§"message", VStr message)].

(** How [_forward_call] proceeds: it has an answer or an exception, or it sends
    a packet and waits. *)
Inductive started :=
| Finished (r : py response)
| Waiting (c : Call) (packet : response) (timeout : Z).

(** The [finally] clause of [_forward_call]. *)
Definition forward_finally (n : nat) (request : option Z) (s : Supervisor) : Supervisor :=
  let s := match request with
           | Some id => update n (fun i => set_pending_calls (ddel (pending_calls i) id) i) s
           | None => s
           end in
  _finish_forward_call n s.

Section Forward.
Context `{PyLib} `{PyRepr}.

Definition forwarded_packet (id : Z) (target : pystr) (msg : response) (source : pystr)
    : response :=
  [(§"type", VStr §"call"); (§"id", VInt id); (§"target", VStr target);
   (§"method", dget_or msg §"method" VNone); (§"payload", dget_or msg §"payload" (VDict []));
   (§"source", VStr source)]
  ++ match logical_target msg with Some t => [(§"logical_target", VStr t)] | None => [] end
  ++ match dget msg §"deadline_ms" with Some d => [(§"deadline_ms", d)] | None => [] end.

(** [_forward_call] up to its [await], for the instance [n]. *)
Definition _forward_start (now : Z) (n : nat) (msg : response) (source : pystr) (s : Supervisor)
    : Supervisor * started :=
  match heap s !! n with
  | None => (s, Finished (Raise (Exn KeyError §"instance")))
  | Some i =>
      if negb (sock i) || negb (is_current s (key i) n)
      then (s, Finished (Ok [(§"type", VStr §"error"); (§"id", dget_or msg §"id" (VInt 0));
                             (§"code", VStr §"NO_PROVIDER_SOCKET")]))
      else
        let s := _begin_forward_call n s in
        match py_int (dget_or msg §"id" (VInt 0)) with
        | Raise e => (forward_finally n None s, Finished (Raise e))
        | Ok public =>
            let id := next_request_id s in
            let future := fresh (dom (futures s)) in
            let s := set_futures (<[future := None]> (futures s)) (set_next_request_id (id + 1) s) in
            let s := update n (fun i => set_pending_calls (dset (pending_calls i) id future) i) s in
            match forwarded_timeout msg now with
            | Raise e => (forward_finally n (Some id) s, Finished (Raise e))
            | Ok timeout =>
                if (timeout <=? 0)%Z
                then (forward_finally n (Some id) s,
                      Finished (Ok (error_response (VInt public) §"CALL_TIMEOUT"
                                      CALL_DEADLINE_EXPIRED_MESSAGE)))
                else (s, Waiting {| call_instance := n; request_id := id; call_future := future;
                                    public_id := public |}
                           (forwarded_packet id (key i) msg source) timeout)
            end
        end
  end.
End Forward.

(** What ends the wait of a forwarded call. *)
Inductive outcome :=
| Answered
| TimedOut
| SendFailed (e : exn)
| Interrupted.

Definition with_id (r : response) (id : Z) : response := dset r §"id" (VInt id).

(** [_forward_call] from the end of its [await] on. *)
Definition _forward_finish (c : Call) (o : outcome) (s : Supervisor) : Supervisor * py response :=
  let id := VInt (public_id c) in
  let provider := match heap s !! call_instance c with Some i => key i | None => [] end in
  let r :=
    match o with
    | Answered =>
        match futures s !! call_future c with
        | Some (Some r) => Ok (with_id r (public_id c))
        | _ => Raise (Exn CancelledError [])
        end
    | TimedOut => Ok (error_response id §"CALL_TIMEOUT" provider)
    | SendFailed e =>
        if is_os_error (exn_type e)
        then Ok (error_response id §"CALL_SEND_FAILED" (exn_msg e))
        else Raise e
    | Interrupted => Raise (Exn CancelledError [])
    end in
  (forward_finally (call_instance c) (Some (request_id c)) s, r).

(** [future.set_result(r)] unless it is done. *)
Definition resolve (f : nat) (r : response) (s : Supervisor) : Supervisor :=
  match futures s !! f with
  | Some None => set_futures (<[f := Some r]> (futures s)) s
  | _ => s
  end.

(** The branch of [_handle_component_message] for answers from instance [n]. *)
Definition _resolve_reply `{PyLib} `{PyRepr} (n : nat) (msg : response) (s : Supervisor)
    : py Supervisor :=
  match heap s !! n with
  | None => Ok s
  | Some i =>
      id ← py_int (dget_or msg §"id" (VInt 0));
      Ok match dget (pending_calls i) id with
         | None => s
         | Some f => resolve f msg
                       (update n (fun i => set_pending_calls (ddel (pending_calls i) id) i) s)
         end
  end.

(** Fail every pending call and close the socket. *)
Definition _close_instance_channel (n : nat) (code : pystr) (s : Supervisor) : Supervisor :=
  match heap s !! n with
  | None => s
  | Some i =>
      let fail s (p : Z * nat) := resolve p.2 (error_response (VInt p.1) code (key i)) s in
      update n (fun i => set_sock false (set_pending_calls [] i)) (foldl fail s (pending_calls i))
  end.

(* ------------------------------------------------------------------ *)
(** ** Interleavings

    What may happen between two halves of a call: other calls start and end,
    answers arrive, channels close, timers fire, and the rest of the supervisor
    starts, stops and replaces instances. *)

Definition fresh_instance (i : Instance) : Prop :=
  in_flight_calls i = 0%Z /\ idle_task i = None /\ pending_calls i = [].

(** Steps of the rest of the supervisor; they leave the call accounting alone. *)
Record elsewhere (s s' : Supervisor) : Prop := {
  ew_heap : forall n i, heap s !! n = Some i ->
    exists i', heap s' !! n = Some i' /\ component i' = component i /\
      in_flight_calls i' = in_flight_calls i /\ idle_task i' = idle_task i /\
      pending_calls i' = pending_calls i;
  ew_new : forall n i, heap s' !! n = Some i -> heap s !! n = None -> fresh_instance i;
  ew_tasks : idle_tasks s' = idle_tasks s;
  ew_futures : futures s' = futures s;
  ew_next : next_request_id s' = next_request_id s;
}.

Inductive call_step `{PyLib} `{PyRepr} : Supervisor * list Call -> Supervisor * list Call -> Prop :=
| cs_start now n msg source s s' c pkt t cs :
    _forward_start now n msg source s = (s', Waiting c pkt t) -> call_step (s, cs) (s', c :: cs)
| cs_refuse now n msg source s s' r cs :
    _forward_start now n msg source s = (s', Finished r) -> call_step (s, cs) (s', cs)
| cs_finish c o s cs1 cs2 :
    call_step (s, cs1 ++ c :: cs2) ((_forward_finish c o s).1, cs1 ++ cs2)
| cs_reply n msg s s' cs : _resolve_reply n msg s = Ok s' -> call_step (s, cs) (s', cs)
| cs_close n code s cs : call_step (s, cs) (_close_instance_channel n code s, cs)
| cs_ready n s cs : call_step (s, cs) (_schedule_idle_task n s, cs)
| cs_idle t s cs : call_step (s, cs) (idle_finally t s, cs)
| cs_forget_timer n s cs : call_step (s, cs) (update n (set_idle_task None) s, cs)
| cs_elsewhere s s' cs : elsewhere s s' -> call_step (s, cs) (s', cs).

Inductive calls_reachable `{PyLib} `{PyRepr} : Supervisor * list Call -> Prop :=
| cr_init s : heap s = ∅ -> idle_tasks s = ∅ -> futures s = ∅ -> calls_reachable (s, [])
| cr_step w w' : calls_reachable w -> call_step w w' -> calls_reachable w'.

Definition calls_of (n : nat) (cs : list Call) : list Call :=
  filter (fun c => call_instance c = n) cs.

(** How many calls each instance should count. *)
Definition count (cs : list Call) (n : nat) : Z := Z.of_nat (length (calls_of n cs)).

(** What every interleaving preserves; [cnt] is the number of calls each
    instance has admitted. *)
Record calls_inv (cnt : nat -> Z) (s : Supervisor) (cs : list Call) : Prop := {
  ci_count : forall n i, heap s !! n = Some i -> in_flight_calls i = cnt n;
  ci_heap : forall c, c ∈ cs -> is_Some (heap s !! call_instance c);
  ci_idle : forall n i t, heap s !! n = Some i -> idle_task i = Some t ->
    in_flight_calls i = 0%Z /\ is_Some (_idle_timeout_seconds (component i)) /\
    exists k, idle_tasks s !! t = Some k /\ task_instance k = n;
  ci_ids : NoDup (request_id <$> cs);
  ci_next : forall c, c ∈ cs -> (request_id c < next_request_id s)%Z;
  ci_futures : NoDup (call_future <$> cs);
  ci_known : forall c, c ∈ cs -> is_Some (futures s !! call_future c);
  ci_pending : forall n i, heap s !! n = Some i -> dict_wf (pending_calls i) /\
    forall id f, dget (pending_calls i) id = Some f ->
      futures s !! f = Some None /\
      exists c, c ∈ cs /\ call_instance c = n /\ request_id c = id /\ call_future c = f;
  ci_live : forall c i, c ∈ cs -> heap s !! call_instance c = Some i ->
    dget (pending_calls i) (request_id c) = Some (call_future c) \/
    exists r, futures s !! call_future c = Some (Some r);
}.

Lemma calls_inv_ext cnt cnt' s cs :
  (forall n, cnt n = cnt' n) -> calls_inv cnt s cs -> calls_inv cnt' s cs.
Proof. intros Hc []. split; [|done..]. intros n i Hi. rewrite <- Hc. eauto. Qed.

(** Two supervisors that differ only in ways the accounting does not see. *)
Lemma calls_inv_frame cnt s s' cs :
  heap s' = heap s -> idle_tasks s' = idle_tasks s -> futures s' = futures s ->
  next_request_id s' = next_request_id s -> calls_inv cnt s cs -> calls_inv cnt s' cs.
Proof. intros Hh Ht Hf Hn []. split; rewrite ?Hh, ?Ht, ?Hf, ?Hn; done. Qed.

(** Updating the fields of one instance other than its future table. *)
Lemma calls_inv_update cnt cnt' n f s cs :
  calls_inv cnt s cs ->
  (forall i, pending_calls (f i) = pending_calls i) ->
  (forall m, m ≠ n -> cnt' m = cnt m) ->
  (forall i, heap s !! n = Some i -> in_flight_calls (f i) = cnt' n) ->
  (forall i t, heap s !! n = Some i -> idle_task (f i) = Some t ->
     in_flight_calls (f i) = 0%Z /\ is_Some (_idle_timeout_seconds (component (f i))) /\
     exists k, idle_tasks s !! t = Some k /\ task_instance k = n) ->
  calls_inv cnt' (update n f s) cs.
Proof.
  intros [] Hp Hm Hcnt Hidle.
  assert (forall m i, heap (update n f s) !! m = Some i ->
    (m = n /\ exists i0, heap s !! n = Some i0 /\ i = f i0) \/ (m ≠ n /\ heap s !! m = Some i)) as Hcase.
  { intros m i. rewrite heap_update. case_decide; subst; [|by right].
    intros (i0 & -> & ->)%fmap_Some. eauto. }
  split; try done.
  - intros m i [[-> (i0 & Hi & ->)]|[Hne Hi]]%Hcase; [by apply Hcnt|]. rewrite Hm by done. eauto.
  - intros c Hc. rewrite heap_update. case_decide as Heq; [rewrite fmap_is_Some|]; eauto.
  - intros m i t [[-> (i0 & Hi & ->)]|[Hne Hi]]%Hcase; [by apply Hidle|]. by eapply ci_idle0.
  - intros m i [[-> (i0 & Hi & ->)]|[Hne Hi]]%Hcase; [rewrite Hp|]; eauto.
  - intros c i Hc [[Heq (i0 & Hi & ->)]|[Hne Hi]]%Hcase; [rewrite Hp; rewrite <- Heq in Hi|]; eauto.
Qed.

Lemma heap_cancel t s : heap (cancel_task t s) = heap s.
Proof. done. Qed.

Lemma calls_inv_cancel_task cnt t s cs : calls_inv cnt s cs -> calls_inv cnt (cancel_task t s) cs.
Proof.
  intros []. split; try done. intros n i t' Hi Ht'. destruct (ci_idle0 n i t' Hi Ht') as (Hz & Hto & k & Hk & Ho).
  split; [done|]. split; [done|]. cbn. destruct (decide (t' = t)) as [->|Hne].
  - rewrite lookup_alter_eq, Hk. eexists. by split.
  - rewrite lookup_alter_ne by done. eauto.
Qed.

Lemma set_idle_None_id i : idle_task i = None -> set_idle_task None i = i.
Proof. destruct i; cbn. by intros ->. Qed.

(** Taking the timer away. *)
Lemma calls_inv_disarm cnt n s cs : calls_inv cnt s cs -> calls_inv cnt (update n (set_idle_task None) s) cs.
Proof.
  intros Hinv. eapply calls_inv_update; [done|done|done| |done].
  intros i Hi. cbn. by apply (ci_count _ _ _ Hinv).
Qed.

Lemma begin_inv cnt n s cs : calls_inv cnt s cs ->
  calls_inv (fun m => if decide (m = n) then (cnt m + 1)%Z else cnt m) (_begin_forward_call n s) cs.
Proof.
  intros Hinv. set (cnt' := fun m => _).
  assert (forall s1 : Supervisor, s1 = update n (fun i => set_idle_task None
            (set_in_flight_calls (in_flight_calls i + 1) i)) s -> calls_inv cnt' s1 cs) as Hboth.
  { intros s1 ->. eapply calls_inv_update; [done|done| | |done].
    - intros m Hm. unfold cnt'. by rewrite decide_False.
    - intros i Hi. unfold cnt'. rewrite decide_True by done. cbn. by rewrite (ci_count _ _ _ Hinv n i Hi). }
  unfold _begin_forward_call, _cancel_idle_task. rewrite heap_update, decide_True by done.
  destruct (heap s !! n) as [i|] eqn:Hi; cbn.
  - destruct (idle_task i) as [t|] eqn:Ht.
    + apply calls_inv_cancel_task. eapply calls_inv_frame; [| | | |by apply Hboth]; try done.
      cbn. by rewrite alter_alter_eq.
    + eapply calls_inv_frame; [| | | |by apply Hboth]; try done. cbn.
      apply alter_ext. intros i' Hi'. assert (i' = i) as -> by congruence.
      symmetry. by apply set_idle_None_id.
  - eapply calls_inv_frame; [| | | |by apply Hboth]; try done. cbn.
    apply alter_ext. congruence.
Qed.

(** What scheduling does: nothing, or arming a fresh timer on an idle current
    instance. *)
Lemma schedule_cases n s :
  _schedule_idle_task n s = s \/
  exists i fire, heap s !! n = Some i /\ busy n i s = false /\ fire ∉ dom (idle_tasks s) /\
    is_Some (_idle_timeout_seconds (component i)) /\
    _schedule_idle_task n s = update n (set_idle_task (Some fire))
      (set_idle_tasks (<[fire := {| task_instance := n; task_cancelled := false;
                                    task_done := false |}]> (idle_tasks s)) s).
Proof.
  unfold _schedule_idle_task. destruct (heap s !! n) as [i|] eqn:Hi; [|by left].
  case_bool_decide as Ht; cbn [orb]; [by left|]. destruct (busy n i s) eqn:Hb; [by left|].
  assert (fresh (dom (idle_tasks s)) ∉ dom (idle_tasks s)) as Hf by apply is_fresh.
  assert (is_Some (_idle_timeout_seconds (component i))) by (by apply not_eq_None_Some).
  destruct (idle_task i) as [t|]; [destruct (task_finished t s)|]; [right|by left|right]; eauto 10.
Qed.

Lemma busy_false n i s : busy n i s = false ->
  in_flight_calls i = 0%Z /\ ready i = true /\ finalized i = false /\
  dget (instances s) (key i) = Some n /\ stopping s = false /\ key i ∉ stop_requests s.
Proof.
  unfold busy, is_current. intros Hb. bool_simp. apply Z.eqb_eq in H. done.
Qed.

Lemma schedule_inv cnt n s cs : calls_inv cnt s cs -> calls_inv cnt (_schedule_idle_task n s) cs.
Proof.
  intros Hinv. destruct (schedule_cases n s) as [->|(i & fire & Hi & Hb & Hf & Hto & ->)]; [done|].
  apply busy_false in Hb as (Hz & _).
  eapply calls_inv_update; [|done|done| |].
  - destruct Hinv. split; try done. cbn. intros m j t Hm Ht.
    destruct (ci_idle0 m j t Hm Ht) as (? & ? & k & Hk & ?). split; [done|]. split; [done|]. exists k.
    rewrite lookup_insert_ne; [done|]. intros ->. apply Hf, elem_of_dom. eauto.
  - intros i' Hi'. cbn in *. by apply (ci_count _ _ _ Hinv).
  - cbn. intros i' t Hi' [= <-]. assert (i' = i) as -> by congruence. split; [done|].
    split; [done|]. eexists. rewrite lookup_insert_eq. done.
Qed.

Lemma finish_inv cnt n s cs : calls_inv cnt s cs -> (1 <= cnt n)%Z ->
  calls_inv (fun m => if decide (m = n) then (cnt m - 1)%Z else cnt m) (_finish_forward_call n s) cs.
Proof.
  intros Hinv Hpos. set (cnt' := fun m => _). unfold _finish_forward_call.
  destruct (heap s !! n) as [i|] eqn:Hi.
  - pose proof (ci_count _ _ _ Hinv n i Hi) as Hc.
    destruct (in_flight_calls i <=? 0)%Z eqn:Hle; [lia|].
    assert (calls_inv cnt' (update n (fun i => set_in_flight_calls (in_flight_calls i - 1) i) s) cs) as H1.
    { eapply calls_inv_update; [done|done| | |].
      - intros m Hm. unfold cnt'. by rewrite decide_False.
      - intros i' Hi'. unfold cnt'. rewrite decide_True by done. cbn.
        assert (i' = i) as -> by congruence. lia.
      - cbn. intros i' t Hi' Ht. assert (i' = i) as -> by congruence.
        destruct (ci_idle _ _ _ Hinv n i t Hi Ht). lia. }
    cbn zeta. case_match; [by apply schedule_inv|done].
  - split; try apply Hinv. intros m i Hm. unfold cnt'. case_decide; [congruence|by apply Hinv].
Qed.

(** A call enters the tables of its provider. *)
Lemma enter_inv cnt n id future s cs i :
  calls_inv cnt s cs -> heap s !! n = Some i -> id = next_request_id s -> futures s !! future = None ->
  forall public,
  calls_inv cnt
    (update n (fun i => set_pending_calls (dset (pending_calls i) id future) i)
       (set_futures (<[future := None]> (futures s)) (set_next_request_id (id + 1) s)))
    ({| call_instance := n; request_id := id; call_future := future; public_id := public |} :: cs).
Proof.
  intros [] Hi Hid Hfut public.
  assert (forall f r, futures s !! f = Some r -> f ≠ future) as Hne by (intros ??? ->; congruence).
  assert (id ∉ request_id <$> cs) as Hidn.
  { intros (c & Hc & Hin)%list_elem_of_fmap. apply ci_next0 in Hin. lia. }
  assert (forall m j, heap s !! m = Some j -> dget (pending_calls j) id = None) as Hpn.
  { intros m j Hj. destruct (dget (pending_calls j) id) as [f|] eqn:Hd; [exfalso|done].
    apply (ci_pending0 m j Hj) in Hd as (_ & c & Hin & _ & Hc & _).
    apply Hidn, list_elem_of_fmap. eauto. }
  split.
  - intros m j. rewrite heap_update. cbn. case_decide; [|apply ci_count0].
    intros (j0 & Hj & ->)%fmap_Some. subst. cbn. eauto.
  - intros c. rewrite elem_of_cons. rewrite heap_update. cbn.
    intros [->|Hc]; cbn; [rewrite decide_True by done; by rewrite Hi|].
    case_decide; [rewrite fmap_is_Some|]; eauto.
  - intros m j t. rewrite heap_update. cbn. case_decide; [|apply ci_idle0].
    intros (j0 & Hj & ->)%fmap_Some. subst. cbn. eauto.
  - cbn. by apply NoDup_cons.
  - intros c [->|Hc]%elem_of_cons; cbn; [lia|]. apply ci_next0 in Hc. lia.
  - cbn. apply NoDup_cons. split; [|done]. intros (c & Hc & Hin)%list_elem_of_fmap.
    destruct (ci_known0 c Hin) as [r Hr]. rewrite <- Hc in Hr. by eapply Hne.
  - intros c [->|Hc]%elem_of_cons; cbn; [by rewrite lookup_insert_eq|].
    destruct (ci_known0 c Hc) as [r Hr]. rewrite lookup_insert_ne; [eauto|]. intros ->. by eapply Hne.
  - intros m j. rewrite heap_update. cbn.
    assert (forall m j, heap s !! m = Some j -> dict_wf (pending_calls j) /\
      forall id' f, dget (pending_calls j) id' = Some f -> <[future:=None]> (futures s) !! f = Some None /\
      exists c, c ∈ {| call_instance := n; request_id := id; call_future := future; public_id := public |} :: cs
        /\ call_instance c = m /\ request_id c = id' /\ call_future c = f) as Hold.
    { intros m' j' Hj'. destruct (ci_pending0 m' j' Hj') as [Hw Hp]. split; [done|].
      intros id' f (Hf & c & Hin & Hc)%Hp. rewrite lookup_insert_ne by (intros ->; by eapply Hne).
      split; [done|]. exists c. split; [by apply elem_of_cons; right|done]. }
    case_decide as Hm; [|apply Hold]. intros (j0 & Hj & ->)%fmap_Some. subst m. cbn.
    destruct (Hold n j0 Hj) as [Hw Hp]. split; [by apply dset_wf|]. intros id' f.
    rewrite dget_dset. case_decide as Hid'; [|apply Hp]. intros [= <-]. rewrite lookup_insert_eq.
    split; [done|]. eexists. split; [by apply elem_of_cons; left|]. by subst.
  - intros c j. rewrite elem_of_cons, heap_update. cbn. intros Hc Hj.
    destruct Hc as [->|Hc]; cbn in *.
    + rewrite decide_True in Hj by done. apply fmap_Some in Hj as (j0 & _ & ->). left. cbn.
      apply dget_dset_eq.
    + destruct (ci_known0 c Hc) as [r0 Hr0].
      assert (forall j0, heap s !! call_instance c = Some j0 ->
        dget (pending_calls j0) (request_id c) = Some (call_future c) \/
        exists r, <[future:=None]> (futures s) !! call_future c = Some (Some r)) as Hold.
      { intros j0 Hj0. destruct (ci_live0 c j0 Hc Hj0) as [?|[r Hr]]; [by left|right]. exists r.
        rewrite lookup_insert_ne; [done|]. intros ->. by eapply Hne. }
      case_decide as Hm; [|by apply Hold]. apply fmap_Some in Hj as (j0 & Hj & ->).
      destruct (Hold j0) as [Hl|?]; [exact Hj| |by right]. left. cbn. rewrite dget_dset_ne; [done|].
      intros Heq. apply Hidn, list_elem_of_fmap. eauto.
Qed.

(** A call leaves the table of its provider. *)
Lemma leave_inv cnt s cs1 c cs2 : calls_inv cnt s (cs1 ++ c :: cs2) ->
  calls_inv cnt (update (call_instance c)
    (fun i => set_pending_calls (ddel (pending_calls i) (request_id c)) i) s) (cs1 ++ cs2).
Proof.
  intros []. assert (forall c', c' ∈ cs1 ++ cs2 -> c' ∈ cs1 ++ c :: cs2) as Hsub by set_solver.
  assert (forall c', c' ∈ cs1 ++ c :: cs2 -> c' = c \/ c' ∈ cs1 ++ cs2) as Hcase by set_solver.
  assert (cs1 ++ cs2 `sublist_of` cs1 ++ c :: cs2) as Hsl.
  { apply sublist_app; [done|by apply sublist_cons]. }
  assert (request_id c ∉ request_id <$> (cs1 ++ cs2)) as Hid.
  { rewrite fmap_app in ci_ids0 |- *. rewrite fmap_cons in ci_ids0.
    rewrite <- Permutation_middle in ci_ids0. by apply NoDup_cons in ci_ids0 as [? _]. }
  split.
  - intros m j. rewrite heap_update. case_decide; [|apply ci_count0].
    intros (j0 & Hj & ->)%fmap_Some. cbn. by apply ci_count0.
  - intros c' Hc'. rewrite heap_update. case_decide; [rewrite fmap_is_Some|]; eauto.
  - intros m j t. rewrite heap_update. case_decide; [|apply ci_idle0].
    intros (j0 & Hj & ->)%fmap_Some. cbn. by apply ci_idle0.
  - eapply sublist_NoDup; [done|]. by apply fmap_sublist.
  - eauto.
  - eapply sublist_NoDup; [done|]. by apply fmap_sublist.
  - eauto.
  - intros m j. rewrite heap_update. case_decide as Hm.
    + intros (j0 & Hj & ->)%fmap_Some. cbn. destruct (ci_pending0 m j0 Hj) as [Hw Hp].
      split; [by apply ddel_wf|]. intros id f. rewrite dget_ddel by done. case_decide as Hne; [done|].
      intros (Hf & c' & [->|Hin]%Hcase & Hi & Hr & Hfc)%Hp; [congruence|]. eauto 10.
    + intros Hj. destruct (ci_pending0 m j Hj) as [Hw Hp]. split; [done|].
      intros id f (Hf & c' & [->|Hin]%Hcase & Hi & Hr & Hfc)%Hp; [congruence|]. eauto 10.
  - intros c' j Hc'. rewrite heap_update. case_decide as Hm; [|apply ci_live0; auto].
    intros (j0 & Hj & ->)%fmap_Some. cbn. destruct (ci_pending0 _ _ Hj) as [Hw _].
    rewrite dget_ddel by done. rewrite decide_False; [by apply ci_live0; auto|].
    intros Heq. apply Hid. rewrite <- Heq. apply list_elem_of_fmap. eauto.
Qed.

(** An answer resolves the future of the pending call it names. *)
Lemma answer_inv cnt n i id f r s cs : calls_inv cnt s cs ->
  heap s !! n = Some i -> dget (pending_calls i) id = Some f ->
  calls_inv cnt (resolve f r (update n (fun i => set_pending_calls (ddel (pending_calls i) id) i) s)) cs /\
  futures (resolve f r (update n (fun i => set_pending_calls (ddel (pending_calls i) id) i) s))
    = <[f := Some r]> (futures s).
Proof.
  intros [] Hi Hf. destruct (ci_pending0 n i Hi) as [Hwi Hpi].
  destruct (Hpi id f Hf) as (Hfut & c & Hc & Hci & Hcr & Hcf).
  assert (forall c', c' ∈ cs -> call_future c' = f -> c' = c) as Hfu.
  { intros c' Hc' Heq. eapply (NoDup_key_inj call_future); [done..|congruence]. }
  assert (forall c', c' ∈ cs -> request_id c' = id -> c' = c) as Hiu.
  { intros c' Hc' Heq. eapply (NoDup_key_inj request_id); [done..|congruence]. }
  unfold resolve. cbn [futures update set_heap]. rewrite Hfut. split; [|done]. split; try done.
  - intros m j. cbn. rewrite lookup_alter. case_decide; subst; [|apply ci_count0].
    intros (j0 & Hj & ->)%fmap_Some. cbn. by apply ci_count0.
  - intros c' Hc'. cbn. rewrite lookup_alter. case_decide as Heq; [rewrite fmap_is_Some, Heq|]; eauto.
  - intros m j t. cbn. rewrite lookup_alter. case_decide; subst; [|apply ci_idle0].
    intros (j0 & Hj & ->)%fmap_Some. cbn. by apply ci_idle0.
  - intros c' Hc'. cbn. destruct (decide (f = call_future c')) as [<-|?];
      [rewrite lookup_insert_eq; eauto|]. rewrite lookup_insert_ne by done. eauto.
  - intros m j. cbn. rewrite lookup_alter. case_decide as Hm.
    + intros (j0 & Hj & ->)%fmap_Some. subst m. assert (j0 = i) as -> by congruence. cbn.
      split; [by apply ddel_wf|]. intros id' f'. rewrite dget_ddel by done. case_decide as Hne; [done|].
      intros (Hf' & c' & Hin & Hi' & Hr' & Hfc')%Hpi. rewrite lookup_insert_ne; [eauto 10|].
      intros <-. apply Hne. rewrite (Hfu c') in Hr'; [congruence|done|done].
    + intros Hj. destruct (ci_pending0 m j Hj) as [Hw Hp]. split; [done|].
      intros id' f' (Hf' & c' & Hin & Hi' & Hr' & Hfc')%Hp. rewrite lookup_insert_ne; [eauto 10|].
      intros <-. rewrite (Hfu c') in Hi'; [congruence|done|done].
  - intros c' j Hc' Hj. cbn in Hj |- *. destruct (decide (call_future c' = f)) as [->|Hne].
    { right. rewrite lookup_insert_eq. eauto. }
    rewrite lookup_insert_ne by done. rewrite lookup_alter in Hj. case_decide as Hm; [|by apply ci_live0].
    apply fmap_Some in Hj as (j0 & Hj & ->). assert (j0 = i) as -> by congruence. cbn.
    rewrite dget_ddel by done. rewrite decide_False; [by apply ci_live0; [|congruence]|].
    intros Heq. apply Hne. rewrite (Hiu c'); done.
Qed.

(** Futures after a channel was closed. *)
Lemma fail_futures code k (l : list (Z * nat)) s :
  let s' := foldl (fun s (p : Z * nat) => resolve p.2 (error_response (VInt p.1) code k) s) s l in
  heap s' = heap s /\ idle_tasks s' = idle_tasks s /\ next_request_id s' = next_request_id s /\
  (forall f, f ∉ l.*2 -> futures s' !! f = futures s !! f) /\
  (forall f r, futures s !! f = Some (Some r) -> futures s' !! f = Some (Some r)) /\
  (forall f, f ∈ l.*2 -> futures s !! f = Some None ->
     exists id, (id, f) ∈ l /\ futures s' !! f = Some (Some (error_response (VInt id) code k))).
Proof.
  revert s; induction l as [|[id f0] l IH]; intros s s'; cbn in s'.
  { split_and!; try done. intros f Hf. by apply not_elem_of_nil in Hf. }
  destruct (IH (resolve f0 (error_response (VInt id) code k) s)) as (Hh & Ht & Hn & Hout & Hdone & Hin).
  fold s' in Hh, Ht, Hn, Hout, Hdone, Hin.
  assert (forall f, f ≠ f0 -> futures (resolve f0 (error_response (VInt id) code k) s) !! f = futures s !! f)
    as Hne.
  { intros f Hf. unfold resolve. destruct (futures s !! f0) as [[r|]|]; try done. cbn.
    by rewrite lookup_insert_ne. }
  assert (forall f r, futures s !! f = Some (Some r) ->
    futures (resolve f0 (error_response (VInt id) code k) s) !! f = Some (Some r)) as Hkeep.
  { intros f r Hf. destruct (decide (f = f0)) as [->|]; [|by rewrite Hne].
    unfold resolve. by rewrite Hf. }
  assert (heap s' = heap s /\ idle_tasks s' = idle_tasks s /\ next_request_id s' = next_request_id s)
    as (? & ? & ?).
  { rewrite Hh, Ht, Hn. unfold resolve. by destruct (futures s !! f0) as [[r|]|]. }
  split; [done|]. split; [done|]. split; [done|]. split; [|split].
  - intros f. rewrite fmap_cons, not_elem_of_cons. intros [? ?]. by rewrite Hout, Hne.
  - eauto.
  - intros f. rewrite fmap_cons, elem_of_cons. intros Hf Hnone.
    destruct (decide (f = f0)) as [->|Hff].
    + exists id. split; [by left|]. apply Hdone. unfold resolve. rewrite Hnone. cbn.
      by rewrite lookup_insert_eq.
    + destruct Hf as [?|Hf]; [done|]. destruct (Hin f Hf) as (id' & Hin' & Hr); [by rewrite Hne|].
      exists id'. split; [by right|done].
Qed.

Lemma close_inv cnt n code s cs : calls_inv cnt s cs ->
  calls_inv cnt (_close_instance_channel n code s) cs.
Proof.
  intros Hinv. unfold _close_instance_channel. destruct (heap s !! n) as [i|] eqn:Hi; [|done].
  pose proof (fail_futures code (key i) (pending_calls i) s) as Hff. cbn zeta in Hff.
  set (s' := foldl _ s (pending_calls i)) in *. destruct Hff as (Hh & Ht & Hn & Hout & Hdone & Hin).
  destruct Hinv. destruct (ci_pending0 n i Hi) as [Hwi Hpi].
  assert (forall f, f ∈ (pending_calls i).*2 <-> exists id, dget (pending_calls i) id = Some f) as Hvals.
  { intros f. rewrite list_elem_of_fmap. split.
    - intros ([id f'] & -> & Hp). apply elem_dget in Hp; eauto.
    - intros [id Hp]. exists (id, f). split; [done|]. by apply elem_dget. }
  split; cbn [update set_heap heap idle_tasks futures next_request_id]; rewrite ?Hh, ?Ht, ?Hn; try done.
  - intros m j. rewrite lookup_alter. case_decide; subst; [|apply ci_count0].
    intros (j0 & Hj & ->)%fmap_Some. cbn. by apply ci_count0.
  - intros c Hc. rewrite lookup_alter. case_decide as Heq; [rewrite fmap_is_Some, Heq|]; eauto.
  - intros m j t. rewrite lookup_alter. case_decide; subst; [|apply ci_idle0].
    intros (j0 & Hj & ->)%fmap_Some. cbn. by apply ci_idle0.
  - intros c Hc. destruct (ci_known0 c Hc) as [[r|] Hr]; [rewrite (Hdone _ r) by done; eauto|].
    destruct (decide (call_future c ∈ (pending_calls i).*2)) as [Hp|Hp].
    + destruct (Hin _ Hp Hr) as (id & _ & ->). eauto.
    + rewrite Hout by done. eauto.
  - intros m j. rewrite lookup_alter. case_decide as Hm.
    + intros (j0 & Hj & ->)%fmap_Some. cbn. split; [constructor|done].
    + intros Hj. destruct (ci_pending0 m j Hj) as [Hw Hp]. split; [done|].
      intros id f (Hf & c & Hc & Hci & Hcr & Hcf)%Hp. split; [|eauto 10].
      rewrite Hout; [done|]. intros (id' & Hid')%Hvals.
      apply Hpi in Hid' as (_ & c' & Hc' & Hci' & _ & Hcf').
      assert (c' = c) as -> by (eapply (NoDup_key_inj call_future); [done..|congruence]). congruence.
  - intros c j Hc Hj. rewrite lookup_alter in Hj.
    assert (forall r, futures s !! call_future c = Some (Some r) ->
      exists r, futures s' !! call_future c = Some (Some r)) as Hans by eauto.
    case_decide as Hm.
    + apply fmap_Some in Hj as (j0 & Hj & ->). assert (j0 = i) as -> by congruence.
      right. destruct (ci_live0 c i Hc ltac:(congruence)) as [Hp|[r Hr]]; [|eauto].
      destruct (Hpi _ _ Hp) as [Hnone _].
      destruct (Hin (call_future c)) as (id & _ & ->); [apply Hvals; eauto|done|eauto].
    + destruct (ci_live0 c j Hc Hj) as [Hp|[r Hr]]; [by left|right; eauto].
Qed.

Lemma idle_finally_inv cnt t s cs : calls_inv cnt s cs -> calls_inv cnt (idle_finally t s) cs.
Proof.
  intros Hinv. unfold idle_finally. destruct (idle_tasks s !! t) as [k|] eqn:Hk; [|done].
  assert (forall s1, calls_inv cnt s1 cs -> idle_tasks s1 = idle_tasks s ->
    calls_inv cnt (set_idle_tasks (<[t := {| task_instance := task_instance k;
      task_cancelled := task_cancelled k; task_done := true |}]> (idle_tasks s1)) s1) cs) as Hset.
  { intros s1 [] Heq. split; try done. cbn. intros m j t' Hj Ht'.
    destruct (ci_idle0 m j t' Hj Ht') as (? & ? & k' & Hk' & ?). split; [done|]. split; [done|].
    rewrite Heq in *. destruct (decide (t' = t)) as [->|].
    - rewrite lookup_insert_eq. eexists. split; [done|]. cbn. congruence.
    - rewrite lookup_insert_ne by done. eauto. }
  cbn zeta. case_bool_decide; [|by apply Hset]. apply Hset; [by apply calls_inv_disarm|done].
Qed.

Lemma elsewhere_inv cnt s s' cs : elsewhere s s' ->
  (forall n, heap s !! n = None -> cnt n = 0%Z) -> calls_inv cnt s cs -> calls_inv cnt s' cs.
Proof.
  intros [Hold Hnew Ht Hf Hn] Hz [].
  assert (forall n i', heap s' !! n = Some i' ->
    (exists i, heap s !! n = Some i /\ component i' = component i /\
       in_flight_calls i' = in_flight_calls i /\ idle_task i' = idle_task i /\ pending_calls i' = pending_calls i) \/
    (heap s !! n = None /\ fresh_instance i')) as Hcase.
  { intros n i' Hi'. destruct (heap s !! n) as [i|] eqn:Hi; [left|right; eauto].
    destruct (Hold n i Hi) as (i2 & Hi2 & ? & ? & ? & ?). exists i. simplify_eq. done. }
  split; rewrite ?Ht, ?Hf, ?Hn; try done.
  - intros n i' [(i & Hi & _ & -> & _)|[Hi (-> & _)]]%Hcase; [eauto|]. by rewrite Hz.
  - intros c Hc. destruct (ci_heap0 c Hc) as [i Hi]. destruct (Hold _ _ Hi) as (i' & ? & _). eauto.
  - intros n i' t [(i & Hi & -> & -> & -> & _)|[Hi (_ & -> & _)]]%Hcase; [|done]. by apply ci_idle0.
  - intros n i' [(i & Hi & _ & _ & _ & ->)|[Hi (_ & _ & ->)]]%Hcase; [eauto|]. split; [constructor|done].
  - intros c i' Hc [(i & Hi & _ & _ & _ & ->)|[Hi _]]%Hcase; [eauto|].
    destruct (ci_heap0 c Hc). congruence.
Qed.

(* ------------------------------------------------------------------ *)
(** ** Preservation *)

Lemma count_cons c cs n : count (c :: cs) n = if decide (n = call_instance c) then (count cs n + 1)%Z else count cs n.
Proof.
  unfold count, calls_of. rewrite filter_cons. repeat case_decide; cbn; try congruence; lia.
Qed.

Lemma count_middle cs1 c cs2 n : count (cs1 ++ c :: cs2) n = count (c :: cs1 ++ cs2) n.
Proof. unfold count, calls_of. by rewrite Permutation_middle. Qed.

Lemma count_elem c cs : c ∈ cs -> (1 <= count cs (call_instance c))%Z.
Proof.
  intros Hc. unfold count, calls_of. assert (c ∈ filter (fun c' => call_instance c' = call_instance c) cs) as Hin.
  { by apply list_elem_of_filter. }
  destruct (filter _ cs); [by apply not_elem_of_nil in Hin|]. cbn. lia.
Qed.

Lemma count_absent s cs n : (forall c, c ∈ cs -> is_Some (heap s !! call_instance c)) ->
  heap s !! n = None -> count cs n = 0%Z.
Proof.
  intros Hh Hn. unfold count, calls_of. destruct (filter _ cs) as [|c l] eqn:Hf; [done|exfalso].
  assert (c ∈ filter (fun c => call_instance c = n) cs) as Hin by (rewrite Hf; set_solver).
  apply list_elem_of_filter in Hin as [<- Hc]. destruct (Hh c Hc). congruence.
Qed.

(** Beginning a call changes nothing but its provider's counter and timer. *)
Lemma begin_facts n s :
  next_request_id (_begin_forward_call n s) = next_request_id s /\
  futures (_begin_forward_call n s) = futures s /\
  (forall i, heap s !! n = Some i -> exists i', heap (_begin_forward_call n s) !! n = Some i' /\
     pending_calls i' = pending_calls i /\ component i' = component i).
Proof.
  unfold _begin_forward_call, _cancel_idle_task. rewrite heap_update, decide_True by done.
  destruct (heap s !! n) as [i|] eqn:Hi; cbn.
  - destruct (idle_task i); cbn; (split; [done|split; [done|]]); intros ? [= <-].
    + rewrite !lookup_alter_eq, Hi. cbn. eauto.
    + rewrite lookup_alter_eq, Hi. cbn. eauto.
  - done.
Qed.

Lemma finally_inv cnt s cs1 c cs2 :
  calls_inv cnt s (cs1 ++ c :: cs2) -> (1 <= cnt (call_instance c))%Z ->
  calls_inv (fun m => if decide (m = call_instance c) then (cnt m - 1)%Z else cnt m)
    (forward_finally (call_instance c) (Some (request_id c)) s) (cs1 ++ cs2).
Proof. intros Hinv Hpos. apply finish_inv; [|done]. by apply leave_inv. Qed.

Section Preservation.
Context `{PyLib} `{PyRepr}.

Lemma forward_start_inv now n msg source s s' cs r :
  calls_inv (count cs) s cs -> _forward_start now n msg source s = (s', r) ->
  match r with
  | Finished _ => calls_inv (count cs) s' cs
  | Waiting c _ _ => calls_inv (count (c :: cs)) s' (c :: cs)
  end.
Proof.
  intros Hinv. unfold _forward_start. destruct (heap s !! n) as [i|] eqn:Hi; [|by intros [= <- <-]].
  destruct (_ || _); [by intros [= <- <-]|].
  pose proof (begin_inv (count cs) n s cs Hinv) as Hb.
  destruct (begin_facts n s) as (Hnext & Hfut & Hheap). destruct (Hheap i Hi) as (i1 & Hi1 & _ & _).
  set (s1 := _begin_forward_call n s) in *. set (cnt := fun m => _) in Hb.
  assert (cnt n = count cs n + 1)%Z as Hcn by (unfold cnt; by rewrite decide_True).
  assert (0 <= count cs n)%Z as Hpos by (unfold count; lia).
  destruct (py_int _) as [public|e].
  2:{ intros [= <- <-]. eapply calls_inv_ext; [|apply finish_inv; [exact Hb|lia]].
      intros m. cbn. unfold cnt. case_decide; lia. }
  pose proof (enter_inv cnt n (next_request_id s1) (fresh (dom (futures s1))) s1 cs i1 Hb Hi1 eq_refl
    ltac:(apply not_elem_of_dom, is_fresh) public) as He.
  set (c := {| call_instance := n |}) in He. set (s2 := update n _ _) in He.
  assert (calls_inv (count cs) (forward_finally n (Some (next_request_id s1)) s2) cs) as Hfin.
  { eapply calls_inv_ext; [|apply (finally_inv cnt s2 [] c cs He); cbn; lia].
    intros m. cbn. unfold cnt. case_decide; lia. }
  fold s2. destruct (forwarded_timeout msg now) as [timeout|e]; [|by intros [= <- <-]].
  destruct (timeout <=? 0)%Z; intros [= <- <-]; [done|].
  eapply calls_inv_ext; [|exact He]. intros m. rewrite count_cons. done.
Qed.

Lemma call_step_inv s cs s' cs' :
  calls_inv (count cs) s cs -> call_step (s, cs) (s', cs') -> calls_inv (count cs') s' cs'.
Proof.
  intros Hinv Hs. inversion Hs; subst.
  - match goal with Hf : _forward_start _ _ _ _ _ = _ |- _ => apply (forward_start_inv _ _ _ _ _ _ _ _ Hinv Hf) end.
  - match goal with Hf : _forward_start _ _ _ _ _ = _ |- _ => apply (forward_start_inv _ _ _ _ _ _ _ _ Hinv Hf) end.
  - cbn. eapply calls_inv_ext; [|apply finally_inv; [exact Hinv|apply count_elem; set_solver]].
    intros m. cbn. rewrite count_middle, count_cons. case_decide; lia.
  - match goal with Hr : _resolve_reply _ _ _ = _ |- _ => rename Hr into Hrep end.
    unfold _resolve_reply in Hrep. destruct (heap s !! n) as [i|] eqn:Hi; [|by injection Hrep as <-].
    inv_result. destruct (dget (pending_calls i) _) as [f|] eqn:Hf; [|done].
    by eapply answer_inv.
  - by apply close_inv.
  - by apply schedule_inv.
  - by apply idle_finally_inv.
  - by apply calls_inv_disarm.
  - eapply elsewhere_inv; [done| |done]. intros n Hn. eapply count_absent; [apply Hinv|done].
Qed.

Lemma calls_reachable_inv s cs : calls_reachable (s, cs) -> calls_inv (count cs) s cs.
Proof.
  intros Hr. remember (s, cs) as w eqn:Hw. revert s cs Hw. induction Hr as [s0 Hh Ht Hf|[s1 cs1] [s2 cs2] _ IH Hst].
  - intros s cs [= <- <-]. split; rewrite ?Hh; try done; try constructor.
    all: intros c Hc; by apply not_elem_of_nil in Hc.
  - intros s cs [= <- <-]. eapply call_step_inv; [by apply IH|done].
Qed.
End Preservation.

(** Scheduling on an eligible instance leaves it with a timer. *)
Lemma schedule_arms n i s : heap s !! n = Some i ->
  exists i', heap (_schedule_idle_task n s) !! n = Some i' /\
    (is_Some (_idle_timeout_seconds (component i)) -> busy n i s = false -> is_Some (idle_task i')).
Proof.
  intros Hi. unfold _schedule_idle_task. rewrite Hi.
  assert (forall s2 fire, heap s2 = heap s ->
    heap (update n (set_idle_task (Some fire)) s2) !! n = Some (set_idle_task (Some fire) i)) as Harmed.
  { intros s2 fire Hs2. rewrite heap_update, decide_True, Hs2, Hi by done. done. }
  case_bool_decide as Hto; cbn [orb]; [exists i; split; [done|]; intros [? ?]; congruence|].
  destruct (busy n i s); [by exists i|].
  destruct (idle_task i) as [t|] eqn:Ht; [destruct (task_finished t s)|].
  - eexists. split; [by apply Harmed|]. done.
  - exists i. by rewrite Ht.
  - eexists. split; [by apply Harmed|]. done.
Qed.

(* ------------------------------------------------------------------ *)
(** ** Properties *)

(** C12: an idle timer never stops a provider underneath a call.  However calls,
    answers, restarts and timers interleave, when a timer decides to stop an
    instance, no forwarded call to it is outstanding, it is the current ready
    generation of an on-demand component with an idle timeout, nobody else is
    stopping it, and the timer is the one armed last. *)
Theorem idle_stop_never_under_a_call `{PyLib} `{PyRepr} s cs t n :
  calls_reachable (s, cs) -> idle_decision t s = Some n ->
  calls_of n cs = [] /\
  exists i, heap s !! n = Some i /\ dget (instances s) (key i) = Some n /\
    ready i = true /\ finalized i = false /\ stopping s = false /\ key i ∉ stop_requests s /\
    idle_task i = Some t /\ is_Some (_idle_timeout_seconds (component i)).
Proof.
  intros Hinv%calls_reachable_inv. unfold idle_decision.
  destruct (idle_tasks s !! t) as [k|]; [|done]. destruct (heap s !! task_instance k) as [i|] eqn:Hi; [|done].
  destruct (negb _ || _) eqn:Hg; [done|]. intros [= <-]. bool_simp.
  match goal with Hb : busy _ _ _ = false |- _ =>
    apply busy_false in Hb as (Hz & Hready & Hfin & Hcur & Hstop & Hreq) end.
  pose proof (ci_count _ _ _ Hinv _ _ Hi) as Hc. rewrite Hz in Hc. unfold count in Hc.
  split; [apply length_zero_iff_nil; lia|]. exists i.
  destruct (ci_idle _ _ _ Hinv _ _ t Hi) as (_ & Hto & _); done.
Qed.

(** The count of an instance is exact.  It always equals the number of its
    outstanding calls, so finishing a call never underflows it; when the last
    call to a ready, current on-demand instance ends, its idle timer is armed
    again. *)
Theorem in_flight_accounting `{PyLib} `{PyRepr} s cs1 c cs2 o :
  calls_reachable (s, cs1 ++ c :: cs2) ->
  let n := call_instance c in
  exists i i', heap s !! n = Some i /\
    in_flight_calls i = Z.of_nat (length (calls_of n (cs1 ++ c :: cs2))) /\
    (1 <= in_flight_calls i)%Z /\
    heap (_forward_finish c o s).1 !! n = Some i' /\
    in_flight_calls i' = Z.of_nat (length (calls_of n (cs1 ++ cs2))) /\
    (in_flight_calls i' = 0%Z -> is_Some (_idle_timeout_seconds (component i)) ->
     ready i = true -> finalized i = false -> dget (instances s) (key i) = Some n ->
     stopping s = false -> key i ∉ stop_requests s -> is_Some (idle_task i')).
Proof.
  intros Hinv%calls_reachable_inv n.
  destruct (ci_heap _ _ _ Hinv c ltac:(set_solver)) as [i Hi]. fold n in Hi.
  pose proof (ci_count _ _ _ Hinv n i Hi) as Hc.
  pose proof (count_elem c (cs1 ++ c :: cs2) ltac:(set_solver)) as Hpos. fold n in Hpos.
  pose proof (finally_inv _ s cs1 c cs2 Hinv Hpos) as Hfin. fold n in Hfin.
  change (_forward_finish c o s).1 with (forward_finally n (Some (request_id c)) s).
  set (s' := forward_finally n (Some (request_id c)) s) in *.
  assert (exists i', heap s' !! n = Some i' /\ (in_flight_calls i = 1%Z ->
     is_Some (_idle_timeout_seconds (component i)) ->
     ready i = true -> finalized i = false -> dget (instances s) (key i) = Some n ->
     stopping s = false -> key i ∉ stop_requests s -> is_Some (idle_task i'))) as (i' & Hi' & Harm).
  { unfold s', forward_finally, _finish_forward_call. rewrite heap_update, decide_True, Hi by done.
    cbn [fmap option_fmap option_map in_flight_calls set_pending_calls].
    destruct (in_flight_calls i <=? 0)%Z eqn:Hle; [lia|]. cbn zeta.
    set (s1 := update n _ (update n _ s)). set (j := set_in_flight_calls (in_flight_calls i - 1)
      (set_pending_calls (ddel (pending_calls i) (request_id c)) i)).
    assert (heap s1 !! n = Some j) as Hs1.
    { unfold s1. rewrite !heap_update, !decide_True by done. by rewrite Hi. }
    destruct (in_flight_calls i - 1 =? 0)%Z eqn:Hz; [|exists j; split; [exact Hs1|lia]].
    destruct (schedule_arms n j s1 Hs1) as (i' & Hi' & Harm). exists i'. split; [done|].
    intros _ Hto Hr Hf Hcur Hst Hk. apply Harm; [done|]. unfold busy, is_current. cbn.
    rewrite Hz, Hr, Hf, Hst. change (key j) with (key i).
    by rewrite bool_decide_eq_true_2, bool_decide_eq_false_2. }
  exists i, i'. split; [done|]. split; [done|]. split; [lia|]. split; [done|].
  pose proof (ci_count _ _ _ Hfin n i' Hi') as Hc'. cbn in Hc'. rewrite decide_True in Hc' by done.
  rewrite count_middle, count_cons, decide_True in Hc' by done.
  assert (in_flight_calls i' = count (cs1 ++ cs2) n) as Hc2 by (rewrite Hc'; unfold count; lia).
  split; [exact Hc2|]. intros Hz. apply Harm. rewrite Hc, count_middle, count_cons, decide_True by done. lia.
Qed.

(** A call that is forwarded. *)
Lemma forward_start_packet `{PyLib} `{PyRepr} now n msg source s s' c packet timeout :
  _forward_start now n msg source s = (s', Waiting c packet timeout) ->
  exists i, heap s !! n = Some i /\ call_instance c = n /\ request_id c = next_request_id s /\
    py_int (dget_or msg §"id" (VInt 0)) = Ok (public_id c) /\
    packet = forwarded_packet (request_id c) (key i) msg source.
Proof.
  unfold _forward_start. destruct (heap s !! n) as [i|] eqn:Hi; [|done]. destruct (_ || _); [done|]. cbv zeta.
  destruct (py_int _) as [public|e] eqn:Hid; [|done]. destruct (forwarded_timeout msg now) as [t|e]; [|done].
  destruct (t <=? 0)%Z; [done|]. intros [= _ <- <- _]. exists i. cbn [call_instance request_id public_id].
  destruct (begin_facts n s) as [-> _]. by split_and!.
Qed.

(** What the caller gets, under the id it has chosen itself. *)
Lemma forward_finish_answers c o s :
  match (_forward_finish c o s).2 with
  | Ok a =>
      dget a §"id" = Some (VInt (public_id c)) /\
      match o with
      | Answered => exists r, futures s !! call_future c = Some (Some r) /\ forall k, k ≠ §"id" -> dget a k = dget r k
      | TimedOut => dget a §"code" = Some (VStr §"CALL_TIMEOUT")
      | SendFailed _ => dget a §"code" = Some (VStr §"CALL_SEND_FAILED")
      | Interrupted => False
      end
  | Raise _ =>
      match o with
      | Answered => forall r, futures s !! call_future c <> Some (Some r)
      | TimedOut => False
      | SendFailed e => is_os_error (exn_type e) = false
      | Interrupted => True
      end
  end.
Proof.
  unfold _forward_finish. cbn [snd]. destruct o as [| |e|]; try done.
  - destruct (futures s !! call_future c) as [[r|]|]; try done. unfold with_id. split; [by rewrite dget_dset_eq|].
    exists r. split; [done|]. intros k Hk. by rewrite dget_dset_ne.
  - by destruct (is_os_error (exn_type e)).
Qed.

(** C37: answers reach the call they are for, and only that one.  A call is sent
    to its provider under a request id that no outstanding call has, with the
    method, payload and source of the caller; an answer from an instance resolves
    exactly the outstanding call to that instance with the same request id, once,
    and no other call; no call is lost: closing the channel of its provider
    answers every call that was still waiting.  The caller gets that answer, or
    the error of a deadline or of a socket, under the id it had given the call
    itself, and the answer is otherwise unchanged. *)
Theorem replies_reach_their_call `{PyLib} `{PyRepr} s cs c :
  calls_reachable (s, cs) -> c ∈ cs ->
  (forall n msg id s',
     py_int (dget_or msg §"id" (VInt 0)) = Ok id -> _resolve_reply n msg s = Ok s' ->
     futures s' !! call_future c =
       if decide (call_instance c = n /\ request_id c = id)
       then match futures s !! call_future c with Some None => Some (Some msg) | answered => answered end
       else futures s !! call_future c) /\
  (forall code, exists r,
     futures (_close_instance_channel (call_instance c) code s) !! call_future c = Some (Some r) /\
     (futures s !! call_future c = Some None ->
      r = error_response (VInt (request_id c)) code
            (default [] (key <$> heap s !! call_instance c)))) /\
  (forall o a, (_forward_finish c o s).2 = Ok a ->
     dget a §"id" = Some (VInt (public_id c)) /\
     match o with
     | Answered => exists r, futures s !! call_future c = Some (Some r) /\ forall k, k ≠ §"id" -> dget a k = dget r k
     | TimedOut => dget a §"code" = Some (VStr §"CALL_TIMEOUT")
     | SendFailed _ => dget a §"code" = Some (VStr §"CALL_SEND_FAILED")
     | Interrupted => False
     end) /\
  (forall r, futures s !! call_future c = Some (Some r) -> is_ok (_forward_finish c Answered s).2 = true) /\
  (forall now n msg source s' c' packet timeout,
     _forward_start now n msg source s = (s', Waiting c' packet timeout) ->
     request_id c' ∉ request_id <$> cs /\ call_instance c' = n /\
     py_int (dget_or msg §"id" (VInt 0)) = Ok (public_id c') /\
     dget packet §"id" = Some (VInt (request_id c')) /\
     (exists i, heap s !! n = Some i /\ dget packet §"target" = Some (VStr (key i))) /\
     dget packet §"method" = Some (dget_or msg §"method" VNone) /\
     dget packet §"payload" = Some (dget_or msg §"payload" (VDict [])) /\
     dget packet §"source" = Some (VStr source)).
Proof.
  intros Hreach Hc. assert (Hinv := Hreach). apply calls_reachable_inv in Hinv. split; [|split; [|split; [|split]]].
  3:{ intros o a Ha. pose proof (forward_finish_answers c o s) as Hf. rewrite Ha in Hf. exact Hf. }
  3:{ intros r Hr. pose proof (forward_finish_answers c Answered s) as Hf. destruct ((_forward_finish c Answered s).2); [done|]. by destruct (Hf r). }
  3:{ intros now n msg source s' c' packet timeout (i & Hi & Hn & Hid & Hpub & ->)%forward_start_packet.
      split; [|split_and!; try done; by exists i]. rewrite Hid. intros (c0 & Heq & Hc0)%list_elem_of_fmap.
      pose proof (ci_next _ _ _ Hinv c0 Hc0). lia. }
  - intros n msg id s' Hid Hrep. unfold _resolve_reply in Hrep.
    destruct (heap s !! n) as [i|] eqn:Hi.
    2:{ injection Hrep as <-. rewrite decide_False; [done|]. intros (Hn & _).
        destruct (ci_heap _ _ _ Hinv c Hc). congruence. }
    rewrite Hid in Hrep. cbn [rbind] in Hrep. injection Hrep as <-.
    destruct (dget (pending_calls i) id) as [f|] eqn:Hf.
    + destruct (answer_inv _ n i id f msg s cs Hinv Hi Hf) as [_ ->].
      destruct (ci_pending _ _ _ Hinv n i Hi) as [_ Hp]. apply Hp in Hf as (Hnone & c' & Hc' & Hn' & Hr' & Hf').
      destruct (decide (call_future c = f)) as [Heq|Hne].
      * assert (c' = c) as -> by (eapply (NoDup_key_inj call_future); [apply Hinv|done..|congruence]).
        rewrite Heq, lookup_insert_eq, decide_True by done. by rewrite Hnone.
      * rewrite lookup_insert_ne, decide_False; [done| |done]. intros (_ & Hr).
        apply Hne. assert (c' = c) as -> by (eapply (NoDup_key_inj request_id); [apply Hinv|done..|congruence]). done.
    + case_decide as Hd; [|done]. destruct Hd as (<- & <-).
      destruct (ci_live _ _ _ Hinv c i Hc Hi) as [?|[r Hr]]; [congruence|by rewrite Hr].
  - intros code. unfold _close_instance_channel.
    destruct (ci_heap _ _ _ Hinv c Hc) as [i Hi]. rewrite Hi.
    pose proof (fail_futures code (key i) (pending_calls i) s) as Hff. cbn zeta in Hff.
    set (s' := foldl _ s (pending_calls i)) in *. destruct Hff as (_ & _ & _ & _ & Hdone & Hin).
    cbn [futures update set_heap].
    destruct (ci_live _ _ _ Hinv c i Hc Hi) as [Hp|[r Hr]].
    2:{ exists r. split; [by apply Hdone|congruence]. }
    destruct (ci_pending _ _ _ Hinv _ i Hi) as [Hw Hpend]. destruct (Hpend _ _ Hp) as [Hnone _].
    destruct (Hin (call_future c)) as (id & Hid & Hr); [|done|].
    { apply list_elem_of_fmap. exists (request_id c, call_future c). split; [done|]. by apply dget_elem. }
    eexists. split; [exact Hr|]. intros _. apply elem_dget, Hpend in Hid as (_ & c' & Hc' & _ & <- & Hf'); [|done].
    assert (c' = c) as -> by (eapply (NoDup_key_inj call_future); [apply Hinv|done..]). done.
Qed.

(* ------------------------------------------------------------------ *)
(** ** Witnesses *)

Definition sample_provider : Manifest.Component :=
  let c := Manifest.sample_component §"p" §"hal" in
  {| Manifest.package_id := §"p"; Manifest.package_version := §"1"; Manifest.id := §"hal";
     Manifest.exec := Manifest.exec c; Manifest.lifecycle := §"on-demand";
     Manifest.package_kind := §"system"; Manifest.package_name := §"p";
     Manifest.package_icons := []; Manifest.runtime := §"custom"; Manifest.restart := §"never";
     Manifest.idle_timeout_ms := Some 30000%Z; Manifest.cwd := None; Manifest.env := [];
     Manifest.readiness_mode := §"mipc-ready"; Manifest.readiness_timeout_ms := 5000;
     Manifest.provides := []; Manifest.requires := []; Manifest.wants := []; Manifest.after := [];
     Manifest.windowing := []; Manifest.activation := []; Manifest.permissions := [];
     Manifest.isolation := Isolation.spec_default; Manifest.raw := []; Manifest.manifest_path := None;
     Manifest.package_summary := []; Manifest.package_i18n := VNone |}.

Definition sample_instance : Instance :=
  {| component := sample_provider; component_object := 0; generation := 1; process := None; sock := true;
     state := §"ready"; ready := true; started_at := 0; subscriptions := ∅; pending_calls := [];
     in_flight_calls := 0; idle_task := None; finalized := false; backoff_until := 0;
     transition_closing := false |}.

Definition sample_supervisor (h : gmap nat Instance) (current : dict pystr nat) : Supervisor :=
  {| heap := h; instances := current; components := [(§"p:hal", sample_provider)]; component_objects := [(§"p:hal", 0%nat)];
     role_registry := Roles.sample_registry; service_catalog := Services.make [];
     catalog_epoch := 0; next_request_id := 1; stopping := false; stop_requests := ∅;
     foreground_stack := []; backgrounded_components := ∅; failure_history := [];
     quarantined := ∅; quarantine_times := []; recovery_allowed := None; idle_tasks := ∅;
     futures := ∅ |}.

Definition sample_started : Supervisor :=
  sample_supervisor {[ 0%nat := sample_instance ]} [(§"p:hal", 0%nat)].

Lemma sample_started_reachable : calls_reachable (sample_started, []).
Proof.
  eapply cr_step; [by apply (cr_init (sample_supervisor ∅ []))|]. apply cs_elsewhere. split; try done.
  intros n i Hi _. cbn in Hi. apply lookup_singleton_Some in Hi as [_ <-]. done.
Qed.

Definition sample_msg : response := [(§"id", VInt 7); (§"method", VStr §"status")].

Definition sample_call : Call :=
  {| call_instance := 0; request_id := 1; call_future := 0; public_id := 7 |}.

(** The provider with one call forwarded to it. *)
Definition sample_called : Supervisor := (_forward_start 0 0 sample_msg §"public" sample_started).1.

Lemma sample_called_reachable : calls_reachable (sample_called, [sample_call]).
Proof.
  eapply cr_step; [exact sample_started_reachable|].
  eapply (cs_start 0 0 sample_msg §"public" sample_started); vm_compute; reflexivity.
Qed.

Lemma idle_stop_never_under_a_call_witness :
  idle_decision 0 (_schedule_idle_task 0 sample_started) = Some 0%nat /\ calls_of 0 [] = [] /\
  idle_decision 0 (_begin_forward_call 0 (_schedule_idle_task 0 sample_started)) = None.
Proof.
  assert (idle_decision 0 (_schedule_idle_task 0 sample_started) = Some 0%nat) as Hd
    by (vm_compute; reflexivity).
  split; [exact Hd|]. split; [|vm_compute; reflexivity].
  refine (proj1 (idle_stop_never_under_a_call (_schedule_idle_task 0 sample_started) [] 0 0 _ Hd)).
  eapply cr_step; [exact sample_started_reachable|apply cs_ready].
Defined.

Lemma in_flight_accounting_witness :
  exists i i', heap sample_called !! 0%nat = Some i /\ in_flight_calls i = 1%Z /\
    heap (_forward_finish sample_call TimedOut sample_called).1 !! 0%nat = Some i' /\
    is_Some (idle_task i').
Proof.
  destruct (in_flight_accounting sample_called [] sample_call [] TimedOut sample_called_reachable)
    as (i & i' & Hi & Hc & _ & Hi' & Hc' & Harm).
  exists i, i'. split; [exact Hi|]. split; [rewrite Hc; vm_compute; reflexivity|].
  split; [exact Hi'|]. vm_compute in Hi. injection Hi as <-.
  apply Harm; try (vm_compute; reflexivity).
  - rewrite Hc'. vm_compute. reflexivity.
  - vm_compute. eexists. reflexivity.
  - apply (bool_decide_unpack _). vm_compute. exact I.
Defined.

Lemma replies_reach_their_call_witness :
  exists s', _resolve_reply 0 [(§"type", VStr §"return"); (§"id", VInt 1)] sample_called = Ok s' /\
    futures s' !! 0%nat = Some (Some [(§"type", VStr §"return"); (§"id", VInt 1)]).
Proof.
  eexists. split; [vm_compute; reflexivity|].
  destruct (replies_reach_their_call sample_called [sample_call] sample_call sample_called_reachable)
    as [Hreply _]; [apply list_elem_of_singleton; reflexivity|].
  etransitivity; [eapply (Hreply 0%nat [(§"type", VStr §"return"); (§"id", VInt 1)] 1%Z);
    vm_compute; reflexivity|]. vm_compute. reflexivity.
Defined.
End Calls.
