(* ===== verification/Restart.v ===== *)
(** * Restarts, crash loops and display outages ([msys_core/msysd.py])

    Which exited components are started again, the failure budget that stops a
    crash loop, and the fence around inherited display clients while their
    display provider is down. *)

From Stdlib Require Import ZArith.
From S2P Require Export Foreground.

Module Restart.
Import Msysd Foreground.

(* ------------------------------------------------------------------ *)
(** ** Restart policy *)

Definition _is_restartable_system_provider (c : Manifest.Component) : bool :=
  bool_decide (Manifest.package_kind c = §"system")
  && bool_decide (Manifest.lifecycle c ∈ [§"background"; §"session"])
  && existsb (fun p => bool_decide (Manifest.kind p ∈ [§"role"; §"interface"; §"capability"]))
       (Manifest.provides c).

Definition _component_should_restart (c : Manifest.Component) (rc : Z) : bool :=
  if negb (_is_restartable_system_provider c) then false
  else if bool_decide (Manifest.restart c = §"always") then true
  else bool_decide (Manifest.restart c = §"on-failure") && negb (rc =? 0)%Z.

(* ------------------------------------------------------------------ *)
(** ** Visual clients and their display *)

Definition DISPLAY_OUTPUT_ROLE : pystr := §"display-output".

Definition _provides_display_output (c : Manifest.Component) : bool :=
  provides_role c DISPLAY_OUTPUT_ROLE.

Definition _is_automatic_visual_service (c : Manifest.Component) : bool :=
  bool_decide (Manifest.lifecycle c ∈ [§"background"; §"session"]).

Section Display.
Context `{PyLib} `{PyRepr}.

(** The first of [DISPLAY_ID] and [DISPLAY] that is not blank. *)
Definition display_of_env (env : dict pystr pystr) : option pystr :=
  find_first str_true
    ((fun name => str_strip (dget_or env name [])) <$> [§"DISPLAY_ID"; §"DISPLAY"]).

Definition _display_for_provider (c : option Manifest.Component) : option pystr :=
  c ≫= fun c => display_of_env (Manifest.env c).

Definition _inherits_visual_session (c : Manifest.Component) : bool :=
  bool_decide (windowing_str c §"system" = §"x11")
  && bool_decide (windowing_str c §"display" = §"inherit")
  && negb (bool_decide (windowing_str c §"mode" = §"display-provider"))
  && negb (_provides_display_output c).

Definition _display_outage_blocks (s : Supervisor) (c : Manifest.Component) : bool :=
  match recovery_allowed s with
  | None => false
  | Some allowed =>
      _inherits_visual_session c && negb (bool_decide (Manifest.key c ∈ allowed))
  end.

(** The order in which visual clients are started again. *)
Definition _order_visual_consumer_keys (startup : list pystr) (stack : list pystr)
    (candidates : gset pystr) : list pystr :=
  let profile_order := filter (.∈ candidates) startup in
  let remaining := candidates ∖ list_to_set profile_order in
  let foreground_order := filter (.∈ remaining) (reverse stack) in
  let remaining := remaining ∖ list_to_set foreground_order in
  fromkeys (profile_order ++ foreground_order ++ sorted_strs (elements remaining)).

Definition _ordered_visual_consumers (s : Supervisor) (startup : list pystr) : list pystr :=
  let running := List.filter (fun kn =>
    match heap s !! kn.2 with
    | Some i => negb (finalized i)
                && bool_decide (dget (component_objects s) kn.1 = Some (component_object i))
                && _inherits_visual_session (component i)
    | None => false
    end) (instances s) in
  _order_visual_consumer_keys startup (foreground_stack s) (list_to_set running.*1).

(* ------------------------------------------------------------------ *)
(** ** The failure budget *)

Definition QUARANTINE_FAILURES : nat := 5.
Definition FAILURE_WINDOW : Z := seconds 60.

(** [min(30.0, 0.25 * 2 ** (n - 1))] *)
Definition restart_delay (n : nat) : Z :=
  Z.min (seconds 30) (millis 250 * 2 ^ (Z.of_nat n - 1)).

Definition recent_failures (now : Z) (failures : list Z) : list Z :=
  filter (fun x => (now - x < FAILURE_WINDOW)%Z) failures ++ [now].

Definition _record_component_failure (k : pystr) (now : Z) (s : Supervisor)
    : Supervisor * option Z :=
  if match dget (components s) k with Some c => _display_outage_blocks s c | None => false end
  then (s, None)
  else
    let failures := recent_failures now (dget_or (failure_history s) k []) in
    let s := set_failure_history (dset (failure_history s) k failures) s in
    if (QUARANTINE_FAILURES <=? length failures)%nat
    then (set_quarantine_times (dset (quarantine_times s) k now)
            (set_quarantined ({[k]} ∪ quarantined s) s), None)
    else (s, Some (restart_delay (length failures))).

Definition _record_restart_failure (n : nat) (now : Z) (s : Supervisor)
    : Supervisor * option Z :=
  match heap s !! n with
  | None => (s, None)
  | Some i =>
      let '(s, delay) := _record_component_failure (key i) now s in
      match delay with
      | Some d => (s, Some d)
      | None =>
          (update n (set_state (if bool_decide (key i ∈ quarantined s)
                                then §"quarantined" else §"display-wait")) s, None)
      end
  end.

(** [_restart_later] up to its sleep: the delay, if it sleeps at all. *)
Definition _restart_later (n : nat) (now : Z) (s : Supervisor) : Supervisor * option Z :=
  match heap s !! n with
  | None => (s, None)
  | Some i =>
      if _display_outage_blocks s (component i)
      then (update n (set_state §"display-wait") s, None)
      else
        let '(s, delay) := _record_restart_failure n now s in
        match delay with
        | None => (s, None)
        | Some d =>
            (update n (fun i => set_backoff_until (now + d) (set_state §"backoff" i)) s, Some d)
        end
  end.

(** Whether [_restart_later] starts the component once its sleep is over. *)
Definition restart_resumes (n : nat) (s : Supervisor) : bool :=
  match heap s !! n with
  | None => false
  | Some i =>
      negb (stopping s) && negb (bool_decide (key i ∈ stop_requests s))
      && is_current s (key i) n && negb (_display_outage_blocks s (component i))
  end.

(** [_watch_process] once the exit was handled by this task. *)
Definition watch_exit (n : nat) (rc now : Z) (s : Supervisor) : Supervisor * option Z :=
  match heap s !! n with
  | None => (s, None)
  | Some i =>
      if negb (stopping s) && _component_should_restart (component i) rc
      then if _display_outage_blocks s (component i)
           then (update n (set_state §"display-wait") s, None)
           else _restart_later n now s
      else (s, None)
  end.
End Display.

(* ------------------------------------------------------------------ *)
(** ** Lemmas *)

(** Readings of a monotonic clock, oldest first. *)
Definition monotone (l : list Z) : Prop := Sorted.StronglySorted Z.le l.

Lemma monotone_app l1 l2 : monotone (l1 ++ l2) -> monotone l1 /\ monotone l2 /\
  forall x y, x ∈ l1 -> y ∈ l2 -> (x <= y)%Z.
Proof.
  unfold monotone. induction l1 as [|a l1 IH]; cbn.
  - intros Hm. split; [constructor|]. split; [done|]. intros x y Hx. by apply not_elem_of_nil in Hx.
  - inversion 1 as [|? ? Hm Ha]; subst. apply IH in Hm as (H1 & H2 & H3).
    apply Forall_app in Ha as [Ha1 Ha2]. rewrite Forall_forall in Ha2. split; [by constructor|].
    split; [done|]. intros x y [->|Hx]%elem_of_cons Hy; auto.
Qed.

Lemma monotone_le l i j x y :
  monotone l -> l !! i = Some x -> l !! j = Some y -> (i <= j)%nat -> (x <= y)%Z.
Proof.
  unfold monotone. intros Hm. revert i j. induction Hm as [|a l Hm IH Ha]; intros i j; [done|].
  rewrite Forall_forall in Ha. destruct i as [|i], j as [|j]; cbn; [|intros [= ->] Hy _| |]; try lia.
  - intros [= ->] [= ->]. lia.
  - apply Ha. by eapply list_elem_of_lookup_2.
  - intros Hx Hy Hij. eapply IH; [done..|lia].
Qed.

(** The failures within the window of [now], all failures being known. *)
Definition window (now : Z) (times : list Z) : list Z :=
  filter (fun x => (now - x < FAILURE_WINDOW)%Z) times.

Lemma window_window now now' l : (now <= now')%Z -> window now' (window now l) = window now' l.
Proof.
  intros Hle. unfold window. rewrite list_filter_filter. apply list_filter_iff. intros x. lia.
Qed.

(** The window of an ordered sequence is the end of it. *)
Lemma window_suffix now l : monotone l -> window now l = drop (length l - length (window now l)) l.
Proof.
  unfold monotone. induction 1 as [|a l Hm IH Ha]; [done|]. unfold window in *. rewrite filter_cons.
  case_decide as Hd.
  - assert (filter (fun x => (now - x < FAILURE_WINDOW)%Z) l = l) as ->.
    { apply filter_all. intros x Hx. rewrite Forall_forall in Ha. specialize (Ha x Hx). lia. }
    cbn. by rewrite Nat.sub_diag.
  - pose proof (length_filter (fun x => (now - x < FAILURE_WINDOW)%Z) l) as Hlen.
    cbn [length]. rewrite Nat.sub_succ_l by lia. cbn [drop]. exact IH.
Qed.

Lemma window_full now l : monotone l -> forall n, (n < length l)%nat ->
  (S n <= length (window now l))%nat <->
  exists x, l !! (length l - S n)%nat = Some x /\ (now - x < FAILURE_WINDOW)%Z.
Proof.
  intros Hm n Hn. pose proof (window_suffix now l Hm) as Hs.
  pose proof (length_filter (fun x => (now - x < FAILURE_WINDOW)%Z) l) as Hlen. fold (window now l) in Hlen.
  split.
  - intros Hle. destruct (lookup_lt_is_Some_2 l (length l - S n)) as [x Hx]; [lia|].
    exists x. split; [done|]. assert (x ∈ window now l) as Hin.
    { rewrite Hs. apply list_elem_of_lookup. exists (length (window now l) - S n)%nat.
      rewrite lookup_drop. rewrite <- Hx. f_equal. lia. }
    by apply list_elem_of_filter in Hin as [? _].
  - intros (x & Hx & Hw).
    assert (forall y, y ∈ drop (length l - S n) l -> y ∈ window now l) as Hsub.
    { intros y (j & Hj)%list_elem_of_lookup. rewrite lookup_drop in Hj. apply list_elem_of_filter.
      split; [|by eapply list_elem_of_lookup_2]. pose proof (monotone_le l _ _ x y Hm Hx Hj). lia. }
    assert (window now (drop (length l - S n) l) = drop (length l - S n) l) as Hall.
    { apply filter_all. intros y Hy. apply Hsub, list_elem_of_filter in Hy as [? _]. done. }
    assert (length (window now (drop (length l - S n) l)) <= length (window now l))%nat as Hle.
    { pose proof (f_equal (fun l' => length (window now l')) (take_drop (length l - S n) l)) as Hsplit.
      unfold window in *. cbn beta in Hsplit. rewrite filter_app, length_app in Hsplit. lia. }
    rewrite Hall, length_drop in Hle. lia.
Qed.

Definition set_recovery_allowed (v : option (gset pystr)) (s : Supervisor) : Supervisor :=
  {| heap := heap s; instances := instances s; components := components s;
     component_objects := component_objects s; role_registry := role_registry s;
     service_catalog := service_catalog s; catalog_epoch := catalog_epoch s;
     next_request_id := next_request_id s; stopping := stopping s;
     stop_requests := stop_requests s; foreground_stack := foreground_stack s;
     backgrounded_components := backgrounded_components s; failure_history := failure_history s;
     quarantined := quarantined s; quarantine_times := quarantine_times s;
     recovery_allowed := v; idle_tasks := idle_tasks s; futures := futures s |}.

Definition set_components (v : dict pystr Manifest.Component) (s : Supervisor) : Supervisor :=
  {| heap := heap s; instances := instances s; components := v;
     component_objects := component_objects s; role_registry := role_registry s;
     service_catalog := service_catalog s; catalog_epoch := catalog_epoch s;
     next_request_id := next_request_id s; stopping := stopping s;
     stop_requests := stop_requests s; foreground_stack := foreground_stack s;
     backgrounded_components := backgrounded_components s; failure_history := failure_history s;
     quarantined := quarantined s; quarantine_times := quarantine_times s;
     recovery_allowed := recovery_allowed s; idle_tasks := idle_tasks s; futures := futures s |}.

Section Budget.
Context `{PyLib} `{PyRepr}.

(** What may happen to the failure accounts: a component fails; the fence of a
    display outage begins, changes or ends; the catalog is replaced; and the
    account of a component is renewed (by a reload), pardoned or restored (by
    the recovery from an outage). *)
Inductive account_event :=
| Failed (k : pystr) (now : Z)
| Fenced (allowed : option (gset pystr))
| Recatalogued (cs : dict pystr Manifest.Component)
| Renewed (k : pystr)
| Pardoned (k : pystr)
| Restored (k : pystr) (failures : list Z).

(** The quarantine of [k] ends. *)
Definition pardon (k : pystr) (s : Supervisor) : Supervisor :=
  set_quarantine_times (ddel (quarantine_times s) k) (set_quarantined (quarantined s ∖ {[k]}) s).

Definition account (s : Supervisor) (e : account_event) : Supervisor :=
  match e with
  | Failed k now => (_record_component_failure k now s).1
  | Fenced allowed => set_recovery_allowed allowed s
  | Recatalogued cs => set_components cs s
  | Renewed k => pardon k (set_failure_history (ddel (failure_history s) k) s)
  | Pardoned k => pardon k s
  | Restored k [] => set_failure_history (ddel (failure_history s) k) s
  | Restored k failures => set_failure_history (dset (failure_history s) k failures) s
  end.

Definition fenced (s : Supervisor) (k : pystr) : bool :=
  match dget (components s) k with Some c => _display_outage_blocks s c | None => false end.

(** The failures held against [k], however old: those it had, and every one at
    which no fence keeps it from its display, until the account is renewed or
    restored. *)
Definition hold (k : pystr) (s : Supervisor) (l : list Z) (e : account_event) : list Z :=
  match e with
  | Failed k' now => if bool_decide (k' = k) && negb (fenced s k) then l ++ [now] else l
  | Renewed k' => if bool_decide (k' = k) then [] else l
  | Restored k' failures => if bool_decide (k' = k) then failures else l
  | Fenced _ | Recatalogued _ | Pardoned _ => l
  end.

Fixpoint held_from (k : pystr) (es : list account_event) (s : Supervisor) (l : list Z) : list Z :=
  match es with
  | [] => l
  | e :: es => held_from k es (account s e) (hold k s l e)
  end.
Definition held (k : pystr) (es : list account_event) (s : Supervisor) : list Z :=
  held_from k es s (dget_or (failure_history s) k []).

(** It does not end a quarantine of [k]. *)
Definition spares (k : pystr) (e : account_event) : Prop := e ≠ Renewed k /\ e ≠ Pardoned k.

(** After the events, [k] fails without a fence, and the fifth last failure held
    against it is less than a minute old. *)
Definition fifth_failure (k : pystr) (es : list account_event) (now : Z) (s : Supervisor) : Prop :=
  fenced (foldl account s es) k = false /\
  exists l first l', held k (es ++ [Failed k now]) s = l ++ first :: l' /\ length l' = 4%nat /\
    (now - first < FAILURE_WINDOW)%Z.

Lemma held_snoc k es e s : held k (es ++ [e]) s = hold k (foldl account s es) (held k es s) e.
Proof.
  unfold held. generalize (dget_or (failure_history s) k []) as l. revert s. induction es as [|e' es IH]; intros s l; [done|].
  apply IH.
Qed.

(** A failure that is not counted changes nothing for [k]. *)
Lemma record_other k k' now s : bool_decide (k' = k) && negb (fenced s k) = false ->
  let s' := (_record_component_failure k' now s).1 in
  dget_or (failure_history s') k [] = dget_or (failure_history s) k [] /\ (k ∈ quarantined s' <-> k ∈ quarantined s).
Proof.
  intros Hc s'. unfold s', _record_component_failure, dget_or. fold (fenced s k'). destruct (fenced s k') eqn:Hf; [done|].
  assert (k' ≠ k) as Hne by (intros ->; by rewrite bool_decide_eq_true_2, Hf in Hc).
  destruct (_ <=? _)%nat; cbn; rewrite dget_dset_ne by congruence; (split; [done|]); [set_solver|done].
Qed.

Lemma record_counted k now s : fenced s k = false ->
  let recent := recent_failures now (dget_or (failure_history s) k []) in
  let s' := (_record_component_failure k now s).1 in
  dget_or (failure_history s') k [] = recent /\
  (k ∈ quarantined s' <-> k ∈ quarantined s \/ (QUARANTINE_FAILURES <= length recent)%nat).
Proof.
  intros Hno recent s'. unfold s', _record_component_failure. fold (fenced s k). rewrite Hno. fold recent.
  destruct (QUARANTINE_FAILURES <=? length recent)%nat eqn:Hq; cbn; unfold dget_or; rewrite dget_dset_eq.
  - apply Nat.leb_le in Hq. split; [done|]. set_solver.
  - apply Nat.leb_gt in Hq. split; [done|]. split; [tauto|]. intros [?|?]; [done|lia].
Qed.

Lemma account_wf es s : dict_wf (failure_history s) -> dict_wf (failure_history (foldl account s es)).
Proof.
  revert s. induction es as [|e es IH]; intros s Hwf; [done|]. apply IH.
  destruct e as [k now|allowed|cs|k|k|k [|f failures]]; cbn [account]; try exact Hwf; try (by apply ddel_wf).
  2: by apply dset_wf.
  unfold _record_component_failure. fold (fenced s k). destruct (fenced s k); [done|]. destruct (_ <=? _)%nat; by apply dset_wf.
Qed.

(** As far as a later failure looks back, the account of [k] has the failures held
    against it. *)
Lemma account_history k es s : dict_wf (failure_history s) -> (forall es1 es2, es = es1 ++ es2 -> monotone (held k es1 s)) ->
  forall t, Forall (fun x => (x <= t)%Z) (held k es s) ->
  window t (dget_or (failure_history (foldl account s es)) k []) = window t (held k es s).
Proof.
  intros Hwf. induction es as [|e es IH] using rev_ind; intros Hm t Ht; [done|]. pose proof (account_wf es s Hwf) as Hwf1.
  pose proof (Hm (es ++ [e]) [] ltac:(by rewrite app_nil_r)) as Hme.
  specialize (IH ltac:(intros es1 es2 ->; apply (Hm es1 (es2 ++ [e])); by rewrite app_assoc)).
  rewrite held_snoc in Ht, Hme |- *. rewrite foldl_app. set (s1 := foldl account s es) in *. cbn [foldl].
  destruct e as [k' now|allowed|cs|k'|k'|k' failures]; cbn [account hold] in *; [|by apply IH|by apply IH| |by apply IH|].
  - destruct (bool_decide (k' = k) && negb (fenced s1 k)) eqn:Hc.
    2:{ destruct (record_other k k' now s1 Hc) as [-> _]. by apply IH. }
    apply andb_true_iff in Hc as [->%bool_decide_eq_true Hf%negb_true_iff].
    destruct (record_counted k now s1 Hf) as [-> _]. apply monotone_app in Hme as (_ & _ & Hle).
    assert (window now (dget_or (failure_history s1) k []) = window now (held k es s)) as Hw.
    { apply IH. apply Forall_forall. intros x Hx. apply Hle; [done|by left]. }
    apply Forall_app in Ht as [_ Ht]. inversion_clear Ht.
    unfold recent_failures. fold (window now (dget_or (failure_history s1) k [])). rewrite Hw.
    unfold window at 1 3. rewrite !filter_app. f_equal. exact (window_window _ _ _ ltac:(done)).
  - case_bool_decide as Hk; [subst k'|]; cbn; unfold dget_or.
    + by rewrite dget_ddel, decide_True.
    + rewrite dget_ddel, decide_False by congruence. by apply IH.
  - case_bool_decide as Hk; [subst k'|]; destruct failures as [|f failures]; cbn [failure_history set_failure_history]; unfold dget_or.
    + by rewrite dget_ddel, decide_True.
    + by rewrite dget_dset_eq.
    + rewrite dget_ddel, decide_False by congruence. by apply IH.
    + rewrite dget_dset_ne by congruence. by apply IH.
Qed.

(** Five failures in the window: the fifth last one is in it. *)
Lemma window_five now l : monotone (l ++ [now]) ->
  (QUARANTINE_FAILURES <= length (window now l ++ [now]))%nat <->
  exists l0 first l', l ++ [now] = l0 ++ first :: l' /\ length l' = 4%nat /\ (now - first < FAILURE_WINDOW)%Z.
Proof.
  intros Hm. assert (window now l ++ [now] = window now (l ++ [now])) as ->.
  { unfold window. rewrite filter_app, (filter_cons_True _ now), filter_nil; [done|]. unfold FAILURE_WINDOW, seconds. lia. }
  revert Hm. generalize (l ++ [now]) as m. intros m Hm. unfold QUARANTINE_FAILURES. split.
  - intros Hlen. assert (4 < length m)%nat as Hl.
    { pose proof (length_filter (fun x => (now - x < FAILURE_WINDOW)%Z) m). unfold window in Hlen. lia. }
    apply (window_full now _ Hm 4 Hl) in Hlen as (x & Hx & Hd).
    exists (take (length m - 5) m), x, (drop (S (length m - 5)) m). split_and!; [by rewrite take_drop_middle| |done].
    rewrite length_drop. lia.
  - intros (l0 & x & l' & -> & Hl & Hd). apply (window_full now _ Hm 4); rewrite length_app; cbn; [lia|].
    exists x. split; [|done]. replace (length l0 + S (length l') - 5)%nat with (length l0) by lia. by apply list_lookup_middle.
Qed.

(** What one more event does to the quarantine. *)
Lemma account_quarantine k es e s : dict_wf (failure_history s) -> (forall es1 es2, es ++ [e] = es1 ++ es2 -> monotone (held k es1 s)) ->
  k ∈ quarantined (foldl account s (es ++ [e])) <->
  (k ∈ quarantined (foldl account s es) /\ spares k e) \/ exists now, e = Failed k now /\ fifth_failure k es now s.
Proof.
  intros Hwf Hm. pose proof (Hm (es ++ [e]) [] ltac:(by rewrite app_nil_r)) as Hme.
  pose proof (account_history k es s Hwf ltac:(intros es1 es2 ->; apply (Hm es1 (es2 ++ [e])); by rewrite app_assoc)) as Hh.
  unfold fifth_failure, spares. rewrite foldl_app. cbn [foldl].
  destruct e as [k' now|allowed|cs|k'|k'|k' failures]; cbn [account].
  2, 3: naive_solver.
  2, 3: cbn; destruct (decide (k' = k)) as [->|]; set_solver.
  2: destruct failures; cbn; naive_solver.
  destruct (bool_decide (k' = k) && negb (fenced (foldl account s es) k)) eqn:Hc.
  2:{ destruct (record_other k k' now _ Hc) as [_ ->]. split; [by left|].
      intros [[? _]|(x & [= -> ->] & Hf & _)]; [done|]. by rewrite bool_decide_eq_true_2, Hf in Hc. }
  rewrite held_snoc in Hme. cbn [hold] in Hme. rewrite Hc in Hme.
  apply andb_true_iff in Hc as [->%bool_decide_eq_true Hf%negb_true_iff].
  destruct (record_counted k now _ Hf) as [_ ->]. unfold recent_failures.
  fold (window now (dget_or (failure_history (foldl account s es)) k [])). rewrite Hh.
  2:{ apply monotone_app in Hme as (_ & _ & Hle). apply Forall_forall. intros x Hx. apply Hle; [done|by left]. }
  rewrite (window_five now _ Hme). split.
  - intros [?|Hfive]; [by left|]. right. exists now. split_and!; [done..|]. rewrite held_snoc. cbn [hold].
    by rewrite bool_decide_eq_true_2, Hf.
  - intros [[? _]|(x & [= <-] & _ & Hfive)]; [by left|]. right. rewrite held_snoc in Hfive. cbn [hold] in Hfive.
    by rewrite bool_decide_eq_true_2, Hf in Hfive.
Qed.
End Budget.

(* ------------------------------------------------------------------ *)
(** ** Properties *)

(** C38: crash loops are stopped, and nothing else is.  Whatever components fail,
    whatever fences the outages of the display raise, and whatever catalogs,
    renewals, pardons and restored accounts come in between, a component that was
    not quarantined is quarantined exactly when, since the last renewal or pardon
    of its account, there was a failure of it without a fence at which the fifth
    last failure held against it was less than a minute old.  Failures behind a
    fence are not held against it.  The clock that dates them does not run
    backwards. *)
Theorem quarantine_iff_five_failures_in_window `{PyLib} `{PyRepr} k es s :
  dict_wf (failure_history s) -> k ∉ quarantined s -> (forall es1 es2, es = es1 ++ es2 -> monotone (held k es1 s)) ->
  k ∈ quarantined (foldl account s es) <->
  exists es1 now es2, es = es1 ++ Failed k now :: es2 /\ Forall (spares k) es2 /\ fifth_failure k es1 now s.
Proof.
  intros Hwf Hq. induction es as [|e es IH] using rev_ind; intros Hm.
  { split; [done|]. intros (es1 & now & es2 & Hes & _). by destruct es1. }
  rewrite (account_quarantine _ _ _ _ Hwf Hm).
  rewrite IH by (intros es1 es2 ->; apply (Hm es1 (es2 ++ [e])); by rewrite app_assoc). split.
  - intros [[(es1 & now & es2 & -> & Hs & Hf) He]|(now & -> & Hf)].
    + exists es1, now, (es2 ++ [e]). split_and!; [by rewrite <- app_assoc| |done]. apply Forall_app. split; [done|by apply Forall_singleton].
    + exists es, now, []. split_and!; [done|by apply Forall_nil_2|done].
  - intros (es1 & now & es2 & Hes & Hs & Hf). destruct es2 as [|e' es2 _] using rev_ind.
    + apply app_inj_tail in Hes as [-> ->]. right. by exists now.
    + rewrite app_comm_cons, app_assoc in Hes. apply app_inj_tail in Hes as [-> ->]. apply Forall_app in Hs as [Hs He].
      inversion_clear He. left. split; [|done]. by exists es1, now, es2.
Qed.

(** What happens to an instance that should be restarted.  A fenced display
    client waits for its display and its failure budget is untouched; otherwise
    the failure is recorded and the instance either waits 250 ms, doubled by
    every recent failure and never more than two seconds, or is quarantined. *)
Theorem restart_later_spec `{PyLib} `{PyRepr} n now s i :
  heap s !! n = Some i -> dget (components s) (key i) = Some (component i) ->
  let recent := length (recent_failures now (dget_or (failure_history s) (key i) [])) in
  let '(s', delay) := _restart_later n now s in
  exists i', heap s' !! n = Some i' /\
    if _display_outage_blocks s (component i) then
      delay = None /\ state i' = §"display-wait" /\ failure_history s' = failure_history s /\
      quarantined s' = quarantined s
    else if (QUARANTINE_FAILURES <=? recent)%nat then
      delay = None /\ state i' = §"quarantined" /\ key i ∈ quarantined s'
    else exists d, delay = Some d /\ state i' = §"backoff" /\ backoff_until i' = (now + d)%Z /\
      d = (millis 250 * 2 ^ (Z.of_nat recent - 1))%Z /\ (millis 250 <= d <= seconds 2)%Z /\
      quarantined s' = quarantined s.
Proof.
  intros Hi Hc recent. unfold _restart_later. rewrite Hi.
  destruct (_display_outage_blocks s (component i)) eqn:Hb.
  { eexists. rewrite heap_update, decide_True, Hi by done. split; [done|]. done. }
  unfold _record_restart_failure. rewrite Hi. unfold _record_component_failure. rewrite Hc, Hb.
  cbn zeta. fold recent. destruct (QUARANTINE_FAILURES <=? recent)%nat eqn:Hq.
  - eexists. rewrite heap_update, decide_True by done. cbn [heap set_quarantine_times set_quarantined set_failure_history].
    rewrite Hi. split; [done|]. cbn. rewrite bool_decide_eq_true_2 by set_solver.
    split; [done|]. split; [done|]. set_solver.
  - eexists. rewrite heap_update, decide_True by done. cbn [heap set_failure_history].
    rewrite Hi. split; [done|]. eexists. split; [done|]. split; [done|]. split; [done|].
    apply Nat.leb_gt in Hq. unfold QUARANTINE_FAILURES in Hq.
    assert (1 <= recent)%nat by (unfold recent, recent_failures; rewrite length_app; cbn; lia).
    fold recent. clearbody recent. unfold restart_delay.
    assert (recent = 1 \/ recent = 2 \/ recent = 3 \/ recent = 4)%nat as Hcases by lia.
    destruct Hcases as [-> | [-> | [-> | ->]]]; (split; [done|split; [done|done]]).
Qed.

(** When a display returns, every visual client is started exactly once:
    first those of the profile in its order, then the open apps from back to
    front, then the rest by name. *)
Theorem visual_consumers_ordered startup stack candidates :
  NoDup stack ->
  let order := _order_visual_consumer_keys startup stack candidates in
  NoDup order /\ (forall k, k ∈ order <-> k ∈ candidates) /\
  exists rest,
    order = fromkeys (filter (.∈ candidates) startup)
            ++ filter (fun k => k ∈ candidates /\ k ∉ startup) (reverse stack) ++ rest /\
    sorted_by str_leb rest /\ forall k, k ∈ rest -> k ∉ startup /\ k ∉ stack.
Proof.
  intros Hnd order.
  set (profile := filter (.∈ candidates) startup).
  set (remaining := candidates ∖ list_to_set profile).
  set (front := filter (.∈ remaining) (reverse stack)).
  set (rest := sorted_strs (elements (remaining ∖ list_to_set front))).
  assert (order = fromkeys (profile ++ front ++ rest)) as Ho by done.
  assert (NoDup (front ++ rest)) as Hnd2.
  { apply NoDup_app. split; [apply NoDup_filter; by rewrite reverse_Permutation|]. split.
    - intros k Hk Hr. apply sorted_strs_elem, elem_of_elements in Hr. set_solver.
    - apply py_sorted_NoDup, NoDup_elements. }
  assert (forall k, k ∈ rest <-> k ∈ remaining /\ k ∉ front) as Hrest.
  { intros k. unfold rest. rewrite sorted_strs_elem, elem_of_elements. set_solver. }
  assert (forall k, k ∈ front ++ rest -> k ∉ profile) as Hdis.
  { intros k [Hk|Hk]%elem_of_app; [apply list_elem_of_filter in Hk as [Hk _]|apply Hrest in Hk as [Hk _]];
      set_solver. }
  assert (forall k, k ∈ profile <-> k ∈ candidates /\ k ∈ startup) as Hprof.
  { intros k. unfold profile. by rewrite list_elem_of_filter. }
  assert (forall k, k ∈ remaining <-> k ∈ candidates /\ k ∉ startup) as Hrem by set_solver.
  split; [by rewrite Ho; apply fromkeys_NoDup|]. split.
  - intros k. rewrite Ho, fromkeys_elem, !elem_of_app, Hrest, Hprof, Hrem.
    destruct (decide (k ∈ front)) as [Hf|Hf]; [|destruct (decide (k ∈ startup)); tauto].
    pose proof Hf as Hf'. apply list_elem_of_filter in Hf' as [Hf' _]. apply Hrem in Hf'. tauto.
  - exists rest. split; [|split].
    + rewrite Ho. unfold fromkeys. rewrite fromkeys_from_app; [|done|].
      * f_equal. f_equal. apply list_filter_iff. intros k. apply Hrem.
      * intros k Hk. split; [apply not_elem_of_nil|exact (Hdis k Hk)].
    + apply py_sorted_sorted; [apply str_leb_total|apply str_leb_trans].
    + intros k [Hk Hf]%Hrest. split; [apply Hrem in Hk; tauto|]. intros Hs. apply Hf.
      apply list_elem_of_filter. by rewrite elem_of_reverse.
Qed.

(* ------------------------------------------------------------------ *)
(** ** Witnesses *)

(** A client of the display fails once behind the fence of an outage and five
    times without one. *)
Definition fenced_client : Manifest.Component :=
  let c := sample_app §"maps" in
  {| Manifest.package_id := §"p"; Manifest.package_version := §"1"; Manifest.id := §"maps";
     Manifest.exec := Manifest.exec c; Manifest.lifecycle := §"session"; Manifest.package_kind := §"system";
     Manifest.package_name := §"p"; Manifest.package_icons := []; Manifest.runtime := §"custom";
     Manifest.restart := §"always"; Manifest.idle_timeout_ms := None; Manifest.cwd := None; Manifest.env := [];
     Manifest.readiness_mode := §"exec"; Manifest.readiness_timeout_ms := 5000; Manifest.provides := [];
     Manifest.requires := []; Manifest.wants := []; Manifest.after := [];
     Manifest.windowing := [(§"system", VStr §"x11"); (§"display", VStr §"inherit")]; Manifest.activation := [];
     Manifest.permissions := []; Manifest.isolation := Isolation.spec_default; Manifest.raw := [];
     Manifest.manifest_path := None; Manifest.package_summary := []; Manifest.package_i18n := VNone |}.
Definition fenced_supervisor : Supervisor :=
  {| heap := ∅; instances := []; components := [(§"p:maps", fenced_client)]; component_objects := [(§"p:maps", 0%nat)];
     role_registry := empty_registry; service_catalog := Services.make []; catalog_epoch := 0; next_request_id := 1;
     stopping := false; stop_requests := ∅; foreground_stack := []; backgrounded_components := ∅; failure_history := [];
     quarantined := ∅; quarantine_times := []; recovery_allowed := None; idle_tasks := ∅; futures := ∅ |}.
Definition stormy : list account_event :=
  Failed §"p:maps" (seconds 1) :: Fenced (Some ∅) :: Failed §"p:maps" (seconds 2) :: Fenced None ::
  (Failed §"p:maps" <$> [seconds 2; seconds 30; seconds 40; seconds 50]%Z).

Definition storm_times : list Z := [seconds 1; seconds 2; seconds 30; seconds 40; seconds 50].

Lemma quarantine_iff_five_failures_in_window_witness :
  held §"p:maps" stormy fenced_supervisor = storm_times /\
  §"p:maps" ∈ quarantined (foldl account fenced_supervisor stormy).
Proof.
  split; [vm_compute; reflexivity|].
  apply (quarantine_iff_five_failures_in_window §"p:maps" stormy fenced_supervisor).
  - constructor.
  - apply (bool_decide_unpack _). vm_compute. exact I.
  - intros es1 es2 Hes. assert (es1 = take (length es1) stormy) as -> by (by rewrite Hes, take_app_length).
    assert (length es1 <= 8)%nat as Hl by (change 8%nat with (length stormy); rewrite Hes, length_app; lia).
    assert (exists m, held §"p:maps" (take (length es1) stormy) fenced_supervisor = take m storm_times) as [m ->].
    { exists (match length es1 with 0 => 0 | 1 | 2 | 3 | 4 => 1 | S (S (S n)) => n end)%nat.
      revert Hl. generalize (length es1) as len. intros len Hl. do 9 (destruct len as [|len]; [vm_compute; reflexivity|]). lia. }
    apply (monotone_app _ (drop m storm_times)). rewrite take_drop. unfold monotone, storm_times. repeat constructor; vm_compute; discriminate.
  - exists (take 7 stormy), (seconds 50), []. split; [vm_compute; reflexivity|]. split; [by apply Forall_nil_2|].
    split; [vm_compute; reflexivity|]. exists [], (seconds 1), [seconds 2; seconds 30; seconds 40; seconds 50]%Z. split; [vm_compute; reflexivity|]. by split.
Defined.

Lemma restart_later_spec_witness :
  exists d, (_restart_later 2 0 sample_supervisor).2 = Some d /\ (millis 250 <= d <= seconds 2)%Z.
Proof.
  pose proof (restart_later_spec 2 0 sample_supervisor (sample_instance (sample_app §"maps") 12)
    eq_refl eq_refl) as Hr.
  destruct (_restart_later 2 0 sample_supervisor) as [s' delay] eqn:Hd.
  cbv beta zeta in Hr. destruct Hr as (i' & _ & Hr).
  assert (_display_outage_blocks sample_supervisor
            (component (sample_instance (sample_app §"maps") 12)) = false) as Hb by (vm_compute; reflexivity).
  rewrite Hb in Hr. clear Hd.
  match type of Hr with if ?b then _ else _ =>
    assert (b = false) as Hq by (vm_compute; reflexivity); rewrite Hq in Hr end.
  destruct Hr as (d & -> & _ & _ & _ & Hbound & _). exists d. split; [reflexivity|exact Hbound].
Defined.

Lemma visual_consumers_ordered_witness :
  let order := _order_visual_consumer_keys [§"shell"; §"gone"; §"shell"] [§"top"; §"bottom"]
                 (list_to_set [§"aux"; §"bottom"; §"shell"; §"top"]) in
  order = [§"shell"; §"bottom"; §"top"; §"aux"] /\ NoDup order.
Proof.
  intros order. split; [vm_compute; reflexivity|].
  refine (proj1 (visual_consumers_ordered [§"shell"; §"gone"; §"shell"] [§"top"; §"bottom"]
    (list_to_set [§"aux"; §"bottom"; §"shell"; §"top"]) _)).
  apply (bool_decide_unpack _). vm_compute. exact I.
Defined.
End Restart.
