(* ===== verification/Dispatch.v ===== *)
(** * Dispatching calls to providers ([msys_core/msysd.py])

    Authorisation of component calls, the choice of a provider for a role or an
    interface, and the failover loops that forward a call to one provider after
    the other.  Starting and stopping components and waiting for an answer are
    the [Activation] interface: while one of these is awaited the rest of the
    supervisor runs, so each may change the supervisor in any way. *)

From Stdlib Require Import ZArith.
From S2P Require Export Calls Foreground Acl.

Module Dispatch.
Import Msysd Calls.

(* ------------------------------------------------------------------ *)
(** ** Small request helpers *)

Definition ACCESS_DENIED : pystr := §"ACCESS_DENIED".

Definition ROLE_RETRY_SAFE_METHODS : list pystr :=
  [§"list_windows"; §"recents"; §"list"; §"status"; §"capabilities"].

Definition ROLE_NO_START_NOOPS : list (pystr * pystr) :=
  [(§"input-method", §"hide"); (§"notification-center", §"hide")].

Definition ROLE_LIVENESS_ERRORS : list pystr :=
  [§"CALL_TIMEOUT"; §"CALL_SEND_FAILED"; §"NO_PROVIDER_SOCKET"; §"PROVIDER_EXITED";
   §"PROVIDER_STOPPED"].

(** [response.get(k)], compared with a string. *)
Definition field_is (r : response) (k v : pystr) : bool := eq_str (dget_or r k VNone) v.

Definition is_error (r : response) : bool := field_is r §"type" §"error".

Definition _expired_before_provider_delivery (r : response) : bool :=
  is_error r && field_is r §"code" §"CALL_TIMEOUT"
  && field_is r §"message" CALL_DEADLINE_EXPIRED_MESSAGE.

Definition _optional_request_id (msg : response) : option Z :=
  as_int (dget_or msg §"id" VNone).

Section Requests.
Context `{PyLib} `{PyRepr}.

(** [str(msg.get(k, ""))] *)
Definition str_field (msg : response) (k : pystr) : pystr := py_str (dget_or msg k (VStr [])).

Definition error_code (r : response) : pystr := str_field r §"code".

(** [int(msg.get("id", 0))] *)
Definition caller_id (msg : response) : py Z := py_int (dget_or msg §"id" (VInt 0)).

Definition normalize_intent_request (payload : pyval) : response :=
  let request := match payload with VDict d => d | _ => [] end in
  if negb (str_true (str_strip (str_field request §"action")))
  then if truthy (dget_or request §"uri" VNone) then dset request §"action" (VStr §"open-uri")
       else if truthy (dget_or request §"mime" VNone) then dset request §"action" (VStr §"open-mime")
       else if truthy (dget_or request §"name" VNone) then dset request §"action" (VStr §"settings-panel")
       else request
  else request.

(* ------------------------------------------------------------------ *)
(** ** Policy errors and authorisation *)

Definition _component_error (i : Instance) (msg : response) (code operation detail : pystr)
    (required : option pystr) : response :=
  let payload :=
    [(§"operation", VStr operation); (§"component", VStr (key i)); (§"resource", VStr detail)]
    ++ match required with
       | Some r => if str_true r then [(§"required", VStr r)] else []
       | None => []
       end in
  [(§"type", VStr §"error"); (§"id", VInt (default 0%Z (_optional_request_id msg)));
   (§"code", VStr code); (§"message", VStr (§"component is not permitted to " ++ operation));
   (§"payload", VDict payload)].

Definition _access_denied (i : Instance) (msg : response) (operation detail required : pystr)
    : response := _component_error i msg ACCESS_DENIED operation detail (Some required).

(** [target.split(":", 1)[1]] for a target that starts with [prefix ++ ":"]. *)
Definition target_name (prefix target : pystr) : option pystr :=
  if str_startswith (prefix ++ §":") target then Some (drop (S (length prefix)) target) else None.

Definition _authorize_component_call (s : Supervisor) (i : Instance) (msg : response)
    : option response :=
  let target := str_field msg §"target" in
  let method := str_field msg §"method" in
  let permissions := VStr <$> Manifest.permissions (component i) in
  let through_interface :=
    match target_name §"component" target ≫= dget (components s) with
    | None => false
    | Some c =>
        existsb (fun p => bool_decide (Manifest.kind p = §"interface")
                          && Acl.allows_call permissions (§"interface:" ++ Manifest.name p) method)
          (Manifest.provides c)
    end in
  if Acl.allows_call permissions target method || through_interface then None
  else
    let candidates := Acl.call_permission_candidates target method in
    Some (_access_denied i msg §"call"
            (if str_true method then target ++ §"." ++ method else target)
            (match candidates with c :: _ => c | [] => §"mipc.call:" ++ target end)).
End Requests.

(* ------------------------------------------------------------------ *)
(** ** Waiting on the rest of the supervisor *)

(** The coroutines a dispatch awaits. *)
Class Activation := {
  (** [ensure_ready(key)]: the current ready instance, or an [Exception] *)
  ensure_ready : pystr -> Supervisor -> Supervisor * py nat;
  (** [stop_component(key, expected=instance)], which does not raise *)
  stop_component : pystr -> nat -> Supervisor -> Supervisor;
  (** send the packet of a call and wait for what ends the call *)
  await_reply : Call -> response -> Supervisor -> Supervisor * outcome;
  (** wait for the lock that serialises the calls of a role *)
  lock_role : pystr -> Supervisor -> Supervisor;
  (** [time.monotonic()] *)
  monotonic : Supervisor -> Z;
}.

(** The epoch never goes back, and the catalog objects change only with it. *)
Definition catalog_advances (s s' : Supervisor) : Prop :=
  (catalog_epoch s <= catalog_epoch s')%Z /\
  (catalog_epoch s' = catalog_epoch s ->
     service_catalog s' = service_catalog s /\ components s' = components s /\
     component_objects s' = component_objects s).

(** What the interface promises: [ensure_ready] returns the current, ready
    instance of the component it was asked for, and whoever replaces the
    catalog advances its epoch. *)
Class ActivationLaws `{Activation} : Prop := {
  ensure_ready_current k s s' n : ensure_ready k s = (s', Ok n) ->
    exists i, heap s' !! n = Some i /\ key i = k /\ ready i = true /\
      dget (instances s') k = Some n;
  ensure_ready_catalog k s s' r : ensure_ready k s = (s', r) -> catalog_advances s s';
  stop_component_catalog k n s : catalog_advances s (stop_component k n s);
}.

(** A packet that reached a provider: its instance and component. *)
Record delivery := { delivered_to : nat; delivered_key : pystr }.

Section Forwarding.
Context `{PyLib} `{PyRepr} `{Activation}.

(** [_forward_call]: the supervisor after it, the packets it delivered and its
    result. *)
Definition _forward_call (n : nat) (msg : response) (source : pystr) (s : Supervisor)
    : Supervisor * list delivery * py response :=
  let k := match heap s !! n with Some i => key i | None => [] end in
  match _forward_start (monotonic s) n msg source s with
  | (s, Finished r) => (s, [], r)
  | (s, Waiting c packet _) =>
      let '(s, o) := await_reply c packet s in
      let '(s, r) := _forward_finish c o s in
      (s, match o with SendFailed _ => [] | _ => [{| delivered_to := n; delivered_key := k |}] end, r)
  end.

(* ------------------------------------------------------------------ *)
(** ** Choosing a provider *)

(** What one pass over the candidates found. *)
Inductive pass := Found (n : nat) | Changed | Exhausted.

(** One pass of [_provider_for_interface] over its candidates; the catalog
    objects are replaced together with [catalog_epoch]. *)
Fixpoint interface_pass (epoch : Z) (excluded keys : list pystr) (s : Supervisor)
    : Supervisor * pass :=
  match keys with
  | [] => (s, Exhausted)
  | k :: keys =>
      if bool_decide (k ∈ excluded) then interface_pass epoch excluded keys s
      else
        match ensure_ready k s with
        | (s, Raise _) => interface_pass epoch excluded keys s
        | (s, Ok n) =>
            if negb (catalog_epoch s =? epoch)%Z then (s, Changed)
            else
              match heap s !! n with
              | Some i =>
                  if bool_decide (dget (component_objects s) k = Some (component_object i))
                  then (s, Found n)
                  else interface_pass epoch excluded keys (stop_component k n s)
              | None => (s, Exhausted)
              end
        end
  end.

Fixpoint interface_attempts (attempts : nat) (interface : pystr) (excluded : list pystr)
    (s : Supervisor) : Supervisor * option nat :=
  match attempts with
  | O => (s, None)
  | S attempts =>
      match Services.provider_ids (service_catalog s) §"interface" interface with
      | Raise _ => (s, None)
      | Ok candidates =>
          match interface_pass (catalog_epoch s) excluded candidates s with
          | (s, Found n) => (s, Some n)
          | (s, Changed) => interface_attempts attempts interface excluded s
          | (s, Exhausted) => (s, None)
          end
      end
  end.

Definition _provider_for_interface := interface_attempts 3.

(** The lease that goes with serving a role; [false] when it is refused. *)
Definition take_role (role k : pystr) (n : nat) (i : Instance) (s : Supervisor)
    : Supervisor * bool :=
  match Roles.active_provider (role_registry s) role with
  | Ok (Some p) =>
      if bool_decide (p = k) then (s, true)
      else match Roles.acquire (role_registry s) role (Some k)
                   (Some (§"generation:" ++ dec_Z (generation i))) with
           | Ok (r, _) => (set_role_registry r s, true)
           | Raise _ => (s, false)
           end
  | _ => match Roles.acquire (role_registry s) role (Some k)
                 (Some (§"generation:" ++ dec_Z (generation i))) with
         | Ok (r, _) => (set_role_registry r s, true)
         | Raise _ => (s, false)
         end
  end.

(** One pass of [_provider_for_role] over its candidates. *)
Fixpoint role_pass (role : pystr) (epoch : Z) (excluded keys : list pystr) (s : Supervisor)
    : Supervisor * pass :=
  match keys with
  | [] => (s, Exhausted)
  | k :: keys =>
      if bool_decide (k ∈ excluded) then role_pass role epoch excluded keys s
      else
        match ensure_ready k s with
        | (s, Raise _) =>
            let s := if (catalog_epoch s =? epoch)%Z
                     then match Roles.release_provider (role_registry s) k with
                          | Ok (r, _) => set_role_registry r s
                          | Raise _ => s
                          end
                     else s in
            role_pass role epoch excluded keys s
        | (s, Ok n) =>
            if negb (catalog_epoch s =? epoch)%Z then (s, Changed)
            else
              match heap s !! n with
              | Some i =>
                  if bool_decide (dget (component_objects s) k = Some (component_object i))
                  then let '(s, taken) := take_role role k n i s in
                       if taken then (s, Found n) else role_pass role epoch excluded keys s
                  else role_pass role epoch excluded keys (stop_component k n s)
              | None => (s, Exhausted)
              end
        end
  end.

(** The order in which the candidates of a role are tried. *)
Definition role_order (r : Roles.RoleRegistry) (role : pystr) : py (list pystr) :=
  active ← Roles.active_provider r role;
  candidates ← Roles.candidate_ids r role;
  preferred ← Roles.preferred_provider r role;
  let some o := match o with Some p => if str_true p then [p] else [] | None => [] end in
  Ok (fromkeys (some active ++ some preferred ++ candidates)).

Fixpoint role_attempts (attempts : nat) (role : pystr) (excluded : list pystr) (s : Supervisor)
    : Supervisor * option nat :=
  match attempts with
  | O => (s, None)
  | S attempts =>
      match role_order (role_registry s) role with
      | Raise _ => (s, None)
      | Ok ordered =>
          match role_pass role (catalog_epoch s) excluded ordered s with
          | (s, Found n) => (s, Some n)
          | (s, Changed) => role_attempts attempts role excluded s
          | (s, Exhausted) => (s, None)
          end
      end
  end.

Definition _provider_for_role := role_attempts 3.

(* ------------------------------------------------------------------ *)
(** ** Failover *)

(** [bool(msg.get("idempotent")) or method in ROLE_RETRY_SAFE_METHODS] *)
Definition retry_safe (msg : response) : bool :=
  truthy (dget_or msg §"idempotent" VNone)
  || bool_decide (str_field msg §"method" ∈ ROLE_RETRY_SAFE_METHODS).

Definition outcome_unknown (id : Z) (what provider : pystr) : response :=
  error_response (VInt id) §"OUTCOME_UNKNOWN" (what ++ §" may have been delivered to " ++ provider).

(** The loop [_dispatch_interface_call] and [_dispatch_role_call] share: try one
    provider after the other until an answer is final.  The result is [None]
    when the fuel is spent. *)
Fixpoint failover (fuel : nat) (choose : list pystr -> Supervisor -> Supervisor * option nat)
    (safe : bool) (what : pystr) (nobody : response) (id : Z) (msg : response) (source : pystr)
    (attempted : list pystr) (last_error : option response) (s : Supervisor)
    : Supervisor * list delivery * option (py response) :=
  match fuel with
  | O => (s, [], None)
  | S fuel =>
      match choose attempted s with
      | (s, None) =>
          (s, [], Some (Ok (match last_error with Some e => with_id e id | None => nobody end)))
      | (s, Some n) =>
          let k := match heap s !! n with Some i => key i | None => [] end in
          let '(s, sent, r) := _forward_call n msg source s in
          match r with
          | Raise e => (s, sent, Some (Raise e))
          | Ok answer =>
              if negb (is_error answer) then (s, sent, Some (Ok answer))
              else if _expired_before_provider_delivery answer
              then (s, sent, Some (Ok (with_id answer id)))
              else if negb (bool_decide (error_code answer ∈ ROLE_LIVENESS_ERRORS))
              then (s, sent, Some (Ok (with_id answer id)))
              else
                let s := stop_component k n s in
                if negb safe && negb (bool_decide (error_code answer = §"NO_PROVIDER_SOCKET"))
                then (s, sent, Some (Ok (outcome_unknown id what k)))
                else
                  let '(s, more, r) :=
                    failover fuel choose safe what nobody id msg source (k :: attempted)
                      (Some answer) s in
                  (s, sent ++ more, r)
          end
      end
  end.

Definition _dispatch_interface_call (fuel : nat) (msg : response) (source : pystr)
    (s : Supervisor) : Supervisor * list delivery * option (py response) :=
  match caller_id msg with
  | Raise e => (s, [], Some (Raise e))
  | Ok id =>
      let interface := default [] (target_name §"interface" (str_field msg §"target")) in
      if negb (str_true interface)
      then (s, [], Some (Ok (error_response (VInt id) §"BAD_TARGET" §"interface name is empty")))
      else
        failover fuel (_provider_for_interface interface) (retry_safe msg)
          (interface ++ §"." ++ str_field msg §"method")
          (error_response (VInt id) §"NO_INTERFACE_PROVIDER" interface) id msg source [] None s
  end.

(** [_role_provider_is_running] *)
Definition _role_provider_is_running (s : Supervisor) (role : pystr) : bool :=
  match role_order (role_registry s) role with
  | Raise _ => false
  | Ok keys =>
      existsb (fun k => match current s k with
                        | Some i => negb (finalized i) && running i
                        | None => false
                        end) keys
  end.

Definition already_hidden (id : Z) (role : pystr) : response :=
  [(§"type", VStr §"return"); (§"id", VInt id);
   (§"payload", VDict [(§"ok", VBool true); (§"role", VStr role); (§"visible", VBool false);
                       (§"already_hidden", VBool true)])].

Definition _dispatch_role_call (fuel : nat) (msg : response) (source : pystr)
    (s : Supervisor) : Supervisor * list delivery * option (py response) :=
  match caller_id msg with
  | Raise e => (s, [], Some (Raise e))
  | Ok id =>
      let role := default [] (target_name §"role" (str_field msg §"target")) in
      let method := str_field msg §"method" in
      let no_start_noop := bool_decide ((role, method) ∈ ROLE_NO_START_NOOPS) in
      if no_start_noop && negb (_role_provider_is_running s role)
      then (s, [], Some (Ok (already_hidden id role)))
      else
        let s := if bool_decide (role = §"window-manager") && bool_decide (method = §"close_active")
                 then (Foreground._announce_foreground_closing s).1 else s in
        failover fuel (_provider_for_role role) (retry_safe msg || no_start_noop)
          (role ++ §"." ++ method) (error_response (VInt id) §"NO_PROVIDER" role) id msg source
          [] None s
  end.

Definition _dispatch_component_target_call (msg : response) (source : pystr) (s : Supervisor)
    : Supervisor * list delivery * option (py response) :=
  match caller_id msg with
  | Raise e => (s, [], Some (Raise e))
  | Ok id =>
      let component_id := default [] (target_name §"component" (str_field msg §"target")) in
      if negb (str_true component_id) || negb (dhas (components s) component_id)
      then (s, [], Some (Ok (error_response (VInt id) §"UNKNOWN_COMPONENT" component_id)))
      else
        match ensure_ready component_id s with
        | (s, Raise e) =>
            (s, [], Some (Ok (error_response (VInt id) §"COMPONENT_UNAVAILABLE" (exn_msg e))))
        | (s, Ok n) =>
            let '(s, sent, r) := _forward_call n msg source s in (s, sent, Some r)
        end
  end.

(* ------------------------------------------------------------------ *)
(** ** Routing *)

(** The callbacks that may not wait for the lock of their role. *)
Definition bypasses_role_lock (s : Supervisor) (role method source : pystr) : bool :=
  (bool_decide (role = §"window-manager") && bool_decide (method = §"activate_component")
   && bool_decide (source = §"msys.core"))
  || (bool_decide (role = §"window-manager") && bool_decide (method = §"recents")
      && match Roles.active_provider (role_registry s) §"task-switcher" with
         | Ok (Some p) => bool_decide (source = p)
         | _ => false
         end)
  || (bool_decide (role = §"chooser") && bool_decide (method = §"cancel_choice")).

(** [_core_call], Core's own methods. *)
Context (core_call : response -> pystr -> Supervisor -> Supervisor * py response).

Definition dispatch_call (fuel : nat) (msg : response) (source : pystr) (s : Supervisor)
    : Supervisor * list delivery * option (py response) :=
  match caller_id msg with
  | Raise e => (s, [], Some (Raise e))
  | Ok id =>
      let target := str_field msg §"target" in
      match target_name §"role" target with
      | Some role =>
          let s := if bypasses_role_lock s role (str_field msg §"method") source then s
                   else lock_role role s in
          _dispatch_role_call fuel msg source s
      | None =>
          if bool_decide (is_Some (target_name §"interface" target))
          then _dispatch_interface_call fuel msg source s
          else if bool_decide (is_Some (target_name §"component" target))
          then _dispatch_component_target_call msg source s
          else if bool_decide (target = §"msys.core")
          then let '(s, r) := core_call msg source s in (s, [], Some r)
          else (s, [], Some (Ok (error_response (VInt id) §"BAD_TARGET" target)))
      end
  end.

(** The response to a call from the channel of instance [n]. *)
Definition component_call_response (fuel : nat) (n : nat) (msg : response) (s : Supervisor)
    : Supervisor * list delivery * option (py response) :=
  match heap s !! n with
  | None => (s, [], None)
  | Some i =>
      match _authorize_component_call s i msg with
      | Some denial => (s, [], Some (Ok denial))
      | None => dispatch_call fuel msg (key i) s
      end
  end.

(** Whether the instance is still current and has its channel. *)
Definition answerable (n : nat) (s : Supervisor) : bool :=
  match heap s !! n with Some i => is_current s (key i) n && sock i | None => false end.

(** The whole call: the packet sent back, if any.  While the call was dispatched
    the instance may have been replaced or have lost its channel. *)
Definition _dispatch_component_call (fuel : nat) (n : nat) (msg : response) (s : Supervisor)
    : Supervisor * list delivery * option (py (option response)) :=
  let '(s, ds, r) := component_call_response fuel n msg s in
  (s, ds, match r with
          | Some (Ok a) => Some (Ok (if answerable n s then Some a else None))
          | Some (Raise e) => Some (Raise e)
          | None => None
          end).
End Forwarding.

(* ------------------------------------------------------------------ *)
(** ** Lemmas on requests *)

Lemma target_name_Some prefix target name :
  target_name prefix target = Some name <-> target = prefix ++ §":" ++ name.
Proof.
  unfold target_name. destruct (str_startswith (prefix ++ §":") target) eqn:Hs.
  - apply str_startswith_spec in Hs as [rest ->]. rewrite <- app_assoc.
    assert (drop (S (length prefix)) (prefix ++ §":" ++ rest) = rest) as ->.
    { rewrite app_assoc. apply drop_app_length'. rewrite length_app.
      change (length §":") with 1%nat. lia. }
    split; [intros [= ->]; done|]. intros Heq. apply app_inv_head, app_inv_head in Heq. by subst.
  - split; [done|]. intros ->. exfalso. apply not_true_iff_false in Hs. apply Hs.
    apply str_startswith_spec. exists name. by rewrite <- app_assoc.
Qed.

Lemma with_id_field r id k : k ≠ §"id" -> dget (with_id r id) k = dget r k.
Proof. intros. unfold with_id. by rewrite dget_dset_ne. Qed.

Lemma with_id_error r id : is_error (with_id r id) = is_error r.
Proof.
  unfold is_error, field_is, dget_or. rewrite with_id_field; [done|]. intros Heq. vm_compute in Heq.
  discriminate Heq.
Qed.

Lemma with_id_code `{PyLib} `{PyRepr} r id : error_code (with_id r id) = error_code r.
Proof.
  unfold error_code, str_field, dget_or. rewrite with_id_field; [done|]. intros Heq.
  vm_compute in Heq. discriminate Heq.
Qed.

Lemma dget_with_id r id : dget (with_id r id) §"id" = Some (VInt id).
Proof. apply dget_dset_eq. Qed.

(* ------------------------------------------------------------------ *)
(** ** Lemmas on the choice of a provider *)

Section Choice.
Context `{PyLib} `{PyRepr} `{ActivationLaws}.

(** What the chooser of a failover loop guarantees. *)
Definition fresh_choice (choose : list pystr -> Supervisor -> Supervisor * option nat) : Prop :=
  forall excluded s s' n, choose excluded s = (s', Some n) ->
    exists i, heap s' !! n = Some i /\ key i ∉ excluded.

Lemma catalog_advances_refl s : catalog_advances s s.
Proof. split; [lia|done]. Qed.

Lemma catalog_advances_trans s1 s2 s3 :
  catalog_advances s1 s2 -> catalog_advances s2 s3 -> catalog_advances s1 s3.
Proof.
  intros [H12 E12] [H23 E23]. split; [lia|]. intros Heq.
  destruct E23 as (-> & -> & ->); [lia|]. apply E12. lia.
Qed.

Lemma interface_pass_found epoch excluded keys s s' n :
  interface_pass epoch excluded keys s = (s', Found n) ->
  exists i, heap s' !! n = Some i /\ key i ∉ excluded /\ key i ∈ keys /\ ready i = true /\
    dget (instances s') (key i) = Some n /\ catalog_epoch s' = epoch /\ component_current s' i = true.
Proof.
  revert s; induction keys as [|k keys IH]; intros s; cbn [interface_pass]; [done|].
  case_bool_decide as Hex.
  { intros (i & ? & ? & ? & ?)%IH. exists i. split_and!; [done|done|by right|tauto..]. }
  destruct (ensure_ready k s) as [s1 [m|e]] eqn:He.
  2:{ intros (i & ? & ? & ? & ?)%IH. exists i. split_and!; [done|done|by right|tauto..]. }
  destruct (negb (catalog_epoch s1 =? epoch)%Z) eqn:Hep; [done|].
  destruct (ensure_ready_current _ _ _ _ He) as (i & Hi & Hk & Hr & Hc). rewrite Hi.
  case_bool_decide as Ho.
  - intros [= <- <-]. exists i. bool_simp. apply Z.eqb_eq in Hep. unfold component_current.
    rewrite Hk. split_and!; [done|done|by left|done..|]. by rewrite bool_decide_eq_true_2.
  - intros (j & ? & ? & ? & ?)%IH. exists j. split_and!; [done|done|by right|tauto..].
Qed.

Lemma interface_pass_advances epoch excluded keys s s' r :
  interface_pass epoch excluded keys s = (s', r) -> catalog_advances s s'.
Proof.
  revert s; induction keys as [|k keys IH]; intros s; cbn [interface_pass].
  { intros [= <- _]. apply catalog_advances_refl. }
  case_bool_decide; [apply IH|].
  destruct (ensure_ready k s) as [s1 r1] eqn:He. apply ensure_ready_catalog in He.
  destruct r1 as [m|e]; [|intros Hp; eapply catalog_advances_trans; [done|by eapply IH]].
  destruct (negb _); [by intros [= <- _]|]. destruct (heap s1 !! m); [|by intros [= <- _]].
  case_bool_decide; [by intros [= <- _]|]. intros Hp.
  eapply catalog_advances_trans; [done|]. eapply catalog_advances_trans; [|by eapply IH].
  apply stop_component_catalog.
Qed.

Lemma interface_attempts_found attempts interface excluded s s' n :
  interface_attempts attempts interface excluded s = (s', Some n) ->
  exists i, heap s' !! n = Some i /\ key i ∉ excluded /\ ready i = true /\
    dget (instances s') (key i) = Some n /\ component_current s' i = true /\
    exists ids, Services.provider_ids (service_catalog s') §"interface" interface = Ok ids /\
      key i ∈ ids.
Proof.
  revert s; induction attempts as [|a IH]; intros s; cbn [interface_attempts]; [done|].
  destruct (Services.provider_ids (service_catalog s) _ _) as [cands|] eqn:Hc; [|done].
  destruct (interface_pass _ _ _ _) as [s1 [m| |]] eqn:Hp; [|apply IH|done].
  intros [= <- <-]. pose proof (interface_pass_advances _ _ _ _ _ _ Hp) as [_ Hcat].
  apply interface_pass_found in Hp as (i & ? & ? & ? & ? & ? & Hep & ?).
  destruct (Hcat Hep) as (Hsc & _). exists i. rewrite Hsc. eauto 10.
Qed.

(** Taking a role changes the registry only. *)
Lemma take_role_frame role k n i s s' b : take_role role k n i s = (s', b) ->
  heap s' = heap s /\ instances s' = instances s /\ catalog_epoch s' = catalog_epoch s /\
  component_objects s' = component_objects s.
Proof.
  unfold take_role. destruct (Roles.active_provider _ _) as [[p|]|]; repeat case_match; intros [= <- _]; done.
Qed.

Lemma role_pass_found role epoch excluded keys s s' n :
  role_pass role epoch excluded keys s = (s', Found n) ->
  exists i, heap s' !! n = Some i /\ key i ∉ excluded /\ key i ∈ keys /\ ready i = true /\
    dget (instances s') (key i) = Some n /\ catalog_epoch s' = epoch /\ component_current s' i = true.
Proof.
  revert s; induction keys as [|k keys IH]; intros s; cbn [role_pass]; [done|].
  case_bool_decide as Hex.
  { intros (i & ? & ? & ? & ?)%IH. exists i. split_and!; [done|done|by right|tauto..]. }
  destruct (ensure_ready k s) as [s1 [m|e]] eqn:He.
  2:{ intros (i & ? & ? & ? & ?)%IH. exists i. split_and!; [done|done|by right|tauto..]. }
  destruct (negb (catalog_epoch s1 =? epoch)%Z) eqn:Hep; [done|].
  destruct (ensure_ready_current _ _ _ _ He) as (i & Hi & Hk & Hr & Hc). rewrite Hi.
  case_bool_decide as Ho.
  - destruct (take_role role k m i s1) as [s2 [|]] eqn:Ht.
    2:{ intros (j & ? & ? & ? & ?)%IH. exists j. split_and!; [done|done|by right|tauto..]. }
    apply take_role_frame in Ht as (Hh & Hin & Hce & Hob).
    intros [= <- <-]. exists i. bool_simp. apply Z.eqb_eq in Hep. unfold component_current.
    rewrite Hh, Hin, Hce, Hob, Hk. split_and!; [done|done|by left|done..|]. by rewrite bool_decide_eq_true_2.
  - intros (j & ? & ? & ? & ?)%IH. exists j. split_and!; [done|done|by right|tauto..].
Qed.

Lemma role_attempts_found attempts role excluded s s' n :
  role_attempts attempts role excluded s = (s', Some n) ->
  exists i, heap s' !! n = Some i /\ key i ∉ excluded /\ ready i = true /\
    dget (instances s') (key i) = Some n /\ component_current s' i = true.
Proof.
  revert s; induction attempts as [|a IH]; intros s; cbn [role_attempts]; [done|].
  destruct (role_order _ _) as [cands|]; [|done].
  destruct (role_pass _ _ _ _ _) as [s1 [m| |]] eqn:Hp; [|apply IH|done].
  intros [= <- <-]. apply role_pass_found in Hp as (i & ? & ? & _ & ? & ? & _ & ?). eauto 10.
Qed.

Lemma interface_fresh interface : fresh_choice (_provider_for_interface interface).
Proof. intros ex s s' n (i & ? & ? & _)%interface_attempts_found. eauto. Qed.

Lemma role_fresh role : fresh_choice (_provider_for_role role).
Proof. intros ex s s' n (i & ? & ? & _)%role_attempts_found. eauto. Qed.

(* ------------------------------------------------------------------ *)
(** ** Lemmas on one forwarded call *)

(** No provider answers with the code Core uses for a missing socket. *)
Definition no_forged_socket_error : Prop :=
  forall c packet s s' r, await_reply c packet s = (s', Answered) ->
    futures s' !! call_future c = Some (Some r) -> error_code r ≠ §"NO_PROVIDER_SOCKET".

Lemma forward_start_finished now n msg source s s' r :
  _forward_start now n msg source s = (s', Finished (Ok r)) ->
  is_error r = true /\ (error_code r = §"NO_PROVIDER_SOCKET" \/
    (dget r §"id" = VInt <$> match caller_id msg with Ok id => Some id | Raise _ => None end)).
Proof.
  unfold _forward_start. destruct (heap s !! n) as [i|]; [|done].
  destruct (_ || _); [intros [= _ <-]; split; [reflexivity|by left]|].
  unfold caller_id. destruct (py_int _) as [id|]; [|done].
  destruct (forwarded_timeout msg now) as [t|]; [|done].
  destruct (t <=? 0)%Z; [|done]. intros [= _ <-]. split; [reflexivity|by right].
Qed.

Lemma forward_start_waiting now n msg source s s' c packet t :
  _forward_start now n msg source s = (s', Waiting c packet t) ->
  caller_id msg = Ok (public_id c) /\ call_instance c = n.
Proof.
  unfold _forward_start. destruct (heap s !! n) as [i|]; [|done].
  destruct (_ || _); [done|]. unfold caller_id. destruct (py_int _) as [id|]; [|done].
  destruct (forwarded_timeout msg now) as [t'|]; [|done].
  destruct (t' <=? 0)%Z; [done|]. by intros [= _ <- _ _].
Qed.

Lemma forward_finish_spec c o s s' r :
  _forward_finish c o s = (s', r) ->
  (forall a, r = Ok a -> dget a §"id" = Some (VInt (public_id c))) /\
  (forall a, r = Ok a -> error_code a = §"NO_PROVIDER_SOCKET" ->
     exists e, o = SendFailed e \/
       (o = Answered /\ exists w, futures s !! call_future c = Some (Some w) /\
          error_code w = §"NO_PROVIDER_SOCKET")).
Proof.
  unfold _forward_finish. intros [= _ <-].
  assert (forall w, error_code (with_id w (public_id c)) = error_code w) as Hw by (intros; apply with_id_code).
  destruct o as [| |e|].
  - destruct (futures s !! call_future c) as [[w|]|] eqn:Hf; [|split; done..].
    split; intros a [= <-]; [apply dget_with_id|]. rewrite Hw. intros Hcode.
    exists (Exn ValueError []). right. eauto.
  - split; intros a [= <-]; [done|]. intros Hcode. vm_compute in Hcode. discriminate Hcode.
  - destruct (is_os_error (exn_type e)); (split; [|eauto]); [|done]. by intros a [= <-].
  - split; done.
Qed.

(** A forwarded call delivers at most one packet, to the provider it was given. *)
Lemma forward_call_spec n msg source s s' ds r i :
  _forward_call n msg source s = (s', ds, r) -> heap s !! n = Some i ->
  (ds = [] \/ ds = [{| delivered_to := n; delivered_key := key i |}]) /\
  (no_forged_socket_error -> forall a, r = Ok a -> error_code a = §"NO_PROVIDER_SOCKET" -> ds = []) /\
  (forall a, r = Ok a -> (is_error a = true /\ error_code a = §"NO_PROVIDER_SOCKET") \/
     dget a §"id" = VInt <$> match caller_id msg with Ok id => Some id | Raise _ => None end).
Proof.
  unfold _forward_call. intros Hf Hi. rewrite Hi in Hf.
  destruct (_forward_start _ n msg source s) as [s1 [r1|c pkt t]] eqn:Hst.
  { injection Hf as <- <- <-. split; [by left|]. split; [done|]. intros a ->.
    apply forward_start_finished in Hst as [? [?|?]]; auto. }
  apply forward_start_waiting in Hst as [Hid _].
  destruct (await_reply c pkt s1) as [s2 o] eqn:Ha.
  destruct (_forward_finish c o s2) as [s3 r3] eqn:Hfin. injection Hf as <- <- <-.
  apply forward_finish_spec in Hfin as [Hpub Hcode]. split; [|split].
  - destruct o; auto.
  - intros Hnf a Heq Hc. destruct (Hcode a Heq Hc) as (e & [->|(-> & w & Hw & Hwc)]); [done|].
    exfalso. by eapply Hnf.
  - intros a Heq. right. rewrite Hid. by apply Hpub.
Qed.

(* ------------------------------------------------------------------ *)
(** ** Lemmas on the failover loop *)

Lemma failover_deliveries fuel choose safe what nobody id msg source attempted last s s' ds r :
  fresh_choice choose ->
  failover fuel choose safe what nobody id msg source attempted last s = (s', ds, r) ->
  NoDup (delivered_key <$> ds) /\ (forall d, d ∈ ds -> delivered_key d ∉ attempted) /\
  (safe = false -> no_forged_socket_error -> (length ds <= 1)%nat).
Proof.
  intros Hch. revert attempted last s s' ds r.
  induction fuel as [|fuel IH]; intros attempted last s s' ds r; cbn [failover].
  { intros [= _ <- _]. split; [constructor|]. split; [|cbn; lia]. intros d Hd. by apply not_elem_of_nil in Hd. }
  destruct (choose attempted s) as [s1 [n|]] eqn:Hc.
  2:{ intros [= _ <- _]. split; [constructor|]. split; [|cbn; lia]. intros d Hd. by apply not_elem_of_nil in Hd. }
  destruct (Hch _ _ _ _ Hc) as (i & Hi & Hk). rewrite Hi.
  destruct (_forward_call n msg source s1) as [[s2 sent] r2] eqn:Hf.
  apply (forward_call_spec _ _ _ _ _ _ _ i) in Hf as (Hsent & Hsock & _); [|done].
  assert (NoDup (delivered_key <$> sent) /\ (forall d, d ∈ sent -> delivered_key d = key i) /\
    (length sent <= 1)%nat) as (Hnd & Hkeys & Hlen).
  { destruct Hsent as [-> | ->]; cbn; (split; [repeat constructor; apply not_elem_of_nil|]); (split; [|lia]).
    - intros d Hd. by apply not_elem_of_nil in Hd.
    - by intros d ->%list_elem_of_singleton. }
  assert (forall d, d ∈ sent -> delivered_key d ∉ attempted) as Hnew.
  { intros d Hd. by rewrite (Hkeys d Hd). }
  destruct r2 as [answer|e]; [|by intros [= _ <- _]].
  destruct (negb (is_error answer)); [by intros [= _ <- _]|].
  destruct (_expired_before_provider_delivery answer); [by intros [= _ <- _]|].
  destruct (negb (bool_decide (error_code answer ∈ _))); [by intros [= _ <- _]|].
  destruct (negb safe && _) eqn:Hretry; [by intros [= _ <- _]|].
  destruct (failover _ _ _ _ _ _ _ _ _ _ _) as [[s3 more] r3] eqn:Hrest. intros [= _ <- _].
  apply IH in Hrest as (Hnd' & Hnew' & Hlen'). split; [|split].
  - rewrite fmap_app. apply NoDup_app. split; [done|]. split; [|done].
    intros k (d & -> & Hd)%list_elem_of_fmap (d' & Heq & Hd')%list_elem_of_fmap.
    apply (Hnew' d' Hd'). rewrite <- Heq, (Hkeys d Hd). by left.
  - intros d [Hd|Hd]%elem_of_app; [by apply Hnew|]. intros Ha. apply (Hnew' d Hd). by right.
  - intros -> Hnf. cbn in Hretry. apply negb_false_iff, bool_decide_eq_true in Hretry.
    rewrite (Hsock Hnf answer eq_refl Hretry). cbn. by apply Hlen'.
Qed.

Lemma failover_id fuel choose safe what nobody id msg source attempted last s s' ds a :
  fresh_choice choose -> caller_id msg = Ok id -> dget nobody §"id" = Some (VInt id) ->
  failover fuel choose safe what nobody id msg source attempted last s = (s', ds, Some (Ok a)) ->
  dget a §"id" = Some (VInt id).
Proof.
  intros Hch Hid Hnobody. revert attempted last s s' ds a.
  induction fuel as [|fuel IH]; intros attempted last s s' ds a; cbn [failover]; [done|].
  destruct (choose attempted s) as [s1 [n|]] eqn:Hc.
  2:{ intros [= _ _ <-]. destruct last; [apply dget_with_id|done]. }
  destruct (Hch _ _ _ _ Hc) as (i & Hi & Hk).
  destruct (_forward_call n msg source s1) as [[s2 sent] r2] eqn:Hf.
  apply (forward_call_spec _ _ _ _ _ _ _ i) in Hf as (_ & _ & Hans); [|done].
  destruct r2 as [answer|e]; [|done].
  destruct (is_error answer) eqn:He; cbn [negb].
  2:{ intros [= _ _ <-]. destruct (Hans answer eq_refl) as [[? _]|Hok]; [congruence|]. by rewrite Hid in Hok. }
  destruct (_expired_before_provider_delivery answer); [intros [= _ _ <-]; apply dget_with_id|].
  destruct (negb (bool_decide (error_code answer ∈ _))); [intros [= _ _ <-]; apply dget_with_id|].
  destruct (negb safe && _); [intros [= _ _ <-]; reflexivity|].
  destruct (failover _ _ _ _ _ _ _ _ _ _ _) as [[s3 more] r3] eqn:Hrest. intros [= _ _ ->].
  by eapply IH.
Qed.

(** The loop ends when only finitely many components are ever offered. *)
Lemma failover_ends (U : list pystr) (P : Supervisor -> Prop) fuel choose safe what nobody id msg
    source attempted last s :
  fresh_choice choose ->
  (forall ex s s' r, P s -> choose ex s = (s', r) -> P s' /\
     forall n, r = Some n -> exists i, heap s' !! n = Some i /\ key i ∈ U) ->
  (forall n s, P s -> P (_forward_call n msg source s).1.1) ->
  (forall k n s, P s -> P (stop_component k n s)) ->
  P s -> NoDup attempted -> (forall k, k ∈ attempted -> k ∈ U) ->
  (length U < fuel + length attempted)%nat ->
  is_Some (failover fuel choose safe what nobody id msg source attempted last s).2.
Proof.
  intros Hch Hoff Hfw Hstop. revert attempted last s.
  induction fuel as [|fuel IH]; intros attempted last s Hs Hnd Hsub Hlen.
  { assert (length attempted <= length U)%nat; [|lia].
    apply submseteq_length, NoDup_submseteq; auto. }
  cbn [failover]. destruct (choose attempted s) as [s1 [n|]] eqn:Hc; [|done].
  destruct (Hch _ _ _ _ Hc) as (i & Hi & Hk).
  destruct (Hoff _ _ _ _ Hs Hc) as [Hs1 Hu]. destruct (Hu n eq_refl) as (i' & Hi' & HkU).
  assert (i' = i) as -> by congruence. rewrite Hi.
  pose proof (Hfw n s1 Hs1) as Hs2.
  destruct (_forward_call n msg source s1) as [[s2 sent] [answer|e]] eqn:Hf; [|done].
  repeat (case_match; [done|]).
  pose proof (IH (key i :: attempted) (Some answer) (stop_component (key i) n s2)) as Hrest.
  destruct (failover _ _ _ _ _ _ _ _ _ _ _) as [[s3 more] r3]. cbn in *. apply Hrest.
  - by apply Hstop.
  - by apply NoDup_cons.
  - intros k [->|Hin]%elem_of_cons; auto.
  - lia.
Qed.

(* ------------------------------------------------------------------ *)
(** ** Facts the awaited coroutines preserve *)

(** A fact no awaited coroutine invalidates. *)
Record awaits_keep (P : Supervisor -> Prop) : Prop := {
  keep_ready k s : P s -> P (ensure_ready k s).1;
  keep_stop k n s : P s -> P (stop_component k n s);
  keep_reply c packet s : P s -> P (await_reply c packet s).1;
}.

(** Every component the catalog offers for an interface is in [U]. *)
Definition offers_within (U : list pystr) (interface : pystr) (s : Supervisor) : Prop :=
  forall ids, Services.provider_ids (service_catalog s) §"interface" interface = Ok ids ->
    forall k, k ∈ ids -> k ∈ U.

Lemma offers_within_frame U interface s s' :
  service_catalog s' = service_catalog s -> offers_within U interface s -> offers_within U interface s'.
Proof. unfold offers_within. by intros ->. Qed.

Lemma interface_pass_keep P epoch excluded keys s :
  awaits_keep P -> P s -> P (interface_pass epoch excluded keys s).1.
Proof.
  intros Hk. revert s; induction keys as [|k keys IH]; intros s Hs; cbn [interface_pass]; [done|].
  case_bool_decide; [by apply IH|]. pose proof (keep_ready P Hk k s Hs) as Hs1.
  destruct (ensure_ready k s) as [s1 [n|e]]; cbn in Hs1; [|by apply IH].
  destruct (negb _); [done|]. destruct (heap s1 !! n); [|done].
  case_bool_decide; [done|]. apply IH. by apply Hk.
Qed.

Lemma interface_attempts_keep P attempts interface excluded s :
  awaits_keep P -> P s -> P (interface_attempts attempts interface excluded s).1.
Proof.
  intros Hk. revert s; induction attempts as [|a IH]; intros s Hs; cbn [interface_attempts]; [done|].
  destruct (Services.provider_ids _ _ _) as [cands|]; [|done].
  pose proof (interface_pass_keep P (catalog_epoch s) excluded cands s Hk Hs) as Hp.
  destruct (interface_pass _ _ _ _) as [s1 [n| |]]; cbn in Hp; [done|by apply IH|done].
Qed.

Lemma schedule_catalog n s : service_catalog (_schedule_idle_task n s) = service_catalog s.
Proof. unfold _schedule_idle_task. repeat case_match; done. Qed.

Lemma begin_catalog n s : service_catalog (_begin_forward_call n s) = service_catalog s.
Proof. unfold _begin_forward_call, _cancel_idle_task. by case_match. Qed.

Lemma finally_catalog n request s : service_catalog (forward_finally n request s) = service_catalog s.
Proof.
  unfold forward_finally, _finish_forward_call.
  destruct request; cbn; (case_match; [|done]); (case_match; [done|]); cbn zeta; (case_match; [|done]);
    by rewrite schedule_catalog.
Qed.

Lemma forward_start_catalog now n msg source s :
  service_catalog (_forward_start now n msg source s).1 = service_catalog s.
Proof.
  unfold _forward_start. destruct (heap s !! n); [|done]. destruct (_ || _); [done|].
  destruct (py_int _); [|cbn; by rewrite finally_catalog, begin_catalog].
  destruct (forwarded_timeout msg now); [destruct (_ <=? 0)%Z|]; cbn;
    rewrite ?finally_catalog; cbn; by rewrite begin_catalog.
Qed.

(** A fact about the catalog survives a forwarded call. *)
Lemma forward_call_keep (P : Supervisor -> Prop) n msg source s :
  (forall s s', service_catalog s' = service_catalog s -> P s -> P s') ->
  awaits_keep P -> P s -> P (_forward_call n msg source s).1.1.
Proof.
  intros Hframe Hk Hs. unfold _forward_call.
  pose proof (forward_start_catalog (monotonic s) n msg source s) as Hc.
  destruct (_forward_start _ n msg source s) as [s1 [r|c pkt t]]; cbn in Hc |- *; [by eapply Hframe|].
  assert (P s1) as Hs1 by (by eapply Hframe).
  pose proof (keep_reply P Hk c pkt s1 Hs1) as Hs2. destruct (await_reply c pkt s1) as [s2 o]; cbn in *.
  eapply Hframe; [|exact Hs2]. apply finally_catalog.
Qed.

(** The registry of a supervisor is consistent. *)
Definition roles_wf (s : Supervisor) : Prop := Roles.registry_wf (role_registry s).

(** [k] holds a lease of [role]. *)
Definition leased_to (s : Supervisor) (role k : pystr) : Prop :=
  exists ls l, Roles.active_leases (role_registry s) role = Ok ls /\ l ∈ ls /\
    Roles.lease_provider l = k.

Lemma active_provider_leased s role k :
  Roles.active_provider (role_registry s) role = Ok (Some k) -> leased_to s role k.
Proof.
  unfold Roles.active_provider, Roles.active_providers, leased_to. intros Ha. inv_result.
  destruct (Roles.active_leases _ _) as [ls|]; [|done]. cbn in *. inv_result.
  match goal with Hh : head _ = Some k |- _ => apply head_elem in Hh; rename Hh into Hk end.
  apply fromkeys_elem, list_elem_of_fmap in Hk as (l & -> & Hl). eauto.
Qed.

Lemma take_role_spec role k n i s s' b : roles_wf s -> take_role role k n i s = (s', b) ->
  roles_wf s' /\ (b = true -> leased_to s' role k).
Proof.
  intros Hwf. unfold take_role.
  assert (forall s' b, match Roles.acquire (role_registry s) role (Some k)
                 (Some (§"generation:" ++ dec_Z (generation i))) with
         | Ok (r, _) => (set_role_registry r s, true) | Raise _ => (s, false) end = (s', b) ->
     roles_wf s' /\ (b = true -> leased_to s' role k)) as Hacq.
  { intros s1 b1. destruct (Roles.acquire _ _ _ _) as [[r l]|] eqn:Ha; [|by intros [= <- <-]].
    intros [= <- <-]. split; [by eapply Roles.acquire_wf|]. intros _.
    pose proof Ha as Ha'. apply Roles.acquire_Ok in Ha' as (st & c & ts & Hst & _ & Hts & _ & Hl & Hp & ->).
    destruct (Roles.granted_leases _ role st ts l Hwf Hst Hts) as [Hal _].
    eexists _, l. split; [exact Hal|]. split; [set_solver|]. by rewrite Hl. }
  destruct (Roles.active_provider _ _) as [[p|]|] eqn:Hact; [|by apply Hacq..].
  case_bool_decide; [|by apply Hacq]. intros [= <- <-]. subst p. split; [done|]. intros _.
  by apply active_provider_leased.
Qed.

Lemma role_pass_leased role epoch excluded keys s s' r :
  awaits_keep roles_wf -> roles_wf s -> role_pass role epoch excluded keys s = (s', r) ->
  roles_wf s' /\ forall n i, r = Found n -> heap s' !! n = Some i -> leased_to s' role (key i).
Proof.
  intros Hk. revert s; induction keys as [|k keys IH]; intros s Hwf; cbn [role_pass].
  { by intros [= <- <-]. }
  case_bool_decide; [by apply IH|]. pose proof (keep_ready _ Hk k s Hwf) as Hwf1.
  destruct (ensure_ready k s) as [s1 [m|e]] eqn:He; cbn in Hwf1.
  2:{ apply IH. destruct (_ =? _)%Z; [|done].
      destruct (Roles.release_provider_Ok (role_registry s1) k Hwf1) as (r' & -> & Hr' & _). done. }
  destruct (negb _); [by intros [= <- <-]|].
  destruct (ensure_ready_current _ _ _ _ He) as (i & Hi & Hki & _). rewrite Hi.
  case_bool_decide; [|apply IH; by apply Hk].
  destruct (take_role role k m i s1) as [s2 b] eqn:Ht.
  pose proof (take_role_frame _ _ _ _ _ _ _ Ht) as (Hh & _).
  apply take_role_spec in Ht as [Hwf2 Hl]; [|done]. destruct b; [|by apply IH].
  intros [= <- <-]. split; [done|]. intros n j [= <-]. rewrite Hh, Hi. intros [= <-].
  rewrite Hki. by apply Hl.
Qed.

Lemma role_attempts_leased attempts role excluded s s' n :
  awaits_keep roles_wf -> roles_wf s -> role_attempts attempts role excluded s = (s', Some n) ->
  forall i, heap s' !! n = Some i -> leased_to s' role (key i).
Proof.
  intros Hk. revert s; induction attempts as [|a IH]; intros s Hwf; cbn [role_attempts]; [done|].
  destruct (role_order _ _) as [cands|]; [|done].
  destruct (role_pass _ _ _ _ _) as [s1 r] eqn:Hp. apply role_pass_leased in Hp as [Hwf1 Hl]; [|done..].
  destruct r; [|by apply IH|done]. intros [= <- <-] i Hi. by eapply Hl.
Qed.

(** Calls Core may deliver more than once. *)
Definition safe_call (msg : response) : bool :=
  retry_safe msg ||
  match target_name §"role" (str_field msg §"target") with
  | Some role => bool_decide ((role, str_field msg §"method") ∈ ROLE_NO_START_NOOPS)
  | None => false
  end.

(** What the permissions of a component must cover for its call. *)
Definition authorised (s : Supervisor) (i : Instance) (msg : response) : Prop :=
  let target := str_field msg §"target" in
  let method := str_field msg §"method" in
  let permissions := VStr <$> Manifest.permissions (component i) in
  Acl.allows_call permissions target method = true \/
  exists k c p, target = §"component" ++ §":" ++ k /\ dget (components s) k = Some c /\
    p ∈ Manifest.provides c /\ Manifest.kind p = §"interface" /\
    Acl.allows_call permissions (§"interface:" ++ Manifest.name p) method = true.

Lemma authorize_spec s i msg :
  match _authorize_component_call s i msg with
  | None => authorised s i msg
  | Some denial =>
      ~ authorised s i msg /\ is_error denial = true /\ error_code denial = ACCESS_DENIED
  end.
Proof.
  unfold _authorize_component_call. set (target := str_field msg §"target").
  set (method := str_field msg §"method"). set (permissions := VStr <$> _). cbn zeta.
  match goal with |- context [if ?b then None else _] =>
    assert (b = true <-> authorised s i msg) as Hiff end.
  { unfold authorised. fold target method permissions. cbn zeta.
    rewrite orb_true_iff. apply or_iff_compat_l.
    destruct (target_name §"component" target) as [k|] eqn:Hk; cbn [option_bind mbind].
    - apply target_name_Some in Hk. destruct (dget (components s) k) as [c|] eqn:Hc.
      + rewrite existsb_elem. split.
        * intros (p & Hp & Hb). bool_simp. by exists k, c, p.
        * intros (k' & c' & p & Heq & Hc' & Hp & Hkind & Ha). rewrite Hk in Heq.
          apply app_inv_head, app_inv_head in Heq. subst k'. simplify_eq. exists p.
          split; [done|]. by rewrite bool_decide_eq_true_2, Ha.
      + split; [done|]. intros (k' & c' & p & Heq & Hc' & _). rewrite Hk in Heq.
        apply app_inv_head, app_inv_head in Heq. congruence.
    - split; [done|]. intros (k' & c' & p & Heq & _). apply target_name_Some in Heq. congruence. }
  match goal with |- context [if ?b then None else _] => destruct b end.
  - by apply Hiff.
  - split; [|done]. rewrite <- Hiff. done.
Qed.

(* ------------------------------------------------------------------ *)
(** ** Properties *)

(** C8: a call is delivered at most once to each provider; and a call that is
    neither declared idempotent nor one of the read-only methods reaches at
    most one provider, even when providers time out, exit or lose their
    channel, as long as no provider answers with the error code Core uses for a
    missing socket. *)
Theorem calls_delivered_at_most_once core_call fuel msg source s s' ds r :
  dispatch_call core_call fuel msg source s = (s', ds, r) ->
  NoDup (delivered_key <$> ds) /\
  (safe_call msg = false -> no_forged_socket_error -> (length ds <= 1)%nat).
Proof.
  unfold dispatch_call. destruct (caller_id msg) as [id|e] eqn:Hid; [|intros [= _ <- _]; split; [constructor|cbn; lia]].
  assert (forall s0 (ds0 : list delivery) (r0 : option (py response)), (s0, [], r0) = (s', ds, r) ->
    NoDup (delivered_key <$> ds) /\ (safe_call msg = false -> no_forged_socket_error -> (length ds <= 1)%nat)) as Hnone.
  { intros s0 _ r0 [= _ <- _]. split; [constructor|cbn; lia]. }
  destruct (target_name §"role" (str_field msg §"target")) as [role|] eqn:Hrole.
  - unfold _dispatch_role_call. rewrite Hid, Hrole. change (default [] (Some role)) with role.
    destruct (bool_decide _ && _); [by apply (Hnone _ [])|]. intros Hf.
    apply failover_deliveries in Hf as (Hnd & _ & Hlen); [|apply role_fresh]. split; [done|].
    unfold safe_call. rewrite Hrole. exact Hlen.
  - case_bool_decide.
    + unfold _dispatch_interface_call. rewrite Hid. destruct (negb _); [by apply (Hnone _ [])|]. intros Hf.
      apply failover_deliveries in Hf as (Hnd & _ & Hlen); [|apply interface_fresh]. split; [done|].
      unfold safe_call. rewrite Hrole, orb_false_r. exact Hlen.
    + case_bool_decide.
      * unfold _dispatch_component_target_call. rewrite Hid. destruct (_ || _); [by apply (Hnone _ [])|].
        destruct (ensure_ready _ s) as [s1 [n|e]] eqn:He; [|by apply (Hnone _ [])].
        destruct (ensure_ready_current _ _ _ _ He) as (i & Hi & _).
        destruct (_forward_call n msg source s1) as [[s2 sent] r2] eqn:Hf. intros [= _ <- _].
        apply (forward_call_spec _ _ _ _ _ _ _ i) in Hf as ([-> | ->] & _); [split; [constructor|cbn; lia]| |done].
        cbn. split; [|lia]. apply NoDup_singleton.
      * case_bool_decide; [|by apply (Hnone _ [])]. destruct (core_call _ _ _). by apply (Hnone _ []).
Qed.

(** A failed call moves on to the next provider only finitely often.  When
    every catalog that is ever installed offers only the components of [U] for
    the interface, [|U| + 1] rounds of the loop are enough for a result, and
    whatever it is, an answer carries the caller's own request id. *)
Theorem interface_dispatch_answers (U : list pystr) interface msg source s id :
  awaits_keep (offers_within U interface) -> offers_within U interface s ->
  str_field msg §"target" = §"interface" ++ §":" ++ interface -> interface ≠ [] ->
  caller_id msg = Ok id ->
  exists r, (_dispatch_interface_call (S (length U)) msg source s).2 = Some r /\
    forall a, r = Ok a -> dget a §"id" = Some (VInt id).
Proof.
  intros Hk Hs Ht Hne Hid. apply target_name_Some in Ht.
  unfold _dispatch_interface_call. rewrite Hid, Ht. change (default [] (Some interface)) with interface.
  assert (negb (str_true interface) = false) as -> by (by destruct interface).
  destruct (failover (S (length U)) _ _ _ _ _ _ _ _ _ s) as [[s' ds] r] eqn:Hf.
  assert (is_Some r) as [o ->].
  { change r with (s', ds, r).2. rewrite <- Hf.
    apply (failover_ends U (offers_within U interface));
      [apply interface_fresh| | |by apply Hk|done|constructor| |cbn; lia].
    - intros ex s1 s2 o Hw Hc. pose proof (interface_attempts_keep _ 3 interface ex s1 Hk Hw) as Hw2.
      unfold _provider_for_interface in Hc. rewrite Hc in Hw2. split; [done|]. intros n ->.
      apply interface_attempts_found in Hc as (i & Hi & _ & _ & _ & _ & ids & Hids & Hin). eauto.
    - intros n s1 Hw. apply forward_call_keep; [|done|done]. intros s2 s3. apply offers_within_frame.
    - intros k Hin. by apply not_elem_of_nil in Hin. }
  exists o. split; [done|]. intros a ->. eapply failover_id; [apply interface_fresh|done| |exact Hf]. done.
Qed.

(** C10: a component reaches only what its manifest permits.  Its call is
    dispatched exactly when its permissions cover the target and method, or the
    target is a component that provides an interface on which they cover the
    method; any other call is answered [ACCESS_DENIED], delivers nothing and
    changes nothing.  A packet is sent back only with that response, and only to
    the instance that called, when it is still current and has its channel. *)
Theorem component_calls_authorised core_call fuel n i msg s :
  heap s !! n = Some i ->
  (authorised s i msg -> component_call_response core_call fuel n msg s
                         = dispatch_call core_call fuel msg (key i) s) /\
  (~ authorised s i msg -> exists denial,
     component_call_response core_call fuel n msg s = (s, [], Some (Ok denial)) /\
     is_error denial = true /\ error_code denial = ACCESS_DENIED /\
     _dispatch_component_call core_call fuel n msg s
       = (s, [], Some (Ok (if is_current s (key i) n && sock i then Some denial else None)))) /\
  (forall s' ds a, _dispatch_component_call core_call fuel n msg s = (s', ds, Some (Ok (Some a))) ->
     component_call_response core_call fuel n msg s = (s', ds, Some (Ok a)) /\
     exists i', heap s' !! n = Some i' /\ dget (instances s') (key i') = Some n /\ sock i' = true).
Proof.
  intros Hi. split; [|split].
  - intros Ha. unfold component_call_response. rewrite Hi. pose proof (authorize_spec s i msg) as Hs.
    destruct (_authorize_component_call s i msg) as [denial|]; [|done]. by destruct Hs.
  - intros Hn. unfold _dispatch_component_call, component_call_response, answerable. rewrite Hi.
    pose proof (authorize_spec s i msg) as Hs. destruct (_authorize_component_call s i msg) as [denial|]; [|done].
    destruct Hs as (_ & He & Hc). exists denial. by rewrite Hi.
  - intros s' ds a. unfold _dispatch_component_call.
    destruct (component_call_response core_call fuel n msg s) as [[s1 ds1] [[r|e]|]]; [|done..]. unfold answerable, is_current.
    destruct (heap s1 !! n) as [i'|] eqn:Hi'; [|done]. destruct (bool_decide _) eqn:Hc; [|done]. destruct (sock i') eqn:Hs; [|done].
    cbn [andb]. intros [= -> -> ->]. split; [done|]. exists i'. split; [done|]. split; [by apply bool_decide_eq_true in Hc|done].
Qed.

(** C9: calls are routed only to providers in force.  The instance chosen for an
    interface or a role was not tried before, is the ready, current generation
    of its component, and runs the component of the catalog in force; for an
    interface that catalog lists it as a provider, and for a role it holds a
    lease of the role. *)
Theorem routed_provider_is_in_force name excluded s s' n :
  (_provider_for_interface name excluded s = (s', Some n) ->
     exists i, heap s' !! n = Some i /\ key i ∉ excluded /\ ready i = true /\
       dget (instances s') (key i) = Some n /\ component_current s' i = true /\
       exists ids, Services.provider_ids (service_catalog s') §"interface" name = Ok ids /\
         key i ∈ ids) /\
  (_provider_for_role name excluded s = (s', Some n) -> awaits_keep roles_wf -> roles_wf s ->
     exists i, heap s' !! n = Some i /\ key i ∉ excluded /\ ready i = true /\
       dget (instances s') (key i) = Some n /\ component_current s' i = true /\
       leased_to s' name (key i)).
Proof.
  split; [apply interface_attempts_found|]. intros Hr Hk Hwf.
  pose proof (role_attempts_leased _ _ _ _ _ _ Hk Hwf Hr) as Hl.
  apply role_attempts_found in Hr as (i & ? & ? & ? & ? & ?). exists i. eauto 10.
Qed.
End Choice.

(* ------------------------------------------------------------------ *)
(** ** A concrete supervisor *)

(** Awaiting changes nothing, except that [answer] decides what a provider
    answers. *)
Definition sample_activation (answer : pystr -> option response) : Activation := {|
  ensure_ready k s :=
    (s, match dget (instances s) k with
        | Some n => match heap s !! n with
                    | Some i => if bool_decide (key i = k) && ready i then Ok n
                                else Raise (Exn RuntimeError §"component did not become ready")
                    | None => Raise (Exn RuntimeError §"component did not become ready")
                    end
        | None => Raise (Exn RuntimeError §"component did not become ready")
        end);
  stop_component k n s := set_instances (ddel (instances s) k) s;
  await_reply c packet s :=
    match answer (str_field packet §"target") with
    | Some r => (set_futures (<[call_future c := Some r]> (futures s)) s, Answered)
    | None => (s, TimedOut)
    end;
  lock_role _ s := s;
  monotonic _ := 0%Z;
|}.

Lemma sample_activation_laws answer : @ActivationLaws (sample_activation answer).
Proof.
  split; cbn.
  - intros k s s' n. destruct (dget (instances s) k) as [m|] eqn:Hm; [|done].
    destruct (heap s !! m) as [i|] eqn:Hi; [|done]. destruct (_ && _) eqn:Hb; [|done].
    intros [= <- <-]. bool_simp. eauto 10.
  - intros k s s' r [= <- _]. split; [lia|done].
  - intros k n s. split; [cbn; lia|done].
Qed.

Definition sample_interface : pystr := §"org.demo.hal".

Definition sample_hal (cid : pystr) : Manifest.Component :=
  Manifest.sample_provider §"p" cid
    [{| Manifest.kind := §"interface"; Manifest.name := sample_interface; Manifest.priority := 1;
        Manifest.exclusive := false |}].

Definition hal_instance (cid : pystr) (object : nat) : Instance :=
  {| component := sample_hal cid; component_object := object; generation := 1; process := None;
     sock := true; state := §"ready"; ready := true; started_at := 0; subscriptions := ∅;
     pending_calls := []; in_flight_calls := 0; idle_task := None; finalized := false;
     backoff_until := 0; transition_closing := false |}.

Definition hal_components : dict pystr Manifest.Component :=
  [(§"p:a", sample_hal §"a"); (§"p:b", sample_hal §"b")].

(** Two providers of one interface, both running. *)
Definition hal_supervisor : Supervisor :=
  {| heap := {[ 0%nat := hal_instance §"a" 0; 1%nat := hal_instance §"b" 1 ]};
     instances := [(§"p:a", 0%nat); (§"p:b", 1%nat)]; components := hal_components;
     component_objects := [(§"p:a", 0%nat); (§"p:b", 1%nat)];
     role_registry := Roles.sample_registry; service_catalog := Services.make hal_components;
     catalog_epoch := 0; next_request_id := 1; stopping := false; stop_requests := ∅;
     foreground_stack := []; backgrounded_components := ∅; failure_history := [];
     quarantined := ∅; quarantine_times := []; recovery_allowed := None; idle_tasks := ∅;
     futures := ∅ |}.

Definition hal_call : response :=
  [(§"type", VStr §"call"); (§"id", VInt 7); (§"target", VStr (§"interface:" ++ sample_interface));
   (§"method", VStr §"set_power")].

(** A provider that passes on the error of a call of its own. *)
Definition forged_answer : response :=
  [(§"type", VStr §"error"); (§"id", VInt 1); (§"code", VStr §"NO_PROVIDER_SOCKET")].

(** The hypothesis of C30 is needed.  Core reads its own delivery status in
    the error code of an answer, so a live provider that answers with
    [NO_PROVIDER_SOCKET] is stopped and the call, though not retry safe, is
    delivered a second time, to another provider. *)
Theorem forged_socket_error_delivers_twice :
  exists A : Activation, ActivationLaws /\ safe_call hal_call = false /\
    exists s' d1 d2 r,
      _dispatch_interface_call 3 hal_call §"public" hal_supervisor = (s', [d1; d2], r) /\
      delivered_key d1 ≠ delivered_key d2 /\
      current hal_supervisor (delivered_key d1) ≠ None /\ current s' (delivered_key d1) = None.
Proof.
  exists (sample_activation (fun _ => Some forged_answer)).
  split; [apply sample_activation_laws|]. split; [vm_compute; reflexivity|].
  eexists _, _, _, _. split; [vm_compute; reflexivity|]. split; [vm_compute; discriminate|].
  split; [vm_compute; discriminate|vm_compute; reflexivity].
Qed.

(* ------------------------------------------------------------------ *)
(** ** Witnesses *)

(** Providers that never answer. *)
Definition silent : Activation := sample_activation (fun _ => None).

Definition no_core (msg : response) (source : pystr) (s : Supervisor) : Supervisor * py response :=
  (s, Raise (Exn RuntimeError [])).

Lemma silent_honest : @no_forged_socket_error _ silent.
Proof. intros c packet s s' r Ha. cbn in Ha. discriminate Ha. Qed.

Lemma calls_delivered_at_most_once_witness :
  exists s' d r, @dispatch_call _ _ silent no_core 3 hal_call §"public" hal_supervisor = (s', [d], Some (Ok r))
    /\ error_code r = §"OUTCOME_UNKNOWN" /\ (length [d] <= 1)%nat.
Proof.
  eexists _, _, _. split; [vm_compute; reflexivity|]. split; [vm_compute; reflexivity|].
  refine (proj2 (@calls_delivered_at_most_once _ _ silent (sample_activation_laws _)
    no_core 3 hal_call §"public" hal_supervisor _ _ _ _) _ silent_honest).
  - vm_compute. reflexivity.
  - vm_compute. reflexivity.
Defined.

Lemma silent_keeps U : @awaits_keep silent (offers_within U sample_interface).
Proof. split; done. Qed.

Lemma interface_dispatch_answers_witness :
  exists r, (@_dispatch_interface_call _ _ silent 3 hal_call §"public" hal_supervisor).2 = Some r.
Proof.
  destruct (@interface_dispatch_answers _ _ silent (sample_activation_laws _) [§"p:a"; §"p:b"]
    sample_interface hal_call §"public" hal_supervisor 7) as (r & Hr & _).
  - apply silent_keeps.
  - intros ids Hids k Hk. vm_compute in Hids. injection Hids as <-. exact Hk.
  - vm_compute. reflexivity.
  - vm_compute. discriminate.
  - vm_compute. reflexivity.
  - exists r. exact Hr.
Defined.

Lemma component_calls_authorised_witness :
  exists denial, @component_call_response _ _ silent no_core 3 0 hal_call hal_supervisor
    = (hal_supervisor, [], Some (Ok denial)) /\ error_code denial = ACCESS_DENIED.
Proof.
  destruct (@component_calls_authorised _ _ silent no_core 3 0 (hal_instance §"a" 0)
    hal_call hal_supervisor eq_refl) as (_ & Hdeny & _).
  destruct Hdeny as (denial & Hd & _ & Hcode & _).
  - intros [Ha|(k & c & p & Heq & _)].
    + vm_compute in Ha. discriminate Ha.
    + vm_compute in Heq. discriminate Heq.
  - exists denial. split; [exact Hd|exact Hcode].
Defined.

Lemma routed_provider_is_in_force_witness :
  exists s' i, @_provider_for_interface silent sample_interface [§"p:a"] hal_supervisor = (s', Some 1%nat) /\
    heap s' !! 1%nat = Some i /\ component_current s' i = true.
Proof.
  assert (@_provider_for_interface silent sample_interface [§"p:a"] hal_supervisor
          = (hal_supervisor, Some 1%nat)) as Hp by (vm_compute; reflexivity).
  destruct (proj1 (@routed_provider_is_in_force silent (sample_activation_laws _)
    sample_interface [§"p:a"] hal_supervisor hal_supervisor 1) Hp) as (i & Hi & _ & _ & _ & Hc & _).
  exists hal_supervisor, i. split; [exact Hp|]. split; [exact Hi|exact Hc].
Defined.
End Dispatch.
