(* ===== verification/RoleSwitch.v ===== *)
(** * Switching a role to another provider ([msys_core/msysd.py])

    The summary of a role, the switch of a role to a chosen provider with the
    rollback of a switch that fails, and the activation of a role's window.
    The code under the catalog lock is a function; what is awaited between is
    the interface [Switching]. *)

From Stdlib Require Import ZArith.
From S2P Require Export Dispatch.

Module RoleSwitch.
Import Msysd Calls Dispatch.

(** The supervisor with the durable choices of the user. *)
Record Selection := {
  core_state : Supervisor;
  role_preference_overrides : dict pystr pystr;
}.

Definition registry (st : Selection) : Roles.RoleRegistry := role_registry (core_state st).
Definition set_registry (r : Roles.RoleRegistry) (st : Selection) : Selection :=
  {| core_state := set_role_registry r (core_state st);
     role_preference_overrides := role_preference_overrides st |}.
Definition set_overrides (d : dict pystr pystr) (st : Selection) : Selection :=
  {| core_state := core_state st; role_preference_overrides := d |}.

(** What a switch awaits or writes. *)
Class Switching := {
  (** [ensure_ready(key)] *)
  ready_provider : pystr -> Selection -> Selection * py nat;
  (** the retirement of an instance within its budget: finished, with the
      message of its failure, or still running *)
  retire_provider : pystr -> nat -> Selection -> Selection * option (option pystr);
  (** write the role preferences *)
  persist_role_preferences : dict pystr pystr -> py unit;
}.

Definition runtime_error (m : pystr) : exn := Exn RuntimeError m.

Section Summary.
Context `{PyLib} `{PyRepr}.

Definition opt_str (o : option pystr) : pyval := match o with Some s => VStr s | None => VNone end.

Definition candidate_summary (s : Supervisor) (c : Roles.RoleCandidate) : pyval :=
  VDict [(§"component", VStr (Roles.provider_id c)); (§"priority", VInt (Roles.priority c));
         (§"exclusive", VBool (Roles.exclusive c)); (§"explicit", VBool (Roles.explicit c));
         (§"declared", VBool (Roles.declared_role c));
         (§"state", VStr (match current s (Roles.provider_id c) with Some i => state i | None => §"declared" end))].

Definition _role_summary (role : pystr) (s : Supervisor) : py (dict pystr pyval) :=
  info ← Roles.info (role_registry s) role;
  Ok [(§"role", VStr (Roles.info_name info)); (§"exclusive", VBool (Roles.info_exclusive info));
      (§"preferred", opt_str (Roles.info_preferred info)); (§"active", opt_str (Roles.info_active info));
      (§"active_providers", VList (VStr <$> Roles.info_active_providers info));
      (§"candidates", VList (candidate_summary s <$> Roles.info_candidates info))].
End Summary.

(* ------------------------------------------------------------------ *)
(** ** The section under the catalog lock *)

Section Switch.
Context `{PyLib} `{PyRepr} `{Switching}.

(** [for lease in leases: registry.release(lease)] *)
Fixpoint release_each (ls : list Roles.RoleLease) (r : Roles.RoleRegistry) : Roles.RoleRegistry * py unit :=
  match ls with
  | [] => (r, Ok tt)
  | l :: ls =>
      match Roles.release r (Roles.ByLease l) with
      | Ok (r, _) => release_each ls r
      | Raise e => (r, Raise e)
      end
  end.

Definition clear_role (role : pystr) (r : Roles.RoleRegistry) : Roles.RoleRegistry * py unit :=
  match Roles.active_leases r role with Ok ls => release_each ls r | Raise e => (r, Raise e) end.

(** Statements that change the selection and may raise midway. *)
Definition doing (A : Type) : Type := Selection * py A.
Definition also {A B} (m : doing A) (f : A -> Selection -> doing B) : doing B :=
  match m with (st, Ok a) => f a st | (st, Raise e) => (st, Raise e) end.

Definition on_registry (f : Roles.RoleRegistry -> Roles.RoleRegistry * py unit) (st : Selection) : doing unit :=
  let '(r, res) := f (registry st) in (set_registry r st, res).

Definition acquire_for (role provider : pystr) (holder : option pystr) (r : Roles.RoleRegistry)
    : Roles.RoleRegistry * py unit :=
  match Roles.acquire r role (Some provider) holder with Ok (r, _) => (r, Ok tt) | Raise e => (r, Raise e) end.

(** The preference and the durable choice. *)
Definition change_preference (mode role provider : pystr) (st : Selection) : doing unit :=
  if bool_decide (mode = §"select")
  then match Roles.select_preferred (registry st) role provider with
       | Ok (r, _) => (set_overrides (dset (role_preference_overrides st) role provider) (set_registry r st), Ok tt)
       | Raise e => (st, Raise e)
       end
  else if bool_decide (mode = §"reset")
  then match Roles.candidate_ids (registry st) role with
       | Raise e => (st, Raise e)
       | Ok ids =>
           if negb (bool_decide (head ids = Some provider))
           then (st, Raise (runtime_error §"role default changed during reset"))
           else match Roles.reset_preferred (registry st) role with
                | Ok (r, _) => (set_overrides (ddel (role_preference_overrides st) role) (set_registry r st), Ok tt)
                | Raise e => (st, Raise e)
                end
       end
  else (st, Raise (Exn ValueError (§"unknown preference mode " ++ mode))).

(** The lease moves to the new provider, unless it has it. *)
Definition move_lease (role provider : pystr) (gen : Z) (old_active : option pystr) (st : Selection) : doing unit :=
  if bool_decide (old_active = Some provider) then (st, Ok tt)
  else also (on_registry (clear_role role) st) (fun _ =>
         on_registry (acquire_for role provider (Some (§"generation:" ++ dec_Z gen)))).

(** Whether the old provider is still needed for another role. *)
Definition still_active (old : option pystr) (r : Roles.RoleRegistry) : py bool :=
  match old with
  | None => Ok false
  | Some p =>
      if negb (str_true p) then Ok false
      else ps ← mapR (Roles.active_providers r) (Roles.list_roles r);
           Ok (existsb (fun l => bool_decide (p ∈ l)) ps)
  end.

(** The instance to retire: the old provider's, when it lost its last role. *)
Definition to_retire (provider : pystr) (old : option pystr) (s : Supervisor) : py (option (pystr * nat)) :=
  still ← still_active old (role_registry s);
  Ok (match old with
      | Some p => if str_true p && negb (bool_decide (p = provider)) && negb still
                  then pair p <$> dget (instances s) p else None
      | None => None
      end).

(** The [try] block. *)
Definition attempt (mode role provider : pystr) (gen : Z) (old_active : option pystr) (st : Selection)
    : doing (option (pystr * nat) * dict pystr pyval) :=
  also (change_preference mode role provider st) (fun _ st =>
  also (move_lease role provider gen old_active st) (fun _ st =>
  (st, persist_role_preferences (role_preference_overrides st);;
       retire ← to_retire provider old_active (core_state st);
       summary ← _role_summary role (core_state st);
       Ok (retire, summary)))).

(** The [except] block; it raises what it caught unless it fails itself. *)
Definition regrant (role : pystr) (l : Roles.RoleLease) (st : Selection) : doing unit :=
  match Roles.is_candidate (registry st) role (Roles.lease_provider l) with
  | Raise e => (st, Raise e)
  | Ok false => (st, Ok tt)
  | Ok true => on_registry (acquire_for role (Roles.lease_provider l) (Roles.holder l)) st
  end.

Fixpoint regrant_all (role : pystr) (ls : list Roles.RoleLease) (st : Selection) : doing unit :=
  match ls with
  | [] => (st, Ok tt)
  | l :: ls => also (regrant role l st) (fun _ => regrant_all role ls)
  end.

Definition restore_override (role : pystr) (old : option pystr) (st : Selection) : Selection :=
  match old with
  | Some p => set_overrides (dset (role_preference_overrides st) role p) st
  | None => set_overrides (ddel (role_preference_overrides st) role) st
  end.

Definition rollback (role : pystr) (old_preferred old_override : option pystr)
    (old_leases : list Roles.RoleLease) (st : Selection) : doing unit :=
  also (match old_preferred with
        | Some p => match Roles.select_preferred (registry st) role p with
                    | Ok (r, _) => (set_registry r st, Ok tt)
                    | Raise e => (st, Raise e)
                    end
        | None => (st, Ok tt)
        end) (fun _ st =>
  also (on_registry (clear_role role) (restore_override role old_override st)) (fun _ =>
  regrant_all role old_leases)).

(** What the section decides. *)
Inductive switch_result :=
| TryAgain
| Unchanged (summary : dict pystr pyval)
| Switched (retire : option (pystr * nat)) (summary : dict pystr pyval).

(** Whether nothing would change. *)
Definition exact (mode role provider : pystr) (old_active old_preferred : option pystr)
    (overrides : dict pystr pystr) : bool :=
  bool_decide (old_active = Some provider) && bool_decide (old_preferred = Some provider)
  && (bool_decide (mode = §"select") && bool_decide (dget overrides role = Some provider)
      || bool_decide (mode = §"reset") && bool_decide (dget overrides role = None)).

(** [n] is the instance [ensure_ready] returned and [epoch] the catalog it was
    asked under; the registry object is replaced only with the epoch. *)
Definition switch_section (mode role provider : pystr) (epoch : Z) (n : nat) (st : Selection)
    : doing switch_result :=
  let s := core_state st in
  match heap s !! n with
  | None => (st, Ok TryAgain)
  | Some i =>
      if negb (catalog_epoch s =? epoch)%Z then (st, Ok TryAgain)
      else if negb (bool_decide (dget (component_objects s) provider = Some (component_object i))) || negb (ready i)
      then (st, Ok TryAgain)
      else
        match Roles.get_candidate (registry st) role provider;;
              old_leases ← Roles.active_leases (registry st) role;
              old_active ← Roles.active_provider (registry st) role;
              old_preferred ← Roles.preferred_provider (registry st) role;
              Ok (old_leases, old_active, old_preferred)
        with
        | Raise e => (st, Raise e)
        | Ok (old_leases, old_active, old_preferred) =>
            let old_override := dget (role_preference_overrides st) role in
            if exact mode role provider old_active old_preferred (role_preference_overrides st)
            then (st, summary ← _role_summary role s; Ok (Unchanged summary))
            else match attempt mode role provider (generation i) old_active st with
                 | (st, Ok (retire, summary)) => (st, Ok (Switched retire summary))
                 | (st, Raise e) =>
                     if negb (bool_decide (exn_type e = CancelledError))
                     then also (rollback role old_preferred old_override old_leases st) (fun _ st => (st, Raise e))
                     else (st, Raise e)
                 end
        end
  end.

(* ------------------------------------------------------------------ *)
(** ** The whole switch *)

(** The result once the old provider is being retired. *)
Definition finish_switch (role : pystr) (epoch : Z) (retire : option (pystr * nat))
    (summary : dict pystr pyval) (st : Selection) : doing (dict pystr pyval) :=
  let '(st, cleanup) := match retire with
                        | Some (p, n) => retire_provider p n st
                        | None => (st, Some None)
                        end in
  (st, summary ← (if (catalog_epoch (core_state st) =? epoch)%Z
                  then _role_summary role (core_state st) else Ok summary);
       Ok (match cleanup with
           | Some (Some error) => if str_true error then dset summary §"cleanup_error" (VStr error) else summary
           | Some None => summary
           | None => dset summary §"cleanup_pending" (opt_str (fst <$> retire))
           end)).

(** The loop of [_switch_role]. *)
Fixpoint switch_attempts (attempts : nat) (mode role provider : pystr) (st : Selection)
    : doing (dict pystr pyval) :=
  match attempts with
  | O => (st, Raise (runtime_error (§"role catalog changed repeatedly while switching " ++ role)))
  | S attempts =>
      let epoch := catalog_epoch (core_state st) in
      match Roles.get_candidate (registry st) role provider with
      | Raise e => (st, Raise e)
      | Ok _ =>
          also (ready_provider provider st) (fun n st =>
          also (switch_section mode role provider epoch n st) (fun r st =>
          match r with
          | TryAgain => switch_attempts attempts mode role provider st
          | Unchanged summary => (st, Ok summary)
          | Switched retire summary => finish_switch role epoch retire summary st
          end))
      end
  end.

Definition _switch_role (role provider mode : pystr) (st : Selection) : doing (dict pystr pyval) :=
  switch_attempts 3 mode role provider st.

(** The calls [select_role] and [reset_role] for a role other than the
    display's. *)
Definition switched_reply (id : pyval) (r : doing (dict pystr pyval)) : doing response :=
  also r (fun summary st => (st, Ok [(§"type", VStr §"return"); (§"id", id); (§"payload", VDict summary)])).

Definition select_role (id : pyval) (role provider : pystr) (st : Selection) : doing response :=
  switched_reply id (_switch_role role provider §"select" st).

Definition reset_role (id : pyval) (role : pystr) (st : Selection) : doing response :=
  match Roles.candidate_ids (registry st) role with
  | Raise e => (st, Raise e)
  | Ok [] => (st, Ok (error_response id §"NO_PROVIDER" role))
  | Ok (provider :: _) => switched_reply id (_switch_role role provider §"reset" st)
  end.
End Switch.

(* ------------------------------------------------------------------ *)
(** ** Registries that differ in one role *)

Section Registries.
Context {lib : PyLib} {repr : PyRepr}.

(** Nothing but the leases of [role] differs. *)
Record lease_frame (role : pystr) (r r' : Roles.RoleRegistry) : Prop := {
  lf_wf : Roles.registry_wf r';
  lf_roles : Roles._roles r' = Roles._roles r;
  lf_preferred : Roles._preferred r' = Roles._preferred r;
  lf_others role' : role' ≠ role -> Roles.active_leases r' role' = Roles.active_leases r role';
}.

Lemma lease_frame_trans role r1 r2 r3 : lease_frame role r1 r2 -> lease_frame role r2 r3 -> lease_frame role r1 r3.
Proof.
  intros [_ A2 A3 A4] [B1 B2 B3 B4]. constructor; [done|congruence|congruence|].
  intros role' Hr. by rewrite B4, A4.
Qed.

Lemma release_each_foldR ls r r' :
  foldR (fun r l => p ← Roles.release r (Roles.ByLease l); Ok p.1) r ls = Ok r' ->
  release_each ls r = (r', Ok tt) /\ (Roles._preferred r' = Roles._preferred r).
Proof.
  revert r; induction ls as [|l ls IH]; intros r; cbn [foldR release_each]; [by intros [= ->]|].
  destruct (Roles.release r _) as [[r1 l1]|e] eqn:Hr; [|done]. cbn [rbind fst]. intros Hf.
  destruct (IH _ Hf) as [-> ->]. split; [done|].
  by apply Roles.release_Ok in Hr as (? & ? & _ & _ & _ & _ & ->).
Qed.

Lemma clear_role_spec role r s : Roles.registry_wf r -> dget (Roles._roles r) role = Some s ->
  exists r', clear_role role r = (r', Ok tt) /\ lease_frame role r r' /\ Roles.active_leases r' role = Ok [].
Proof.
  intros Hwf Hs. destruct (Roles.active_leases_total r role s Hwf Hs) as (ts & Hts & Hal).
  pose proof (Roles.role_tokens_stored r role ts Hwf Hts) as Hst.
  set (ls := omap (dget (Roles._leases r)) ts) in *.
  assert (Roles.token <$> ls = ts) as Htok by (by apply Roles.omap_leases_tokens).
  destruct (Roles.release_all r ls Hwf) as (r' & Hf & Hwf' & Hro & Ht & Htk).
  { rewrite Htok. by apply (Roles.rw_role_tokens _ Hwf _ _ Hts). }
  { apply Forall_forall. intros l Hl. by apply Roles.omap_leases_elem in Hl as [_ ?]. }
  apply release_each_foldR in Hf as [Hf Hpref]. unfold clear_role. rewrite Hal.
  assert (forall role' before, Roles.active_leases r role' = Ok before ->
    Roles.active_leases r' role' = Ok (filter (fun l => Roles.lease_role l ≠ role) before)) as Hall.
  { intros role' before Hb. destruct (dget (Roles._roles r) role') as [s'|] eqn:Hs'.
    2:{ unfold Roles.active_leases, Roles._state in Hb. by rewrite Hs' in Hb. }
    destruct (Roles.active_leases_total r role' s' Hwf Hs') as (ts' & Hts' & Hb').
    rewrite Hb' in Hb. injection Hb as <-.
    destruct (Roles.active_leases_total r' role' s' Hwf') as (ts2 & Hts2 & ->); [by rewrite Hro|].
    rewrite Htk, Hts' in Hts2. injection Hts2 as <-. f_equal. rewrite Htok.
    pose proof (Roles.role_tokens_stored r role' ts' Hwf Hts') as Hst'. rewrite Forall_forall in Hst'.
    apply Roles.omap_leases_filter; [|intros t _ Hn; rewrite Ht, Htok; by rewrite decide_False|done].
    intros t l Hin Hl. destruct (Roles.rw_role_tokens _ Hwf _ _ Hts) as [_ Hel]. rewrite Hel. split.
    - intros Hn Hr. apply Hn. by exists l.
    - intros Hr (l' & Hl' & Hr'). congruence. }
  exists r'. split; [exact Hf|]. split.
  - constructor; [done|done|done|]. intros role' Hne.
    destruct (Roles.active_leases r role') as [before|e] eqn:Hb.
    + rewrite (Hall _ _ Hb). f_equal. apply filter_all. intros l Hl.
      destruct (Roles.active_leases_stored _ _ _ _ Hwf Hb Hl) as [_ ->]. done.
    + revert Hb. unfold Roles.active_leases at 1, Roles._state at 1.
      destruct (dget (Roles._roles r) role') as [s'|] eqn:Hs'.
      * intros Hb. destruct (Roles.active_leases_total r role' s' Hwf Hs') as (? & ? & Hb').
        unfold Roles.active_leases, Roles._state in Hb'. rewrite Hs' in Hb'. congruence.
      * intros <-. unfold Roles.active_leases, Roles._state. by rewrite Hro, Hs'.
  - rewrite (Hall _ _ Hal). f_equal. destruct (filter _ ls) as [|l rest] eqn:Hl; [done|]. exfalso.
    assert (l ∈ filter (fun l => Roles.lease_role l ≠ role) ls) as [Hn Hin]%list_elem_of_filter by (rewrite Hl; by left).
    by destruct (Roles.active_leases_stored _ _ _ _ Hwf Hal Hin).
Qed.

(** A lease for a candidate of a role that may be leased. *)
Lemma acquire_for_spec role p h r s ls : Roles.registry_wf r -> dget (Roles._roles r) role = Some s ->
  p ∈ Roles.provider_id <$> Roles.candidates s -> Roles.active_leases r role = Ok ls ->
  (Roles.state_exclusive s = true -> ls = []) ->
  exists r' l, acquire_for role p h r = (r', Ok tt) /\ lease_frame role r r' /\
    Roles.active_leases r' role = Ok (ls ++ [l]) /\ Roles.lease_provider l = p /\ Roles.holder l = h.
Proof.
  intros Hwf Hs Hp Hal Hex. destruct (Roles.get_candidate_complete r role s p Hs Hp) as (cand & Hc & Hid).
  destruct (Roles.active_leases_total r role s Hwf Hs) as (ts & Hts & Hal'). rewrite Hal in Hal'. injection Hal' as Hls.
  assert (Roles.state_exclusive s = true -> ts = []) as Hts0.
  { intros E. specialize (Hex E). pose proof (Roles.role_tokens_stored r role ts Hwf Hts) as Hst.
    destruct ts as [|t ts]; [done|]. apply Forall_cons in Hst as [[l Hl] _]. cbn in Hls. rewrite Hl in Hls. congruence. }
  set (l := {| Roles.token := Roles._next_lease_token r; Roles.lease_role := role; Roles.lease_provider := Roles.provider_id cand;
               Roles.holder := h |}).
  destruct (Roles.granted_leases r role s ts l Hwf Hs Hts) as [Hrole Hothers]. cbn zeta in Hrole, Hothers.
  match type of Hrole with Roles.active_leases ?x _ = _ => set (r' := x) in * end.
  assert (Roles.acquire r role (Some p) h = Ok (r', l)) as Ha.
  { unfold Roles.acquire, Roles._state. rewrite Hs. cbn [ok_or rbind]. rewrite Hc. cbn [rbind]. rewrite Hts. cbn [ok_or rbind].
    destruct ts as [|t ts]; [done|]. destruct (Roles.state_exclusive s); [by specialize (Hts0 eq_refl)|done]. }
  exists r', l. unfold acquire_for. rewrite Ha. split; [done|]. split.
  - constructor; [by eapply Roles.acquire_wf|done..].
  - by rewrite Hrole, <- Hls.
Qed.

Lemma lease_frame_refl role r : Roles.registry_wf r -> lease_frame role r r.
Proof. by constructor. Qed.

(** What a role's leases say, whatever their tokens. *)
Definition grants (ls : list Roles.RoleLease) : list (pystr * option pystr) :=
  (fun l => (Roles.lease_provider l, Roles.holder l)) <$> ls.

Lemma regrant_all_spec role s ls st cur : Roles.registry_wf (registry st) ->
  dget (Roles._roles (registry st)) role = Some s ->
  Forall (fun l => Roles.lease_provider l ∈ Roles.provider_id <$> Roles.candidates s) ls ->
  Roles.active_leases (registry st) role = Ok cur ->
  (Roles.state_exclusive s = true -> (length (cur ++ ls) <= 1)%nat) ->
  exists r' ls', regrant_all role ls st = (set_registry r' st, Ok tt) /\ lease_frame role (registry st) r' /\
    Roles.active_leases r' role = Ok (cur ++ ls') /\ grants ls' = grants ls.
Proof.
  revert st cur; induction ls as [|l ls IH]; intros st cur Hwf Hs Hall Hcur Hex; cbn [regrant_all].
  { exists (registry st), []. split; [by destruct st as [[]]|]. split; [by apply lease_frame_refl|]. by rewrite app_nil_r. }
  apply Forall_cons in Hall as [Hl Hall].
  destruct (acquire_for_spec role (Roles.lease_provider l) (Roles.holder l) (registry st) s cur Hwf Hs Hl Hcur)
    as (r1 & l' & Ha & Hf1 & Hc1 & Hp & Hh).
  { intros E. specialize (Hex E). rewrite length_app in Hex. cbn in Hex. destruct cur; [done|]. cbn in Hex. lia. }
  assert (Roles.is_candidate (registry st) role (Roles.lease_provider l) = Ok true) as Hcand.
  { unfold Roles.is_candidate, Roles.list_candidates, Roles._state. rewrite Hs. cbn [ok_or rbind]. f_equal.
    apply existsb_elem. apply list_elem_of_fmap in Hl as (c & -> & Hin). exists c. split; [done|]. by apply bool_decide_eq_true. }
  unfold regrant. rewrite Hcand. unfold on_registry. rewrite Ha. cbn [also].
  destruct (IH (set_registry r1 st) (cur ++ [l'])) as (r' & ls' & Hr & Hf & Hc & Hg).
  - by destruct Hf1.
  - change (registry (set_registry r1 st)) with r1. by rewrite (lf_roles _ _ _ Hf1).
  - done.
  - done.
  - intros E. specialize (Hex E). rewrite !length_app in *. cbn in *. lia.
  - exists r', (l' :: ls'). rewrite Hr. split; [done|]. split; [by eapply lease_frame_trans|].
    split; [by rewrite Hc, <- app_assoc|]. unfold grants in *. cbn. by rewrite Hp, Hh, Hg.
Qed.
End Registries.

(* ------------------------------------------------------------------ *)
(** ** What a section does *)

(** Writing the preferences is not an await: it cannot be cancelled. *)
Class SwitchingLaws `{Switching} : Prop := {
  persist_synchronous d e : persist_role_preferences d = Raise e -> exn_type e ≠ CancelledError;
}.

(** Nothing but the preference and the leases of [role] differs. *)
Record role_frame (role : pystr) (st st' : Selection) : Prop := {
  rf_wf : Roles.registry_wf (registry st');
  rf_roles : Roles._roles (registry st') = Roles._roles (registry st);
  rf_core : core_state st' = set_role_registry (registry st') (core_state st);
  rf_leases role' : role' ≠ role ->
    Roles.active_leases (registry st') role' = Roles.active_leases (registry st) role';
  rf_preferred role' : role' ≠ role ->
    Roles.preferred_provider (registry st') role' = Roles.preferred_provider (registry st) role';
  rf_overrides : dict_wf (role_preference_overrides st') /\ forall role', role' ≠ role ->
    dget (role_preference_overrides st') role' = dget (role_preference_overrides st) role';
}.

Lemma role_frame_trans role st1 st2 st3 : role_frame role st1 st2 -> role_frame role st2 st3 -> role_frame role st1 st3.
Proof.
  intros [_ A2 A3 A4 A5 [_ A6]] [B1 B2 B3 B4 B5 [B6 B7]]. constructor; [done|congruence|by rewrite B3, A3|..].
  - intros role' Hr. by rewrite B4, A4.
  - intros role' Hr. by rewrite B5, A5.
  - split; [done|]. intros role' Hr. by rewrite B7, A6.
Qed.

Lemma role_frame_refl role st : Roles.registry_wf (registry st) -> dict_wf (role_preference_overrides st) ->
  role_frame role st st.
Proof. intros Hwf Hd. constructor; try done. by destruct st as [[]]. Qed.

(** A change of leases only. *)
Lemma lease_role_frame role st r' : dict_wf (role_preference_overrides st) -> lease_frame role (registry st) r' ->
  role_frame role st (set_registry r' st).
Proof.
  intros Hd [F1 F2 F3 F4]. constructor; try done. intros role' _. unfold Roles.preferred_provider, Roles._state. cbn.
  by rewrite F2, F3.
Qed.

Section Sections.
Context {lib : PyLib} {repr : PyRepr} {switching : Switching} {laws : SwitchingLaws}.

Definition wanted (mode provider : pystr) : option pystr :=
  if bool_decide (mode = §"select") then Some provider else None.

(** A preference that is set, or forgotten. *)
Lemma select_frame role st r p x ov : Roles.registry_wf (registry st) ->
  Roles.select_preferred (registry st) role p = Ok (r, x) -> dict_wf ov ->
  (forall role', role' ≠ role -> dget ov role' = dget (role_preference_overrides st) role') ->
  role_frame role st (set_overrides ov (set_registry r st)) /\
  Roles.preferred_provider r role = Ok (Some p) /\
  forall role', Roles.active_leases r role' = Roles.active_leases (registry st) role'.
Proof.
  intros Hwf Hs Hd Hov. pose proof (Roles.select_wf _ _ _ _ _ Hwf Hs) as Hwf'. unfold Roles.select_preferred in Hs. inv_result.
  match goal with Hg : Roles.get_candidate _ _ _ = Ok _ |- _ => apply Roles.get_candidate_id in Hg as (s & Hst & _) end.
  split; [|split; [|done]].
  - constructor; [done|done|done|done| |done]. intros role' Hr. unfold Roles.preferred_provider, Roles._state. cbn.
    by rewrite dget_dset_ne.
  - unfold Roles.preferred_provider, Roles._state. cbn. by rewrite Hst, dget_dset_eq.
Qed.

Lemma reset_frame role st r x : Roles.registry_wf (registry st) -> dict_wf (role_preference_overrides st) ->
  Roles.reset_preferred (registry st) role = Ok (r, x) ->
  role_frame role st (set_overrides (ddel (role_preference_overrides st) role) (set_registry r st)) /\
  Roles.preferred_provider r role = Ok x /\
  (forall ids, Roles.candidate_ids (registry st) role = Ok ids -> x = head ids) /\
  forall role', Roles.active_leases r role' = Roles.active_leases (registry st) role'.
Proof.
  intros Hwf Hd Hs. pose proof (Roles.reset_wf _ _ _ _ Hwf Hs) as Hwf'. unfold Roles.reset_preferred in Hs. inv_result.
  split; [|split; [done|split; [|done]]].
  - constructor; [done|done|done|done| |].
    + intros role' Hr. unfold Roles.preferred_provider, Roles._state. cbn. rewrite dget_ddel by apply Hwf. by rewrite decide_False.
    + split; [by apply ddel_wf|]. intros role' Hr. cbn. rewrite dget_ddel by done. by rewrite decide_False.
  - intros ids Hids. match goal with Hp : Roles.preferred_provider _ _ = Ok _ |- _ => revert Hp end.
    unfold Roles.candidate_ids, Roles.list_candidates in Hids. unfold Roles.preferred_provider, Roles._state in *. cbn in *.
    destruct (dget (Roles._roles (registry st)) role) as [s|]; [|done]. cbn in *. injection Hids as <-.
    rewrite dget_ddel by apply Hwf. rewrite decide_True by done. intros [= <-]. by destruct (Roles.candidates s).
Qed.

Lemma change_preference_spec mode role provider st st' r : Roles.registry_wf (registry st) ->
  dict_wf (role_preference_overrides st) -> is_ok (Roles.get_candidate (registry st) role provider) = true ->
  change_preference mode role provider st = (st', r) ->
  match r with
  | Ok _ => role_frame role st st' /\ Roles.preferred_provider (registry st') role = Ok (Some provider) /\
            dget (role_preference_overrides st') role = wanted mode provider /\
            forall role', Roles.active_leases (registry st') role' = Roles.active_leases (registry st) role'
  | Raise e => st' = st /\ exn_type e ≠ CancelledError
  end.
Proof.
  intros Hwf Hd Hcand. unfold change_preference, wanted. case_bool_decide as Hm.
  - destruct (Roles.select_preferred _ role provider) as [[r1 x]|e] eqn:Hs; intros [= <- <-].
    + destruct (select_frame role st r1 provider x (dset (role_preference_overrides st) role provider) Hwf Hs) as (A & B & C).
      { by apply dset_wf. }
      { intros role' Hr. by apply dget_dset_ne. }
      split; [done|]. split; [done|]. split; [by apply dget_dset_eq|done].
    + unfold Roles.select_preferred in Hs. by destruct (Roles.get_candidate _ _ _).
  - case_bool_decide; [|by intros [= <- <-]].
    destruct (Roles.candidate_ids (registry st) role) as [ids|e] eqn:Hids.
    2:{ unfold Roles.get_candidate in Hcand. unfold Roles.candidate_ids in Hids. by destruct (Roles.list_candidates _ _). }
    destruct (negb _) eqn:Hh; [by intros [= <- <-]|]. bool_simp.
    destruct (Roles.reset_preferred _ role) as [[r1 x]|e] eqn:Hs; intros [= <- <-].
    + destruct (reset_frame role st r1 x Hwf Hd Hs) as (A & B & C & D). rewrite (C _ Hids), Hh in B.
      split; [done|]. split; [done|]. split; [|done]. cbn. rewrite dget_ddel by done. by rewrite decide_True.
    + unfold Roles.reset_preferred, Roles.preferred_provider, Roles._state in Hs. cbn in Hs.
      unfold Roles.get_candidate, Roles.list_candidates, Roles._state in Hcand.
      by destruct (dget (Roles._roles (registry st)) role).
Qed.
End Sections.

Section Attempts.
Context {lib : PyLib} {repr : PyRepr} {switching : Switching} {laws : SwitchingLaws}.

Lemma providers_of r role ls : Roles.active_leases r role = Ok ls ->
  Roles.active_providers r role = Ok (fromkeys (Roles.lease_provider <$> ls)).
Proof. intros H. unfold Roles.active_providers. by rewrite H. Qed.

Lemma candidate_state r role p : is_ok (Roles.get_candidate r role p) = true ->
  exists s, dget (Roles._roles r) role = Some s /\ p ∈ Roles.provider_id <$> Roles.candidates s.
Proof.
  destruct (Roles.get_candidate r role p) as [c|] eqn:Hc; [|done]. intros _. by apply Roles.get_candidate_id in Hc.
Qed.

Lemma move_lease_spec role provider gen old st : Roles.registry_wf (registry st) ->
  dict_wf (role_preference_overrides st) -> is_ok (Roles.get_candidate (registry st) role provider) = true ->
  Roles.active_provider (registry st) role = Ok old ->
  exists r', move_lease role provider gen old st = (set_registry r' st, Ok tt) /\
    lease_frame role (registry st) r' /\
    Roles.active_provider r' role = Ok (Some provider) /\
    (old ≠ Some provider -> exists l, Roles.active_leases r' role = Ok [l] /\ Roles.lease_provider l = provider /\
       Roles.holder l = Some (§"generation:" ++ dec_Z gen)).
Proof.
  intros Hwf Hd Hcand Hold. destruct (candidate_state _ _ _ Hcand) as (s & Hs & Hin). unfold move_lease.
  case_bool_decide as Heq.
  { exists (registry st). split; [by destruct st as [[]]|]. split; [by apply lease_frame_refl|]. split; [congruence|done]. }
  destruct (clear_role_spec role (registry st) s Hwf Hs) as (r1 & Hc & Hf1 & Hl1). unfold on_registry at 1. rewrite Hc. cbn [also].
  destruct (acquire_for_spec role provider (Some (§"generation:" ++ dec_Z gen)) r1 s [])
    as (r2 & l & Ha & Hf2 & Hl2 & Hp & Hh); [by destruct Hf1|by rewrite (lf_roles _ _ _ Hf1)|done..|].
  exists r2. unfold on_registry. change (registry (set_registry r1 st)) with r1. rewrite Ha. split; [done|].
  split; [by eapply lease_frame_trans|]. split; [|by intros _; exists l].
  unfold Roles.active_provider. by rewrite (providers_of _ _ _ Hl2), <- Hp.
Qed.

Lemma all_providers r : Roles.registry_wf r -> forall l, (forall role, role ∈ l -> is_Some (dget (Roles._roles r) role)) ->
  exists ps, mapR (Roles.active_providers r) l = Ok ps.
Proof.
  intros Hwf. induction l as [|x l IH]; intros Hl; [by eexists|]. cbn [mapR].
  destruct (Hl x (list_elem_of_here _ _)) as [s Hs]. destruct (Roles.active_leases_total _ _ _ Hwf Hs) as (ts & _ & Hal).
  rewrite (providers_of _ _ _ Hal). destruct IH as [ps ->]; [set_solver|]. by eexists.
Qed.

Lemma to_retire_spec provider old s : Roles.registry_wf (role_registry s) ->
  exists retire, to_retire provider old s = Ok retire /\ forall p n, retire = Some (p, n) ->
    p ≠ provider /\ old = Some p /\ dget (instances s) p = Some n /\
    forall role ps, Roles.active_providers (role_registry s) role = Ok ps -> p ∉ ps.
Proof.
  intros Hwf. unfold to_retire, still_active. destruct old as [p|]; [|by eexists].
  destruct (str_true p) eqn:Hp; [|by eexists]. cbn [negb].
  destruct (all_providers _ Hwf (Roles.list_roles (role_registry s))) as [ps Hps]; [intros role Hr; by apply dkeys_elem|].
  rewrite Hps. cbn [rbind]. eexists. split; [done|]. intros q n Hq.
  destruct (true && _ && _) eqn:Hc; [|done]. bool_simp. destruct (dget (instances s) p) as [n'|] eqn:Hn; [|done].
  injection Hq as <- <-. split; [done|]. split; [done|]. split; [done|]. intros role l Hl Hin.
  assert (role ∈ Roles.list_roles (role_registry s)) as Hr.
  { apply dkeys_elem. unfold Roles.active_providers, Roles.active_leases, Roles._state in Hl.
    by destruct (dget (Roles._roles (role_registry s)) role). }
  apply mapR_Ok in Hps. apply list_elem_of_lookup in Hr as [j Hj].
  destruct (Forall2_lookup_l _ _ _ _ _ Hps Hj) as (y & Hy & Hf). rewrite Hl in Hf. injection Hf as <-.
  assert (existsb (fun l => bool_decide (p ∈ l)) ps = true) as Hex; [|congruence].
  apply existsb_elem. exists l. split; [by eapply list_elem_of_lookup_2|by apply bool_decide_eq_true].
Qed.

Lemma summary_total s role : Roles.registry_wf (role_registry s) -> is_Some (dget (Roles._roles (role_registry s)) role) ->
  exists d, _role_summary role s = Ok d.
Proof.
  intros Hwf [st Hst]. unfold _role_summary, Roles.info, Roles.preferred_provider, Roles._state. rewrite Hst. cbn [ok_or rbind].
  destruct (Roles.active_leases_total _ _ _ Hwf Hst) as (ts & _ & Hal). rewrite Hal. cbn [rbind].
  rewrite (providers_of _ _ _ Hal). cbn [rbind]. by eexists.
Qed.

(** What a switch that went through has done. *)
Record switched (mode role provider : pystr) (gen : Z) (old : option pystr) (retire : option (pystr * nat))
    (st st' : Selection) : Prop := {
  sd_frame : role_frame role st st';
  sd_active : Roles.active_provider (registry st') role = Ok (Some provider);
  sd_preferred : Roles.preferred_provider (registry st') role = Ok (Some provider);
  sd_override : dget (role_preference_overrides st') role = wanted mode provider;
  sd_saved : persist_role_preferences (role_preference_overrides st') = Ok tt;
  sd_lease : old ≠ Some provider -> exists l, Roles.active_leases (registry st') role = Ok [l] /\
    Roles.lease_provider l = provider /\ Roles.holder l = Some (§"generation:" ++ dec_Z gen);
  sd_retire p n : retire = Some (p, n) -> p ≠ provider /\ old = Some p /\
    dget (instances (core_state st')) p = Some n /\
    forall role' ps, Roles.active_providers (registry st') role' = Ok ps -> p ∉ ps;
}.

Lemma attempt_spec mode role provider gen old st st' r : Roles.registry_wf (registry st) ->
  dict_wf (role_preference_overrides st) -> is_ok (Roles.get_candidate (registry st) role provider) = true ->
  Roles.active_provider (registry st) role = Ok old ->
  attempt mode role provider gen old st = (st', r) ->
  match r with
  | Ok (retire, _) => switched mode role provider gen old retire st st'
  | Raise e => role_frame role st st' /\ exn_type e ≠ CancelledError
  end.
Proof.
  intros Hwf Hd Hcand Hold. unfold attempt.
  destruct (change_preference mode role provider st) as [st1 [u|e]] eqn:Hc;
    apply (change_preference_spec _ _ _ _ _ _ Hwf Hd Hcand) in Hc; cbn [also].
  2:{ destruct Hc as [-> He]. intros [= <- <-]. split; [by apply role_frame_refl|done]. }
  destruct Hc as (F1 & P1 & O1 & L1). pose proof (rf_wf _ _ _ F1) as Hwf1.
  pose proof (rf_roles _ _ _ F1) as Hro1. destruct (rf_overrides _ _ _ F1) as [Hd1 _].
  assert (Roles.active_provider (registry st1) role = Ok old) as Hold1.
  { revert Hold. unfold Roles.active_provider, Roles.active_providers. by rewrite L1. }
  assert (is_ok (Roles.get_candidate (registry st1) role provider) = true) as Hcand1.
  { revert Hcand. unfold Roles.get_candidate, Roles.list_candidates, Roles._state. by rewrite Hro1. }
  destruct (move_lease_spec role provider gen old st1 Hwf1 Hd1 Hcand1 Hold1) as (r2 & -> & F2 & A2 & S2). cbn [also].
  pose proof (lease_role_frame role st1 r2 Hd1 F2) as F12. pose proof (role_frame_trans _ _ _ _ F1 F12) as F.
  assert (Roles.preferred_provider r2 role = Ok (Some provider)) as P2.
  { rewrite <- P1. unfold Roles.preferred_provider, Roles._state. by rewrite (lf_roles _ _ _ F2), (lf_preferred _ _ _ F2). }
  destruct (persist_role_preferences _) as [[]|e] eqn:Hper; cbn [rbind].
  2:{ intros [= <- <-]. split; [done|by eapply persist_synchronous]. }
  destruct (to_retire_spec provider old (core_state (set_registry r2 st1))) as (retire & -> & Hret); [by destruct F|]. cbn [rbind].
  destruct (summary_total (core_state (set_registry r2 st1)) role) as [d ->]; [by destruct F| |].
  { destruct (candidate_state _ _ _ Hcand) as (s & Hs & _). change (is_Some (dget (Roles._roles r2) role)).
    rewrite (lf_roles _ _ _ F2), Hro1, Hs. by eexists. }
  cbn [rbind]. intros [= <- <-]. by constructor.
Qed.

Lemma preferred_candidate r role p : Roles.registry_wf r -> is_ok (Roles.get_candidate r role p) = true ->
  exists q, Roles.preferred_provider r role = Ok (Some q) /\ is_ok (Roles.get_candidate r role q) = true.
Proof.
  intros Hwf Hp. destruct (candidate_state _ _ _ Hp) as (s & Hs & Hin).
  assert (exists q, Roles.preferred_provider r role = Ok (Some q) /\ q ∈ Roles.provider_id <$> Roles.candidates s) as (q & Hq & Hqin).
  { unfold Roles.preferred_provider, Roles._state. rewrite Hs. cbn [ok_or rbind].
    destruct (dget (Roles._preferred r) role) as [q|] eqn:Hq.
    - exists q. split; [done|]. destruct (Roles.rw_preferred _ Hwf _ _ Hq) as (s' & Hs' & Hc). congruence.
    - destruct (Roles.candidates s) as [|c cs]; [by apply not_elem_of_nil in Hin|]. exists (Roles.provider_id c).
      split; [done|]. by left. }
  exists q. split; [done|]. by destruct (Roles.get_candidate_complete r role s q Hs Hqin) as (c & -> & _).
Qed.

(** The rollback restores the preference, the durable choice and the leases
    of the registry it started from. *)
Lemma rollback_spec role p st0 st old_preferred old_leases : Roles.registry_wf (registry st0) ->
  is_ok (Roles.get_candidate (registry st0) role p) = true ->
  Roles.preferred_provider (registry st0) role = Ok old_preferred ->
  Roles.active_leases (registry st0) role = Ok old_leases -> role_frame role st0 st ->
  exists st', rollback role old_preferred (dget (role_preference_overrides st0) role) old_leases st = (st', Ok tt) /\
    role_frame role st0 st' /\
    Roles.preferred_provider (registry st') role = Ok old_preferred /\
    dget (role_preference_overrides st') role = dget (role_preference_overrides st0) role /\
    exists ls, Roles.active_leases (registry st') role = Ok ls /\ grants ls = grants old_leases.
Proof.
  intros Hwf0 Hp0 Hpref Hleases F. destruct (preferred_candidate _ _ _ Hwf0 Hp0) as (q & Hq & Hqc).
  rewrite Hq in Hpref. injection Hpref as <-. destruct (candidate_state _ _ _ Hp0) as (s & Hs & _).
  pose proof (rf_wf _ _ _ F) as Hwf. pose proof (rf_roles _ _ _ F) as Hro. destruct (rf_overrides _ _ _ F) as [Hd _].
  unfold rollback.
  destruct (Roles.select_preferred (registry st) role q) as [[r1 x]|e] eqn:Hsel.
  2:{ exfalso. revert Hqc Hsel. unfold Roles.select_preferred, Roles.get_candidate, Roles.list_candidates, Roles._state.
      rewrite Hro, Hs. cbn. by destruct (find_first _ _). }
  cbn [also]. set (old := dget (role_preference_overrides st0) role). set (st1 := restore_override role old (set_registry r1 st)).
  assert (role_frame role st st1 /\ dget (role_preference_overrides st1) role = old /\
          Roles.preferred_provider (registry st1) role = Ok (Some q)) as (F1 & O1 & P1).
  { unfold st1, restore_override. destruct old as [o|].
    - destruct (select_frame role st r1 q x (dset (role_preference_overrides st) role o) Hwf Hsel) as (A & B & _);
        [by apply dset_wf|intros role' Hr; by apply dget_dset_ne|]. split; [done|]. split; [by apply dget_dset_eq|done].
    - destruct (select_frame role st r1 q x (ddel (role_preference_overrides st) role) Hwf Hsel) as (A & B & _);
        [by apply ddel_wf|intros role' Hr; rewrite dget_ddel by done; by rewrite decide_False|]. split; [done|].
      split; [|done]. cbn. rewrite dget_ddel by done. by rewrite decide_True. }
  clearbody st1. pose proof (role_frame_trans _ _ _ _ F F1) as F01. clear F F1.
  destruct (clear_role_spec role (registry st1) s) as (r2 & Hc & F2 & L2); [by destruct F01|by rewrite (rf_roles _ _ _ F01)|].
  unfold on_registry. rewrite Hc. cbn [also].
  destruct (regrant_all_spec role s old_leases (set_registry r2 st1) []) as (r3 & ls & -> & F3 & L3 & G3).
  - by destruct F2.
  - change (dget (Roles._roles r2) role = Some s). by rewrite (lf_roles _ _ _ F2), (rf_roles _ _ _ F01).
  - apply Forall_forall. intros l Hl. destruct (Roles.active_leases_stored _ _ _ _ Hwf0 Hleases Hl) as [Hst Hrl].
    destruct (Roles.rw_candidates _ Hwf0 _ _ Hst) as (s' & Hs' & Hin). rewrite Hrl in Hs'. congruence.
  - done.
  - intros Hex. cbn [app]. destruct (Roles.active_leases_total _ _ _ Hwf0 Hs) as (ts & Hts & Hal).
    rewrite Hleases in Hal. injection Hal as ->. pose proof (Roles.rw_exclusive _ Hwf0 _ _ _ Hs Hex Hts) as Hlen.
    etransitivity; [|exact Hlen]. rewrite <- (length_fmap Roles.token), Roles.omap_leases_tokens; [done|done|].
    by eapply Roles.role_tokens_stored.
  - pose proof (lease_frame_trans _ _ _ _ F2 F3) as F23. destruct (rf_overrides _ _ _ F01) as [Hd1 _].
    eexists. split; [done|]. split; [eapply role_frame_trans; [exact F01|exact (lease_role_frame role st1 r3 Hd1 F23)]|].
    split; [|split; [exact O1|exists ls; by split]].
    rewrite <- P1. unfold Roles.preferred_provider, Roles._state. cbn.
    by rewrite (lf_roles _ _ _ F23), (lf_preferred _ _ _ F23).
Qed.
End Attempts.

(* ------------------------------------------------------------------ *)
(** ** Properties *)

Section Properties.
Context {lib : PyLib} {repr : PyRepr} {switching : Switching} {laws : SwitchingLaws}.

(** C18: a role switch is a transaction.  When it goes through, the provider is
    preferred and active, the durable choice is the one that was asked for and
    was written, a lease that had to move is held by the generation that was
    ready, and the provider to be retired held the lease before and holds no
    role any more.  When it fails, whatever failed, the preference, the durable
    choice and what the leases of the role grant are those of before.  No other
    role, and nothing else of Core, is touched in either case. *)
Theorem role_switch_is_a_transaction mode role provider epoch n st st' r :
  Roles.registry_wf (registry st) -> dict_wf (role_preference_overrides st) ->
  switch_section mode role provider epoch n st = (st', r) ->
  role_frame role st st' /\
  match r with
  | Ok TryAgain | Ok (Unchanged _) => st' = st
  | Ok (Switched retire _) => exists i old,
      heap (core_state st) !! n = Some i /\ ready i = true /\
      dget (component_objects (core_state st)) provider = Some (component_object i) /\
      Roles.active_provider (registry st) role = Ok old /\
      switched mode role provider (generation i) old retire st st'
  | Raise _ =>
      Roles.preferred_provider (registry st') role = Roles.preferred_provider (registry st) role /\
      dget (role_preference_overrides st') role = dget (role_preference_overrides st) role /\
      (grants <$> Roles.active_leases (registry st') role) = (grants <$> Roles.active_leases (registry st) role)
  end.
Proof.
  intros Hwf Hd. unfold switch_section. destruct (heap (core_state st) !! n) as [i|] eqn:Hi.
  2:{ intros [= <- <-]. by split; [apply role_frame_refl|]. }
  destruct (negb (catalog_epoch _ =? epoch)%Z); [intros [= <- <-]; by split; [apply role_frame_refl|]|].
  destruct (_ || negb (ready i)) eqn:Hguard; [intros [= <- <-]; by split; [apply role_frame_refl|]|].
  apply orb_false_iff in Hguard as [Hobj Hready]. bool_simp.
  destruct (Roles.get_candidate (registry st) role provider) as [cand|e] eqn:Hcand; cbn [rbind].
  2:{ intros [= <- <-]. by split; [apply role_frame_refl|]. }
  assert (is_ok (Roles.get_candidate (registry st) role provider) = true) as Hc by (by rewrite Hcand).
  destruct (candidate_state _ _ _ Hc) as (s & Hs & _).
  destruct (Roles.active_leases_total _ _ _ Hwf Hs) as (ts & _ & Hal).
  unfold Roles.active_provider at 1. rewrite (providers_of _ _ _ Hal), Hal. cbn [rbind].
  destruct (preferred_candidate _ _ _ Hwf Hc) as (q & Hq & _). rewrite Hq. cbn [rbind].
  set (ls := omap _ ts) in *. set (old := head (fromkeys (Roles.lease_provider <$> ls))).
  assert (Roles.active_provider (registry st) role = Ok old) as Hold.
  { unfold Roles.active_provider. by rewrite (providers_of _ _ _ Hal). }
  destruct (exact _ _ _ _ _ _).
  { destruct (summary_total (core_state st) role Hwf) as [d ->]; [by exists s|]. intros [= <- <-].
    by split; [apply role_frame_refl|]. }
  destruct (attempt mode role provider (generation i) old st) as [st1 [[retire d]|e]] eqn:Ha;
    apply (attempt_spec _ _ _ _ _ _ _ _ Hwf Hd Hc Hold) in Ha.
  { intros [= <- <-]. split; [by destruct Ha|]. by exists i, old. }
  destruct Ha as [F He]. rewrite bool_decide_eq_false_2 by done. cbn [negb].
  destruct (rollback_spec role provider st st1 (Some q) ls Hwf Hc Hq Hal F) as (st2 & -> & F2 & P2 & O2 & l2 & L2 & G2).
  cbn [also]. intros [= <- <-]. split; [done|]. split; [by rewrite P2|]. split; [done|]. rewrite L2. cbn. by rewrite G2.
Qed.

(** The outcome of the whole switch is the one of one of its sections, made
    for an instance that [ensure_ready] returned and for the catalog of that
    moment. *)
Theorem switch_role_ends attempts mode role provider st st' r :
  switch_attempts attempts mode role provider st = (st', r) ->
  match r with
  | Raise _ => True
  | Ok summary => exists epoch n st1 st2,
      ((switch_section mode role provider epoch n st1 = (st', Ok (Unchanged summary)) /\ st2 = st') \/
       exists retire before, switch_section mode role provider epoch n st1 = (st2, Ok (Switched retire before)) /\
         finish_switch role epoch retire before st2 = (st', Ok summary)) /\
      exists st0, ready_provider provider st0 = (st1, Ok n) /\ catalog_epoch (core_state st0) = epoch
  end.
Proof.
  revert st; induction attempts as [|a IH]; intros st; cbn [switch_attempts]; [by intros [= _ <-]|].
  destruct (Roles.get_candidate _ _ _); [|by intros [= _ <-]].
  destruct (ready_provider provider st) as [st1 [n|e]] eqn:Hr; cbn [also]; [|by intros [= _ <-]].
  destruct (switch_section mode role provider _ n st1) as [st2 [res|e]] eqn:Hs; cbn [also]; [|by intros [= _ <-]].
  destruct res as [|summary|retire before].
  - apply IH.
  - intros [= <- <-]. exists (catalog_epoch (core_state st)), n, st1, st2. split; [by left|by exists st].
  - intros Hf. destruct r as [d|]; [|done]. exists (catalog_epoch (core_state st)), n, st1, st2.
    split; [right; by exists retire, before|by exists st].
Qed.
End Properties.

(* ------------------------------------------------------------------ *)
(** ** Witnesses *)

Definition launcher_instance (m : Manifest.Component) (object : nat) : Instance :=
  {| component := m; component_object := object; generation := 3; process := None;
     sock := true; state := §"ready"; ready := true; started_at := 0; subscriptions := ∅;
     pending_calls := []; in_flight_calls := 0; idle_task := None; finalized := false;
     backoff_until := 0; transition_closing := false |}.

(** Two running launchers; the shell holds the role. *)
Definition launcher_supervisor : Supervisor :=
  {| heap := {[ 0%nat := launcher_instance (Manifest.sample_provider §"a.b" §"shell" [Roles.sample_role 1]) 0;
                1%nat := launcher_instance (Manifest.sample_provider §"c.d" §"home" [Roles.sample_role 5; Roles.sample_role 9]) 1 ]};
     instances := [(§"a.b:shell", 0%nat); (§"c.d:home", 1%nat)]; components := Roles.sample_components;
     component_objects := [(§"a.b:shell", 0%nat); (§"c.d:home", 1%nat); (§"e.f:desk", 2%nat)];
     role_registry := Roles.sample_leased; service_catalog := Services.make Roles.sample_components;
     catalog_epoch := 0; next_request_id := 1; stopping := false; stop_requests := ∅;
     foreground_stack := []; backgrounded_components := ∅; failure_history := [];
     quarantined := ∅; quarantine_times := []; recovery_allowed := None; idle_tasks := ∅;
     futures := ∅ |}.

Definition launchers : Selection := {| core_state := launcher_supervisor; role_preference_overrides := [] |}.

(** A flash memory that can be written, or not. *)
Definition flash (writable : bool) : Switching := {|
  ready_provider := fun k st => (st, match dget (instances (core_state st)) k with
                                     | Some n => Ok n | None => Raise (Exn KeyError k) end);
  retire_provider := fun _ _ st => (st, Some None);
  persist_role_preferences := fun _ => if writable then Ok tt else Raise (Exn OSError §"read-only file system");
|}.

Lemma flash_laws writable : @SwitchingLaws (flash writable).
Proof. constructor. intros d e. destruct writable; cbn; [discriminate|]. intros [= <-]. cbn. discriminate. Qed.

Lemma launchers_wf : Roles.registry_wf (registry launchers).
Proof. exact (Roles.reachable_wf _ Roles.sample_leased_reachable). Qed.

Definition switch_home (writable : bool) : Selection * py switch_result :=
  @switch_section (flash writable) §"select" §"launcher" §"c.d:home" 0 1 launchers.

(** The switch succeeds on a writable memory and is undone on another. *)
Lemma role_switch_is_a_transaction_witness :
  match switch_home true, switch_home false with
  | (st, Ok (Switched retire _)), (st', Raise e) =>
      retire = Some (§"a.b:shell", 0%nat) /\ exn_type e = OSError /\
      Roles.active_provider (registry st) §"launcher" = Ok (Some §"c.d:home") /\
      Roles.preferred_provider (registry st') §"launcher" = Ok (Some §"a.b:shell")
  | _, _ => False
  end.
Proof.
  destruct (switch_home true) as [st r] eqn:Hgood. destruct (switch_home false) as [st' r'] eqn:Hbad.
  pose proof (@role_switch_is_a_transaction (flash true) (flash_laws true) §"select" §"launcher" §"c.d:home" 0 1 launchers st r
                launchers_wf ltac:(constructor) Hgood) as [_ Hg].
  pose proof (@role_switch_is_a_transaction (flash false) (flash_laws false) §"select" §"launcher" §"c.d:home" 0 1 launchers st' r'
                launchers_wf ltac:(constructor) Hbad) as [_ Hb].
  assert (match r with Ok (Switched retire _) => retire = Some (§"a.b:shell", 0%nat) | _ => False end) as Hr.
  { change r with (st, r).2. rewrite <- Hgood. vm_compute. reflexivity. }
  assert (match r' with Raise e => exn_type e = OSError | Ok _ => False end) as Hr'.
  { change r' with (st', r').2. rewrite <- Hbad. vm_compute. reflexivity. }
  destruct r as [[| |retire summary]|]; try destruct Hr. destruct r' as [|e]; [destruct Hr'|].
  split; [reflexivity|]. split; [exact Hr'|]. destruct Hg as (i & old & _ & _ & _ & _ & Hsw).
  split; [by destruct Hsw|]. destruct Hb as [-> _]. vm_compute. reflexivity.
Defined.
End RoleSwitch.
