(* ===== verification/Messages.v ===== *)
(** * Component messages and the public client ([msys_core/msysd.py])

    The messages a component sends over its channel, the events Core passes on
    to subscribers, and the access control of the public control socket.  The
    packets Core sends are recorded in the order they leave; writing to a socket
    is the [Channel] interface, reloading the catalog the [Reload] interface. *)

From Stdlib Require Import ZArith.
From S2P Require Export Dispatch Restart.

Module Messages.
Import Msysd Calls Dispatch Restart.

(** [MAX_SUBSCRIPTIONS] *)
Definition MAX_SUBSCRIPTIONS : nat := 128.

(** A coroutine given to [_track_task]. *)
Inductive task :=
| DispatchCall (n : nat) (msg : response)
| RecoverDisplay (n : nat)
| WatchProcess (n : nat)
| ReadComponent (n : nat)
| ReadinessProbe (n : nat)
| StartWanted (source dependency : pystr)
| SpawnRetry (id : nat) (k : pystr) (delay : Z).

(** The supervisor with the packets it has sent and the tasks it has spawned. *)
Record World := {
  sup : Supervisor;
  sent : list (nat * response);
  spawned : list task;
}.

Definition set_sup (s : Supervisor) (w : World) : World :=
  {| sup := s; sent := sent w; spawned := spawned w |}.
Definition track_task (t : task) (w : World) : World :=
  {| sup := sup w; sent := sent w; spawned := spawned w ++ [t] |}.

(** [send_packet(instance.sock, packet)]: [OSError] from the socket,
    [ProtocolError] from the encoder. *)
Class Channel := { transmit : World -> nat -> response -> py unit }.

(** Whether [except Exception] catches it. *)
Definition caught (e : exn) : bool := negb (bool_decide (exn_type e = CancelledError)).

(** [reload_installed_components()], during which other tasks run, and the
    [code] attribute of what it raises. *)
Class Reload := {
  reload_installed_components : World -> World * py pyval;
  exception_code : exn -> option pystr;
}.

Section Handlers.
Context `{PyLib} `{PyRepr} `{Channel} `{Reload}.

Definition send_packet (n : nat) (packet : response) (w : World) : World * py unit :=
  match heap (sup w) !! n with
  | Some i =>
      if sock i
      then match transmit w n packet with
           | Ok _ => ({| sup := sup w; sent := sent w ++ [(n, packet)]; spawned := spawned w |}, Ok tt)
           | Raise e => (w, Raise e)
           end
      else (w, Raise (Exn AttributeError §"'NoneType' object has no attribute 'sendall'"))
  | None => (w, Ok tt)
  end.

(** [try: send_packet(...) except OSError: pass] *)
Definition send_or_log (n : nat) (packet : response) (w : World) : World * py unit :=
  match send_packet n packet w with
  | (w, Raise e) => (w, if is_os_error (exn_type e) then Ok tt else Raise e)
  | r => r
  end.

Definition _send_component_response (n : nat) (packet : response) (w : World) : World * py unit :=
  match heap (sup w) !! n with
  | Some i => if sock i then send_or_log n packet w else (w, Ok tt)
  | None => (w, Ok tt)
  end.

(* ------------------------------------------------------------------ *)
(** ** Events *)

Definition event_packet (topic : pystr) (payload : pyval) (source : pystr) : response :=
  [(§"type", VStr §"event"); (§"topic", VStr topic); (§"source", VStr source);
   (§"payload", payload)].

Definition listens (i : Instance) (topic : pystr) : bool :=
  existsb (fun pattern => Acl.subscription_matches pattern topic) (elements (subscriptions i))
  && sock i && ready i.

Fixpoint broadcast_to (targets : list nat) (topic : pystr) (packet : response) (w : World)
    : World * py unit :=
  match targets with
  | [] => (w, Ok tt)
  | n :: targets =>
      if match heap (sup w) !! n with Some i => listens i topic | None => false end
      then match send_or_log n packet w with
           | (w, Ok _) => broadcast_to targets topic packet w
           | (w, Raise e) => (w, Raise e)
           end
      else broadcast_to targets topic packet w
  end.

Definition broadcast (topic : pystr) (payload : pyval) (source : pystr) (w : World)
    : World * py unit :=
  if negb (Acl.valid_event_topic (VStr topic)) then (w, Ok tt)
  else broadcast_to (instances (sup w)).*2 topic (event_packet topic payload source) w.

(* ------------------------------------------------------------------ *)
(** ** Becoming ready *)

Definition _owns_active_display_output (n : nat) (i : Instance) (s : Supervisor) : bool :=
  _provides_display_output (component i) && is_current s (key i) n
  && match Roles.active_provider (role_registry s) DISPLAY_OUTPUT_ROLE with
     | Ok active => bool_decide (active = Some (key i))
     | Raise _ => false
     end.

(** One turn of the loop of [_lease_preferred_roles]. *)
Definition lease_preferred (i : Instance) (s : Supervisor) (info : Roles.RoleInfo) : Supervisor :=
  if bool_decide (Roles.info_preferred info = Some (key i))
     && bool_decide (Roles.info_active info = None)
  then match Roles.acquire (role_registry s) (Roles.info_name info) (Some (key i))
               (Some (§"generation:" ++ dec_Z (generation i))) with
       | Ok (r, _) => set_role_registry r s
       | Raise _ => s
       end
  else s.

Definition _lease_preferred_roles (n : nat) (s : Supervisor) : py Supervisor :=
  match heap s !! n with
  | None => Ok s
  | Some i =>
      if negb (component_current s i) then Ok s
      else infos ← Roles.list_role_info (role_registry s);
           Ok (foldl (lease_preferred i) s infos)
  end.

Definition _schedule_display_recovery (n : nat) (i : Instance) (w : World) : World :=
  if bool_decide (recovery_allowed (sup w) = None) || negb (ready i)
     || negb (_owns_active_display_output n i (sup w))
  then w
  else track_task (RecoverDisplay n) w.

Definition _component_became_ready (n : nat) (w : World) : World * py unit :=
  match _lease_preferred_roles n (sup w) with
  | Raise e => (w, Raise e)
  | Ok s =>
      let w := set_sup (_schedule_idle_task n s) w in
      match heap (sup w) !! n with
      | Some i =>
          (if _provides_display_output (component i) then _schedule_display_recovery n i w else w,
           Ok tt)
      | None => (w, Ok tt)
      end
  end.

(* ------------------------------------------------------------------ *)
(** ** The messages of a component *)

Definition reply_return (id : Z) (payload : pyval) : response :=
  [(§"type", VStr §"return"); (§"id", VInt id); (§"payload", payload)].

Definition topic_detail (topic : pyval) : pystr := take Acl.MAX_TOPIC_LENGTH (py_str topic).

(** Whether a subscription is accepted, and the answer. *)
Definition subscribe (i : Instance) (msg : response) : option pystr * option response :=
  let topic := dget_or msg §"topic" (VStr []) in
  match (if Acl.valid_subscription topic then as_str topic else None) with
  | None =>
      (None, Some (_component_error i msg §"BAD_SUBSCRIPTION" §"subscribe" (topic_detail topic) None))
  | Some t =>
      if negb (Acl.allows_event (VStr <$> Manifest.permissions (component i)) §"subscribe" t)
      then (None, Some (_access_denied i msg §"subscribe" t (Acl.event_permission §"subscribe" t)))
      else if negb (bool_decide (t ∈ subscriptions i))
              && (MAX_SUBSCRIPTIONS <=? size (subscriptions i))%nat
      then (None, Some (_component_error i msg §"SUBSCRIPTION_LIMIT" §"subscribe" t None))
      else (Some t,
            (fun id => reply_return id (VDict [(§"subscribed", VStr t)])) <$> _optional_request_id msg)
  end.

(** [{**dict(payload or {}), k: v}] *)
Definition with_field (payload : pyval) (k : pystr) (v : pyval) : py pyval :=
  d ← py_dict (py_or payload (VDict [])); Ok (VDict (dset d k v)).

Definition already_reloaded (payload : pyval) : bool :=
  match payload with
  | VDict d => match dget d §"registry_reloaded" with Some (VBool true) => true | _ => false end
  | _ => false
  end.

(** The payload of a package change, extended with what the reload did. *)
Definition announce_reload (payload : pyval) (w : World) : World * py pyval :=
  let '(w, changes) := reload_installed_components w in
  match (c ← changes; with_field payload §"registry_changes" c) with
  | Ok p => (w, Ok p)
  | Raise e =>
      if negb (caught e) then (w, Raise e)
      else
      (w, with_field payload §"registry_error"
            (VDict [(§"code", VStr (default §"CATALOG_RELOAD_FAILED" (exception_code e)));
                    (§"message", VStr (take 512 (exn_msg e)))]))
  end.

(** An event published by instance [n]. *)
Definition publish (n : nat) (i : Instance) (msg : response) (w : World) : World * py unit :=
  let topic := dget_or msg §"topic" (VStr []) in
  match (if Acl.valid_event_topic topic then as_str topic else None) with
  | None =>
      _send_component_response n
        (_component_error i msg §"BAD_EVENT_TOPIC" §"publish" (topic_detail topic) None) w
  | Some t =>
      if negb (Acl.allows_event (VStr <$> Manifest.permissions (component i)) §"publish" t)
      then _send_component_response n
             (_access_denied i msg §"publish" t (Acl.event_permission §"publish" t)) w
      else
        let payload := dget_or msg §"payload" (VDict []) in
        let '(w, payload) :=
          if bool_decide (t = §"msys.install.package_changed") && negb (already_reloaded payload)
          then announce_reload payload w
          else (w, Ok payload) in
        match payload with
        | Ok payload => broadcast t payload (key i) w
        | Raise e => (w, Raise e)
        end
  end.

Definition welcome (runtime_dir : pystr) (i : Instance) : response :=
  [(§"type", VStr §"welcome"); (§"component", VStr (key i)); (§"generation", VInt (generation i));
   (§"runtime_dir", VStr runtime_dir)].

Definition _handle_component_message (runtime_dir : pystr) (n : nat) (msg : response) (w : World)
    : World * py unit :=
  match heap (sup w) !! n with
  | None => (w, Ok tt)
  | Some i =>
      match dget msg §"type" with
      | None => (w, Raise (Exn KeyError §"type"))
      | Some type =>
          if eq_str type §"hello" then send_packet n (welcome runtime_dir i) w
          else if eq_str type §"ready"
          then _component_became_ready n
                 (set_sup (update n (fun i => set_state §"ready" (set_ready true i)) (sup w)) w)
          else if eq_str type §"subscribe"
          then
            let '(accepted, answer) := subscribe i msg in
            let w :=
              match accepted with
              | Some t => set_sup (update n (fun i => set_subscriptions ({[t]} ∪ subscriptions i) i)
                                     (sup w)) w
              | None => w
              end in
            match answer with
            | Some r => _send_component_response n r w
            | None => (w, Ok tt)
            end
          else if eq_str type §"event" then publish n i msg w
          else if (eq_str type §"return" || eq_str type §"error") && dhas msg §"id"
          then match _resolve_reply n msg (sup w) with
               | Ok s => (set_sup s w, Ok tt)
               | Raise e => (w, Raise e)
               end
          else if eq_str type §"call" then (track_task (DispatchCall n msg) w, Ok tt)
          else (w, Ok tt)
      end
  end.
End Handlers.

(* ------------------------------------------------------------------ *)
(** ** The public control socket *)

Record PeerCredentials := { peer_pid : Z; peer_uid : Z; peer_gid : Z }.

(** [os.getpgid] and [os.getsid]: [None] when the process is gone. *)
Class ProcessTable := { getpgid : Z -> option Z; getsid : Z -> option Z }.

Section Public.
Context `{PyLib} `{PyRepr} `{Activation} `{ProcessTable}.

(** The pid of the process an instance leads, when it has one. *)
Definition leader (i : Instance) : option Z :=
  match process i with
  | Some p => if (0 <? pid p)%Z then Some (pid p) else None
  | None => None
  end.

Definition instance_led_by (pids : list Z) (s : Supervisor) : option nat :=
  find_first (fun n => match heap s !! n ≫= leader with
                       | Some l => bool_decide (l ∈ pids)
                       | None => false
                       end) (instances s).*2.

Definition _managed_instance_for_peer (pid : Z) (s : Supervisor) : option nat :=
  match instance_led_by [pid] s with
  | Some n => Some n
  | None =>
      match getpgid pid, getsid pid with
      | Some g, Some sid => instance_led_by [g; sid] s
      | _, _ => None
      end
  end.

Definition _public_access_denied (msg : response) (reason : pystr) : response :=
  [(§"type", VStr §"error"); (§"id", VInt (default 0%Z (_optional_request_id msg)));
   (§"code", VStr ACCESS_DENIED);
   (§"message", VStr §"public control access requires an unmanaged root operator");
   (§"payload", VDict [(§"operation", VStr §"call"); (§"reason", VStr reason)])].

(** The client of an accepted connection: its credentials, or why the kernel
    did not give them, and the instance it belongs to. *)
Definition peer_identity (peer : result pystr PeerCredentials) (s : Supervisor)
    : result pystr (PeerCredentials * option nat) :=
  match peer with
  | Ok p => Ok (p, _managed_instance_for_peer (peer_pid p) s)
  | Raise e => Raise e
  end.

Context (core_call : response -> pystr -> Supervisor -> Supervisor * py response).

(** A request that was decoded, and what its [except Exception] makes of it. *)
Definition call_failed (msg : response) (e : exn) : response :=
  error_response (dget_or msg §"id" (VInt 0)) §"CALL_FAILED" (exn_msg e).

Definition dispatch_public (fuel : nat) (msg : response) (source : pystr) (s : Supervisor)
    : Supervisor * list delivery * option (py response) :=
  match dispatch_call core_call fuel msg source s with
  | (s, ds, Some (Raise e)) =>
      (s, ds, Some (if caught e then Ok (call_failed msg e) else Raise e))
  | r => r
  end.

(** The answer written back to a public client. *)
Definition public_response (fuel : nat) (identity : result pystr (PeerCredentials * option nat))
    (msg : response) (s : Supervisor) : Supervisor * list delivery * option (py response) :=
  if eq_str (dget_or msg §"type" VNone) §"call"
  then match identity with
       | Raise e => (s, [], Some (Ok (_public_access_denied msg (§"peer-credentials-unavailable:" ++ e))))
       | Ok (p, Some n) =>
           match heap s !! n with
           | None => (s, [], None)
           | Some i =>
               match _authorize_component_call s i msg with
               | Some denial => (s, [], Some (Ok denial))
               | None => dispatch_public fuel msg (key i) s
               end
           end
       | Ok (p, None) =>
           if (peer_uid p =? 0)%Z then dispatch_public fuel msg §"public" s
           else (s, [], Some (Ok (_public_access_denied msg §"unmanaged-peer-is-not-root")))
       end
  else (s, [], Some (Ok [(§"type", VStr §"error"); (§"id", dget_or msg §"id" (VInt 0));
                         (§"code", VStr §"BAD_PUBLIC_MESSAGE")])).
End Public.

(* ------------------------------------------------------------------ *)
(** ** What a handler may change *)

(** Every instance of [s'] is one of [s] with the same component and the same
    subscriptions. *)
Definition keeps_subscriptions (s s' : Supervisor) : Prop :=
  forall n i', heap s' !! n = Some i' ->
    exists i, heap s !! n = Some i /\ component i' = component i /\
              subscriptions i' = subscriptions i.

#[export] Instance keeps_subscriptions_preorder : PreOrder keeps_subscriptions.
Proof.
  split.
  - intros s n i Hi. eauto.
  - intros s1 s2 s3 H12 H23 n i3 Hi3. apply H23 in Hi3 as (i2 & Hi2 & Hc & Hs).
    apply H12 in Hi2 as (i1 & Hi1 & Hc' & Hs'). exists i1. split; [done|]. split; congruence.
Qed.

Lemma keeps_same_heap s s' : heap s' = heap s -> keeps_subscriptions s s'.
Proof. intros Heq n i'. rewrite Heq. eauto. Qed.

Lemma keeps_update n f s :
  (forall i, component (f i) = component i /\ subscriptions (f i) = subscriptions i) ->
  keeps_subscriptions s (update n f s).
Proof.
  intros Hf m i'. rewrite heap_update. case_decide; [|by eauto]. subst m. intros Hm.
  apply fmap_Some in Hm as (i & Hi & ->). destruct (Hf i). eauto.
Qed.

Lemma keeps_resolve f r s : keeps_subscriptions s (resolve f r s).
Proof. unfold resolve. destruct (futures s !! f) as [[]|]; try done. by apply keeps_same_heap. Qed.

Lemma keeps_schedule n s : keeps_subscriptions s (_schedule_idle_task n s).
Proof.
  unfold _schedule_idle_task. destruct (heap s !! n) as [i|]; [|done]. destruct (_ || _); [done|].
  assert (forall t v, keeps_subscriptions s (update n (set_idle_task t) (set_idle_tasks v s))) as Harm.
  { intros t v. transitivity (set_idle_tasks v s); [by apply keeps_same_heap|]. by apply keeps_update. }
  cbv zeta. destruct (idle_task i) as [t|]; [destruct (task_finished t s)|]; auto. done.
Qed.

Lemma lease_preferred_heap `{PyRepr} i s info : heap (lease_preferred i s info) = heap s.
Proof. unfold lease_preferred. by repeat case_match. Qed.

Lemma leases_heap n s s' : _lease_preferred_roles n s = Ok s' -> heap s' = heap s.
Proof.
  unfold _lease_preferred_roles. destruct (heap s !! n) as [i|]; [|by intros [= <-]].
  destruct (negb _); [by intros [= <-]|]. intros Hl. apply bind_Ok in Hl as (infos & _ & [= <-]).
  induction infos as [|info infos IH] using rev_ind; [done|].
  rewrite foldl_app. cbn. by rewrite lease_preferred_heap.
Qed.

(** The world moves on by sending packets that satisfy [P]. *)
Definition emits (P : nat -> response -> Prop) (w w' : World) : Prop :=
  sup w' = sup w /\ exists new, sent w' = sent w ++ new /\ Forall (fun q => P q.1 q.2) new.

Lemma emits_refl P w : emits P w w.
Proof. split; [done|]. exists []. by rewrite app_nil_r. Qed.

Lemma emits_trans P w1 w2 w3 : emits P w1 w2 -> emits P w2 w3 -> emits P w1 w3.
Proof.
  intros (Hs & l & Hl & Fl) (Hs' & k & Hk & Fk). split; [congruence|].
  exists (l ++ k). rewrite Hk, Hl, app_assoc. split; [done|]. by apply Forall_app.
Qed.

Lemma emits_mono (P Q : nat -> response -> Prop) w w' :
  (forall n p, P n p -> Q n p) -> emits P w w' -> emits Q w w'.
Proof.
  intros HPQ (Hs & l & Hl & Fl). split; [done|]. exists l. split; [done|].
  eapply Forall_impl; [exact Fl|]. auto.
Qed.

Section HandlerLemmas.
Context `{PyLib} `{PyRepr} `{Channel} `{Reload}.

Lemma send_packet_emits n packet w :
  emits (fun m p => m = n /\ p = packet) w (send_packet n packet w).1.
Proof.
  unfold send_packet. destruct (heap (sup w) !! n) as [i|]; [|apply emits_refl].
  destruct (sock i); [|apply emits_refl]. destruct (transmit w n packet); [|apply emits_refl].
  split; [done|]. exists [(n, packet)]. split; [done|]. by repeat constructor.
Qed.

Lemma send_or_log_emits n packet w :
  emits (fun m p => m = n /\ p = packet) w (send_or_log n packet w).1.
Proof.
  pose proof (send_packet_emits n packet w) as Hs. unfold send_or_log.
  by destruct (send_packet n packet w) as [w' []].
Qed.

Lemma send_response_emits n packet w :
  emits (fun m p => m = n /\ p = packet) w (_send_component_response n packet w).1.
Proof.
  unfold _send_component_response. destruct (heap (sup w) !! n) as [i|]; [|apply emits_refl].
  destruct (sock i); [apply send_or_log_emits|apply emits_refl].
Qed.

(** A packet reaches an instance that listens to its topic. *)
Definition to_listener (s : Supervisor) (targets : list nat) (topic : pystr) (m : nat) : Prop :=
  m ∈ targets /\ exists j, heap s !! m = Some j /\ listens j topic = true.

Lemma broadcast_to_emits targets topic packet w :
  emits (fun m p => p = packet /\ to_listener (sup w) targets topic m) w
    (broadcast_to targets topic packet w).1.
Proof.
  revert w; induction targets as [|n targets IH]; intros w; cbn [broadcast_to]; [apply emits_refl|].
  assert (forall w0, sup w0 = sup w ->
    emits (fun m p => p = packet /\ to_listener (sup w) (n :: targets) topic m) w0
      (broadcast_to targets topic packet w0).1) as Htail.
  { intros w0 Hw0. eapply emits_mono; [|apply IH]. intros m p (-> & Hm & Hj). rewrite Hw0 in Hj.
    split; [done|]. split; [by right|done]. }
  destruct (heap (sup w) !! n) as [j|] eqn:Hj; [|by apply Htail].
  destruct (listens j topic) eqn:Hl; [|by apply Htail].
  pose proof (send_or_log_emits n packet w) as Hsend.
  assert (emits (fun m p => p = packet /\ to_listener (sup w) (n :: targets) topic m) w
            (send_or_log n packet w).1) as Hsend'.
  { eapply emits_mono; [|exact Hsend]. intros m p [-> ->]. split; [done|]. split; [by left|eauto]. }
  destruct (send_or_log n packet w) as [w1 [u|e]]; [|exact Hsend'].
  eapply emits_trans; [exact Hsend'|]. apply Htail. apply Hsend.
Qed.

Lemma broadcast_emits topic payload source w :
  emits (fun m p => p = event_packet topic payload source /\
                    Acl.valid_event_topic (VStr topic) = true /\
                    to_listener (sup w) (instances (sup w)).*2 topic m)
    w (broadcast topic payload source w).1.
Proof.
  unfold broadcast. destruct (Acl.valid_event_topic (VStr topic)) eqn:Hv; [|apply emits_refl].
  eapply emits_mono; [|apply broadcast_to_emits]. intros m p [-> ?]. done.
Qed.

(* ------------------------------------------------------------------ *)
(** ** Subscriptions and deliveries stay within the declared permissions *)

Definition granted (i : Instance) : list pyval := VStr <$> Manifest.permissions (component i).

Definition subscriptions_ok (s : Supervisor) : Prop :=
  forall n i, heap s !! n = Some i ->
    (size (subscriptions i) <= MAX_SUBSCRIPTIONS)%nat /\
    forall p, p ∈ subscriptions i -> Acl.allows_event (granted i) §"subscribe" p = true.

Lemma keeps_ok s s' : keeps_subscriptions s s' -> subscriptions_ok s -> subscriptions_ok s'.
Proof.
  intros Hk Hok n i' Hi'. apply Hk in Hi' as (i & Hi & Hc & Hs). unfold granted.
  rewrite Hs, Hc. by apply (Hok n).
Qed.

(** While the catalog is reloaded the other tasks subscribe by the same rules. *)
Class ReloadLaws : Prop := {
  reload_subscriptions w w' r : reload_installed_components w = (w', r) ->
    subscriptions_ok (sup w) -> subscriptions_ok (sup w');
}.

(** An event packet that was authorised at both ends. *)
Definition authorised_event (i : Instance) (s : Supervisor) (m : nat) (p : response) : Prop :=
  exists topic payload j grant,
    p = event_packet topic payload (key i) /\
    Acl.allows_event (granted i) §"publish" topic = true /\
    heap s !! m = Some j /\ m ∈ (instances s).*2 /\ ready j = true /\
    Acl.event_permission §"subscribe" grant ∈ Acl.permission_set (granted j) /\
    Acl.subscription_matches grant topic = true.

Lemma listener_granted s m j topic :
  subscriptions_ok s -> heap s !! m = Some j -> listens j topic = true ->
  Acl.valid_event_topic (VStr topic) = true ->
  exists grant, Acl.event_permission §"subscribe" grant ∈ Acl.permission_set (granted j) /\
                Acl.subscription_matches grant topic = true.
Proof.
  intros Hok Hj Hl Hv. unfold listens in Hl. apply andb_true_iff in Hl as [Hl _].
  apply andb_true_iff in Hl as [Hl _]. apply existsb_elem in Hl as (p & Hp & Hm).
  apply elem_of_elements in Hp. apply (Hok m j Hj) in Hp.
  apply Acl.allows_event_iff in Hp as (_ & grant & Hg & Hc). exists grant.
  eauto using Acl.covers_sound.
Qed.

Lemma subscribe_accepts i msg t r : subscribe i msg = (Some t, r) ->
  Acl.allows_event (granted i) §"subscribe" t = true /\
  (t ∈ subscriptions i \/ (size (subscriptions i) < MAX_SUBSCRIPTIONS)%nat).
Proof.
  unfold subscribe. intros Hs.
  destruct (if Acl.valid_subscription _ then _ else _) as [t'|]; [|done].
  destruct (Acl.allows_event _ _ t') eqn:Ha; cbn [negb] in Hs; [|done].
  destruct (negb _ && _) eqn:Hb; [done|]. injection Hs as -> _. split; [done|].
  apply andb_false_iff in Hb as [Hb|Hb].
  - left. apply negb_false_iff in Hb. by apply bool_decide_eq_true in Hb.
  - right. by apply Nat.leb_gt in Hb.
Qed.

Lemma subscribe_ok n i t s :
  heap s !! n = Some i -> subscriptions_ok s ->
  Acl.allows_event (granted i) §"subscribe" t = true ->
  (t ∈ subscriptions i \/ (size (subscriptions i) < MAX_SUBSCRIPTIONS)%nat) ->
  subscriptions_ok (update n (fun i => set_subscriptions ({[t]} ∪ subscriptions i) i) s).
Proof.
  intros Hn Hok Ha Hlimit m j. rewrite heap_update. case_decide; [|by apply Hok]. subst m.
  rewrite Hn. intros [= <-]. destruct (Hok n i Hn) as [Hsize Hall]. cbn. split.
  - destruct (decide (t ∈ subscriptions i)) as [Hin|Hin].
    + by rewrite subseteq_union_1_L by set_solver.
    + destruct Hlimit; [done|]. rewrite size_union, size_singleton by set_solver. lia.
  - intros p [->%elem_of_singleton|Hp]%elem_of_union; [done|]. by apply Hall.
Qed.

Definition is_event (p : response) : bool := field_is p §"type" §"event".

(** A handler step: it keeps the subscriptions in order, and apart from what
    the reload sends, it answers instance [n] or passes authorised events on. *)
Definition handled (n : nat) (i : Instance) (w w' : World) : Prop :=
  subscriptions_ok (sup w') /\
  exists w1, (w1 = w \/ w1 = (reload_installed_components w).1) /\
    exists new, sent w' = sent w1 ++ new /\
      Forall (fun q => q.1 = n /\ is_event q.2 = false \/ authorised_event i (sup w') q.1 q.2) new.

Lemma handled_silent n i w w' :
  subscriptions_ok (sup w') -> sent w' = sent w -> handled n i w w'.
Proof.
  intros Hok Hs. split; [done|]. exists w. split; [by left|]. exists []. by rewrite app_nil_r.
Qed.

Lemma handled_emits n i r w w1 w2 :
  subscriptions_ok (sup w1) -> sent w1 = sent w -> is_event r = false ->
  emits (fun m p => m = n /\ p = r) w1 w2 -> handled n i w w2.
Proof.
  intros Hok Hs Hr (Hsup & new & Hnew & Hall).
  split; [by rewrite Hsup|]. exists w. split; [by left|]. exists new. rewrite Hnew, Hs.
  split; [done|]. eapply Forall_impl; [exact Hall|]. intros q [-> ->]. by left.
Qed.

Lemma subscribe_answer i msg t r : subscribe i msg = (t, Some r) -> is_event r = false.
Proof.
  unfold subscribe. intros Hs. repeat case_match; simplify_eq; try done.
  destruct (_optional_request_id msg); simplify_eq/=. done.
Qed.

Lemma became_ready_keeps n w :
  keeps_subscriptions (sup w) (sup (_component_became_ready n w).1) /\
  sent (_component_became_ready n w).1 = sent w.
Proof.
  unfold _component_became_ready. destruct (_lease_preferred_roles n (sup w)) as [s|e] eqn:Hl; [|done].
  apply leases_heap in Hl. assert (keeps_subscriptions (sup w) (_schedule_idle_task n s)) as Hk.
  { transitivity s; [by apply keeps_same_heap|apply keeps_schedule]. }
  cbn [sup set_sup]. unfold _schedule_display_recovery.
  by repeat case_match.
Qed.

Lemma announce_reload_sup payload w :
  (announce_reload payload w).1 = (reload_installed_components w).1.
Proof.
  unfold announce_reload. destruct (reload_installed_components w) as [w' c].
  by repeat case_match.
Qed.

Lemma handled_broadcast n i w w1 topic payload :
  subscriptions_ok (sup w1) ->
  (w1 = w \/ w1 = (reload_installed_components w).1) ->
  Acl.allows_event (granted i) §"publish" topic = true ->
  handled n i w (broadcast topic payload (key i) w1).1.
Proof.
  intros Hok Hw1 Ha. pose proof (broadcast_emits topic payload (key i) w1) as (Hsup & new & Hnew & Hall).
  split; [by rewrite Hsup|]. exists w1. split; [done|]. exists new. split; [done|].
  rewrite Hsup. eapply Forall_impl; [exact Hall|]. intros [m p] (Hp & Hv & Hm & j & Hj & Hl).
  cbn [fst snd] in *. right.
  destruct (listener_granted (sup w1) m j topic Hok Hj Hl Hv) as (grant & Hg & Hmatch).
  exists topic, payload, j, grant. unfold listens in Hl. apply andb_true_iff in Hl as [_ Hr]. done.
Qed.

Lemma handled_publish `{!ReloadLaws} n i msg w :
  subscriptions_ok (sup w) -> handled n i w (publish n i msg w).1.
Proof.
  intros Hok. unfold publish.
  destruct (if Acl.valid_event_topic _ then _ else _) as [t|].
  2:{ eapply handled_emits; [exact Hok|done| |apply send_response_emits]; done. }
  destruct (Acl.allows_event _ _ t) eqn:Ha; cbn [negb].
  2:{ eapply handled_emits; [exact Hok|done| |apply send_response_emits]; done. }
  cbv zeta. set (payload := dget_or msg _ _).
  destruct (if _ && _ then announce_reload payload w else _) as [w1 p] eqn:Hw1.
  assert (subscriptions_ok (sup w1) /\ (w1 = w \/ w1 = (reload_installed_components w).1)) as [Hok1 Hor].
  { destruct (_ && _); [|by injection Hw1 as <- <-; auto].
    assert (w1 = (reload_installed_components w).1) as ->.
    { by rewrite <- (announce_reload_sup payload), Hw1. }
    split; [|by right]. eapply reload_subscriptions; [apply surjective_pairing|done]. }
  destruct p as [p|e]; [by apply handled_broadcast|].
  split; [done|]. exists w1. split; [done|]. exists []. by rewrite app_nil_r.
Qed.

(** C13: the handler of a component's messages keeps every subscription within
    the [mipc.event:subscribe:] permissions of its component and their number
    within the limit.  An event packet it sends carries a topic its publisher
    may publish, under the publisher's own key, and goes to a ready current
    instance one of whose declared permissions matches the topic; any other
    packet goes back to the sender. *)
Theorem events_stay_within_grants `{!ReloadLaws} runtime_dir n i msg w :
  subscriptions_ok (sup w) -> heap (sup w) !! n = Some i ->
  handled n i w (_handle_component_message runtime_dir n msg w).1.
Proof.
  intros Hok Hn. unfold _handle_component_message. rewrite Hn.
  destruct (dget msg §"type") as [type|]; [|by apply handled_silent].
  destruct (eq_str type §"hello").
  { eapply handled_emits; [exact Hok|done| |apply send_packet_emits]; done. }
  destruct (eq_str type §"ready").
  { set (w1 := set_sup _ w). destruct (became_ready_keeps n w1) as [Hk Hs].
    apply handled_silent; [|done]. eapply keeps_ok; [exact Hk|].
    eapply keeps_ok; [|exact Hok]. by apply keeps_update. }
  destruct (eq_str type §"subscribe").
  { destruct (subscribe i msg) as [accepted answer] eqn:Hsub.
    set (w1 := match accepted with Some _ => _ | None => w end).
    assert (subscriptions_ok (sup w1) /\ sent w1 = sent w) as [Hok1 Hs1].
    { destruct accepted as [t|]; [|done]. apply subscribe_accepts in Hsub as [Ha Hl].
      split; [|done]. by eapply subscribe_ok. }
    destruct answer as [r|]; [|by apply handled_silent].
    eapply handled_emits; [exact Hok1|done| |apply send_response_emits].
    by eapply subscribe_answer. }
  destruct (eq_str type §"event"); [by apply handled_publish|].
  destruct (_ && _).
  { destruct (_resolve_reply n msg (sup w)) as [s|e] eqn:Hr; [|by apply handled_silent].
    apply handled_silent; [|done]. eapply keeps_ok; [|exact Hok]. cbn [sup set_sup].
    unfold _resolve_reply in Hr. rewrite Hn in Hr. apply bind_Ok in Hr as (id & _ & [= <-]).
    destruct (dget (pending_calls i) id); [|done].
    etransitivity; [|apply keeps_resolve]. by apply keeps_update. }
  destruct (eq_str type §"call"); by apply handled_silent.
Qed.

(* ------------------------------------------------------------------ *)
(** ** Every subscriber is served *)

Definition listening (s : Supervisor) (topic : pystr) (n : nat) : bool :=
  match heap s !! n with Some i => listens i topic | None => false end.

(** The current instances that listen to a topic, in catalog order. *)
Definition listeners (s : Supervisor) (topic : pystr) : list nat :=
  List.filter (listening s topic) (instances s).*2.

Lemma broadcast_to_reaches targets topic packet w :
  (forall w' n e, transmit w' n packet = Raise e -> is_os_error (exn_type e) = true) ->
  exists reached, broadcast_to targets topic packet w =
      ({| sup := sup w; sent := sent w ++ ((fun n => (n, packet)) <$> reached);
          spawned := spawned w |}, Ok tt) /\
    reached `sublist_of` List.filter (listening (sup w) topic) targets /\
    (forall n, n ∈ List.filter (listening (sup w) topic) targets ->
     n ∈ reached \/ exists w' e, transmit w' n packet = Raise e).
Proof.
  intros Hos. revert w; induction targets as [|n targets IH]; intros w.
  { exists []. cbn. rewrite app_nil_r. split; [by destruct w|]. split; [done|]. by intros n ?%not_elem_of_nil. }
  cbn [broadcast_to List.filter]. change (match heap (sup w) !! n with Some i => listens i topic | None => false end)
    with (listening (sup w) topic n).
  destruct (listening (sup w) topic n) eqn:Hl; [|apply IH].
  unfold listening in Hl. unfold send_or_log, send_packet. destruct (heap (sup w) !! n) as [i|]; [|done].
  assert (sock i = true) as ->.
  { unfold listens in Hl. apply andb_true_iff in Hl as [Hl _]. by apply andb_true_iff in Hl as [_ Hl]. }
  destruct (transmit w n packet) as [[]|e] eqn:Ht.
  - destruct (IH {| sup := sup w; sent := sent w ++ [(n, packet)]; spawned := spawned w |})
      as (reached & -> & Hsub & Hall). exists (n :: reached). cbn [sup sent spawned] in *.
    rewrite <- app_assoc. split; [done|]. split; [by constructor|].
    intros m [->|Hm]%elem_of_cons; [by left; left|]. destruct (Hall m Hm); [left; by right|by right].
  - rewrite (Hos _ _ _ Ht). destruct (IH w) as (reached & -> & Hsub & Hall).
    exists reached. split; [done|]. split; [by constructor|].
    intros m [->|Hm]%elem_of_cons; [right; eauto|auto].
Qed.

(** Broadcasting a valid topic while sockets fail only with [OSError]
    never raises, sends exactly that event packet, in catalog order and at most
    once to each listening instance, and to every one of them unless its own
    socket failed; nothing else of the supervisor changes. *)
Theorem broadcast_reaches_listeners topic payload source w :
  Acl.valid_event_topic (VStr topic) = true ->
  let packet := event_packet topic payload source in
  (forall w' n e, transmit w' n packet = Raise e -> is_os_error (exn_type e) = true) ->
  exists reached, broadcast topic payload source w =
      ({| sup := sup w; sent := sent w ++ ((fun n => (n, packet)) <$> reached);
          spawned := spawned w |}, Ok tt) /\
    reached `sublist_of` listeners (sup w) topic /\
    (forall n, n ∈ listeners (sup w) topic ->
     n ∈ reached \/ exists w' e, transmit w' n packet = Raise e).
Proof.
  intros Hv packet Hos. unfold broadcast. rewrite Hv. cbn [negb]. by apply broadcast_to_reaches.
Qed.
End HandlerLemmas.

(* ------------------------------------------------------------------ *)
(** ** Who may use the public socket *)

Section PublicAccess.
Context `{PyLib} `{PyRepr} `{Activation} `{ProcessTable}.

(** The peer is the process of a current instance, or in its process group or
    session. *)
Definition belongs_to (pid : Z) (s : Supervisor) (n : nat) : Prop :=
  n ∈ (instances s).*2 /\
  exists i l, heap s !! n = Some i /\ leader i = Some l /\
    (l = pid \/ exists g sid, getpgid pid = Some g /\ getsid pid = Some sid /\ (l = g \/ l = sid)).

Lemma led_by_Some pids s n : instance_led_by pids s = Some n ->
  n ∈ (instances s).*2 /\ exists i l, heap s !! n = Some i /\ leader i = Some l /\ l ∈ pids.
Proof.
  intros Hf. apply find_first_Some in Hf as [Hin Hp]. split; [done|].
  destruct (heap s !! n) as [i|] eqn:Hi; [|done]. cbn in Hp.
  destruct (leader i) as [l|] eqn:Hl; [|done]. apply bool_decide_eq_true in Hp. eauto.
Qed.

Lemma led_by_None pids s n i l : instance_led_by pids s = None ->
  n ∈ (instances s).*2 -> heap s !! n = Some i -> leader i = Some l -> l ∉ pids.
Proof.
  intros Hf Hin Hi Hl Hp. unfold instance_led_by in Hf. rewrite find_first_None in Hf.
  specialize (Hf n Hin). rewrite Hi in Hf. cbn in Hf. rewrite Hl in Hf.
  by apply bool_decide_eq_false in Hf.
Qed.

Lemma managed_instance_spec pid s :
  match _managed_instance_for_peer pid s with
  | Some n => belongs_to pid s n
  | None => forall n, ~ belongs_to pid s n
  end.
Proof.
  unfold _managed_instance_for_peer. destruct (instance_led_by [pid] s) as [n|] eqn:Hd.
  { apply led_by_Some in Hd as (Hin & i & l & Hi & Hl & Hp%list_elem_of_singleton).
    split; [done|]. exists i, l. auto. }
  assert (forall g sid, getpgid pid = Some g -> getsid pid = Some sid ->
    match instance_led_by [g; sid] s with
    | Some n => belongs_to pid s n
    | None => forall n, ~ belongs_to pid s n
    end) as Hgroup.
  { intros g sid Hg Hs. destruct (instance_led_by [g; sid] s) as [n|] eqn:Hgs.
    - apply led_by_Some in Hgs as (Hin & i & l & Hi & Hl & Hp). split; [done|].
      exists i, l. split; [done|]. split; [done|]. right. exists g, sid. set_solver.
    - intros n (Hin & i & l & Hi & Hl & [->|(g' & sid' & Hg' & Hs' & Hor)]).
      + pose proof (led_by_None _ _ _ _ _ Hd Hin Hi Hl). set_solver.
      + pose proof (led_by_None _ _ _ _ _ Hgs Hin Hi Hl). simplify_eq. set_solver. }
  assert ((getpgid pid = None \/ getsid pid = None) -> forall n, ~ belongs_to pid s n) as Hgone.
  { intros Hgone n (Hin & i & l & Hi & Hl & [->|(g & sid & Hg & Hs & _)]); [|naive_solver].
    pose proof (led_by_None _ _ _ _ _ Hd Hin Hi Hl). set_solver. }
  destruct (getpgid pid) as [g|] eqn:Hg; [|by apply Hgone; left].
  destruct (getsid pid) as [sid|] eqn:Hs; [by apply Hgroup|by apply Hgone; right].
Qed.

Definition denied (r : option (py response)) : Prop :=
  exists d, r = Some (Ok d) /\ is_error d = true /\ error_code d = ACCESS_DENIED.

Lemma denial_denied msg reason : denied (Some (Ok (_public_access_denied msg reason))).
Proof. eexists. split; [done|]. by split. Qed.

(** C14: who may call Core over its public socket.  [s0] is the supervisor when
    the connection was accepted, [s] when its request was read.  A client whose
    process belongs to a supervised instance acts with the permissions of that
    component and under its name, even when it is root; any other client must
    be root; everybody else, and a client the kernel does not identify, is
    answered [ACCESS_DENIED] without any effect. *)
Theorem public_control_access core_call fuel peer msg s0 s :
  dget msg §"type" = Some (VStr §"call") ->
  let respond := public_response core_call fuel (peer_identity peer s0) msg s in
  match peer with
  | Raise _ => respond.1 = (s, []) /\ denied respond.2
  | Ok p =>
      (exists n, belongs_to (peer_pid p) s0 n /\ forall i, heap s !! n = Some i ->
         (authorised s i msg /\ respond = dispatch_public core_call fuel msg (key i) s \/
          ~ authorised s i msg /\ respond.1 = (s, []) /\ denied respond.2)) \/
      (forall n, ~ belongs_to (peer_pid p) s0 n) /\
      (peer_uid p = 0%Z /\ respond = dispatch_public core_call fuel msg §"public" s \/
       peer_uid p ≠ 0%Z /\ respond.1 = (s, []) /\ denied respond.2)
  end.
Proof.
  intros Htype respond. unfold respond, public_response. clear respond.
  assert (eq_str (dget_or msg §"type" VNone) §"call" = true) as ->.
  { unfold dget_or. by rewrite Htype. }
  destruct peer as [p|e]; cbn [peer_identity]; [|split; [done|by apply denial_denied]].
  pose proof (managed_instance_spec (peer_pid p) s0) as Hm.
  destruct (_managed_instance_for_peer (peer_pid p) s0) as [n|].
  - left. exists n. split; [done|]. intros i Hi. rewrite Hi.
    pose proof (authorize_spec s i msg) as Ha. destruct (_authorize_component_call s i msg) as [d|].
    + right. destruct Ha as (Hn & He & Hc). split; [done|]. split; [done|]. by exists d.
    + by left.
  - right. split; [done|]. destruct (peer_uid p =? 0)%Z eqn:Hu.
    + left. by apply Z.eqb_eq in Hu.
    + right. apply Z.eqb_neq in Hu. split; [done|]. split; [done|]. apply denial_denied.
Qed.
End PublicAccess.

(* ------------------------------------------------------------------ *)
(** ** Witnesses *)

(** Sockets that accept every packet, and a catalog that never changes. *)
#[export] Instance open_sockets : Channel := {| transmit _ _ _ := Ok tt |}.
#[export] Instance same_catalog : Reload :=
  {| reload_installed_components w := (w, Ok VNone); exception_code _ := None |}.
#[export] Instance same_catalog_laws : ReloadLaws.
Proof. split. by intros w w' r [= <- _]. Qed.

Definition sample_peer (cid : pystr) (permissions : list pystr) : Manifest.Component := {|
  Manifest.package_id := §"p"; Manifest.package_version := §"1"; Manifest.id := cid;
  Manifest.exec := [§"/bin/true"]; Manifest.lifecycle := §"manual";
  Manifest.package_kind := §"application"; Manifest.package_name := §"p";
  Manifest.package_icons := []; Manifest.runtime := §"custom"; Manifest.restart := §"never";
  Manifest.idle_timeout_ms := None; Manifest.cwd := None; Manifest.env := [];
  Manifest.readiness_mode := §"mipc-ready"; Manifest.readiness_timeout_ms := 5000;
  Manifest.provides := []; Manifest.requires := []; Manifest.wants := []; Manifest.after := [];
  Manifest.windowing := []; Manifest.activation := []; Manifest.permissions := permissions;
  Manifest.isolation := Isolation.spec_default; Manifest.raw := []; Manifest.manifest_path := None;
  Manifest.package_summary := []; Manifest.package_i18n := VNone |}.

Definition peer_instance (c : Manifest.Component) (object : nat) (topics : gset pystr) (p : Z)
    : Instance :=
  {| component := c; component_object := object; generation := 1;
     process := Some {| pid := p; returncode := None |}; sock := true; state := §"ready";
     ready := true; started_at := 0; subscriptions := topics; pending_calls := [];
     in_flight_calls := 0; idle_task := None; finalized := false; backoff_until := 0;
     transition_closing := false |}.

Definition sample_publisher : Instance :=
  peer_instance (sample_peer §"hal" [§"mipc.event:publish:org.demo.*"]) 0 ∅ 40.
Definition sample_subscriber : Instance :=
  peer_instance (sample_peer §"bar" [§"mipc.event:subscribe:org.*"]) 1 {[§"org.demo.*"]} 50.

Definition peers_supervisor : Supervisor :=
  {| heap := {[ 0%nat := sample_publisher; 1%nat := sample_subscriber ]};
     instances := [(§"p:hal", 0%nat); (§"p:bar", 1%nat)];
     components := [(§"p:hal", component sample_publisher); (§"p:bar", component sample_subscriber)];
     component_objects := [(§"p:hal", 0%nat); (§"p:bar", 1%nat)];
     role_registry := Roles.sample_registry; service_catalog := Services.make [];
     catalog_epoch := 0; next_request_id := 1; stopping := false; stop_requests := ∅;
     foreground_stack := []; backgrounded_components := ∅; failure_history := [];
     quarantined := ∅; quarantine_times := []; recovery_allowed := None; idle_tasks := ∅;
     futures := ∅ |}.

Definition peers_world : World := {| sup := peers_supervisor; sent := []; spawned := [] |}.

Lemma peers_ok : subscriptions_ok peers_supervisor.
Proof.
  intros n i. cbn. intros [[<- <-]|[_ [<- <-]%lookup_singleton_Some]]%lookup_insert_Some.
  - split; [vm_compute; lia|]. intros p Hp. cbn in Hp. set_solver.
  - split; [vm_compute; lia|]. intros p Hp. change (p ∈ ({[§"org.demo.*"]} : gset pystr)) in Hp.
    apply elem_of_singleton in Hp as ->. vm_compute. reflexivity.
Qed.

Definition sample_event : response :=
  [(§"type", VStr §"event"); (§"topic", VStr §"org.demo.battery"); (§"payload", VInt 3)].

Definition sample_packet : response := event_packet §"org.demo.battery" (VInt 3) §"p:hal".

Lemma events_stay_within_grants_witness :
  exists p, sent (_handle_component_message §"/run" 0 sample_event peers_world).1 = [(1%nat, p)] /\
    authorised_event sample_publisher peers_supervisor 1 p.
Proof.
  pose proof (events_stay_within_grants §"/run" 0 sample_publisher sample_event peers_world) as Hh.
  destruct (Hh peers_ok eq_refl) as [_ (w1 & Hw1 & new & Hsent & Hnew)]. clear Hh.
  assert (w1 = peers_world) as -> by (destruct Hw1 as [->| ->]; reflexivity).
  assert (sent (_handle_component_message §"/run" 0 sample_event peers_world).1
          = [(1%nat, sample_packet)]) as Hp by (vm_compute; reflexivity).
  rewrite Hp in Hsent. cbn [sent peers_world app] in Hsent. subst new.
  exists sample_packet. split; [exact Hp|]. apply Forall_cons in Hnew as [[[Hq _]|Hq] _]; [|exact Hq].
  discriminate Hq.
Defined.

Lemma broadcast_reaches_listeners_witness :
  sent (broadcast §"org.demo.battery" VNone §"msys.core" peers_world).1
  = [(1%nat, event_packet §"org.demo.battery" VNone §"msys.core")].
Proof.
  assert (listeners (sup peers_world) §"org.demo.battery" = [1%nat]) as Hl by (vm_compute; reflexivity).
  assert (forall (w' : World) (n : nat) e,
    transmit w' n (event_packet §"org.demo.battery" VNone §"msys.core") = Raise e ->
    is_os_error (exn_type e) = true) as Hos by (intros w' n e He; discriminate He).
  assert (Acl.valid_event_topic (VStr §"org.demo.battery") = true) as Hv by (vm_compute; reflexivity).
  pose proof (broadcast_reaches_listeners §"org.demo.battery" VNone §"msys.core" peers_world Hv Hos) as Hb.
  rewrite Hl in Hb. destruct Hb as (reached & Hb & Hsub & Hall). rewrite Hb. cbn [fst sent].
  assert (reached = [1%nat]) as ->; [|reflexivity].
  destruct (Hall 1%nat) as [Hin|(w' & e & He)]; [by left| |discriminate He].
  apply sublist_cons_r in Hsub as [Hnil|(l & -> & Hl')].
  - apply sublist_nil_r in Hnil as ->. destruct (not_elem_of_nil _ Hin).
  - by apply sublist_nil_r in Hl' as ->.
Defined.

#[local] Instance no_groups : ProcessTable := {| getpgid _ := None; getsid _ := None |}.

Definition public_call : response := [(§"type", VStr §"call"); (§"target", VStr §"msys.core")].

(** Root in a supervised process is not an operator. *)
Lemma public_control_access_witness :
  denied (@public_response _ _ Dispatch.silent no_core 1
    (peer_identity (Ok {| peer_pid := 50; peer_uid := 0; peer_gid := 0 |}) peers_supervisor)
    public_call peers_supervisor).2.
Proof.
  destruct (@public_control_access _ _ silent _ no_core 1
      (Ok {| peer_pid := 50; peer_uid := 0; peer_gid := 0 |}) public_call
      peers_supervisor peers_supervisor eq_refl) as [(n & Hn & Hr)|[Hnone _]].
  - assert (n = 1%nat) as ->.
    { destruct Hn as (Hin & i & l & Hi & Hl & [->|(g & sid & Hg & _)]); [|discriminate Hg].
      cbn in Hi. apply lookup_insert_Some in Hi as [[<- <-]|[_ [<- _]%lookup_singleton_Some]];
        [vm_compute in Hl; discriminate Hl|reflexivity]. }
    destruct (Hr sample_subscriber) as [[Ha _]|(_ & _ & Hd)]; [vm_compute; reflexivity| |exact Hd].
    exfalso. destruct Ha as [Ha|(k & c & p & Ht & _)]; [vm_compute in Ha; discriminate Ha|].
    apply (f_equal (firstn 1)) in Ht. vm_compute in Ht. discriminate Ht.
  - exfalso. apply (Hnone 1%nat). split; [apply (bool_decide_unpack _); vm_compute; exact I|].
    exists sample_subscriber, 50%Z. split; [reflexivity|]. split; [reflexivity|]. by left.
Defined.
End Messages.
