(* ===== verification/PublicSocket.v ===== *)
(** * A connection to the public socket ([_handle_public_client] in [msys_core/msysd.py])

    The credentials the kernel gives for a client, the one line it sends, the
    line it is answered with and how the connection ends; the answer itself is
    [Messages.public_response]. *)

From Stdlib Require Import ZArith.
From S2P Require Export Protocol Messages.

Module PublicSocket.
Import Json Protocol Msysd Calls Dispatch Messages.

(* ------------------------------------------------------------------ *)
(** ** Credentials *)

(** What [getsockopt(SOL_SOCKET, SO_PEERCRED, 12)] gave: the socket or the
    option may be missing, the call may fail, and the value is bytes or not. *)
Inductive peercred :=
| NoSocket
| Failed (e : exn)
| NotBytes
| Record_bytes (raw : list N).

(** A native [int] of a little-endian machine. *)
Definition int32 (a b c d : N) : Z :=
  let u := Z.of_N (a + 256 * b + 65536 * c + 16777216 * d) in
  if (u <? 2147483648)%Z then u else (u - 4294967296)%Z.

(** [struct.unpack("3i", raw)] *)
Definition unpack_3i (raw : list N) : option (Z * Z * Z) :=
  match raw with
  | [a0; a1; a2; a3; b0; b1; b2; b3; c0; c1; c2; c3] =>
      Some (int32 a0 a1 a2 a3, int32 b0 b1 b2 b3, int32 c0 c1 c2 c3)
  | _ => None
  end.

Definition os_error (m : pystr) : exn := Exn OSError m.

(** [except (AttributeError, TypeError, ValueError, struct.error)] *)
Definition lookup_error (e : exn) : bool :=
  bool_decide (exn_type e ∈ [AttributeError; TypeError]) || is_value_error (exn_type e).

Definition _public_peer_credentials (peer : peercred) : py PeerCredentials :=
  match peer with
  | NoSocket => Raise (os_error §"SO_PEERCRED is unavailable")
  | Failed e =>
      if is_os_error (exn_type e) then Raise e
      else if lookup_error e then Raise (os_error (§"SO_PEERCRED lookup failed: " ++ exn_msg e))
      else Raise e
  | NotBytes => Raise (os_error §"SO_PEERCRED returned an invalid record")
  | Record_bytes raw =>
      match unpack_3i raw with
      | None => Raise (os_error §"SO_PEERCRED returned an invalid record")
      | Some (pid, uid, gid) =>
          if (pid <=? 0)%Z || (uid <? 0)%Z || (gid <? 0)%Z
          then Raise (os_error §"SO_PEERCRED returned invalid credentials")
          else Ok {| peer_pid := pid; peer_uid := uid; peer_gid := gid |}
      end
  end.

(* ------------------------------------------------------------------ *)
(** ** The connection *)

Definition newline : N := 10.

(** [bytes.strip()] *)
Definition blank_byte (b : N) : bool := one_of [32; 9; 10; 13; 11; 12] b.
Definition strip_left (data : list N) : list N := (str_span blank_byte data).2.
Definition strip_bytes (data : list N) : list N := reverse (strip_left (reverse (strip_left data))).

(** [{"type":"welcome","component":"public","generation":0}] and a newline. *)
Definition welcome : list N :=
  str_replace_c 39 34 §"{'type':'welcome','component':'public','generation':0}" ++ [newline].

(** The client's line, and the errors of [drain] after the welcome and after the
    answer. *)
Class Stream := {
  readline : py (list N);
  drain_welcome : option exn;
  drain_answer : option exn;
}.

(** What was written to the client, and the exception that leaves the handler,
    if any: connection errors do not. *)
Record closing := { sent : list (list N); escaped : option exn }.

Definition closed (sent : list (list N)) (r : py unit) : closing :=
  {| sent := sent;
     escaped := match r with
                | Raise e => if is_os_error (exn_type e) then None else Some e
                | Ok _ => None
                end |}.

Definition drained (fault : option exn) : py unit :=
  match fault with Some e => Raise e | None => Ok tt end.

Section PublicSocket.
Context `{PyLib} `{PyRepr} `{Activation} `{ProcessTable} `{JsonLib} `{Stream}.
Context (core_call : response -> pystr -> Supervisor -> Supervisor * py response).

(** The request, if the client sent one. *)
Definition read_request : py (option response) :=
  drained drain_welcome;;
  data ← readline;
  match data with
  | [] => Ok None
  | _ => msg ← decode (strip_bytes data); Ok (Some msg)
  end.

(** The answer is encoded before anything of it is written. *)
Definition write_answer (r : response) : closing :=
  match encode r with
  | Raise e => closed [welcome] (Raise e)
  | Ok data => closed [welcome; data ++ [newline]] (drained drain_answer)
  end.

(** From the welcome to the end.  No closing yet while the call is awaited. *)
Definition converse (fuel : nat) (client : result pystr (PeerCredentials * option nat)) (s : Supervisor)
    : Supervisor * list delivery * option closing :=
  match read_request with
  | Raise e => (s, [], Some (closed [welcome] (Raise e)))
  | Ok None => (s, [], Some (closed [welcome] (Ok tt)))
  | Ok (Some msg) =>
      match public_response core_call fuel client msg s with
      | (s, ds, None) => (s, ds, None)
      | (s, ds, Some (Raise e)) => (s, ds, Some (closed [welcome] (Raise e)))
      | (s, ds, Some (Ok r)) => (s, ds, Some (write_answer r))
      end
  end.

(** [s0] is the supervisor when the connection was accepted, [s] when the
    request was read. *)
Definition _handle_public_client (fuel : nat) (peer : peercred) (s0 s : Supervisor)
    : Supervisor * list delivery * option closing :=
  match _public_peer_credentials peer with
  | Raise e => if is_os_error (exn_type e) then converse fuel (peer_identity (Raise (exn_msg e)) s0) s
               else (s, [], Some {| sent := []; escaped := Some e |})
  | Ok p => converse fuel (peer_identity (Ok p) s0) s
  end.
End PublicSocket.

(* ------------------------------------------------------------------ *)
(** ** Lines *)

Section Lines.
Context {json : JsonLib}.
(** The text of a float is printable. *)
Context (float_printable : forall f, Forall (fun c => 32 <= c) (float_repr f)).

Definition printable (t : pystr) : Prop := Forall (fun c => 32 <= c) t.

Lemma printable_lit s : forallb (fun c => 32 <=? c) (lit s) = true -> printable (lit s).
Proof. intros Hs. apply Forall_forall. intros c Hc. apply N.leb_le. exact (proj1 (forallb_elem _ _) Hs c Hc). Qed.

Lemma printable_dec n : printable (dec_N n).
Proof.
  eapply Forall_impl; [apply dec_N_digits|]. intros c. cbv beta. unfold digit_ascii. rewrite andb_true_iff, !N.leb_le. lia.
Qed.

Lemma printable_int z t : int_text z = Ok t -> printable t.
Proof.
  unfold int_text. case_bool_decide; [|done]. intros [= <-]. unfold dec_Z.
  destruct z; [apply printable_dec..|]. constructor; [lia|apply printable_dec].
Qed.

Lemma printable_escape c : printable (escape_char c).
Proof.
  unfold escape_char. destruct (dget short_escapes c) as [e|] eqn:He.
  - apply dget_elem in He. unfold short_escapes in He. repeat (apply elem_of_cons in He as [[= -> ->]|He];
      [repeat constructor; vm_compute; congruence|]). by apply not_elem_of_nil in He.
  - destruct (c <? 32) eqn:Hc; [|constructor; [by apply N.ltb_ge|constructor]].
    apply N.ltb_lt in Hc. unfold printable, hex_byte, hex_digit, c_backslash. rewrite !Forall_cons.
    split_and!; [lia..| | |exact (List.Forall_nil _)]; destruct (_ <? 10); (eapply N.le_trans; [|apply N.le_add_r]; lia).
Qed.

Lemma printable_quoted s : printable (quoted s).
Proof.
  unfold quoted. constructor; [by vm_compute|]. apply Forall_app_2; [|repeat constructor; by vm_compute].
  apply Forall_bind. apply Forall_true. apply printable_escape.
Qed.

Lemma printable_join sep ts : printable sep -> Forall printable ts -> printable (str_join sep ts).
Proof.
  intros Hs Ht. induction Ht as [|t ts H1 H2 IH]; [constructor|]. destruct ts as [|t' ts]; [done|].
  cbn [str_join]. apply Forall_app_2; [done|]. by apply Forall_app_2.
Qed.

(** The texts of the encoder are one line, whatever the message. *)
Lemma text_printable depth v t : text depth v = Ok t -> printable t.
Proof using float_printable.
  revert v t. induction depth as [|depth IH]; intros v t; destruct v as [|b|z|f|s|l|d|o]; cbn [text]; try done.
  all: try (intros [= <-]; by apply printable_lit).
  all: try (destruct b; intros [= <-]; by apply printable_lit).
  all: try (by apply printable_int).
  all: try (intros [= <-]; by apply printable_quoted).
  all: try (intros [= <-]; unfold float_text; destruct f as [|[]| |]; by first [apply float_printable | apply printable_lit]).
  - intros (ts & Hts & [= <-])%bind_Ok. constructor; [by vm_compute|]. apply Forall_app_2; [|repeat constructor; by vm_compute].
    apply printable_join; [repeat constructor; by vm_compute|]. by eapply mapR_Forall; [|exact Hts].
  - intros (ts & Hts & [= <-])%bind_Ok. constructor; [by vm_compute|]. apply Forall_app_2; [|repeat constructor; by vm_compute].
    apply printable_join; [repeat constructor; by vm_compute|]. apply Forall_fmap.
    eapply mapR_Forall; [|exact Hts]. intros kv kt (t & Ht & [= <-])%bind_Ok. unfold member_text. cbn [fst snd].
    apply (Forall_app_2 _ (quoted kv.1)); [apply printable_quoted|]. constructor; [by vm_compute|]. by eapply IH.
Qed.

Lemma utf8_char_newline c : newline ∈ utf8_char c -> c = newline.
Proof.
  unfold utf8_char, newline. intros Hin.
  destruct (c <? 128); [by apply list_elem_of_singleton in Hin|].
  destruct (c <? 2048); [|destruct (c <? 65536)].
  all: repeat (apply elem_of_cons in Hin as [Hin|Hin]; [exfalso; revert Hin; generalize (c / 64), (c mod 64), (c / 4096), ((c / 64) mod 64), (c / 262144), ((c / 4096) mod 64); lia|]).
  all: by apply not_elem_of_nil in Hin.
Qed.

Lemma strip_left_ne b data : blank_byte b = false -> strip_left (b :: data) = b :: data.
Proof. intros Hb. unfold strip_left. cbn [str_span]. by rewrite Hb. Qed.

Lemma strip_left_blank b data : blank_byte b = true -> strip_left (b :: data) = strip_left data.
Proof. intros Hb. unfold strip_left. cbn [str_span]. rewrite Hb. by destruct (str_span blank_byte data). Qed.

Lemma strip_line body : strip_bytes ((c_lbrace :: body ++ [c_rbrace]) ++ [newline]) = c_lbrace :: body ++ [c_rbrace].
Proof.
  unfold strip_bytes. cbn [app]. rewrite strip_left_ne by done.
  assert (reverse (c_lbrace :: (body ++ [c_rbrace]) ++ [newline]) = newline :: c_rbrace :: reverse (c_lbrace :: body)) as ->.
  { rewrite app_comm_cons, reverse_app. change (reverse [newline]) with [newline]. cbn [app].
    rewrite app_comm_cons, reverse_app. done. }
  rewrite strip_left_blank, strip_left_ne by done. rewrite reverse_cons, reverse_involutive. done.
Qed.

Lemma encoded_line r data : encode r = Ok data ->
  newline ∉ data /\ strip_bytes (data ++ [newline]) = data.
Proof using float_printable.
  unfold encode, dumps. intros (t & Ht & H1)%bind_Ok. apply bind_Ok in H1 as (bytes & Hb%ok_or_Ok & H1).
  assert (data = bytes) as -> by (destruct (_ <? _); [done|by injection H1 as <-]). clear H1.
  pose proof (text_printable _ _ _ Ht) as Hp. unfold utf8_encode in Hb. destruct (forallb is_scalar t); [|done]. injection Hb as <-.
  split.
  - intros (c & Hc%utf8_char_newline & Hin)%list_elem_of_bind. subst c.
    pose proof (proj1 (Forall_forall _ _) Hp _ Hin) as Hle. cbv beta in Hle. unfold newline in Hle. lia.
  - destruct encode_depth; [done|]. cbn [text] in Ht. apply bind_Ok in Ht as (ts & _ & [= <-]).
    set (mid := str_join _ _). cbn [app mbind list_bind]. rewrite bind_app. cbn [mbind list_bind app].
    change (utf8_char c_lbrace) with [c_lbrace]. change (utf8_char c_rbrace) with [c_rbrace]. cbn [app].
    apply strip_line.
Qed.

Section Connection.
Context {lib : PyLib} {reprs : PyRepr} {activation : Activation} {table : ProcessTable} {stream : Stream}.
Context (core_call : response -> pystr -> Supervisor -> Supervisor * py response).

(** What one connection answers to its request. *)
Definition answers_line (r : response) (line : list N) : Prop :=
  exists data, encode r = Ok data /\ line = data ++ [newline] /\ newline ∉ data /\
    ((encode_depth <= decode_depth)%nat -> Plain (VDict r) -> has_type r -> decode (strip_bytes line) = Ok r).

Lemma answer_line r data : encode r = Ok data -> answers_line r (data ++ [newline]).
Proof using float_printable.
  intros He. destruct (encoded_line r data He) as [Hn Hs]. exists data. split_and!; [done..|].
  intros Hd Hp Ht. rewrite Hs. by apply decode_encode.
Qed.

Lemma request_line m data : (encode_depth <= decode_depth)%nat -> Plain (VDict m) -> has_type m -> encode m = Ok data ->
  readline = Ok (data ++ [newline]) -> drain_welcome = None -> read_request = Ok (Some m).
Proof using float_printable.
  intros Hd Hp Ht He Hr Hw. destruct (encoded_line m data He) as [_ Hs]. unfold read_request. rewrite Hw, Hr. cbn [drained rbind].
  destruct data as [|b data]; cbn [app] in *; rewrite Hs, (decode_encode m _ Hd Hp Ht He); done.
Qed.

(** Whom the connection is answered as. *)
Definition client_of (peer : peercred) (s0 : Supervisor) : result pystr (PeerCredentials * option nat) :=
  peer_identity (match _public_peer_credentials peer with Ok p => Ok p | Raise e => Raise (exn_msg e) end) s0.

Lemma escaped_closed l r e : escaped (closed l r) = Some e -> is_os_error (exn_type e) = false.
Proof.
  unfold closed. cbn. destruct r as [|e']; [done|]. destruct (is_os_error (exn_type e')) eqn:He; [done|]. by intros [= <-].
Qed.

Lemma write_answer_spec r : (forall e, escaped (write_answer r) = Some e -> is_os_error (exn_type e) = false) /\
  (sent (write_answer r) = [welcome] \/ exists line, sent (write_answer r) = [welcome; line] /\ answers_line r line).
Proof using float_printable.
  unfold write_answer. destruct (encode r) as [data|e] eqn:He; (split; [apply escaped_closed|]); [|by left].
  right. exists (data ++ [newline]). split; [done|by apply answer_line].
Qed.

Lemma converse_spec fuel client s s' ds c : converse core_call fuel client s = (s', ds, Some c) ->
  (forall e, escaped c = Some e -> is_os_error (exn_type e) = false) /\
  (sent c = [welcome] \/
   exists msg r line, read_request = Ok (Some msg) /\ sent c = [welcome; line] /\ answers_line r line /\
     public_response core_call fuel client msg s = (s', ds, Some (Ok r))).
Proof using float_printable.
  unfold converse. destruct read_request as [[msg|]|e]; [|by intros [= <- <- <-]; split; [apply escaped_closed|left]..].
  destruct (public_response core_call fuel client msg s) as [[s1 ds1] [[r|e]|]] eqn:Hr; [| |done].
  - intros [= <- <- <-]. destruct (write_answer_spec r) as [He Hs]. split; [done|].
    destruct Hs as [Hs|(line & Hs & Ha)]; [by left|]. right. exists msg, r, line. by rewrite Hr.
  - intros [= <- <- <-]. split; [apply escaped_closed|by left].
Qed.

(** C23: one request, one line.  On a public connection the client is sent at most
    the welcome line, and after it nothing or exactly one line: the answer to
    the request it sent, whose only newline is the last byte.  Within the scope
    of the encoding's round trip the client decodes the line to that answer and
    a line it encodes with the same protocol is read as its message: both have
    a string type, hold no float, their objects have distinct members, and the
    decoder may nest as deep as the encoder.  An exception that leaves the
    handler is never a connection error. *)
Theorem one_answer_per_line fuel peer s0 s s' ds c :
  _handle_public_client core_call fuel peer s0 s = (s', ds, Some c) ->
  (forall e, escaped c = Some e -> is_os_error (exn_type e) = false) /\
  (sent c = [] \/ sent c = [welcome] \/
   exists msg r line, read_request = Ok (Some msg) /\ sent c = [welcome; line] /\ answers_line r line /\
     public_response core_call fuel (client_of peer s0) msg s = (s', ds, Some (Ok r))) /\
  (forall m data, (encode_depth <= decode_depth)%nat -> Plain (VDict m) -> has_type m -> encode m = Ok data ->
     readline = Ok (data ++ [newline]) -> drain_welcome = None -> read_request = Ok (Some m)).
Proof using float_printable.
  intros Hh. unfold _handle_public_client, client_of in *. destruct (_public_peer_credentials peer) as [p|e].
  2: destruct (is_os_error (exn_type e)) eqn:Hos.
  3: { injection Hh as <- <- <-. split; [by intros e' [= <-]|]. split; [by left|intros; by eapply request_line]. }
  all: apply converse_spec in Hh as [He Hs]; split; [done|]; split; [by right|intros; by eapply request_line].
Qed.

(** A line that is not a packet gets no answer at all: the exception of the
    decoder leaves the handler. *)
Lemma malformed_line_unanswered fuel peer s0 s data e :
  drain_welcome = None -> readline = Ok data -> data ≠ [] -> decode (strip_bytes data) = Raise e ->
  is_os_error (exn_type e) = false -> is_ok (_public_peer_credentials peer) = true ->
  _handle_public_client core_call fuel peer s0 s = (s, [], Some {| sent := [welcome]; escaped := Some e |}).
Proof.
  intros Hw Hr Hne He Hos [p Hp]%is_ok_spec. unfold _handle_public_client, converse, read_request. rewrite Hp, Hw, Hr. cbn [drained rbind].
  destruct data as [|b data]; [done|]. rewrite He. cbn [rbind]. unfold closed. by rewrite Hos.
Qed.
End Connection.
End Lines.

(* ------------------------------------------------------------------ *)
(** ** Witness *)

Definition request_data : list N := match @encode sample_json public_call with Ok data => data | Raise _ => [] end.
Definition sample_stream : Stream :=
  {| readline := Ok (request_data ++ [newline]); drain_welcome := None; drain_answer := None |}.
Definition ungrouped : ProcessTable := {| getpgid _ := None; getsid _ := None |}.

(** A client the kernel does not identify. *)
Definition sample_connection : Supervisor * list delivery * option closing :=
  @_handle_public_client _ _ Dispatch.silent ungrouped sample_json sample_stream no_core 1 NoSocket
    peers_supervisor peers_supervisor.

Lemma one_answer_per_line_witness :
  exists s ds c line, sample_connection = (s, ds, Some c) /\ sent c = [welcome; line] /\ @answers_line sample_json
    (_public_access_denied public_call §"peer-credentials-unavailable:SO_PEERCRED is unavailable") line.
Proof.
  destruct sample_connection as [[s ds] [c|]] eqn:Hc; [|vm_compute in Hc; discriminate Hc].
  assert (length (sent c) = 2%nat) as Hl by (transitivity (length (sent (match sample_connection with (_, _, Some c) => c | _ => c end)));
    [by rewrite Hc|vm_compute; reflexivity]).
  destruct (@one_answer_per_line sample_json ltac:(intros f; vm_compute; repeat constructor; discriminate)
    _ _ Dispatch.silent ungrouped sample_stream no_core 1 NoSocket peers_supervisor peers_supervisor s ds c Hc)
    as (_ & [Hs|[Hs|(msg & r & line & Hreq & Hs & Ha & Hr)]] & _); [by rewrite Hs in Hl..|].
  exists s, ds, c, line. split; [reflexivity|]. split; [exact Hs|].
  assert (msg = public_call) as ->.
  { vm_compute in Hreq. injection Hreq as <-. vm_compute. reflexivity. }
  assert (r = _public_access_denied public_call §"peer-credentials-unavailable:SO_PEERCRED is unavailable") as <-; [|exact Ha].
  vm_compute in Hr. vm_compute. congruence.
Defined.
End PublicSocket.
