(* ===== verification/Launch.v ===== *)
(** * The launch of a component ([msys_core/msysd.py])

    The language of the session, the environment a generation is started with,
    the private directories of installed packages and the resolution of
    [@package] arguments.  The file system, the inherited environment and the
    socket pair are the [Host] interface. *)

From Stdlib Require Import ZArith.
From S2P Require Export I18n Calls Restart.

Module Launch.
Import Msysd Restart I18n.

Inductive file_kind := RegularFile | SymbolicLink | OtherFile.

Class Host := {
  (** [os.environ] and [sys.executable] *)
  environ : dict pystr pystr;
  sys_executable : pystr;
  (** The control descriptor of [socket.socketpair()] in the child. *)
  socketpair : py Z;
  (** [path.resolve(strict=...)] *)
  resolve_path : bool -> ppath -> py ppath;
  lstat : ppath -> py file_kind;
  access_x : ppath -> bool;
  is_dir : ppath -> bool;
  is_file : ppath -> bool;
  (** [path.mkdir(parents=True, exist_ok=True, mode=0o700)] *)
  mkdir : ppath -> py unit;
}.

(** The attributes of [Msysd] that a launch reads besides the supervisor's:
    [builtin_objects] names the component objects of [builtin_components]. *)
Record Session := {
  profile : pyval;
  session_language : pystr;
  state_dir : ppath;
  runtime_dir : ppath;
  builtin_objects : dict pystr nat;
}.

Definition DEFAULT_X11_DISPLAY : pystr := §":0".

(* ------------------------------------------------------------------ *)
(** ** Locale variables *)

Definition I18N_LOCALE_PRECEDENCE : list pystr := [§"MSYS_LOCALE"; §"LC_ALL"; §"LC_MESSAGES"; §"LANG"].

Definition _is_i18n_environment_name (name : pystr) : bool :=
  bool_decide (name = §"MSYS_LOCALE") || bool_decide (name = §"LANG") || str_startswith §"LC_" name.

Definition i18n_only (env : dict pystr pystr) : dict pystr pystr :=
  filter (fun kv => _is_i18n_environment_name kv.1 = true) env.
Definition without_i18n (env : dict pystr pystr) : dict pystr pystr :=
  filter (fun kv => _is_i18n_environment_name kv.1 = false) env.

Section Locale.
Context `{PyLib}.

(** A part of the tag after the first. *)
Definition canonical_part (index : nat) (part : pystr) : option pystr :=
  if negb (str_isalnum part) then None
  else if (index =? 1)%nat && (length part =? 4)%nat && str_isalpha part then Some (str_title part)
  else if (length part =? 2)%nat && str_isalpha part then Some (str_upper part)
  else if (length part =? 3)%nat && str_isdigit part then Some part
  else Some (str_lower part).

Fixpoint canonical_rest (index : nat) (parts : list pystr) : option (list pystr) :=
  match parts with
  | [] => Some []
  | part :: parts =>
      c ← canonical_part index part; cs ← canonical_rest (S index) parts; Some (c :: cs)
  end%stdpp.

Definition canonical_tag (parts : list pystr) : option (list pystr) :=
  match parts with
  | [] => None
  | language :: rest =>
      if negb (str_isalpha language) || negb ((2 <=? length language)%nat && (length language <=? 8)%nat)
      then None
      else cons (str_lower language) <$> canonical_rest 1 rest
  end.

Definition NEUTRAL_LOCALES : list pystr := [§"C"; §"POSIX"; §"C.UTF-8"; §"C.UTF8"].

Definition _normalize_msys_locale (value : pystr) : option pystr :=
  let raw := str_strip value in
  (if negb (str_true raw) || bool_decide (str_upper raw ∈ NEUTRAL_LOCALES) then None
   else
     canonical ← canonical_tag (str_split dash (str_replace_c 95 dash (without_encoding raw)));
     let normalized := str_join [dash] canonical in
     if fullmatch _CANONICAL_LOCALE normalized then Some normalized else None)%stdpp.

(** The first of the precedence list that is set and not blank decides, even
    when it is not a locale. *)
Definition deciding (env : dict pystr pystr) (name : pystr) : bool :=
  match dget env name with Some raw => str_true (str_strip raw) | None => false end.

Definition _supervisor_locale_environment (env : dict pystr pystr) : dict pystr pystr :=
  let locale_environment := i18n_only env in
  match find_first (deciding locale_environment) I18N_LOCALE_PRECEDENCE with
  | None => locale_environment
  | Some name =>
      match _normalize_msys_locale (dget_or locale_environment name []) with
      | Some normalized => dset locale_environment §"MSYS_LOCALE" normalized
      | None => locale_environment
      end
  end.

(** A session language is [system] or a canonical locale. *)
Definition _validate_session_language (value : pystr) : py pystr :=
  let language := str_strip value in
  if bool_decide (language = §"system") then Ok language
  else match _normalize_msys_locale language with
       | Some normalized =>
           if bool_decide (normalized = language) then Ok normalized
           else Raise (Exn ValueError §"language must be system or a canonical locale")
       | None => Raise (Exn ValueError §"language must be system or a canonical locale")
       end.
End Locale.

(* ------------------------------------------------------------------ *)
(** ** The environment *)

Section Environment.
Context `{PyLib} `{PyRepr} `{Host}.

Definition profile_env (s : Session) : pyval :=
  match profile s with VDict d => dget_or d §"env" (VDict []) | _ => VDict [] end.

(** [os.environ.copy()] with the profile's environment. *)
Definition session_environment (s : Session) : dict pystr pystr :=
  match profile_env s with
  | VDict d => dupdate environ ((fun kv => (kv.1, py_str kv.2)) <$> d)
  | _ => environ
  end.

(** [registry.active_provider(role) or registry.preferred_provider(role)] *)
Definition selected_provider (s : Supervisor) : py (option pystr) :=
  active ← Roles.active_provider (role_registry s) DISPLAY_OUTPUT_ROLE;
  match active with
  | Some provider => if str_true provider then Ok (Some provider)
                     else Roles.preferred_provider (role_registry s) DISPLAY_OUTPUT_ROLE
  | None => Roles.preferred_provider (role_registry s) DISPLAY_OUTPUT_ROLE
  end.

Definition _selected_display (s : Supervisor) : py (option pystr) :=
  match selected_provider s with
  | Ok None => Ok None
  | Ok (Some provider) => Ok (_display_for_provider (dget (components s) provider))
  | Raise e => if is_key_error (exn_type e) then Ok None else Raise e
  end.

Definition _session_display (se : Session) (s : Supervisor) : py pystr :=
  selected ← _selected_display s;
  match selected with
  | Some display => Ok display
  | None =>
      let configured := match profile_env se with VDict d => dget_or d §"DISPLAY" VNone | _ => VNone end in
      Ok (if truthy configured then py_str configured
          else match dget environ §"DISPLAY" with
               | Some d => if str_true d then d else DEFAULT_X11_DISPLAY
               | None => DEFAULT_X11_DISPLAY
               end)
  end.

(** The locale variables of the session. *)
Definition session_locale (se : Session) : dict pystr pystr :=
  let locale := _supervisor_locale_environment (session_environment se) in
  if bool_decide (session_language se = §"system") then locale
  else dset locale §"MSYS_LOCALE" (session_language se).

Definition _component_environment (se : Session) (s : Supervisor) (m : Manifest.Component)
    : py (dict pystr pystr) :=
  display ← _session_display se s;
  let env := dset (session_environment se) §"DISPLAY" display in
  let env := dupdate env (Manifest.env m) in
  Ok (dupdate (without_i18n env) (session_locale se)).

(* ------------------------------------------------------------------ *)
(** ** Private directories *)

Definition app_root (se : Session) (m : Manifest.Component) : ppath :=
  path_div (path_div (state_dir se) (path_of §"apps")) (path_of (Manifest.package_id m)).
Definition app_runtime (se : Session) (m : Manifest.Component) : ppath :=
  path_div (path_div (path_div (runtime_dir se) (path_of §"components"))
    (path_of (Manifest.package_id m))) (path_of (Manifest.id m)).

Definition private_directories (se : Session) (m : Manifest.Component) : list ppath :=
  ((fun d => path_div (app_root se m) (path_of d)) <$> [§"home"; §"config"; §"data"; §"cache"])
  ++ [app_runtime se m; path_div (app_runtime se m) (path_of §"tmp")].

Definition approved_path (value : pystr) : py (option pystr) :=
  if negb (str_true value) then Ok None
  else match resolve_path true (path_of value) with
       | Ok resolved =>
           Ok (if is_dir resolved
                  && is_file (path_div (path_div resolved (path_of §"msys_sdk")) (path_of §"__init__.py"))
               then Some (path_str resolved) else None)
       | Raise e => if is_os_error (exn_type e) then Ok None else Raise e
       end.

(** The Python path that system packages may use. *)
Definition platform_pythonpath (m : Manifest.Component) : py pystr :=
  if bool_decide (Manifest.package_kind m = §"system")
  then
    let configured := dget_or environ §"MSYS_PLATFORM_PYTHONPATH" [] in
    let candidates := if str_true configured then configured else dget_or environ §"PYTHONPATH" [] in
    approved ← mapR approved_path (str_split 58 candidates);
    Ok (str_join §":" (fromkeys (omap id approved)))
  else Ok [].

Definition RUNTIME_VARIABLES : list pystr :=
  [§"PYTHONPATH"; §"PYTHONHOME"; §"PYTHONSTARTUP"; §"PYTHONUSERBASE"; §"VIRTUAL_ENV";
   §"MSYS_PLATFORM_PYTHONPATH"].

Definition private_variables (se : Session) (m : Manifest.Component) : dict pystr pystr :=
  let root := app_root se m in
  let runtime := app_runtime se m in
  [(§"HOME", path_str (path_div root (path_of §"home")));
   (§"XDG_CONFIG_HOME", path_str (path_div root (path_of §"config")));
   (§"XDG_DATA_HOME", path_str (path_div root (path_of §"data")));
   (§"XDG_CACHE_HOME", path_str (path_div root (path_of §"cache")));
   (§"XDG_RUNTIME_DIR", path_str runtime);
   (§"TMPDIR", path_str (path_div runtime (path_of §"tmp")));
   (§"PYTHONNOUSERSITE", §"1"); (§"PYTHONDONTWRITEBYTECODE", §"1");
   (§"MSYS_APP_STATE_DIR", path_str root); (§"MSYS_APP_RUNTIME_DIR", path_str runtime)].

Definition platform_variables (pythonpath : pystr) : dict pystr pystr :=
  if str_true pythonpath
  then [(§"MSYS_PLATFORM_PYTHONPATH", pythonpath); (§"PYTHONPATH", pythonpath)]
  else [].

Definition is_builtin (se : Session) (m : Manifest.Component) (obj : nat) : bool :=
  bool_decide (dget (builtin_objects se) (Manifest.key m) = Some obj).

Definition _apply_component_isolation (se : Session) (m : Manifest.Component) (obj : nat)
    (env : dict pystr pystr) : py (dict pystr pystr) :=
  if is_builtin se m obj then Ok env
  else
    mapR mkdir (private_directories se m);;
    pythonpath ← platform_pythonpath m;
    let env := filter (fun kv => kv.1 ∉ RUNTIME_VARIABLES) env in
    Ok (dupdate (dupdate env (private_variables se m)) (platform_variables pythonpath)).

(* ------------------------------------------------------------------ *)
(** ** The identity of the generation *)

Definition nonempty (name : pystr) (value : pystr) : dict pystr pystr :=
  if str_true value then [(name, value)] else [].

Definition window_variables (m : Manifest.Component) : dict pystr pystr :=
  let title := dget_or (Manifest.windowing m) §"title" VNone in
  let identity := dget_or (Manifest.windowing m) §"identity" VNone in
  (if truthy title then [(§"MSYS_WINDOW_TITLE", py_str title)] else [])
  ++ match identity with
     | VDict d =>
         let app_id := py_str (dget_or d §"app_id" (VStr [])) in
         let wm_class := py_str (py_or (dget_or d §"x11_wm_class" VNone) (VStr app_id)) in
         let wm_instance := dget_or d §"x11_wm_instance" VNone in
         nonempty §"MSYS_APP_ID" app_id ++ nonempty §"MSYS_WINDOW_IDENTITY" wm_class
         ++ (if truthy wm_instance then [(§"MSYS_X11_WM_INSTANCE", py_str wm_instance)] else [])
     | _ => if truthy identity
            then [(§"MSYS_APP_ID", py_str identity); (§"MSYS_WINDOW_IDENTITY", py_str identity)] else []
     end.

Definition core_variables (se : Session) (m : Manifest.Component) (fd gen : Z) : dict pystr pystr :=
  [(§"MSYS_CONTROL_FD", dec_Z fd); (§"MSYS_COMPONENT_ID", Manifest.key m);
   (§"MSYS_GENERATION", dec_Z gen); (§"MSYS_RUNTIME_DIR", path_str (runtime_dir se));
   (§"MSYS_PACKAGE_ID", Manifest.package_id m); (§"MSYS_PACKAGE_VERSION", Manifest.package_version m);
   (§"MSYS_STATE_DIR", path_str (state_dir se))].

Definition package_root_variable (m : Manifest.Component) : py (dict pystr pystr) :=
  match Manifest.manifest_path m with
  | None => Ok []
  | Some p => root ← resolve_path false (path_parent p); Ok [(§"MSYS_PACKAGE_ROOT", path_str root)]
  end.

(** [activation] is the JSON text of the activation, if it is not empty. *)
Definition activation_variable (activation : option pystr) : dict pystr pystr :=
  match activation with Some json => [(§"MSYS_ACTIVATION_JSON", json)] | None => [] end.

Definition launch_environment (se : Session) (s : Supervisor) (m : Manifest.Component) (obj : nat)
    (gen : Z) (activation : option pystr) : py (dict pystr pystr) :=
  fd ← socketpair;
  env ← _component_environment se s m;
  env ← _apply_component_isolation se m obj env;
  let env := dupdate (dupdate env (core_variables se m fd gen)) (window_variables m) in
  root ← package_root_variable m;
  Ok (dupdate (dupdate env root) (activation_variable activation)).

(* ------------------------------------------------------------------ *)
(** ** [@package] arguments *)

Definition package_error (m : Manifest.Component) (text : pystr) : exn :=
  Exn RuntimeError (§"component " ++ Manifest.key m ++ text).

Definition is_package_reference (value : pystr) : bool :=
  bool_decide (value = §"@package") || str_startswith §"@package/" value.

Definition escape_error (e : exn) : bool :=
  is_os_error (exn_type e) || bool_decide (exn_type e ∈ [RuntimeError; RecursionError]) || is_value_error (exn_type e).

Definition _resolve_package_argument (m : Manifest.Component) (value : pystr) : py (ppath * ppath) :=
  match Manifest.manifest_path m with
  | None => Raise (package_error m §" uses @package without a manifest")
  | Some manifest =>
      let relative := if bool_decide (value = §"@package") then [] else str_removeprefix §"@package/" value in
      let quoted := py_repr (VStr value) in
      let unsafe := package_error m (§" has an unsafe @package path: " ++ quoted) in
      raise_if (negb (str_true relative)) (package_error m §" has an empty @package path");;
      raise_if (str_has 0 relative || str_has 92 relative) unsafe;;
      let segments := str_split slash relative in
      raise_if (existsb (fun s => bool_decide (s ∈ [[]; §"."; §".."])) segments) unsafe;;
      raise_if (path_absolute (path_of relative) || bool_decide (pparts (path_of relative) = []))
        (package_error m (§" has an absolute @package path: " ++ quoted));;
      reraise (fun e => if escape_error e
                        then package_error m (§" @package path escapes its package root: " ++ quoted) else e)
        (package_root ← resolve_path true (path_parent manifest);
         let candidate := foldl (fun p s => path_div p (path_of s)) package_root segments in
         resolved ← resolve_path false candidate;
         relative_to resolved package_root;;
         Ok (candidate, resolved))
  end.

Definition _validate_package_executable (m : Manifest.Component) (declared : pystr)
    (candidate resolved : ppath) : py unit :=
  let quoted := py_repr (VStr declared) in
  kind ← reraise (fun e => if is_os_error (exn_type e)
                           then package_error m (§" package executable is unavailable: " ++ quoted) else e)
           (lstat candidate);
  raise_if (match kind with SymbolicLink => true | _ => false end)
    (package_error m (§" package executable must not be a symlink: " ++ quoted));;
  raise_if (match kind with RegularFile => false | _ => true end)
    (package_error m (§" package executable is not a regular file: " ++ quoted));;
  raise_if (negb (access_x resolved))
    (package_error m (§" package executable is not executable: " ++ quoted)).

Definition resolve_argument (m : Manifest.Component) (index : nat) (value : pystr) : py pystr :=
  if is_package_reference value
  then
    paths ← _resolve_package_argument m value;
    (if (index =? 0)%nat then _validate_package_executable m value paths.1 paths.2 else Ok tt);;
    Ok (path_str paths.2)
  else Ok value.

Definition _resolve_exec (m : Manifest.Component) : py (list pystr) :=
  argv ← imapR (resolve_argument m) (Manifest.exec m);
  Ok match argv with
     | first :: rest => if bool_decide (first ∈ [§"python"; §"@msys-python"])
                        then sys_executable :: rest else argv
     | [] => argv
     end.

(** Everything that precedes the isolation plan and [Popen]. *)
Definition prepare (se : Session) (s : Supervisor) (m : Manifest.Component) (obj : nat) (gen : Z)
    (activation : option pystr) : py (list pystr * dict pystr pystr) :=
  env ← launch_environment se s m obj gen activation;
  argv ← _resolve_exec m;
  Ok (argv, env).
End Environment.

(* ------------------------------------------------------------------ *)
(** ** Who decides which variable *)

Definition core_names : list pystr :=
  [§"MSYS_CONTROL_FD"; §"MSYS_COMPONENT_ID"; §"MSYS_GENERATION"; §"MSYS_RUNTIME_DIR"; §"MSYS_PACKAGE_ID";
   §"MSYS_PACKAGE_VERSION"; §"MSYS_STATE_DIR"].
Definition window_names : list pystr :=
  [§"MSYS_WINDOW_TITLE"; §"MSYS_APP_ID"; §"MSYS_WINDOW_IDENTITY"; §"MSYS_X11_WM_INSTANCE"].
Definition late_names : list pystr := window_names ++ [§"MSYS_PACKAGE_ROOT"; §"MSYS_ACTIVATION_JSON"].
Definition private_names : list pystr :=
  [§"HOME"; §"XDG_CONFIG_HOME"; §"XDG_DATA_HOME"; §"XDG_CACHE_HOME"; §"XDG_RUNTIME_DIR"; §"TMPDIR";
   §"PYTHONNOUSERSITE"; §"PYTHONDONTWRITEBYTECODE"; §"MSYS_APP_STATE_DIR"; §"MSYS_APP_RUNTIME_DIR"].
(** The names that Core decides for an installed package. *)
Definition private_or_runtime : list pystr := private_names ++ RUNTIME_VARIABLES.

Lemma names_Forall (P : pystr -> Prop) `{!forall n, Decision (P n)} l :
  bool_decide (Forall P l) = true -> forall n, n ∈ l -> P n.
Proof. intros Hl%bool_decide_eq_true n Hn. by eapply Forall_forall in Hl. Qed.

Lemma core_not_late n : n ∈ core_names -> n ∉ late_names.
Proof. apply (names_Forall (fun n => n ∉ late_names)). vm_compute. reflexivity. Qed.

Lemma private_not_later n : n ∈ private_or_runtime -> n ∉ core_names ++ late_names.
Proof. apply (names_Forall (fun n => n ∉ core_names ++ late_names)). vm_compute. reflexivity. Qed.

Lemma private_not_runtime n : n ∈ private_names -> n ∉ RUNTIME_VARIABLES.
Proof. apply (names_Forall (fun n => n ∉ RUNTIME_VARIABLES)). vm_compute. reflexivity. Qed.

Lemma decided_not_i18n n : n ∈ core_names ++ late_names ++ private_or_runtime ->
  _is_i18n_environment_name n = false.
Proof. apply (names_Forall (fun n => _is_i18n_environment_name n = false)). vm_compute. reflexivity. Qed.

(** A later update does not touch the names it does not have. *)
Lemma dget_dupdate_other (d1 d2 : dict pystr pystr) n : dict_wf d2 -> n ∉ dkeys d2 ->
  dget (dupdate d1 d2) n = dget d1 n.
Proof. intros Hwf Hn. rewrite dget_dupdate by done. apply dget_None in Hn. by rewrite Hn. Qed.

Lemma dget_dupdate_has (d1 d2 : dict pystr pystr) n v : dict_wf d2 -> (n, v) ∈ d2 ->
  dget (dupdate d1 d2) n = Some v.
Proof. intros Hwf Hn. rewrite dget_dupdate by done. apply elem_dget in Hn; [|done]. by rewrite Hn. Qed.

Section EnvironmentLemmas.
Context {lib : PyLib} {repr : PyRepr} {host : Host}.

Lemma core_keys se m fd gen : dkeys (core_variables se m fd gen) = core_names.
Proof. reflexivity. Qed.

Lemma private_keys se m : dkeys (private_variables se m) = private_names.
Proof. reflexivity. Qed.

Lemma names_wf (d : dict pystr pystr) l : dkeys d `sublist_of` l -> bool_decide (NoDup l) = true -> dict_wf d.
Proof. intros Hs Hl%bool_decide_eq_true. by eapply sublist_NoDup. Qed.

Lemma nonempty_keys name value : dkeys (nonempty name value) `sublist_of` [name].
Proof. unfold nonempty. destruct (str_true value); cbn; [done|apply sublist_nil_l]. Qed.

Lemma window_keys m : dkeys (window_variables m) `sublist_of` window_names.
Proof.
  unfold window_variables, dkeys. rewrite fmap_app.
  change window_names with ([§"MSYS_WINDOW_TITLE"] ++ [§"MSYS_APP_ID"; §"MSYS_WINDOW_IDENTITY"; §"MSYS_X11_WM_INSTANCE"]).
  apply sublist_app; [destruct (truthy _); cbn; [done|apply sublist_nil_l]|].
  assert (forall v, (if truthy v then [(§"MSYS_APP_ID", py_str v); (§"MSYS_WINDOW_IDENTITY", py_str v)] else []).*1
    `sublist_of` [§"MSYS_APP_ID"; §"MSYS_WINDOW_IDENTITY"; §"MSYS_X11_WM_INSTANCE"]) as Hplain.
  { intros v. destruct (truthy v); cbn; [|apply sublist_nil_l]. do 2 constructor. apply sublist_nil_l. }
  destruct (dget_or (Manifest.windowing m) §"identity" VNone) as [| | | | | |d|]; try apply Hplain.
  rewrite !fmap_app.
  change [§"MSYS_APP_ID"; §"MSYS_WINDOW_IDENTITY"; §"MSYS_X11_WM_INSTANCE"]
    with ([§"MSYS_APP_ID"] ++ [§"MSYS_WINDOW_IDENTITY"] ++ [§"MSYS_X11_WM_INSTANCE"]).
  apply sublist_app; [apply nonempty_keys|]. apply sublist_app; [apply nonempty_keys|].
  destruct (truthy _); cbn; [done|apply sublist_nil_l].
Qed.

Lemma root_keys m root : package_root_variable m = Ok root -> dkeys root `sublist_of` [§"MSYS_PACKAGE_ROOT"].
Proof.
  unfold package_root_variable. destruct (Manifest.manifest_path m); [|intros [= <-]; apply sublist_nil_l].
  destruct (resolve_path false _); [|done]. by intros [= <-].
Qed.

Lemma activation_keys a : dkeys (activation_variable a) `sublist_of` [§"MSYS_ACTIVATION_JSON"].
Proof. destruct a; cbn; [done|apply sublist_nil_l]. Qed.

Lemma platform_keys p : dkeys (platform_variables p) `sublist_of` [§"MSYS_PLATFORM_PYTHONPATH"; §"PYTHONPATH"].
Proof. unfold platform_variables. destruct (str_true p); cbn; [done|apply sublist_nil_l]. Qed.

(** The variables that come after the component's own environment. *)
Lemma late_lookup se s m obj gen activation env : launch_environment se s m obj gen activation = Ok env ->
  exists fd env0 env1, socketpair = Ok fd /\ _component_environment se s m = Ok env0 /\
    _apply_component_isolation se m obj env0 = Ok env1 /\
    (forall n v, (n, v) ∈ core_variables se m fd gen -> dget env n = Some v) /\
    (forall n, n ∉ core_names ++ late_names -> dget env n = dget env1 n).
Proof.
  unfold launch_environment. destruct socketpair as [fd|e]; [|done]. cbn [rbind].
  destruct (_component_environment se s m) as [env0|e] eqn:H0; [|done]. cbn [rbind].
  destruct (_apply_component_isolation se m obj env0) as [env1|e] eqn:H1; [|done]. cbn [rbind].
  destruct (package_root_variable m) as [root|e] eqn:Hroot; [|done]. cbn [rbind]. intros [= <-].
  exists fd, env0, env1. split; [done|]. split; [done|]. split; [done|].
  pose proof (window_keys m) as Kw. pose proof (root_keys m root Hroot) as Kr.
  pose proof (activation_keys activation) as Ka.
  assert (dict_wf (window_variables m)) as Ww by (eapply names_wf; [exact Kw|vm_compute; reflexivity]).
  assert (dict_wf root) as Wr by (eapply names_wf; [exact Kr|vm_compute; reflexivity]).
  assert (dict_wf (activation_variable activation)) as Wa by (eapply names_wf; [exact Ka|vm_compute; reflexivity]).
  assert (dict_wf (core_variables se m fd gen)) as Wc
    by (unfold dict_wf; rewrite core_keys; apply (bool_decide_unpack _); vm_compute; exact I).
  assert (forall n, n ∉ late_names -> forall d,
    dget (dupdate (dupdate (dupdate d (window_variables m)) root) (activation_variable activation)) n = dget d n) as Hlate.
  { intros n Hn d. unfold late_names in Hn. apply not_elem_of_app in Hn as [Hw Hn].
    rewrite dget_dupdate_other; [|done|].
    2:{ intros Hin. apply Hn. right. exact (elem_of_sublist _ _ _ Hin Ka). }
    rewrite dget_dupdate_other; [|done|].
    2:{ intros Hin. apply (elem_of_sublist _ _ _ Hin) in Kr. apply Hn. apply list_elem_of_singleton in Kr as ->. left. }
    apply dget_dupdate_other; [done|]. intros Hin. apply Hw. exact (elem_of_sublist _ _ _ Hin Kw). }
  split.
  - intros n v Hin. transitivity (dget (dupdate env1 (core_variables se m fd gen)) n);
      [apply Hlate, core_not_late|by apply dget_dupdate_has].
    rewrite <- (core_keys se m fd gen). apply (list_elem_of_fmap_2 fst) in Hin. exact Hin.
  - intros n Hn. apply not_elem_of_app in Hn as [Hc Hl].
    transitivity (dget (dupdate env1 (core_variables se m fd gen)) n); [by apply Hlate|]. apply dget_dupdate_other; [done|]. by rewrite core_keys.
Qed.
End EnvironmentLemmas.

Section EnvironmentTheorem.
Context {lib : PyLib} {repr : PyRepr} {host : Host}.
Hypothesis environ_wf : dict_wf environ.

Lemma session_environment_wf se : dict_wf (session_environment se).
Proof. unfold session_environment. destruct (profile_env se); try done. by apply dupdate_wf. Qed.

(** The locale variables of the session are well formed and nothing else. *)
Lemma session_locale_spec se : dict_wf (session_locale se) /\
  forall n, _is_i18n_environment_name n = false -> dget (session_locale se) n = None.
Proof.
  assert (forall env, dict_wf env -> dict_wf (i18n_only env) /\
    forall n, _is_i18n_environment_name n = false -> dget (i18n_only env) n = None) as Honly.
  { intros env Hwf. split; [by apply dict_filter_wf|]. intros n Hn. unfold i18n_only. rewrite dget_filter by done.
    destruct (dget env n); [|done]. rewrite decide_False; [done|]. cbn. by rewrite Hn. }
  assert (forall (d : dict pystr pystr) v, dict_wf d /\ (forall n, _is_i18n_environment_name n = false -> dget d n = None) ->
    dict_wf (dset d §"MSYS_LOCALE" v) /\ forall n, _is_i18n_environment_name n = false -> dget (dset d §"MSYS_LOCALE" v) n = None) as Hset.
  { intros d v [Hwf Hd]. split; [by apply dset_wf|]. intros n Hn. rewrite dget_dset_ne; [by apply Hd|].
    intros ->. discriminate Hn. }
  pose proof (Honly _ (session_environment_wf se)) as Hbase.
  assert (dict_wf (_supervisor_locale_environment (session_environment se)) /\
    forall n, _is_i18n_environment_name n = false -> dget (_supervisor_locale_environment (session_environment se)) n = None) as Hloc.
  { unfold _supervisor_locale_environment. destruct (find_first _ _) as [name|]; [|exact Hbase].
    destruct (_normalize_msys_locale _); [|exact Hbase]. by apply Hset. }
  unfold session_locale. destruct (bool_decide _); [exact Hloc|by apply Hset].
Qed.

Lemma component_lookup se s m env : dict_wf (Manifest.env m) -> _component_environment se s m = Ok env ->
  dict_wf env /\ exists display, _session_display se s = Ok display /\ forall n,
  dget env n = if _is_i18n_environment_name n then dget (session_locale se) n
               else match dget (Manifest.env m) n with
                    | Some v => Some v
                    | None => if bool_decide (n = §"DISPLAY") then Some display else dget (session_environment se) n
                    end.
Proof.
  intros Hm. unfold _component_environment. destruct (_session_display se s) as [display|e]; [|done]. cbn [rbind].
  intros [= <-]. destruct (session_locale_spec se) as [Wl Hl]. pose proof (session_environment_wf se) as Ws.
  assert (dict_wf (dupdate (dset (session_environment se) §"DISPLAY" display) (Manifest.env m))) as We
    by (by apply dupdate_wf, dset_wf).
  assert (dict_wf (without_i18n (dupdate (dset (session_environment se) §"DISPLAY" display) (Manifest.env m)))) as Wn
    by (by apply dict_filter_wf).
  split; [by apply dupdate_wf|]. exists display. split; [done|]. intros n. rewrite dget_dupdate by done.
  unfold without_i18n. rewrite dget_filter by done.
  destruct (_is_i18n_environment_name n) eqn:Hn.
  - destruct (dget (session_locale se) n); [done|]. destruct (dget _ n) as [v|]; [|done].
    rewrite decide_False; [done|]. cbn. by rewrite Hn.
  - rewrite (Hl n Hn), dget_dupdate, dget_dset by done. case_bool_decide as Hd; case_decide; try done;
      destruct (dget (Manifest.env m) n); [by rewrite decide_True..|by rewrite decide_True|].
    by destruct (dget (session_environment se) n); [rewrite decide_True|].
Qed.

(** The private directories and the Python runtime of an installed package. *)
Lemma isolation_lookup se m obj env env1 : dict_wf env -> is_builtin se m obj = false ->
  _apply_component_isolation se m obj env = Ok env1 ->
  (forall n v, (n, v) ∈ private_variables se m -> dget env1 n = Some v) /\
  (exists pythonpath, platform_pythonpath m = Ok pythonpath /\
     forall n, n ∈ RUNTIME_VARIABLES -> dget env1 n = dget (platform_variables pythonpath) n) /\
  (forall n, n ∉ private_or_runtime -> dget env1 n = dget env n).
Proof.
  intros Hwf Hb. unfold _apply_component_isolation. rewrite Hb. destruct (mapR mkdir _); [|done]. cbn [rbind].
  destruct (platform_pythonpath m) as [p|e]; [|done]. cbn [rbind]. set (base := filter _ env).
  pose proof (private_keys se m) as Kv. set (pv := private_variables se m) in *. clearbody pv.
  intros [= <-]. pose proof (platform_keys p) as Kp.
  assert (dict_wf (platform_variables p)) as Wp by (eapply names_wf; [exact Kp|vm_compute; reflexivity]).
  assert (dict_wf pv) as Wv by (unfold dict_wf; rewrite Kv; apply (bool_decide_unpack _); vm_compute; exact I).
  assert (forall n, n ∉ RUNTIME_VARIABLES -> n ∉ dkeys (platform_variables p)) as Hnp.
  { intros n Hn Hin. apply Hn. pose proof (elem_of_sublist _ _ _ Hin Kp) as Hk. clear Hn Hin. revert n Hk.
    apply (names_Forall (fun n => n ∈ RUNTIME_VARIABLES)). vm_compute. reflexivity. }
  split; [|split; [exists p; split; [done|]|]].
  - intros n v Hin. transitivity (dget (dupdate base pv) n); [|by apply dget_dupdate_has].
    apply dget_dupdate_other; [done|]. apply Hnp, private_not_runtime.
    rewrite <- Kv. apply (list_elem_of_fmap_2 fst) in Hin. exact Hin.
  - intros n Hn. rewrite dget_dupdate by done. destruct (dget (platform_variables p) n); [done|].
    transitivity (dget base n).
    + apply dget_dupdate_other; [done|]. rewrite Kv. intros Hin. by apply (private_not_runtime n).
    + unfold base. rewrite dget_filter by done. destruct (dget env n); [|done]. rewrite decide_False; [done|]. cbn. tauto.
  - intros n Hn. unfold private_or_runtime in Hn. apply not_elem_of_app in Hn as [Hv Hr].
    transitivity (dget (dupdate base pv) n); [apply dget_dupdate_other; [done|by apply Hnp]|].
    transitivity (dget base n); [apply dget_dupdate_other; [done|by rewrite Kv]|].
    unfold base. rewrite dget_filter by done. destruct (dget env n); [|done]. by rewrite decide_True.
Qed.

(** What a launched generation finds in its environment.  Locale variables
    are those of the session whatever the manifest says; the identity of the
    generation is Core's; an installed package has its own directories and no
    Python runtime but the approved platform path; in every other respect the
    manifest wins over the display of the session and that over the profile
    and the inherited environment. *)
Theorem launch_environment_spec se s m obj gen activation argv env :
  dict_wf (Manifest.env m) -> prepare se s m obj gen activation = Ok (argv, env) ->
  (forall n, _is_i18n_environment_name n = true -> dget env n = dget (session_locale se) n) /\
  (exists fd, socketpair = Ok fd /\ forall n v, (n, v) ∈ core_variables se m fd gen -> dget env n = Some v) /\
  (is_builtin se m obj = false ->
    (forall n v, (n, v) ∈ private_variables se m -> dget env n = Some v) /\
    exists pythonpath, platform_pythonpath m = Ok pythonpath /\
      forall n, n ∈ RUNTIME_VARIABLES -> dget env n = dget (platform_variables pythonpath) n) /\
  exists display, _session_display se s = Ok display /\
    forall n, _is_i18n_environment_name n = false -> n ∉ core_names ++ late_names ->
      (is_builtin se m obj = false -> n ∉ private_or_runtime) ->
      dget env n = match dget (Manifest.env m) n with
                   | Some v => Some v
                   | None => if bool_decide (n = §"DISPLAY") then Some display else dget (session_environment se) n
                   end.
Proof.
  intros Hm. unfold prepare. destruct (launch_environment se s m obj gen activation) as [env'|e] eqn:Henv; [|done].
  cbn [rbind]. destruct (_resolve_exec m); [|done]. cbn [rbind]. intros [= _ <-].
  destruct (late_lookup se s m obj gen activation env' Henv) as (fd & env0 & env1 & Hfd & H0 & H1 & Hcore & Hother).
  destruct (component_lookup se s m env0 Hm H0) as (W0 & display & Hdisplay & Hlookup).
  assert (forall n, (is_builtin se m obj = false -> n ∉ private_or_runtime) -> dget env1 n = dget env0 n) as Hiso.
  { intros n Hn. destruct (is_builtin se m obj) eqn:Hb.
    - unfold _apply_component_isolation in H1. rewrite Hb in H1. by injection H1 as ->.
    - destruct (isolation_lookup se m obj env0 env1 W0 Hb H1) as (_ & _ & Hrest). by apply Hrest, Hn. }
  assert (forall n, n ∈ private_or_runtime -> dget env' n = dget env1 n) as Hpriv
    by (intros n Hn; by apply Hother, private_not_later).
  split; [|split; [by exists fd|split; [|exists display; split; [done|]]]].
  - intros n Hn. assert (n ∉ core_names ++ late_names ++ private_or_runtime) as Hnot
      by (intros Hin%decided_not_i18n; congruence).
    rewrite (assoc_L (++)) in Hnot. apply not_elem_of_app in Hnot as [Hc Hp].
    rewrite Hother, Hiso, Hlookup, Hn by done. done.
  - intros Hb. destruct (isolation_lookup se m obj env0 env1 W0 Hb H1) as (Hv & (p & Hp & Hr) & _). split.
    + intros n v Hin. rewrite Hpriv; [by apply Hv|]. apply elem_of_app. left. rewrite <- (private_keys se m).
      apply (list_elem_of_fmap_2 fst) in Hin. exact Hin.
    + exists p. split; [done|]. intros n Hn. rewrite Hpriv; [by apply Hr|]. apply elem_of_app. by right.
  - intros n Hi Hn Hp. rewrite Hother, Hiso, Hlookup, Hi by done. done.
Qed.
End EnvironmentTheorem.

(* ------------------------------------------------------------------ *)
(** ** [@package] arguments stay in their package *)

Section Arguments.
Context {lib : PyLib} {repr : PyRepr} {host : Host}.

(** A segment of a package path that names one entry of a directory. *)
Definition plain_segment (s : pystr) : Prop := s ∉ [[]; §"."; §".."] /\ slash ∉ s /\ 0 ∉ s /\ 92 ∉ s.

Lemma path_of_plain s : plain_segment s -> path_of s = PPath [] [s].
Proof.
  intros (Hn & Hs & _). unfold path_of. rewrite str_split_piece by done.
  assert (List.filter (fun p => str_true p && negb (bool_decide (p = §"."))) [s] = [s]) as ->.
  { cbn. destruct s as [|c s]; [destruct Hn; left|]. rewrite bool_decide_eq_false_2; [done|]. intros Heq. apply Hn. rewrite Heq. right. left. }
  destruct s as [|c s]; [done|]. assert (c ≠ slash) as Hc by (intros ->; destruct Hs; left).
  assert ((47 =? c) = false) as E by (apply N.eqb_neq; intros Heq; by apply Hc).
  assert (forall p, str_startswith (47 :: p) (c :: s) = false) as Hstart
    by (intros p; cbn [str_startswith]; by rewrite E).
  replace §"///" with [47; 47; 47] by reflexivity. replace §"//" with [47; 47] by reflexivity.
  replace §"/" with [47] by reflexivity. by rewrite !Hstart.
Qed.

Lemma candidate_parts segments root : Forall plain_segment segments ->
  foldl (fun p s => path_div p (path_of s)) root segments = PPath (proot root) (pparts root ++ segments).
Proof.
  revert root; induction segments as [|s l IH]; intros root; cbn [foldl]; [rewrite app_nil_r; by destruct root|].
  intros [Hs Hl]%Forall_cons. rewrite path_of_plain by done. rewrite IH by done. cbn. by rewrite <- (assoc_L (++)).
Qed.

Lemma split_no_sep c s : Forall (fun w => c ∉ w) (str_split c s).
Proof.
  induction s as [|x s IH]; cbn [str_split]; [repeat constructor; apply not_elem_of_nil|].
  pose proof (str_split_ne c s) as Hne. destruct (str_split c s) as [|w ws]; [done|].
  destruct (x =? c) eqn:E; [constructor; [apply not_elem_of_nil|done]|].
  apply Forall_cons in IH as [Hw Hws]. constructor; [|done]. rewrite elem_of_cons. intros [->|?]; [|done].
  by rewrite N.eqb_refl in E.
Qed.

Lemma split_chars c x s w : x ∉ s -> w ∈ str_split c s -> x ∉ w.
Proof.
  intros Hx Hw Hin. apply Hx. rewrite <- (str_join_split c s). revert Hw. generalize (str_split c s). intros l.
  induction l as [|y [|z l] IH]; intros Hw; [by destruct (not_elem_of_nil _ Hw)| |].
  - apply list_elem_of_singleton in Hw as ->. exact Hin.
  - cbn [str_join]. rewrite !elem_of_app. apply elem_of_cons in Hw as [->|Hw]; [by left|]. right. right. by apply IH.
Qed.

(** What an accepted reference stands for. *)
Record in_package (m : Manifest.Component) (value : pystr) (candidate resolved : ppath) : Prop := {
  ip_manifest : exists manifest root segments, Manifest.manifest_path m = Some manifest /\
    resolve_path true (path_parent manifest) = Ok root /\
    value = §"@package/" ++ str_join [slash] segments /\ segments ≠ [] /\ Forall plain_segment segments /\
    candidate = PPath (proot root) (pparts root ++ segments) /\
    resolve_path false candidate = Ok resolved /\
    proot resolved = proot root /\ pparts root `prefix_of` pparts resolved;
}.

Lemma resolve_package_argument_spec m value candidate resolved :
  is_package_reference value = true -> _resolve_package_argument m value = Ok (candidate, resolved) ->
  in_package m value candidate resolved.
Proof.
  intros Href. unfold _resolve_package_argument. destruct (Manifest.manifest_path m) as [manifest|] eqn:Hm; [|done].
  set (relative := if bool_decide (value = §"@package") then [] else str_removeprefix §"@package/" value).
  rewrite bind_Ok. intros ([] & Hne%raise_if_Ok & H). revert H. rewrite bind_Ok. intros ([] & Hsafe%raise_if_Ok & H).
  revert H. rewrite bind_Ok. intros ([] & Hseg%raise_if_Ok & H). revert H. rewrite bind_Ok. intros ([] & _ & H).
  apply reraise_Ok in H. revert H. rewrite bind_Ok. intros (root & Hroot & H). revert H. rewrite bind_Ok.
  intros (res & Hres & H). revert H. rewrite bind_Ok. intros ([] & Hrel & [= Hc Hr]).
  assert (value = §"@package/" ++ relative) as Hvalue.
  { unfold relative in *. unfold is_package_reference in Href. destruct (bool_decide (value = §"@package")) eqn:E; [done|].
    cbn [orb] in Href. apply str_startswith_spec in Href as [r ->]. f_equal. }
  clearbody relative.
  assert (Forall plain_segment (str_split slash relative)) as Hplain.
  { apply Forall_forall. intros s Hs. split; [|split; [|split]].
    - intros Hin. enough (existsb (fun s => bool_decide (s ∈ [[]; §"."; §".."])) (str_split slash relative) = true) by congruence.
      apply existsb_exists. exists s. split; [by apply list_elem_of_In|by apply bool_decide_eq_true].
    - pose proof (proj1 (Forall_forall _ _) (split_no_sep slash relative) s Hs) as Hall. exact Hall.
    - apply orb_false_iff in Hsafe as [H0 _]. apply (split_chars slash 0 relative s); [|done].
      intros Hin. apply str_has_spec in Hin. congruence.
    - apply orb_false_iff in Hsafe as [_ H92]. apply (split_chars slash 92 relative s); [|done].
      intros Hin. apply str_has_spec in Hin. congruence. }
  rewrite candidate_parts in Hres, Hc by done. constructor. exists manifest, root, (str_split slash relative).
  split; [done|]. split; [done|]. split; [by rewrite str_join_split|]. split; [apply str_split_ne|]. split; [done|].
  split; [done|]. split; [congruence|].
  unfold relative_to in Hrel. destruct (bool_decide (proot root = proot res)) eqn:E1; [|done].
  destruct (bool_decide (take _ _ = _)) eqn:E2; [|done]. apply bool_decide_eq_true in E1, E2. subst resolved.
  split; [done|]. rewrite <- E2. exists (drop (length (pparts root)) (pparts res)). by rewrite take_drop.
Qed.

(** The only argument that is replaced: the interpreter's name. *)
Definition final_argument (i : nat) (declared arg : pystr) : Prop :=
  arg = declared \/ (i = 0%nat /\ declared ∈ [§"python"; §"@msys-python"] /\ arg = sys_executable).

(** C16: a component is started with as many arguments as it declares, in order;
    an argument is passed as it is declared (but for the interpreter's name),
    and a reference into the package becomes the resolved path of a file below
    the resolved package root, whatever links the package holds; the program of
    a package is itself a regular executable file and not a link. *)
Theorem package_arguments_stay_inside m argv : _resolve_exec m = Ok argv ->
  length argv = length (Manifest.exec m) /\
  forall i value arg, Manifest.exec m !! i = Some value -> argv !! i = Some arg ->
    if is_package_reference value
    then exists candidate resolved, in_package m value candidate resolved /\
           final_argument i (path_str resolved) arg /\
           (i = 0%nat -> lstat candidate = Ok RegularFile /\ access_x resolved = true)
    else final_argument i value arg.
Proof.
  unfold _resolve_exec. rewrite bind_Ok. intros (args & Hargs & [= <-]). apply imapR_from_Ok in Hargs as [Hlen Hargs].
  set (final := match args with [] => args | first :: rest => _ end).
  assert (length final = length args /\ forall i a, final !! i = Some a -> exists d, args !! i = Some d /\ final_argument i d a)
    as [Hl Hf].
  { unfold final. destruct args as [|first rest]; [done|]. case_bool_decide as Hp; [|by split; [|intros i a Ha; exists a; split; [|left]]].
    split; [done|]. intros [|i] a Ha; cbn in *; [injection Ha as <-; exists first; split; [done|by right]|exists a; split; [done|by left]]. }
  split; [congruence|]. intros i value arg Hv Ha. destruct (Hf i arg Ha) as (d & Hd & Hfin).
  destruct (Hargs i value Hv) as (y & Hy & Hr). assert (y = d) as -> by congruence. cbn [Nat.add] in Hr. unfold resolve_argument in Hr.
  destruct (is_package_reference value) eqn:Href; [|by injection Hr as ->].
  revert Hr. rewrite bind_Ok. intros ([candidate resolved] & Hpath & H). revert H. rewrite bind_Ok. cbn [fst snd].
  intros ([] & Hexe & [= <-]). exists candidate, resolved.
  split; [by apply resolve_package_argument_spec|]. split; [done|]. intros ->. cbn in Hexe.
  unfold _validate_package_executable in Hexe. revert Hexe. rewrite bind_Ok. intros (kind & Hkind%reraise_Ok & H).
  revert H. rewrite bind_Ok. intros ([] & _ & H). revert H. rewrite bind_Ok. intros ([] & Hreg%raise_if_Ok & Hx%raise_if_Ok).
  apply negb_false_iff in Hx. by destruct kind.
Qed.
End Arguments.

(* ------------------------------------------------------------------ *)
(** ** Core and the presentation catalogs agree on locale names *)

Section Agreement.
Context {lib : PyLib}.

Lemma times_spec p n s : matches (rtimes n (cls p)) s -> length s = n /\ Forall (fun c => p c = true) s.
Proof.
  revert s; induction n as [|[|n] IH]; intros s; cbn [rtimes].
  - intros ->%matches_eps. by split.
  - intros (c & -> & Hc)%matches_class. split; [done|by constructor].
  - intros (s1 & s2 & -> & (c & -> & Hc)%matches_class & [Hl Hf]%IH)%matches_seq.
    cbn [app length]. split; [by rewrite Hl|by constructor].
Qed.

Lemma upto_spec p n s : matches (rupto n (cls p)) s -> (length s <= n)%nat /\ Forall (fun c => p c = true) s.
Proof.
  revert s; induction n as [|n IH]; intros s; cbn [rupto]; [intros ->%matches_eps; by split|].
  intros [Hm|Hm]%matches_alt; [|apply matches_eps in Hm as ->; cbn; split; [lia|done]].
  apply matches_seq in Hm as (s1 & s2 & -> & (c & -> & Hc)%matches_class & [Hl Hf]%IH). cbn. split; [lia|by constructor].
Qed.

Lemma between_spec p m n s : (m <= n)%nat -> matches (rbetween m n (cls p)) s ->
  (m <= length s <= n)%nat /\ Forall (fun c => p c = true) s.
Proof.
  intros Hmn (s1 & s2 & -> & [H1 F1]%times_spec & [H2 F2]%upto_spec)%matches_seq.
  rewrite length_app, Forall_app. split; [lia|done].
Qed.

Lemma forallb_class (p q : N -> bool) s : (forall c, p c = true -> isascii_c c = true /\ q c = true) ->
  Forall (fun c => p c = true) s -> ascii s /\ forallb q s = true.
Proof.
  intros Hp Hs. split; [eapply Forall_impl; [exact Hs|]; intros c Hc; by apply Hp|].
  apply forallb_elem. intros c Hc. apply Hp. by apply (proj1 (Forall_forall _ _) Hs).
Qed.

Definition script_re : regex := RSeq (cls upper_ascii) (rtimes 3 (cls lower_ascii)).
Definition region_re : regex := RAlt (rtimes 2 (cls upper_ascii)) (rtimes 3 (cls digit_ascii)).
Definition variant_re : regex :=
  RAlt (rbetween 5 8 (cls lower_alnum)) (RSeq (cls digit_ascii) (rtimes 3 (cls lower_alnum))).

Lemma alpha_class c : upper_ascii c = true \/ lower_ascii c = true -> isascii_c c = true /\ isalpha_c c = true.
Proof.
  intros Hc. assert (isascii_c c = true) as Ha by (destruct Hc; char_cases).
  split; [done|]. unfold isalpha_c, alpha_ascii. rewrite Ha. by destruct Hc as [->| ->]; rewrite ?orb_true_r.
Qed.

Lemma digit_class c : digit_ascii c = true -> isascii_c c = true /\ isdigit_c c = true.
Proof. intros Hc. assert (isascii_c c = true) as Ha by char_cases. split; [done|]. unfold isdigit_c. by rewrite Ha. Qed.

Lemma alnum_class c : lower_alnum c = true -> isascii_c c = true /\ isalnum_c c = true.
Proof.
  intros Hc. assert (isascii_c c = true) as Ha by (unfold lower_alnum in Hc; char_cases).
  split; [done|]. unfold isalnum_c, alnum_ascii, alpha_ascii. rewrite Ha. unfold lower_alnum in Hc.
  apply orb_true_iff in Hc as [->| ->]; by rewrite ?orb_true_r.
Qed.

Lemma script_re_ok s : matches script_re s -> is_script s = true.
Proof.
  intros (s1 & s2 & -> & (c & -> & Hc)%matches_class & [Hl Hf]%times_spec)%matches_seq. unfold is_script. cbn [app length].
  rewrite Hl. cbn. unfold str_isalpha. cbn. rewrite (proj2 (alpha_class c (or_introl Hc))).
  apply (forallb_class lower_ascii isalpha_c s2); [|done]. intros x Hx. apply alpha_class. by right.
Qed.

Lemma region_re_ok s : matches region_re s -> is_region s = true.
Proof.
  unfold is_region. intros [[Hl Hf]%times_spec|[Hl Hf]%times_spec]%matches_alt; rewrite Hl; cbn.
  - unfold str_isalpha. destruct (forallb_class upper_ascii isalpha_c s (fun c Hc => alpha_class c (or_introl Hc)) Hf) as [_ ->].
    by destruct s.
  - unfold str_isdigit. destruct (forallb_class digit_ascii isdigit_c s digit_class Hf) as [_ ->]. by destruct s.
Qed.

Lemma variant_re_ok s : matches variant_re s -> is_variant s = true.
Proof.
  unfold is_variant. intros [Hm|Hm]%matches_alt.
  - apply between_spec in Hm as [Hl Hf]; [|lia].
    destruct (forallb_class lower_alnum isalnum_c s alnum_class Hf) as [Ha Hn]. rewrite (proj2 (ascii_spec s) Ha).
    unfold str_isalnum. rewrite Hn. destruct s; [cbn in Hl; lia|]. cbn [str_true andb].
    apply orb_true_iff. left. apply andb_true_iff. split; apply Nat.leb_le; lia.
  - apply matches_seq in Hm as (s1 & s2 & -> & (c & -> & Hc)%matches_class & [Hl Hf]%times_spec).
    destruct (digit_class c Hc) as [Hca Hcd].
    destruct (forallb_class lower_alnum isalnum_c s2 alnum_class Hf) as [Ha Hn]. cbn [app].
    unfold str_isascii, str_isalnum. cbn [forallb str_true andb]. rewrite Hca, Hn. cbn [andb].
    assert (str_isascii s2 = true) as Hs2 by (by apply ascii_spec). unfold str_isascii in Hs2. rewrite Hs2.
    assert (isalnum_c c = true) as ->.
    { unfold isalnum_c, alnum_ascii. by rewrite Hca, Hc, orb_true_r. }
    cbn [length]. rewrite Hl, Hcd. done.
Qed.

(** What the name of a canonical locale is made of. *)
Lemma canonical_locale_shape s : fullmatch _CANONICAL_LOCALE s = true ->
  exists language w2 w3 w4, str_split dash s = language :: w2 ++ w3 ++ w4 /\
    (length w2 <= 1)%nat /\ (length w3 <= 1)%nat /\
    forallb is_script w2 = true /\ forallb is_region w3 = true /\ forallb is_variant w4 = true.
Proof.
  intros Hm. apply fullmatch_spec in Hm.
  apply matches_seq in Hm as (s1 & r1 & -> & H1 & Hm). apply matches_seq in Hm as (s2 & r2 & -> & H2 & Hm).
  apply matches_seq in Hm as (s3 & s4 & -> & H3 & H4).
  assert (part_ok s1) as Hs1 by (eapply part_re_ok; [|exact H1]; solve_part_re).
  assert (forall r s test, part_re r -> (forall s, matches r s -> test s = true) ->
    matches (ropt (RSeq (rchar dash) r)) s ->
    exists ws, s = dashed ws /\ Forall part_ok ws /\ (length ws <= 1)%nat /\ forallb test ws = true) as Hopt.
  { intros r s test Hr Ht [Hm|Hm]%matches_alt; [|apply matches_eps in Hm as ->; exists []; split; [done|]; split; [constructor|]; split; [cbn; lia|done]].
    apply matches_seq in Hm as (d & w & -> & (c & -> & Hc)%matches_class & Hw). apply N.eqb_eq in Hc as <-.
    exists [w]. split; [cbn; by rewrite app_nil_r|]. split; [constructor; [by eapply part_re_ok|done]|].
    split; [cbn; lia|]. cbn. by rewrite (Ht w Hw). }
  assert (forall r s test, part_re r -> (forall s, matches r s -> test s = true) ->
    matches (RStar (RSeq (rchar dash) r)) s ->
    exists ws, s = dashed ws /\ Forall part_ok ws /\ forallb test ws = true) as Hstar.
  { intros r s test Hr Ht. remember (length s) as n eqn:Hn. revert s Hn.
    induction (lt_wf n) as [n _ IH]. intros s Hn Hm. destruct s as [|c s]; [by exists []|].
    apply matches_star_cons in Hm as (x1 & x2 & -> & Hx1 & Hx2).
    apply matches_seq in Hx1 as (d & w & Heq & (c' & -> & Hc)%matches_class & Hw). apply N.eqb_eq in Hc as <-.
    injection Heq as -> ->.
    destruct (IH (length x2)) with (s := x2) as (ws & -> & Hws & Hts); [subst n; cbn; rewrite length_app; lia|done|done|].
    exists (w :: ws). split; [done|]. split; [constructor; [by eapply part_re_ok|done]|]. cbn. by rewrite (Ht w Hw). }
  destruct (Hopt script_re s2 is_script ltac:(solve_part_re) script_re_ok H2) as (w2 & -> & P2 & L2 & T2).
  destruct (Hopt region_re s3 is_region ltac:(solve_part_re) region_re_ok H3) as (w3 & -> & P3 & L3 & T3).
  destruct (Hstar variant_re s4 is_variant ltac:(solve_part_re) variant_re_ok H4) as (w4 & -> & P4 & T4).
  exists s1, w2, w3, w4. split; [|done].
  assert (dashed w2 ++ dashed w3 ++ dashed w4 = dashed (w2 ++ w3 ++ w4)) as -> by (unfold dashed; by rewrite !bind_app).
  apply split_dashed; [apply Hs1|]. by rewrite !Forall_app.
Qed.
End Agreement.

Section Agree.
Context {lib : PyLib}.

Lemma script_length p : is_script p = true -> length p = 4%nat.
Proof. intros H. apply andb_true_iff in H as [H _]. by apply Nat.eqb_eq. Qed.

Lemma region_length p : is_region p = true -> (length p = 2 \/ length p = 3)%nat.
Proof. intros H. apply orb_true_iff in H as [H|H]; apply andb_true_iff in H as [H _]; apply Nat.eqb_eq in H; auto. Qed.

Lemma variant_shape p : ascii p -> is_variant p = true ->
  str_isalnum p = true /\ (4 <= length p)%nat /\ (length p = 4%nat -> str_isalpha p = false).
Proof.
  intros Ha H. apply andb_true_iff in H as [H Hl]. apply andb_true_iff in H as [_ Hn]. split; [done|].
  apply orb_true_iff in Hl as [Hl|Hl]; apply andb_true_iff in Hl as [H1 H2].
  - apply Nat.leb_le in H1. split; lia.
  - apply Nat.eqb_eq in H1. split; [lia|]. intros _. destruct Ha as [|c p Hc Ha]; [done|].
    unfold str_isalpha, isalpha_c. cbn [str_true forallb]. unfold isdigit_c in H2. rewrite Hc in H2 |- *.
    cbn [andb]. assert (alpha_ascii c = false) as -> by char_cases. done.
Qed.

Lemma alnum_isalnum p : p ≠ [] -> ascii p -> alnum p -> str_isalnum p = true.
Proof.
  intros Hne Ha Hn. unfold str_isalnum. destruct p; [done|]. cbn [str_true andb]. apply forallb_elem. intros c Hc.
  unfold isalnum_c. rewrite (proj1 (Forall_forall _ _) Ha c Hc). by apply (proj1 (Forall_forall _ _) Hn).
Qed.

Lemma upper_digits p : ascii p -> str_isdigit p = true -> str_upper p = p.
Proof.
  intros Ha Hd. rewrite upper_ascii_eq by done. unfold str_isdigit in Hd. apply andb_true_iff in Hd as [_ Hd].
  induction Ha as [|c p Hc Ha IH]; [done|]. cbn [forallb] in Hd. apply andb_true_iff in Hd as [Hc' Hd].
  cbn [fmap list_fmap]. f_equal; [|by apply IH]. unfold isdigit_c in Hc'. rewrite Hc in Hc'.
  unfold to_upper_ascii. assert (lower_ascii c = false) as -> by char_cases. done.
Qed.

Lemma part_variant i p : ascii p -> is_variant p = true -> canonical_part i p = Some (str_lower p).
Proof.
  intros Ha Hv. destruct (variant_shape p Ha Hv) as (Hn & Hl & Halpha). unfold canonical_part. rewrite Hn. cbn [negb].
  destruct (length p =? 4)%nat eqn:E4.
  - apply Nat.eqb_eq in E4. rewrite (Halpha E4), E4, !andb_false_r. done.
  - rewrite andb_false_r. cbn [andb]. assert ((length p =? 2)%nat = false) as -> by (apply Nat.eqb_neq; lia).
    assert ((length p =? 3)%nat = false) as -> by (apply Nat.eqb_neq; lia). done.
Qed.

Lemma part_region i p : ascii p -> is_region p = true -> canonical_part i p = Some (str_upper p).
Proof.
  intros Ha Hr. pose proof (region_length p Hr) as Hl. unfold canonical_part.
  rewrite alnum_isalnum; [|by destruct Hl; destruct p|done|by apply region_alnum]. cbn [negb].
  assert ((length p =? 4)%nat = false) as -> by (apply Nat.eqb_neq; lia). rewrite andb_false_r. cbn [andb].
  unfold is_region in Hr. destruct ((length p =? 2)%nat && str_isalpha p); [done|]. cbn [orb] in Hr. rewrite Hr.
  apply andb_true_iff in Hr as [_ Hd]. by rewrite upper_digits.
Qed.

Lemma part_script p : ascii p -> is_script p = true -> canonical_part 1 p = Some (str_title p).
Proof.
  intros Ha Hs. pose proof (script_length p Hs) as Hl. unfold canonical_part.
  rewrite alnum_isalnum; [|by destruct p|done|by apply script_alnum]. cbn [negb].
  unfold is_script in Hs. rewrite <- (andb_assoc (1 =? 1)%nat), Hs. done.
Qed.

Lemma rest_variants i l : Forall ascii l -> forallb is_variant l = true -> canonical_rest i l = Some (str_lower <$> l).
Proof.
  intros Ha. revert i. induction Ha as [|p l Hp Ha IH]; intros i; [done|]. cbn [forallb canonical_rest].
  intros [Hv Hl]%andb_true_iff. rewrite (part_variant i p Hp Hv). cbn [mbind option_bind]. by rewrite IH.
Qed.

Lemma rest_region i l region rest : Forall ascii l -> take_part is_region str_upper l = (region, rest) ->
  forallb is_variant rest = true -> canonical_rest i l = Some (region ++ (str_lower <$> rest)).
Proof.
  intros Ha Ht Hv. destruct Ha as [|p l Hp Ha]; cbn in Ht; [by injection Ht as <- <-|].
  destruct (is_region p) eqn:Hr; injection Ht as <- <-.
  - cbn [canonical_rest]. rewrite (part_region i p Hp Hr). cbn [mbind option_bind]. by rewrite rest_variants.
  - apply rest_variants; [by constructor|done].
Qed.

(** What the presentation accepts is normalised in the same way by Core. *)
Lemma parts_tag parts canonical : Forall ascii parts -> canonical_parts parts = Some canonical ->
  canonical_tag parts = Some canonical.
Proof.
  intros Ha. destruct Ha as [|language rest Hl Ha]; [done|]. unfold canonical_parts, canonical_tag.
  destruct (negb _) eqn:Hlang; [done|]. apply negb_false_iff in Hlang. apply andb_true_iff in Hlang as [H28 Halpha].
  rewrite H28, Halpha. cbn [negb orb].
  destruct (take_part is_script str_title rest) as [script rest1] eqn:Hs.
  destruct (take_part is_region str_upper rest1) as [region rest2] eqn:Hr.
  destruct (forallb is_variant rest2) eqn:Hv; [|done]. intros [= <-].
  enough (canonical_rest 1 rest = Some (script ++ region ++ (str_lower <$> rest2))) as -> by done.
  destruct Ha as [|p rest Hp Ha]; cbn in Hs.
  { injection Hs as <- <-. cbn in Hr. by injection Hr as <- <-. }
  destruct (is_script p) eqn:Hsc; injection Hs as <- <-.
  - cbn [canonical_rest]. rewrite (part_script p Hp Hsc). cbn [mbind option_bind].
    rewrite (rest_region 2 rest region rest2) by done. done.
  - apply rest_region; [by constructor|done|done].
Qed.

(** Core's normalisation of a part keeps its kind. *)
Lemma part_kind i p c : ascii p -> canonical_part i p = Some c -> same_kind p c /\ alnum c.
Proof.
  intros Ha. unfold canonical_part. destruct (str_isalnum p) eqn:Hn; cbn [negb]; [|done].
  pose proof (isalnum_alnum p Ha Hn) as Hal.
  assert (same_kind p p) as Hrefl by (clear -Ha; by induction Ha; constructor).
  assert (forall q, same_kind p q -> same_kind p q /\ alnum q) as Hk by (intros q Hq; split; [done|by eapply kind_alnum]).
  destruct (_ && _); [intros [= <-]; by apply Hk, title_same_kind_str|].
  destruct (_ && _); [intros [= <-]; by apply Hk, upper_same_kind|].
  destruct (_ && _); intros [= <-]; [by apply Hk|by apply Hk, lower_same_kind].
Qed.

Lemma rest_kinds i l cs : Forall ascii l -> canonical_rest i l = Some cs -> Forall2 same_kind l cs /\ Forall alnum cs.
Proof.
  intros Ha. revert i cs. induction Ha as [|p l Hp Ha IH]; intros i cs; cbn [canonical_rest]; [intros [= <-]; by split|].
  destruct (canonical_part i p) as [c|] eqn:Hc; [|done]. cbn [mbind option_bind].
  destruct (canonical_rest (S i) l) as [cs'|] eqn:Hcs; [|done]. cbn [mbind option_bind]. intros [= <-].
  destruct (part_kind i p c Hp Hc), (IH _ _ Hcs). by repeat constructor.
Qed.

(** Taking an optional part from parts that look like [ws ++ more]. *)
Lemma take_part_like test f parts ws more :
  (forall s t, same_kind s t -> test s = test t) -> Forall2 same_kind parts (ws ++ more) ->
  (length ws <= 1)%nat -> forallb test ws = true -> (forall p more', more = p :: more' -> ws = [] -> test p = false) ->
  exists taken rest, take_part test f parts = (taken, rest) /\ Forall2 same_kind rest more.
Proof.
  intros Htest Hk Hl Hws Hmore. destruct ws as [|w [|]]; cbn in Hl; [| |lia].
  - cbn [app] in Hk. destruct Hk as [|p q parts more Hpq Hk]; [by exists [], []|]. exists [], (p :: parts). cbn.
    rewrite (Htest p q Hpq), (Hmore q more eq_refl eq_refl). split; [done|by constructor].
  - cbn [app] in Hk. inversion Hk as [|p q parts' more' Hpq Hk']; subst. cbn in Hws. rewrite andb_true_r in Hws.
    exists [f p], parts'. cbn. by rewrite (Htest p w Hpq), Hws.
Qed.
End Agree.

Section AgreeTheorem.
Context {lib : PyLib}.

(** What Core accepts has the shape the presentation requires. *)
Lemma tag_parts parts canonical : Forall ascii parts -> canonical_tag parts = Some canonical ->
  fullmatch _CANONICAL_LOCALE (str_join [dash] canonical) = true -> canonical_parts parts = Some canonical.
Proof.
  intros Ha Ht Hm. enough (exists c, canonical_parts parts = Some c) as [c Hc]
    by (pose proof (parts_tag parts c Ha Hc); congruence).
  destruct Ha as [|language rest Hl Ha]; [done|]. unfold canonical_tag in Ht.
  destruct (negb _ || negb _) eqn:Hlang; [done|]. apply orb_false_iff in Hlang as [Halpha H28].
  apply negb_false_iff in Halpha, H28.
  destruct (canonical_rest 1 rest) as [cs|] eqn:Hcs; [|done]. injection Ht as <-.
  destruct (rest_kinds 1 rest cs Ha Hcs) as [Hk Hal].
  assert (alnum (str_lower language)) as Hll
    by (eapply kind_alnum; [by apply lower_same_kind|]; by apply alpha_alnum).
  destruct (canonical_locale_shape _ Hm) as (x & w2 & w3 & w4 & Hsplit & L2 & L3 & T2 & T3 & T4).
  rewrite str_split_join in Hsplit; [|done|].
  2:{ constructor; [by apply alnum_no_dash|]. eapply Forall_impl; [exact Hal|]. apply alnum_no_dash. }
  injection Hsplit as <- ->. rewrite !Forall_app in Hal. destruct Hal as (A2 & A3 & A4).
  assert (forall p more, w4 = p :: more -> is_variant p = true /\ ascii p) as H4.
  { intros p more ->. cbn in T4. apply andb_true_iff in T4 as [T4 _]. split; [done|].
    apply Forall_cons in A4 as [A4 _]. eapply Forall_impl; [exact A4|]. intros c Hc. char_cases. }
  destruct (take_part_like is_script str_title rest w2 (w3 ++ w4) kind_script Hk L2 T2) as (script & rest1 & Hs & Hk1).
  { intros p more Heq _. destruct w3 as [|r w3].
    - destruct (H4 p more Heq) as [Hv Hp]. destruct (variant_shape p Hp Hv) as (_ & _ & Hna).
      unfold is_script. destruct (length p =? 4)%nat eqn:E; [|done]. apply Nat.eqb_eq in E. by rewrite (Hna E).
    - injection Heq as -> _. cbn in T3. apply andb_true_iff in T3 as [T3 _]. pose proof (region_length p T3).
      unfold is_script. assert ((length p =? 4)%nat = false) as -> by (apply Nat.eqb_neq; lia). done. }
  destruct (take_part_like is_region str_upper rest1 w3 w4 kind_region Hk1 L3 T3) as (region & rest2 & Hr & Hk2).
  { intros p more Heq _. destruct (H4 p more Heq) as [Hv Hp]. destruct (variant_shape p Hp Hv) as (_ & Hlen & _).
    unfold is_region. assert ((length p =? 2)%nat = false) as -> by (apply Nat.eqb_neq; lia).
    assert ((length p =? 3)%nat = false) as -> by (apply Nat.eqb_neq; lia). done. }
  unfold canonical_parts. rewrite H28, Halpha, Hs, Hr, (kind_variants _ _ Hk2), T4. by eexists.
Qed.

Lemma upper_before c s : ascii s -> lower_ascii c = false -> upper_ascii c = false ->
  str_upper (str_before c s) = str_before c (str_upper s).
Proof.
  intros Ha Hlo Hup. rewrite !upper_ascii_eq by (done || by apply before_ascii).
  induction Ha as [|x s Hx Ha IH]; [done|]. cbn [str_before fmap list_fmap].
  assert ((to_upper_ascii x =? c) = (x =? c)) as ->.
  { unfold to_upper_ascii. destruct (lower_ascii x) eqn:E; [|done]. destruct (N.eqb_spec x c) as [->|Hne]; [congruence|].
    apply N.eqb_neq. intros <-. char_cases. }
  destruct (x =? c); [done|]. cbn. by rewrite IH.
Qed.

Lemma neutral_tag raw : ascii raw -> str_upper raw ∈ NEUTRAL_LOCALES ->
  str_upper (without_encoding raw) ∈ [§"C"; §"POSIX"].
Proof.
  intros Ha Hin. unfold without_encoding. rewrite upper_before by (by apply before_ascii || reflexivity).
  rewrite upper_before by (done || reflexivity). revert Hin. generalize (str_upper raw).
  apply (names_Forall (fun s => str_before 46 (str_before 64 s) ∈ [§"C"; §"POSIX"])). vm_compute. reflexivity.
Qed.

(** A tag of one letter is not a language. *)
Lemma one_letter tag : ascii tag -> str_upper tag = §"C" -> canonical_tag (str_split dash (str_replace_c 95 dash tag)) = None.
Proof.
  intros Ha Hup. pose proof (kind_length _ _ (upper_same_kind tag Ha)) as Hl. rewrite Hup in Hl.
  destruct tag as [|c [|? ?]]; [done| |done]. apply Forall_cons in Ha as [Hc _].
  assert ((c =? 95) = false /\ (c =? dash) = false) as [H1 H2].
  { rewrite upper_ascii_eq in Hup by (repeat constructor; done). injection Hup as Hup. unfold to_upper_ascii in Hup.
    unfold dash. destruct (lower_ascii c) eqn:E; split; apply N.eqb_neq; intros ->; try discriminate Hup; discriminate E. }
  cbn. rewrite H1, H2. cbn. by rewrite orb_true_r.
Qed.

(** Core and the presentation catalogs normalise locale names in the same
    way, although each has its own algorithm: an ASCII name is a locale for both
    or for neither and has the same canonical spelling, unless its language is
    POSIX (in any case). *)
Theorem locale_normalisers_agree value : ascii value ->
  str_upper (without_encoding (str_strip value)) ≠ §"POSIX" ->
  _normalize_msys_locale value = _normalized_locale (VStr value).
Proof.
  intros Ha Hposix. pose proof (strip_ascii value Ha) as Hraw. unfold _normalize_msys_locale, _normalized_locale.
  destruct (negb (str_true (str_strip value))); cbn [orb]; [done|].
  set (raw := str_strip value) in *. set (tag := without_encoding raw) in *.
  assert (ascii tag) as Htag by (by apply before_ascii, before_ascii).
  assert (Forall ascii (str_split dash (str_replace_c 95 dash tag))) as Hparts by (by apply split_ascii, replace_ascii).
  destruct (bool_decide (str_upper tag ∈ [§"C"; §"POSIX"])) eqn:Hc.
  - apply bool_decide_eq_true, elem_of_cons in Hc as [Hc|Hc%list_elem_of_singleton]; [|done].
    rewrite (one_letter tag Htag Hc). by destruct (bool_decide _).
  - apply bool_decide_eq_false in Hc. rewrite bool_decide_eq_false_2 by (intros Hin; by apply Hc, neutral_tag).
    destruct (canonical_parts _) as [c|] eqn:Hp; cbn [mbind option_bind].
    + by rewrite (parts_tag _ c Hparts Hp).
    + destruct (canonical_tag _) as [c|] eqn:Ht; cbn [mbind option_bind]; [|done].
      destruct (fullmatch _CANONICAL_LOCALE (str_join [dash] c)) eqn:Hm; [|done].
      pose proof (tag_parts _ c Hparts Ht Hm). congruence.
Qed.

(** With an encoding the neutral POSIX locale becomes a language of its own,
    which the presentation catalogs know to be none. *)
Theorem posix_with_encoding_is_a_language :
  _normalize_msys_locale §"POSIX.UTF-8" = Some §"posix" /\ _normalized_locale (VStr §"POSIX.UTF-8") = None /\
  _normalize_msys_locale §"C.UTF-8" = None /\ _normalize_msys_locale §"POSIX" = None.
Proof. vm_compute. repeat split. Qed.
End AgreeTheorem.

(* ------------------------------------------------------------------ *)
(** ** Witnesses *)

(** A host whose paths are all directories of their own. *)
Definition sample_host : Host := {|
  environ := [(§"PATH", §"/bin"); (§"LANG", §"de_DE.UTF-8"); (§"PYTHONPATH", §"/usr/lib/host")];
  sys_executable := §"/usr/bin/python3"; socketpair := Ok 7%Z; resolve_path _ p := Ok p;
  lstat _ := Ok RegularFile; access_x _ := true; is_dir _ := false; is_file _ := false; mkdir _ := Ok tt |}.

Definition sample_launched : Manifest.Component := {|
  Manifest.package_id := §"org.demo"; Manifest.package_version := §"2"; Manifest.id := §"app";
  Manifest.exec := [§"@package/files/bin/app"; §"--fast"]; Manifest.lifecycle := §"manual";
  Manifest.package_kind := §"application"; Manifest.package_name := §"Demo";
  Manifest.package_icons := []; Manifest.runtime := §"custom"; Manifest.restart := §"never";
  Manifest.idle_timeout_ms := None; Manifest.cwd := None;
  Manifest.env := [(§"LANG", §"fr_FR"); (§"PATH", §"/opt/bin"); (§"MSYS_COMPONENT_ID", §"org.other:root");
                   (§"HOME", §"/root")];
  Manifest.readiness_mode := §"exec"; Manifest.readiness_timeout_ms := 5000;
  Manifest.provides := []; Manifest.requires := []; Manifest.wants := []; Manifest.after := [];
  Manifest.windowing := []; Manifest.activation := []; Manifest.permissions := [];
  Manifest.isolation := Isolation.spec_default; Manifest.raw := [];
  Manifest.manifest_path := Some (path_of §"/opt/demo/manifest.json");
  Manifest.package_summary := []; Manifest.package_i18n := VNone |}.

Definition sample_session : Session := {|
  profile := VDict [(§"env", VDict [(§"LC_TIME", VStr §"C")])]; session_language := §"system";
  state_dir := path_of §"/var/msys"; runtime_dir := path_of §"/run/msys"; builtin_objects := [] |}.

#[local] Existing Instance sample_host.

Definition sample_launch : py (list pystr * dict pystr pystr) :=
  prepare sample_session Calls.sample_started sample_launched 1 3 None.

(** The manifest can neither choose a language nor claim another identity nor
    the home directory of the administrator; the rest is its own. *)
Lemma launch_environment_spec_witness : exists argv env, sample_launch = Ok (argv, env) /\
  dget env §"LANG" = Some §"de_DE.UTF-8" /\ dget env §"MSYS_LOCALE" = Some §"de-DE" /\
  dget env §"MSYS_COMPONENT_ID" = Some §"org.demo:app" /\ dget env §"MSYS_GENERATION" = Some §"3" /\
  dget env §"HOME" = Some §"/var/msys/apps/org.demo/home" /\ dget env §"PYTHONPATH" = None /\
  dget env §"PATH" = Some §"/opt/bin" /\ dget env §"LC_TIME" = Some §"C".
Proof.
  destruct sample_launch as [[argv env]|e] eqn:Hl; [|vm_compute in Hl; discriminate Hl].
  assert (dict_wf (@environ sample_host)) as Hwf by (apply (bool_decide_unpack _); vm_compute; exact I).
  destruct (launch_environment_spec Hwf sample_session Calls.sample_started sample_launched 1 3 None argv env)
    as (Hlocale & (fd & _ & Hcore) & Hpriv & (display & _ & Hrest)).
  { apply (bool_decide_unpack _). vm_compute. exact I. }
  { exact Hl. }
  destruct (Hpriv eq_refl) as [Hown (p & Hp & Hruntime)]. exists argv, env. split; [reflexivity|].
  split; [rewrite Hlocale by reflexivity; vm_compute; reflexivity|].
  split; [rewrite Hlocale by reflexivity; vm_compute; reflexivity|].
  split; [apply Hcore; right; left|]. split; [apply Hcore; right; right; left|].
  split; [apply Hown; left|].
  split; [rewrite Hruntime by left; vm_compute in Hp; injection Hp as <-; reflexivity|].
  split; [|rewrite Hlocale by reflexivity; vm_compute; reflexivity].
  rewrite Hrest; [vm_compute; reflexivity|reflexivity| |intros _]; apply (bool_decide_unpack _); vm_compute; exact I.
Defined.

Lemma package_arguments_stay_inside_witness : exists argv, _resolve_exec sample_launched = Ok argv /\
  argv !! 0%nat = Some §"/opt/demo/files/bin/app" /\ argv !! 1%nat = Some §"--fast".
Proof.
  destruct (_resolve_exec sample_launched) as [argv|e] eqn:Ha; [|vm_compute in Ha; discriminate Ha].
  exists argv. split; [reflexivity|]. destruct (package_arguments_stay_inside sample_launched argv Ha) as [Hlen Hargs].
  vm_compute in Ha. injection Ha as <-. split; [reflexivity|].
  destruct (Hargs 1%nat §"--fast" §"--fast") as [H|(Hi & _)]; [reflexivity..| |discriminate Hi]. reflexivity.
Defined.

Lemma locale_normalisers_agree_witness :
  _normalize_msys_locale §"zh_hans_cn.UTF-8" = Some §"zh-Hans-CN".
Proof.
  rewrite (locale_normalisers_agree §"zh_hans_cn.UTF-8").
  - vm_compute. reflexivity.
  - apply ascii_spec. vm_compute. reflexivity.
  - vm_compute. discriminate.
Defined.

(** A package id is used as a path: with [..] in it, the private directories
    of the package are not below [apps]. *)
Theorem package_id_escapes_apps :
  let m := {| Manifest.package_id := §"../../root"; Manifest.package_version := §"2"; Manifest.id := §"app";
              Manifest.exec := [§"/bin/true"]; Manifest.lifecycle := §"manual";
              Manifest.package_kind := §"application"; Manifest.package_name := §"Demo";
              Manifest.package_icons := []; Manifest.runtime := §"custom"; Manifest.restart := §"never";
              Manifest.idle_timeout_ms := None; Manifest.cwd := None; Manifest.env := [];
              Manifest.readiness_mode := §"exec"; Manifest.readiness_timeout_ms := 5000;
              Manifest.provides := []; Manifest.requires := []; Manifest.wants := []; Manifest.after := [];
              Manifest.windowing := []; Manifest.activation := []; Manifest.permissions := [];
              Manifest.isolation := Isolation.spec_default; Manifest.raw := [];
              Manifest.manifest_path := None; Manifest.package_summary := []; Manifest.package_i18n := VNone |} in
  exists argv env, prepare sample_session Calls.sample_started m 1 1 None = Ok (argv, env) /\
    dget env §"HOME" = Some §"/var/msys/apps/../../root/home".
Proof. eexists _, _. split; vm_compute; reflexivity. Qed.
End Launch.
