(* ===== verification/Outage.v ===== *)
(** * Display outages ([msys_core/msysd.py])

    When the component that provides the display goes away, its clients cannot
    run until a replacement is ready.  An outage record captures who they are,
    fences their restarts and their failure budgets, and drives their recovery.
    A planned outage restores the whole visual session; after an unexpected loss
    only the automatic system surfaces come back.  The mutable record
    [outage["recovery_allowed"]] is the [recovery_allowed] field of the
    supervisor; the other fields are here.  A recovery is modelled by its
    segments between two awaits. *)

From Stdlib Require Import ZArith.
From S2P Require Export Messages.

Module Outage.
Import Msysd Calls Dispatch Foreground Restart Messages.

(** The [display_outage] record; [provider_object] is the identity of the
    component object [provider_component]. *)
Record DisplayOutage := {
  outage_id : Z;
  revision : Z;
  provider : pystr;
  provider_object : nat;
  failed_generation : Z;
  consumers : list pystr;
  dropped_applications : list pystr;
  automatic_services_only : bool;
  foreground : list pystr;
  failure_baseline : dict pystr (list Z);
  backoff_baseline : dict pystr (option Z);
  preexisting_quarantine : gset pystr;
  fault_id : option Z;
}.

(** The [display_fault] record, published when it is resolved. *)
Record DisplayFault := {
  fault_number : Z;
  phase : pystr;
  reason : pystr;
  fault_provider : pystr;
  fault_failed_generation : Z;
  fault_generation : option Z;
  fault_display : option pystr;
  fault_dropped : list pystr;
  recovery_provider : option pystr;
  restarted_system_ui : list pystr;
  fault_failures : list (pystr * pystr);
}.

(** The supervisor with its packets, and the state of starts and outages:
    [startup] is the profile's list of startup components, [retries_done] the
    retry tasks that have finished, [launched] the instances whose
    [transition_launched] flag is set. *)
Record Core := {
  world : World;
  startup : list pystr;
  generations : dict pystr Z;
  spawn_backoff_until : dict pystr Z;
  spawn_retry_tasks : dict pystr nat;
  retries_done : gset nat;
  launched : gset nat;
  display_outage : option DisplayOutage;
  next_display_outage_id : Z;
  display_fault : option DisplayFault;
  next_display_fault_id : Z;
}.

Definition set_world (v : World) (c : Core) : Core :=
  {| world := v; startup := startup c; generations := generations c;
     spawn_backoff_until := spawn_backoff_until c; spawn_retry_tasks := spawn_retry_tasks c;
     retries_done := retries_done c; launched := launched c; display_outage := display_outage c;
     next_display_outage_id := next_display_outage_id c; display_fault := display_fault c;
     next_display_fault_id := next_display_fault_id c |}.

Definition set_generations (v : dict pystr Z) (c : Core) : Core :=
  {| world := world c; startup := startup c; generations := v;
     spawn_backoff_until := spawn_backoff_until c; spawn_retry_tasks := spawn_retry_tasks c;
     retries_done := retries_done c; launched := launched c; display_outage := display_outage c;
     next_display_outage_id := next_display_outage_id c; display_fault := display_fault c;
     next_display_fault_id := next_display_fault_id c |}.

Definition set_spawn_backoff_until (v : dict pystr Z) (c : Core) : Core :=
  {| world := world c; startup := startup c; generations := generations c;
     spawn_backoff_until := v; spawn_retry_tasks := spawn_retry_tasks c;
     retries_done := retries_done c; launched := launched c; display_outage := display_outage c;
     next_display_outage_id := next_display_outage_id c; display_fault := display_fault c;
     next_display_fault_id := next_display_fault_id c |}.

Definition set_spawn_retry_tasks (v : dict pystr nat) (c : Core) : Core :=
  {| world := world c; startup := startup c; generations := generations c;
     spawn_backoff_until := spawn_backoff_until c; spawn_retry_tasks := v;
     retries_done := retries_done c; launched := launched c; display_outage := display_outage c;
     next_display_outage_id := next_display_outage_id c; display_fault := display_fault c;
     next_display_fault_id := next_display_fault_id c |}.

Definition set_retries_done (v : gset nat) (c : Core) : Core :=
  {| world := world c; startup := startup c; generations := generations c;
     spawn_backoff_until := spawn_backoff_until c; spawn_retry_tasks := spawn_retry_tasks c;
     retries_done := v; launched := launched c; display_outage := display_outage c;
     next_display_outage_id := next_display_outage_id c; display_fault := display_fault c;
     next_display_fault_id := next_display_fault_id c |}.

Definition set_launched (v : gset nat) (c : Core) : Core :=
  {| world := world c; startup := startup c; generations := generations c;
     spawn_backoff_until := spawn_backoff_until c; spawn_retry_tasks := spawn_retry_tasks c;
     retries_done := retries_done c; launched := v; display_outage := display_outage c;
     next_display_outage_id := next_display_outage_id c; display_fault := display_fault c;
     next_display_fault_id := next_display_fault_id c |}.

Definition set_display_outage (v : option DisplayOutage) (c : Core) : Core :=
  {| world := world c; startup := startup c; generations := generations c;
     spawn_backoff_until := spawn_backoff_until c; spawn_retry_tasks := spawn_retry_tasks c;
     retries_done := retries_done c; launched := launched c; display_outage := v;
     next_display_outage_id := next_display_outage_id c; display_fault := display_fault c;
     next_display_fault_id := next_display_fault_id c |}.

Definition set_next_display_outage_id (v : Z) (c : Core) : Core :=
  {| world := world c; startup := startup c; generations := generations c;
     spawn_backoff_until := spawn_backoff_until c; spawn_retry_tasks := spawn_retry_tasks c;
     retries_done := retries_done c; launched := launched c; display_outage := display_outage c;
     next_display_outage_id := v; display_fault := display_fault c;
     next_display_fault_id := next_display_fault_id c |}.

Definition set_display_fault (v : option DisplayFault) (c : Core) : Core :=
  {| world := world c; startup := startup c; generations := generations c;
     spawn_backoff_until := spawn_backoff_until c; spawn_retry_tasks := spawn_retry_tasks c;
     retries_done := retries_done c; launched := launched c; display_outage := display_outage c;
     next_display_outage_id := next_display_outage_id c; display_fault := v;
     next_display_fault_id := next_display_fault_id c |}.

Definition set_next_display_fault_id (v : Z) (c : Core) : Core :=
  {| world := world c; startup := startup c; generations := generations c;
     spawn_backoff_until := spawn_backoff_until c; spawn_retry_tasks := spawn_retry_tasks c;
     retries_done := retries_done c; launched := launched c; display_outage := display_outage c;
     next_display_outage_id := next_display_outage_id c; display_fault := display_fault c;
     next_display_fault_id := v |}.

Definition super (c : Core) : Supervisor := sup (world c).
Definition set_super (s : Supervisor) (c : Core) : Core := set_world (set_sup s (world c)) c.

Definition DISPLAY_FAILURE_QUARANTINE_GRACE : Z := seconds 15.
Definition DISPLAY_OUTPUT_RECOVERED_TOPIC : pystr := §"msys.display.output_recovered".
Definition DISPLAY_OUTPUT_RECOVERED_SCHEMA : pystr := §"msys.display-output-recovered.v1".

Section Outage.
Context `{PyLib} `{PyRepr}.

(* ------------------------------------------------------------------ *)
(** ** The beginning of an outage *)

(** The clients that lose their display with the provider [k]. *)
Definition display_clients (k : pystr) (s : Supervisor) : dict pystr Instance :=
  omap (fun kn =>
    i ← heap s !! kn.2;
    if negb (bool_decide (kn.1 = k)) && _inherits_visual_session (component i)
       && negb (bool_decide (kn.1 ∈ stop_requests s))
    then Some (kn.1, i) else None)%stdpp (instances s).

Definition automatic (ki : pystr * Instance) : bool := _is_automatic_visual_service (component ki.2).

(** The clients to recover and those to drop. *)
Definition recovery_candidates (automatic_only : bool) (clients : dict pystr Instance) : gset pystr :=
  list_to_set (List.filter (fun ki => negb automatic_only || automatic ki) clients).*1.

Definition dropped_candidates (automatic_only : bool) (clients : dict pystr Instance) : gset pystr :=
  if automatic_only then list_to_set clients.*1 ∖ recovery_candidates true clients else ∅.

(** Quarantines that the loss of the display itself may have caused. *)
Definition forgive_quarantine (cutoff : Z) (s : Supervisor) (k : pystr) : Supervisor :=
  if bool_decide (k ∈ quarantined s)
     && match dget (quarantine_times s) k with Some t => (cutoff <=? t)%Z | None => false end
  then pardon k s else s.

(** The failures of a client that the outage did not cause. *)
Definition failures_before (cutoff : option Z) (s : Supervisor) (k : pystr) : list Z :=
  List.filter (fun t => match cutoff with Some c => (t <? c)%Z | None => true end)
    (dget_or (failure_history s) k []).

Definition new_outage (c : Core) (i : Instance) (automatic_only : bool) (cutoff : option Z)
    (ordered dropped : list pystr) : DisplayOutage :=
  {| outage_id := next_display_outage_id c; revision := 1;
     provider := key i; provider_object := component_object i; failed_generation := generation i;
     consumers := ordered; dropped_applications := dropped;
     automatic_services_only := automatic_only; foreground := foreground_stack (super c);
     failure_baseline := (fun k => (k, failures_before cutoff (super c) k)) <$> ordered;
     backoff_baseline := (fun k => (k, dget (spawn_backoff_until c) k)) <$> ordered;
     preexisting_quarantine := list_to_set (filter (.∈ quarantined (super c)) ordered);
     fault_id := None |}.

(** One client the record did not know yet. *)
Definition add_consumer (c : Core) (cutoff : option Z) (o : DisplayOutage) (k : pystr) : DisplayOutage :=
  {| outage_id := outage_id o; revision := revision o; provider := provider o;
     provider_object := provider_object o; failed_generation := failed_generation o;
     consumers := consumers o ++ [k]; dropped_applications := dropped_applications o;
     automatic_services_only := automatic_services_only o; foreground := foreground o;
     failure_baseline := dset (failure_baseline o) k (failures_before cutoff (super c) k);
     backoff_baseline := dset (backoff_baseline o) k (dget (spawn_backoff_until c) k);
     preexisting_quarantine := if bool_decide (k ∈ quarantined (super c))
                               then {[k]} ∪ preexisting_quarantine o else preexisting_quarantine o;
     fault_id := fault_id o |}.

(** The provider that failed now; the clients of an active outage stay. *)
Definition next_revision (i : Instance) (o : DisplayOutage) (dropped : list pystr) : DisplayOutage :=
  {| outage_id := outage_id o; revision := (revision o + 1)%Z; provider := key i;
     provider_object := component_object i; failed_generation := generation i;
     consumers := consumers o;
     dropped_applications := dropped_applications o ++ filter (.∉ dropped_applications o) dropped;
     automatic_services_only := automatic_services_only o; foreground := foreground o;
     failure_baseline := failure_baseline o; backoff_baseline := backoff_baseline o;
     preexisting_quarantine := preexisting_quarantine o; fault_id := fault_id o |}.

(** [_begin_display_outage]: the identity of the record, if there is one. *)
Definition _begin_display_outage (now : Z) (n : nat) (recover_recent automatic_only : bool) (c : Core)
    : Core * option Z :=
  match heap (super c) !! n with
  | None => (c, None)
  | Some i =>
      if stopping (super c) || negb (_owns_active_display_output n i (super c)) then (c, None)
      else
        let clients := display_clients (key i) (super c) in
        let ordered := _order_visual_consumer_keys (startup c) (foreground_stack (super c))
                         (recovery_candidates automatic_only clients) in
        let dropped := _order_visual_consumer_keys (startup c) (foreground_stack (super c))
                         (dropped_candidates automatic_only clients) in
        let cutoff := if recover_recent then Some (now - DISPLAY_FAILURE_QUARANTINE_GRACE)%Z else None in
        let c := match cutoff with
                 | Some t => set_super (foldl (forgive_quarantine t) (super c) ordered) c
                 | None => c
                 end in
        let '(o, c) :=
          match display_outage c with
          | None => (new_outage c i automatic_only cutoff ordered dropped,
                     set_next_display_outage_id (next_display_outage_id c + 1)%Z c)
          | Some o =>
              (foldl (add_consumer c cutoff) (next_revision i o dropped)
                 (filter (.∉ consumers o) ordered), c)
          end in
        (set_display_outage (Some o) (set_super (set_recovery_allowed (Some ∅) (super c)) c),
         Some (outage_id o))
  end.

Definition _begin_display_fault (i : Instance) (reason : pystr) (dropped : list pystr) (c : Core)
    : Core * Z :=
  (set_next_display_fault_id (next_display_fault_id c + 1)%Z
     (set_display_fault (Some {| fault_number := next_display_fault_id c; phase := §"recovering";
        reason := reason; fault_provider := key i; fault_failed_generation := generation i;
        fault_generation := None; fault_display := _display_for_provider (Some (component i));
        fault_dropped := dropped; recovery_provider := None; restarted_system_ui := [];
        fault_failures := [] |}) c),
   next_display_fault_id c).

Definition set_fault_id (v : option Z) (o : DisplayOutage) : DisplayOutage :=
  {| outage_id := outage_id o; revision := revision o; provider := provider o;
     provider_object := provider_object o; failed_generation := failed_generation o;
     consumers := consumers o; dropped_applications := dropped_applications o;
     automatic_services_only := automatic_services_only o; foreground := foreground o;
     failure_baseline := failure_baseline o; backoff_baseline := backoff_baseline o;
     preexisting_quarantine := preexisting_quarantine o; fault_id := v |}.

Definition _begin_unplanned_display_failure (now : Z) (n : nat) (reason : pystr) (c : Core)
    : Core * option Z :=
  match heap (super c) !! n with
  | None => (c, None)
  | Some i =>
      if stopping (super c) || negb (_owns_active_display_output n i (super c)) then (c, None)
      else match display_outage c with
           | Some _ => _begin_display_outage now n true true c
           | None =>
               match _begin_display_outage now n true true c with
               | (c, None) => (c, None)
               | (c, Some id) =>
                   match display_outage c with
                   | None => (c, Some id)
                   | Some o =>
                       let '(c, fault) := _begin_display_fault i reason (dropped_applications o) c in
                       (set_display_outage (Some (set_fault_id (Some fault) o)) c, Some id)
                   end
               end
           end
  end.

(* ------------------------------------------------------------------ *)
(** ** Suspension and recovery *)

(** The clients [_suspend_display_consumers] stops, in order. *)
Definition suspended (o : DisplayOutage) : list pystr :=
  fromkeys (consumers o ++ dropped_applications o).

(** [self.display_outage is outage] *)
Definition is_outage (id : Z) (c : Core) : bool :=
  match display_outage c with Some o => (outage_id o =? id)%Z | None => false end.

Definition _restore_outage_failure_budget (o : DisplayOutage) (k : pystr) (c : Core) : Core :=
  let s := super c in
  let s := match dget_or (failure_baseline o) k [] with
           | [] => set_failure_history (ddel (failure_history s) k) s
           | baseline => set_failure_history (dset (failure_history s) k baseline) s
           end in
  set_super s
    (set_spawn_backoff_until
       match dget_or (backoff_baseline o) k None with
       | None => ddel (spawn_backoff_until c) k
       | Some t => dset (spawn_backoff_until c) k t
       end c).

(** The frame of a [_recover_display_consumers] that awaits [ensure_ready]. *)
Record Recovery := {
  recovering : nat;
  for_outage : Z;
  for_revision : Z;
  remaining : list pystr;
  restarted : list pystr;
  failed : list (pystr * pystr);
}.

Definition owns_display (n : nat) (s : Supervisor) : bool :=
  match heap s !! n with Some i => _owns_active_display_output n i s | None => false end.

(** Whether the recovery still belongs to the current outage and provider. *)
Definition recovery_valid (r : Recovery) (c : Core) : bool :=
  match display_outage c with
  | Some o => (outage_id o =? for_outage r)%Z && (revision o =? for_revision r)%Z
              && owns_display (recovering r) (super c)
  | None => false
  end.

(** [_recover_display_consumers] up to its loop. *)
Definition recovery_start (n : nat) (c : Core) : option Recovery :=
  match display_outage c, heap (super c) !! n with
  | Some o, Some i =>
      if ready i && is_current (super c) (key i) n && owns_display n (super c)
      then Some {| recovering := n; for_outage := outage_id o; for_revision := revision o;
                   remaining := consumers o; restarted := []; failed := [] |}
      else None
  | _, _ => None
  end.

Definition allow_recovery (k : pystr) (s : Supervisor) : Supervisor :=
  set_recovery_allowed ((fun allowed => {[k]} ∪ allowed) <$> recovery_allowed s) s.
Definition disallow_recovery (k : pystr) (s : Supervisor) : Supervisor :=
  set_recovery_allowed ((fun allowed => allowed ∖ {[k]}) <$> recovery_allowed s) s.

(** What the loop does next. *)
Inductive turn :=
| Activate (k : pystr) (rest : list pystr)
| Abandoned
| Finished.

(** A client that is skipped: it left the catalog, it is no display client any
    more, or it is quarantined. *)
Definition recoverable (o : DisplayOutage) (k : pystr) (s : Supervisor) : bool :=
  match dget (components s) k with
  | Some m => _inherits_visual_session m
              && negb (bool_decide (k ∈ preexisting_quarantine o)) && negb (bool_decide (k ∈ quarantined s))
  | None => false
  end.

(** The loop up to its next [await]. *)
Fixpoint recovery_loop (r : Recovery) (o : DisplayOutage) (todo : list pystr) (c : Core) : Core * turn :=
  match todo with
  | [] => (c, Finished)
  | k :: todo =>
      if negb (recovery_valid r c) then (c, Abandoned)
      else if negb (recoverable o k (super c)) then recovery_loop r o todo c
      else
        let c := _restore_outage_failure_budget o k c in
        (set_super (allow_recovery k (super c)) c, Activate k todo)
  end.

Definition recovery_turn (r : Recovery) (c : Core) : Core * turn :=
  match display_outage c with
  | Some o => recovery_loop r o (remaining r) c
  | None => (c, match remaining r with [] => Finished | _ => Abandoned end)
  end.

Definition exception_text (e : exn) : pystr := take 256 (exn_msg e).

(** [ensure_ready(k)] ended with [result]. *)
Definition recovery_result (r : Recovery) (k : pystr) (rest : list pystr) (result : py nat) (c : Core)
    : Core * py Recovery :=
  let outcome :=
    n ← result;
    match heap (super c) !! n with
    | Some i => if ready i && bool_decide (state i = §"ready") then Ok tt
                else Raise (Exn RuntimeError (§"component state is " ++ state i))
    | None => Raise (Exn RuntimeError §"component state is ")
    end in
  let c := if is_outage (for_outage r) c then set_super (disallow_recovery k (super c)) c else c in
  let with_ restarted failed :=
    {| recovering := recovering r; for_outage := for_outage r; for_revision := for_revision r;
       remaining := rest; restarted := restarted; failed := failed |} in
  (c, match outcome with
      | Ok _ => Ok (with_ (restarted r ++ [k]) (failed r))
      | Raise e => if caught e then Ok (with_ (restarted r) (failed r ++ [(k, exception_text e)]))
                   else Raise e
      end).

(** [_restore_foreground] *)
Definition _restore_foreground (stack : list pystr) (s : Supervisor) : Supervisor :=
  let restored := List.filter (fun k => match current s k with Some i => ready i | None => false end) stack in
  set_foreground_stack (restored ++ filter (.∉ restored) (foreground_stack s)) s.

(** What follows the loop, up to the reactivation of the foreground: the
    outage is over.  The result is the record that ended. *)
Definition recovery_commit (r : Recovery) (c : Core) : Core * option DisplayOutage :=
  match display_outage c with
  | Some o =>
      if negb (recovery_valid r c) then (c, None)
      else
        let s := super c in
        let s := if automatic_services_only o then s else _restore_foreground (foreground o) s in
        (set_display_outage None (set_super (set_recovery_allowed None s) c), Some o)
  | None => (c, None)
  end.

(** The call of [_reactivate_foreground]. *)
Definition reactivation_call (process_memory_snapshot : Z -> pyval) (s : Supervisor) : option response :=
  match _foreground_entries process_memory_snapshot s false with
  | [] => None
  | top :: _ =>
      Some [(§"type", VStr §"call"); (§"id", VInt 0); (§"target", VStr §"role:window-manager");
            (§"method", VStr §"activate_component");
            (§"payload", VDict [(§"component", dget_or top §"component" VNone);
                                (§"identity", dget_or top §"identity" VNone);
                                (§"title", dget_or top §"title" VNone)]);
            (§"idempotent", VBool true)]
  end.

Definition opt_str (o : option pystr) : pyval := match o with Some s => VStr s | None => VNone end.
Definition opt_int (o : option Z) : pyval := match o with Some z => VInt z | None => VNone end.
Definition str_list (l : list pystr) : pyval := VList (VStr <$> l).

(** The event that announces a recovered display. *)
Definition fault_event (f : DisplayFault) : pyval :=
  VDict ([(§"schema", VStr DISPLAY_OUTPUT_RECOVERED_SCHEMA); (§"id", VInt (fault_number f));
          (§"phase", VStr (phase f)); (§"fault", VStr §"display-session-lost");
          (§"reason", VStr (reason f)); (§"provider", VStr (fault_provider f));
          (§"failed_generation", VInt (fault_failed_generation f));
          (§"generation", opt_int (fault_generation f)); (§"display", opt_str (fault_display f));
          (§"session_preserved", VBool false); (§"applications_reopened", VBool false);
          (§"restarted_system_ui", str_list (restarted_system_ui f));
          (§"dropped_applications", str_list (fault_dropped f));
          (§"failures", VList ((fun kf => VDict [(§"component", VStr kf.1); (§"message", VStr kf.2)])
                               <$> fault_failures f))]
         ++ match recovery_provider f with
            | Some p => [(§"recovery_provider", VStr p)]
            | None => []
            end).

Definition _complete_display_fault `{Channel} (i : Instance) (restarted : list pystr)
    (failures : list (pystr * pystr)) (id : option Z) (c : Core) : Core * py (option pyval) :=
  match display_fault c with
  | None => (c, Ok None)
  | Some f =>
      if negb (bool_decide (phase f = §"recovering"))
         || match id with Some id => negb (fault_number f =? id)%Z | None => false end
      then (c, Ok None)
      else
        let f := {| fault_number := fault_number f; phase := §"recovered"; reason := reason f;
                    fault_provider := fault_provider f;
                    fault_failed_generation := fault_failed_generation f;
                    fault_generation := Some (generation i); fault_display := fault_display f;
                    fault_dropped := fault_dropped f; recovery_provider := Some (key i);
                    restarted_system_ui := restarted; fault_failures := failures |} in
        match broadcast DISPLAY_OUTPUT_RECOVERED_TOPIC (fault_event f) §"msys.core" (world c) with
        | (w, Ok _) => (set_display_fault None (set_world w c), Ok (Some (fault_event f)))
        | (w, Raise e) => (set_display_fault (Some f) (set_world w c), Raise e)
        end
  end.

(** The end of a recovery, after [_reactivate_foreground] ended with
    [reactivated]. *)
Definition recovery_report `{Channel} (r : Recovery) (o : DisplayOutage) (reactivated : py unit) (c : Core)
    : Core * py unit :=
  let failures :=
    match reactivated with
    | Raise e => failed r ++ [(§"foreground", exception_text e)]
    | Ok _ => failed r
    end in
  match fault_id o, heap (super c) !! recovering r with
  | Some id, Some i =>
      let '(c, res) := _complete_display_fault i (restarted r) failures (Some id) c in
      (c, _ ← res; Ok tt)
  | _, _ => (c, Ok tt)
  end.

(* ------------------------------------------------------------------ *)
(** ** Lemmas *)

Lemma order_elem start stack candidates k :
  k ∈ _order_visual_consumer_keys start stack candidates <-> k ∈ candidates.
Proof.
  unfold _order_visual_consumer_keys. rewrite fromkeys_elem, !elem_of_app.
  set (profile := filter (.∈ candidates) start). set (rest := candidates ∖ list_to_set profile).
  set (front := filter (.∈ rest) (reverse stack)). rewrite sorted_strs_elem, elem_of_elements.
  assert (k ∈ profile -> k ∈ candidates) as Hp by (intros [? _]%list_elem_of_filter; done).
  assert (k ∈ front -> k ∈ rest) as Hf by (intros [? _]%list_elem_of_filter; done).
  assert (k ∈ rest <-> k ∈ candidates /\ k ∉ profile) as Hr
    by (unfold rest; by rewrite elem_of_difference, elem_of_list_to_set).
  rewrite elem_of_difference, elem_of_list_to_set.
  destruct (decide (k ∈ profile)), (decide (k ∈ front)); tauto.
Qed.

Lemma order_NoDup start stack candidates : NoDup (_order_visual_consumer_keys start stack candidates).
Proof. apply fromkeys_NoDup. Qed.

(** What an outage does to the failure accounts are events of [Restart]. *)
Lemma forgive_account cutoff s k :
  forgive_quarantine cutoff s k = s \/ forgive_quarantine cutoff s k = account s (Pardoned k).
Proof. unfold forgive_quarantine. destruct (_ && _); [by right|by left]. Qed.

Lemma restore_account o k c :
  super (_restore_outage_failure_budget o k c) = account (super c) (Restored k (dget_or (failure_baseline o) k [])).
Proof. unfold _restore_outage_failure_budget. by destruct (dget_or _ k []). Qed.

Lemma forgive_spec cutoff s k :
  failure_history (forgive_quarantine cutoff s k) = failure_history s /\
  heap (forgive_quarantine cutoff s k) = heap s /\ instances (forgive_quarantine cutoff s k) = instances s.
Proof. unfold forgive_quarantine. by destruct (_ && _). Qed.

Lemma forgive_all cutoff ks s :
  let s' := foldl (forgive_quarantine cutoff) s ks in
  failure_history s' = failure_history s /\ heap s' = heap s /\ instances s' = instances s.
Proof.
  revert s; induction ks as [|k ks IH]; intros s; [done|]. cbn [foldl] in *.
  destruct (IH (forgive_quarantine cutoff s k)) as (-> & -> & ->). apply forgive_spec.
Qed.

(** What a record says about the clients that joined it. *)
Lemma add_consumers_spec c cutoff ks o :
  NoDup ks -> (forall k, k ∈ ks -> k ∉ consumers o) ->
  let o' := foldl (add_consumer c cutoff) o ks in
  outage_id o' = outage_id o /\ revision o' = revision o /\ provider o' = provider o /\
  consumers o' = consumers o ++ ks /\ dropped_applications o' = dropped_applications o /\
  automatic_services_only o' = automatic_services_only o /\ foreground o' = foreground o /\
  fault_id o' = fault_id o /\
  forall k, dget (failure_baseline o') k =
            if decide (k ∈ ks) then Some (failures_before cutoff (super c) k) else dget (failure_baseline o) k.
Proof.
  revert o; induction ks as [|k ks IH]; intros o Hnd Hdis; cbn [foldl].
  { rewrite app_nil_r. repeat split; done. }
  apply NoDup_cons in Hnd as [Hk Hnd].
  destruct (IH (add_consumer c cutoff o k) Hnd) as (H1 & H2 & H3 & H4 & H5 & H6 & H7 & H8 & H9).
  { intros k' Hk' [Hin|Hin]%elem_of_app; [apply (Hdis k'); [by right|done]|].
    apply list_elem_of_singleton in Hin. congruence. }
  cbv zeta. rewrite H1, H2, H3, H4, H5, H6, H7, H8. cbn. rewrite <- app_assoc. repeat split; try done.
  intros k'. rewrite H9. cbn. rewrite dget_dset. destruct (decide (k' = k)) as [->|Hne].
  - rewrite (decide_False (P := k ∈ ks)) by done. by rewrite decide_True by by left.
  - destruct (decide (k' ∈ ks)); [by rewrite decide_True by by right|].
    rewrite decide_False; [done|]. intros [?|?]%elem_of_cons; done.
Qed.

(** The comprehension [{k: f(k) for k in ks}] over distinct keys. *)
Lemma dget_comprehension {V} (f : pystr -> V) ks k :
  NoDup ks -> k ∈ ks -> dget ((fun k => (k, f k)) <$> ks) k = Some (f k).
Proof.
  intros Hnd Hk. apply elem_dget; [|by apply (list_elem_of_fmap_2 (fun k => (k, f k)))].
  unfold dict_wf, dkeys. rewrite <- list_fmap_compose. unfold compose. cbn. by rewrite list_fmap_id.
Qed.

Lemma set_super_super s c : super (set_super s c) = s.
Proof. done. Qed.

(** A fresh outage. *)
Lemma begin_fresh now n recent auto c c' id i :
  heap (super c) !! n = Some i -> display_outage c = None ->
  _begin_display_outage now n recent auto c = (c', Some id) ->
  let cutoff := if recent then Some (now - DISPLAY_FAILURE_QUARANTINE_GRACE)%Z else None in
  let clients := display_clients (key i) (super c) in
  exists o, display_outage c' = Some o /\ outage_id o = id /\ id = next_display_outage_id c /\
    next_display_outage_id c' = (id + 1)%Z /\
    provider o = key i /\ failed_generation o = generation i /\
    automatic_services_only o = auto /\ foreground o = foreground_stack (super c') /\
    recovery_allowed (super c') = Some ∅ /\
    consumers o = _order_visual_consumer_keys (startup c) (foreground_stack (super c))
                    (recovery_candidates auto clients) /\
    dropped_applications o = _order_visual_consumer_keys (startup c) (foreground_stack (super c))
                    (dropped_candidates auto clients) /\
    failure_baseline o = (fun k => (k, failures_before cutoff (super c) k)) <$> consumers o /\
    backoff_baseline o = (fun k => (k, dget (spawn_backoff_until c) k)) <$> consumers o /\
    fault_id o = None /\ display_fault c' = display_fault c /\
    next_display_fault_id c' = next_display_fault_id c /\
    failure_history (super c') = failure_history (super c).
Proof.
  intros Hi Hnone Hb cutoff clients. revert Hb. unfold _begin_display_outage. rewrite Hi.
  destruct (stopping (super c) || negb (_owns_active_display_output n i (super c))); [done|].
  set (ordered := _order_visual_consumer_keys _ _ (recovery_candidates _ _)).
  set (dropped := _order_visual_consumer_keys _ _ (dropped_candidates _ _)).
  destruct recent; cbn [display_outage set_super set_world]; rewrite Hnone; intros [= <- <-].
  - destruct (forgive_all (now - DISPLAY_FAILURE_QUARANTINE_GRACE)%Z ordered (super c)) as (Hf & _ & _).
    eexists. split; [reflexivity|]. cbn. repeat (split; [reflexivity|]). split; [|split; [reflexivity|]].
    + apply list_fmap_ext. intros _ k _. f_equal. unfold failures_before. by rewrite Hf.
    + split; [done|]. split; [done|]. split; [done|]. exact Hf.
  - eexists. split; [reflexivity|]. cbn. by repeat (split; [reflexivity|]).
Qed.

Lemma display_clients_elem k s k' i :
  (k', i) ∈ display_clients k s <->
  exists n, (k', n) ∈ instances s /\ heap s !! n = Some i /\ k' ≠ k /\
    _inherits_visual_session (component i) = true /\ k' ∉ stop_requests s.
Proof.
  unfold display_clients. rewrite list_elem_of_omap. split.
  - intros ([k0 n] & Hin & Heq). cbn in Heq. destruct (heap s !! n) as [j|] eqn:Hj; [|done]. cbn in Heq.
    destruct (negb (bool_decide (k0 = k)) && _ && _) eqn:Hc; [|done]. injection Heq as -> ->.
    bool_simp. exists n. done.
  - intros (n & Hin & Hj & Hne & Hinh & Hstop). exists (k', n). split; [done|]. cbn. rewrite Hj. cbn.
    rewrite bool_decide_eq_false_2, Hinh, bool_decide_eq_false_2 by done. done.
Qed.

Lemma recovery_candidates_elem auto clients k :
  k ∈ recovery_candidates auto clients <->
  exists i, (k, i) ∈ clients /\ (auto = true -> _is_automatic_visual_service (component i) = true).
Proof.
  unfold recovery_candidates. rewrite elem_of_list_to_set, list_elem_of_fmap. split.
  - intros ([k' i] & -> & Hin). rewrite list_elem_of_In, filter_In, <- list_elem_of_In in Hin.
    destruct Hin as [Hin Hc]. exists i. split; [done|]. intros ->. exact Hc.
  - intros (i & Hin & Hc). exists (k, i). split; [done|].
    rewrite list_elem_of_In, filter_In, <- list_elem_of_In. split; [done|]. destruct auto; [by apply Hc|done].
Qed.

Lemma dropped_candidates_elem auto clients k :
  k ∈ dropped_candidates auto clients <->
  auto = true /\ k ∈ dkeys clients /\ k ∉ recovery_candidates true clients.
Proof.
  unfold dropped_candidates. destruct auto; [|split; [intros []%elem_of_empty|by intros [? _]]].
  rewrite elem_of_difference, elem_of_list_to_set. by split; [intros []|intros (_ & ? & ?)].
Qed.

(* ------------------------------------------------------------------ *)
(** ** Interleavings

    Recoveries are serialised by [display_recovery_lock]; while one waits for a
    client, outages begin or are extended and the rest of Core runs. *)

Inductive rphase :=
| Idle
| Looping (r : Recovery)
| Activating (r : Recovery) (k : pystr) (rest : list pystr)
| Reactivating (r : Recovery) (o : DisplayOutage).

(** Steps of the rest of Core. *)
Definition elsewhere (c c' : Core) : Prop :=
  display_outage c' = display_outage c /\ recovery_allowed (super c') = recovery_allowed (super c) /\
  next_display_outage_id c' = next_display_outage_id c.

Inductive outage_step `{Channel} : Core * rphase -> Core * rphase -> Prop :=
| os_planned now n c p : outage_step (c, p) ((_begin_display_outage now n false false c).1, p)
| os_unplanned now n reason c p :
    outage_step (c, p) ((_begin_unplanned_display_failure now n reason c).1, p)
| os_start n c r : recovery_start n c = Some r -> outage_step (c, Idle) (c, Looping r)
| os_activate r c c' k rest :
    recovery_turn r c = (c', Activate k rest) -> outage_step (c, Looping r) (c', Activating r k rest)
| os_abandon r c c' : recovery_turn r c = (c', Abandoned) -> outage_step (c, Looping r) (c', Idle)
| os_finish r c c' c'' o :
    recovery_turn r c = (c', Finished) -> recovery_commit r c' = (c'', Some o) ->
    outage_step (c, Looping r) (c'', Reactivating r o)
| os_superseded r c c' c'' :
    recovery_turn r c = (c', Finished) -> recovery_commit r c' = (c'', None) ->
    outage_step (c, Looping r) (c'', Idle)
| os_result r k rest result c c' r' :
    recovery_result r k rest result c = (c', Ok r') ->
    outage_step (c, Activating r k rest) (c', Looping r')
| os_cancelled r k rest result c c' e :
    recovery_result r k rest result c = (c', Raise e) ->
    outage_step (c, Activating r k rest) (c', Idle)
| os_report r o reactivated c c' res :
    recovery_report r o reactivated c = (c', res) -> outage_step (c, Reactivating r o) (c', Idle)
| os_elsewhere c c' p : elsewhere c c' -> outage_step (c, p) (c', p).

Inductive outage_reachable `{Channel} : Core * rphase -> Prop :=
| or_init c : display_outage c = None -> recovery_allowed (super c) = None -> outage_reachable (c, Idle)
| or_step w w' : outage_reachable w -> outage_step w w' -> outage_reachable w'.

(** The client that a recovery of the outage [o] is starting. *)
Definition starting (p : rphase) (o : DisplayOutage) (k : pystr) : Prop :=
  match p with
  | Activating r k' _ => k' = k /\ for_outage r = outage_id o
  | _ => False
  end.

Definition frame_of (p : rphase) : option (Recovery * list pystr) :=
  match p with
  | Looping r => Some (r, remaining r)
  | Activating r k rest => Some (r, k :: rest)
  | _ => None
  end.

Record fence_inv (c : Core) (p : rphase) : Prop := {
  fi_outage : forall o, display_outage c = Some o ->
    (outage_id o < next_display_outage_id c)%Z /\
    exists allowed, recovery_allowed (super c) = Some allowed /\
      forall k, k ∈ allowed -> starting p o k /\ k ∈ consumers o;
  fi_none : display_outage c = None -> recovery_allowed (super c) = None;
  fi_frame : forall r todo, frame_of p = Some (r, todo) -> (for_outage r < next_display_outage_id c)%Z /\
    forall o, display_outage c = Some o -> outage_id o = for_outage r -> forall k, k ∈ todo -> k ∈ consumers o;
}.

(** A new or extended outage closes the fence and keeps its clients. *)
Lemma begin_outage_inv now n recent auto c c' res :
  _begin_display_outage now n recent auto c = (c', res) ->
  c' = c \/
  (exists o', display_outage c' = Some o' /\ recovery_allowed (super c') = Some ∅ /\
    ((display_outage c = None /\ outage_id o' = next_display_outage_id c /\
      next_display_outage_id c' = (outage_id o' + 1)%Z) \/
     (exists o, display_outage c = Some o /\ outage_id o' = outage_id o /\
        next_display_outage_id c' = next_display_outage_id c /\
        forall k, k ∈ consumers o -> k ∈ consumers o'))).
Proof.
  unfold _begin_display_outage. destruct (heap (super c) !! n) as [i|]; [|intros [= <- <-]; by left].
  destruct (_ || _); [intros [= <- <-]; by left|].
  set (ordered := _order_visual_consumer_keys _ _ (recovery_candidates _ _)).
  set (cutoff := if recent then _ else _). set (c1 := match cutoff with Some _ => _ | None => c end).
  assert (display_outage c1 = display_outage c /\ next_display_outage_id c1 = next_display_outage_id c) as [-> Hn]
    by (unfold c1; by destruct cutoff).
  destruct (display_outage c) as [o|] eqn:Ho; intros [= <- <-]; right; eexists; split; [reflexivity|split; [reflexivity|]| |].
  - right. exists o. split; [done|].
    destruct (add_consumers_spec c1 cutoff (filter (.∉ consumers o) ordered)
      (next_revision i o (_order_visual_consumer_keys (startup c) (foreground_stack (super c))
         (dropped_candidates auto (display_clients (key i) (super c))))))
      as (H1 & _ & _ & H4 & _); [apply NoDup_filter, order_NoDup|intros k [? _]%list_elem_of_filter; done|].
    split; [exact H1|]. split; [exact Hn|]. intros k Hk. rewrite H4. apply elem_of_app. by left.
  - reflexivity.
  - split; [reflexivity|]. left. split; [done|]. cbn. rewrite Hn. done.
Qed.

Lemma recovery_loop_spec r o todo c c' t :
  recovery_loop r o todo c = (c', t) ->
  display_outage c' = display_outage c /\ next_display_outage_id c' = next_display_outage_id c /\
  match t with
  | Activate k rest =>
      (exists skipped, todo = skipped ++ k :: rest /\ forall x, x ∈ skipped -> recoverable o x (super c) = false) /\
      recoverable o k (super c) = true /\ recovery_valid r c = true /\
      super c' = allow_recovery k (super (_restore_outage_failure_budget o k c))
  | _ => c' = c
  end.
Proof.
  revert c' t; induction todo as [|k todo IH]; intros c' t; cbn [recovery_loop]; [by intros [= <- <-]|].
  destruct (recovery_valid r c) eqn:Hv; cbn [negb]; [|by intros [= <- <-]].
  destruct (recoverable o k (super c)) eqn:Hr; cbn [negb].
  - intros [= <- <-]. split; [done|]. split; [done|]. split; [|done]. exists []. split; [done|].
    intros x Hx. destruct (not_elem_of_nil _ Hx).
  - intros Hl. apply IH in Hl as (H1 & H2 & H3). split; [done|]. split; [done|].
    destruct t; [|done..]. destruct H3 as ((sk & -> & Hsk) & H3). split; [|done].
    exists (k :: sk). split; [done|]. intros x [->|Hx]%elem_of_cons; [done|auto].
Qed.

Lemma restore_budget_fence o k c :
  recovery_allowed (super (_restore_outage_failure_budget o k c)) = recovery_allowed (super c).
Proof. unfold _restore_outage_failure_budget. by destruct (dget_or (failure_baseline o) k []). Qed.

Lemma recovery_turn_spec r c c' t :
  recovery_turn r c = (c', t) ->
  display_outage c' = display_outage c /\ next_display_outage_id c' = next_display_outage_id c /\
  match t with
  | Activate k rest =>
      exists o, display_outage c = Some o /\ outage_id o = for_outage r /\ k ∈ remaining r /\
        (forall x, x ∈ rest -> x ∈ remaining r) /\ recoverable o k (super c) = true /\
        recovery_allowed (super c') = (fun a => {[k]} ∪ a) <$> recovery_allowed (super c)
  | _ => super c' = super c
  end.
Proof.
  unfold recovery_turn. destruct (display_outage c) as [o|] eqn:Ho.
  - intros (H1 & H2 & H3)%recovery_loop_spec. rewrite H1, Ho. split; [done|]. split; [done|].
    destruct t as [k rest| |]; [|by subst..]. destruct H3 as ((sk & Hrem & _) & Hr & Hv & Hs).
    exists o. split; [done|]. unfold recovery_valid in Hv. rewrite Ho in Hv. bool_simp.
    split; [by apply Z.eqb_eq|]. rewrite Hrem. split; [apply elem_of_app; right; by left|].
    split; [intros x Hx; apply elem_of_app; right; by right|]. split; [done|].
    rewrite Hs. unfold allow_recovery. cbn [recovery_allowed set_recovery_allowed].
    by rewrite restore_budget_fence.
  - intros [= <- <-]. rewrite Ho. by destruct (remaining r).
Qed.

Lemma recovery_result_spec r k rest result c c' res :
  recovery_result r k rest result c = (c', res) ->
  display_outage c' = display_outage c /\ next_display_outage_id c' = next_display_outage_id c /\
  recovery_allowed (super c') = (if is_outage (for_outage r) c
    then (fun a => a ∖ {[k]}) <$> recovery_allowed (super c) else recovery_allowed (super c)) /\
  forall r', res = Ok r' -> for_outage r' = for_outage r /\ remaining r' = rest.
Proof.
  unfold recovery_result. intros [= <- <-]. repeat (split; [by destruct (is_outage _ c)|]).
  intros r'. destruct (_ ← result; _) as [u|e]; [by intros [= <-]|]. destruct (caught e); [by intros [= <-]|done].
Qed.

Lemma recovery_commit_spec r c c' res :
  recovery_commit r c = (c', res) ->
  next_display_outage_id c' = next_display_outage_id c /\
  match res with
  | Some o => display_outage c = Some o /\ recovery_valid r c = true /\ display_outage c' = None /\
              recovery_allowed (super c') = None /\
              (automatic_services_only o = true -> foreground_stack (super c') = foreground_stack (super c))
  | None => c' = c
  end.
Proof.
  unfold recovery_commit. destruct (display_outage c) as [o|]; [|by intros [= <- <-]].
  destruct (recovery_valid r c); cbn [negb]; [|by intros [= <- <-]]. intros [= <- <-].
  split; [done|]. split; [done|]. split; [done|]. split; [done|]. split; [done|].
  intros Ha. cbn. by rewrite Ha.
Qed.

Lemma recovery_report_spec `{Channel} r o reactivated c c' res :
  recovery_report r o reactivated c = (c', res) ->
  display_outage c' = display_outage c /\ next_display_outage_id c' = next_display_outage_id c /\
  super c' = super c.
Proof.
  unfold recovery_report. destruct (fault_id o) as [id|]; [|by intros [= <- <-]].
  destruct (heap (super c) !! recovering r) as [i|]; [|by intros [= <- <-]].
  set (failures := match reactivated with Ok _ => _ | Raise _ => _ end). clearbody failures.
  unfold _complete_display_fault.
  destruct (display_fault c) as [f|]; [|by intros [= <- <-]]. destruct (_ || _); [by intros [= <- <-]|].
  match goal with |- context [broadcast ?t ?p ?s ?w] =>
    pose proof (broadcast_emits t p s w) as [Hsup _]; destruct (broadcast t p s w) as [w' [u|e]] end;
    intros [= <- <-]; repeat split; exact Hsup.
Qed.

Lemma unplanned_inv now n reason c c' res :
  _begin_unplanned_display_failure now n reason c = (c', res) ->
  exists c1 res1 fault, _begin_display_outage now n true true c = (c1, res1) /\
    super c' = super c1 /\ next_display_outage_id c' = next_display_outage_id c1 /\
    (c' = c \/ display_outage c' = display_outage c1 \/
     exists o, display_outage c1 = Some o /\ display_outage c' = Some (set_fault_id fault o)).
Proof.
  unfold _begin_unplanned_display_failure. destruct (heap (super c) !! n) as [i|] eqn:Hi.
  - destruct (stopping (super c) || negb (_owns_active_display_output n i (super c))) eqn:Hg.
    + intros [= <- <-]. exists c, None, None. unfold _begin_display_outage. rewrite Hi, Hg. by auto 6.
    + destruct (_begin_display_outage now n true true c) as [c1 res1] eqn:Hb.
      destruct (display_outage c) as [o0|].
      * intros [= <- <-]. exists c1, res1, None. by auto 6.
      * destruct res1 as [id|]; [|intros [= <- <-]; exists c1, None, None; by auto 6].
        destruct (display_outage c1) as [o|] eqn:Ho; [|intros [= <- <-]; exists c1, (Some id), None; by auto 6].
        intros [= <- <-]. exists c1, (Some id), (Some (next_display_fault_id c1)). split; [done|].
        split; [done|]. split; [done|]. right. right. exists o. done.
  - intros [= <- <-]. exists c, None, None. unfold _begin_display_outage. rewrite Hi. by auto 6.
Qed.

Lemma begin_fence now n recent auto c c' res p :
  _begin_display_outage now n recent auto c = (c', res) -> fence_inv c p -> fence_inv c' p.
Proof.
  intros [->|(o' & Ho' & Ha & Hcase)]%begin_outage_inv; [done|]. intros [Hout Hnone Hframe]. constructor.
  - intros o Ho. rewrite Ho' in Ho. injection Ho as <-. split.
    + destruct Hcase as [(_ & Hid & Hn)|(o & Ho & Hid & Hn & _)]; [lia|].
      rewrite Hid, Hn. by apply Hout.
    + exists ∅. split; [done|]. intros k []%elem_of_empty.
  - congruence.
  - intros r todo Hf. destruct (Hframe r todo Hf) as [Hlt Hsub].
    destruct Hcase as [(_ & Hid & Hn)|(o & Ho & Hid & Hn & Hk)]; (split; [lia|]); intros o1 Ho1 Hid1 k Hk1;
      rewrite Ho' in Ho1; injection Ho1 as <-; [lia|].
    apply Hk, (Hsub o Ho); [congruence|done].
Qed.

Lemma unplanned_fence now n reason c c' res p :
  _begin_unplanned_display_failure now n reason c = (c', res) -> fence_inv c p -> fence_inv c' p.
Proof.
  intros (c1 & res1 & fault & Hb & Hs & Hn & Hcase)%unplanned_inv Hinv.
  pose proof (begin_fence _ _ _ _ _ _ _ _ Hb Hinv) as [Hout Hnone Hframe].
  destruct Hcase as [->|[Heq|(o & Ho & Heq)]]; [done| |].
  - constructor; rewrite Heq, ?Hs, ?Hn; done.
  - constructor; rewrite Heq, ?Hs, ?Hn; [|done|].
    + intros o1 [= <-]. destruct (Hout o Ho) as (Hlt & a & Ha & Hk). split; [done|]. exists a. split; [done|].
      intros k Hka. destruct (Hk k Hka) as [Hst Hc]. split; [|done]. by destruct p.
    + intros r todo Hf. destruct (Hframe r todo Hf) as [Hlt Hsub]. split; [done|].
      intros o1 [= <-] Hid. apply (Hsub o Ho). exact Hid.
Qed.

Lemma fence_frame c p c' p' :
  fence_inv c p -> display_outage c' = display_outage c ->
  recovery_allowed (super c') = recovery_allowed (super c) ->
  next_display_outage_id c' = next_display_outage_id c ->
  (forall o k, starting p o k -> starting p' o k) ->
  (forall r todo, frame_of p' = Some (r, todo) -> exists r0 todo0, frame_of p = Some (r0, todo0) /\
     for_outage r = for_outage r0 /\ forall k, k ∈ todo -> k ∈ todo0) ->
  fence_inv c' p'.
Proof.
  intros [Hout Hnone Hframe] H1 H2 H3 Hst Hf. constructor; rewrite H1, ?H2, ?H3; [|done|].
  - intros o Ho. destruct (Hout o Ho) as (Hlt & a & Ha & Hk). split; [done|]. exists a. split; [done|].
    intros k Hka. destruct (Hk k Hka) as [? ?]. auto.
  - intros r todo Hr. destruct (Hf r todo Hr) as (r0 & todo0 & Hf0 & Hid & Hsub).
    destruct (Hframe r0 todo0 Hf0) as [Hlt Hin]. rewrite Hid. split; [done|]. intros o Ho Ho' k Hk. eauto.
Qed.

(** Nobody is being started: the fence is closed. *)
Lemma fence_closed c p o : fence_inv c p -> (forall o k, ~ starting p o k) -> display_outage c = Some o ->
  recovery_allowed (super c) = Some ∅.
Proof.
  intros [Hout _ _] Hno Ho. destruct (Hout o Ho) as (_ & a & -> & Hk). f_equal.
  apply set_eq. intros k. split; [|by intros []%elem_of_empty]. intros Hka. by destruct (Hno o k), (Hk k Hka).
Qed.

Lemma activate_fence r c c' k rest :
  recovery_turn r c = (c', Activate k rest) -> fence_inv c (Looping r) -> fence_inv c' (Activating r k rest).
Proof.
  intros (H1 & H2 & o & Ho & Hid & Hk & Hrest & _ & Ha)%recovery_turn_spec Hinv.
  pose proof (fence_closed c (Looping r) o Hinv (fun _ _ F => F) Ho) as Hclosed. rewrite Hclosed in Ha.
  destruct Hinv as [Hout Hnone Hframe]. destruct (Hframe r (remaining r) eq_refl) as [Hlt Hsub].
  constructor; rewrite H1, ?H2.
  - intros o1 Ho1. rewrite Ho in Ho1. injection Ho1 as <-. split; [by apply Hout|].
    exists ({[k]} ∪ ∅). split; [exact Ha|]. intros k' [->%elem_of_singleton|[]%elem_of_empty]%elem_of_union.
    split; [done|]. by apply Hsub.
  - congruence.
  - intros r0 todo [= <- <-]. split; [done|]. intros o1 Ho1 Hid1 k' [->|Hk']%elem_of_cons; eapply Hsub; eauto.
Qed.

(** The client is done: the fence closes behind it. *)
Lemma result_fence r k rest result c c' res p' :
  recovery_result r k rest result c = (c', res) -> fence_inv c (Activating r k rest) ->
  (forall o k, ~ starting p' o k) ->
  (forall r0 todo, frame_of p' = Some (r0, todo) -> exists r', res = Ok r' /\ r0 = r' /\ todo = remaining r') ->
  fence_inv c' p'.
Proof.
  intros (H1 & H2 & Ha & Hr)%recovery_result_spec [Hout Hnone Hframe] Hno Hf.
  destruct (Hframe r (k :: rest) eq_refl) as [Hlt Hsub].
  constructor; rewrite H1, ?H2.
  - intros o Ho. destruct (Hout o Ho) as (Hlo & a & Hall & Hk). split; [done|].
    assert (forall k', k' ∈ a -> k' = k /\ for_outage r = outage_id o) as Hone.
    { intros k' Hk'. by destruct (Hk k' Hk') as [[-> ->] _]. }
    unfold is_outage in Ha. rewrite Ho, Hall in Ha. cbn in Ha. exists ∅. split; [|intros k' []%elem_of_empty].
    rewrite Ha. destruct (Z.eqb_spec (outage_id o) (for_outage r)) as [Heq|Hne]; f_equal; apply set_eq; intros k';
      (split; [|by intros []%elem_of_empty]).
    + intros [Hk' Hn]%elem_of_difference. destruct (Hone k' Hk') as [-> _]. by destruct Hn; apply elem_of_singleton.
    + intros Hk'. destruct (Hone k' Hk') as [_ ?]. congruence.
  - intros Hn. unfold is_outage in Ha. rewrite Hn in Ha. rewrite Ha. by apply Hnone.
  - intros r0 todo Hr0. destruct (Hf r0 todo Hr0) as (r' & -> & -> & ->).
    destruct (Hr r' eq_refl) as [-> ->]. split; [done|]. intros o Ho Hid k' Hk'.
    eapply Hsub; [done..|]. by right.
Qed.

Lemma fence_step `{Channel} c p c' p' :
  outage_step (c, p) (c', p') -> fence_inv c p -> fence_inv c' p'.
Proof.
  inversion 1; subst; intros Hinv.
  - destruct (_begin_display_outage now n false false c) as [c1 res] eqn:Hb. by eapply begin_fence.
  - destruct (_begin_unplanned_display_failure now n reason0 c) as [c1 res] eqn:Hb. by eapply unplanned_fence.
  - match goal with Hs : recovery_start _ _ = _ |- _ => unfold recovery_start in Hs;
      destruct (display_outage c') as [o|] eqn:Ho; [|done]; destruct (heap _ !! n) as [i|]; [|done];
      destruct (_ && _); [|done]; injection Hs as <- end.
    destruct Hinv as [Hout Hnone Hframe]. constructor; [|congruence|].
    + intros o1 Ho1. destruct (Hout o1 Ho1) as (Hlt & a & Ha & Hk). split; [done|]. exists a. split; [done|].
      intros k Hka. by destruct (Hk k Hka).
    + intros r todo [= <- <-]. cbn. destruct (Hout o Ho) as (Hlt & _). split; [done|].
      intros o1 Ho1 _. rewrite Ho in Ho1. by injection Ho1 as <-.
  - by eapply activate_fence.
  - match goal with Ht : recovery_turn _ _ = _ |- _ => apply recovery_turn_spec in Ht as (H1' & H2' & H3') end.
    eapply fence_frame; [exact Hinv|done|by rewrite H3'|done|done|done].
  - match goal with Ht : recovery_turn _ _ = _ |- _ => apply recovery_turn_spec in Ht as (H1' & H2' & H3') end.
    match goal with Ht : recovery_commit _ _ = _ |- _ => apply recovery_commit_spec in Ht as (H4' & _ & _ & H5' & H6' & _) end.
    constructor; [congruence|done|done].
  - match goal with Ht : recovery_turn _ _ = _ |- _ => apply recovery_turn_spec in Ht as (H1' & H2' & H3') end.
    match goal with Ht : recovery_commit _ _ = _ |- _ => apply recovery_commit_spec in Ht as (H4' & ->) end.
    eapply fence_frame; [exact Hinv|done|by rewrite H3'|done|done|done].
  - eapply result_fence; [eassumption|exact Hinv|by intros ?? []|]. intros r0 todo [= <- <-]. eauto.
  - eapply result_fence; [eassumption|exact Hinv|by intros ?? []|done].
  - match goal with Ht : recovery_report _ _ _ _ = _ |- _ => apply recovery_report_spec in Ht as (H1' & H2' & H3') end.
    eapply fence_frame; [exact Hinv|done|by rewrite H3'|done|by intros ?? []|done].
  - match goal with Ht : elsewhere _ _ |- _ => destruct Ht as (H1' & H2' & H3') end.
    eapply fence_frame; [exact Hinv|done..| |]; [done|]. intros r todo Hf. exists r, todo. done.
Qed.

Lemma outage_invariant `{Channel} w : outage_reachable w -> fence_inv w.1 w.2.
Proof.
  induction 1 as [c Hn Ha|[c p] [c' p'] _ IH Hstep].
  - constructor; cbn; [congruence|done|done].
  - by eapply fence_step.
Qed.

(* ------------------------------------------------------------------ *)
(** ** Properties *)

(** C11: the fence around the clients of a lost display.  While an outage is
    active every component that inherits the display is refused a start, except
    the one recorded client that the recovery of this outage is starting at that
    moment; without an outage nobody is refused.  This holds in every
    interleaving of outages that begin or are extended, recoveries that proceed,
    are abandoned or cancelled, and the rest of Core, outside a display
    migration, which excludes recoveries and admits its own clients one by
    one. *)
Theorem display_fence `{Channel} c p m :
  outage_reachable (c, p) ->
  match display_outage c with
  | None => _display_outage_blocks (super c) m = false
  | Some o =>
      (_inherits_visual_session m = false -> _display_outage_blocks (super c) m = false) /\
      (_inherits_visual_session m = true ->
       ~ (starting p o (Manifest.key m) /\ Manifest.key m ∈ consumers o) ->
       _display_outage_blocks (super c) m = true)
  end.
Proof.
  intros [Hout Hnone _]%outage_invariant. cbn in *. unfold _display_outage_blocks.
  destruct (display_outage c) as [o|] eqn:Ho; [|by rewrite Hnone].
  destruct (Hout o eq_refl) as (_ & a & -> & Hk). split; intros ->; [done|]. intros Hn.
  rewrite bool_decide_eq_false_2; [done|]. intros Hin. by apply Hn, Hk.
Qed.

(** What an unexpected loss of the display records.  Its clients are split
    into those the recovery will start again, exactly the automatic services,
    and the applications that are dropped, each named once; the fence is
    closed for all of them; every client to recover keeps the failures it had
    more than the grace period before the loss; and the fault that will be
    announced names the provider, its generation and what was dropped. *)
Theorem unplanned_failure_spec now n reason_ c c' id i :
  heap (super c) !! n = Some i -> display_outage c = None -> NoDup (dkeys (instances (super c))) ->
  _begin_unplanned_display_failure now n reason_ c = (c', Some id) ->
  exists o f, display_outage c' = Some o /\ outage_id o = id /\ provider o = key i /\
    failed_generation o = generation i /\ automatic_services_only o = true /\
    (forall k, k ∈ consumers o <-> exists j, (k, j) ∈ display_clients (key i) (super c) /\
                 _is_automatic_visual_service (component j) = true) /\
    (forall k, k ∈ dropped_applications o <-> exists j, (k, j) ∈ display_clients (key i) (super c) /\
                 _is_automatic_visual_service (component j) = false) /\
    NoDup (suspended o) /\
    (forall m, _display_outage_blocks (super c') m = _inherits_visual_session m) /\
    (forall k, k ∈ consumers o -> dget (failure_baseline o) k =
       Some (List.filter (fun t => t <? now - DISPLAY_FAILURE_QUARANTINE_GRACE)%Z
               (dget_or (failure_history (super c)) k []))) /\
    display_fault c' = Some f /\ fault_id o = Some (fault_number f) /\ phase f = §"recovering" /\
    reason f = reason_ /\ fault_provider f = key i /\ fault_failed_generation f = generation i /\
    fault_dropped f = dropped_applications o.
Proof.
  intros Hi Hnone Hnd. unfold _begin_unplanned_display_failure. rewrite Hi, Hnone.
  destruct (_ || _); [done|].
  destruct (_begin_display_outage now n true true c) as [c1 [id1|]] eqn:Hb; [|done].
  destruct (begin_fresh _ _ _ _ _ _ _ _ Hi Hnone Hb)
    as (o & Ho & Hid & _ & _ & Hp & Hg & Hauto & _ & Ha & Hc & Hd & Hf & _).
  rewrite Ho. intros [= <- <-].
  set (clients := display_clients (key i) (super c)) in *.
  assert (forall k j j', (k, j) ∈ clients -> (k, j') ∈ clients -> j = j') as Hfun.
  { intros k j j' (m & Hm & Hj & _)%display_clients_elem (m' & Hm' & Hj' & _)%display_clients_elem.
    pose proof (NoDup_key_inj fst _ _ _ Hnd Hm Hm' eq_refl) as [= <-]. congruence. }
  eexists _, _. split; [reflexivity|]. cbn. split; [done|]. split; [done|]. split; [done|]. split; [done|].
  rewrite Hc, Hd. split; [|split; [|split; [|split; [|split]]]].
  - intros k. rewrite order_elem, recovery_candidates_elem. split; intros (j & Hj & Hs); exists j; auto.
  - intros k. rewrite order_elem, dropped_candidates_elem, recovery_candidates_elem. split.
    + intros (_ & Hk & Hn). unfold dkeys in Hk. apply list_elem_of_fmap in Hk as ([k' j] & -> & Hj).
      exists j. split; [done|]. apply not_true_is_false. intros Hs. apply Hn. exists j. auto.
    + intros (j & Hj & Hs). split; [done|]. split; [by apply (list_elem_of_fmap_2 fst) in Hj|].
      intros (j' & Hj' & Hs'). rewrite (Hfun k j j' Hj Hj'), (Hs' eq_refl) in Hs. done.
  - apply fromkeys_NoDup.
  - intros m. unfold _display_outage_blocks. match goal with |- context [recovery_allowed ?x] =>
      change (recovery_allowed x) with (recovery_allowed (super c1)) end. rewrite Ha.
    rewrite bool_decide_eq_false_2 by (intros []%elem_of_empty). by rewrite andb_true_r.
  - intros k Hk. rewrite Hf, Hc.
    apply (dget_comprehension (failures_before (Some (now - DISPLAY_FAILURE_QUARANTINE_GRACE)%Z) (super c)));
      [apply order_NoDup|done].
  - done.
Qed.

(** An outage costs its clients nothing.  Whatever happened to the failure
    counts and spawn delays of a client since a fresh outage recorded it, the
    budget it is recovered with is the one of before: its spawn delay, and its
    failures, all of them for a planned outage and those older than the grace
    period for an unexpected one.  Other components keep theirs. *)
Theorem outage_keeps_failure_budget now n recent auto c c' id o k c2 :
  is_Some (heap (super c) !! n) -> display_outage c = None ->
  _begin_display_outage now n recent auto c = (c', Some id) -> display_outage c' = Some o ->
  k ∈ consumers o -> dict_wf (failure_history (super c2)) -> dict_wf (spawn_backoff_until c2) ->
  let c3 := _restore_outage_failure_budget o k c2 in
  dget_or (failure_history (super c3)) k [] =
    (if recent
     then List.filter (fun t => t <? now - DISPLAY_FAILURE_QUARANTINE_GRACE)%Z
            (dget_or (failure_history (super c)) k [])
     else dget_or (failure_history (super c)) k []) /\
  dget (spawn_backoff_until c3) k = dget (spawn_backoff_until c) k /\
  (forall k', k' ≠ k -> dget (failure_history (super c3)) k' = dget (failure_history (super c2)) k' /\
                        dget (spawn_backoff_until c3) k' = dget (spawn_backoff_until c2) k') /\
  quarantined (super c3) = quarantined (super c2).
Proof.
  intros [i Hi] Hnone Hb Ho Hk Hwf Hwf2 c3.
  destruct (begin_fresh _ _ _ _ _ _ _ _ Hi Hnone Hb)
    as (o' & Ho' & _ & _ & _ & _ & _ & _ & _ & _ & Hc & _ & Hf & Hbo & _).
  rewrite Ho in Ho'. injection Ho' as <-.
  assert (NoDup (consumers o)) as Hnd by (rewrite Hc; apply order_NoDup).
  pose proof (dget_comprehension (failures_before (if recent then Some (now - DISPLAY_FAILURE_QUARANTINE_GRACE)%Z
    else None) (super c)) _ k Hnd Hk) as Hfk.
  pose proof (dget_comprehension (fun k => dget (spawn_backoff_until c) k) _ k Hnd Hk) as Hbk.
  cbv beta in Hbk. rewrite <- Hf in Hfk. rewrite <- Hbo in Hbk. unfold c3, _restore_outage_failure_budget.
  assert (dget_or (failure_baseline o) k [] = failures_before
    (if recent then Some (now - DISPLAY_FAILURE_QUARANTINE_GRACE)%Z else None) (super c) k) as ->
    by (unfold dget_or; by rewrite Hfk).
  assert (dget_or (backoff_baseline o) k None = dget (spawn_backoff_until c) k) as ->
    by (unfold dget_or; by rewrite Hbk).
  assert ((if recent then List.filter (fun t => t <? now - DISPLAY_FAILURE_QUARANTINE_GRACE)%Z
             (dget_or (failure_history (super c)) k []) else dget_or (failure_history (super c)) k [])
          = failures_before (if recent then Some (now - DISPLAY_FAILURE_QUARANTINE_GRACE)%Z else None) (super c) k)
    as ->.
  { destruct recent; [done|]. unfold failures_before. clear. induction (dget_or _ k []) as [|t l IH]; [done|].
    cbn. by rewrite <- IH. }
  split; [|split; [|split]].
  - destruct (failures_before _ _ k) as [|t l]; cbn; unfold dget_or.
    + rewrite dget_ddel by done. by rewrite decide_True.
    + by rewrite dget_dset_eq.
  - cbn. destruct (dget (spawn_backoff_until c) k); [apply dget_dset_eq|].
    rewrite dget_ddel by done. by rewrite decide_True.
  - intros k' Hne. cbn. split.
    + destruct (failures_before _ _ k); cbn; [|by apply dget_dset_ne].
      rewrite dget_ddel by done. by rewrite decide_False.
    + destruct (dget (spawn_backoff_until c) k); [by apply dget_dset_ne|].
      rewrite dget_ddel by done. by rewrite decide_False.
  - cbn. by destruct (failures_before _ _ k).
Qed.
End Outage.

(* ------------------------------------------------------------------ *)
(** ** Witnesses *)

Definition display_component (cid lifecycle : pystr) (provides : list Manifest.Provide)
    (windowing : dict pystr pyval) : Manifest.Component :=
  let c := sample_app cid in
  {| Manifest.package_id := Manifest.package_id c; Manifest.package_version := §"1"; Manifest.id := cid;
     Manifest.exec := Manifest.exec c; Manifest.lifecycle := lifecycle;
     Manifest.package_kind := §"system"; Manifest.package_name := §"p"; Manifest.package_icons := [];
     Manifest.runtime := §"custom"; Manifest.restart := §"always"; Manifest.idle_timeout_ms := None;
     Manifest.cwd := None; Manifest.env := [(§"DISPLAY", §":7")]; Manifest.readiness_mode := §"exec";
     Manifest.readiness_timeout_ms := 5000; Manifest.provides := provides; Manifest.requires := [];
     Manifest.wants := []; Manifest.after := []; Manifest.windowing := windowing;
     Manifest.activation := []; Manifest.permissions := []; Manifest.isolation := Isolation.spec_default;
     Manifest.raw := []; Manifest.manifest_path := None; Manifest.package_summary := [];
     Manifest.package_i18n := VNone |}.

Definition x11_client (mode : pystr) : dict pystr pyval :=
  [(§"system", VStr §"x11"); (§"display", VStr §"inherit"); (§"mode", VStr mode)].

Definition sample_x11 : Manifest.Component :=
  display_component §"x11" §"session"
    [{| Manifest.kind := §"role"; Manifest.name := DISPLAY_OUTPUT_ROLE; Manifest.priority := 1;
        Manifest.exclusive := true |}] [].
Definition sample_shell : Manifest.Component := display_component §"shell" §"session" [] (x11_client §"panel").
Definition sample_editor : Manifest.Component := display_component §"editor" §"manual" [] (x11_client §"window").

Definition display_components : dict pystr Manifest.Component :=
  [(§"p:x11", sample_x11); (§"p:shell", sample_shell); (§"p:editor", sample_editor)].

Definition display_registry : Roles.RoleRegistry :=
  match (r ← Roles.make display_components [] [];
         Roles.acquire r DISPLAY_OUTPUT_ROLE None (Some §"generation:1")) with
  | Ok (r, _) => r
  | Raise _ => empty_registry
  end.

(** A display, the shell that runs on it and an application the user opened;
    the shell has failed once. *)
Definition display_supervisor : Supervisor :=
  {| heap := {[ 1%nat := sample_instance sample_x11 11; 2%nat := sample_instance sample_shell 12;
                3%nat := sample_instance sample_editor 13 ]};
     instances := [(§"p:x11", 1%nat); (§"p:shell", 2%nat); (§"p:editor", 3%nat)];
     components := display_components;
     component_objects := [(§"p:x11", 0%nat); (§"p:shell", 0%nat); (§"p:editor", 0%nat)];
     role_registry := display_registry; service_catalog := Services.make display_components;
     catalog_epoch := 0; next_request_id := 1; stopping := false; stop_requests := ∅;
     foreground_stack := [§"p:editor"]; backgrounded_components := ∅;
     failure_history := [(§"p:shell", [seconds 100])]; quarantined := ∅; quarantine_times := [];
     recovery_allowed := None; idle_tasks := ∅; futures := ∅ |}.

Definition display_core : Core :=
  {| world := {| sup := display_supervisor; sent := []; spawned := [] |}; startup := [§"p:shell"];
     generations := [(§"p:x11", 1%Z)]; spawn_backoff_until := [];
     spawn_retry_tasks := []; retries_done := ∅; launched := ∅; display_outage := None;
     next_display_outage_id := 1; display_fault := None; next_display_fault_id := 1 |}.

(** The display is lost at second 200. *)
Definition lost_display : Core :=
  (_begin_unplanned_display_failure (seconds 200) 1 §"unexpected-provider-exit" display_core).1.

(** Nothing is written anywhere. *)
#[local] Instance no_channel : Channel := {| transmit := fun _ _ _ => Ok tt |}.

Definition sample_recovery : Recovery :=
  {| recovering := 1; for_outage := 1; for_revision := 1; remaining := [§"p:shell"]; restarted := [];
     failed := [] |}.

Lemma lost_display_reachable : outage_reachable (lost_display, Idle).
Proof.
  apply (or_step (display_core, Idle)); [apply or_init; reflexivity|].
  exact (os_unplanned (seconds 200) 1 §"unexpected-provider-exit" display_core Idle).
Qed.

Lemma recovering_reachable :
  outage_reachable ((recovery_turn sample_recovery lost_display).1, Activating sample_recovery §"p:shell" []).
Proof.
  apply (or_step (lost_display, Looping sample_recovery)).
  - apply (or_step (lost_display, Idle)); [exact lost_display_reachable|]. apply (os_start 1%nat). vm_compute. reflexivity.
  - apply os_activate. rewrite (surjective_pairing (recovery_turn sample_recovery lost_display)) at 1. f_equal.
Qed.

Lemma display_fence_witness :
  _display_outage_blocks (super lost_display) sample_shell = true /\
  _display_outage_blocks (super (recovery_turn sample_recovery lost_display).1) sample_shell = false /\
  _display_outage_blocks (super (recovery_turn sample_recovery lost_display).1) sample_editor = true.
Proof.
  split; [|split; [vm_compute; reflexivity|]].
  - pose proof (display_fence lost_display Idle sample_shell lost_display_reachable) as Hf.
    destruct (display_outage lost_display) as [o|] eqn:Ho; [|vm_compute in Ho; discriminate Ho].
    apply (proj2 Hf); [vm_compute; reflexivity|]. intros [[] _].
  - pose proof (display_fence _ _ sample_editor recovering_reachable) as Hf.
    destruct (display_outage (recovery_turn sample_recovery lost_display).1) as [o|] eqn:Ho;
      [|vm_compute in Ho; discriminate Ho].
    apply (proj2 Hf); [vm_compute; reflexivity|]. intros [[Hk _] _]. vm_compute in Hk. discriminate Hk.
Defined.

Lemma unplanned_failure_spec_witness :
  exists o, display_outage lost_display = Some o /\ consumers o = [§"p:shell"] /\
    dropped_applications o = [§"p:editor"] /\ automatic_services_only o = true.
Proof.
  destruct (unplanned_failure_spec (seconds 200) 1 §"unexpected-provider-exit" display_core lost_display 1
    (sample_instance sample_x11 11)) as (o & f & Ho & _ & _ & _ & Hauto & _).
  - reflexivity.
  - reflexivity.
  - apply (bool_decide_unpack _). vm_compute. exact I.
  - unfold lost_display. rewrite (surjective_pairing (_begin_unplanned_display_failure _ _ _ _)) at 1.
    f_equal.
  - exists o. split; [exact Ho|]. assert (Some o = display_outage lost_display) as Hc by (symmetry; exact Ho).
    vm_compute in Hc. injection Hc as ->. split; [reflexivity|]. split; [reflexivity|]. exact Hauto.
Defined.

Lemma outage_keeps_failure_budget_witness :
  let c := (_begin_display_outage (seconds 200) 1 false false display_core).1 in
  exists o, display_outage c = Some o /\
    dget_or (failure_history (super (_restore_outage_failure_budget o §"p:shell"
      (set_super (_record_component_failure §"p:shell" (seconds 201) display_supervisor).1 c)))) §"p:shell" []
    = [seconds 100].
Proof.
  intros c. destruct (display_outage c) as [o|] eqn:Ho; [|vm_compute in Ho; discriminate Ho].
  exists o. split; [reflexivity|].
  refine (proj1 (outage_keeps_failure_budget (seconds 200) 1 false false display_core c 1 o §"p:shell" _
    _ _ _ Ho _ _ _)).
  - vm_compute. eexists. reflexivity.
  - reflexivity.
  - unfold c. rewrite (surjective_pairing (_begin_display_outage _ _ _ _ _)) at 1. f_equal.
  - vm_compute in Ho. injection Ho as <-. left.
  - apply (bool_decide_unpack _). vm_compute. exact I.
  - apply (bool_decide_unpack _). vm_compute. exact I.
Defined.

(** The display comes back, as generation 2, before the editor was stopped. *)
Definition returned_display : Core :=
  let s := super lost_display in
  let i := sample_instance sample_x11 14 in
  let registry :=
    match (released ← Roles.release_provider (role_registry s) §"p:x11";
           Roles.acquire released.1 DISPLAY_OUTPUT_ROLE None (Some §"generation:2")) with
    | Ok (r, _) => r
    | Raise _ => role_registry s
    end in
  set_super (set_role_registry registry
    (set_instances (dset (instances s) §"p:x11" 4%nat)
       (set_heap (<[4%nat := i]> (heap (update 1 (set_finalized true) s))) s))) lost_display.

(** A planned outage that begins while the clients of an unexpected loss are
    still being suspended, because an operator restarts the display that came
    back: the editor joins the clients to recover although only automatic
    services may come back. *)
Theorem planned_outage_reopens_dropped_application :
  let c := (_begin_display_outage (seconds 201) 4 false false returned_display).1 in
  exists o, display_outage c = Some o /\ automatic_services_only o = true /\
    §"p:editor" ∈ dropped_applications o /\ §"p:editor" ∈ consumers o.
Proof.
  intros c. destruct (display_outage c) as [o|] eqn:Ho; vm_compute in Ho; [|discriminate Ho].
  injection Ho as <-. eexists. split; [reflexivity|]. split; [reflexivity|].
  split; apply (bool_decide_unpack _); vm_compute; exact I.
Qed.
End Outage.
