(* ===== verification/Lifecycle.v ===== *)
(** * Starting and stopping components ([msys_core/msysd.py])

    The life of one generation of a component: the serialised start, the spawn,
    readiness, the exit, the stop and the termination of its process.  Each
    coroutine is modelled by its segments between two awaits; what it does in
    one segment is a function on [Core], where it waits is the value of a
    program counter, and the interleavings are a step relation in
    [LifecycleSafety]. *)

From Stdlib Require Import ZArith.
From S2P Require Export Launch Outage.

Module Lifecycle.
Import Msysd Calls Dispatch Foreground Restart Messages Outage.

Inductive signal := SIGTERM | SIGKILL.

(** The operating system: the socket pair, environment and arguments prepared
    for a generation of a component ([Launch.prepare]), its isolation plan and
    [subprocess.Popen] ([Execution]), and [os.killpg] of the process group a component
    leads. *)
Class Platform := {
  prepare : Core -> Manifest.Component -> nat -> Z -> py (list pystr * dict pystr pystr);
  popen : Core -> Manifest.Component -> Z -> list pystr * dict pystr pystr -> py Z;
  killpg : Core -> Z -> signal -> py unit;
}.

(** [int(time.time() * 1000)] and the localized title of a component. *)
Class Presentation := {
  wall_clock_ms : Core -> Z;
  localized_title : pystr -> Manifest.Component -> pystr;
}.

Definition runtime_error (m : pystr) : exn := Exn RuntimeError m.

Section Lifecycle.
Context `{PyLib} `{PyRepr} `{Channel} `{Platform} `{Presentation}.

(** A segment: the new state and what happens next. *)
Definition segment (A : Type) : Type := Core * py A.

Definition seg_bind {A B} (m : segment A) (f : A -> Core -> segment B) : segment B :=
  match m with (c, Ok a) => f a c | (c, Raise e) => (c, Raise e) end.

Definition on_world (f : World -> World * py unit) (c : Core) : segment unit :=
  let '(w, r) := f (world c) in (set_world w c, r).

Definition modify (f : Supervisor -> Supervisor) (c : Core) : Core := set_super (f (super c)) c.

(* ------------------------------------------------------------------ *)
(** ** Transitions and notifications *)

Definition transition_title (m : Manifest.Component) : pystr :=
  py_str (py_or (py_or (py_or (dget_or (Manifest.raw m) §"name" VNone) (VStr (Manifest.package_name m)))
                   (dget_or (Manifest.windowing m) §"title" VNone))
            (VStr (Manifest.key m))).

Definition transition_payload (c : Core) (phase : pystr) (m : Manifest.Component) (generation : Z)
    (returncode : option Z) (message : pystr) : pyval :=
  VDict ([(§"phase", VStr phase); (§"component", VStr (Manifest.key m));
          (§"title", VStr (transition_title m)); (§"identity", VStr (window_identity m));
          (§"generation", VInt generation); (§"timestamp_ms", VInt (wall_clock_ms c))]
         ++ match returncode with Some rc => [(§"returncode", VInt rc)] | None => [] end
         ++ if str_true message then [(§"message", VStr (take 512 message))] else []).

Definition _emit_component_transition (phase : pystr) (m : Manifest.Component) (generation : Z)
    (returncode : option Z) (message : pystr) (c : Core) : segment unit :=
  on_world (broadcast §"msys.lifecycle.transition"
    (transition_payload c phase m generation returncode message) §"msys.core") c.

Definition _emit_application_crash_notification (i : Instance) (rc : Z) (c : Core) : segment unit :=
  let title := localized_title (key i) (component i) in
  on_world (broadcast §"msys.notification.post"
    (VDict [(§"schema", VStr §"msys.application-crash.v1"); (§"component", VStr (key i));
            (§"generation", VInt (generation i)); (§"returncode", VInt rc);
            (§"reason", VStr §"unexpected-process-exit"); (§"severity", VStr §"error");
            (§"title", VStr title);
            (§"message", VStr (title ++ §" exited unexpectedly (code " ++ dec_Z rc ++ §")"));
            (§"timestamp_ms", VInt (wall_clock_ms c))]) §"msys.core") c.

(* ------------------------------------------------------------------ *)
(** ** Releasing a generation *)

(** [_cancel_instance_tasks] up to its await; [me] is the idle task that runs
    it, if it is one. *)
Definition _cancel_instance_tasks (n : nat) (me : option nat) (s : Supervisor) : Supervisor :=
  match heap s !! n ≫= idle_task with
  | None => s
  | Some t =>
      if bool_decide (Some t = me) then s
      else let s := update n (set_idle_task None) s in
           if task_finished t s then s else cancel_task t s
  end.

Definition release_provider (k : pystr) (c : Core) : segment unit :=
  match Roles.release_provider (role_registry (super c)) k with
  | Ok (r, _) => (modify (set_role_registry r) c, Ok tt)
  | Raise e => (c, Raise e)
  end.

(** [_finalize_exited_instance] up to its first await.  [None]: it returned
    [False]; otherwise the outage it began, if any. *)
Definition finalize_begin (now : Z) (n : nat) (c : Core) : segment (option (option Z)) :=
  match heap (super c) !! n with
  | None => (c, Ok None)
  | Some i =>
      if finalized i || negb (is_current (super c) (key i) n) then (c, Ok None)
      else
        let '(c, outage) := _begin_unplanned_display_failure now n §"unexpected-provider-exit" c in
        let c := modify (update n (set_finalized true)) c in
        seg_bind (release_provider (key i) c) (fun _ c =>
        (modify (_cancel_instance_tasks n None) c, Ok (Some outage)))
  end.

(** The rest of [_finalize_exited_instance], before the display's clients are
    suspended. *)
Definition finalize_end (n : nat) (rc : Z) (c : Core) : segment unit :=
  match heap (super c) !! n with
  | None => (c, Ok tt)
  | Some i =>
      let c := modify (_close_instance_channel n §"PROVIDER_EXITED") c in
      let c := modify (update n (fun i =>
                 set_ready false (set_state (if (rc =? 0)%Z then §"exited" else §"failed") i))) c in
      let c := modify (_forget_foreground (key i)) c in
      seg_bind (if _is_foreground_app (component i) && negb (stopping (super c))
                then _emit_component_transition (if (rc =? 0)%Z then §"closed" else §"failed")
                       (component i) (generation i) (Some rc) [] c
                else (c, Ok tt)) (fun _ c =>
      if negb (rc =? 0)%Z && negb (stopping (super c)) && _is_ordinary_application (component i)
      then _emit_application_crash_notification i rc c
      else (c, Ok tt))
  end.

(** Where a termination waits. *)
Inductive term_pc := Signalled (deadline : Z) | Killed.

Definition is_lookup_error (e : exn) : bool := bool_decide (exn_type e = ProcessLookupError).

(** Signal the process group; [None] when there is nothing to wait for. *)
Definition signal_group (n : nat) (sig : signal) (next : term_pc) (c : Core) : segment (option term_pc) :=
  match heap (super c) !! n ≫= process with
  | None => (c, Ok None)
  | Some p =>
      match killpg c (pid p) sig with
      | Ok _ => (c, Ok (Some next))
      | Raise e => (c, if is_lookup_error e then Ok None else Raise e)
      end
  end.

Definition alive (n : nat) (s : Supervisor) : bool :=
  match heap s !! n with Some i => running i | None => false end.

(** [_terminate_instance_process] up to its first await. *)
Definition terminate_begin (now : Z) (n : nat) (c : Core) : segment (option term_pc) :=
  if alive n (super c) then signal_group n SIGTERM (Signalled (now + seconds 2)%Z) c else (c, Ok None).

(** One wake-up of the termination. *)
Definition terminate_resume (now : Z) (n : nat) (pc : term_pc) (c : Core) : segment (option term_pc) :=
  if negb (alive n (super c)) then (c, Ok None)
  else match pc with
       | Signalled deadline =>
           if (now <? deadline)%Z then (c, Ok (Some pc)) else signal_group n SIGKILL Killed c
       | Killed => (c, Ok (Some pc))
       end.

(** [_stop_component_locked] up to its first await: the instance it stops and
    whether the user sees a transition. *)
Definition stop_begin (k : pystr) (me : option nat) (c : Core) : segment (option (nat * bool)) :=
  match dget (instances (super c)) k with
  | None => (c, Ok None)
  | Some n =>
      let c := modify (fun s => set_instances (ddel (instances s) k) s) c in
      match heap (super c) !! n with
      | None => (c, Ok None)
      | Some i =>
          let animate := _is_foreground_app (component i) && negb (stopping (super c)) in
          seg_bind (if animate && negb (transition_closing i)
                    then _emit_component_transition §"closing" (component i) (generation i) None []
                           (modify (update n (set_transition_closing true)) c)
                    else (c, Ok tt)) (fun _ c =>
          let c := modify (update n (set_finalized true)) c in
          seg_bind (release_provider k c) (fun _ c =>
          seg_bind (on_world (_send_component_response n [(§"type", VStr §"shutdown")]) c) (fun _ c =>
          (modify (_cancel_instance_tasks n me) c, Ok (Some (n, animate))))))
      end
  end.

(** From the end of the task cancellation to the termination. *)
Definition stop_close (now : Z) (k : pystr) (n : nat) (c : Core) : segment (option term_pc) :=
  let c := modify (_close_instance_channel n §"PROVIDER_STOPPED") c in
  let c := modify (update n (set_ready false)) c in
  let c := modify (_forget_foreground k) c in
  terminate_begin now n c.

(** After the termination. *)
Definition stop_end (n : nat) (animate : bool) (c : Core) : segment unit :=
  match heap (super c) !! n with
  | None => (c, Ok tt)
  | Some i =>
      if animate
      then _emit_component_transition §"closed" (component i) (generation i)
             (process i ≫= returncode) [] c
      else (c, Ok tt)
  end.

(* ------------------------------------------------------------------ *)
(** ** Starting a component: [_ensure_started_locked] *)

(** Where a stop waits. *)
Inductive stop_pc :=
| Cancelling (n : nat) (animate : bool)
| Terminating (n : nat) (animate : bool) (pc : term_pc).

(** One wake-up of a stop; [None] when [_stop_component_locked] has returned. *)
Definition stop_done (n : nat) (animate : bool) (c : Core) : segment (option stop_pc) :=
  seg_bind (stop_end n animate c) (fun _ c => (c, Ok None)).

Definition stop_resume (now : Z) (k : pystr) (pc : stop_pc) (c : Core) : segment (option stop_pc) :=
  match pc with
  | Cancelling n animate =>
      seg_bind (stop_close now k n c) (fun t c =>
        match t with
        | Some t => (c, Ok (Some (Terminating n animate t)))
        | None => stop_done n animate c
        end)
  | Terminating n animate t =>
      seg_bind (terminate_resume now n t c) (fun t c =>
        match t with
        | Some t => (c, Ok (Some (Terminating n animate t)))
        | None => stop_done n animate c
        end)
  end.

(** Where a start waits. *)
Inductive start_pc :=
| SpawnBackoff
| StoppingStale (pc : stop_pc)
| Finalizing (n : nat) (rc : Z) (outage : option Z)
| Suspending (n : nat) (rc : Z)
| RestartDelay (n : nat)
| Requiring (rest : list pystr)
| Ordering (rest : list pystr).

(** The result of a segment of a start: the generation, or where it waits;
    the latter with the local variable [component], whose identity is
    [obj]. *)
Inductive progress :=
| Returned (n : nat)
| Waits (m : Manifest.Component) (obj : nat) (pc : start_pc).

(** Who runs a start: nobody in particular, or the retry task of its key. *)
Definition _schedule_spawn_retry (me : option nat) (k : pystr) (delay : Z) (c : Core) : Core :=
  if match dget (components (super c)) k with
     | Some m => _display_outage_blocks (super c) m
     | None => false
     end
  then c
  else if match dget (spawn_retry_tasks c) k with
          | Some t => negb (bool_decide (t ∈ retries_done c)) && negb (bool_decide (Some t = me))
          | None => false
          end
  then c
  else
    let id := length (spawned (world c)) in
    set_spawn_retry_tasks (dset (spawn_retry_tasks c) k id)
      (set_world (track_task (SpawnRetry id k delay) (world c)) c).

(** The generation that a spawn installs. *)
Definition new_instance (now : Z) (m : Manifest.Component) (obj : nat) (gen pid : Z) : Instance :=
  let exec := bool_decide (Manifest.readiness_mode m = §"exec") in
  {| component := m; component_object := obj; generation := gen;
     process := Some {| pid := pid; returncode := None |}; sock := true;
     state := if exec then §"ready" else §"handshaking"; ready := exec; started_at := now;
     subscriptions := ∅; pending_calls := []; in_flight_calls := 0; idle_task := None;
     finalized := false; backoff_until := 0; transition_closing := false |}.

Definition track_all (ts : list task) (w : World) : World :=
  {| sup := sup w; sent := sent w; spawned := spawned w ++ ts |}.

(** The tasks a spawn creates, in order. *)
Definition spawn_tasks (k : pystr) (n : nat) (m : Manifest.Component) (s : Supervisor) : list task :=
  [WatchProcess n; ReadComponent n]
  ++ (if bool_decide (Manifest.readiness_mode m = §"exec") then [] else [ReadinessProbe n])
  ++ ((fun d => StartWanted k d) <$> List.filter (dhas (components s)) (Manifest.wants m)).

(** The process exists. *)
Definition spawn_succeeds (now : Z) (k : pystr) (m : Manifest.Component) (obj : nat) (gen pid : Z)
    (c : Core) : segment progress :=
  let n := fresh (dom (heap (super c))) in
  let c := modify (fun s => set_instances (dset (instances s) k n)
                     (set_heap (<[n := new_instance now m obj gen pid]> (heap s)) s)) c in
  let c := set_spawn_backoff_until (ddel (spawn_backoff_until c) k) c in
  let c := if _is_foreground_app m then modify (_mark_foreground k) c else c in
  let c := set_world (track_all (spawn_tasks k n m (super c)) (world c)) c in
  seg_bind (if bool_decide (Manifest.readiness_mode m = §"exec")
            then on_world (_component_became_ready n) c
            else (c, Ok tt)) (fun _ c =>
  (c, Ok (Returned n))).

(** [Popen], or the isolation plan, raised [e]. *)
Definition spawn_fails (now : Z) (me : option nat) (k : pystr) (m : Manifest.Component) (gen : Z)
    (e : exn) (c : Core) : segment progress :=
  if negb (caught e) then (c, Raise e)
  else
    seg_bind (if _is_foreground_app m
              then _emit_component_transition §"failed" m gen None (exn_msg e) c
              else (c, Ok tt)) (fun _ c =>
    let '(s, delay) := _record_component_failure k now (super c) in
    let c := set_super s c in
    match delay with
    | None => (c, Raise e)
    | Some d =>
        let c := set_spawn_backoff_until (dset (spawn_backoff_until c) k (now + d)%Z) c in
        ((if _component_should_restart m 1 then _schedule_spawn_retry me k d c else c), Raise e)
    end).

(** From the allocation of a generation on.  What the preparation raises is not
    accounted for as a failure. *)
Definition spawn (now : Z) (me : option nat) (k : pystr) (m : Manifest.Component) (obj : nat) (c : Core)
    : segment progress :=
  let gen := (dget_or (generations c) k 0 + 1)%Z in
  let c := set_generations (dset (generations c) k gen) c in
  seg_bind (if _is_foreground_app m
            then _emit_component_transition §"launching" m gen None [] c
            else (c, Ok tt)) (fun _ c =>
  match prepare c m obj gen with
  | Raise e => (c, Raise e)
  | Ok launch =>
      match popen c m gen launch with
      | Raise e => spawn_fails now me k m gen e c
      | Ok pid => spawn_succeeds now k m obj gen pid c
      end
  end).

Definition cancelled_start (k : pystr) : exn := runtime_error (§"component start cancelled: " ++ k).

Definition stop_pending (k : pystr) (s : Supervisor) : bool :=
  stopping s || bool_decide (k ∈ stop_requests s).

Section Steps.
(** The start of a recursive call, and the segment's clock and identity. *)
Context (again : Core -> segment progress).
Context (now : Z) (me : option nat) (k : pystr) (m : Manifest.Component) (obj : nat).

Definition wait (pc : start_pc) (c : Core) : segment progress := (c, Ok (Waits m obj pc)).

(** The dependencies are there: is the component still the same? *)
Definition recheck (c : Core) : segment progress :=
  if negb (bool_decide (dget (component_objects (super c)) k = Some obj)) then again c
  else if stop_pending k (super c) then (c, Raise (cancelled_start k))
  else spawn now me k m obj c.

(** [after]: wait for a dependency only while it is coming up. *)
Fixpoint order_after (deps : list pystr) (c : Core) : segment progress :=
  match deps with
  | [] => recheck c
  | d :: deps =>
      match current (super c) d with
      | Some i => if ready i || negb (running i) then order_after deps c else wait (Ordering deps) c
      | None => order_after deps c
      end
  end.

(** [ensure_ready] of the first of [deps] is awaited. *)
Definition require (deps : list pystr) (c : Core) : segment progress :=
  match deps with
  | [] => order_after (Manifest.after m) c
  | _ :: rest => wait (Requiring rest) c
  end.

Definition after_delay (c : Core) : segment progress :=
  if stop_pending k (super c) then (c, Raise (cancelled_start k)) else require (Manifest.requires m) c.

(** The delay of an exited generation. *)
Definition delay_exited (n : nat) (c : Core) : segment progress :=
  match heap (super c) !! n with
  | Some i => if (0 <? backoff_until i - now)%Z then wait (RestartDelay n) c else after_delay c
  | None => after_delay c
  end.

(** An exited generation was finalized: account for its failure. *)
Definition account_exit (n : nat) (rc : Z) (c : Core) : segment progress :=
  match heap (super c) !! n with
  | None => after_delay c
  | Some i =>
      if _component_should_restart (component i) rc
      then
        let '(s, delay) := _record_restart_failure n now (super c) in
        let c := set_super s c in
        match delay with
        | None => (c, Raise (runtime_error (§"component is quarantined: " ++ k)))
        | Some d =>
            delay_exited n
              (modify (update n (fun i => set_backoff_until (now + d)%Z (set_state §"backoff" i))) c)
        end
      else delay_exited n c
  end.

(** [finalize_end], and then the wait for the display's clients if an outage
    began. *)
Definition finish_exit (n : nat) (rc : Z) (outage : option Z) (c : Core) : segment progress :=
  seg_bind (finalize_end n rc c) (fun _ c =>
    match outage with
    | Some _ => wait (Suspending n rc) c
    | None => account_exit n rc c
    end).

(** The generation that is there, if any. *)
Definition replace_existing (c : Core) : segment progress :=
  match dget (instances (super c)) k with
  | None => require (Manifest.requires m) c
  | Some n =>
      match heap (super c) !! n with
      | None => require (Manifest.requires m) c
      | Some i =>
          match process i with
          | None => require (Manifest.requires m) c
          | Some p =>
              match returncode p with
              | None =>
                  if bool_decide (dget (component_objects (super c)) k = Some (component_object i))
                  then (c, Ok (Returned n))
                  else seg_bind (stop_begin k None c) (fun r c =>
                         match r with
                         | Some (n, animate) => wait (StoppingStale (Cancelling n animate)) c
                         | None => require (Manifest.requires m) c
                         end)
              | Some rc =>
                  if finalized i then delay_exited n c
                  else seg_bind (finalize_begin now n c) (fun o c =>
                         match o with
                         | Some outage => wait (Finalizing n rc outage) c
                         | None => account_exit n rc c
                         end)
              end
          end
      end
  end.
End Steps.

(** A generation that is ready and of the current catalog entry. *)
Definition serving (k : pystr) (obj : nat) (c : Core) : option nat :=
  match dget (instances (super c)) k with
  | None => None
  | Some n =>
      match heap (super c) !! n with
      | Some i =>
          if bool_decide (component_object i = obj)
             && (generation i =? dget_or (generations c) k (generation i))%Z
             && ready i && bool_decide (state i = §"ready") && negb (finalized i) && running i
          then Some n else None
      | None => None
      end
  end.

(** [fuel] bounds the recursive calls; one is enough ([ensure_fuel]). *)
Fixpoint _ensure_started_locked (fuel : nat) (now : Z) (me : option nat) (k : pystr) (c : Core)
    : segment progress :=
  match fuel with
  | O => (c, Raise (Exn RecursionError []))
  | S fuel =>
      if stop_pending k (super c) then (c, Raise (cancelled_start k))
      else match dget (components (super c)) k, dget (component_objects (super c)) k with
           | Some m, Some obj =>
               if bool_decide (k ∈ quarantined (super c))
               then (c, Raise (runtime_error (§"component is quarantined: " ++ k)))
               else match serving k obj c with
                    | Some n => (c, Ok (Returned n))
                    | None =>
                        if _display_outage_blocks (super c) m
                        then (c, Raise (runtime_error
                               (§"display-output is unavailable; component start deferred: " ++ k)))
                        else if (0 <? dget_or (spawn_backoff_until c) k 0 - now)%Z
                        then (c, Ok (Waits m obj SpawnBackoff))
                        else replace_existing (_ensure_started_locked fuel now me k) now me k m obj c
                    end
           | _, _ => (c, Raise (Exn KeyError (§"unknown component " ++ k)))
           end
  end.

(** [ensure_started] once it holds the start lock of [k]. *)
Definition start_locked := _ensure_started_locked 1.

(** [ensure_started] before it waits for the lock. *)
Definition ensure_started_guard (k : pystr) (c : Core) : py unit :=
  if stopping (super c) then Raise (runtime_error §"msysd is stopping")
  else if bool_decide (k ∈ stop_requests (super c))
  then Raise (runtime_error (§"component stop is in progress: " ++ k))
  else Ok tt.

(** One wake-up of a start that waits at [pc]; [awaited] is the result of the
    [ensure_ready] of a dependency. *)
Definition start_resume (now : Z) (me : option nat) (k : pystr) (m : Manifest.Component) (obj : nat)
    (pc : start_pc) (awaited : py nat) (c : Core) : segment progress :=
  let again := start_locked now me k in
  match pc with
  | SpawnBackoff =>
      if stop_pending k (super c) then (c, Raise (cancelled_start k))
      else replace_existing again now me k m obj c
  | StoppingStale pc =>
      seg_bind (stop_resume now k pc c) (fun pc c =>
        match pc with
        | Some pc => wait m obj (StoppingStale pc) c
        | None => require again now me k m obj (Manifest.requires m) c
        end)
  | Finalizing n rc outage => finish_exit again now me k m obj n rc outage c
  | Suspending n rc => account_exit again now me k m obj n rc c
  | RestartDelay _ => after_delay again now me k m obj c
  | Requiring rest =>
      match awaited with
      | Raise e => (c, Raise e)
      | Ok _ => require again now me k m obj rest c
      end
  | Ordering rest => order_after again now me k m obj rest c
  end.

(* ------------------------------------------------------------------ *)
(** ** Readiness: [ensure_ready] *)

(** Where [ensure_ready] waits: for an event of instance [n] until a deadline,
    for the watcher of [n], or for
    [ensure_started], the first time or to replace an exited generation. *)
Inductive ready_pc :=
| AwaitFirst
| AwaitReady (n : nat) (deadline : Z)
| AwaitWatcher (n : nat)
| AwaitStart.

Inductive ready_progress :=
| Ready (n : nat)
| ReadyWaits (pc : ready_pc).

Definition not_ready (k : pystr) : exn := runtime_error (§"component did not become ready: " ++ k).

(** The instance is ready and current: return it. *)
Definition deliver (n : nat) (i : Instance) (c : Core) : segment ready_progress :=
  seg_bind (on_world (_component_became_ready n) c) (fun _ c =>
  seg_bind (if _is_foreground_app (component i) && negb (bool_decide (n ∈ launched c))
            then _emit_component_transition §"launched" (component i) (generation i) None []
                   (set_launched ({[n]} ∪ launched c) c)
            else (c, Ok tt)) (fun _ c =>
  (c, Ok (Ready n)))).

Definition exit_status (i : Instance) : option Z := process i ≫= returncode.

(** [replaced] is the loop for the instance that took the place of [n]. *)
Definition ready_decide (replaced : nat -> Core -> segment ready_progress) (k : pystr) (n : nat)
    (i : Instance) (c : Core) : segment ready_progress :=
  if ready i && is_current (super c) k n then deliver n i c
  else match dget (instances (super c)) k with
       | None => (c, Raise (not_ready k))
       | Some other =>
           if negb (bool_decide (other = n)) then replaced other c
           else match exit_status i with
                | Some rc =>
                    if negb (stop_pending k (super c)) && negb (bool_decide (k ∈ quarantined (super c)))
                       && _component_should_restart (component i) rc
                    then (c, Ok (ReadyWaits (AwaitWatcher n)))
                    else (c, Raise (not_ready k))
                | None => (c, Raise (not_ready k))
                end
       end.

(** The inner loop, woken up with its deadline. *)
Definition ready_check (replaced : nat -> Core -> segment ready_progress) (now : Z) (k : pystr) (n : nat)
    (deadline : Z) (c : Core) : segment ready_progress :=
  match heap (super c) !! n with
  | None => (c, Raise (not_ready k))
  | Some i =>
      if negb (ready i) && bool_decide (exit_status i = None) && is_current (super c) k n
         && (now <? deadline)%Z
      then (c, Ok (ReadyWaits (AwaitReady n deadline)))
      else ready_decide replaced k n i c
  end.

Definition readiness_timeout (n : nat) (s : Supervisor) : Z :=
  match heap s !! n with Some i => millis (Manifest.readiness_timeout_ms (component i)) | None => 0 end.

(** The outer loop for instance [n]; the current instance is not replaced
    within a segment, so two rounds are enough ([ready_fuel]). *)
Fixpoint ready_rounds (fuel : nat) (now : Z) (k : pystr) (n : nat) (c : Core) : segment ready_progress :=
  match fuel with
  | O => (c, Raise (Exn RecursionError []))
  | S fuel => ready_check (ready_rounds fuel now k) now k n (now + readiness_timeout n (super c))%Z c
  end.

Definition ready_loop := ready_rounds 2.

(** One wake-up of [ensure_ready]; [started] is the result of [ensure_started]. *)
Definition ready_resume (now : Z) (k : pystr) (pc : ready_pc) (started : py nat) (c : Core)
    : segment ready_progress :=
  match pc with
  | AwaitFirst => match started with Ok n => ready_loop now k n c | Raise e => (c, Raise e) end
  | AwaitReady n deadline => ready_check (ready_loop now k) now k n deadline c
  | AwaitWatcher n =>
      match dget (instances (super c)) k with
      | Some other => if negb (bool_decide (other = n)) then ready_loop now k other c
                      else (c, Ok (ReadyWaits AwaitStart))
      | None => (c, Ok (ReadyWaits AwaitStart))
      end
  | AwaitStart =>
      match started with
      | Raise e => (c, Raise e)
      | Ok n =>
          match heap (super c) !! n ≫= exit_status with
          | Some _ => (c, Raise (not_ready k))
          | None => ready_loop now k n c
          end
      end
  end.

(* ------------------------------------------------------------------ *)
(** ** The tasks of an instance *)

(** [_watch_process] once the process has exited: what it waits for. *)
Inductive watch_pc :=
| WatchFinalizing (rc : Z) (outage : option Z)
| WatchSuspending (rc : Z)
| WatchBackoff.

Definition watch_begin (now : Z) (n : nat) (c : Core) : segment (option watch_pc) :=
  match heap (super c) !! n with
  | None => (c, Ok None)
  | Some i =>
      match exit_status i with
      | None => (c, Ok None)
      | Some rc =>
          if negb (is_current (super c) (key i) n) then (c, Ok None)
          else seg_bind (finalize_begin now n c) (fun o c =>
                 (c, Ok ((fun outage => WatchFinalizing rc outage) <$> o)))
      end
  end.

Definition watch_account (now : Z) (n : nat) (rc : Z) (c : Core) : segment (option watch_pc) :=
  let '(s, delay) := watch_exit n rc now (super c) in
  (set_super s c, Ok ((fun _ => WatchBackoff) <$> delay)).

(** [WatchBackoff] goes on with [ensure_started] when [restart_resumes]. *)
Definition watch_resume (now : Z) (n : nat) (pc : watch_pc) (c : Core) : segment (option watch_pc) :=
  match pc with
  | WatchFinalizing rc outage =>
      seg_bind (finalize_end n rc c) (fun _ c =>
        match outage with
        | Some _ => (c, Ok (Some (WatchSuspending rc)))
        | None => watch_account now n rc c
        end)
  | WatchSuspending rc => watch_account now n rc c
  | WatchBackoff => (c, Ok None)
  end.

(** [_read_component] when the control channel of instance [n] failed: the
    outage it began and the termination it waits for. *)
Definition channel_failed (now : Z) (n : nat) (c : Core) : segment (option Z * option term_pc) :=
  match heap (super c) !! n with
  | None => (c, Ok (None, None))
  | Some i =>
      if negb (bool_decide (Manifest.readiness_mode (component i) = §"mipc-ready"))
         || negb (is_current (super c) (key i) n) || finalized i
      then (c, Ok (None, None))
      else
        let '(c, outage) := _begin_unplanned_display_failure now n §"unexpected-provider-channel-failure" c in
        let c := modify (update n (fun i => set_state §"channel-failed" (set_ready false i))) c in
        seg_bind (release_provider (key i) c) (fun _ c =>
        seg_bind (terminate_begin now n (modify (_close_instance_channel n §"PROVIDER_CHANNEL_FAILED") c))
          (fun t c => (c, Ok (outage, t))))
  end.

(** The readiness probe of an [x11-display] provider saw its display. *)
Definition probe_ready (n : nat) (c : Core) : segment unit :=
  on_world (_component_became_ready n)
    (modify (update n (fun i => set_state §"ready" (set_ready true i))) c).

(** [_readiness_probe] after its deadline. *)
Definition probe_timeout (now : Z) (n : nat) (c : Core) : segment (option term_pc) :=
  match heap (super c) !! n with
  | None => (c, Ok None)
  | Some i =>
      if ready i || negb (is_current (super c) (key i) n) then (c, Ok None)
      else terminate_begin now n c
  end.

(* ------------------------------------------------------------------ *)
(** ** [stop_component] *)

(** Before the lock: the planned outage, if any, and the request. *)
Definition stop_request (now : Z) (k : pystr) (expected : option nat) (c : Core) : Core * option Z :=
  let '(c, outage) :=
    match dget (instances (super c)) k with
    | Some n =>
        if match expected with Some e => bool_decide (e = n) | None => true end
        then _begin_display_outage now n false false c else (c, None)
    | None => (c, None)
    end in
  let c := modify (fun s => set_stop_requests ({[k]} ∪ stop_requests s) s) c in
  (set_spawn_retry_tasks (ddel (spawn_retry_tasks c) k) c, outage).

(** Once the lock is held. *)
Definition stop_locked (k : pystr) (expected : option nat) (me : option nat) (c : Core)
    : segment (option stop_pc) :=
  if match expected with
     | Some e => negb (bool_decide (dget (instances (super c)) k = Some e))
     | None => false
     end
  then (c, Ok None)
  else seg_bind (stop_begin k me c) (fun r c =>
         (c, Ok ((fun p => Cancelling p.1 p.2) <$> r))).

(** The [finally] clause. *)
Definition stop_finally (k : pystr) (c : Core) : Core :=
  modify (fun s => set_stop_requests (stop_requests s ∖ {[k]}) s) c.
End Lifecycle.
End Lifecycle.
