(* ===== verification/LifecycleSafety.v ===== *)
(** * Safety of starts and stops ([msys_core/msysd.py])

    The coroutines of [Lifecycle] interleaved: starts and stops of a component
    are serialised by its lock, its processes exit when they want, watchers,
    probes and readers run, sends fail, tasks are cancelled, and the rest of Core
    goes on.  The invariant is that a component never has two live processes
    besides those whose termination an exception or a cancellation abandoned. *)

From Stdlib Require Import ZArith.
From S2P Require Export Lifecycle.

Module LifecycleSafety.
Import Msysd Calls Dispatch Foreground Restart Messages Outage Lifecycle.

Section Safety.
Context {lib : PyLib} {repr : PyRepr} {chan : Channel} {plat : Platform} {pres : Presentation}.

(* ------------------------------------------------------------------ *)
(** ** What every segment keeps: the processes and identities of instances *)

Record quiet (c c' : Core) : Prop := {
  q_old : forall n i, heap (super c) !! n = Some i -> exists i', heap (super c') !! n = Some i' /\
    component i' = component i /\ process i' = process i /\ generation i' = generation i /\
    component_object i' = component_object i;
  q_new : forall n, heap (super c) !! n = None -> heap (super c') !! n = None;
  q_generations : generations c' = generations c;
  q_objects : component_objects (super c') = component_objects (super c);
  q_components : components (super c') = components (super c);
  q_roles : roles_wf (super c) -> roles_wf (super c');
  q_pending : forall k, stop_pending k (super c') = stop_pending k (super c);
}.

(** ... and who is current. *)
Definition calm (c c' : Core) : Prop := quiet c c' /\ instances (super c') = instances (super c).

Lemma quiet_refl c : quiet c c.
Proof. constructor; eauto 10. Qed.

Lemma quiet_trans c1 c2 c3 : quiet c1 c2 -> quiet c2 c3 -> quiet c1 c3.
Proof.
  intros [A1 B1 C1 D1 E1 F1 G1] [A2 B2 C2 D2 E2 F2 G2]. constructor; [|auto|congruence..|auto|congruence].
  intros n i Hi. destruct (A1 n i Hi) as (j & Hj & H1j & H2j & H3j & H4j).
  destruct (A2 n j Hj) as (j' & Hj' & H1j' & H2j' & H3j' & H4j'). exists j'. repeat split; congruence.
Qed.

Lemma calm_refl c : calm c c.
Proof. split; [apply quiet_refl|done]. Qed.

Lemma calm_trans c1 c2 c3 : calm c1 c2 -> calm c2 c3 -> calm c1 c3.
Proof. intros [Q1 I1] [Q2 I2]. split; [by eapply quiet_trans|congruence]. Qed.

(** Nothing the relation looks at changed. *)
Lemma calm_frame c c' :
  heap (super c') = heap (super c) -> instances (super c') = instances (super c) ->
  generations c' = generations c -> component_objects (super c') = component_objects (super c) ->
  components (super c') = components (super c) ->
  role_registry (super c') = role_registry (super c) ->
  stopping (super c') = stopping (super c) -> stop_requests (super c') = stop_requests (super c) -> calm c c'.
Proof.
  intros E1 E2 E3 E4 E5 E6 E7 E8. split; [|done]. constructor; [|by rewrite E1|done..|by unfold roles_wf; rewrite E6|].
  2:{ intros k. unfold stop_pending. by rewrite E7, E8. }
  intros n i Hi. exists i. by rewrite E1.
Qed.

Lemma calm_update n f c :
  (forall i, component (f i) = component i /\ process (f i) = process i /\ generation (f i) = generation i /\
    component_object (f i) = component_object i) ->
  calm c (modify (update n f) c).
Proof.
  intros Hf. split; [|done]. constructor; [| |done..].
  - intros m i Hi. cbn [super modify set_super world set_world sup set_sup]. rewrite heap_update.
    change (sup (world c)) with (super c). rewrite Hi. case_decide; [|by exists i].
    exists (f i). destruct (Hf i) as (? & ? & ? & ?). done.
  - intros m Hm. cbn [super modify set_super world set_world sup set_sup]. rewrite heap_update.
    change (sup (world c)) with (super c). rewrite Hm. by case_decide.
Qed.

Lemma calm_bind {A B} (c : Core) (m : segment A) (f : A -> Core -> segment B) :
  calm c m.1 -> (forall a c1, m = (c1, Ok a) -> calm c c1 -> calm c (f a c1).1) -> calm c (seg_bind m f).1.
Proof. destruct m as [c1 [a|e]]; cbn; intros H1 H2; [by apply (H2 a c1)|done]. Qed.

Lemma calm_broadcast topic payload source c : calm c (on_world (broadcast topic payload source) c).1.
Proof.
  unfold on_world. pose proof (broadcast_emits topic payload source (world c)) as [Hs _].
  destruct (broadcast topic payload source (world c)) as [w r]. cbn in *. apply calm_frame; cbn; unfold super; cbn; by rewrite ?Hs.
Qed.

Lemma calm_send n packet c : calm c (on_world (_send_component_response n packet) c).1.
Proof.
  unfold on_world. pose proof (send_response_emits n packet (world c)) as [Hs _].
  destruct (_send_component_response n packet (world c)) as [w r]. cbn in *. apply calm_frame; cbn; unfold super; cbn; by rewrite ?Hs.
Qed.

Lemma calm_transition phase m gen rc msg c : calm c (_emit_component_transition phase m gen rc msg c).1.
Proof. apply calm_broadcast. Qed.

Lemma calm_crash i rc c : calm c (_emit_application_crash_notification i rc c).1.
Proof. apply calm_broadcast. Qed.

Lemma forgive_frame cutoff ks s :
  let s' := foldl (forgive_quarantine cutoff) s ks in
  component_objects s' = component_objects s /\ components s' = components s /\
  heap s' = heap s /\ instances s' = instances s /\ role_registry s' = role_registry s /\
  stopping s' = stopping s /\ stop_requests s' = stop_requests s.
Proof.
  revert s; induction ks as [|k ks IH]; intros s; [done|]. cbn [foldl] in *.
  destruct (IH (forgive_quarantine cutoff s k)) as (-> & -> & -> & -> & -> & -> & ->). unfold forgive_quarantine. by destruct (_ && _).
Qed.

Lemma calm_outage now n recent auto c : calm c (_begin_display_outage now n recent auto c).1.
Proof.
  unfold _begin_display_outage. destruct (heap (super c) !! n) as [i|]; [|apply calm_refl].
  destruct (_ || _); [apply calm_refl|]. set (ordered := _order_visual_consumer_keys _ _ _).
  set (cutoff := if recent then _ else _). set (c1 := match cutoff with Some _ => _ | None => c end).
  assert (calm c c1 /\ display_outage c1 = display_outage c) as [Hc ->].
  { unfold c1. destruct cutoff as [t|]; [|by split; [apply calm_refl|]]. split; [|done].
    destruct (forgive_frame t ordered (super c)) as (E1 & E2 & E3 & E4 & E5 & E6 & E7). apply calm_frame; done. }
  eapply calm_trans; [exact Hc|]. by destruct (display_outage c); apply calm_frame.
Qed.

Lemma calm_unplanned now n reason c : calm c (_begin_unplanned_display_failure now n reason c).1.
Proof.
  unfold _begin_unplanned_display_failure. destruct (heap (super c) !! n) as [i|]; [|apply calm_refl].
  destruct (_ || _); [apply calm_refl|]. pose proof (calm_outage now n true true c) as Hc.
  destruct (display_outage c); [exact Hc|].
  destruct (_begin_display_outage now n true true c) as [c1 [id|]]; [|exact Hc]. cbn [fst] in Hc.
  destruct (display_outage c1); [|exact Hc]. eapply calm_trans; [exact Hc|]. by apply calm_frame.
Qed.

Lemma calm_release k c : calm c (release_provider k c).1.
Proof.
  unfold release_provider. destruct (Roles.release_provider _ k) as [[r ls]|e] eqn:Hr; [|apply calm_refl].
  split; [|done]. constructor; [eauto 10|done..| |done]. unfold roles_wf. cbn. intros Hwf.
  destruct (Roles.release_provider_Ok _ k Hwf) as (r' & Heq & Hwf' & _). rewrite Hr in Heq. by injection Heq as -> ->.
Qed.

Lemma calm_modify f c :
  heap (f (super c)) = heap (super c) -> instances (f (super c)) = instances (super c) ->
  component_objects (f (super c)) = component_objects (super c) ->
  components (f (super c)) = components (super c) ->
  role_registry (f (super c)) = role_registry (super c) ->
  stopping (f (super c)) = stopping (super c) -> stop_requests (f (super c)) = stop_requests (super c) ->
  calm c (modify f c).
Proof. intros. by apply calm_frame. Qed.

Lemma calm_cancel_tasks n me c : calm c (modify (_cancel_instance_tasks n me) c).
Proof.
  assert (calm c (modify (fun s => s) c)) as Hid by (by apply calm_modify).
  assert (calm c (modify (update n (set_idle_task None)) c)) as Hup by (by apply calm_update).
  unfold _cancel_instance_tasks, modify in *. destruct (heap (super c) !! n ≫= idle_task) as [t|]; [|exact Hid].
  destruct (bool_decide _); [exact Hid|]. destruct (task_finished _ _); [exact Hup|].
  eapply calm_trans; [exact Hup|]. by apply calm_frame.
Qed.

Lemma calm_forget k c : calm c (modify (_forget_foreground k) c).
Proof. by apply calm_modify. Qed.

Lemma resolve_frame f r s :
  heap (resolve f r s) = heap s /\ instances (resolve f r s) = instances s /\
  component_objects (resolve f r s) = component_objects s /\ components (resolve f r s) = components s /\
  role_registry (resolve f r s) = role_registry s /\
  stopping (resolve f r s) = stopping s /\ stop_requests (resolve f r s) = stop_requests s.
Proof. unfold resolve. by destruct (futures s !! f) as [[]|]. Qed.

Lemma resolve_all_frame (g : Z * nat -> response) l s :
  let s' := foldl (fun s p => resolve p.2 (g p) s) s l in
  heap s' = heap s /\ instances s' = instances s /\
  component_objects s' = component_objects s /\ components s' = components s /\
  role_registry s' = role_registry s /\
  stopping s' = stopping s /\ stop_requests s' = stop_requests s.
Proof.
  revert s; induction l as [|p l IH]; intros s; [done|]. cbn [foldl] in *.
  destruct (IH (resolve p.2 (g p) s)) as (-> & -> & -> & -> & -> & -> & ->). apply resolve_frame.
Qed.

Lemma calm_close n code c : calm c (modify (_close_instance_channel n code) c).
Proof.
  unfold modify, _close_instance_channel. destruct (heap (super c) !! n) as [i|] eqn:Hi; [|by apply calm_frame].
  destruct (resolve_all_frame (fun p => error_response (VInt p.1) code (key i)) (pending_calls i) (super c)) as (E1 & E2 & E3 & E4 & E5 & E6 & E7).
  set (s1 := foldl _ (super c) (pending_calls i)) in *.
  eapply calm_trans; [by apply (calm_frame c (set_super s1 c))|].
  by apply (calm_update n (fun i => set_sock false (set_pending_calls [] i)) (set_super s1 c)).
Qed.

Lemma calm_signal n sig next c : calm c (signal_group n sig next c).1.
Proof.
  unfold signal_group. destruct (heap (super c) !! n ≫= process); [|apply calm_refl].
  destruct (killpg c _ sig); apply calm_refl.
Qed.

Lemma calm_terminate now n c : calm c (terminate_begin now n c).1.
Proof. unfold terminate_begin. destruct (alive n _); [apply calm_signal|apply calm_refl]. Qed.

Lemma calm_terminate_resume now n pc c : calm c (terminate_resume now n pc c).1.
Proof.
  unfold terminate_resume. destruct (negb _); [apply calm_refl|]. destruct pc; [|apply calm_refl].
  destruct (now <? deadline)%Z; [apply calm_refl|apply calm_signal].
Qed.

Lemma calm_guard (b : bool) (m : Core -> segment unit) c :
  calm c (m c).1 -> calm c (if b then m c else (c, Ok tt)).1.
Proof. destruct b; [done|]. intros _. apply calm_refl. Qed.

Lemma calm_finalize_begin now n c : calm c (finalize_begin now n c).1.
Proof.
  unfold finalize_begin. destruct (heap (super c) !! n) as [i|]; [|apply calm_refl].
  destruct (_ || _); [apply calm_refl|].
  pose proof (calm_unplanned now n §"unexpected-provider-exit" c) as Hu.
  destruct (_begin_unplanned_display_failure now n _ c) as [c1 o]. cbn [fst] in Hu.
  eapply calm_trans; [exact Hu|].
  eapply calm_trans; [by apply (calm_update n (set_finalized true))|].
  apply calm_bind; [apply calm_release|]. intros [] c2 _ Hc. eapply calm_trans; [exact Hc|]. apply calm_cancel_tasks.
Qed.

Lemma calm_finalize_end n rc c : calm c (finalize_end n rc c).1.
Proof.
  unfold finalize_end. destruct (heap (super c) !! n) as [i|]; [|apply calm_refl].
  eapply calm_trans; [apply (calm_close n §"PROVIDER_EXITED")|].
  eapply calm_trans; [by apply (calm_update n (fun i =>
    set_ready false (set_state (if (rc =? 0)%Z then §"exited" else §"failed") i)))|].
  eapply calm_trans; [apply (calm_forget (key i))|].
  apply calm_bind.
  - destruct (_ && _); [apply calm_transition|apply calm_refl].
  - intros _ c1 _ Hc. eapply calm_trans; [exact Hc|]. destruct (_ && _); [apply calm_crash|apply calm_refl].
Qed.

(** A stop takes the component out of the table. *)
Lemma stop_begin_spec k me c :
  let c' := (stop_begin k me c).1 in
  quiet c c' /\
  match dget (instances (super c)) k with
  | None => stop_begin k me c = (c, Ok None)
  | Some n =>
      instances (super c') = ddel (instances (super c)) k /\
      match (stop_begin k me c).2 with
      | Ok (Some (n', _)) => n' = n
      | Ok None => heap (super c) !! n = None
      | Raise _ => True
      end
  end.
Proof.
  unfold stop_begin. destruct (dget (instances (super c)) k) as [n|]; [|by split; [apply quiet_refl|]].
  set (c1 := modify (fun s => set_instances (ddel (instances s) k) s) c).
  assert (quiet c c1 /\ instances (super c1) = ddel (instances (super c)) k /\ heap (super c1) = heap (super c))
    as (Q & I & Hh) by (split; [constructor; eauto 10|done]).
  rewrite Hh. destruct (heap (super c) !! n) as [i|] eqn:Hi; [|by split].
  match goal with |- context [seg_bind ?m ?f] => set (body := seg_bind m f) end.
  assert (calm c1 body.1) as [Qb Ib].
  { apply calm_bind.
    - destruct (_ && _); [|apply calm_refl]. eapply calm_trans; [|apply calm_transition].
      by apply (calm_update n (set_transition_closing true)).
    - intros _ c2 _ Hc2. eapply calm_trans; [exact Hc2|].
      eapply calm_trans; [by apply (calm_update n (set_finalized true))|].
      apply calm_bind; [apply calm_release|]. intros _ c3 _ Hc3. eapply calm_trans; [exact Hc3|].
      apply calm_bind; [apply calm_send|].
      intros _ c4 _ Hc4. eapply calm_trans; [exact Hc4|]. apply calm_cancel_tasks. }
  split; [by eapply quiet_trans|]. split; [by rewrite Ib|].
  unfold body.
  repeat (match goal with |- context [seg_bind ?m _] =>
    lazymatch m with seg_bind _ _ => fail | _ => destruct m as [? [[]|e]]; cbn [seg_bind snd] end end; [|done]).
  done.
Qed.

Lemma calm_stop_close now k n c : calm c (stop_close now k n c).1.
Proof.
  unfold stop_close. eapply calm_trans; [apply (calm_close n §"PROVIDER_STOPPED")|].
  eapply calm_trans; [by apply (calm_update n (set_ready false))|].
  eapply calm_trans; [apply (calm_forget k)|]. apply calm_terminate.
Qed.

Lemma calm_stop_done n animate c : calm c (stop_done n animate c).1.
Proof.
  unfold stop_done. apply calm_bind; [|by intros].
  unfold stop_end. destruct (heap (super c) !! n); [|apply calm_refl].
  destruct animate; [apply calm_transition|apply calm_refl].
Qed.

Lemma calm_stop_resume now k pc c : calm c (stop_resume now k pc c).1.
Proof.
  destruct pc as [n animate|n animate t]; cbn [stop_resume]; (apply calm_bind;
    [first [apply calm_stop_close | apply calm_terminate_resume]|]); intros t' c1 _ Hc;
    (eapply calm_trans; [exact Hc|]); (destruct t'; [apply calm_refl|apply calm_stop_done]).
Qed.

(** A process group whose leader was not reaped can be signalled. *)
Class PlatformLaws : Prop := {
  killpg_leader c n i p sig : heap (super c) !! n = Some i -> process i = Some p ->
    returncode p = None -> killpg c (pid p) sig = Ok tt;
}.

(** Failures of the operating system are caught where a packet is sent; what is
    left is raised by the encoder, for a packet that is too large or a string
    that is not Unicode. *)
Definition encoder_error (e : exn) : Prop := is_os_error (exn_type e) = false.

Lemma send_or_log_raises n packet w i e : heap (sup w) !! n = Some i -> sock i = true ->
  (send_or_log n packet w).2 = Raise e -> encoder_error e.
Proof.
  intros Hi Hs. unfold send_or_log, send_packet, encoder_error. rewrite Hi, Hs.
  destruct (transmit w n packet) as [u|e'] eqn:Ht; [done|]. cbn. destruct (is_os_error (exn_type e')) eqn:Ho; [done|].
  by intros [= <-].
Qed.

Lemma broadcast_to_raises targets topic packet w e :
  (broadcast_to targets topic packet w).2 = Raise e -> encoder_error e.
Proof.
  revert w; induction targets as [|n targets IH]; intros w; cbn [broadcast_to]; [done|].
  destruct (heap (sup w) !! n) as [i|] eqn:Hi; [|apply IH]. destruct (listens i topic) eqn:Hl; [|apply IH].
  assert (sock i = true) as Hs by (unfold listens in Hl; bool_simp; done).
  pose proof (send_or_log_raises n packet w i e Hi Hs) as Hr.
  destruct (send_or_log n packet w) as [w1 [u|e1]]; [apply IH|exact Hr].
Qed.

Lemma transition_raises phase m gen rc msg c e :
  (_emit_component_transition phase m gen rc msg c).2 = Raise e -> encoder_error e.
Proof.
  unfold _emit_component_transition, on_world, broadcast. destruct (negb _); [done|].
  pose proof (broadcast_to_raises (instances (sup (world c))).*2 §"msys.lifecycle.transition"
    (event_packet §"msys.lifecycle.transition" (transition_payload c phase m gen rc msg) §"msys.core") (world c) e) as Hr.
  destruct (broadcast_to _ _ _ _) as [w r]. exact Hr.
Qed.

Lemma calm_set_roles r c : (roles_wf (super c) -> Roles.registry_wf r) ->
  calm c (set_super (set_role_registry r (super c)) c).
Proof. intros Hr. split; [|done]. constructor; [eauto 10|done..|exact Hr|done]. Qed.

Lemma calm_lease i infos c : calm c (set_super (foldl (lease_preferred i) (super c) infos) c).
Proof.
  revert c; induction infos as [|info infos IH]; intros c; cbn [foldl]; [by apply calm_frame|].
  assert (calm c (set_super (lease_preferred i (super c) info) c)) as Hc.
  { unfold lease_preferred. destruct (_ && _); [|by apply calm_frame].
    destruct (Roles.acquire _ _ _ _) as [[r l]|e] eqn:Ha; [|by apply calm_frame].
    apply calm_set_roles. intros Hwf. by eapply Roles.acquire_wf. }
  eapply calm_trans; [exact Hc|]. apply (IH (set_super (lease_preferred i (super c) info) c)).
Qed.

Lemma calm_schedule n c : calm c (modify (_schedule_idle_task n) c).
Proof.
  assert (calm c (modify (fun s => s) c)) as Hid by (by apply calm_modify).
  unfold modify in *. unfold _schedule_idle_task. destruct (heap (super c) !! n) as [i|]; [|exact Hid].
  destruct (_ || _); [exact Hid|].
  set (t := fresh _). set (s1 := set_idle_tasks _ (super c)).
  assert (calm c (set_super (update n (set_idle_task (Some t)) s1) c)) as Harm.
  { eapply calm_trans; [by apply (calm_frame c (set_super s1 c))|].
    by apply (calm_update n (set_idle_task (Some t)) (set_super s1 c)). }
  destruct (idle_task i) as [t'|]; [|exact Harm]. destruct (task_finished t' _); [exact Harm|exact Hid].
Qed.

Lemma calm_became_ready n c : calm c (on_world (_component_became_ready n) c).1.
Proof.
  unfold on_world, _component_became_ready, _lease_preferred_roles.
  change (sup (world c)) with (super c).
  assert (forall s, calm c (set_super s c) ->
    calm c (set_world (match heap (sup (set_sup (_schedule_idle_task n s) (world c))) !! n with
      | Some i => if _provides_display_output (component i)
                  then _schedule_display_recovery n i (set_sup (_schedule_idle_task n s) (world c))
                  else set_sup (_schedule_idle_task n s) (world c)
      | None => set_sup (_schedule_idle_task n s) (world c) end) c)) as Hrest.
  { intros s Hs. pose proof (calm_trans _ _ _ Hs (calm_schedule n (set_super s c))) as Hsched.
    destruct (heap _ !! n) as [i|]; [|exact Hsched].
    destruct (_provides_display_output (component i)); [|exact Hsched].
    unfold _schedule_display_recovery. destruct (_ || _); [exact Hsched|].
    eapply calm_trans; [exact Hsched|]. by apply calm_frame. }
  destruct (heap (super c) !! n) as [i|] eqn:Hi.
  - destruct (negb (component_current (super c) i)).
    + specialize (Hrest (super c) ltac:(by apply calm_frame)).
      destruct (heap (sup (set_sup _ (world c))) !! n); exact Hrest.
    + destruct (Roles.list_role_info (role_registry (super c))) as [infos|e]; cbn [rbind];
        [|by apply calm_frame].
      specialize (Hrest _ (calm_lease i infos c)).
      destruct (heap (sup (set_sup _ (world c))) !! n); exact Hrest.
  - specialize (Hrest (super c) ltac:(by apply calm_frame)).
    destruct (heap (sup (set_sup _ (world c))) !! n); exact Hrest.
Qed.

Lemma calm_record_failure k now c : calm c (set_super (_record_component_failure k now (super c)).1 c).
Proof.
  unfold _record_component_failure. destruct (match dget _ k with Some _ => _ | None => _ end); [by apply calm_frame|].
  destruct (_ <=? _)%nat; by apply calm_frame.
Qed.

Lemma calm_record_restart n now c : calm c (set_super (_record_restart_failure n now (super c)).1 c).
Proof.
  unfold _record_restart_failure. destruct (heap (super c) !! n) as [i|]; [|by apply calm_frame].
  pose proof (calm_record_failure (key i) now c) as Hc.
  destruct (_record_component_failure (key i) now (super c)) as [s [d|]]; cbn [fst] in *; [exact Hc|].
  eapply calm_trans; [exact Hc|]. by apply (calm_update n _ (set_super s c)).
Qed.

(* ------------------------------------------------------------------ *)
(** ** What a segment of a start may do *)

(** No process of the current instance of [k] is alive. *)
Definition gone (k : pystr) (c : Core) : Prop :=
  forall n, dget (instances (super c)) k = Some n -> alive n (super c) = false.

Lemma alive_quiet c c' n : quiet c c' -> alive n (super c') = alive n (super c).
Proof.
  intros Q. unfold alive. destruct (heap (super c) !! n) as [i|] eqn:Hi.
  - destruct (q_old _ _ Q n i Hi) as (i' & -> & _ & Hp & _). unfold running. by rewrite Hp.
  - by rewrite (q_new _ _ Q n Hi).
Qed.

Lemma gone_calm k c c' : calm c c' -> gone k c -> gone k c'.
Proof. intros [Q I] Hg n Hn. rewrite (alive_quiet c c' n Q). apply Hg. congruence. Qed.

(** Where a start may wait, with what it knows there. *)
Definition settled (k : pystr) (c : Core) (r : py progress) : Prop :=
  match r with
  | Ok (Waits m obj pc) =>
      Manifest.key m = k /\
      match pc with SpawnBackoff => True | StoppingStale _ => False | _ => gone k c end
  | _ => True
  end.


(** What a segment of a start does: nothing to any instance; or it takes a stale
    instance out of the table, and waits for its end or fails at once; or it
    takes a generation number, and fails or spawns. *)
Inductive start_effect (k : pystr) (c c' : Core) : py progress -> Prop :=
| se_calm r : calm c c' -> settled k c' r -> start_effect k c c' r
| se_stale m obj n b : Manifest.key m = k -> quiet c c' -> dget (instances (super c)) k = Some n ->
    is_Some (heap (super c) !! n) ->
    instances (super c') = ddel (instances (super c)) k ->
    start_effect k c c' (Ok (Waits m obj (StoppingStale (Cancelling n b))))
| se_dropped n e : quiet c c' -> dget (instances (super c)) k = Some n ->
    is_Some (heap (super c) !! n) ->
    instances (super c') = ddel (instances (super c)) k -> start_effect k c c' (Raise e)
| se_failed c1 gen e : calm c c1 -> gen = (dget_or (generations c1) k 0 + 1)%Z ->
    calm (set_generations (dset (generations c1) k gen) c1) c' -> start_effect k c c' (Raise e)
| se_spawned c1 c2 c3 now m obj gen pid r :
    calm c c1 -> gone k c1 -> Manifest.key m = k -> stop_pending k (super c1) = false ->
    dget (component_objects (super c1)) k = Some obj ->
    gen = (dget_or (generations c1) k 0 + 1)%Z ->
    calm (set_generations (dset (generations c1) k gen) c1) c2 ->
    c3 = modify (fun s => set_instances (dset (instances s) k (fresh (dom (heap (super c2)))))
                   (set_heap (<[fresh (dom (heap (super c2))) := new_instance now m obj gen pid]> (heap s)) s)) c2 ->
    calm c3 c' ->
    (r = Ok (Returned (fresh (dom (heap (super c2))))) \/ exists e, r = Raise e) ->
    start_effect k c c' r.

Lemma effect_after k c c1 c' r : calm c c1 -> start_effect k c1 c' r -> start_effect k c c' r.
Proof.
  intros Hc [? Hc' Hs|m obj n b Hk Q Hn Hh Hi|n e Q Hn Hh Hi|c2 gen e Hc2 Hg Hc'|c2 c3 c4 now m obj gen pid r0 Hc2 Hgone Hk Hst Hobj Hg Hc3 E4 Hc' Hr].
  - apply se_calm; [by eapply calm_trans|done].
  - destruct Hc as [Q' I']. apply se_stale; [done|by eapply quiet_trans|congruence| |congruence].
    destruct (heap (super c) !! n) eqn:Hcn; [done|]. rewrite (q_new _ _ Q' n Hcn) in Hh. by destruct Hh.
  - destruct Hc as [Q' I']. eapply se_dropped; [by eapply quiet_trans|by rewrite <- I'| |congruence].
    destruct (heap (super c) !! n) eqn:Hcn; [done|]. rewrite (q_new _ _ Q' n Hcn) in Hh. by destruct Hh.
  - eapply se_failed; [by eapply calm_trans|done..].
  - eapply se_spawned; [by eapply calm_trans|done..].
Qed.

(** Every component of the catalog is listed under its own key, and the role
    registry is consistent. *)
Definition sane (c : Core) : Prop :=
  roles_wf (super c) /\ forall k m, dget (components (super c)) k = Some m -> Manifest.key m = k.

Lemma sane_quiet c c' : quiet c c' -> sane c -> sane c'.
Proof. intros Q [Hr Hk]. split; [exact (q_roles _ _ Q Hr)|]. by rewrite (q_components _ _ Q). Qed.

Section Effects.
Context (again : Core -> segment progress) (now : Z) (me : option nat) (k : pystr)
  (m : Manifest.Component) (obj : nat).
Hypothesis Hkey : Manifest.key m = k.
Hypothesis Hagain : forall c, sane c -> start_effect k c (again c).1 (again c).2.

Abbreviation effect c p := (start_effect k c p.1 p.2).

Lemma wait_effect pc c : match pc with SpawnBackoff => True | StoppingStale _ => False | _ => gone k c end ->
  effect c (wait m obj pc c).
Proof. intros Hpc. apply se_calm; [apply calm_refl|]. by split. Qed.

Lemma raise_effect c e : effect c ((c, Raise e) : segment progress).
Proof. by apply se_calm; [apply calm_refl|]. Qed.

Lemma transition_segment {A} (b : bool) phase gen msg c (f : unit -> Core -> segment A) :
  exists c1, calm c c1 /\
    let p := seg_bind (if b then _emit_component_transition phase m gen None msg c else (c, Ok tt)) f in
    p = f tt c1 \/ exists e, p = (c1, Raise e).
Proof.
  destruct b; [|exists c; split; [apply calm_refl|by left]].
  pose proof (calm_transition phase m gen None msg c) as Hc.
  destruct (_emit_component_transition phase m gen None msg c) as [c1 [[]|e]]; exists c1; (split; [exact Hc|]); [by left|].
  right. by exists e.
Qed.

Lemma calm_retry delay c : calm c (_schedule_spawn_retry me k delay c).
Proof.
  unfold _schedule_spawn_retry. destruct (match dget _ k with Some _ => _ | None => _ end); [apply calm_refl|].
  destruct (match dget _ k with Some _ => _ | None => _ end); [apply calm_refl|]. by apply calm_frame.
Qed.

(** A failed spawn leaves an unused generation number. *)
Lemma spawn_fails_effect gen e c :
  calm c (spawn_fails now me k m gen e c).1 /\ exists e', (spawn_fails now me k m gen e c).2 = Raise e'.
Proof.
  unfold spawn_fails. destruct (negb (caught e)); [split; [apply calm_refl|by eexists]|].
  match goal with |- context [seg_bind (if ?b then _ else _) ?f] =>
    destruct (transition_segment b §"failed" gen (exn_msg e) c f) as (c1 & Hc1 & [->|[e1 ->]]) end;
    [|by split; [exact Hc1|by eexists]].
  pose proof (calm_record_failure k now c1) as Hrec.
  destruct (_record_component_failure k now (super c1)) as [s delay]. cbn [fst] in Hrec.
  pose proof (calm_trans _ _ _ Hc1 Hrec) as Hc. destruct delay as [d|]; cbn zeta.
  - split; [|by eexists]. cbn [fst].
    assert (calm c (set_spawn_backoff_until (dset (spawn_backoff_until (set_super s c1)) k (now + d)%Z) (set_super s c1))) as Hc2
      by (eapply calm_trans; [exact Hc|]; by apply calm_frame).
    destruct (_component_should_restart m 1); [|exact Hc2]. eapply calm_trans; [exact Hc2|]. apply calm_retry.
  - split; [exact Hc|by eexists].
Qed.

Lemma spawn_effect c : gone k c -> stop_pending k (super c) = false ->
  dget (component_objects (super c)) k = Some obj -> effect c (spawn now me k m obj c).
Proof.
  intros Hgone Hst Hobj. unfold spawn. set (gen := (dget_or (generations c) k 0 + 1)%Z).
  set (c0 := set_generations (dset (generations c) k gen) c).
  match goal with |- context [seg_bind (if ?b then _ else _) ?f] =>
    destruct (transition_segment b §"launching" gen [] c0 f) as (c1 & Hc1 & [->|[e1 ->]]) end;
    [|by eapply (se_failed k c _ c gen); [apply calm_refl|..]].
  destruct (prepare c1 m obj gen) as [launch|e].
  2:{ by eapply (se_failed k c _ c gen); [apply calm_refl|..]. }
  destruct (popen c1 m gen launch) as [pid|e].
  - unfold spawn_succeeds. set (n := fresh _).
    set (c3 := modify _ c1). set (c4 := set_spawn_backoff_until _ c3).
    assert (calm c3 c4) as H34 by (by apply calm_frame).
    set (c5 := if _is_foreground_app m then _ else c4).
    assert (calm c3 c5) as H35 by (unfold c5; destruct (_is_foreground_app m); [|done]; eapply calm_trans; [exact H34|]; by apply calm_modify).
    set (c6 := set_world _ c5). assert (calm c3 c6) as H36 by (eapply calm_trans; [exact H35|]; by apply calm_frame).
    match goal with |- context [seg_bind ?r _] => set (ready_seg := r) end.
    assert (calm c6 ready_seg.1) as H6r by (unfold ready_seg; case_bool_decide; [apply calm_became_ready|apply calm_refl]).
    destruct ready_seg as [c7 [u|e]]; cbn [seg_bind fst snd] in *;
      (eapply (se_spawned k c _ c c1 c3 now m obj gen pid); [apply calm_refl|exact Hgone|exact Hkey|exact Hst|exact Hobj|done|exact Hc1|done| |]).
    + by eapply calm_trans.
    + by left.
    + by eapply calm_trans.
    + right. by eexists.
  - destruct (spawn_fails_effect gen e c1) as [Hc2 [e' He]]. rewrite He.
    eapply (se_failed k c _ c gen); [apply calm_refl|done|]. by eapply calm_trans.
Qed.

Lemma recheck_effect c : sane c -> gone k c -> effect c (recheck again now me k m obj c).
Proof.
  intros Hwf Hg. unfold recheck.
  destruct (bool_decide (dget (component_objects (super c)) k = Some obj)) eqn:Hobj; cbn [negb]; [|by apply Hagain].
  destruct (stop_pending k (super c)) eqn:Hst; [apply raise_effect|]. apply spawn_effect; [done|done|].
  by apply bool_decide_eq_true in Hobj.
Qed.

Lemma order_effect deps c : sane c -> gone k c -> effect c (order_after again now me k m obj deps c).
Proof.
  intros Hwf Hg. induction deps as [|d deps IH]; cbn [order_after]; [by apply recheck_effect|].
  destruct (current (super c) d) as [i|]; [|exact IH]. destruct (_ || _); [exact IH|by apply wait_effect].
Qed.

Lemma require_effect deps c : sane c -> gone k c -> effect c (require again now me k m obj deps c).
Proof. intros Hwf Hg. destruct deps; cbn [require]; [by apply order_effect|by apply wait_effect]. Qed.

Lemma after_delay_effect c : sane c -> gone k c -> effect c (after_delay again now me k m obj c).
Proof.
  intros Hwf Hg. unfold after_delay. destruct (stop_pending k _); [apply raise_effect|by apply require_effect].
Qed.

Lemma delay_effect n c : sane c -> gone k c -> effect c (delay_exited again now me k m obj n c).
Proof.
  intros Hwf Hg. unfold delay_exited. destruct (heap (super c) !! n) as [i|]; [|by apply after_delay_effect].
  destruct (_ <? _)%Z; [by apply wait_effect|by apply after_delay_effect].
Qed.

Lemma account_effect n rc c : sane c -> gone k c -> effect c (account_exit again now me k m obj n rc c).
Proof.
  intros Hwf Hg. unfold account_exit. destruct (heap (super c) !! n) as [i|]; [|by apply after_delay_effect].
  destruct (_component_should_restart _ _); [|by apply delay_effect].
  pose proof (calm_record_restart n now c) as Hc. destruct (_record_restart_failure n now (super c)) as [s [d|]]; cbn [fst] in Hc.
  - cbn zeta. set (c2 := modify _ (set_super s c)).
    assert (calm c c2) as Hc2 by (eapply calm_trans; [exact Hc|]; by apply calm_update).
    eapply effect_after; [exact Hc2|]. apply delay_effect; [exact (sane_quiet _ _ (proj1 Hc2) Hwf)|by eapply gone_calm].
  - by apply se_calm.
Qed.

Lemma finish_effect n rc o c : sane c -> gone k c -> effect c (finish_exit again now me k m obj n rc o c).
Proof.
  intros Hwf Hg. unfold finish_exit. pose proof (calm_finalize_end n rc c) as Hc.
  destruct (finalize_end n rc c) as [c1 [u|e]]; cbn [seg_bind fst] in *; [|by apply se_calm].
  eapply effect_after; [exact Hc|]. assert (gone k c1) as Hg1 by (by eapply gone_calm).
  destruct o; [by apply wait_effect|]. apply account_effect; [exact (sane_quiet _ _ (proj1 Hc) Hwf)|done].
Qed.

Lemma replace_effect c : sane c -> effect c (replace_existing again now me k m obj c).
Proof.
  intros Hwf. unfold replace_existing.
  destruct (dget (instances (super c)) k) as [n|] eqn:Hn.
  2:{ apply require_effect; [done|]. intros n Hn'. congruence. }
  assert (alive n (super c) = false -> gone k c) as Hgone by (intros Ha n' Hn'; congruence).
  destruct (heap (super c) !! n) as [i|] eqn:Hi.
  2:{ apply require_effect; [done|]. apply Hgone. unfold alive. by rewrite Hi. }
  assert (alive n (super c) = running i) as Ha by (unfold alive; by rewrite Hi).
  destruct (process i) as [p|] eqn:Hp.
  2:{ apply require_effect; [done|]. apply Hgone. rewrite Ha. unfold running. by rewrite Hp. }
  destruct (returncode p) as [rc|] eqn:Hrc.
  - assert (gone k c) as Hg by (apply Hgone; rewrite Ha; unfold running; by rewrite Hp, Hrc).
    destruct (finalized i); [by apply delay_effect|].
    pose proof (calm_finalize_begin now n c) as Hc. destruct (finalize_begin now n c) as [c1 [[o|]|e]]; cbn [seg_bind fst] in *.
    + eapply effect_after; [exact Hc|]. apply wait_effect. by eapply gone_calm.
    + eapply effect_after; [exact Hc|]. apply account_effect; [exact (sane_quiet _ _ (proj1 Hc) Hwf)|by eapply gone_calm].
    + by apply se_calm.
  - destruct (bool_decide _); [by apply se_calm; [apply calm_refl|]|].
    pose proof (stop_begin_spec k None c) as [Q Hs]. rewrite Hn in Hs. destruct Hs as [Hinst Hr].
    destruct (stop_begin k None c) as [c1 [[[n' b]|]|e]]; cbn [fst snd seg_bind] in *.
    + subst n'. by apply se_stale.
    + congruence.
    + by eapply se_dropped.
Qed.
End Effects.


Lemma ensure_effect fuel now me k c : sane c ->
  start_effect k c (_ensure_started_locked fuel now me k c).1 (_ensure_started_locked fuel now me k c).2.
Proof.
  revert c; induction fuel as [|fuel IH]; intros c Hs; cbn [_ensure_started_locked]; [by apply se_calm; [apply calm_refl|]|].
  destruct (stop_pending k _); [by apply se_calm; [apply calm_refl|]|].
  destruct (dget (components (super c)) k) as [m|] eqn:Hm; [|by apply se_calm; [apply calm_refl|]].
  destruct (dget (component_objects (super c)) k) as [obj|]; [|by apply se_calm; [apply calm_refl|]].
  pose proof (proj2 Hs k m Hm) as Hk.
  destruct (bool_decide _); [by apply se_calm; [apply calm_refl|]|].
  destruct (serving k obj c); [by apply se_calm; [apply calm_refl|]|].
  destruct (_display_outage_blocks _ _); [by apply se_calm; [apply calm_refl|]|].
  destruct (_ <? _)%Z; [by apply se_calm; [apply calm_refl|]|].
  apply replace_effect; [done..|]. exact Hs.
Qed.

(** A wake-up of a start that is not stopping a stale generation. *)
Lemma resume_effect now me k m obj pc awaited c : sane c -> Manifest.key m = k ->
  match pc with SpawnBackoff => True | StoppingStale _ => False | _ => gone k c end ->
  start_effect k c (start_resume now me k m obj pc awaited c).1 (start_resume now me k m obj pc awaited c).2.
Proof.
  intros Hs Hk Hpc.
  assert (forall c, sane c -> start_effect k c (start_locked now me k c).1 (start_locked now me k c).2) as Hagain
    by (intros; by apply ensure_effect).
  destruct pc; cbn [start_resume]; try done.
  - destruct (stop_pending k _); [by apply se_calm; [apply calm_refl|]|]. by apply replace_effect.
  - by apply finish_effect.
  - by apply account_effect.
  - by apply after_delay_effect.
  - destruct awaited; [by apply require_effect|by apply se_calm; [apply calm_refl|]].
  - by apply order_effect.
Qed.

(** ... and of one that is. *)
Lemma stale_effect now me k m obj pc awaited c : sane c -> Manifest.key m = k ->
  dget (instances (super c)) k = None ->
  let '(c', r) := start_resume now me k m obj (StoppingStale pc) awaited c in
  (exists pc', r = Ok (Waits m obj (StoppingStale pc')) /\ stop_resume now k pc c = (c', Ok (Some pc'))) \/
  (exists e, r = Raise e /\ stop_resume now k pc c = (c', Raise e)) \/
  (exists c1, stop_resume now k pc c = (c1, Ok None) /\ calm c c1 /\ start_effect k c1 c' r).
Proof.
  intros Hs Hk Hnone. cbn [start_resume]. pose proof (calm_stop_resume now k pc c) as Hc.
  destruct (stop_resume now k pc c) as [c1 [[pc'|]|e]]; cbn [seg_bind fst] in *.
  - left. by exists pc'.
  - assert (start_effect k c1 (require (start_locked now me k) now me k m obj (Manifest.requires m) c1).1
              (require (start_locked now me k) now me k m obj (Manifest.requires m) c1).2) as He.
    { apply require_effect; [done|intros; by apply ensure_effect|exact (sane_quiet _ _ (proj1 Hc) Hs)|].
      intros n. rewrite (proj2 Hc), Hnone. done. }
    destruct (require _ _ _ _ _ _ _ c1) as [c2 r]. right; right. by exists c1.
  - right; left. by exists e.
Qed.

(* ------------------------------------------------------------------ *)
(** ** The system *)

(** The frames of [ensure_started] and [stop_component]: waiting for the lock of
    their key, or holding it at a program counter. *)
Inductive frame :=
| FStart (k : pystr) (p : option (Manifest.Component * nat * start_pc))
| FStop (k : pystr) (expected : option nat) (p : option stop_pc).

Record System := { core : Core; locks : gmap pystr nat; frames : gmap nat frame }.

Definition with_core (c : Core) (s : System) : System :=
  {| core := c; locks := locks s; frames := frames s |}.
Definition set_frame (t : nat) (f : frame) (s : System) : System :=
  {| core := core s; locks := locks s; frames := <[t := f]> (frames s) |}.
Definition take_lock (k : pystr) (t : nat) (s : System) : System :=
  {| core := core s; locks := <[k := t]> (locks s); frames := frames s |}.
(** The frame returns or raises, and so releases the lock. *)
Definition leave (k : pystr) (t : nat) (s : System) : System :=
  {| core := core s; locks := delete k (locks s); frames := delete t (frames s) |}.

Definition settle_start (k : pystr) (t : nat) (p : segment progress) (s : System) : System :=
  match p with
  | (c, Ok (Waits m obj pc)) => set_frame t (FStart k (Some (m, obj, pc))) (take_lock k t (with_core c s))
  | (c, _) => leave k t (with_core c s)
  end.

Definition settle_stop (k : pystr) (t : nat) (expected : option nat) (p : segment (option stop_pc))
    (s : System) : System :=
  match p with
  | (c, Ok (Some pc)) => set_frame t (FStop k expected (Some pc)) (take_lock k t (with_core c s))
  | (c, _) => leave k t (with_core (stop_finally k c) s)
  end.

Definition exit_process (rc : Z) (i : Instance) : Instance :=
  {| component := component i; component_object := component_object i; generation := generation i;
     process := (fun p => {| pid := pid p; returncode := Some rc |}) <$> process i; sock := sock i;
     state := state i; ready := ready i; started_at := started_at i; subscriptions := subscriptions i;
     pending_calls := pending_calls i; in_flight_calls := in_flight_calls i; idle_task := idle_task i;
     finalized := finalized i; backoff_until := backoff_until i;
     transition_closing := transition_closing i |}.

(** Steps of the rest of Core, the reload of the catalog included. *)
Record elsewhere (c c' : Core) : Prop := {
  el_old : forall n i, heap (super c) !! n = Some i -> exists i', heap (super c') !! n = Some i' /\
    key i' = key i /\ process i' = process i /\ generation i' = generation i;
  el_new : forall n, heap (super c) !! n = None -> heap (super c') !! n = None;
  el_instances : instances (super c') = instances (super c);
  el_generations : generations c' = generations c;
  el_sane : sane c -> sane c';
}.

Definition stale_pc (p : option (Manifest.Component * nat * start_pc)) : bool :=
  match p with Some (_, _, StoppingStale _) => true | _ => false end.

(** The generation that a segment of [k] has taken out of the table when it
    fails: nobody will terminate its process. *)
Definition dropped {A} (k : pystr) (c : Core) (p : segment A) : option nat :=
  match p with
  | (c', Raise _) => match dget (instances (super c')) k with
                     | None => dget (instances (super c)) k
                     | Some _ => None
                     end
  | _ => None
  end.

(** A step, labelled with the generation whose termination it abandons because
    of an exception, if any. *)
Inductive step : System -> option nat -> System -> Prop :=
| sy_start s t k : frames s !! t = None -> ensure_started_guard k (core s) = Ok tt ->
    step s None (set_frame t (FStart k None) s)
| sy_start_lock s t k now me : frames s !! t = Some (FStart k None) -> locks s !! k = None ->
    step s (dropped k (core s) (start_locked now me k (core s)))
      (settle_start k t (start_locked now me k (core s)) s)
| sy_start_go s t k m obj pc now me awaited : frames s !! t = Some (FStart k (Some (m, obj, pc))) ->
    step s (dropped k (core s) (start_resume now me k m obj pc awaited (core s)))
      (settle_start k t (start_resume now me k m obj pc awaited (core s)) s)
| sy_start_cancel s t k p : frames s !! t = Some (FStart k (Some p)) -> stale_pc (Some p) = false ->
    step s None (leave k t s)
| sy_start_give_up s t k : frames s !! t = Some (FStart k None) ->
    step s None {| core := core s; locks := locks s; frames := delete t (frames s) |}
| sy_stop s t k expected now : frames s !! t = None ->
    step s None (set_frame t (FStop k expected None)
                   (with_core (stop_request now k expected (core s)).1 s))
| sy_stop_lock s t k expected me : frames s !! t = Some (FStop k expected None) -> locks s !! k = None ->
    step s (dropped k (core s) (stop_locked k expected me (core s)))
      (settle_stop k t expected (stop_locked k expected me (core s)) s)
| sy_stop_go s t k expected pc now : frames s !! t = Some (FStop k expected (Some pc)) ->
    step s None (settle_stop k t expected (stop_resume now k pc (core s)) s)
| sy_exit s n rc : step s None (with_core (modify (update n (exit_process rc)) (core s)) s)
| sy_ready s now k pc started : step s None (with_core (ready_resume now k pc started (core s)).1 s)
| sy_watch_begin s now n : step s None (with_core (watch_begin now n (core s)).1 s)
| sy_watch s now n pc : step s None (with_core (watch_resume now n pc (core s)).1 s)
| sy_channel_failed s now n : step s None (with_core (channel_failed now n (core s)).1 s)
| sy_probe_ready s n : step s None (with_core (probe_ready n (core s)).1 s)
| sy_probe_timeout s now n : step s None (with_core (probe_timeout now n (core s)).1 s)
| sy_terminate s now n pc : step s None (with_core (terminate_resume now n pc (core s)).1 s)
| sy_elsewhere s c : elsewhere (core s) c -> step s None (with_core c s).

Definition stop_instance (pc : stop_pc) : nat :=
  match pc with Cancelling n _ => n | Terminating n _ _ => n end.

(** A task that waits inside a stop is cancelled, or what it waits for raises.
    While it waits for the cancelled retry of a start it is not yet in the [try]
    block, and leaves the request to stop behind; later it releases what it holds.
    The number is the generation whose termination it abandons, if any. *)
Inductive cancelled (s : System) : option nat -> System -> Prop :=
| ca_requested t k expected : frames s !! t = Some (FStop k expected None) ->
    cancelled s None {| core := core s; locks := locks s; frames := delete t (frames s) |}
| ca_waiting t k expected : frames s !! t = Some (FStop k expected None) ->
    cancelled s None {| core := stop_finally k (core s); locks := locks s; frames := delete t (frames s) |}
| ca_stop t k expected pc : frames s !! t = Some (FStop k expected (Some pc)) ->
    cancelled s (Some (stop_instance pc)) (leave k t (with_core (stop_finally k (core s)) s))
| ca_stale t k m obj pc : frames s !! t = Some (FStart k (Some (m, obj, StoppingStale pc))) ->
    cancelled s (Some (stop_instance pc)) (leave k t s).

(** The generations whose termination was abandoned, by an exception or by a
    cancellation, while their process was alive. *)
Definition lose (o : option nat) (c : Core) (L : gset nat) : gset nat :=
  match o with
  | Some n => if alive n (super c) then {[n]} ∪ L else L
  | None => L
  end.

(** Core starts without any instance; nothing is excluded afterwards.  The set
    has the generations lost on the way: see [cancelled_stop_loses_process] and
    [Cancellation.undeliverable_event_loses_process] for how it grows. *)
Inductive sys_reachable : gset nat -> System -> Prop :=
| sr_init c : sane c -> heap (super c) = ∅ -> instances (super c) = [] ->
    sys_reachable ∅ {| core := c; locks := ∅; frames := ∅ |}
| sr_step L s o s' : sys_reachable L s -> step s o s' -> sys_reachable (lose o (core s) L) s'
| sr_cancel L s o s' : sys_reachable L s -> cancelled s o s' -> sys_reachable (lose o (core s) L) s'.

(** A step that abandons nothing. *)
Lemma sr_keeps L s o s' : sys_reachable L s -> step s o s' -> o = None -> sys_reachable L s'.
Proof. intros Hr Hs ->. exact (sr_step L s None s' Hr Hs). Qed.

(* ------------------------------------------------------------------ *)
(** ** The invariant *)

(** The generation a frame is stopping. *)
Definition stops (f : frame) : option nat :=
  match f with
  | FStart _ (Some (_, _, StoppingStale pc)) => Some (stop_instance pc)
  | FStop _ _ (Some pc) => Some (stop_instance pc)
  | _ => None
  end.

(** The lock a frame holds. *)
Definition holds (f : frame) : option pystr :=
  match f with
  | FStart k (Some _) => Some k
  | FStop k _ (Some _) => Some k
  | _ => None
  end.

Definition start_ok (c : Core) (f : frame) : Prop :=
  match f with
  | FStart k (Some (m, _, pc)) =>
      Manifest.key m = k /\ match pc with SpawnBackoff | StoppingStale _ => True | _ => gone k c end
  | _ => True
  end.

(** [L] has the lost generations. *)
Record inv (L : gset nat) (s : System) : Prop := {
  iv_sane : sane (core s);
  iv_wf : dict_wf (instances (super (core s)));
  iv_current : forall k n, dget (instances (super (core s))) k = Some n ->
    exists i, heap (super (core s)) !! n = Some i /\ key i = k;
  iv_numbers : forall n i, heap (super (core s)) !! n = Some i ->
    (generation i <= dget_or (generations (core s)) (key i) 0)%Z;
  iv_identity : forall n1 n2 i1 i2, heap (super (core s)) !! n1 = Some i1 -> heap (super (core s)) !! n2 = Some i2 ->
    key i1 = key i2 -> generation i1 = generation i2 -> n1 = n2;
  iv_holds : forall t f k, frames s !! t = Some f -> holds f = Some k -> locks s !! k = Some t;
  iv_alive : forall n i, heap (super (core s)) !! n = Some i -> running i = true ->
    dget (instances (super (core s))) (key i) = Some n \/
    (exists t f, frames s !! t = Some f /\ holds f = Some (key i) /\ stops f = Some n) \/ n ∈ L;
  iv_stops : forall t f n, frames s !! t = Some f -> stops f = Some n -> exists i k,
    holds f = Some k /\ heap (super (core s)) !! n = Some i /\ key i = k /\
    dget (instances (super (core s))) k = None;
  iv_start : forall t f, frames s !! t = Some f -> start_ok (core s) f;
}.

Lemma elsewhere_alive c c' n : elsewhere c c' -> alive n (super c') = alive n (super c).
Proof.
  intros E. unfold alive. destruct (heap (super c) !! n) as [i|] eqn:Hi.
  - destruct (el_old _ _ E n i Hi) as (i' & -> & _ & Hp & _). unfold running. by rewrite Hp.
  - by rewrite (el_new _ _ E n Hi).
Qed.

Lemma calm_elsewhere c c' : calm c c' -> elsewhere c c'.
Proof.
  intros [Q I]. constructor; [|apply Q|done|apply Q|by apply sane_quiet].
  intros n i Hi. destruct (q_old _ _ Q n i Hi) as (i' & Hi' & Hc & Hp & Hg & _). exists i'. unfold key. rewrite Hc. done.
Qed.

Lemma elsewhere_back c c' n i' : elsewhere c c' -> heap (super c') !! n = Some i' ->
  exists i, heap (super c) !! n = Some i /\ key i' = key i /\ process i' = process i /\ generation i' = generation i.
Proof.
  intros E Hi'. destruct (heap (super c) !! n) as [i|] eqn:Hi; [|rewrite (el_new _ _ E n Hi) in Hi'; done].
  destruct (el_old _ _ E n i Hi) as (j & Hj & ?). rewrite Hi' in Hj. injection Hj as <-. by exists i.
Qed.

(** The rest of Core keeps the invariant. *)
Lemma inv_mono L L' s : L ⊆ L' -> inv L s -> inv L' s.
Proof.
  intros HL [I1 I2 I3 I4 I5 I6 I7 I8 I9]. constructor; try done.
  intros n i Hi Hr. destruct (I7 n i Hi Hr) as [?|[?|?]]; [by left|by right; left|right; right; set_solver].
Qed.

Lemma lose_subset o c L : L ⊆ lose o c L.
Proof. destruct o as [n|]; cbn; [|done]. destruct (alive n _); set_solver. Qed.

Lemma elsewhere_keeps_inv L s c : elsewhere (core s) c -> inv L s -> inv L (with_core c s).
Proof.
  intros E [I1 I2 I3 I4 I5 I6 I7 I8 I9]. constructor; cbn [core with_core locks frames].
  - by apply (el_sane _ _ E).
  - by rewrite (el_instances _ _ E).
  - rewrite (el_instances _ _ E). intros k n Hn. destruct (I3 k n Hn) as (i & Hi & Hk).
    destruct (el_old _ _ E n i Hi) as (i' & Hi' & Hk' & _). exists i'. split; [done|congruence].
  - intros n i' Hi'. destruct (elsewhere_back _ _ _ _ E Hi') as (i & Hi & -> & _ & ->).
    rewrite (el_generations _ _ E). by apply (I4 n).
  - intros n1 n2 i1' i2' H1 H2. destruct (elsewhere_back _ _ _ _ E H1) as (i1 & Hi1 & -> & _ & ->).
    destruct (elsewhere_back _ _ _ _ E H2) as (i2 & Hi2 & -> & _ & ->). by apply I5.
  - exact I6.
  - intros n i' Hi' Hr. destruct (elsewhere_back _ _ _ _ E Hi') as (i & Hi & -> & Hp & _).
    rewrite (el_instances _ _ E). apply (I7 n i Hi). unfold running in *. by rewrite <- Hp.
  - intros t f n Hf Hs. destruct (I8 t f n Hf Hs) as (i & k & Hk & Hi & Hik & Hn).
    destruct (el_old _ _ E n i Hi) as (i' & Hi' & Hk' & _). exists i', k. rewrite (el_instances _ _ E).
    split; [done|]. split; [done|]. split; [congruence|done].
  - intros t f Hf. specialize (I9 t f Hf). destruct f as [k [[[m obj] pc]|]|]; cbn in *; try done.
    destruct I9 as [Hk Hg]. split; [done|].
    assert (gone k (core s) -> gone k c) as Hgone.
    { intros Hg' n. rewrite (el_instances _ _ E), (elsewhere_alive _ _ n E). apply Hg'. }
    destruct pc; auto.
Qed.

Lemma calm_inv L s c : calm (core s) c -> inv L s -> inv L (with_core c s).
Proof. intros Hc. by apply elsewhere_keeps_inv, calm_elsewhere. Qed.

(* ------------------------------------------------------------------ *)
(** ** Frames and locks *)

(** [t] is the only frame of [k]'s lock, and may take or have it. *)
Definition admitted (L : gset nat) (s : System) (t : nat) (k : pystr) : Prop :=
  exists f, frames s !! t = Some f /\ (holds f = Some k \/ (holds f = None /\ locks s !! k = None)) /\
    forall n, stops f = Some n -> alive n (super (core s)) = false \/ n ∈ L.

Lemma admitted_only L s t k t' f' : inv L s -> admitted L s t k ->
  frames s !! t' = Some f' -> holds f' = Some k -> t' = t.
Proof.
  intros Hinv (f & Hf & Hl & _) Hf' Hh. pose proof (iv_holds _ _ Hinv t' f' k Hf' Hh) as Hlk.
  destruct Hl as [Hl|[_ Hl]]; [|congruence]. pose proof (iv_holds _ _ Hinv t f k Hf Hl). congruence.
Qed.

(** Of the frames other than [t], none stops a generation of [k]. *)
Lemma admitted_alive L s t k n i : inv L s -> admitted L s t k -> heap (super (core s)) !! n = Some i ->
  running i = true -> key i = k -> dget (instances (super (core s))) k = Some n \/ n ∈ L.
Proof.
  intros Hinv Ha Hi Hr <-. destruct (iv_alive _ _ Hinv n i Hi Hr) as [?|[(t' & f' & Hf' & Hh & Hs)|?]]; [by left| |by right].
  pose proof (admitted_only _ _ _ _ _ _ Hinv Ha Hf' Hh) as ->. destruct Ha as (f & Hf & _ & Hdead).
  rewrite Hf in Hf'. injection Hf' as <-. destruct (Hdead n Hs) as [Hd|]; [|by right].
  unfold alive in Hd. rewrite Hi in Hd. congruence.
Qed.

(** A frame that stops nothing alive may be replaced by one that stops
    nothing. *)
Lemma park_inv L s t k f : inv L s -> admitted L s t k -> holds f = Some k -> stops f = None ->
  start_ok (core s) f -> inv L (set_frame t f (take_lock k t s)).
Proof.
  intros Hinv Ha Hh Hs Hok. pose proof (admitted_only L s t k) as Honly.
  constructor; cbn [core set_frame take_lock locks frames]; try apply Hinv.
  - intros t' f' k' Hf' Hh'. destruct (decide (t' = t)) as [->|Hne].
    + rewrite lookup_insert_eq in Hf'. injection Hf' as <-. assert (k' = k) as -> by congruence. by rewrite lookup_insert_eq.
    + rewrite lookup_insert_ne in Hf' by done. rewrite lookup_insert_ne; [by apply (iv_holds _ _ Hinv _ f')|].
      intros <-. by destruct Hne; eapply Honly.
  - intros n i Hi Hr. destruct (iv_alive _ _ Hinv n i Hi Hr) as [?|[(t' & f' & Hf' & Hh' & Hs')|?]]; [by left| |by right; right].
    destruct (decide (t' = t)) as [->|Hne].
    + destruct Ha as (f0 & Hf0 & Hl & Hdead). rewrite Hf0 in Hf'. injection Hf' as <-.
      destruct (Hdead n Hs') as [Hd|]; [|by right; right]. unfold alive in Hd. rewrite Hi in Hd. congruence.
    + right; left. exists t', f'. by rewrite lookup_insert_ne.
  - intros t' f' n Hf' Hs'. destruct (decide (t' = t)) as [->|Hne].
    + rewrite lookup_insert_eq in Hf'. injection Hf' as <-. congruence.
    + rewrite lookup_insert_ne in Hf' by done. by apply (iv_stops _ _ Hinv t').
  - intros t' f' Hf'. destruct (decide (t' = t)) as [->|Hne].
    + rewrite lookup_insert_eq in Hf'. by injection Hf' as <-.
    + rewrite lookup_insert_ne in Hf' by done. by apply (iv_start _ _ Hinv t').
Qed.

Lemma leave_lock_inv L s t k : inv L s -> admitted L s t k -> inv L (leave k t s).
Proof.
  intros Hinv Ha. pose proof (admitted_only L s t k) as Honly.
  constructor; cbn [core leave locks frames]; try apply Hinv.
  - intros t' f' k' Hf' Hh'. destruct (decide (t' = t)) as [->|Hne]; [by rewrite lookup_delete_eq in Hf'|].
    rewrite lookup_delete_ne in Hf' by done. rewrite lookup_delete_ne; [by apply (iv_holds _ _ Hinv _ f')|].
    intros <-. by destruct Hne; eapply Honly.
  - intros n i Hi Hr. destruct (iv_alive _ _ Hinv n i Hi Hr) as [?|[(t' & f' & Hf' & Hh' & Hs')|?]]; [by left| |by right; right].
    destruct (decide (t' = t)) as [->|Hne].
    + destruct Ha as (f0 & Hf0 & Hl & Hdead). rewrite Hf0 in Hf'. injection Hf' as <-.
      destruct (Hdead n Hs') as [Hd|]; [|by right; right]. unfold alive in Hd. rewrite Hi in Hd. congruence.
    + right; left. exists t', f'. by rewrite lookup_delete_ne.
  - intros t' f' n Hf' Hs'. destruct (decide (t' = t)) as [->|Hne]; [by rewrite lookup_delete_eq in Hf'|].
    rewrite lookup_delete_ne in Hf' by done. by apply (iv_stops _ _ Hinv t').
  - intros t' f' Hf'. destruct (decide (t' = t)) as [->|Hne]; [by rewrite lookup_delete_eq in Hf'|].
    rewrite lookup_delete_ne in Hf' by done. by apply (iv_start _ _ Hinv t').
Qed.

(** A frame that holds its lock may go at any time; what it was stopping is
    lost, if it is alive. *)
Lemma abandon_inv L s t k f : inv L s -> frames s !! t = Some f -> holds f = Some k ->
  inv (lose (stops f) (core s) L) (leave k t s).
Proof.
  intros Hinv Hf Hh. apply leave_lock_inv; [exact (inv_mono _ _ _ (lose_subset _ _ _) Hinv)|].
  exists f. split; [done|]. split; [by left|]. intros n ->. cbn. destruct (alive n _); [right; set_solver|by left].
Qed.

(** A frame without a lock comes or goes. *)
Lemma waiting_inv L s t f : inv L s -> holds f = None -> (forall k p, f <> FStart k (Some p)) ->
  frames s !! t = None -> inv L (set_frame t f s).
Proof.
  intros Hinv Hh Hns Hnone.
  assert (stops f = None) as Hs by (destruct f as [? [[[? ?] []]|]|? ? [|]]; done).
  constructor; cbn [core set_frame locks frames]; try apply Hinv.
  - intros t' f' k' Hf' Hh'. destruct (decide (t' = t)) as [->|Hne].
    + rewrite lookup_insert_eq in Hf'. injection Hf' as <-. congruence.
    + rewrite lookup_insert_ne in Hf' by done. by apply (iv_holds _ _ Hinv _ f').
  - intros n i Hi Hr. destruct (iv_alive _ _ Hinv n i Hi Hr) as [?|[(t' & f' & Hf' & Hh' & Hs')|?]]; [by left| |by right; right].
    right; left. exists t', f'. rewrite lookup_insert_ne; [done|]. intros <-. congruence.
  - intros t' f' n Hf' Hs'. destruct (decide (t' = t)) as [->|Hne].
    + rewrite lookup_insert_eq in Hf'. injection Hf' as <-. congruence.
    + rewrite lookup_insert_ne in Hf' by done. by apply (iv_stops _ _ Hinv t').
  - intros t' f' Hf'. destruct (decide (t' = t)) as [->|Hne].
    + rewrite lookup_insert_eq in Hf'. injection Hf' as <-. by destruct f as [k [p|]|].
    + rewrite lookup_insert_ne in Hf' by done. by apply (iv_start _ _ Hinv t').
Qed.

Lemma give_up_inv L s t f : inv L s -> frames s !! t = Some f -> holds f = None ->
  inv L {| core := core s; locks := locks s; frames := delete t (frames s) |}.
Proof.
  intros Hinv Hf Hh.
  assert (forall t' f', delete t (frames s) !! t' = Some f' -> frames s !! t' = Some f') as Hsub.
  { intros t' f'. destruct (decide (t' = t)) as [->|Hne]; [by rewrite lookup_delete_eq|by rewrite lookup_delete_ne]. }
  constructor; cbn [core locks frames]; try apply Hinv.
  - intros t' f' k' Hf'%Hsub. by apply (iv_holds _ _ Hinv t' f').
  - intros n i Hi Hr. destruct (iv_alive _ _ Hinv n i Hi Hr) as [?|[(t' & f' & Hf' & Hh' & Hs')|?]]; [by left| |by right; right].
    right; left. exists t', f'. rewrite lookup_delete_ne; [done|]. intros <-. congruence.
  - intros t' f' n Hf'%Hsub. by apply (iv_stops _ _ Hinv t' f').
  - intros t' f' Hf'%Hsub. by apply (iv_start _ _ Hinv t').
Qed.

(* ------------------------------------------------------------------ *)
(** ** Stops and spawns *)

Definition drop_current (k : pystr) (c : Core) : Core :=
  modify (fun s => set_instances (ddel (instances s) k) s) c.

(** The frame that holds the lock takes its instance out of the table. *)
Lemma drop_inv L s t k n f f' : inv L s -> frames s !! t = Some f -> holds f = Some k -> stops f = None ->
  dget (instances (super (core s))) k = Some n ->
  holds f' = Some k -> stops f' = Some n -> start_ok (drop_current k (core s)) f' ->
  inv L (set_frame t f' (with_core (drop_current k (core s)) s)).
Proof.
  intros Hinv Hf Hh Hs Hn Hh' Hs' Hok.
  assert (admitted L s t k) as Ha by (exists f; split; [done|]; split; [by left|]; intros m Hm; congruence).
  pose proof (admitted_only L s t k) as Honly.
  destruct (iv_current _ _ Hinv k n Hn) as (i & Hi & Hk). pose proof (iv_wf _ _ Hinv) as Hwf.
  constructor; cbn [core set_frame with_core locks frames drop_current modify set_super].
  - exact (iv_sane _ _ Hinv).
  - by apply ddel_wf.
  - intros k' n'. cbn. rewrite dget_ddel by done. case_decide; [done|]. apply (iv_current _ _ Hinv).
  - exact (iv_numbers _ _ Hinv).
  - exact (iv_identity _ _ Hinv).
  - intros t' f0 k' Hf' Hh0. destruct (decide (t' = t)) as [->|Hne].
    + rewrite lookup_insert_eq in Hf'. injection Hf' as <-. assert (k' = k) as -> by congruence. by apply (iv_holds _ _ Hinv t f).
    + rewrite lookup_insert_ne in Hf' by done. by apply (iv_holds _ _ Hinv _ f0).
  - intros n' i' Hi' Hr. cbn. rewrite dget_ddel by done. case_decide as Hd.
    + right. destruct (admitted_alive L s t k n' i' Hinv Ha Hi' Hr Hd) as [Hc|]; [left|by right].
      exists t, f'. rewrite lookup_insert_eq. split; [done|]. rewrite Hd. split; [done|congruence].
    + destruct (iv_alive _ _ Hinv n' i' Hi' Hr) as [?|[(t' & f0 & Hf' & Hh0 & Hs0)|?]]; [by left| |by right; right].
      right; left. exists t', f0. rewrite lookup_insert_ne; [done|]. intros <-. congruence.
  - intros t' f0 n' Hf' Hs0. destruct (decide (t' = t)) as [->|Hne].
    + rewrite lookup_insert_eq in Hf'. injection Hf' as <-. assert (n' = n) as -> by congruence.
      exists i, k. split; [done|]. split; [done|]. split; [done|]. cbn. rewrite dget_ddel by done. by rewrite decide_True.
    + rewrite lookup_insert_ne in Hf' by done. destruct (iv_stops _ _ Hinv t' f0 n' Hf' Hs0) as (i' & k' & Hk' & Hi' & Hik & Hn').
      exists i', k'. split; [done|]. split; [done|]. split; [done|]. cbn. rewrite dget_ddel by done. by case_decide.
  - intros t' f0 Hf'. destruct (decide (t' = t)) as [->|Hne].
    + rewrite lookup_insert_eq in Hf'. by injection Hf' as <-.
    + rewrite lookup_insert_ne in Hf' by done. pose proof (iv_start _ _ Hinv t' f0 Hf') as H0.
      destruct f0 as [k' [[[m obj] pc]|]|]; cbn in *; try done. destruct H0 as [H0 H0']. split; [done|].
      assert (gone k' (core s) -> gone k' (drop_current k (core s))) as Hg.
      { intros Hg n'. cbn. rewrite dget_ddel by done. case_decide; [done|]. apply Hg. }
      destruct pc; auto.
Qed.

(** A generation number is taken; all earlier ones are below. *)
Lemma numbered_inv L s k : inv L s ->
  let gen := (dget_or (generations (core s)) k 0 + 1)%Z in
  let c := set_generations (dset (generations (core s)) k gen) (core s) in
  inv L (with_core c s) /\ dget_or (generations c) k 0%Z = gen /\
  forall n i, heap (super c) !! n = Some i -> key i = k -> (generation i < gen)%Z.
Proof.
  intros Hinv gen c.
  assert (forall k', dget_or (generations c) k' 0%Z = if decide (k' = k) then gen else dget_or (generations (core s)) k' 0%Z) as Hget.
  { intros k'. unfold dget_or. cbn. rewrite dget_dset. by case_decide. }
  split; [|split].
  - constructor; cbn [core with_core locks frames]; try apply Hinv.
    + intros n i Hi. pose proof (iv_numbers _ _ Hinv n i Hi) as Hle. rewrite Hget. case_decide as Hd; [|done].
      rewrite <- Hd in *. unfold gen. rewrite Hd in *. lia.
  - rewrite Hget. by rewrite decide_True.
  - intros n i Hi Hk. pose proof (iv_numbers _ _ Hinv n i Hi) as Hle. rewrite Hk in Hle. unfold gen. lia.
Qed.

Definition install (k : pystr) (j : Instance) (c : Core) : Core :=
  modify (fun s => set_instances (dset (instances s) k (fresh (dom (heap (super c)))))
            (set_heap (<[fresh (dom (heap (super c))) := j]> (heap s)) s)) c.

(** The new generation becomes current. *)
Lemma install_inv L s t k j f : inv L s -> frames s !! t = Some f -> holds f = Some k -> stops f = None ->
  (forall c, start_ok c f) -> gone k (core s) -> key j = k ->
  generation j = dget_or (generations (core s)) k 0%Z ->
  (forall n i, heap (super (core s)) !! n = Some i -> key i = k -> (generation i < generation j)%Z) ->
  inv L (with_core (install k j (core s)) s).
Proof.
  intros Hinv Hf Hh Hs Hok Hgone Hkey Hgen Hlt. set (n := fresh (dom (heap (super (core s))))).
  assert (heap (super (install k j (core s))) = <[n := j]> (heap (super (core s)))) as Hheap by done.
  assert (heap (super (core s)) !! n = None) as Hfresh.
  { apply not_elem_of_dom. apply is_fresh. }
  assert (admitted L s t k) as Ha by (exists f; split; [done|]; split; [by left|]; intros m Hm; congruence).
  assert (forall n' i, heap (super (core s)) !! n' = Some i -> heap (super (install k j (core s))) !! n' = Some i) as Hold.
  { intros n' i Hi. rewrite Hheap, lookup_insert_ne; [done|]. intros <-. congruence. }
  assert (forall n' i, heap (super (install k j (core s))) !! n' = Some i ->
    (n' = n /\ i = j) \/ (n' ≠ n /\ heap (super (core s)) !! n' = Some i)) as Hnew.
  { intros n' i Hi. rewrite Hheap in Hi. destruct (decide (n' = n)) as [->|Hne].
    - rewrite lookup_insert_eq in Hi. injection Hi as <-. by left.
    - rewrite lookup_insert_ne in Hi by done. by right. }
  assert (forall k', dget (instances (super (install k j (core s)))) k' =
    if decide (k' = k) then Some n else dget (instances (super (core s))) k') as Hinst.
  { intros k'. cbn. by rewrite dget_dset. }
  assert (heap (super (install k j (core s))) !! n = Some j) as Hn.
  { by rewrite Hheap, lookup_insert_eq. }
  constructor; cbn [core with_core locks frames].
  - exact (iv_sane _ _ Hinv).
  - cbn. apply dset_wf, (iv_wf _ _ Hinv).
  - intros k' n'. rewrite Hinst. case_decide as Hd; [intros [= <-]; exists j; split; [done|congruence]|].
    intros Hn'. destruct (iv_current _ _ Hinv k' n' Hn') as (i & Hi & Hk). exists i. auto.
  - intros n' i [[-> ->]|[Hne Hi]]%Hnew; [rewrite Hkey, Hgen; done|]. by apply (iv_numbers _ _ Hinv n').
  - intros n1 n2 i1 i2 [[-> ->]|[Hne1 H1]]%Hnew [[-> ->]|[Hne2 H2]]%Hnew Hk Hg; [done| | |].
    + specialize (Hlt n2 i2 H2 ltac:(congruence)). lia.
    + specialize (Hlt n1 i1 H1 ltac:(congruence)). lia.
    + by eapply (iv_identity _ _ Hinv).
  - exact (iv_holds _ _ Hinv).
  - intros n' i [[-> ->]|[Hne Hi]]%Hnew Hr; [left; rewrite Hkey, Hinst; by rewrite decide_True|].
    rewrite Hinst. case_decide as Hd; [|by apply (iv_alive _ _ Hinv)].
    destruct (admitted_alive L s t k n' i Hinv Ha Hi Hr Hd) as [Hcur|]; [|by right; right]. pose proof (Hgone n' Hcur) as Hdead.
    unfold alive in Hdead. rewrite Hi in Hdead. congruence.
  - intros t' f' n' Hf' Hs'. destruct (iv_stops _ _ Hinv t' f' n' Hf' Hs') as (i & k' & Hk' & Hi & Hik & Hnone).
    exists i, k'. split; [done|]. split; [by apply Hold|]. split; [done|]. rewrite Hinst. case_decide as Hd; [|done].
    subst k'. rewrite Hd in Hk'. pose proof (admitted_only _ _ _ _ _ _ Hinv Ha Hf' Hk') as ->. congruence.
  - intros t' f' Hf'. pose proof (iv_start _ _ Hinv t' f' Hf') as H0. destruct (decide (t' = t)) as [->|Hne].
    { rewrite Hf in Hf'. injection Hf' as <-. apply Hok. }
    destruct f' as [k' [[[m obj] pc]|]|]; cbn [start_ok] in H0 |- *; try done. destruct H0 as [H0 H0']. split; [done|].
    assert (k' ≠ k) as Hkne. { intros ->. apply Hne. by eapply (admitted_only L s t k t'). }
    assert (gone k' (core s) -> gone k' (install k j (core s))) as Hg.
    { intros Hg n'. rewrite Hinst, decide_False by done. intros Hn'. specialize (Hg n' Hn'). unfold alive in *.
      destruct (iv_current _ _ Hinv k' n' Hn') as (i & Hi & _). rewrite (Hold n' i Hi). by rewrite Hi in Hg. }
    destruct pc; auto.
Qed.

Definition neutral (m : Manifest.Component) (obj : nat) : option (Manifest.Component * nat * start_pc) :=
  Some (m, obj, SpawnBackoff).

(** What a segment drops is the generation that was current. *)
Lemma dropped_calm {A} k c c1 (p : segment A) : calm c c1 -> dropped k c1 p = dropped k c p.
Proof. intros [_ I]. destruct p as [c' [x|e]]; [done|]. cbn. by rewrite I. Qed.

Lemma lose_calm o c c1 L : calm c c1 -> lose o c1 L = lose o c L.
Proof. intros [Q _]. destruct o as [n|]; [|done]. cbn. by rewrite (alive_quiet _ _ n Q). Qed.

(** The frame that holds the lock takes its instance out of the table and
    fails. *)
Lemma drop_abandon_inv L s t k n f c' : inv L s -> frames s !! t = Some f -> holds f = Some k -> stops f = None ->
  dget (instances (super (core s))) k = Some n -> quiet (core s) c' ->
  instances (super c') = ddel (instances (super (core s))) k ->
  inv (lose (Some n) (core s) L) (leave k t (with_core c' s)).
Proof.
  intros Hinv Hf Hh Hs Hn Q Hi. set (f' := FStop k None (Some (Cancelling n false))).
  pose proof (drop_inv L s t k n f f' Hinv Hf Hh Hs Hn eq_refl eq_refl I) as Hd.
  assert (calm (drop_current k (core s)) c') as Hc by (split; [destruct Q; by constructor|done]).
  set (s1 := set_frame t f' _) in Hd. pose proof (calm_inv L s1 c' Hc Hd) as Hd'.
  pose proof (abandon_inv L (with_core c' s1) t k f' Hd' (lookup_insert_eq _ _ _) eq_refl) as Ha.
  assert (lose (stops f') (core (with_core c' s1)) L = lose (Some n) (core s) L) as Hl
    by (cbn; by rewrite (alive_quiet _ _ n Q)).
  rewrite Hl in Ha. assert (leave k t (with_core c' s1) = leave k t (with_core c' s)) as <-; [|exact Ha].
  unfold leave, with_core, s1, set_frame. cbn. by rewrite delete_insert_eq.
Qed.

(** The end of a segment of a start, for a frame that stops nothing. *)
Lemma start_inv L s t k m obj c' r : inv L s -> frames s !! t = Some (FStart k (neutral m obj)) ->
  start_effect k (core s) c' r ->
  inv (lose (dropped k (core s) (c', r)) (core s) L) (settle_start k t (c', r) s).
Proof.
  intros Hinv Hf He. assert (locks s !! k = Some t) as Hlk by (by apply (iv_holds _ _ Hinv t _ k Hf)).
  assert (forall s', frames s' = frames s -> locks s' = locks s -> admitted L s' t k) as Hadm.
  { intros s' E1 E2. exists (FStart k (neutral m obj)). rewrite E1. split; [done|]. by split; [left|]. }
  assert (forall c, inv L (with_core c s) -> inv L (leave k t (with_core c s))) as Hleave.
  { intros c Hc. apply leave_lock_inv; [done|]. by apply Hadm. }
  destruct He as [r Hc Hset|m' obj' n b Hk Q Hn Hheap Hinst|n e Q Hn Hheap Hinst|c1 gen e Hc1 -> Hc'|c1 c2 c3 now m' obj' gen pid r Hc1 Hgone Hk Hst Hobj -> Hc2 -> Hc3 Hr].
  3:{ assert (dropped k (core s) (c', Raise e : py progress) = Some n) as ->; [|by eapply drop_abandon_inv].
      cbn. rewrite Hinst, dget_ddel by apply Hinv. by rewrite decide_True. }
  all: eapply inv_mono; [apply lose_subset|].
  - pose proof (calm_inv L s c' Hc Hinv) as Hinv'. destruct r as [[n|m' obj' pc]|e]; cbn [settle_start]; [by apply Hleave| |by apply Hleave].
    destruct Hset as [Hk Hpc]. apply park_inv; [done|by apply Hadm|done|by destruct pc|].
    split; [done|]. destruct pc; done.
  - cbn [settle_start]. assert (calm (drop_current k (core s)) c') as Hc.
    { split; [|done]. destruct Q. constructor; done. }
    pose proof (drop_inv L s t k n (FStart k (neutral m obj)) (FStart k (Some (m', obj', StoppingStale (Cancelling n b))))
      Hinv Hf eq_refl eq_refl Hn eq_refl eq_refl ltac:(by split)) as Hd.
    pose proof (calm_inv L (set_frame t (FStart k (Some (m', obj', StoppingStale (Cancelling n b))))
      (with_core (drop_current k (core s)) s)) c' Hc Hd) as Hd'.
    assert (set_frame t (FStart k (Some (m', obj', StoppingStale (Cancelling n b)))) (take_lock k t (with_core c' s))
      = with_core c' (set_frame t (FStart k (Some (m', obj', StoppingStale (Cancelling n b)))) (with_core (drop_current k (core s)) s)))
      as ->; [|exact Hd'].
    unfold set_frame, take_lock, with_core. cbn. f_equal. by apply insert_id.
  - cbn [settle_start]. apply Hleave. pose proof (calm_inv L s c1 Hc1 Hinv) as H1.
    destruct (numbered_inv L (with_core c1 s) k H1) as [H2 _].
    exact (calm_inv L (with_core (set_generations (dset (generations c1) k (dget_or (generations c1) k 0 + 1)%Z) c1) s) c' Hc' H2).
  - pose proof (calm_inv L s c1 Hc1 Hinv) as H1.
    destruct (numbered_inv L (with_core c1 s) k H1) as (H2 & Hg & Hlt). cbn [core with_core] in Hg, Hlt.
    set (gen := (dget_or (generations c1) k 0 + 1)%Z) in *. set (c0 := set_generations _ c1) in *.
    pose proof (calm_inv L (with_core c0 s) c2 Hc2 H2) as H3.
    assert (inv L (with_core (install k (new_instance now m' obj' gen pid) c2) s)) as H4.
    { refine (install_inv L (with_core c2 s) t k _ (FStart k (neutral m obj)) H3 Hf eq_refl eq_refl _ _ _ _ _).
      - intros c. split; [|done]. exact (proj1 (iv_start _ _ Hinv t _ Hf)).
      - eapply gone_calm; [exact Hc2|]. exact Hgone.
      - exact Hk.
      - cbn. by rewrite (q_generations _ _ (proj1 Hc2)).
      - intros n i Hi Hki. destruct (elsewhere_back _ _ _ _ (calm_elsewhere _ _ Hc2) Hi) as (i0 & Hi0 & Hk0 & _ & ->).
        apply (Hlt n i0 Hi0). congruence. }
    pose proof (calm_inv L (with_core (install k (new_instance now m' obj' gen pid) c2) s) c' Hc3 H4) as H5.
    destruct Hr as [->|[e ->]]; cbn [settle_start]; by apply Hleave.
Qed.

Section Laws.
Context {plat_laws : PlatformLaws}.

(** A live process group can be signalled, so terminating waits for its end. *)
Lemma signal_live n sig next c : alive n (super c) = true -> signal_group n sig next c = (c, Ok (Some next)).
Proof.
  unfold alive, signal_group, running. destruct (heap (super c) !! n) as [i|] eqn:Hi; [|done]. cbn [mbind option_bind].
  destruct (process i) as [p|] eqn:Hp; [|done]. intros Hr%bool_decide_eq_true.
  by rewrite (killpg_leader c n i p sig Hi Hp Hr).
Qed.

Lemma terminate_begin_spec now n c : exists r, terminate_begin now n c = (c, Ok r) /\
  (r = None -> alive n (super c) = false).
Proof.
  unfold terminate_begin. destruct (alive n (super c)) eqn:Ha; [|by exists None].
  rewrite signal_live by done. by eexists.
Qed.

Lemma terminate_resume_spec now n pc c : exists r, terminate_resume now n pc c = (c, Ok r) /\
  (r = None -> alive n (super c) = false).
Proof.
  unfold terminate_resume. destruct (alive n (super c)) eqn:Ha; cbn [negb]; [|by exists None].
  destruct pc as [d|]; [|by eexists]. destruct (now <? d)%Z; [by eexists|]. rewrite signal_live by done. by eexists.
Qed.

(** The last wake-up of a stop returns, or raises what the encoder raises for
    the announcement that the application is closed. *)
Definition stop_result (animate : bool) (r : py (option stop_pc)) : Prop :=
  r = Ok None \/ animate = true /\ exists e, r = Raise e /\ encoder_error e.

Lemma stop_done_spec n animate c : exists c' r, stop_done n animate c = (c', r) /\ stop_result animate r.
Proof.
  unfold stop_done, stop_end. destruct (heap (super c) !! n) as [i|]; [|by eexists _, _; split; [|left]].
  destruct animate; [|by eexists _, _; split; [|left]].
  pose proof (transition_raises §"closed" (component i) (generation i) (process i ≫= returncode) [] c) as Hr.
  destruct (_emit_component_transition _ _ _ _ _ c) as [c1 [u|e]]; cbn [snd] in Hr; eexists _, _; (split; [done|]); [by left|].
  right. split; [done|]. exists e. split; [done|by apply Hr].
Qed.

(** A stop that has begun to terminate ends only when the process has exited. *)
Lemma stop_resume_spec now k pc c :
  match stop_resume now k pc c with
  | (c', Ok (Some pc')) => stop_instance pc' = stop_instance pc
  | (c', _) => alive (stop_instance pc) (super c') = false
  end.
Proof.
  assert (forall n animate c1 r, (r = None -> alive n (super c1) = false) ->
    match (match r with
           | Some t => (c1, Ok (Some (Terminating n animate t)))
           | None => stop_done n animate c1
           end) with
    | (c', Ok (Some pc')) => stop_instance pc' = n
    | (c', _) => alive n (super c') = false
    end) as Hend.
  { intros n animate c1 [t|] Hdead; [done|]. pose proof (calm_stop_done n animate c1) as [Q _].
    destruct (stop_done_spec n animate c1) as (c2 & r & Hd & Hr). rewrite Hd in *. cbn [fst] in Q.
    assert (alive n (super c2) = false) as Ha by (rewrite (alive_quiet c1 c2 n Q); by apply Hdead).
    by destruct Hr as [->|[_ (e & -> & _)]]. }
  destruct pc as [n animate|n animate t]; cbn [stop_resume stop_instance].
  - unfold stop_close. match goal with |- context [terminate_begin now n ?c0] =>
      destruct (terminate_begin_spec now n c0) as (r & -> & Hr) end. cbn [seg_bind]. by apply Hend.
  - destruct (terminate_resume_spec now n t c) as (r & -> & Hr). cbn [seg_bind]. by apply Hend.
Qed.

(** The frame that stops [n] has nothing to stop any more. *)
Lemma stopped_inv L s t k f m obj now pc c' r :
  inv L s -> frames s !! t = Some f -> holds f = Some k -> stops f = Some (stop_instance pc) ->
  stop_resume now k pc (core s) = (c', r) -> (forall pc', r <> Ok (Some pc')) -> Manifest.key m = k ->
  inv L (set_frame t (FStart k (neutral m obj)) (with_core c' s)) /\
  inv L (leave k t (with_core c' s)).
Proof.
  intros Hinv Hf Hh Hs Hr Hends Hk. pose proof (calm_stop_resume now k pc (core s)) as Hc. pose proof (stop_resume_spec now k pc (core s)) as Hd.
  rewrite Hr in Hc, Hd. cbn [fst] in Hc. pose proof (calm_inv L s c' Hc Hinv) as H1.
  assert (alive (stop_instance pc) (super c') = false) as Hdead by (destruct r as [[pc'|]|e]; [by destruct (Hends pc')|done..]).
  assert (admitted L (with_core c' s) t k) as Ha.
  { exists f. split; [done|]. split; [by left|]. intros n Hn. rewrite Hs in Hn. injection Hn as <-. by left. }
  split; [|by apply leave_lock_inv].
  pose proof (park_inv L _ t k (FStart k (neutral m obj)) H1 Ha eq_refl eq_refl ltac:(by split)) as H2.
  assert (take_lock k t (with_core c' s) = with_core c' s) as Ht; [|by rewrite Ht in H2].
  unfold take_lock, with_core. cbn. f_equal. apply insert_id. by apply (iv_holds _ _ Hinv t f).
Qed.

(** The frame goes on stopping the same generation. *)
Lemma stopping_inv L s t k f f' c' : inv L s -> frames s !! t = Some f -> calm (core s) c' ->
  holds f = Some k -> holds f' = Some k -> stops f' = stops f -> start_ok c' f' ->
  inv L (set_frame t f' (take_lock k t (with_core c' s))).
Proof.
  intros Hinv Hf Hc Hh Hh' Hs Hok. pose proof (calm_inv L s c' Hc Hinv) as H1.
  assert (take_lock k t (with_core c' s) = with_core c' s) as ->.
  { unfold take_lock, with_core. cbn. f_equal. apply insert_id. by apply (iv_holds _ _ Hinv t f). }
  constructor; cbn [core set_frame locks frames]; try apply H1.
  - intros t' f0 k' Hf' Hh0. destruct (decide (t' = t)) as [->|Hne].
    + rewrite lookup_insert_eq in Hf'. injection Hf' as <-. apply (iv_holds _ _ H1 t f k'); [exact Hf|congruence].
    + rewrite lookup_insert_ne in Hf' by done. by apply (iv_holds _ _ H1 t' f0).
  - intros n i Hi Hr. destruct (iv_alive _ _ H1 n i Hi Hr) as [?|[(t' & f0 & Hf' & Hh0 & Hs0)|?]]; [by left| |by right; right].
    right; left. destruct (decide (t' = t)) as [->|Hne].
    + exists t, f'. rewrite lookup_insert_eq. cbn in Hf'. rewrite Hf in Hf'. injection Hf' as <-. split; [done|].
      split; [congruence|congruence].
    + exists t', f0. by rewrite lookup_insert_ne.
  - intros t' f0 n Hf' Hs0. destruct (decide (t' = t)) as [->|Hne].
    + rewrite lookup_insert_eq in Hf'. injection Hf' as <-. rewrite Hs in Hs0.
      destruct (iv_stops _ _ H1 t f n Hf Hs0) as (i & k' & Hk' & Hrest). exists i, k'. split; [congruence|done].
    + rewrite lookup_insert_ne in Hf' by done. by apply (iv_stops _ _ H1 t').
  - intros t' f0 Hf'. destruct (decide (t' = t)) as [->|Hne].
    + rewrite lookup_insert_eq in Hf'. by injection Hf' as <-.
    + rewrite lookup_insert_ne in Hf' by done. by apply (iv_start _ _ H1 t').
Qed.

(* ------------------------------------------------------------------ *)
(** ** The other tasks *)

Lemma calm_deliver n i c : calm c (deliver n i c).1.
Proof.
  unfold deliver. apply calm_bind; [apply calm_became_ready|]. intros _ c1 _ Hc.
  eapply calm_trans; [exact Hc|]. apply calm_bind; [|by intros].
  destruct (_ && _); [|apply calm_refl]. eapply calm_trans; [|apply calm_transition]. by apply calm_frame.
Qed.

Lemma calm_ready_check replaced now k n deadline c :
  (forall m c, calm c (replaced m c).1) -> calm c (ready_check replaced now k n deadline c).1.
Proof.
  intros Hrep. unfold ready_check, ready_decide. destruct (heap (super c) !! n) as [i|]; [|apply calm_refl].
  destruct (_ && _); [apply calm_refl|]. destruct (_ && _); [apply calm_deliver|].
  destruct (dget _ k) as [other|]; [|apply calm_refl]. destruct (negb _); [apply Hrep|].
  destruct (exit_status i); [|apply calm_refl]. destruct (_ && _); apply calm_refl.
Qed.

Lemma calm_ready_rounds fuel now k n c : calm c (ready_rounds fuel now k n c).1.
Proof.
  revert n c; induction fuel as [|fuel IH]; intros n c; cbn [ready_rounds]; [apply calm_refl|].
  apply calm_ready_check. intros. apply IH.
Qed.

Lemma calm_ready now k pc started c : calm c (ready_resume now k pc started c).1.
Proof.
  destruct pc; cbn [ready_resume].
  - destruct started; [apply calm_ready_rounds|apply calm_refl].
  - apply calm_ready_check. intros. apply calm_ready_rounds.
  - destruct (dget _ k); [|apply calm_refl]. destruct (negb _); [apply calm_ready_rounds|apply calm_refl].
  - destruct started as [n|]; [|apply calm_refl]. destruct (heap _ !! n ≫= _); [apply calm_refl|apply calm_ready_rounds].
Qed.

Lemma calm_restart_later n now c : calm c (set_super (_restart_later n now (super c)).1 c).
Proof.
  unfold _restart_later. destruct (heap (super c) !! n) as [i|]; [|by apply calm_frame].
  destruct (_display_outage_blocks _ _); [by apply (calm_update n (set_state §"display-wait"))|].
  pose proof (calm_record_restart n now c) as Hc.
  destruct (_record_restart_failure n now (super c)) as [s [d|]]; cbn [fst] in *; [|exact Hc].
  eapply calm_trans; [exact Hc|]. by apply (calm_update n _ (set_super s c)).
Qed.

Lemma calm_watch_account now n rc c : calm c (watch_account now n rc c).1.
Proof.
  unfold watch_account, watch_exit. pose proof (calm_restart_later n now c) as Hc.
  assert (calm c (set_super (super c) c)) as Hid by (by apply calm_frame).
  destruct (heap (super c) !! n) as [i|]; [|exact Hid]. destruct (_ && _); [|exact Hid].
  destruct (_display_outage_blocks _ _); [by apply (calm_update n (set_state §"display-wait"))|].
  by destruct (_restart_later n now (super c)).
Qed.

Lemma calm_watch_begin now n c : calm c (watch_begin now n c).1.
Proof.
  unfold watch_begin. destruct (heap (super c) !! n) as [i|]; [|apply calm_refl].
  destruct (exit_status i); [|apply calm_refl]. destruct (negb _); [apply calm_refl|].
  apply calm_bind; [apply calm_finalize_begin|by intros].
Qed.

Lemma calm_watch now n pc c : calm c (watch_resume now n pc c).1.
Proof.
  destruct pc as [rc o|rc|]; cbn [watch_resume]; [|apply calm_watch_account|apply calm_refl].
  apply calm_bind; [apply calm_finalize_end|]. intros _ c1 _ Hc. eapply calm_trans; [exact Hc|].
  destruct o; [apply calm_refl|apply calm_watch_account].
Qed.

Lemma calm_channel_failed now n c : calm c (channel_failed now n c).1.
Proof.
  unfold channel_failed. destruct (heap (super c) !! n) as [i|]; [|apply calm_refl].
  destruct (_ || _); [apply calm_refl|].
  pose proof (calm_unplanned now n §"unexpected-provider-channel-failure" c) as Hu.
  destruct (_begin_unplanned_display_failure now n _ c) as [c1 o]. cbn [fst] in Hu.
  eapply calm_trans; [exact Hu|].
  eapply calm_trans; [by apply (calm_update n (fun i => set_state §"channel-failed" (set_ready false i)))|].
  apply calm_bind; [apply calm_release|]. intros [] c2 _ Hc. eapply calm_trans; [exact Hc|].
  apply calm_bind; [|by intros]. eapply calm_trans; [apply (calm_close n §"PROVIDER_CHANNEL_FAILED")|]. apply calm_terminate.
Qed.

Lemma calm_probe_ready n c : calm c (probe_ready n c).1.
Proof.
  unfold probe_ready. eapply calm_trans; [|apply calm_became_ready].
  by apply (calm_update n (fun i => set_state §"ready" (set_ready true i))).
Qed.

Lemma calm_probe_timeout now n c : calm c (probe_timeout now n c).1.
Proof.
  unfold probe_timeout. destruct (heap (super c) !! n) as [i|]; [|apply calm_refl].
  destruct (_ || _); [apply calm_refl|apply calm_terminate].
Qed.

(** The request to stop is not part of what a segment keeps. *)
Lemma elsewhere_requests c c1 c' : calm c c1 -> heap (super c') = heap (super c1) ->
  instances (super c') = instances (super c1) -> generations c' = generations c1 ->
  components (super c') = components (super c1) -> role_registry (super c') = role_registry (super c1) ->
  elsewhere c c'.
Proof.
  intros Hc E1 E2 E3 E4 E5. destruct (calm_elsewhere _ _ Hc) as [F1 F2 F3 F4 F5].
  constructor; rewrite ?E1, ?E2, ?E3; [done..|]. intros Hs. destruct (F5 Hs) as [G1 G2].
  split; [unfold roles_wf; by rewrite E5|by rewrite E4].
Qed.

Lemma elsewhere_stop_request now k expected c : elsewhere c (stop_request now k expected c).1.
Proof.
  unfold stop_request.
  destruct (dget (instances (super c)) k) as [n|]; [|by apply (elsewhere_requests c c _ (calm_refl c))].
  destruct (match expected with Some _ => _ | None => true end); [|by apply (elsewhere_requests c c _ (calm_refl c))].
  pose proof (calm_outage now n false false c) as Hc. destruct (_begin_display_outage now n false false c) as [c1 o].
  by apply (elsewhere_requests c c1).
Qed.

Lemma elsewhere_stop_finally k c : elsewhere c (stop_finally k c).
Proof. by apply (elsewhere_requests c c _ (calm_refl c)). Qed.

(** A process exits. *)
Lemma exit_inv L s n rc : inv L s -> inv L (with_core (modify (update n (exit_process rc)) (core s)) s).
Proof.
  intros Hinv. set (c := modify (update n (exit_process rc)) (core s)).
  assert (heap (super c) = heap (update n (exit_process rc) (super (core s)))) as Hheap by done.
  assert (forall m i', heap (super c) !! m = Some i' -> exists i, heap (super (core s)) !! m = Some i /\
    key i' = key i /\ generation i' = generation i /\ (running i' = true -> running i = true)) as Hback.
  { intros m i'. rewrite Hheap, heap_update.
    case_decide; [|intros Hi; by exists i'].
    destruct (heap (super (core s)) !! m) as [i|]; [|done]. intros [= <-]. exists i. split; [done|]. split; [done|]. split; [done|].
    unfold running. cbn. by destruct (process i). }
  assert (forall m i, heap (super (core s)) !! m = Some i -> exists i', heap (super c) !! m = Some i' /\ key i' = key i) as Hforth.
  { intros m i Hi. rewrite Hheap, heap_update, Hi.
    case_decide; [|by exists i]. by exists (exit_process rc i). }
  constructor; cbn [core with_core locks frames].
  - exact (iv_sane _ _ Hinv).
  - exact (iv_wf _ _ Hinv).
  - intros k m Hm. destruct (iv_current _ _ Hinv k m Hm) as (i & Hi & Hk). destruct (Hforth m i Hi) as (i' & Hi' & Hk').
    exists i'. split; [done|congruence].
  - intros m i' Hi'. destruct (Hback m i' Hi') as (i & Hi & -> & -> & _). by apply (iv_numbers _ _ Hinv m).
  - intros n1 n2 i1' i2' H1 H2. destruct (Hback _ _ H1) as (i1 & Hi1 & -> & -> & _).
    destruct (Hback _ _ H2) as (i2 & Hi2 & -> & -> & _). by apply (iv_identity _ _ Hinv).
  - exact (iv_holds _ _ Hinv).
  - intros m i' Hi' Hr. destruct (Hback m i' Hi') as (i & Hi & -> & _ & Himp). by apply (iv_alive _ _ Hinv m i Hi), Himp.
  - intros t f m Hf Hs. destruct (iv_stops _ _ Hinv t f m Hf Hs) as (i & k & Hk & Hi & Hik & Hn).
    destruct (Hforth m i Hi) as (i' & Hi' & Hk'). exists i', k. split; [done|]. split; [done|]. split; [congruence|done].
  - intros t f Hf. pose proof (iv_start _ _ Hinv t f Hf) as H0.
    destruct f as [k [[[m obj] pc]|]|]; cbn [start_ok] in H0 |- *; try done. destruct H0 as [H0 H0']. split; [done|].
    assert (gone k (core s) -> gone k c) as Hg.
    { intros Hg n' Hn'. specialize (Hg n' Hn'). unfold alive in *.
      destruct (heap (super c) !! n') as [i'|] eqn:Hi'; [|done]. destruct (Hback _ _ Hi') as (i & Hi & _ & _ & Himp).
      rewrite Hi in Hg. destruct (running i') eqn:Hr; [|done]. by rewrite Himp in Hg. }
    destruct pc; auto.
Qed.

(* ------------------------------------------------------------------ *)
(** ** Every step keeps the invariant *)

Lemma settle_idem k t m (obj : nat) (p : segment progress) s :
  settle_start k t p (set_frame t (FStart k (neutral m obj)) (take_lock k t s)) = settle_start k t p s.
Proof.
  destruct p as [c [[n|m' obj' pc]|e]]; cbn [settle_start];
    unfold leave, set_frame, take_lock, with_core; cbn; f_equal;
    rewrite ?delete_insert_eq, ?insert_insert_eq; done.
Qed.

(** A frame that stops nothing, at the beginning of a segment of a start. *)
Lemma start_segment L s t k f m (obj : nat) c' r : inv L s -> frames s !! t = Some f ->
  (holds f = Some k \/ (holds f = None /\ locks s !! k = None)) -> stops f = None ->
  Manifest.key m = k -> start_effect k (core s) c' r ->
  inv (lose (dropped k (core s) (c', r)) (core s) L) (settle_start k t (c', r) s).
Proof.
  intros Hinv Hf Hl Hs Hk He.
  assert (admitted L s t k) as Ha by (exists f; split; [done|]; split; [done|]; intros n Hn; congruence).
  pose proof (park_inv L s t k (FStart k (neutral m obj)) Hinv Ha eq_refl eq_refl ltac:(by split)) as Hp.
  rewrite <- (settle_idem k t m obj). apply (start_inv L _ t k m obj c' r Hp); [|exact He].
  apply lookup_insert_eq.
Qed.

(** The lock is free and the frame waits for it, or the frame has it. *)
Lemma leave_elsewhere L s t k f c : inv L s -> frames s !! t = Some f ->
  (holds f = Some k \/ (holds f = None /\ locks s !! k = None)) -> stops f = None ->
  elsewhere (core s) c -> inv L (leave k t (with_core c s)).
Proof.
  intros Hinv Hf Hl Hs Hc. apply leave_lock_inv; [by apply elsewhere_keeps_inv|]. exists f.
  split; [done|]. split; [done|]. intros n Hn. congruence.
Qed.

Lemma start_lock_inv L s t k now me : inv L s -> frames s !! t = Some (FStart k None) -> locks s !! k = None ->
  let p := start_locked now me k (core s) in inv (lose (dropped k (core s) p) (core s) L) (settle_start k t p s).
Proof.
  intros Hinv Hf Hl p. pose proof (ensure_effect 1 now me k (core s) (iv_sane _ _ Hinv)) as He. fold (start_locked now me k (core s)) in He.
  destruct (dget (components (super (core s))) k) as [m|] eqn:Hm.
  - unfold p. destruct (start_locked now me k (core s)) as [c' r].
    apply (start_segment L s t k (FStart k None) m O); [done..|by right|done| |exact He].
    exact (proj2 (iv_sane _ _ Hinv) k m Hm).
  - eapply inv_mono; [apply lose_subset|]. unfold p, start_locked. cbn [_ensure_started_locked]. rewrite Hm.
    assert (inv L (leave k t (with_core (core s) s))) as H
      by (apply (leave_elsewhere L s t k (FStart k None)); [done..|by right|done|apply calm_elsewhere, calm_refl]).
    by destruct (stop_pending k _).
Qed.

Lemma start_go_inv L s t k m obj pc now me awaited : inv L s -> frames s !! t = Some (FStart k (Some (m, obj, pc))) ->
  let p := start_resume now me k m obj pc awaited (core s) in
  inv (lose (dropped k (core s) p) (core s) L) (settle_start k t p s).
Proof.
  intros Hinv Hf p. pose proof (iv_start _ _ Hinv t _ Hf) as [Hk Hpc].
  destruct (stale_pc (Some (m, obj, pc))) eqn:Hst.
  - destruct pc as [|pc| | | | |]; try done.
    destruct (iv_stops _ _ Hinv t _ _ Hf eq_refl) as (i & k' & [= <-] & Hi & Hik & Hnone).
    pose proof (stale_effect now me k m obj pc awaited (core s) (iv_sane _ _ Hinv) Hk Hnone) as He.
    unfold p. destruct (start_resume now me k m obj (StoppingStale pc) awaited (core s)) as [c' r].
    pose proof (stop_resume_spec now k pc (core s)) as Hd. pose proof (calm_stop_resume now k pc (core s)) as Hc.
    destruct He as [(pc' & -> & Hr)|[(e & -> & Hr)|(c1 & Hr & _ & He)]]; rewrite Hr in Hd, Hc.
    + cbn [settle_start dropped lose]. apply (stopping_inv L s t k (FStart k (Some (m, obj, StoppingStale pc)))); try done.
      cbn. by rewrite Hd.
    + eapply inv_mono; [apply lose_subset|]. cbn [settle_start].
      by destruct (stopped_inv L s t k _ m obj now pc c' _ Hinv Hf eq_refl eq_refl Hr ltac:(done) Hk).
    + cbn [fst] in Hc. destruct (stopped_inv L s t k _ m obj now pc c1 _ Hinv Hf eq_refl eq_refl Hr ltac:(done) Hk) as [H1 _].
      pose proof (start_inv L _ t k m obj c' r H1 (lookup_insert_eq _ _ _) He) as H2. cbn [core set_frame with_core] in H2.
      rewrite (dropped_calm k (core s) c1 (c', r) Hc), (lose_calm _ (core s) c1 L Hc) in H2.
      assert (settle_start k t (c', r) (set_frame t (FStart k (neutral m obj)) (with_core c1 s)) =
              settle_start k t (c', r) s) as Heq; [|by rewrite Heq in H2].
      destruct r as [[n|m' obj' pc']|e]; cbn [settle_start]; unfold leave, set_frame, take_lock, with_core; cbn;
        by rewrite ?delete_insert_eq, ?insert_insert_eq.
  - pose proof (resume_effect now me k m obj pc awaited (core s) (iv_sane _ _ Hinv) Hk ltac:(by destruct pc)) as He.
    unfold p. destruct (start_resume now me k m obj pc awaited (core s)) as [c' r].
    apply (start_segment L s t k (FStart k (Some (m, obj, pc))) m obj); [done..|by left|by destruct pc|done|exact He].
Qed.

Lemma stop_lock_inv L s t k expected me : inv L s -> frames s !! t = Some (FStop k expected None) -> locks s !! k = None ->
  let p := stop_locked k expected me (core s) in
  inv (lose (dropped k (core s) p) (core s) L) (settle_stop k t expected p s).
Proof.
  intros Hinv Hf Hl p.
  assert (inv L (leave k t (with_core (stop_finally k (core s)) s))) as Hnothing
    by (apply (leave_elsewhere L s t k (FStop k expected None)); [done..|by right|done|apply elsewhere_stop_finally]).
  unfold p, stop_locked. destruct (match expected with Some _ => _ | None => _ end); [exact Hnothing|].
  pose proof (stop_begin_spec k me (core s)) as [Q Hs].
  destruct (dget (instances (super (core s))) k) as [n|] eqn:Hn; [|rewrite Hs; exact Hnothing].
  destruct (iv_current _ _ Hinv k n Hn) as (i & Hi & Hk). destruct Hs as [Hinst Hres].
  assert (admitted L s t k) as Ha by (exists (FStop k expected None); split; [done|]; split; [by right|done]).
  pose proof (park_inv L s t k (FStart k (neutral (component i) 0%nat)) Hinv Ha eq_refl eq_refl ltac:(by split)) as Hp.
  destruct (stop_begin k me (core s)) as [c' [[[n' b]|]|e]]; cbn [fst snd] in *;
    cbn [seg_bind settle_stop fst snd fmap option_fmap option_map].
  - subst n'. cbn [dropped lose]. set (f' := FStop k expected (Some (Cancelling n b))).
    pose proof (drop_inv L _ t k n _ f' Hp (lookup_insert_eq _ _ _) eq_refl eq_refl Hn eq_refl eq_refl I) as Hd.
    assert (calm (drop_current k (core s)) c') as Hc by (split; [destruct Q; by constructor|done]).
    set (s0 := set_frame t f' _) in Hd. pose proof (calm_inv L s0 c' Hc Hd) as Hd'. unfold s0, set_frame, take_lock, with_core in *. cbn in *.
    by rewrite insert_insert_eq in Hd'.
  - congruence.
  - pose proof (drop_abandon_inv L _ t k n _ c' Hp (lookup_insert_eq _ _ _) eq_refl eq_refl Hn Q Hinst) as Hd.
    assert (dropped k (core s) (c', Raise e : py (option stop_pc)) = Some n) as ->.
    { cbn. rewrite Hinst, dget_ddel by apply Hinv. by rewrite decide_True. }
    set (s0 := leave k t _) in Hd.
    assert (leave k t (with_core (stop_finally k c') s) = with_core (stop_finally k c') s0) as ->.
    { unfold s0, leave, with_core, set_frame, take_lock. cbn. by rewrite !delete_insert_eq. }
    apply elsewhere_keeps_inv; [apply elsewhere_stop_finally|exact Hd].
Qed.

Lemma stop_go_inv L s t k expected pc now : inv L s -> frames s !! t = Some (FStop k expected (Some pc)) ->
  inv L (settle_stop k t expected (stop_resume now k pc (core s)) s).
Proof.
  intros Hinv Hf. destruct (iv_stops _ _ Hinv t _ _ Hf eq_refl) as (i & k' & [= <-] & Hi & Hk & Hnone).
  pose proof (stop_resume_spec now k pc (core s)) as Hd. pose proof (calm_stop_resume now k pc (core s)) as Hc.
  destruct (stop_resume now k pc (core s)) as [c' r] eqn:Hr. cbn [fst] in Hc.
  assert ((forall pc', r <> Ok (Some pc')) -> inv L (leave k t (with_core (stop_finally k c') s))) as Hend.
  { intros Hends. destruct (stopped_inv L s t k _ (component i) 0%nat now pc c' r Hinv Hf eq_refl eq_refl Hr Hends Hk) as [_ H].
    exact (elsewhere_keeps_inv L (leave k t (with_core c' s)) (stop_finally k c') (elsewhere_stop_finally k c') H). }
  destruct r as [[pc'|]|e]; cbn [settle_stop]; [|by apply Hend..].
  apply (stopping_inv L s t k (FStop k expected (Some pc))); try done. cbn. by rewrite Hd.
Qed.

Lemma step_inv L s o s' : step s o s' -> inv L s -> inv (lose o (core s) L) s'.
Proof.
  intros Hstep Hinv. destruct Hstep; try (cbn [lose]).
  - by apply waiting_inv.
  - by apply start_lock_inv.
  - by apply start_go_inv.
  - apply leave_lock_inv; [done|]. eexists. split; [eassumption|]. split; [by left|].
    intros n. destruct p as [[m obj] []]; cbn; done.
  - by eapply give_up_inv.
  - apply (waiting_inv L (with_core (stop_request now k expected (core s)).1 s) t); [|done..].
    apply elsewhere_keeps_inv; [apply elsewhere_stop_request|done].
  - by apply stop_lock_inv.
  - by apply stop_go_inv.
  - by apply exit_inv.
  - apply calm_inv; [apply calm_ready|done].
  - apply calm_inv; [apply calm_watch_begin|done].
  - apply calm_inv; [apply calm_watch|done].
  - apply calm_inv; [apply calm_channel_failed|done].
  - apply calm_inv; [apply calm_probe_ready|done].
  - apply calm_inv; [apply calm_probe_timeout|done].
  - apply calm_inv; [apply calm_terminate_resume|done].
  - by apply elsewhere_keeps_inv.
Qed.

(** Giving up a stop. *)
Lemma cancelled_inv L s o s' : cancelled s o s' -> inv L s -> inv (lose o (core s) L) s'.
Proof.
  intros Hc Hinv. destruct Hc as [t k expected Hf|t k expected Hf|t k expected pc Hf|t k m obj pc Hf].
  - exact (give_up_inv L s t _ Hinv Hf eq_refl).
  - pose proof (give_up_inv L s t _ Hinv Hf eq_refl) as Hg.
    exact (elsewhere_keeps_inv L {| core := core s; locks := locks s; frames := delete t (frames s) |}
      (stop_finally k (core s)) (elsewhere_stop_finally k (core s)) Hg).
  - pose proof (abandon_inv L s t k _ Hinv Hf eq_refl) as Hl.
    exact (elsewhere_keeps_inv _ (leave k t s) (stop_finally k (core s)) (elsewhere_stop_finally k (core s)) Hl).
  - exact (abandon_inv L s t k _ Hinv Hf eq_refl).
Qed.

Lemma reachable_inv L s : sys_reachable L s -> inv L s.
Proof.
  induction 1 as [c Hs Hh Hi|L s o s' _ IH Hstep|L s o s' _ IH Hc]; [|by apply step_inv|by apply cancelled_inv].
  constructor; cbn [core locks frames]; rewrite ?Hh, ?Hi; try done. constructor.
Qed.

(* ------------------------------------------------------------------ *)
(** ** What the invariant gives *)

(** C1: in every reachable state, however starts, stops, restarts, exits,
    failures, cancellations and catalog reloads interleave, a component key with
    a generation number names one instance for ever, and a component has at most
    one live process besides the lost ones: those whose termination an exception
    or a cancellation abandoned while they were alive.  As long as none was
    abandoned, it has at most one live process. *)
Theorem one_live_process L s n1 n2 i1 i2 :
  sys_reachable L s -> heap (super (core s)) !! n1 = Some i1 -> heap (super (core s)) !! n2 = Some i2 ->
  key i1 = key i2 ->
  (running i1 = true -> running i2 = true -> n1 ∉ L -> n2 ∉ L -> n1 = n2) /\
  (generation i1 = generation i2 -> n1 = n2).
Proof.
  intros Hinv%reachable_inv H1 H2 Hk. split; [|by apply (iv_identity _ _ Hinv)].
  intros R1 R2 N1 N2. destruct (iv_alive _ _ Hinv n1 i1 H1 R1) as [C1|[(t1 & f1 & F1 & L1 & S1)|?]]; [| |done];
    destruct (iv_alive _ _ Hinv n2 i2 H2 R2) as [C2|[(t2 & f2 & F2 & L2 & S2)|?]]; [| |done| | |done].
  - congruence.
  - destruct (iv_stops _ _ Hinv t2 f2 n2 F2 S2) as (i & k & Hh & _ & _ & Hnone). congruence.
  - destruct (iv_stops _ _ Hinv t1 f1 n1 F1 S1) as (i & k & Hh & _ & _ & Hnone). congruence.
  - pose proof (iv_holds _ _ Hinv t1 f1 _ F1 L1). pose proof (iv_holds _ _ Hinv t2 f2 _ F2 L2). congruence.
Qed.

(** What is known of an instance [n] that a start of [k] installs in [c']. *)
Record spawned_for (k : pystr) (c c' : Core) (n : nat) (j : Instance) : Prop := {
  sf_key : key j = k;
  sf_current : dget (instances (super c')) k = Some n;
  sf_catalog : dget (component_objects (super c)) k = Some (component_object j);
  sf_wanted : stop_pending k (super c) = false;
  sf_next : generation j = (dget_or (generations c) k 0 + 1)%Z;
  sf_gone : gone k c;
}.

Lemma effect_spawns k c c' r n j : start_effect k c c' r ->
  heap (super c) !! n = None -> heap (super c') !! n = Some j -> spawned_for k c c' n j.
Proof.
  intros He Hn Hj.
  assert (forall c1, quiet c c1 -> heap (super c1) !! n = None) as Hq by (intros c1 Q; by apply (q_new _ _ Q)).
  destruct He as [r Hc _|m' obj' n' b _ Q _ _ _|n' e Q _ _ _|c1 gen e Hc1 -> Hc'|c1 c2 c3 now m obj gen pid r Hc1 Hgone Hk Hst Hobj -> Hc2 -> Hc3 _].
  - rewrite (Hq _ (proj1 Hc)) in Hj. done.
  - rewrite (Hq _ Q) in Hj. done.
  - rewrite (Hq _ Q) in Hj. done.
  - pose proof (Hq _ (proj1 Hc1)) as Hn1.
    rewrite (q_new _ _ (proj1 Hc') n Hn1) in Hj. done.
  - pose proof (q_new _ _ (proj1 Hc2) n (Hq _ (proj1 Hc1))) as Hn2.
    set (n' := fresh (dom (heap (super c2)))) in *. set (j' := new_instance _ _ _ _ _) in *.
    set (c3 := modify _ c2) in *.
    assert (heap (super c3) = <[n' := j']> (heap (super c2))) as Hheap by done.
    assert (n' = n) as ->.
    { destruct (decide (n' = n)); [done|]. rewrite (q_new _ _ (proj1 Hc3) n) in Hj; [done|].
      by rewrite Hheap, lookup_insert_ne. }
    destruct Hc1 as [Q1 I1], Hc3 as [Q3 I3].
    destruct (q_old _ _ Q3 n j') as (j3 & Hj3 & Hcomp & _ & Hgen & Ho); [by rewrite Hheap, lookup_insert_eq|].
    rewrite Hj in Hj3. injection Hj3 as <-. constructor.
    + unfold key. by rewrite Hcomp.
    + rewrite I3. cbn. by rewrite dget_dset, decide_True.
    + rewrite Ho, <- (q_objects _ _ Q1). exact Hobj.
    + by rewrite <- (q_pending _ _ Q1).
    + by rewrite Hgen, <- (q_generations _ _ Q1).
    + intros m' Hm'. rewrite <- (alive_quiet c c1 m' Q1). apply Hgone. congruence.
Qed.

Lemma spawned_for_calm k c c1 c' n j : calm c c1 -> spawned_for k c1 c' n j -> spawned_for k c c' n j.
Proof.
  intros [Q I] [H1 H2 H3 H4 H5 H6]. constructor; [done|done|..].
  - by rewrite <- (q_objects _ _ Q).
  - by rewrite <- (q_pending _ _ Q).
  - by rewrite <- (q_generations _ _ Q).
  - intros m Hm. rewrite <- (alive_quiet c c1 m Q). apply H6. congruence.
Qed.

(** A segment of a start, before the frame settles. *)
Definition start_runs (s : System) (t : nat) (k : pystr) (c' : Core) (r : py progress) : Prop :=
  (exists now me, frames s !! t = Some (FStart k None) /\ locks s !! k = None /\
     start_locked now me k (core s) = (c', r)) \/
  (exists m obj pc now me awaited, frames s !! t = Some (FStart k (Some (m, obj, pc))) /\
     start_resume now me k m obj pc awaited (core s) = (c', r)).

(** It spawns only when nothing of its component lives any more, but for what
    was lost. *)
Lemma start_runs_spawns L s t k c' r n j : inv L s -> start_runs s t k c' r ->
  heap (super (core s)) !! n = None -> heap (super c') !! n = Some j ->
  spawned_for k (core s) c' n j /\
  forall n' i', heap (super (core s)) !! n' = Some i' -> key i' = k -> running i' = false \/ n' ∈ L.
Proof.
  intros Hinv Hruns Hn Hj.
  assert (forall f, frames s !! t = Some f -> (holds f = Some k \/ (holds f = None /\ locks s !! k = None)) ->
    stops f = None -> start_effect k (core s) c' r -> spawned_for k (core s) c' n j /\
    forall n' i', heap (super (core s)) !! n' = Some i' -> key i' = k -> running i' = false \/ n' ∈ L) as Hfree.
  { intros f Hf Hl Hs He. pose proof (effect_spawns k _ _ _ n j He Hn Hj) as Hsp. split; [done|].
    intros n' i' Hi' Hk. destruct (running i') eqn:Hr; [|by left].
    assert (admitted L s t k) as Ha by (exists f; split; [done|]; split; [done|]; intros m Hm; congruence).
    destruct (admitted_alive L s t k n' i' Hinv Ha Hi' Hr Hk) as [Hcur|]; [|by right].
    pose proof (sf_gone _ _ _ _ _ Hsp n' Hcur) as Hd. unfold alive in Hd. rewrite Hi' in Hd. congruence. }
  destruct Hruns as [(now & me & Hf & Hl & Hr)|(m & obj & pc & now & me & awaited & Hf & Hr)].
  - apply (Hfree _ Hf); [by right|done|]. pose proof (ensure_effect 1 now me k (core s) (iv_sane _ _ Hinv)) as He.
    unfold start_locked in Hr. by rewrite Hr in He.
  - pose proof (iv_start _ _ Hinv t _ Hf) as [Hk Hpc]. destruct (stale_pc (Some (m, obj, pc))) eqn:Hst.
    + destruct pc as [|pc| | | | |]; try done.
      destruct (iv_stops _ _ Hinv t _ _ Hf eq_refl) as (i & k' & [= <-] & Hi & Hik & Hnone).
      pose proof (stale_effect now me k m obj pc awaited (core s) (iv_sane _ _ Hinv) Hk Hnone) as He. rewrite Hr in He.
      pose proof (stop_resume_spec now k pc (core s)) as Hd. pose proof (calm_stop_resume now k pc (core s)) as Hc.
      destruct He as [(pc' & _ & Hs)|[(e & _ & Hs)|(c1 & Hs & _ & He)]]; rewrite Hs in Hd, Hc; cbn [fst] in Hc.
      * rewrite (q_new _ _ (proj1 Hc) n Hn) in Hj. done.
      * rewrite (q_new _ _ (proj1 Hc) n Hn) in Hj. done.
      * pose proof (effect_spawns k c1 c' r n j He (q_new _ _ (proj1 Hc) n Hn) Hj) as Hsp.
        split; [exact (spawned_for_calm k _ c1 c' n j Hc Hsp)|]. intros n' i' Hi' Hk'.
        destruct (running i') eqn:Hrun; [|by left].
        destruct (iv_alive _ _ Hinv n' i' Hi' Hrun) as [Hcur|[(t' & f & Hf' & Hh & Hs')|?]]; [congruence| |by right].
        pose proof (iv_holds _ _ Hinv t' f _ Hf' Hh) as L1. pose proof (iv_holds _ _ Hinv t _ k Hf eq_refl) as L2.
        rewrite Hk' in L1. assert (t' = t) as -> by congruence. rewrite Hf in Hf'. injection Hf' as <-.
        cbn in Hs'. injection Hs' as <-. rewrite (alive_quiet _ _ _ (proj1 Hc)) in Hd. unfold alive in Hd.
        rewrite Hi' in Hd. congruence.
    + apply (Hfree _ Hf); [by left|by destruct pc|].
      pose proof (resume_effect now me k m obj pc awaited (core s) (iv_sane _ _ Hinv) Hk ltac:(by destruct pc)) as He.
      by rewrite Hr in He.
Qed.

Lemma core_settle_start k t p s : core (settle_start k t p s) = p.1.
Proof. by destruct p as [c [[n|m obj pc]|e]]. Qed.

Lemma core_settle_stop k t expected p s :
  heap (super (core (settle_stop k t expected p s))) = heap (super p.1).
Proof. by destruct p as [c [[pc|]|e]]. Qed.

(** Only starts create instances. *)
Lemma step_creates s o s' n j : step s o s' ->
  heap (super (core s)) !! n = None -> heap (super (core s')) !! n = Some j ->
  exists t k r, start_runs s t k (core s') r.
Proof.
  intros Hstep Hn.
  assert (forall c, elsewhere (core s) c -> heap (super c) !! n = Some j ->
    exists t k r, start_runs s t k c r) as Hno by (intros c E Hj; rewrite (el_new _ _ E n Hn) in Hj; done).
  assert (forall c, calm (core s) c -> heap (super c) !! n = Some j ->
    exists t k r, start_runs s t k c r) as Hcalm by (intros c Hc; apply Hno, calm_elsewhere, Hc).
  destruct Hstep; cbn [core set_frame with_core leave]; try congruence.
  - rewrite core_settle_start. destruct (start_locked now me k (core s)) as [c' r] eqn:Hr. intros _.
    exists t, k, r. left. eauto.
  - rewrite core_settle_start. destruct (start_resume now me k m obj pc awaited (core s)) as [c' r] eqn:Hr. intros _.
    exists t, k, r. right. eauto 10.
  - apply Hno, elsewhere_stop_request.
  - rewrite core_settle_stop. unfold stop_locked. destruct (match expected with Some _ => _ | None => _ end); [by cbn; rewrite Hn|].
    pose proof (stop_begin_spec k me (core s)) as [Q _]. pose proof (q_new _ _ Q n Hn) as Hn'.
    destruct (stop_begin k me (core s)) as [c [x|e]]; cbn in *; by rewrite Hn'.
  - rewrite core_settle_stop. pose proof (calm_stop_resume now k pc (core s)) as [Q _]. by rewrite (q_new _ _ Q n Hn).
  - intros Hj. exfalso. revert Hj.
    assert (heap (super (modify (update n0 (exit_process rc)) (core s))) = heap (update n0 (exit_process rc) (super (core s)))) as -> by done.
    rewrite heap_update, Hn. by case_decide.
  - apply Hcalm, calm_ready.
  - apply Hcalm, calm_watch_begin.
  - apply Hcalm, calm_watch.
  - apply Hcalm, calm_channel_failed.
  - apply Hcalm, calm_probe_ready.
  - apply Hcalm, calm_probe_timeout.
  - apply Hcalm, calm_terminate_resume.
  - by apply Hno.
Qed.

(** C2: whatever happens meanwhile, failures and cancellations included, Core
    spawns a process only for the object that the catalog holds for the component
    at that moment, while neither Core nor the component is being stopped, when
    every earlier process of the component has exited or its termination was
    abandoned; the new generation is numbered above all earlier ones and is the
    current one. *)
Theorem spawn_is_guarded L s o s' n j :
  sys_reachable L s -> step s o s' ->
  heap (super (core s)) !! n = None -> heap (super (core s')) !! n = Some j ->
  dget (instances (super (core s'))) (key j) = Some n /\
  dget (component_objects (super (core s))) (key j) = Some (component_object j) /\
  stopping (super (core s)) = false /\ key j ∉ stop_requests (super (core s)) /\
  forall n' i', heap (super (core s)) !! n' = Some i' -> key i' = key j ->
    (running i' = false \/ n' ∈ L) /\ (generation i' < generation j)%Z.
Proof.
  intros Hinv%reachable_inv Hstep Hn Hj. destruct (step_creates s o s' n j Hstep Hn Hj) as (t & k & r & Hruns).
  destruct (start_runs_spawns L s t k (core s') r n j Hinv Hruns Hn Hj) as [[<- H2 H3 H4 H5 _] H6].
  unfold stop_pending in H4. bool_simp. repeat (split; [done|]). intros n' i' Hi' Hk. split; [by eapply H6|].
  pose proof (iv_numbers _ _ Hinv n' i' Hi') as Hle. rewrite Hk in Hle. lia.
Qed.

(** A frame that settles leaves the others alone. *)
Lemma settle_start_other k t t' p s : t' ≠ t -> frames (settle_start k t' p s) !! t = frames s !! t.
Proof.
  intros Hne. destruct p as [c [[n|m obj pc]|e]]; cbn; by rewrite ?lookup_delete_ne, ?lookup_insert_ne.
Qed.

Lemma settle_stop_other k t t' expected p s : t' ≠ t -> frames (settle_stop k t' expected p s) !! t = frames s !! t.
Proof.
  intros Hne. destruct p as [c [[pc|]|e]]; cbn; by rewrite ?lookup_delete_ne, ?lookup_insert_ne.
Qed.

(** Only its own segments end a stop. *)
Lemma stop_ends s o s' t k expected p :
  frames s !! t = Some (FStop k expected p) -> step s o s' -> frames s' !! t = None ->
  (p = None /\ exists me, o = dropped k (core s) (stop_locked k expected me (core s)) /\
     s' = settle_stop k t expected (stop_locked k expected me (core s)) s) \/
  (exists pc now, p = Some pc /\ o = None /\ s' = settle_stop k t expected (stop_resume now k pc (core s)) s).
Proof.
  intros Hf Hstep Hgone.
  assert (forall (t0 : nat) f0, t0 ≠ t -> <[t0 := f0]> (frames s) !! t = None -> False) as Hins
    by (intros t0 f0 Hne; rewrite lookup_insert_ne by done; congruence).
  assert (forall (t0 : nat), t0 ≠ t -> delete t0 (frames s) !! t = None -> False) as Hdel
    by (intros t0 Hne; rewrite lookup_delete_ne by done; congruence).
  destruct Hstep as [s t0 k0 Hnone _|s t0 k0 now me Hf0 _|s t0 k0 m obj pc now me aw Hf0|s t0 k0 p0 Hf0 _|s t0 k0 Hf0
    |s t0 k0 ex now Hnone|s t0 k0 ex me Hf0 Hl|s t0 k0 ex pc now Hf0| | | | | | | | |];
    cbn [core set_frame with_core leave frames] in *; try congruence.
  - destruct (Hins t0 _ ltac:(congruence) Hgone).
  - rewrite settle_start_other in Hgone; congruence.
  - rewrite settle_start_other in Hgone; congruence.
  - destruct (Hdel t0 ltac:(congruence) Hgone).
  - destruct (Hdel t0 ltac:(congruence) Hgone).
  - destruct (Hins t0 _ ltac:(congruence) Hgone).
  - destruct (decide (t0 = t)) as [->|Hne]; [|rewrite settle_stop_other in Hgone; congruence].
    rewrite Hf in Hf0. injection Hf0 as -> -> ->. left. split; [done|]. by exists me.
  - destruct (decide (t0 = t)) as [->|Hne]; [|rewrite settle_stop_other in Hgone; congruence].
    rewrite Hf in Hf0. injection Hf0 as -> -> ->. right. by exists pc, now.
Qed.

(** What holds when [stop_component] returns or raises. *)
Lemma stop_returned L s o s' t k expected p :
  inv L s -> frames s !! t = Some (FStop k expected p) -> step s o s' -> frames s' !! t = None ->
  (p = None -> forall e, expected = Some e -> dget (instances (super (core s))) k = Some e) ->
  dget (instances (super (core s'))) k = None /\ locks s' !! k = None /\
  forall n i, heap (super (core s')) !! n = Some i -> key i = k -> running i = false \/ n ∈ lose o (core s) L.
Proof.
  intros Hinv Hf Hstep Hgone Hexp.
  assert (inv (lose o (core s) L) s') as Hinv' by (by apply step_inv).
  assert (dget (instances (super (core s'))) k = None /\ locks s' !! k = None) as [Hnone Hlock].
  { destruct (stop_ends s o s' t k expected p Hf Hstep Hgone) as [(-> & me & _ & ->)|(pc & now & -> & _ & ->)].
    - revert Hgone. unfold stop_locked.
      assert (match expected with Some e => negb (bool_decide (dget (instances (super (core s))) k = Some e)) | None => false end = false) as ->
        by (destruct expected as [e|]; [|done]; rewrite bool_decide_eq_true_2; [done|by apply Hexp]).
      pose proof (stop_begin_spec k me (core s)) as [_ Hs].
      destruct (dget (instances (super (core s))) k) as [n|] eqn:Hn.
      + destruct Hs as [Hinst _]. assert (dget (instances (super (stop_begin k me (core s)).1)) k = None) as Hd.
        { rewrite Hinst, dget_ddel by apply Hinv. by rewrite decide_True. }
        destruct (stop_begin k me (core s)) as [c' [[[n' b]|]|e]]; cbn; [by rewrite lookup_insert_eq|..];
          intros _; (split; [exact Hd|by rewrite lookup_delete_eq]).
      + rewrite Hs. cbn. intros _. by rewrite lookup_delete_eq.
    - destruct (iv_stops _ _ Hinv t _ _ Hf eq_refl) as (i & k' & [= <-] & Hi & Hk & Hnone).
      revert Hgone. pose proof (calm_stop_resume now k pc (core s)) as [_ Hc].
      destruct (stop_resume now k pc (core s)) as [c' [[pc'|]|e]]; cbn [settle_stop]; [cbn; by rewrite lookup_insert_eq|..];
        intros _; cbn [core leave with_core locks]; rewrite lookup_delete_eq; (split; [|done]); by rewrite <- Hnone, <- Hc. }
  split; [done|]. split; [done|]. intros n i Hi Hk. destruct (running i) eqn:Hr; [|by left].
  destruct (iv_alive _ _ Hinv' n i Hi Hr) as [Hc|[(t' & f & Hf' & Hh & _)|?]]; [congruence| |by right].
  pose proof (iv_holds _ _ Hinv' t' f _ Hf' Hh). congruence.
Qed.


(** A stop never hangs on a process that has exited: each wake-up of
    [stop_component] either ends it, because the process is dead, or has
    signalled it and waits on; it first sends [SIGTERM] and waits two seconds,
    and when they are over it sends [SIGKILL]. *)
Theorem stop_escalates now k pc c :
  (alive (stop_instance pc) (super c) = false -> exists c' r, stop_resume now k pc c = (c', r) /\
     stop_result match pc with Cancelling _ a => a | Terminating _ a _ => a end r) /\
  (alive (stop_instance pc) (super c) = true -> exists c' animate,
     match pc with Cancelling _ a => a | Terminating _ a _ => a end = animate /\
     stop_resume now k pc c = (c', Ok (Some (Terminating (stop_instance pc) animate
       match pc with
       | Cancelling _ _ => Signalled (now + seconds 2)%Z
       | Terminating _ _ (Signalled deadline) => if (now <? deadline)%Z then Signalled deadline else Killed
       | Terminating _ _ Killed => Killed
       end)))).
Proof.
  destruct pc as [n animate|n animate t]; cbn [stop_resume stop_instance].
  - unfold stop_close.
    match goal with |- context [terminate_begin now n ?c0] => set (c1 := c0) end.
    assert (calm c c1) as [Q _].
    { eapply calm_trans; [apply (calm_close n §"PROVIDER_STOPPED")|].
      eapply calm_trans; [by apply (calm_update n (set_ready false))|]. apply (calm_forget k). }
    rewrite <- (alive_quiet c c1 n Q). unfold terminate_begin. split; intros Ha; rewrite Ha.
    + cbn [seg_bind]. destruct (stop_done_spec n animate c1) as (c' & r & H & Hr). by exists c', r.
    + rewrite (signal_live n SIGTERM _ c1 Ha). cbn [seg_bind]. by eexists _, _.
  - unfold terminate_resume. split; intros Ha; rewrite Ha; cbn [negb].
    + cbn [seg_bind]. destruct (stop_done_spec n animate c) as (c' & r & H & Hr). by exists c', r.
    + destruct t as [d|]; [|by eexists _, _]. destruct (now <? d)%Z; [by eexists _, _|].
      rewrite (signal_live n SIGKILL _ c Ha). cbn [seg_bind]. by eexists _, _.
Qed.

(* ------------------------------------------------------------------ *)
(** ** What [ensure_ready] returns *)

(** The instances that are ready stay so. *)
Definition steady (c c' : Core) : Prop := forall m i, heap (super c) !! m = Some i ->
  exists i', heap (super c') !! m = Some i' /\ ready i' = ready i.

Lemma steady_trans c1 c2 c3 : steady c1 c2 -> steady c2 c3 -> steady c1 c3.
Proof. intros H12 H23 m i (i2 & H2 & E2)%H12. destruct (H23 m i2 H2) as (i3 & H3 & E3). exists i3. by rewrite E3. Qed.

Lemma steady_heap c c' : heap (super c') = heap (super c) -> steady c c'.
Proof. intros E m i Hi. exists i. by rewrite E. Qed.

Lemma steady_update n f c : (forall i, ready (f i) = ready i) -> steady c (modify (update n f) c).
Proof.
  intros Hf m i Hi. assert (heap (super (modify (update n f) c)) = heap (update n f (super c))) as -> by done.
  rewrite heap_update, Hi. case_decide; [|by exists i]. exists (f i). by rewrite Hf.
Qed.

Lemma lease_heap i infos s : heap (foldl (lease_preferred i) s infos) = heap s.
Proof.
  revert s; induction infos as [|info infos IH]; intros s; cbn [foldl]; [done|]. rewrite IH.
  unfold lease_preferred. destruct (_ && _); [|done]. by destruct (Roles.acquire _ _ _ _) as [[r l]|e].
Qed.

Lemma steady_schedule n c : steady c (modify (_schedule_idle_task n) c).
Proof.
  assert (steady c (modify (fun s => s) c)) as Hid by (by apply steady_heap).
  unfold modify in *. unfold _schedule_idle_task. destruct (heap (super c) !! n) as [i|]; [|exact Hid].
  destruct (_ || _); [exact Hid|].
  set (t := fresh _). set (s1 := set_idle_tasks _ (super c)).
  assert (steady c (set_super (update n (set_idle_task (Some t)) s1) c)) as Harm.
  { eapply steady_trans; [by apply (steady_heap c (set_super s1 c))|].
    by apply (steady_update n (set_idle_task (Some t)) (set_super s1 c)). }
  destruct (idle_task i) as [t'|]; [|exact Harm]. destruct (task_finished t' _); [exact Harm|exact Hid].
Qed.

Lemma steady_became_ready n c : steady c (on_world (_component_became_ready n) c).1.
Proof.
  unfold on_world, _component_became_ready.
  destruct (_lease_preferred_roles n (sup (world c))) as [s|e] eqn:Hl; [|by apply steady_heap].
  assert (heap s = heap (super c)) as Hs.
  { revert Hl. unfold _lease_preferred_roles. destruct (heap (sup (world c)) !! n) as [i|]; [|by intros [= <-]].
    destruct (negb _); [by intros [= <-]|]. destruct (Roles.list_role_info _) as [infos|e]; [|done].
    cbn [rbind]. intros [= <-]. apply lease_heap. }
  assert (steady c (set_super (_schedule_idle_task n s) c)) as Hsched.
  { eapply steady_trans; [by apply (steady_heap c (set_super s c))|]. apply (steady_schedule n (set_super s c)). }
  cbn zeta. destruct (heap (sup (set_sup _ (world c))) !! n) as [i|]; [|exact Hsched].
  destruct (_provides_display_output (component i)); [|exact Hsched].
  unfold _schedule_display_recovery. by destruct (_ || _).
Qed.

Lemma steady_transition phase m gen rc msg c : steady c (_emit_component_transition phase m gen rc msg c).1.
Proof.
  apply steady_heap. unfold _emit_component_transition, on_world.
  pose proof (broadcast_emits §"msys.lifecycle.transition" (transition_payload c phase m gen rc msg) §"msys.core" (world c)) as [Hs _].
  destruct (broadcast _ _ _ (world c)) as [w r]. cbn in *. unfold super. cbn. by rewrite Hs.
Qed.

Lemma deliver_spec n i c : heap (super c) !! n = Some i -> steady c (deliver n i c).1 /\
  forall m, (deliver n i c).2 = Ok m -> m = Ready n.
Proof.
  intros Hi. unfold deliver. pose proof (steady_became_ready n c) as H1.
  destruct (on_world (_component_became_ready n) c) as [c1 [u|e]]; cbn [seg_bind fst snd] in *; [|done].
  set (c2 := set_launched _ c1). pose proof (steady_transition §"launched" (component i) (generation i) None [] c2) as H2.
  destruct (_is_foreground_app (component i) && _); cbn [seg_bind fst snd]; [|by split; [|intros m [= <-]]].
  assert (steady c (_emit_component_transition §"launched" (component i) (generation i) None [] c2).1) as H3.
  { eapply steady_trans; [|exact H2]. eapply steady_trans; [exact H1|]. by apply steady_heap. }
  destruct (_emit_component_transition _ _ _ _ _ c2) as [c3 [u3|e]]; cbn [seg_bind fst snd] in *; (split; [exact H3|]);
    intros m; by intros [= <-].
Qed.

(** What a segment of [ensure_ready] returns: a ready and current instance. *)
Definition ready_result (k : pystr) (p : segment ready_progress) : Prop :=
  forall n, p.2 = Ok (Ready n) ->
    (exists i, heap (super p.1) !! n = Some i /\ ready i = true) /\ dget (instances (super p.1)) k = Some n.

Lemma ready_check_result replaced now k n deadline c :
  (forall m c, ready_result k (replaced m c)) -> ready_result k (ready_check replaced now k n deadline c).
Proof.
  intros Hrep. unfold ready_check, ready_decide. destruct (heap (super c) !! n) as [i|] eqn:Hi; [|done].
  destruct (_ && _); [done|]. destruct (ready i && is_current (super c) k n) eqn:Hr.
  - intros m Hm. destruct (deliver_spec n i c Hi) as [Hs Heq]. injection (Heq _ Hm) as ->. bool_simp.
    destruct (Hs n i Hi) as (i' & Hi' & Hri). pose proof (calm_deliver n i c) as [_ Hinst]. split; [exists i'; split; [done|congruence]|].
    rewrite Hinst. unfold is_current in *. by bool_simp.
  - destruct (dget _ k) as [other|]; [|done]. destruct (negb _); [apply Hrep|].
    destruct (exit_status i); [|done]. match goal with |- context [if ?b then _ else _] => by destruct b end.
Qed.

Lemma ready_rounds_result fuel now k n c : ready_result k (ready_rounds fuel now k n c).
Proof.
  revert n c; induction fuel as [|fuel IH]; intros n c; cbn [ready_rounds]; [done|].
  apply ready_check_result. intros. apply IH.
Qed.

Lemma ready_resume_result now k pc started c : ready_result k (ready_resume now k pc started c).
Proof.
  destruct pc; cbn [ready_resume].
  - destruct started; [apply ready_rounds_result|done].
  - apply ready_check_result. intros. apply ready_rounds_result.
  - destruct (dget _ k); [|done]. destruct (negb _); [apply ready_rounds_result|done].
  - destruct started as [n|]; [|done]. destruct (heap _ !! n ≫= _); [done|apply ready_rounds_result].
Qed.

(** C27: an [ensure_ready] that returns keeps the promise the callers rely on
    ([Dispatch.ActivationLaws]): the instance it returns is, at that moment,
    ready, an instance of the component it was asked for, and its current one,
    whatever happened to the instance it waited for first. *)
Theorem ensure_ready_refines_activation L s now k pc started c' n :
  sys_reachable L s -> ready_resume now k pc started (core s) = (c', Ok (Ready n)) ->
  exists i, heap (super c') !! n = Some i /\ key i = k /\ ready i = true /\ dget (instances (super c')) k = Some n.
Proof.
  intros Hinv%reachable_inv Hr. pose proof (ready_resume_result now k pc started (core s)) as Hres.
  pose proof (calm_ready now k pc started (core s)) as Hc. rewrite Hr in Hres, Hc. cbn [fst] in Hc.
  destruct (Hres n eq_refl) as [(i & Hi & Hready) Hcur]. cbn [fst] in *.
  destruct (iv_current _ _ (calm_inv L s c' Hc Hinv) k n Hcur) as (i' & Hi' & Hk). cbn in Hi'. exists i.
  split; [done|]. split; [congruence|done].
Qed.

(** A launch that cannot be prepared, for example because the executable of the
    package is missing, is announced to the user but not counted: no failure is
    recorded, no delay is imposed and the end of the launch is not announced. *)
Theorem unprepared_launch_is_not_accounted now me k m obj c e :
  let gen := (dget_or (generations c) k 0 + 1)%Z in
  let c0 := set_generations (dset (generations c) k gen) c in
  (_emit_component_transition §"launching" m gen None [] c0).2 = Ok tt ->
  (forall c, prepare c m obj gen = Raise e) -> _is_foreground_app m = true ->
  exists c', spawn now me k m obj c = (c', Raise e) /\ super c' = super c /\
    spawn_backoff_until c' = spawn_backoff_until c /\ spawn_retry_tasks c' = spawn_retry_tasks c /\
    world c' = (broadcast §"msys.lifecycle.transition"
      (transition_payload c0 §"launching" m gen None []) §"msys.core" (world c)).1.
Proof.
  intros gen c0 Hok Hprep Hfg. unfold spawn. fold gen. fold c0. rewrite Hfg. unfold _emit_component_transition, on_world in *.
  pose proof (broadcast_emits §"msys.lifecycle.transition" (transition_payload c0 §"launching" m gen None []) §"msys.core" (world c0)) as [Hs _].
  change (world c0) with (world c) in *.
  destruct (broadcast §"msys.lifecycle.transition" _ §"msys.core" (world c)) as [w r]. cbn [fst snd] in *. subst r.
  cbn [seg_bind]. rewrite Hprep. exists (set_world w c0). split; [done|]. split; [exact Hs|done].
Qed.
End Laws.

(* ------------------------------------------------------------------ *)
(** ** The bounds on recursion *)

Section Again.
Context (f g : Core -> segment progress) (now : Z) (me : option nat) (k : pystr) (m : Manifest.Component) (obj : nat).

(** The catalog holds the object the start has fetched. *)
Definition fetched (c : Core) : Prop := dget (component_objects (super c)) k = Some obj.

Lemma fetched_quiet c c' : quiet c c' -> fetched c -> fetched c'.
Proof. intros Q. unfold fetched. by rewrite (q_objects _ _ Q). Qed.

Lemma recheck_again c : fetched c -> recheck f now me k m obj c = recheck g now me k m obj c.
Proof. intros Hf. unfold recheck. by rewrite bool_decide_eq_true_2. Qed.

Lemma order_again deps c : fetched c -> order_after f now me k m obj deps c = order_after g now me k m obj deps c.
Proof.
  intros Hf. induction deps as [|d deps IH]; cbn [order_after]; [by apply recheck_again|].
  destruct (current (super c) d) as [i|]; [|done]. by destruct (_ || _).
Qed.

Lemma require_again deps c : fetched c -> require f now me k m obj deps c = require g now me k m obj deps c.
Proof. intros Hf. destruct deps; cbn [require]; [by apply order_again|done]. Qed.

Lemma after_delay_again c : fetched c -> after_delay f now me k m obj c = after_delay g now me k m obj c.
Proof. intros Hf. unfold after_delay. by rewrite require_again. Qed.

Lemma delay_again n c : fetched c -> delay_exited f now me k m obj n c = delay_exited g now me k m obj n c.
Proof. intros Hf. unfold delay_exited. by rewrite after_delay_again. Qed.

Lemma account_again n rc c : fetched c -> account_exit f now me k m obj n rc c = account_exit g now me k m obj n rc c.
Proof.
  intros Hf. unfold account_exit. destruct (heap (super c) !! n) as [i|]; [|by apply after_delay_again].
  destruct (_component_should_restart _ _); [|by apply delay_again].
  pose proof (calm_record_restart n now c) as [Q _]. destruct (_record_restart_failure n now (super c)) as [s [d|]]; [|done].
  cbn zeta. apply delay_again. exact (fetched_quiet _ _ Q Hf).
Qed.

Lemma replace_again c : fetched c -> replace_existing f now me k m obj c = replace_existing g now me k m obj c.
Proof.
  intros Hf. unfold replace_existing.
  destruct (dget (instances (super c)) k) as [n|]; [|by apply require_again].
  destruct (heap (super c) !! n) as [i|]; [|by apply require_again].
  destruct (process i) as [p|]; [|by apply require_again]. destruct (returncode p) as [rc|].
  - destruct (finalized i); [by apply delay_again|].
    pose proof (calm_finalize_begin now n c) as [Q _].
    destruct (finalize_begin now n c) as [c1 [[o|]|e]]; cbn [seg_bind]; [done| |done].
    apply account_again. exact (fetched_quiet _ _ Q Hf).
  - destruct (bool_decide _); [done|]. pose proof (stop_begin_spec k None c) as [Q _].
    destruct (stop_begin k None c) as [c1 [[[n' b]|]|e]]; cbn [seg_bind]; [done| |done].
    apply require_again. exact (fetched_quiet _ _ Q Hf).
Qed.
End Again.

(** A start recurses at most once: within the segment that fetched the
    component from the catalog it never finds another object there, so the
    recursion of [_ensure_started_locked] ends, and any bound but zero on it
    gives the same result. *)
Theorem ensure_fuel fuel now me k c :
  _ensure_started_locked (S fuel) now me k c = start_locked now me k c.
Proof.
  unfold start_locked. cbn [_ensure_started_locked]. destruct (stop_pending k _); [done|].
  destruct (dget (components (super c)) k) as [m|]; [|done].
  destruct (dget (component_objects (super c)) k) as [obj|] eqn:Ho; [|done].
  destruct (bool_decide _); [done|]. destruct (serving k obj c); [done|].
  destruct (_display_outage_blocks _ _); [done|]. destruct (_ <? _)%Z; [done|]. by apply replace_again.
Qed.

Lemma ready_check_again f g now k n deadline c :
  (forall m, dget (instances (super c)) k = Some m -> m ≠ n -> f m c = g m c) ->
  ready_check f now k n deadline c = ready_check g now k n deadline c.
Proof.
  intros Hfg. unfold ready_check, ready_decide. destruct (heap (super c) !! n) as [i|]; [|done].
  destruct (dget (instances (super c)) k) as [m|]; [|done].
  destruct (bool_decide (m = n)) eqn:Hm; cbn [negb]; [done|]. rewrite (Hfg m); [done..|]. by apply bool_decide_eq_false in Hm.
Qed.

(** [ensure_ready] moves to another instance at most once in a segment. *)
Theorem ready_fuel fuel now k n c : ready_rounds (S (S fuel)) now k n c = ready_loop now k n c.
Proof.
  unfold ready_loop. cbn [ready_rounds]. apply ready_check_again. intros m Hm _. destruct fuel; cbn [ready_rounds];
    apply ready_check_again; intros m' Hm'; congruence.
Qed.
End Safety.

(* ------------------------------------------------------------------ *)
(** ** Witnesses *)

(** Sockets that accept every packet, signals that are always delivered,
    launches prepared on the sample host, and processes numbered by their
    generation. *)
#[local] Instance plain_platform : Platform :=
  {| prepare := fun c m obj gen =>
       @Launch.prepare _ _ Launch.sample_host Launch.sample_session (super c) m obj gen None; popen := fun _ _ gen _ => Ok (100 + gen)%Z; killpg := fun _ _ _ => Ok tt |}.
#[local] Instance plain_presentation : Presentation :=
  {| wall_clock_ms := fun _ => 0%Z; localized_title := fun _ m => Manifest.key m |}.
#[local] Instance plain_platform_laws : PlatformLaws.
Proof. constructor. intros. reflexivity. Qed.

Definition plain_app : Manifest.Component := display_component §"app" §"manual" [] [].
Definition plain_catalog : dict pystr Manifest.Component := [(§"p:app", plain_app)].

Definition plain_registry : Roles.RoleRegistry :=
  match Roles.make plain_catalog [] [] with Ok r => r | Raise _ => empty_registry end.

Definition plain_core : Core :=
  {| world := {| sup :=
       {| heap := ∅; instances := []; components := plain_catalog; component_objects := [(§"p:app", 0%nat)];
          role_registry := plain_registry; service_catalog := Services.make plain_catalog;
          catalog_epoch := 0; next_request_id := 1; stopping := false; stop_requests := ∅;
          foreground_stack := []; backgrounded_components := ∅; failure_history := [];
          quarantined := ∅; quarantine_times := []; recovery_allowed := None; idle_tasks := ∅; futures := ∅ |};
       sent := []; spawned := [] |};
     startup := []; generations := []; spawn_backoff_until := [];
     spawn_retry_tasks := []; retries_done := ∅; launched := ∅; display_outage := None;
     next_display_outage_id := 1; display_fault := None; next_display_fault_id := 1 |}.

Definition booted : System := {| core := plain_core; locks := ∅; frames := ∅ |}.
Definition asked : System := set_frame 0 (FStart §"p:app" None) booted.
Definition started : System := settle_start §"p:app" 0 (start_locked 5%Z None §"p:app" (core asked)) asked.
Definition stop_asked : System :=
  set_frame 1 (FStop §"p:app" None None) (with_core (stop_request 6%Z §"p:app" None (core started)).1 started).
Definition stop_begun : System :=
  settle_stop §"p:app" 1 None (stop_locked §"p:app" None None (core stop_asked)) stop_asked.
Definition signalled : System :=
  settle_stop §"p:app" 1 None (stop_resume 7%Z §"p:app" (Cancelling 0 false) (core stop_begun)) stop_begun.
Definition exited : System := with_core (modify (update 0 (exit_process 0)) (core signalled)) signalled.
Definition stopped : System :=
  settle_stop §"p:app" 1 None
    (stop_resume 8%Z §"p:app" (Terminating 0 false (Signalled (7 + seconds 2)%Z)) (core exited)) exited.
Definition asked_again : System := set_frame 2 (FStart §"p:app" None) stopped.
Definition restarted : System :=
  settle_start §"p:app" 2 (start_locked 9%Z None §"p:app" (core asked_again)) asked_again.

Lemma booted_reachable : sys_reachable ∅ booted.
Proof.
  apply sr_init; [|reflexivity..]. split.
  - apply (Roles.make_wf plain_catalog [] []). vm_compute. reflexivity.
  - intros k m. cbn. case_decide as Hk; [|discriminate]. intros [= <-]. subst k. reflexivity.
Qed.

Lemma started_reachable : sys_reachable ∅ started.
Proof.
  eapply (sr_keeps _ asked); [eapply (sr_keeps _ booted); [apply booted_reachable| |]| |].
  - by apply sy_start.
  - reflexivity.
  - by apply sy_start_lock.
  - vm_compute. reflexivity.
Qed.

Lemma signalled_reachable : sys_reachable ∅ signalled.
Proof.
  eapply (sr_keeps _ stop_begun); [eapply (sr_keeps _ stop_asked); [eapply (sr_keeps _ started); [apply started_reachable| |]| |]| |].
  - apply sy_stop. vm_compute. reflexivity.
  - reflexivity.
  - apply sy_stop_lock; vm_compute; reflexivity.
  - vm_compute. reflexivity.
  - apply sy_stop_go. vm_compute. reflexivity.
  - reflexivity.
Qed.

Lemma exited_reachable : sys_reachable ∅ exited.
Proof. exact (sr_step ∅ signalled None _ signalled_reachable (sy_exit signalled 0 0)). Qed.

Lemma stopped_step : step exited None stopped.
Proof. apply sy_stop_go. vm_compute. reflexivity. Qed.

Lemma asked_again_reachable : sys_reachable ∅ asked_again.
Proof.
  eapply (sr_keeps _ stopped); [exact (sr_step ∅ exited None _ exited_reachable stopped_step)| |reflexivity].
  apply sy_start; vm_compute; reflexivity.
Qed.

Lemma restarted_step : step asked_again None restarted.
Proof.
  assert (dropped §"p:app" (core asked_again) (start_locked 9%Z None §"p:app" (core asked_again)) = None) as Hd
    by (vm_compute; reflexivity).
  unfold restarted. rewrite <- Hd. apply sy_start_lock; vm_compute; reflexivity.
Qed.

(** The instance [n] of a system whose heap holds it. *)
Definition instance_at (n : nat) (s : System) : Instance :=
  match heap (super (core s)) !! n with Some i => i | None => new_instance 0 plain_app 0 0 0 end.

Lemma one_live_process_witness :
  generation (instance_at 0 restarted) = 1%Z /\ generation (instance_at 1 restarted) = 2%Z /\
  ~ (running (instance_at 0 restarted) = true /\ running (instance_at 1 restarted) = true).
Proof.
  split; [vm_compute; reflexivity|]. split; [vm_compute; reflexivity|]. intros [R0 R1].
  pose proof (sr_step ∅ asked_again None restarted asked_again_reachable restarted_step) as Hr. cbn [lose] in Hr.
  destruct (one_live_process ∅ restarted 0%nat 1%nat (instance_at 0 restarted) (instance_at 1 restarted) Hr) as [H _];
    [vm_compute; reflexivity..|].
  discriminate (H R0 R1 (not_elem_of_empty 0%nat) (not_elem_of_empty 1%nat)).
Defined.

(** The stop of generation 1 is cancelled after it has signalled the process, as
    the reader of a display provider is, by the end of that provider, while it
    stops the display's clients; then the component is started again. *)
Definition abandoned : System := leave §"p:app" 1 (with_core (stop_finally §"p:app" (core signalled)) signalled).
Definition asked_after : System := set_frame 2 (FStart §"p:app" None) abandoned.
Definition doubled : System :=
  settle_start §"p:app" 2 (start_locked 9%Z None §"p:app" (core asked_after)) asked_after.

Lemma cancelled_stop_loses_process :
  sys_reachable {[0%nat]} doubled /\
  key (instance_at 0 doubled) = key (instance_at 1 doubled) /\
  running (instance_at 0 doubled) = true /\ running (instance_at 1 doubled) = true.
Proof.
  split; [|split_and!; vm_compute; reflexivity].
  assert (frames signalled !! 1%nat = Some (FStop §"p:app" None (Some (Terminating 0 false (Signalled (7 + seconds 2)%Z))))) as Hf
    by (vm_compute; reflexivity).
  pose proof (sr_cancel ∅ signalled _ abandoned signalled_reachable (ca_stop signalled 1 _ _ _ Hf)) as Ha.
  assert (lose (Some 0%nat) (core signalled) ∅ = {[0%nat]}) as Hl by (vm_compute; reflexivity).
  cbn [stop_instance] in Ha. rewrite Hl in Ha.
  eapply (sr_keeps _ asked_after); [eapply (sr_keeps _ abandoned); [exact Ha| |reflexivity]| |].
  - apply sy_start; vm_compute; reflexivity.
  - apply sy_start_lock; vm_compute; reflexivity.
  - vm_compute. reflexivity.
Qed.

Lemma spawn_is_guarded_witness :
  dget (instances (super (core restarted))) §"p:app" = Some 1%nat /\
  running (instance_at 0 asked_again) = false /\ (generation (instance_at 0 asked_again) < 2)%Z.
Proof.
  destruct (spawn_is_guarded ∅ asked_again None restarted 1%nat (instance_at 1 restarted)
    asked_again_reachable restarted_step) as (Hcur & _ & _ & _ & Hold); [vm_compute; reflexivity..|].
  split; [exact Hcur|]. destruct (Hold 0%nat (instance_at 0 asked_again)) as [[Hd|Hd] Hg]; [vm_compute; reflexivity..| |].
  - split; [exact Hd|exact Hg].
  - destruct (not_elem_of_empty 0%nat Hd).
Defined.


(** The application ignores [SIGTERM]: after two seconds it is killed. *)
Lemma stop_escalates_witness :
  exists c', stop_resume (10 + seconds 2)%Z §"p:app" (Terminating 0 false (Signalled (7 + seconds 2)%Z))
    (core signalled) = (c', Ok (Some (Terminating 0 false Killed))).
Proof.
  destruct (stop_escalates (10 + seconds 2)%Z §"p:app" (Terminating 0 false (Signalled (7 + seconds 2)%Z))
    (core signalled)) as [_ H].
  destruct H as (c' & animate & <- & Hc); [vm_compute; reflexivity|]. exists c'. exact Hc.
Defined.

Lemma ensure_ready_refines_activation_witness :
  exists i, heap (super (core started)) !! 0%nat = Some i /\ ready i = true.
Proof.
  destruct (ready_resume 6%Z §"p:app" AwaitFirst (Ok 0%nat) (core started)) as [c' r] eqn:Hr.
  destruct (ensure_ready_refines_activation ∅ started 6%Z §"p:app" AwaitFirst (Ok 0%nat) c' 0%nat) as (i & Hi & _ & Hready & _).
  - exact started_reachable.
  - rewrite Hr. f_equal. apply (f_equal snd) in Hr. vm_compute in Hr. by rewrite <- Hr.
  - assert (heap (super c') = heap (super (core started))) as Heq.
    { apply (f_equal fst) in Hr. cbn [fst] in Hr. subst c'. apply map_eq. intros m.
      destruct m as [|m]; vm_compute; [reflexivity|]. destruct m; reflexivity. }
    exists i. rewrite <- Heq. by split.
Defined.
End LifecycleSafety.
