(* ===== verification/Execution.v ===== *)
(** * Running the program of a component ([msys_core/msysd.py], [msys_core/isolation.py])

    The part of a spawn between the launch that [Launch] prepared and the running
    process: the isolation plan, its variables, [subprocess.Popen] with the
    child-side hook, and what all this makes of [Lifecycle.spawn]. *)

From Stdlib Require Import ZArith.
From stdpp Require Import gmap.
From S2P Require Export Json Protocol HostProbe LifecycleSafety.

Module Execution.
Import Json Msysd Calls Foreground Restart Messages Outage Lifecycle LifecycleSafety.

(** What is asked of [Popen]; the hook is the [IsolationPreexec] of a
    specification. *)
Record request := {
  program : list pystr;
  working_directory : option pystr;
  child_environment : dict pystr pystr;
  child_hook : option Isolation.IsolationSpec;
}.

(** [fork] and what the child does before its hook may fail, and so may the
    execution of the program; a child that runs has a process id. *)
Class Forks := {
  fork_fault : Core -> request -> option exn;
  exec_fault : Core -> request -> option exn;
  child_pid : Core -> request -> Z;
}.

(** Any exception of the hook, in the parent. *)
Definition hook_error : exn := Exn SubprocessError §"Exception occurred in preexec_fn.".

Section Execution.
Context `{JsonLib} `{Isolation.Kernel} `{Forks}.

(** [IsolationLaunchPlan.environment] *)
Definition plan_environment (p : Isolation.IsolationLaunchPlan) : py (dict pystr pystr) :=
  summary ← dumps (Isolation.plan_summary p);
  Ok [(§"MSYS_ISOLATION_PROFILE", Isolation.profile (Isolation.plan_spec p));
      (§"MSYS_ISOLATION_FAILURE_POLICY", Isolation.failure (Isolation.plan_spec p));
      (§"MSYS_ISOLATION_DEGRADED", if Isolation.is_nil (Isolation.skipped p) then §"0" else §"1");
      (§"MSYS_ISOLATION_JSON", summary)].

Definition plan_request (m : Manifest.Component) (plan : Isolation.IsolationLaunchPlan)
    (env : dict pystr pystr) : py request :=
  variables ← plan_environment plan;
  Ok {| program := Isolation.argv plan; working_directory := Manifest.cwd m;
        child_environment := dupdate env variables; child_hook := Isolation.preexec_spec plan |}.

(** The history of the child up to the execution of its program, and the
    process id. *)
Definition start_child (c : Core) (r : request) : list Isolation.event * py Z :=
  match fork_fault c r with
  | Some e => ([], Raise e)
  | None =>
      let '(history, hook) :=
        match child_hook r with
        | Some spec => Isolation.preexec spec []
        | None => ([], Ok tt)
        end in
      (history,
       match hook with
       | Raise _ => Raise hook_error
       | Ok _ => match exec_fault c r with Some e => Raise e | None => Ok (child_pid c r) end
       end)
  end.

(** From [prepare_isolation_launch] to [Popen]. *)
Definition run_isolated (capabilities : Isolation.IsolationCapabilities) (c : Core) (m : Manifest.Component)
    (launch : list pystr * dict pystr pystr) : py Z :=
  plan ← Isolation.prepare_isolation_launch (Manifest.isolation m) launch.1 capabilities;
  r ← plan_request m plan launch.2;
  (start_child c r).2.

(** The operating system that [Lifecycle] starts processes with. *)
Definition isolating (capabilities : Isolation.IsolationCapabilities)
    (prepare : Core -> Manifest.Component -> nat -> Z -> py (list pystr * dict pystr pystr))
    (killpg : Core -> Z -> signal -> py unit) : Lifecycle.Platform :=
  {| Lifecycle.prepare := prepare; popen := fun c m _ launch => run_isolated capabilities c m launch;
     Lifecycle.killpg := killpg |}.
End Execution.

(* ------------------------------------------------------------------ *)
(** ** What runs, runs isolated *)

Section Theorems.
Context {lib : PyLib} {repr : PyRepr} {chan : Channel} {pres : Presentation}.
Context {json : JsonLib} {kernel : Isolation.Kernel} {forks : Forks}.

(** The program as it is executed. *)
Definition wrapped (spec : Isolation.IsolationSpec) (capabilities : Isolation.IsolationCapabilities)
    (program executed : list pystr) : Prop :=
  if bool_decide (Isolation.mode (Isolation.seccomp spec) = §"helper")
  then exists helper, Isolation.seccomp_helper capabilities = Some helper /\
         executed = [helper; §"--profile"; Isolation.seccomp_profile (Isolation.seccomp spec); §"--"] ++ program
  else executed = program.

(** A fail-closed plan is the request itself. *)
Lemma fail_closed_plan spec av c p : Isolation.failure spec = Isolation.FAIL_CLOSED ->
  Isolation.prepare_isolation_launch spec av c = Ok p ->
  Isolation.effective p = spec /\ Isolation.skipped p = [] /\ Isolation.plan_spec p = spec.
Proof.
  intros Hf Hp. pose proof (Isolation.prepare_outcome spec av c) as Ho. rewrite Hp in Ho.
  destruct Ho as (Hs & Hm & Hps & He). specialize (Hm Hf). rewrite Hm in Hs. split_and!; [|done|done].
  rewrite He. by apply Isolation.missing_nil.
Qed.

(** No hook is installed only when there is nothing for it to do. *)
Lemma plan_hook spec av c p : Isolation.prepare_isolation_launch spec av c = Ok p ->
  Isolation.preexec_spec p = Some (Isolation.effective p) \/
  Isolation.preexec_spec p = None /\ Isolation.plan_calls (Isolation.effective p) = [].
Proof.
  unfold Isolation.prepare_isolation_launch. intros ([ns sk] & _ & Hp)%bind_Ok. apply bind_Ok in Hp as (sk2 & _ & Hp).
  apply bind_Ok in Hp as (sk3 & _ & Hp). apply bind_Ok in Hp as ([lim sk4] & _ & Hp).
  apply bind_Ok in Hp as ([[[eff hlp] av'] sk5] & _ & [= <-]). cbn [Isolation.preexec_spec Isolation.effective].
  match goal with |- context [if ?b then _ else _] => destruct b eqn:Hb end; [by left|]. right. split; [done|].
  cbn [Isolation.namespaces Isolation.no_new_privs Isolation.dumpable Isolation.rlimits] in Hb.
  rewrite !orb_false_iff in Hb. destruct Hb as [[[H1 H2] H3] H4].
  destruct ns; [|done]. destruct lim; [|done]. apply bool_decide_eq_false in H3. apply eq_None_not_Some in H3.
  unfold Isolation.plan_calls. cbn [Isolation.namespaces Isolation.no_new_privs Isolation.dumpable Isolation.rlimits].
  by rewrite H2, H3.
Qed.

Lemma plan_wrapped spec av c p : Isolation.failure spec = Isolation.FAIL_CLOSED ->
  Isolation.prepare_isolation_launch spec av c = Ok p -> wrapped spec c av (Isolation.argv p).
Proof.
  intros Hf. unfold wrapped, Isolation.prepare_isolation_launch. intros ([ns sk] & _ & Hp)%bind_Ok. apply bind_Ok in Hp as (sk2 & _ & Hp).
  apply bind_Ok in Hp as (sk3 & _ & Hp). apply bind_Ok in Hp as ([lim sk4] & _ & Hp).
  apply bind_Ok in Hp as ([[[eff hlp] av'] sk5] & Hs & [= <-]). cbn [Isolation.argv].
  assert (forall sk f, Isolation.unavailable spec sk f = Raise (Exn IsolationUnavailable (§"isolation capability unavailable: " ++ f))) as Hun.
  { intros sk' f. unfold Isolation.unavailable. by rewrite Hf. }
  destruct (bool_decide _); [|by injection Hs as <- <- <- <-].
  destruct (Isolation.seccomp_helper c) as [h|]; [destruct (Isolation.linux c)|]; rewrite ?Hun in Hs; [|done|done].
  injection Hs as <- <- <- <-. by exists h.
Qed.

(** What [Popen] has done when it returns. *)
Lemma started_child c r pid spec : Isolation.failure spec = Isolation.FAIL_CLOSED ->
  child_hook r = Some spec \/ child_hook r = None /\ Isolation.plan_calls spec = [] ->
  (start_child c r).2 = Ok pid ->
  (start_child c r).1 = Isolation.Call <$> Isolation.plan_calls spec /\
  Isolation.all_granted [] (Isolation.plan_calls spec) /\ pid = child_pid c r.
Proof.
  intros Hf Hh. unfold start_child. destruct (fork_fault c r); [done|].
  destruct Hh as [Hh|[Hh Hc]]; rewrite Hh.
  - destruct (Isolation.preexec spec []) as [h [[]|e]] eqn:Hp; [|done]. cbn [fst snd].
    destruct (exec_fault c r); [done|]. intros [= <-].
    destruct (Isolation.preexec_emits spec Hf [] h tt Hp) as (-> & Hg & _). by rewrite app_nil_l.
  - cbn [fst snd]. destruct (exec_fault c r); [done|]. intros [= <-]. by rewrite Hc.
Qed.

(** The variable that reports a degraded launch. *)
Lemma request_degraded m plan env r : plan_request m plan env = Ok r ->
  program r = Isolation.argv plan /\ child_hook r = Isolation.preexec_spec plan /\
  dget (child_environment r) §"MSYS_ISOLATION_DEGRADED" = Some (if Isolation.is_nil (Isolation.skipped plan) then §"0" else §"1").
Proof.
  unfold plan_request. intros (vars & Hv & [= <-])%bind_Ok. split_and!; [done..|].
  unfold plan_environment in Hv. apply bind_Ok in Hv as (summary & _ & [= <-]). cbn [child_environment].
  rewrite dget_dupdate by (apply (bool_decide_unpack _); vm_compute; exact I). reflexivity.
Qed.

Section Spawn.
Context (capabilities : Isolation.IsolationCapabilities).
Context (prepare : Core -> Manifest.Component -> nat -> Z -> py (list pystr * dict pystr pystr)).
Context (killpg : Core -> Z -> signal -> py unit).
#[local] Instance plat : Lifecycle.Platform := isolating capabilities prepare killpg.

(** The instance that a spawn returns. *)
Lemma spawn_Returned now me k m obj c c' n : spawn now me k m obj c = (c', Ok (Returned n)) ->
  exists c1 launch pid, let gen := (dget_or (generations c) k 0 + 1)%Z in
    prepare c1 m obj gen = Ok launch /\ run_isolated capabilities c1 m launch = Ok pid /\
    exists i, heap (super c') !! n = Some i /\ component i = m /\ process i = Some {| Msysd.pid := pid; returncode := None |}.
Proof.
  unfold spawn. set (gen := (dget_or (generations c) k 0 + 1)%Z). set (c0 := set_generations _ c).
  destruct (if _is_foreground_app m then _ else _) as [c1 [[]|e]]; cbn [seg_bind]; [|done].
  change (Lifecycle.prepare c1 m obj gen) with (prepare c1 m obj gen).
  destruct (prepare c1 m obj gen) as [launch|e] eqn:Hl; [|done].
  change (popen c1 m gen launch) with (run_isolated capabilities c1 m launch).
  destruct (run_isolated capabilities c1 m launch) as [pid|e] eqn:Hr.
  - unfold spawn_succeeds. set (n' := fresh (dom (heap (super c1)))). set (i0 := new_instance now m obj gen pid).
    match goal with |- seg_bind (if _ then on_world _ ?x else _) _ = _ -> _ => set (c2 := x) end.
    assert (heap (super c2) !! n' = Some i0) as Hi0.
    { unfold c2. destruct (_is_foreground_app m); apply lookup_insert_eq. }
    intros Hs. exists c1, launch, pid. cbv zeta. split; [done|]. split; [done|].
    assert (calm c2 c' /\ n = n') as [[Q _] ->].
    { revert Hs. destruct (bool_decide _).
      - pose proof (calm_became_ready n' c2) as Hc. destruct (on_world _ c2) as [c3 [[]|e]]; cbn [seg_bind fst] in *; [|done].
        by intros [= <- <-].
      - cbn [seg_bind]. intros [= <- <-]. split; [apply calm_refl|done]. }
    destruct (q_old _ _ Q n' i0 Hi0) as (i & Hi & Hc & Hp & _). exists i. by rewrite Hc, Hp.
  - unfold spawn_fails. destruct (negb _); [done|]. destruct (if _is_foreground_app m then _ else _) as [c2 [[]|e']]; cbn [seg_bind]; [|done].
    destruct (_record_component_failure _ _ _) as [s [d|]]; done.
Qed.

(** C15: a fail-closed component runs isolated or not at all.  When a spawn returns
    a generation of one, its process is a child that made every call its
    manifest's policy requires, in order, all of them granted, before it
    executed the program, behind the seccomp helper when the policy names one;
    the environment it got says that nothing was skipped, and the pid of the
    generation is that child's. *)
Theorem fail_closed_programs_run_isolated now me k m obj c c' n :
  spawn now me k m obj c = (c', Ok (Returned n)) ->
  Isolation.failure (Manifest.isolation m) = Isolation.FAIL_CLOSED ->
  exists c1 launch plan r,
    prepare c1 m obj (dget_or (generations c) k 0 + 1)%Z = Ok launch /\
    Isolation.prepare_isolation_launch (Manifest.isolation m) launch.1 capabilities = Ok plan /\
    Isolation.effective plan = Manifest.isolation m /\
    plan_request m plan launch.2 = Ok r /\
    (start_child c1 r).1 = Isolation.Call <$> Isolation.plan_calls (Manifest.isolation m) /\
    Isolation.all_granted [] (Isolation.plan_calls (Manifest.isolation m)) /\
    wrapped (Manifest.isolation m) capabilities launch.1 (program r) /\
    dget (child_environment r) §"MSYS_ISOLATION_DEGRADED" = Some §"0" /\
    exists i, heap (super c') !! n = Some i /\ component i = m /\
      process i = Some {| Msysd.pid := child_pid c1 r; returncode := None |}.
Proof.
  intros Hs Hf. destruct (spawn_Returned now me k m obj c c' n Hs) as (c1 & launch & pid & Hl & Hr & i & Hi & Hc & Hp).
  unfold run_isolated in Hr. apply bind_Ok in Hr as (plan & Hplan & Hr). apply bind_Ok in Hr as (r & Hreq & Hpid).
  destruct (fail_closed_plan _ _ _ _ Hf Hplan) as (He & Hsk & _).
  destruct (request_degraded _ _ _ _ Hreq) as (Hprog & Hhook & Hdeg). rewrite Hsk in Hdeg.
  destruct (started_child c1 r pid (Manifest.isolation m) Hf) as (Hh & Hg & ->); [|done|].
  { rewrite Hhook, <- He. by apply (plan_hook _ _ _ _ Hplan). }
  exists c1, launch, plan, r. rewrite Hprog. split_and!; try done; [by eapply plan_wrapped|]. by exists i.
Qed.
End Spawn.
End Theorems.

(* ------------------------------------------------------------------ *)
(** ** Witness *)

(** A component with the policy of [Isolation.sample_spec] and a seccomp helper,
    on the host of [HostProbe]. *)
Definition strict_spec : Isolation.IsolationSpec :=
  {| Isolation.profile := §"custom"; Isolation.failure := Isolation.FAIL_CLOSED; Isolation.namespaces := [§"mount"; §"user"];
     Isolation.no_new_privs := true; Isolation.dumpable := Some false;
     Isolation.rlimits := [(§"core", {| Isolation.soft := 0; Isolation.hard := 0 |})];
     Isolation.seccomp := {| Isolation.mode := §"helper"; Isolation.seccomp_profile := §"strict" |} |}.

Definition strict_app : Manifest.Component :=
  {| Manifest.package_id := §"p"; Manifest.package_version := §"1"; Manifest.id := §"app"; Manifest.exec := [§"/bin/app"];
     Manifest.lifecycle := §"session"; Manifest.package_kind := §"system"; Manifest.package_name := §"p";
     Manifest.package_icons := []; Manifest.runtime := §"custom"; Manifest.restart := §"always";
     Manifest.idle_timeout_ms := None; Manifest.cwd := None; Manifest.env := [];
     Manifest.readiness_mode := §"exec"; Manifest.readiness_timeout_ms := 5000; Manifest.provides := [];
     Manifest.requires := []; Manifest.wants := []; Manifest.after := []; Manifest.windowing := [];
     Manifest.activation := []; Manifest.permissions := []; Manifest.isolation := strict_spec;
     Manifest.raw := []; Manifest.manifest_path := None; Manifest.package_summary := []; Manifest.package_i18n := VNone |}.

Definition strict_capabilities : Isolation.IsolationCapabilities :=
  @HostProbe.detect_capabilities Isolation.linux_platform HostProbe.sample_host (Some §"/sbin/seccomp-run").

#[local] Instance numbered_children : Forks :=
  {| fork_fault _ _ := None; exec_fault _ _ := None; child_pid c _ := (100 + Z.of_nat (size (heap (super c))))%Z |}.
#[local] Existing Instances plain_presentation Isolation.granting_kernel.

#[local] Abbreviation strict_spawn :=
  (@spawn ascii_lib plain_repr open_sockets
    (@plat Protocol.sample_json Isolation.granting_kernel numbered_children strict_capabilities
       (fun _ m _ _ => Ok (Manifest.exec m, [])) (fun _ _ _ => Ok tt))
    plain_presentation 5%Z None §"p:app" strict_app 0 plain_core).

Lemma strict_spawn_returns : strict_spawn = (strict_spawn.1, Ok (Returned 0%nat)).
Proof.
  assert (strict_spawn.2 = Ok (Returned 0%nat)) as Hr by (vm_compute; reflexivity). by rewrite <- Hr, <- surjective_pairing.
Qed.

Lemma strict_helper : Isolation.seccomp_helper strict_capabilities = Some §"/sbin/seccomp-run".
Proof. vm_compute. reflexivity. Qed.

Lemma strict_calls : length (@Isolation.plan_calls Isolation.granting_kernel strict_spec) = 9%nat.
Proof. vm_compute. reflexivity. Qed.

Lemma fail_closed_programs_run_isolated_witness : exists c r,
  strict_spawn.2 = Ok (Returned 0%nat) /\
  program r = [§"/sbin/seccomp-run"; §"--profile"; §"strict"; §"--"; §"/bin/app"] /\
  length (@start_child Isolation.granting_kernel numbered_children c r).1 = 9%nat.
Proof.
  destruct (@fail_closed_programs_run_isolated ascii_lib plain_repr open_sockets plain_presentation Protocol.sample_json
    Isolation.granting_kernel numbered_children strict_capabilities (fun _ m _ _ => Ok (Manifest.exec m, [])) (fun _ _ _ => Ok tt)
    5%Z None §"p:app" strict_app 0 plain_core strict_spawn.1 0%nat strict_spawn_returns eq_refl)
    as (c1 & launch & plan & r & Hl & _ & _ & _ & Hh & _ & Hw & _).
  exists c1, r. split; [exact (f_equal snd strict_spawn_returns)|]. injection Hl as <-. destruct Hw as (h & Hh' & Hprog).
  pose proof (eq_trans (eq_sym Hh') strict_helper) as He. injection He as ->. split; [exact Hprog|].
  rewrite Hh, length_fmap. exact strict_calls.
Defined.
End Execution.
