(* ===== verification/Readiness.v ===== *)
(** * The readiness probe of a generation ([_readiness_probe] in [msys_core/msysd.py])

    The loop that polls the display of an [x11-display] provider, or only waits
    for the other modes, until the deadline: each turn of it, between two
    sleeps, as a segment of [Lifecycle]. *)

From Stdlib Require Import ZArith.
From stdpp Require Import gmap.
From S2P Require Export Lifecycle LifecycleSafety.

Module Readiness.
Import Msysd Calls Dispatch Restart Messages Outage Lifecycle LifecycleSafety.

(** [X11_READINESS_POLL_SECONDS], in nanoseconds. *)
Definition X11_READINESS_POLL : Z := 20000000.

(** What a turn sees: [time.monotonic()], the files of [/tmp/.X11-unix], and the
    modification time of a file, or nothing when [stat] fails. *)
Record Look := {
  look_time : Z;
  socket_exists : pystr -> bool;
  modified_at : pystr -> option Z;
}.

(** [env.get(a) or env.get(b) or c] *)
Definition env_text (env : dict pystr pystr) (k : pystr) : option pystr :=
  match dget env k with Some [] => None | v => v end.

Definition probe_display (env : dict pystr pystr) : pystr :=
  match env_text env §"DISPLAY_ID" with
  | Some d => d
  | None => default §":0" (env_text env §"DISPLAY")
  end.

Definition display_number (display : pystr) : pystr := str_before 46 (str_removeprefix §":" display).

Definition display_socket (display : pystr) : pystr := §"/tmp/.X11-unix/X" ++ display_number display.

(** A ready file that an earlier generation wrote does not count. *)
Definition x_ready (started_wallclock : Z) (env : dict pystr pystr) (look : Look) : bool :=
  match env_text env §"MSYS_X11_READY_FILE" with
  | Some ready_file =>
      match modified_at look ready_file with
      | Some t => (started_wallclock <=? t)%Z
      | None => false
      end
  | None => socket_exists look (display_socket (probe_display env))
  end.

(** How a turn ends: the probe has nothing more to watch, it declared the
    display ready, it sleeps, or its deadline passed and the termination it
    began, if any, goes on. *)
Inductive probe_progress :=
| ProbeLeft
| ProbeReady
| ProbeSleeps
| ProbeExpired (termination : option term_pc).

Section Readiness.
Context `{PyLib} `{PyRepr} `{Channel} `{Platform} `{Presentation}.

Definition probe_deadline (now : Z) (n : nat) (s : Supervisor) : Z := (now + readiness_timeout n s)%Z.

(** One turn of the loop for instance [n], and what follows the loop. *)
Definition probe_turn (started_wallclock deadline : Z) (n : nat) (look : Look) (c : Core) : segment probe_progress :=
  match heap (super c) !! n with
  | None => (c, Ok ProbeLeft)
  | Some i =>
      if (look_time look <? deadline)%Z then
        if negb (is_current (super c) (key i) n) then (c, Ok ProbeLeft)
        else if bool_decide (is_Some (exit_status i)) then (c, Ok ProbeLeft)
        else if bool_decide (Manifest.readiness_mode (component i) = §"x11-display")
                && x_ready started_wallclock (Manifest.env (component i)) look
        then seg_bind (probe_ready n c) (fun _ c => (c, Ok ProbeReady))
        else (c, Ok ProbeSleeps)
      else seg_bind (probe_timeout (look_time look) n c) (fun t c => (c, Ok (ProbeExpired t)))
  end.
End Readiness.

(* ------------------------------------------------------------------ *)
(** ** What the probe does *)

Section Theorems.
Context {lib : PyLib} {reprs : PyRepr} {channel : Channel} {platform : Platform} {presentation : Presentation}.

Lemma seg_bind_end {A B} (m : segment A) (b : A -> B) :
  seg_bind m (fun a c => (c, Ok (b a))) = (m.1, match m.2 with Ok a => Ok (b a) | Raise e => Raise e end).
Proof. by destruct m as [c [a|e]]. Qed.

(** A turn is a step of the interleaving, or changes nothing. *)
Lemma turn_step started deadline n look s :
  let c' := (probe_turn started deadline n look (core s)).1 in c' = core s \/ step s None (with_core c' s).
Proof.
  unfold probe_turn. destruct (heap (super (core s)) !! n) as [i|]; [|by left]. rewrite !seg_bind_end.
  repeat case_match; cbn [fst]; first [by left | right; apply sy_probe_ready | right; apply sy_probe_timeout].
Qed.

(** The evidence for a display, for whom it counts. *)
Definition displayed (started : Z) (env : dict pystr pystr) (look : Look) : Prop :=
  match env_text env §"MSYS_X11_READY_FILE" with
  | Some f => exists t, modified_at look f = Some t /\ (started <= t)%Z
  | None => socket_exists look (display_socket (probe_display env)) = true
  end.

Lemma x_ready_spec started env look : x_ready started env look = true <-> displayed started env look.
Proof.
  unfold x_ready, displayed. destruct (env_text env _) as [f|]; [|done]. destruct (modified_at look f) as [t|].
  - rewrite Z.leb_le. split; [by exists t|]. by intros (t' & [= ->] & ?).
  - split; [done|]. by intros (? & ? & _).
Qed.

(** Everything a turn may do. *)
Definition turn_outcome (started deadline : Z) (n : nat) (look : Look) (c : Core) : Prop :=
  match heap (super c) !! n with
  | None => probe_turn started deadline n look c = (c, Ok ProbeLeft)
  | Some i =>
      let watched := is_current (super c) (key i) n = true /\ exit_status i = None in
      let shown := Manifest.readiness_mode (component i) = §"x11-display" /\
                   displayed started (Manifest.env (component i)) look in
      let '(c', r) := probe_turn started deadline n look c in
      match r with
      | Ok ProbeLeft => c' = c /\ (look_time look < deadline)%Z /\ ~ watched
      | Ok ProbeReady => c' = (probe_ready n c).1 /\ (look_time look < deadline)%Z /\ watched /\ shown
      | Ok ProbeSleeps => c' = c /\ (look_time look < deadline)%Z /\ watched /\ ~ shown
      | Ok (ProbeExpired t) => c' = c /\ (deadline <= look_time look)%Z /\
          (t ≠ None -> is_current (super c) (key i) n = true /\ ready i = false /\ running i = true)
      | Raise e => c' = (probe_ready n c).1 /\ (look_time look < deadline)%Z /\ watched /\ shown \/
                   c' = c /\ (deadline <= look_time look)%Z /\ ready i = false
      end
  end.

Lemma timeout_outcome now n c i : heap (super c) !! n = Some i ->
  (probe_timeout now n c).1 = c /\
  match (probe_timeout now n c).2 with
  | Ok t => t ≠ None -> is_current (super c) (key i) n = true /\ ready i = false /\ running i = true
  | Raise _ => ready i = false
  end.
Proof.
  intros Hi. unfold probe_timeout. rewrite Hi. destruct (ready i); [done|]. destruct (is_current _ _ _); [|done]. cbn [orb negb].
  unfold terminate_begin, alive, signal_group. rewrite Hi. destruct (running i); [|done].
  cbn. destruct (process i) as [p|]; [|done]. destruct (killpg _ _ _) as [|e]; [done|]. by destruct (is_lookup_error e).
Qed.

Lemma turn_spec started deadline n look c : turn_outcome started deadline n look c.
Proof.
  unfold turn_outcome, probe_turn. destruct (heap (super c) !! n) as [i|] eqn:Hi; [|done]. rewrite !seg_bind_end.
  destruct (look_time look <? deadline)%Z eqn:Ht; [apply Z.ltb_lt in Ht|apply Z.ltb_ge in Ht].
  - destruct (is_current _ _ _); cbn [negb]; [|naive_solver].
    case_bool_decide as He; [split_and!; [done..|]; intros [_ Hn]; rewrite Hn in He; by destruct He|].
    apply eq_None_not_Some in He. pose proof (x_ready_spec started (Manifest.env (component i)) look) as Hx.
    case_bool_decide as Hm; cbn [andb]; [|split_and!; try done; by intros [? _]].
    destruct (x_ready _ _ _).
    + destruct (probe_ready n c) as [c' [u|e]]; cbn; [|left]; split_and!; try done; by apply Hx.
    + split_and!; try done. by intros [_ Hs%Hx].
  - destruct (timeout_outcome (look_time look) n c i Hi) as [H1 H2]. rewrite H1.
    destruct (probe_timeout _ _ _) as [c' [t|e]]; cbn in *; [by split_and!|]. right. by split_and!.
Qed.

(** The first number below a bound with a property. *)
Lemma first_before (f : nat -> bool) N : f N = true ->
  exists k, (k <= N)%nat /\ f k = true /\ forall j, (j < k)%nat -> f j = false.
Proof.
  induction (lt_wf N) as [N _ IH]. intros HN. destruct (decide (Exists (fun j => f j = true) (seq 0 N))) as [Hx|Hx].
  - apply Exists_exists in Hx as (j & Hj%elem_of_seq & Hf). destruct (IH j ltac:(lia) Hf) as (k & Hk & Hr).
    exists k. split; [lia|done].
  - exists N. split_and!; [done..|]. intros j Hj. destruct (f j) eqn:Hf; [|done]. destruct Hx. apply Exists_exists.
    exists j. split; [apply elem_of_seq; lia|done].
Qed.

Definition sleeps (r : segment probe_progress) : bool :=
  match r.2 with Ok ProbeSleeps => true | _ => false end.

Lemma clock_advances (looks : nat -> Look) (now : Z) : (now <= look_time (looks 0%nat))%Z ->
  (forall k, (look_time (looks k) + X11_READINESS_POLL <= look_time (looks (S k)))%Z) ->
  forall k, (now + Z.of_nat k * X11_READINESS_POLL <= look_time (looks k))%Z.
Proof. intros H0 Hs. induction k as [|k IH]; [lia|]. specialize (Hs k). lia. Qed.

(** A turn that is past the deadline does not sleep. *)
Lemma late_turn_ends started deadline n look c : (deadline <= look_time look)%Z ->
  sleeps (probe_turn started deadline n look c) = false.
Proof.
  intros Hl. unfold probe_turn, sleeps. destruct (heap (super c) !! n); [|done].
  rewrite (proj2 (Z.ltb_ge _ _) Hl), seg_bind_end. by destruct (probe_timeout _ _ _) as [c' [t|e]].
Qed.

(** C36: the readiness probe ends, and what it does is right.  Whatever happens to
    the supervisor between its turns ([cores]), a probe whose sleeps last at
    least the poll interval leaves its loop after at most one turn per interval
    of the timeout and one; until then it changes nothing.  Each turn declares
    readiness only of a current [x11-display] generation whose process has not
    exited, before the deadline and on fresh evidence: the ready file it names,
    written since the generation was started, or else the socket of its display.
    It terminates only a generation that is still current, not ready and
    running at the deadline.  Its effect is a step of the interleaving or
    nothing, so everything that holds in reachable systems survives it. *)
Theorem readiness_probe_ends n started now c0 (looks : nat -> Look) (cores : nat -> Core) :
  (now <= look_time (looks 0%nat))%Z ->
  (forall k, (look_time (looks k) + X11_READINESS_POLL <= look_time (looks (S k)))%Z) ->
  let deadline := probe_deadline now n (super c0) in
  let turn k := probe_turn started deadline n (looks k) (cores k) in
  exists k,
    (k <= Z.to_nat (readiness_timeout n (super c0) / X11_READINESS_POLL) + 1)%nat /\
    sleeps (turn k) = false /\
    (forall j, (j < k)%nat -> turn j = (cores j, Ok ProbeSleeps)) /\
    (forall j, turn_outcome started deadline n (looks j) (cores j)) /\
    (forall j L s, sys_reachable L s -> core s = cores j -> sys_reachable L (with_core (turn j).1 s)).
Proof.
  intros H0 Hs deadline turn. pose proof (clock_advances looks now H0 Hs) as Hclock.
  set (N := (Z.to_nat (readiness_timeout n (super c0) / X11_READINESS_POLL) + 1)%nat).
  destruct (first_before (fun k => negb (sleeps (turn k))) N) as (k & Hk & Hf & Hb).
  { unfold turn. rewrite late_turn_ends; [done|]. specialize (Hclock N). unfold deadline, probe_deadline.
    assert (readiness_timeout n (super c0) <= Z.of_nat N * X11_READINESS_POLL)%Z; [|lia]. unfold N, X11_READINESS_POLL. clear.
    pose proof (Z.mul_div_le (readiness_timeout n (super c0)) 20000000 ltac:(lia)).
    pose proof (Z.mod_pos_bound (readiness_timeout n (super c0)) 20000000 ltac:(lia)).
    pose proof (Z.div_mod (readiness_timeout n (super c0)) 20000000 ltac:(lia)). lia. }
  exists k. split_and!; [done|by apply negb_true_iff| | |].
  - intros j Hj. specialize (Hb j Hj). apply negb_false_iff in Hb. pose proof (turn_spec started deadline n (looks j) (cores j)) as Ho.
    unfold turn_outcome, sleeps, turn in *. destruct (heap _ !! n); [|by rewrite Ho in Hb].
    destruct (probe_turn started deadline n (looks j) (cores j)) as [c' [[]|]]; try done. by destruct Ho as [-> _].
  - intros j. apply turn_spec.
  - intros j L s Hr Hc. unfold turn. rewrite <- Hc. destruct (turn_step started deadline n (looks j) s) as [Heq|Hst].
    + rewrite Heq. by destruct s.
    + exact (sr_step L s None _ Hr Hst).
Qed.
End Theorems.

(* ------------------------------------------------------------------ *)
(** ** Witness *)

(** A display provider that writes its ready file 50 ms after its start; an
    older file is there from the beginning. *)
Definition ready_file : pystr := §"/run/x11.ready".
Definition sample_provider : Manifest.Component :=
  {| Manifest.package_id := §"p"; Manifest.package_version := §"1"; Manifest.id := §"x11"; Manifest.exec := [§"/bin/x"];
     Manifest.lifecycle := §"session"; Manifest.package_kind := §"system"; Manifest.package_name := §"p";
     Manifest.package_icons := []; Manifest.runtime := §"custom"; Manifest.restart := §"always";
     Manifest.idle_timeout_ms := None; Manifest.cwd := None;
     Manifest.env := [(§"DISPLAY_ID", §":2.0"); (§"MSYS_X11_READY_FILE", ready_file)];
     Manifest.readiness_mode := §"x11-display"; Manifest.readiness_timeout_ms := 5000; Manifest.provides := [];
     Manifest.requires := []; Manifest.wants := []; Manifest.after := []; Manifest.windowing := [];
     Manifest.activation := []; Manifest.permissions := []; Manifest.isolation := Isolation.spec_default;
     Manifest.raw := []; Manifest.manifest_path := None; Manifest.package_summary := []; Manifest.package_i18n := VNone |}.

Definition sample_core : Core :=
  modify (fun s => {| heap := {[ 0%nat := new_instance 0 sample_provider 0 1 101 ]}; instances := [(§"p:x11", 0%nat)];
    components := components s; component_objects := component_objects s; role_registry := role_registry s;
    service_catalog := service_catalog s; catalog_epoch := catalog_epoch s; next_request_id := next_request_id s;
    stopping := stopping s; stop_requests := stop_requests s; foreground_stack := foreground_stack s;
    backgrounded_components := backgrounded_components s; failure_history := failure_history s;
    quarantined := quarantined s; quarantine_times := quarantine_times s; recovery_allowed := recovery_allowed s;
    idle_tasks := idle_tasks s; futures := futures s |}) plain_core.

Definition sample_looks (k : nat) : Look :=
  let t := (Z.of_nat k * X11_READINESS_POLL)%Z in
  {| look_time := t; socket_exists f := bool_decide (f = §"/tmp/.X11-unix/X2");
     modified_at f := if bool_decide (f = ready_file) then Some (if (t <? 50000000)%Z then -7 else 50000000)%Z else None |}.

#[local] Instance quiet_platform : Platform :=
  {| prepare := fun _ _ _ _ => Ok ([], []); popen := fun _ _ gen _ => Ok (100 + gen)%Z; killpg := fun _ _ _ => Ok tt |}.
#[local] Instance quiet_presentation : Presentation :=
  {| wall_clock_ms := fun _ => 0%Z; localized_title := fun _ m => Manifest.key m |}.

Definition sample_turn (k : nat) : segment probe_progress :=
  probe_turn 0 (probe_deadline 0 0 (super sample_core)) 0 (sample_looks k) sample_core.

Lemma readiness_probe_ends_witness : exists k,
  (k <= 251)%nat /\ (sample_turn k).2 = Ok ProbeReady /\
  (sample_turn 0).2 = Ok ProbeSleeps /\ displayed 0 (Manifest.env sample_provider) (sample_looks k).
Proof.
  destruct (readiness_probe_ends 0 0 0 sample_core sample_looks (fun _ => sample_core)) as (k & Hk & Hf & Hb & Ho & _).
  - vm_compute. discriminate.
  - intros k. cbn. unfold X11_READINESS_POLL. lia.
  - fold (sample_turn k) in Hf. exists k. split; [exact Hk|].
    assert (k = 3%nat) as ->.
    { destruct (decide (k < 3)%nat) as [Hlt|Hge].
      - exfalso. destruct k as [|[|[|k]]]; [vm_compute in Hf; discriminate Hf..|lia].
      - destruct (decide (3 < k)%nat) as [Hgt|]; [|lia]. exfalso. specialize (Hb 3%nat Hgt). cbv beta in Hb.
        fold (sample_turn 3) in Hb. apply (f_equal snd) in Hb. vm_compute in Hb. discriminate Hb. }
    split; [vm_compute; reflexivity|]. split; [vm_compute; reflexivity|].
    exists 50000000%Z. split; [vm_compute; reflexivity|vm_compute; discriminate].
Defined.
End Readiness.
