(* ===== verification/Endings.v ===== *)
(** * Waiting for processes to end ([msys_core/msysd.py])

    [_wait_for_process_exit], with a pidfd or by polling, and the whole run of a
    stop, from the end of the cancellation of its tasks to its return. *)

From Stdlib Require Import ZArith.
From stdpp Require Import gmap.
From S2P Require Export LifecycleSafety Readiness.

Module Endings.
Import Msysd Calls Dispatch Restart Messages Outage Lifecycle LifecycleSafety.

(* ------------------------------------------------------------------ *)
(** ** [_wait_for_process_exit] *)

(** What the event loop holds for it. *)
Record Loop := { pidfds : list Z; readers : list Z }.

Definition add_reader (fd : Z) (l : Loop) : Loop := {| pidfds := fd :: pidfds l; readers := fd :: readers l |}.

(** [loop.remove_reader(pidfd); os.close(pidfd)] *)
Definition remove_reader (fd : Z) (l : Loop) : Loop :=
  {| pidfds := filter (fun x => x ≠ fd) (pidfds l); readers := filter (fun x => x ≠ fd) (readers l) |}.

Inductive wait_pc := WatchPidfd (fd : Z) | PollProcess.

(** Up to the first await, with the results of [poll()] on entry and before
    waiting; [pidfd] is what [pidfd_open] returned, when it exists and did not
    fail.  No program counter: it has returned. *)
Definition wait_begin (pidfd : option Z) (entry before : option Z) (l : Loop) : Loop * option wait_pc :=
  match entry with
  | Some _ => (l, None)
  | None =>
      let fd := default (-1)%Z pidfd in
      if (0 <=? fd)%Z
      then match before with
           | Some _ => (remove_reader fd (add_reader fd l), None)
           | None => (add_reader fd l, Some (WatchPidfd fd))
           end
      else match before with
           | Some _ => (l, None)
           | None => (l, Some PollProcess)
           end
  end.

(** One wake-up, and the cancellation, of the wait. *)
Definition wait_resume (pc : wait_pc) (polled : option Z) (l : Loop) : Loop * option wait_pc :=
  match pc with
  | WatchPidfd fd => (remove_reader fd l, None)
  | PollProcess => (l, match polled with Some _ => None | None => Some PollProcess end)
  end.

Definition wait_cancelled (pc : wait_pc) (l : Loop) : Loop :=
  match pc with WatchPidfd fd => remove_reader fd l | PollProcess => l end.

(** A sleep ends by itself; a pidfd is readable from the exit on. *)
Definition wakes (pc : wait_pc) (code : option Z) : bool :=
  match pc with WatchPidfd _ => bool_decide (is_Some code) | PollProcess => true end.

(** The wait over the moments at which the process may have exited ([code]). *)
Fixpoint wait_run (pidfd : option Z) (code : nat -> option Z) (l : Loop) (j : nat) : Loop * option wait_pc :=
  match j with
  | O => wait_begin pidfd (code 0%nat) (code 1%nat) l
  | S j =>
      match wait_run pidfd code l j with
      | (l, None) => (l, None)
      | (l, Some pc) => if wakes pc (code (S (S j))) then wait_resume pc (code (S (S j))) l else (l, Some pc)
      end
  end.

Lemma filter_fresh (fd : Z) (l : list Z) : fd ∉ l -> filter (fun x => x ≠ fd) l = l.
Proof.
  induction l as [|x l IH]; intros Hn; [done|]. rewrite not_elem_of_cons in Hn. destruct Hn as [Hx Hl].
  rewrite filter_cons_True by done. by rewrite IH.
Qed.

Lemma removed_reader fd l : fd ∉ pidfds l -> fd ∉ readers l -> remove_reader fd (add_reader fd l) = l.
Proof.
  intros Hp Hr. unfold remove_reader, add_reader. cbn [pidfds readers]. rewrite !filter_cons_False by naive_solver.
  rewrite !filter_fresh by done. by destruct l.
Qed.

(** Where the wait is. *)
Definition wait_state (pidfd : option Z) (l : Loop) : Loop * option wait_pc :=
  let fd := default (-1)%Z pidfd in
  if (0 <=? fd)%Z then (add_reader fd l, Some (WatchPidfd fd)) else (l, Some PollProcess).

(** Both ways of waiting notice the exit at the first moment after it, and not
    before; then, or when the wait is cancelled, no pidfd and no reader is left
    behind. *)
Theorem exit_is_noticed pidfd code l j :
  (forall k c, code k = Some c -> code (S k) = Some c) ->
  (forall fd, pidfd = Some fd -> fd ∉ pidfds l /\ fd ∉ readers l) ->
  wait_run pidfd code l j = (if bool_decide (is_Some (code (S j))) then (l, None) else wait_state pidfd l) /\
  forall pc l', wait_run pidfd code l j = (l', Some pc) -> wait_cancelled pc l' = l.
Proof.
  intros Hmono Hfresh. set (fd := default (-1)%Z pidfd).
  assert ((0 <=? fd)%Z = true -> remove_reader fd (add_reader fd l) = l) as Hrem.
  { intros Hfd. destruct pidfd as [f|]; [|done]. destruct (Hfresh f eq_refl). by apply removed_reader. }
  assert (forall pc l', wait_state pidfd l = (l', Some pc) -> wait_cancelled pc l' = l) as Hcan.
  { intros pc l'. unfold wait_state. fold fd. destruct (0 <=? fd)%Z eqn:Hfd; intros [= <- <-]; [by apply Hrem|done]. }
  assert (wait_run pidfd code l j = (if bool_decide (is_Some (code (S j))) then (l, None) else wait_state pidfd l)) as Hrun.
  { induction j as [|j IH]; cbn [wait_run].
    - unfold wait_begin, wait_state. fold fd. destruct (code 0%nat) as [c|] eqn:H0; [rewrite (Hmono _ _ H0); done|].
      destruct (0 <=? fd)%Z eqn:Hfd; destruct (code 1%nat) as [c|]; try done. cbn. by rewrite Hrem.
    - rewrite IH. destruct (code (S j)) as [c|] eqn:Hj; [by rewrite (Hmono _ _ Hj)|].
      rewrite bool_decide_eq_false_2 by (by intros []). unfold wait_state. fold fd.
      destruct (0 <=? fd)%Z eqn:Hfd; cbn [wakes wait_resume]; destruct (code (S (S j))) as [c|]; try done.
      cbn. by rewrite Hrem. }
  split; [done|]. intros pc l'. rewrite Hrun. destruct (bool_decide _); [done|]. apply Hcan.
Qed.

(* ------------------------------------------------------------------ *)
(** ** The run of a stop *)

(** The sleeps of [_terminate_instance_process], in nanoseconds. *)
Definition STOP_POLL : Z := 20000000.

Section Stops.
Context {lib : PyLib} {repr : PyRepr} {chan : Channel} {plat : Platform} {pres : Presentation}.

(** Where the stop of instance [n] of component [k] is before its wake-up [j],
    at time [now j] and in the state [cores j], whatever others have done. *)
Fixpoint stop_run (k : pystr) (n : nat) (animate : bool) (now : nat -> Z) (cores : nat -> Core) (j : nat) : option stop_pc :=
  match j with
  | O => Some (Cancelling n animate)
  | S j =>
      match stop_run k n animate now cores j with
      | Some pc => match (stop_resume (now j) k pc (cores j)).2 with Ok next => next | Raise _ => None end
      | None => None
      end
  end.

Context {plat_laws : PlatformLaws}.
Context (k : pystr) (n : nat) (animate : bool) (now : nat -> Z) (cores : nat -> Core).
Context (clock : forall j, (now j + STOP_POLL <= now (S j))%Z).

#[local] Abbreviation run := (stop_run k n animate now cores).
#[local] Abbreviation deadline := (now 0%nat + seconds 2)%Z.

(** Whether the user sees the stop. *)
Definition animated (pc : stop_pc) : bool := match pc with Cancelling _ a => a | Terminating _ a _ => a end.

Lemma run_next j pc : run j = Some pc ->
  (alive (stop_instance pc) (super (cores j)) = false /\ run (S j) = None /\
   stop_result (animated pc) (stop_resume (now j) k pc (cores j)).2 \/
   alive (stop_instance pc) (super (cores j)) = true /\ is_ok (stop_resume (now j) k pc (cores j)).2 = true /\
   run (S j) = Some (Terminating (stop_instance pc) (animated pc)
       match pc with
       | Cancelling _ _ => Signalled (now j + seconds 2)%Z
       | Terminating _ _ (Signalled d) => if (now j <? d)%Z then Signalled d else Killed
       | Terminating _ _ Killed => Killed
       end)).
Proof.
  intros Hr. destruct (stop_escalates (now j) k pc (cores j)) as [Hdead Hlive].
  assert (run (S j) = match (stop_resume (now j) k pc (cores j)).2 with Ok next => next | Raise _ => None end) as Hs.
  { cbn [stop_run]. by rewrite Hr. }
  destruct (alive (stop_instance pc) _).
  - destruct (Hlive eq_refl) as (c' & a & <- & Heq). rewrite Heq in *. by right.
  - destruct (Hdead eq_refl) as (c' & r & Heq & Hres). rewrite Heq in *. cbn [snd] in *. left. split_and!; [done| |done].
    rewrite Hs. by destruct Hres as [->|[_ (e & -> & _)]].
Qed.

Lemma clock_runs j : (now 0%nat + Z.of_nat j * STOP_POLL <= now j)%Z.
Proof. induction j as [|j IH]; [lia|]. specialize (clock j). lia. Qed.

(** The states of a run, by the number of wake-ups. *)
Lemma run_states j : match j with
  | O => run j = Some (Cancelling n animate)
  | S _ => run j = None \/
      run j = Some (Terminating n animate (Signalled deadline)) /\ (j = 1%nat \/ (now (pred j) < deadline)%Z) \/
      run j = Some (Terminating n animate Killed) /\ exists i, (i < j)%nat /\ (deadline <= now i)%Z
  end.
Proof.
  induction j as [|j IH]; [done|]. destruct j as [|j].
  - destruct (run_next 0 _ IH) as [(_ & H & _)|(_ & _ & H)]; [by left|]. right; left. cbn in H. split; [exact H|by left].
  - destruct IH as [H|[[H _]|[H (i & Hi & Hd)]]].
    + left. cbn [stop_run] in *. by rewrite H.
    + destruct (run_next _ _ H) as [(_ & H' & _)|(_ & _ & H')]; [by left|]. cbn [stop_instance] in H'. right.
      destruct (now (S j) <? deadline)%Z eqn:Hd.
      * left. split; [done|]. right. by apply Z.ltb_lt.
      * right. split; [done|]. exists (S j). split; [lia|by apply Z.ltb_ge].
    + destruct (run_next _ _ H) as [(_ & H' & _)|(_ & _ & H')]; [by left|]. right; right. split; [done|].
      exists i. split; [lia|done].
Qed.

Lemma run_ended j d : run j = None -> run (j + d)%nat = None.
Proof.
  intros Hj. induction d as [|d IH]; [by rewrite Nat.add_0_r|]. rewrite Nat.add_succ_r. cbn [stop_run]. by rewrite IH.
Qed.

(** After two seconds and a wake-up the process was killed, or has exited. *)
Lemma run_killed : run 101 = None \/ run 101 = Some (Terminating n animate Killed).
Proof.
  destruct (run_states 101) as [H|[[_ [H|H]]|[H _]]]; [by left|done| |by right]. exfalso. cbn [pred] in H.
  pose proof (clock_runs 100). unfold seconds, STOP_POLL in *. lia.
Qed.

End Stops.

(* ------------------------------------------------------------------ *)
(** ** Witness *)

#[local] Existing Instances plain_platform plain_presentation plain_platform_laws.

(** The application of [LifecycleSafety] ignores [SIGTERM] and dies at the wake-up
    after [SIGKILL]; the event loop is busy for three seconds between two
    wake-ups. *)
Definition busy_clock (j : nat) : Z := (7 + Z.of_nat j * seconds 3)%Z.
Definition stubborn (j : nat) : Core := if (j <=? 2)%nat then core stop_begun else core exited.

End Endings.
