(* ===== verification/Cancellation.v ===== *)
(** * What cancellations and exceptions lose ([msys_core/msysd.py])

    [_cancel_instance_tasks], called by the watcher of a process that has exited,
    cancels the reader of the instance; but it is the reader that has to stop
    the clients of a display whose control channel failed first.  And a stop that
    cannot announce itself gives up a process it no longer lists. *)

From Stdlib Require Import ZArith.
From stdpp Require Import gmap.
From S2P Require Export LifecycleSafety.
From S2P Require Protocol.

Module Cancellation.
Import Msysd Calls Dispatch Restart Messages Outage Lifecycle LifecycleSafety.

(** The session of [Outage], with a display provider that is ready by its
    control channel. *)
Definition channel_provider : Manifest.Component :=
  let m := sample_x11 in
  {| Manifest.package_id := Manifest.package_id m; Manifest.package_version := §"1"; Manifest.id := Manifest.id m;
     Manifest.exec := Manifest.exec m; Manifest.lifecycle := §"session"; Manifest.package_kind := §"system";
     Manifest.package_name := §"p"; Manifest.package_icons := []; Manifest.runtime := §"custom";
     Manifest.restart := §"always"; Manifest.idle_timeout_ms := None; Manifest.cwd := None;
     Manifest.env := Manifest.env m; Manifest.readiness_mode := §"mipc-ready"; Manifest.readiness_timeout_ms := 5000;
     Manifest.provides := Manifest.provides m; Manifest.requires := []; Manifest.wants := []; Manifest.after := [];
     Manifest.windowing := []; Manifest.activation := []; Manifest.permissions := [];
     Manifest.isolation := Isolation.spec_default; Manifest.raw := []; Manifest.manifest_path := None;
     Manifest.package_summary := []; Manifest.package_i18n := VNone |}.

#[local] Existing Instances plain_platform plain_presentation.

Definition session : Core :=
  modify (set_heap (<[1%nat := new_instance 0 channel_provider 0 1 101]> (heap (super display_core)))) display_core.

(** The channel fails, the process exits, and its watcher wakes up. *)
Definition failed : segment (option Z * option term_pc) := channel_failed (seconds 200) 1 session.
Definition exited : Core := modify (update 1 (exit_process 1)) failed.1.
Definition watched : segment (option watch_pc) := watch_begin (seconds 201) 1 exited.

(** The reader has begun an outage and waits for the process to end before it
    stops the clients; the watcher, for which the provider has already lost its
    role, finds no outage to suspend, although both clients are still running. *)
Lemma failed_channel_suspends_nobody :
  failed.2 = Ok (Some 1%Z, Some (Signalled (seconds 202))) /\
  is_Some (display_outage failed.1) /\
  watched.2 = Ok (Some (WatchFinalizing 1 None)) /\
  alive 2 (super watched.1) = true /\ alive 3 (super watched.1) = true.
Proof. split_and!; vm_compute; try reflexivity. by eexists. Qed.

(* ------------------------------------------------------------------ *)
(** ** An announcement that cannot be encoded *)

(** Sockets that take what [protocol.encode] accepts. *)
#[local] Instance encoded_channel : Channel :=
  {| transmit _ _ packet :=
       match @Protocol.Protocol.encode Protocol.Protocol.sample_json packet with Ok _ => Ok tt | Raise e => Raise e end |}.

(** An application whose manifest names it [\ud800], a lone surrogate. *)
Definition unnamed_app : Manifest.Component :=
  let c := Foreground.sample_app §"app" in
  {| Manifest.package_id := §"p"; Manifest.package_version := §"1"; Manifest.id := §"app";
     Manifest.exec := Manifest.exec c; Manifest.lifecycle := §"manual"; Manifest.package_kind := §"application";
     Manifest.package_name := §"p"; Manifest.package_icons := []; Manifest.runtime := §"custom"; Manifest.restart := §"never";
     Manifest.idle_timeout_ms := None; Manifest.cwd := None; Manifest.env := []; Manifest.readiness_mode := §"exec";
     Manifest.readiness_timeout_ms := 5000; Manifest.provides := []; Manifest.requires := []; Manifest.wants := [];
     Manifest.after := []; Manifest.windowing := Manifest.windowing c; Manifest.activation := [];
     Manifest.permissions := []; Manifest.isolation := Isolation.spec_default; Manifest.raw := [(§"name", VStr [55296%N])];
     Manifest.manifest_path := None; Manifest.package_summary := []; Manifest.package_i18n := VNone |}.

Definition shell_app : Manifest.Component := display_component §"shell" §"session" [] [].
Definition unnamed_catalog : dict pystr Manifest.Component := [(§"p:app", unnamed_app); (§"p:shell", shell_app)].

Definition unnamed_core : Core :=
  modify (fun s =>
    {| heap := ∅; instances := []; components := unnamed_catalog;
       component_objects := [(§"p:app", 0%nat); (§"p:shell", 1%nat)];
       role_registry := match Roles.make unnamed_catalog [] [] with Ok r => r | Raise _ => Foreground.empty_registry end;
       service_catalog := Services.make unnamed_catalog; catalog_epoch := 0; next_request_id := 1; stopping := false;
       stop_requests := ∅; foreground_stack := []; backgrounded_components := ∅; failure_history := [];
       quarantined := ∅; quarantine_times := []; recovery_allowed := None; idle_tasks := ∅; futures := ∅ |}) plain_core.

(** Both are started, the shell subscribes to transitions, and the application
    is stopped. *)
Definition up0 : System := {| core := unnamed_core; locks := ∅; frames := ∅ |}.
Definition up1 : System := set_frame 0 (FStart §"p:app" None) up0.
Definition up2 : System := settle_start §"p:app" 0 (start_locked 5%Z None §"p:app" (core up1)) up1.
Definition up3 : System := set_frame 1 (FStart §"p:shell" None) up2.
Definition up4 : System := settle_start §"p:shell" 1 (start_locked 6%Z None §"p:shell" (core up3)) up3.
Definition subscribe : Instance -> Instance := set_subscriptions {[ §"msys.lifecycle.transition" ]}.
Definition up5 : System := with_core (modify (update 1 subscribe) (core up4)) up4.
Definition up6 : System :=
  set_frame 2 (FStop §"p:app" None None) (with_core (stop_request 7%Z §"p:app" None (core up5)).1 up5).
Definition failing : segment (option stop_pc) := stop_locked §"p:app" None None (core up6).
Definition up7 : System := settle_stop §"p:app" 2 None failing up6.

(** The stop of the application raises [UnicodeEncodeError] when it announces
    itself to the shell.  The application is no longer listed, nobody waits for
    it, and its process runs on. *)
Lemma undeliverable_event_loses_process :
  sys_reachable {[0%nat]} up7 /\ failing.2 = Raise (Exn UnicodeEncodeError §"surrogates not allowed") /\
  dget (instances (super (core up7))) §"p:app" = None /\ alive 0 (super (core up7)) = true /\
  frames up7 = ∅ /\ locks up7 = ∅.
Proof.
  split; [|split_and!; vm_compute; reflexivity].
  assert (sys_reachable ∅ up0) as H0.
  { apply sr_init; [|reflexivity..]. split.
    - apply (Roles.make_wf unnamed_catalog [] []). vm_compute. reflexivity.
    - intros k m. cbn. case_decide as Hk; [intros [= <-]; by subst k|]. case_decide as Hk'; [intros [= <-]; by subst k|done]. }
  assert (sys_reachable ∅ up2) as H2.
  { eapply (sr_keeps _ up1); [eapply (sr_keeps _ up0); [exact H0|apply sy_start; vm_compute; reflexivity|reflexivity]
      |apply sy_start_lock; vm_compute; reflexivity|vm_compute; reflexivity]. }
  assert (sys_reachable ∅ up4) as H4.
  { eapply (sr_keeps _ up3); [eapply (sr_keeps _ up2); [exact H2|apply sy_start; vm_compute; reflexivity|reflexivity]
      |apply sy_start_lock; vm_compute; reflexivity|vm_compute; reflexivity]. }
  assert (sys_reachable ∅ up6) as H6.
  { eapply (sr_keeps _ up5); [eapply (sr_keeps _ up4); [exact H4|apply sy_elsewhere|reflexivity]
      |apply sy_stop; vm_compute; reflexivity|reflexivity].
    by apply calm_elsewhere, calm_update. }
  assert (lose (dropped §"p:app" (core up6) failing) (core up6) ∅ = {[0%nat]}) as Hl by (vm_compute; reflexivity).
  assert (frames up6 !! 2%nat = Some (FStop §"p:app" None None)) as Hf by (vm_compute; reflexivity).
  assert (locks up6 !! §"p:app" = None) as Hk by (vm_compute; reflexivity).
  rewrite <- Hl. exact (sr_step ∅ up6 _ up7 H6 (sy_stop_lock up6 2 §"p:app" None None Hf Hk)).
Qed.
End Cancellation.
