(* ===== verification/Shutdown.v ===== *)
(** * The end of a session ([_wait_for_shutdown] in [msys_core/msysd.py])

    What happens from the signal that ends the supervisor to the end of its
    loop: no new start, the cancellation of its tasks, and the concurrent stops
    of all components, over the interleaving of [LifecycleSafety]. *)

From Stdlib Require Import ZArith.
From stdpp Require Import gmap.
From S2P Require Export LifecycleSafety.

Module Shutdown.
Import Msysd Calls Dispatch Restart Messages Outage Lifecycle LifecycleSafety.

Section Shutdown.
Context {lib : PyLib} {repr : PyRepr} {chan : Channel} {plat : Platform} {pres : Presentation}.

Definition set_stopping (s : Supervisor) : Supervisor :=
  {| heap := heap s; instances := instances s; components := components s;
     component_objects := component_objects s; role_registry := role_registry s;
     service_catalog := service_catalog s; catalog_epoch := catalog_epoch s;
     next_request_id := next_request_id s; stopping := true; stop_requests := stop_requests s;
     foreground_stack := foreground_stack s;
     backgrounded_components := backgrounded_components s; failure_history := failure_history s;
     quarantined := quarantined s; quarantine_times := quarantine_times s;
     recovery_allowed := recovery_allowed s; idle_tasks := idle_tasks s; futures := futures s |}.

(** [self.stopping = True] *)
Definition request_shutdown (s : System) : System := with_core (modify set_stopping (core s)) s.

(** [list(self.instances)], when the stops are created. *)
Definition shutdown_keys (s : System) : list pystr := dkeys (instances (super (core s))).

(** What may happen while they run, from the state [s0] in which they were
    created: every step, and every cancellation and failure, those of the tasks
    that [_wait_for_shutdown] has cancelled included.  The sets have the
    components one of whose stops has returned or raised since
    ([return_exceptions=True]), and the lost generations. *)
Inductive shutting (s0 : System) (L0 : gset nat) : gset pystr -> gset nat -> System -> Prop :=
| sh_begin : shutting s0 L0 ∅ L0 s0
| sh_step done L s o s' : shutting s0 L0 done L s -> step s o s' -> stopping (super (core s')) = true ->
    shutting s0 L0 done (lose o (core s) L) s'
| sh_cancel done L s o s' : shutting s0 L0 done L s -> cancelled s o s' ->
    shutting s0 L0 done (lose o (core s) L) s'
| sh_returns done L s o s' t k p : shutting s0 L0 done L s -> frames s !! t = Some (FStop k None p) -> step s o s' ->
    frames s' !! t = None -> stopping (super (core s')) = true ->
    shutting s0 L0 ({[k]} ∪ done) (lose o (core s) L) s'.

(** [await asyncio.gather(...)] is over. *)
Definition gathered (s0 : System) (done : gset pystr) : Prop := forall k, k ∈ shutdown_keys s0 -> k ∈ done.
End Shutdown.

(* ------------------------------------------------------------------ *)
(** ** What is left at the end *)

Section Theorems.
Context {lib : PyLib} {repr : PyRepr} {chan : Channel} {plat : Platform} {pres : Presentation}.
Context {plat_laws : PlatformLaws}.

Lemma shutdown_requested s : elsewhere (core s) (modify set_stopping (core s)).
Proof. constructor; try done. by eauto 10. Qed.

(** What a segment under shutdown does to the table of instances. *)
Definition dwindles (c c' : Core) : Prop :=
  (forall k n, dget (instances (super c')) k = Some n -> dget (instances (super c)) k = Some n) /\
  (forall n, heap (super c) !! n = None -> heap (super c') !! n = None).

Lemma dwindles_elsewhere c c' : elsewhere c c' -> dwindles c c'.
Proof. intros E. split; [by rewrite (el_instances _ _ E)|apply (el_new _ _ E)]. Qed.

Lemma dwindles_trans c1 c2 c3 : dwindles c1 c2 -> dwindles c2 c3 -> dwindles c1 c3.
Proof. intros [A1 B1] [A2 B2]. split; auto. Qed.

Lemma dwindles_calm c c' : calm c c' -> dwindles c c'.
Proof. intros [Q I]. split; [by rewrite I|apply Q]. Qed.

Lemma dwindles_drop k c c' : quiet c c' -> dict_wf (instances (super c)) ->
  instances (super c') = ddel (instances (super c)) k -> dwindles c c'.
Proof. intros Q Hwf Hi. split; [|apply Q]. intros k' n. rewrite Hi, dget_ddel by done. by case_decide. Qed.

(** A start neither creates an instance nor makes one current. *)
Lemma effect_dwindles k c c' r : start_effect k c c' r -> stop_pending k (super c) = true ->
  dict_wf (instances (super c)) -> dwindles c c'.
Proof.
  intros He Hs Hwf.
  destruct He as [r Hc _|m obj n b _ Q _ _ Hi|n e Q _ _ Hi|c1 gen e [Q1 I1] _ [Q2 I2]|c1 c2 c3 now m obj gen pid r [Q1 _] _ _ Hst _ _ _ _ _ _].
  - by apply dwindles_calm.
  - by eapply dwindles_drop.
  - by eapply dwindles_drop.
  - split; [|intros n Hn; apply (q_new _ _ Q2), (q_new _ _ Q1), Hn].
    assert (instances (super c') = instances (super c)) as -> by (rewrite I2; exact I1). done.
  - rewrite (q_pending _ _ Q1) in Hst. congruence.
Qed.

Lemma start_runs_dwindles L s t k c' r : inv L s -> stopping (super (core s)) = true -> start_runs s t k c' r ->
  dwindles (core s) c'.
Proof.
  intros Hinv Hst Hruns. assert (stop_pending k (super (core s)) = true) as Hp by (unfold stop_pending; by rewrite Hst).
  destruct Hruns as [(now & me & Hf & Hl & Hr)|(m & obj & pc & now & me & awaited & Hf & Hr)].
  - pose proof (ensure_effect 1 now me k (core s) (iv_sane _ _ Hinv)) as He. unfold start_locked in Hr. rewrite Hr in He.
    by eapply effect_dwindles; [exact He|done|apply Hinv].
  - pose proof (iv_start _ _ Hinv t _ Hf) as [Hk Hpc]. destruct (stale_pc (Some (m, obj, pc))) eqn:Hs.
    + destruct pc as [|pc| | | | |]; try done.
      destruct (iv_stops _ _ Hinv t _ _ Hf eq_refl) as (i & k' & [= <-] & Hi & Hik & Hnone).
      pose proof (stale_effect now me k m obj pc awaited (core s) (iv_sane _ _ Hinv) Hk Hnone) as He. rewrite Hr in He.
      pose proof (calm_stop_resume now k pc (core s)) as Hc.
      destruct He as [(pc' & _ & Hs')|[(e & _ & Hs')|(c1 & Hs' & _ & He)]]; rewrite Hs' in Hc; cbn [fst] in Hc; [by apply dwindles_calm..|].
      eapply dwindles_trans; [by apply dwindles_calm|]. destruct Hc as [Q I].
      eapply effect_dwindles; [exact He|by rewrite (q_pending _ _ Q)|rewrite I; apply Hinv].
    + pose proof (resume_effect now me k m obj pc awaited (core s) (iv_sane _ _ Hinv) Hk ltac:(by destruct pc)) as He.
      rewrite Hr in He. by eapply effect_dwindles; [exact He|done|apply Hinv].
Qed.

Lemma step_dwindles L s o s' : inv L s -> stopping (super (core s)) = true -> step s o s' -> dwindles (core s) (core s').
Proof.
  intros Hinv Hst Hstep.
  assert (forall c, calm (core s) c -> dwindles (core s) c) as Hcalm by apply dwindles_calm.
  assert (dwindles (core s) (core s)) as Hrefl by apply Hcalm, calm_refl.
  destruct Hstep; cbn [core set_frame with_core leave]; try done.
  - rewrite core_settle_start. destruct (start_locked now me k (core s)) as [c' r] eqn:Hr.
    apply (start_runs_dwindles L s t k c' r); [done..|]. left. eauto.
  - rewrite core_settle_start. destruct (start_resume now me k m obj pc awaited (core s)) as [c' r] eqn:Hr.
    apply (start_runs_dwindles L s t k c' r); [done..|]. right. eauto 10.
  - apply dwindles_elsewhere, elsewhere_stop_request.
  - assert (forall p, dwindles (core s) (p.1) -> dwindles (core s) (core (settle_stop k t expected p s))) as Hsettle.
    { intros [c [[pc|]|e]] Hd; cbn [settle_stop core set_frame leave with_core fst] in *; [done|..];
        (eapply dwindles_trans; [exact Hd|apply dwindles_elsewhere, elsewhere_stop_finally]). }
    apply Hsettle. unfold stop_locked. destruct (match expected with Some _ => _ | None => _ end); [done|].
    pose proof (stop_begin_spec k me (core s)) as [Q Hs]. destruct (dget (instances (super (core s))) k) as [n|] eqn:Hn; [|by rewrite Hs].
    destruct Hs as [Hi _]. destruct (stop_begin k me (core s)) as [c [x|e]]; cbn [seg_bind fst] in *; (eapply dwindles_drop; [exact Q|apply Hinv|exact Hi]).
  - pose proof (calm_stop_resume now k pc (core s)) as Hc. destruct (stop_resume now k pc (core s)) as [c [[pc'|]|e]];
      cbn [settle_stop core set_frame leave with_core fst] in *; [by apply Hcalm|..];
      (eapply dwindles_trans; [by apply Hcalm|apply dwindles_elsewhere, elsewhere_stop_finally]).
  - split; [done|]. intros m Hm. unfold modify. cbn. rewrite lookup_alter_None. exact Hm.
  - apply Hcalm, calm_ready.
  - apply Hcalm, calm_watch_begin.
  - apply Hcalm, calm_watch.
  - apply Hcalm, calm_channel_failed.
  - apply Hcalm, calm_probe_ready.
  - apply Hcalm, calm_probe_timeout.
  - apply Hcalm, calm_terminate_resume.
  - by apply dwindles_elsewhere.
Qed.

Lemma cancelled_core s o s' : cancelled s o s' ->
  dwindles (core s) (core s') /\ stopping (super (core s')) = stopping (super (core s)).
Proof.
  intros [t k expected _|t k expected _|t k expected pc _|t k m obj pc _]; cbn [core leave with_core];
    (split; [apply dwindles_elsewhere|done]); first [apply elsewhere_stop_finally | apply calm_elsewhere, calm_refl].
Qed.

Lemma shutting_inv s0 L0 done L s : sys_reachable L0 s0 -> stopping (super (core s0)) = true -> shutting s0 L0 done L s ->
  sys_reachable L s /\ stopping (super (core s)) = true /\ dwindles (core s0) (core s) /\
  forall k, k ∈ done -> dget (instances (super (core s))) k = None.
Proof.
  intros Hr0 Hst0 Hsh. induction Hsh as [|done L s o s' _ (Hr & Hst & Hd & Hk) Hstep Hst'
    |done L s o s' _ (Hr & Hst & Hd & Hk) Hc|done L s o s' t k p _ (Hr & Hst & Hd & Hk) Hf Hstep Hgone Hst'].
  - split_and!; [done|done|apply dwindles_calm, calm_refl|set_solver].
  - pose proof (step_dwindles L s o s' (reachable_inv L s Hr) Hst Hstep) as Hd'.
    split_and!; [by apply sr_step|done|by eapply dwindles_trans|]. intros k Hin. apply eq_None_not_Some. intros [n Hn].
    apply Hd' in Hn. rewrite Hk in Hn; done.
  - destruct (cancelled_core s o s' Hc) as [Hd' Hst']. split_and!; [by apply sr_cancel|congruence|by eapply dwindles_trans|].
    intros k Hin. apply eq_None_not_Some. intros [n Hn]. apply Hd' in Hn. rewrite Hk in Hn; done.
  - pose proof (step_dwindles L s o s' (reachable_inv L s Hr) Hst Hstep) as Hd'.
    split_and!; [by apply sr_step|done|by eapply dwindles_trans|]. intros k' [->%elem_of_singleton|Hin]%elem_of_union.
    + by destruct (stop_returned L s o s' t k None p (reachable_inv L s Hr) Hf Hstep Hgone ltac:(done)) as [Hnone _].
    + apply eq_None_not_Some. intros [n Hn]. apply Hd' in Hn. rewrite Hk in Hn; done.
Qed.

(** C4: from the moment Core is stopping no process is started and no instance
    becomes current, whatever still runs, fails or is cancelled; when the stops
    that [_wait_for_shutdown] awaits have returned or raised, no component has an
    instance, and the only processes that can be alive are those that the stop of
    another task is still terminating and the lost ones, whose termination an
    exception or a cancellation has abandoned: when there is none of these, the
    end of the session leaves no process behind. *)
Theorem shutdown_leaves_no_process s0 L0 done L s :
  sys_reachable L0 s0 -> stopping (super (core s0)) = true -> shutting s0 L0 done L s -> gathered s0 done ->
  (forall n, is_Some (heap (super (core s)) !! n) -> is_Some (heap (super (core s0)) !! n)) /\
  (forall k, dget (instances (super (core s))) k = None) /\
  (forall n i, heap (super (core s)) !! n = Some i -> running i = true ->
     (exists t f, frames s !! t = Some f /\ holds f = Some (key i) /\ stops f = Some n) \/ n ∈ L) /\
  ((forall t f, frames s !! t = Some f -> stops f = None) -> L = ∅ ->
     forall n i, heap (super (core s)) !! n = Some i -> running i = false).
Proof.
  intros Hr0 Hst0 Hsh Hg. destruct (shutting_inv s0 L0 done L s Hr0 Hst0 Hsh) as (Hr & _ & [Hcur Hnew] & Hk).
  assert (forall k, dget (instances (super (core s))) k = None) as Hnone.
  { intros k. apply eq_None_not_Some. intros [n Hn]. rewrite Hk in Hn; [done|]. apply Hg.
    unfold shutdown_keys. apply dget_Some_key with n. by apply Hcur. }
  assert (forall n i, heap (super (core s)) !! n = Some i -> running i = true ->
     (exists t f, frames s !! t = Some f /\ holds f = Some (key i) /\ stops f = Some n) \/ n ∈ L) as Hrun.
  { intros n i Hi Hri. destruct (iv_alive _ _ (reachable_inv L s Hr) n i Hi Hri) as [Hc|Hs]; [by rewrite Hnone in Hc|done]. }
  split_and!; [|done|done|].
  - intros n Hn. apply not_eq_None_Some. intros Hno. apply Hnew in Hno. rewrite Hno in Hn. by destruct Hn.
  - intros Hno -> n i Hi. destruct (running i) eqn:Hri; [|done]. destruct (Hrun n i Hi Hri) as [(t & f & Hf & _ & Hs)|Hl]; [|set_solver].
    by rewrite (Hno t f Hf) in Hs.
Qed.
End Theorems.

(* ------------------------------------------------------------------ *)
(** ** Witness and a stop that is missed *)

#[local] Existing Instances plain_platform plain_presentation plain_platform_laws.

(** The application of [LifecycleSafety.started], from the signal to the end. *)
Definition requested : System := request_shutdown started.
Definition first_stop : System :=
  set_frame 7 (FStop §"p:app" None None) (with_core (stop_request 20%Z §"p:app" None (core requested)).1 requested).
Definition locked_stop : System :=
  settle_stop §"p:app" 7 None (stop_locked §"p:app" None None (core first_stop)) first_stop.
Definition signalled_stop : System :=
  settle_stop §"p:app" 7 None (stop_resume 21%Z §"p:app" (Cancelling 0 false) (core locked_stop)) locked_stop.
Definition exited_stop : System := with_core (modify (update 0 (exit_process 0)) (core signalled_stop)) signalled_stop.
Definition ended : System :=
  settle_stop §"p:app" 7 None
    (stop_resume 22%Z §"p:app" (Terminating 0 false (Signalled (21 + seconds 2)%Z)) (core exited_stop)) exited_stop.

Lemma requested_reachable : sys_reachable ∅ requested.
Proof. exact (sr_step ∅ started None _ started_reachable (sy_elsewhere started _ (shutdown_requested started))). Qed.

(** A step that loses nothing. *)
Lemma sh_keeps s0 L0 done L s o s' : shutting s0 L0 done L s -> step s o s' -> stopping (super (core s')) = true ->
  o = None -> shutting s0 L0 done L s'.
Proof. intros Hsh Hs Hst ->. exact (sh_step s0 L0 done L s None s' Hsh Hs Hst). Qed.

Lemma ended_shutting : shutting requested ∅ ({[§"p:app"]} ∪ ∅) ∅ ended.
Proof.
  assert (step exited_stop None ended) as Hend by (apply sy_stop_go; vm_compute; reflexivity).
  refine (sh_returns requested ∅ ∅ ∅ exited_stop None ended 7 §"p:app" _ _ _ Hend _ _);
    [|vm_compute; reflexivity|vm_compute; reflexivity|vm_compute; reflexivity].
  eapply sh_keeps; [|apply sy_exit|vm_compute; reflexivity|reflexivity].
  eapply sh_keeps; [|apply sy_stop_go; vm_compute; reflexivity|vm_compute; reflexivity|reflexivity].
  eapply sh_keeps; [|apply sy_stop_lock; vm_compute; reflexivity|vm_compute; reflexivity|vm_compute; reflexivity].
  eapply sh_keeps; [apply sh_begin|apply sy_stop; vm_compute; reflexivity|vm_compute; reflexivity|reflexivity].
Qed.

Lemma shutdown_leaves_no_process_witness :
  shutdown_keys requested = [§"p:app"] /\ running (instance_at 0 requested) = true /\
  dget (instances (super (core ended))) §"p:app" = None /\ running (instance_at 0 ended) = false.
Proof.
  split; [vm_compute; reflexivity|]. split; [vm_compute; reflexivity|].
  destruct (shutdown_leaves_no_process requested ∅ ({[§"p:app"]} ∪ ∅) ∅ ended) as (_ & Hnone & _ & Hdead).
  - apply requested_reachable.
  - vm_compute. reflexivity.
  - apply ended_shutting.
  - intros k. assert (shutdown_keys requested = [§"p:app"]) as -> by (vm_compute; reflexivity).
    intros ->%list_elem_of_singleton. apply elem_of_union_l. by apply elem_of_singleton.
  - split; [apply Hnone|].
    apply (Hdead (fun t f Hf => ltac:(exfalso; vm_compute in Hf; discriminate Hf)) eq_refl 0%nat).
    vm_compute. reflexivity.
Defined.

(** A component whose stop has begun before the signal is not among the keys:
    there is nothing to await, and its process runs on. *)
Lemma shutdown_misses_stop_in_progress :
  let s0 := request_shutdown signalled in
  shutting s0 ∅ ∅ ∅ s0 /\ gathered s0 ∅ /\ running (instance_at 0 s0) = true.
Proof.
  split; [apply sh_begin|]. split; [|vm_compute; reflexivity].
  assert (shutdown_keys (request_shutdown signalled) = []) as Hk by (vm_compute; reflexivity). unfold gathered. rewrite Hk. set_solver.
Qed.
End Shutdown.
