(* ===== verification/Reload.v ===== *)
(** * Replacing the catalog at run time ([msys_core/msysd.py])

    The validation of an installer's transaction, the checks of a prospective
    catalog, the commit of a reloaded one under the catalog lock and the proof
    of its health.  The components a reload loads come with the identities of
    their objects; awaited calls appear with their results. *)

From Stdlib Require Import ZArith Floats.SpecFloat.
From S2P Require Export DepGraph LifecycleSafety.

Module Reload.
Import Msysd Calls Dispatch Foreground Restart Messages Outage Lifecycle LifecycleSafety.

Definition CATALOG_TRANSACTION_SCHEMA : pystr := §"msys.catalog-transaction.v1".

(** A failure: a typed catalog error with its code, message and details, or
    any other exception. *)
Inductive failure :=
| CatalogFailure (code message : pystr) (details : dict pystr pyval)
| Plain (e : exn).

Definition str_list (l : list pystr) : pyval := VList (VStr <$> l).
Definition reason (e : exn) : pyval := VStr (take 512 (exn_msg e)).

(* ------------------------------------------------------------------ *)
(** ** Python equality of decoded JSON *)

Definition float_int_eq (f : spec_float) (z : Z) : bool :=
  match f with
  | S754_zero _ => (z =? 0)%Z
  | S754_finite s m e =>
      let v := if s then Zneg m else Zpos m in
      if (0 <=? e)%Z then (v * 2 ^ e =? z)%Z else (v =? z * 2 ^ (- e))%Z
  | _ => false
  end.

Definition int_value (v : pyval) : option Z :=
  match v with VInt z => Some z | VBool b => Some (Z.b2z b) | _ => None end.

Fixpoint py_eq (a b : pyval) {struct a} : bool :=
  match a, b with
  | VNone, VNone => true
  | VStr s, VStr t => bool_decide (s = t)
  | VList l, VList m =>
      (fix go l m := match l, m with
                     | [], [] => true
                     | a :: l, b :: m => py_eq a b && go l m
                     | _, _ => false
                     end) l m
  | VDict d, VDict d' =>
      (length d =? length d')%nat
      && (fix go d := match d with
                      | [] => true
                      | (k, v) :: d => match dget d' k with Some v' => py_eq v v' && go d | None => false end
                      end) d
  | VFloat f, VFloat g => SFeqb f g
  | VOther s, VOther t => bool_decide (s = t)
  | _, _ =>
      match int_value a, int_value b with
      | Some x, Some y => (x =? y)%Z
      | Some x, None => match b with VFloat f => float_int_eq f x | _ => false end
      | None, Some y => match a with VFloat f => float_int_eq f y | _ => false end
      | None, None => false
      end
  end.

(* ------------------------------------------------------------------ *)
(** ** The installer's transaction *)

Record Transaction := {
  tx_package : pystr;
  tx_removed : bool;
  tx_version : pystr;
  tx_path : pystr;
  resume_components : list pystr;
}.

Definition value_error (m : pystr) : exn := Exn ValueError m.

Definition bounded_text (limit : nat) (v : pyval) : bool :=
  match v with VStr s => str_true s && (length s <=? limit)%nat && negb (str_has 0 s) | _ => false end.

Definition text_of (v : pyval) : pystr := match v with VStr s => s | _ => [] end.

Definition resume_of (value : dict pystr pyval) : py (list pystr) :=
  match dget_or value §"resume_components" (VList []) with
  | VList resume =>
      raise_if (256 <? length resume)%nat
        (value_error §"transaction resume_components must be a bounded array");;
      raise_if (negb (forallb (bounded_text 257) resume))
        (value_error §"transaction resume component is invalid");;
      Ok (sorted_strs (fromkeys (text_of <$> resume)))
  | _ => Raise (value_error §"transaction resume_components must be a bounded array")
  end.

Definition _catalog_transaction_request (value : pyval) : py (option Transaction) :=
  match value with
  | VNone => Ok None
  | VDict d =>
      raise_if (negb (eq_str (dget_or d §"schema" VNone) CATALOG_TRANSACTION_SCHEMA))
        (value_error §"transaction schema is unsupported");;
      let package := dget_or d §"package" VNone in
      raise_if (negb (bounded_text 128 package)) (value_error §"transaction package is invalid");;
      match dget_or d §"removed" VNone with
      | VBool removed =>
          let version := dget_or d §"version" VNone in
          let path := dget_or d §"path" VNone in
          raise_if (negb removed && negb (bounded_text 128 version))
            (value_error §"transaction version is invalid");;
          raise_if (negb removed && negb (bounded_text (N.to_nat 4096) path && path_absolute (path_of (text_of path))))
            (value_error §"transaction path must be an absolute path");;
          resume ← resume_of d;
          Ok (Some {| tx_package := text_of package; tx_removed := removed;
                      tx_version := if removed then [] else text_of version;
                      tx_path := if removed then [] else text_of path;
                      resume_components := resume |})
      | _ => Raise (value_error §"transaction removed must be a boolean")
      end
  | _ => Raise (value_error §"transaction must be an object")
  end.

(* ------------------------------------------------------------------ *)
(** ** The committed pointer of the package *)

Section Pointer.
Context `{PyLib} `{PyRepr} `{FileSystem}.

(** [Path(...).resolve(strict=True)], whose failures are reported with the
    others. *)
Context (resolve_strict : ppath -> py ppath).

Definition pointers_of (package : pystr) (packages : list pyval) : list (dict pystr pyval) :=
  omap (fun p => match p with
                 | VDict d => if eq_str (dget_or d §"package" VNone) package then Some d else None
                 | _ => None
                 end) packages.

Definition check_manifest (tx : Transaction) (document : pyval) : py unit :=
  match match document with VDict d => dget_or d §"package" VNone | _ => VNone end with
  | VDict package =>
      let id := dget_or package §"id" VNone in
      let version := dget_or package §"version" VNone in
      raise_if (negb (eq_str id (tx_package tx)))
        (value_error (§"installed package manifest id is " ++ py_repr id ++ §", expected "
                      ++ py_repr (VStr (tx_package tx))));;
      raise_if (negb (eq_str version (tx_version tx)))
        (value_error (§"installed package manifest version is " ++ py_repr version ++ §", expected "
                      ++ py_repr (VStr (tx_version tx))))
  | _ => Raise (value_error §"installed package manifest has no package identity")
  end.

Definition check_pointer (tx : Transaction) (pointer : dict pystr pyval) : py ppath :=
  let version := dget_or pointer §"version" VNone in
  raise_if (negb (eq_str version (tx_version tx)))
    (value_error (§"installed version is " ++ py_repr version ++ §", expected "
                  ++ py_repr (VStr (tx_version tx))));;
  expected ← resolve_strict (path_of (tx_path tx));
  actual ← resolve_strict (path_of (py_str (dget_or pointer §"path" (VStr []))));
  raise_if (negb (bool_decide (actual = expected)))
    (value_error (§"installed path is " ++ path_str actual ++ §", expected " ++ path_str expected));;
  let manifest := path_div actual (path_of §"manifest.json") in
  raise_if (negb (path_is_file manifest)) (value_error §"installed package manifest is unavailable");;
  document ← read_json manifest;
  check_manifest tx document;;
  Ok actual.

Definition find_pointer (tx : Transaction) (document : pyval) : py (option ppath) :=
  packages ← py_get document §"packages" VNone;
  schema ← py_get document §"schema" VNone;
  match packages with
  | VList packages =>
      raise_if (negb (eq_str schema §"msys.installed.v1"))
        (value_error §"installed registry has an invalid schema");;
      let matches := pointers_of (tx_package tx) packages in
      if tx_removed tx
      then raise_if (negb (bool_decide (matches = [])))
             (value_error §"removed package is still present in the registry");;
           Ok None
      else match matches with
           | [pointer] => actual ← check_pointer tx pointer; Ok (Some actual)
           | _ => Raise (value_error §"installed registry must contain exactly one requested package")
           end
  | _ => Raise (value_error §"installed registry has an invalid schema")
  end.

Definition _validate_catalog_transaction_pointer (state_dir : ppath) (tx : Transaction)
    : result failure (option ppath) :=
  match document ← read_json (path_div (path_div state_dir (path_of §"registry")) (path_of §"installed.json"));
        find_pointer tx document with
  | Ok actual => Ok actual
  | Raise e =>
      if caught e
      then Raise (CatalogFailure §"CATALOG_RELOAD_FAILED"
                    §"committed package pointer does not match the reload transaction"
                    [(§"package", VStr (tx_package tx)); (§"removed", VBool (tx_removed tx));
                     (§"reason", reason e)])
      else Raise (Plain e)
  end.

(** The proof returned with the result of the reload. *)
Definition pointer_proof (tx : Transaction) (actual : option ppath) : dict pystr pyval :=
  [(§"schema", VStr CATALOG_TRANSACTION_SCHEMA); (§"package", VStr (tx_package tx))]
  ++ match actual with
     | Some p => [(§"version", VStr (tx_version tx)); (§"path", VStr (path_str p)); (§"removed", VBool false)]
     | None => [(§"removed", VBool true)]
     end.
End Pointer.

(* ------------------------------------------------------------------ *)
(** ** The prospective catalog of the installer's preflight *)

Section Preflight.
Context `{PyLib} `{PyRepr}.

(** [registry.preferred_provider(role) is not None] *)
Definition has_provider (r : Roles.RoleRegistry) (role : pystr) : py bool :=
  p ← Roles.preferred_provider r role; Ok (bool_decide (is_Some p)).

(** Roles that have a provider now and would have none. *)
Definition lost_roles (old new : Roles.RoleRegistry) : py (list pystr) :=
  lost ← mapR (fun role =>
    had ← has_provider old role;
    (if negb had then Ok []
     else if bool_decide (role ∈ Roles.list_roles new)
     then has ← has_provider new role; Ok (if has then [] else [role])
     else Ok [role])) (Roles.list_roles old);
  Ok (sorted_strs (mjoin lost)).

Definition removed_startup (startup : list pystr) (old new : dict pystr Manifest.Component) : list pystr :=
  sorted_strs (List.filter (fun k => dhas old k && negb (dhas new k)) startup).

(** What a prospective catalog must not break; [verb] says what would. *)
Definition check_prospective (by_startup by_roles : pystr) (startup : list pystr) (profile : dict pystr pyval)
    (s : Supervisor) (prospective : dict pystr Manifest.Component) : py unit :=
  DepGraph._validate_dependency_graph prospective;;
  registry ← Roles.from_profile prospective profile;
  let gone := removed_startup startup (components s) prospective in
  raise_if (negb (bool_decide (gone = []))) (value_error (by_startup ++ str_join §", " gone));;
  lost ← lost_roles (role_registry s) registry;
  raise_if (negb (bool_decide (lost = []))) (value_error (by_roles ++ str_join §", " lost)).

Definition preflight_failure {A} (message : pystr) (details : exn -> dict pystr pyval) (r : py A) : result failure A :=
  match r with
  | Ok a => Ok a
  | Raise e => if caught e then Raise (CatalogFailure §"CATALOG_PREFLIGHT_FAILED" message (details e))
               else Raise (Plain e)
  end.

(** [preflight_installed_removal]; [installed] is the result of loading the
    installed manifests. *)
Definition preflight_installed_removal (builtin : dict pystr Manifest.Component)
    (installed : py (dict pystr Manifest.Component)) (startup : list pystr) (profile : dict pystr pyval)
    (package : pystr) (s : Supervisor) : result failure (list pystr * nat) :=
  preflight_failure §"prospective MSYS catalog removal is invalid"
    (fun e => [(§"package", VStr package); (§"reason", reason e)])
    (raise_if (negb (str_true package)) (value_error §"package id is required");;
     installed ← installed;
     let removed := sorted_strs (dkeys (filter (fun kc => Manifest.package_id kc.2 = package) installed)) in
     raise_if (bool_decide (removed = [])) (value_error §"package is not present in the installed catalog");;
     let prospective := Manifest.replace_package_components builtin
                          (filter (fun kc => Manifest.package_id kc.2 ≠ package) installed) in
     check_prospective §"removal deletes active profile startup components: "
       §"removal leaves enabled roles without providers: " startup profile s prospective;;
     Ok (removed, length prospective)).

(** [preflight_installed_candidate]; [target] and [root] are the resolved
    candidate and package directories, [candidate] the components of its
    manifest. *)
Definition managed_version (package : pystr) (target root : ppath) : py unit :=
  I18n.relative_to target root;;
  match drop (length (pparts root)) (pparts target) with
  | [id; versions; _] =>
      raise_if (negb (bool_decide (id = package)) || negb (bool_decide (versions = §"versions")))
        (value_error §"candidate is outside its managed package version root")
  | _ => Raise (value_error §"candidate is outside its managed package version root")
  end.

Definition preflight_installed_candidate (target root : py ppath)
    (candidate : ppath -> py (dict pystr Manifest.Component)) (builtin : dict pystr Manifest.Component)
    (installed : py (dict pystr Manifest.Component)) (startup : list pystr) (profile : dict pystr pyval)
    (package shown : pystr) (s : Supervisor) : result failure (ppath * list pystr * nat) :=
  preflight_failure §"prospective MSYS catalog is invalid"
    (fun e => [(§"package", VStr package); (§"path", VStr shown); (§"reason", reason e)])
    (target ← target; root ← root;
     managed_version package target root;;
     candidate ← candidate (path_div target (path_of §"manifest.json"));
     raise_if (bool_decide (candidate = [])) (value_error §"candidate manifest has no components");;
     raise_if (negb (forallb (fun c => bool_decide (Manifest.package_id c = package)) (dvalues candidate)))
       (value_error §"candidate manifest package identity mismatch");;
     installed ← installed;
     let prospective := Manifest.replace_package_components builtin
                          (Manifest.replace_package_components installed candidate) in
     check_prospective §"candidate removes active profile startup components: "
       §"candidate leaves enabled roles without providers: " startup profile s prospective;;
     Ok (target, sorted_strs (dkeys candidate), length prospective)).
End Preflight.

(* ------------------------------------------------------------------ *)
(** ** Which components start without being asked for *)

Section Eager.
Context `{PyLib} `{PyRepr}.

Definition candidate_of (k : pystr) (info : Roles.RoleInfo) : bool :=
  existsb (fun c => bool_decide (Roles.provider_id c = k)) (Roles.info_candidates info).

Definition _preferred_exclusive_roles (k : pystr) (s : Supervisor) : py (list pystr) :=
  infos ← Roles.list_role_info (role_registry s);
  Ok (Roles.info_name <$> List.filter (fun i => Roles.info_exclusive i
        && bool_decide (Roles.info_preferred i = Some k)) infos).
Definition _exclusive_candidate_roles (k : pystr) (s : Supervisor) : py (list pystr) :=
  infos ← Roles.list_role_info (role_registry s);
  Ok (Roles.info_name <$> List.filter (fun i => Roles.info_exclusive i && candidate_of k i) infos).
Definition _enabled_candidate_roles (k : pystr) (s : Supervisor) : py (list pystr) :=
  infos ← Roles.list_role_info (role_registry s);
  Ok (Roles.info_name <$> List.filter (candidate_of k) infos).

Definition declares_role (m : Manifest.Component) : bool :=
  existsb (fun p => bool_decide (Manifest.kind p = §"role")) (Manifest.provides m).

Definition _is_eager_role_provider (k : pystr) (s : Supervisor) : py bool :=
  let component := dget (components s) k in
  if match component with
     | Some m => eq_str (dget_or (Manifest.raw m) §"x-msys-role-activation" VNone) §"always"
     | None => false
     end
  then Ok true
  else
    enabled ← _enabled_candidate_roles k s;
    if match component with Some m => declares_role m | None => false end && bool_decide (enabled = [])
    then Ok false
    else
      candidates ← _exclusive_candidate_roles k s;
      if bool_decide (candidates = []) then Ok true
      else preferred ← _preferred_exclusive_roles k s; Ok (negb (bool_decide (preferred = []))).

Definition automatic_lifecycle (m : Manifest.Component) : bool :=
  bool_decide (Manifest.lifecycle m ∈ [§"session"; §"background"]).

(** [[x for x in l if p(x)]] where [p] may raise. *)
Fixpoint filterR {A} (p : A -> py bool) (l : list A) : py (list A) :=
  match l with
  | [] => Ok []
  | x :: l => b ← p x; ys ← filterR p l; Ok (if b then x :: ys else ys)
  end.

(** The components [_start_profile_components] goes through, in order; it
    starts those that are in the catalog when their turn comes. *)
Definition startup_order (startup : list pystr) (s : Supervisor) : py (list pystr) :=
  startup ← filterR (fun k => _is_eager_role_provider k s) startup;
  eager ← filterR (fun kc =>
    if automatic_lifecycle kc.2 || bool_decide (kc.1 ∈ startup) then _is_eager_role_provider kc.1 s else Ok false)
    (components s);
  Ok (fromkeys (startup ++ eager.*1)).

(** The roles that are preferably provided by one of [affected]. *)
Definition role_targets (affected : list pystr) (r : Roles.RoleRegistry) : py (list pystr) :=
  ps ← mapR (Roles.preferred_provider r) (Roles.list_roles r);
  Ok (List.filter (fun k => bool_decide (k ∈ affected)) (omap id ps)).

Definition _catalog_health_targets (affected : list pystr) (s : Supervisor) : py (list pystr) :=
  eager ← filterR (fun k =>
    match dget (components s) k with
    | Some m => if automatic_lifecycle m then _is_eager_role_provider k s else Ok false
    | None => Ok false
    end) affected;
  roles ← role_targets affected (role_registry s);
  Ok (sorted_strs (fromkeys (eager ++ roles))).
End Eager.

(* ------------------------------------------------------------------ *)
(** ** The commit of a reloaded catalog *)

Definition set_catalog (cs : dict pystr Manifest.Component) (objects : dict pystr nat)
    (registry : Roles.RoleRegistry) (s : Supervisor) : Supervisor :=
  {| heap := heap s; instances := instances s; components := cs; component_objects := objects;
     role_registry := registry; service_catalog := Services.make cs;
     catalog_epoch := catalog_epoch s + 1; next_request_id := next_request_id s; stopping := stopping s;
     stop_requests := stop_requests s; foreground_stack := foreground_stack s;
     backgrounded_components := backgrounded_components s; failure_history := failure_history s;
     quarantined := quarantined s; quarantine_times := quarantine_times s;
     recovery_allowed := recovery_allowed s; idle_tasks := idle_tasks s; futures := futures s |}.

(** What the commit decides for the rest of the reload. *)
Record Commit := {
  added : list pystr;
  changed : list pystr;
  removed : list pystr;
  transaction_affected : gset pystr;
  runtime_before : list pystr;
  restart_targets : gset pystr;
  generation_floor : dict pystr Z;
  rollback_resume : list pystr;
  planned_outage : option Z;
  role_transition_targets : gset pystr;
  overrides : dict pystr pystr;
  stop_targets : dict pystr nat;
  retry_targets : list nat;
}.

Section Commit.
Context `{PyLib} `{PyRepr}.

(** The files of both are the same: the running object is kept. *)
Definition same_component (current candidate : Manifest.Component) : bool :=
  bool_decide (Manifest.package_version current = Manifest.package_version candidate)
  && py_eq (VDict (Manifest.raw current)) (VDict (Manifest.raw candidate))
  && bool_decide (Manifest.manifest_path current = Manifest.manifest_path candidate).

Definition kept (prev : dict pystr Manifest.Component) (k : pystr) (candidate : Manifest.Component) : bool :=
  match dget prev k with Some current => same_component current candidate | None => false end.

Definition keep_components (prev repl : dict pystr Manifest.Component) : dict pystr Manifest.Component :=
  (fun kc => (kc.1, if kept prev kc.1 kc.2 then default kc.2 (dget prev kc.1) else kc.2)) <$> repl.
Definition keep_objects (prev : dict pystr Manifest.Component) (prev_objects : dict pystr nat)
    (repl : dict pystr Manifest.Component) (objects : dict pystr nat) : dict pystr nat :=
  (fun kc => let loaded := dget_or objects kc.1 0%nat in
             (kc.1, if kept prev kc.1 kc.2 then dget_or prev_objects kc.1 loaded else loaded)) <$> repl.

Definition removed_keys (prev repl : dict pystr Manifest.Component) : list pystr :=
  sorted_strs (List.filter (fun k => negb (dhas repl k)) (dkeys prev)).
Definition added_keys (prev repl : dict pystr Manifest.Component) : list pystr :=
  sorted_strs (List.filter (fun k => negb (dhas prev k)) (dkeys repl)).
Definition changed_keys (prev repl : dict pystr Manifest.Component) (prev_objects objects : dict pystr nat)
    : list pystr :=
  sorted_strs (List.filter (fun k => dhas repl k && negb (bool_decide (dget prev_objects k = dget objects k)))
    (dkeys prev)).

Definition of_package (package : pystr) (d : dict pystr Manifest.Component) : list pystr :=
  dkeys (filter (fun kc => Manifest.package_id kc.2 = package) d).

Definition invalid_resume (tx : Transaction) (repl : dict pystr Manifest.Component) : list pystr :=
  sorted_strs (List.filter (fun k =>
    match dget repl k with
    | Some m => negb (bool_decide (Manifest.package_id m = tx_package tx))
    | None => true
    end) (resume_components tx)).

Definition _catalog_instance_is_active (i : Instance) : bool :=
  if finalized i then false else if ready i then true else running i.

Definition active_key (s : Supervisor) (k : pystr) : bool :=
  match current s k with Some i => _catalog_instance_is_active i | None => false end.

Definition floor_of (c : Core) (k : pystr) : Z :=
  Z.max (dget_or (generations c) k 0%Z)
        (match current (super c) k with Some i => generation i | None => 0%Z end).

Definition _begin_catalog_display_outage (now : Z) (affected : list pystr) (c : Core)
    : Core * py (option Z) :=
  match Roles.active_provider (role_registry (super c)) DISPLAY_OUTPUT_ROLE with
  | Raise e => (c, if is_key_error (exn_type e) then Ok None else Raise e)
  | Ok None => (c, Ok None)
  | Ok (Some provider) =>
      if negb (str_true provider) || negb (bool_decide (provider ∈ affected)) then (c, Ok None)
      else match dget (instances (super c)) provider with
           | None => (c, Ok None)
           | Some n =>
               if match heap (super c) !! n with Some i => ready i | None => false end
               then let '(c, o) := _begin_display_outage now n false false c in (c, Ok o)
               else (c, Ok None)
           end
  end.

(** [{role: f(role) for role in registry.list_roles()}] *)
Definition by_role {A} (f : pystr -> py A) (r : Roles.RoleRegistry) : py (dict pystr A) :=
  mapR (fun role => a ← f role; Ok (role, a)) (Roles.list_roles r).

(** The preferences that are still valid. *)
Definition restore_preference (acc : Roles.RoleRegistry * dict pystr pystr) (rp : pystr * pystr)
    : Roles.RoleRegistry * dict pystr pystr :=
  match Roles.select_preferred acc.1 rp.1 rp.2 with
  | Ok (r, _) => (r, dset acc.2 rp.1 rp.2)
  | Raise _ => acc
  end.

(** An active provider keeps its lease when its component is unchanged. *)
Definition keeps_lease (s : Supervisor) (objects : dict pystr nat) (provider : pystr) : option Instance :=
  match current s provider with
  | Some i => if ready i && bool_decide (dget objects provider = Some (component_object i)) then Some i else None
  | None => None
  end.

Definition restore_lease (s : Supervisor) (objects : dict pystr nat) (role : pystr)
    (r : Roles.RoleRegistry) (provider : pystr) : py Roles.RoleRegistry :=
  match keeps_lease s objects provider with
  | None => Ok r
  | Some i =>
      if negb (bool_decide (role ∈ Roles.list_roles r)) then Ok r
      else
        candidate ← Roles.is_candidate r role provider;
        Ok (if candidate
            then match Roles.acquire r role (Some provider) (Some (§"generation:" ++ dec_Z (generation i))) with
                 | Ok (r, _) => r
                 | Raise _ => r
                 end
            else r)
  end.

Definition restore_leases (s : Supervisor) (objects : dict pystr nat) (old_active : dict pystr (list pystr))
    (r : Roles.RoleRegistry) : py Roles.RoleRegistry :=
  foldR (fun r ra => foldR (restore_lease s objects ra.1) r ra.2) r old_active.

Definition transition_targets (old_preferred : dict pystr (option pystr)) (r : Roles.RoleRegistry)
    : py (list pystr) :=
  ps ← by_role (Roles.preferred_provider r) r;
  Ok (omap (fun rp => match rp.2 with
                      | Some p => if bool_decide (mjoin (dget old_preferred rp.1) = Some p) then None else Some p
                      | None => None
                      end) ps).

(** The failure budgets of changed and added components are renewed. *)
Definition forget_failures (c : Core) (k : pystr) : Core :=
  let s := super c in
  let s := pardon k (set_failure_history (ddel (failure_history s) k) s) in
  set_spawn_retry_tasks (ddel (spawn_retry_tasks c) k)
    (set_spawn_backoff_until (ddel (spawn_backoff_until c) k) (set_super s c)).

Definition retry_of (c : Core) (k : pystr) : option nat :=
  match dget (spawn_retry_tasks c) k with
  | Some t => if bool_decide (t ∈ retries_done c) then None else Some t
  | None => None
  end.

(** The block under the catalog lock.  [repl] and [objects] are the loaded
    catalog, [profile] the profile and [prefs] the role preferences. *)
Definition reload_commit (now : Z) (tx : option Transaction) (profile : dict pystr pyval)
    (prefs : dict pystr pystr) (repl : dict pystr Manifest.Component) (objects : dict pystr nat) (c : Core)
    : Core * result failure Commit :=
  let s := super c in
  let prev := components s in
  let repl' := keep_components prev repl in
  let objects' := keep_objects prev (component_objects s) repl objects in
  let removed := removed_keys prev repl' in
  let changed := changed_keys prev repl' (component_objects s) objects' in
  let added := added_keys prev repl' in
  let invalid := match tx with Some tx => invalid_resume tx repl' | None => [] end in
  let resume := match tx with Some tx => resume_components tx | None => [] end in
  let package := match tx with Some tx => Some (tx_package tx) | None => None end in
  let affected : gset pystr :=
    match tx with
    | Some tx => list_to_set (of_package (tx_package tx) prev ++ of_package (tx_package tx) repl')
    | None => ∅
    end in
  if negb (bool_decide (invalid = []))
  then (c, Raise (CatalogFailure §"CATALOG_RELOAD_FAILED"
                    §"runtime restore request is outside the package transaction"
                    [(§"package", VStr (default [] package)); (§"invalid_components", str_list invalid)]))
  else
    let before := List.filter (active_key s) (sorted_strs (changed ++ removed)) in
    let restart : gset pystr := list_to_set (List.filter (dhas repl') before ++ resume) in
    let floor := (fun k => (k, floor_of c k))
                   <$> List.filter (fun k => bool_decide (k ∈ changed ++ added)) (sorted_strs (elements restart)) in
    let rollback := sorted_strs (elements (list_to_set (before ++ resume) : gset pystr)) in
    let '(c, planned) := _begin_catalog_display_outage now (removed ++ changed) c in
    match planned ← planned;
          old_active ← by_role (Roles.active_providers (role_registry s)) (role_registry s);
          old_preferred ← by_role (Roles.preferred_provider (role_registry s)) (role_registry s);
          registry ← Roles.from_profile repl' profile;
          let '(registry, valid) := foldl restore_preference (registry, []) prefs in
          registry ← restore_leases s objects' old_active registry;
          targets ← transition_targets old_preferred registry;
          Ok (planned, registry, valid, targets)
    with
    | Raise e => (c, Raise (Plain e))
    | Ok (planned, registry, valid, targets) =>
        let c := set_super (set_catalog repl' objects' registry (super c)) c in
        let stops := omap (fun k => pair k <$> dget (instances (super c)) k) (removed ++ changed) in
        let retries := omap (retry_of c) (changed ++ added) in
        (foldl forget_failures c (changed ++ added),
         Ok {| added := added; changed := changed; removed := removed; transaction_affected := affected;
               runtime_before := before; restart_targets := restart; generation_floor := floor;
               rollback_resume := rollback; planned_outage := planned;
               role_transition_targets := list_to_set targets; overrides := valid; stop_targets := stops;
               retry_targets := retries |})
    end.
End Commit.

(* ------------------------------------------------------------------ *)
(** ** The switch of the running session *)

(** What the reload awaits or writes: each may change the rest of Core before
    it returns. *)
Class Runtime := {
  (** cancel retry tasks and wait for their end *)
  settle_retries : list nat -> Core -> Core * py unit;
  (** [stop_component(key, expected=instance)] *)
  stop_component : pystr -> option nat -> Core -> Core * py unit;
  (** [ensure_ready(key)] *)
  await_ready : pystr -> Core -> Core * py nat;
  (** wait for the lock of suspensions and recoveries *)
  lock_recovery : Core -> Core;
  (** [_recover_display_consumers(instance)] *)
  recover_consumers : nat -> Core -> Core * py unit;
  (** the clients recorded by an outage that is no longer the current one *)
  past_consumers : Z -> Core -> list pystr;
  (** write the role preferences *)
  persist_preferences : dict pystr pystr -> Core -> py unit;
}.

(** A component that proved its health. *)
Record Verified := {
  v_component : pystr;
  v_generation : Z;
  v_version : pystr;
  v_root : option ppath;
}.

Section Switch.
Context `{PyLib} `{PyRepr} `{FileSystem} `{Runtime}.

(** [for x in l: await f(x)] *)
Fixpoint each {A} (f : A -> Core -> Core * py unit) (l : list A) (c : Core) : Core * py unit :=
  match l with
  | [] => (c, Ok tt)
  | x :: l => match f x c with (c, Ok _) => each f l c | (c, Raise e) => (c, Raise e) end
  end.

(** [try: ... except Exception: print(...)] *)
Definition logged (r : py unit) : py unit :=
  match r with Raise e => if caught e then Ok tt else Raise e | Ok _ => Ok tt end.

Definition suspend_client (outage : Z) (k : pystr) (c : Core) : Core * py unit :=
  if negb (is_outage outage c) then (c, Ok tt)
  else if dhas (instances (super c)) k
  then let '(c, r) := stop_component k None c in (c, logged r)
  else
    let retry := retry_of c k in
    let c := set_spawn_retry_tasks (ddel (spawn_retry_tasks c) k) c in
    match retry with
    | Some t => let '(c, r) := settle_retries [t] c in (c, r)
    | None => (c, Ok tt)
    end.

Definition _suspend_display_consumers (outage : Z) (c : Core) : Core * py unit :=
  let c := lock_recovery c in
  match display_outage c with
  | Some o => if (outage_id o =? outage)%Z then each (suspend_client outage) (suspended o) c else (c, Ok tt)
  | None => (c, Ok tt)
  end.

(** Whether an instance object is of the current catalog. *)
Definition of_catalog (s : Supervisor) (i : Instance) : bool :=
  match dget (components s) (key i) with Some _ => component_current s i | None => false end.

Definition lease_again (n : nat) (c : Core) : Core * py unit :=
  match heap (super c) !! n with
  | Some i =>
      if ready i && of_catalog (super c) i
      then match _lease_preferred_roles n (super c) with
           | Ok s => (set_super s c, Ok tt)
           | Raise e => (c, Raise e)
           end
      else (c, Ok tt)
  | None => (c, Ok tt)
  end.

Definition start_profile_component (k : pystr) (c : Core) : Core * py unit :=
  if negb (dhas (components (super c)) k) then (c, Ok tt)
  else
    let '(c, r) := match await_ready k c with
                   | (c, Ok n) =>
                       match display_outage c, heap (super c) !! n with
                       | Some _, Some i =>
                           if _provides_display_output (component i) then recover_consumers n c else (c, Ok tt)
                       | _, _ => (c, Ok tt)
                       end
                   | (c, Raise e) => (c, Raise e)
                   end in
    (c, logged r).

Definition _start_profile_components (c : Core) : Core * py unit :=
  match startup_order (startup c) (super c) with
  | Raise e => (c, Raise e)
  | Ok keys => each start_profile_component keys c
  end.

(** The checks of one health target after [ensure_ready] returned [n]. *)
Definition check_health (floors : dict pystr Z) (k : pystr) (n : nat) (s : Supervisor) : py Verified :=
  let missing := runtime_error §"ready instance belongs to the previous catalog" in
  match heap s !! n with
  | None => Raise missing
  | Some i =>
      raise_if (negb (ready i) || negb (bool_decide (state i = §"ready")))
        (runtime_error (§"component state is " ++ state i));;
      match dget (components s) k with
      | None => Raise missing
      | Some m =>
          raise_if (negb (bool_decide (dget (component_objects s) k = Some (component_object i)))) missing;;
          raise_if (match dget floors k with Some floor => (generation i <=? floor)%Z | None => false end)
            (runtime_error (§"ready generation " ++ dec_Z (generation i) ++ §" did not replace "
                            ++ dec_Z (dget_or floors k 0%Z)));;
          Ok {| v_component := k; v_generation := generation i; v_version := Manifest.package_version m;
                v_root := (fun p => path_resolve (I18n.path_parent p)) <$> Manifest.manifest_path m |}
      end
  end.

Definition health_failure (floors : dict pystr Z) (k : pystr) (e : exn) : pyval :=
  VDict ([(§"component", VStr k); (§"message", reason e)]
         ++ match dget floors k with Some f => [(§"required_generation_gt", VInt f)] | None => [] end).

Fixpoint health_loop (floors : dict pystr Z) (targets : list pystr) (c : Core)
    : Core * py (list pyval * list Verified) :=
  match targets with
  | [] => (c, Ok ([], []))
  | k :: targets =>
      let '(c, n) := await_ready k c in
      match n ← n; check_health floors k n (super c) with
      | Ok v => let '(c, r) := health_loop floors targets c in
                (c, fv ← r; Ok (fv.1, v :: fv.2))
      | Raise e =>
          if negb (caught e) then (c, Raise e)
          else let '(c, r) := health_loop floors targets c in
               (c, fv ← r; Ok (health_failure floors k e :: fv.1, fv.2))
      end
  end.

Definition _verify_catalog_health (floors : dict pystr Z) (targets : list pystr) (c : Core)
    : Core * result failure (list Verified) :=
  let '(c, r) := health_loop floors targets c in
  (c, match r with
      | Raise e => Raise (Plain e)
      | Ok ([], verified) => Ok verified
      | Ok (failures, _) =>
          Raise (CatalogFailure §"CATALOG_HEALTH_FAILED" §"critical catalog components did not become ready"
                   [(§"failures", VList failures); (§"targets", str_list targets)])
      end).

Definition health_targets (k : Commit) (c : Core) : py (list pystr) :=
  targets ← _catalog_health_targets (sorted_strs (changed k ++ added k)) (super c);
  let consumers := match planned_outage k, display_outage c with
                   | Some id, Some o => if (outage_id o =? id)%Z then consumers o else past_consumers id c
                   | Some id, None => past_consumers id c
                   | None, _ => []
                   end in
  Ok (sorted_strs (fromkeys (targets ++ elements (role_transition_targets k) ++ elements (restart_targets k)
                             ++ List.filter (dhas (components (super c))) consumers))).

(** The statements of the [try] block in sequence. *)
Definition then_ {A} (m : Core * py unit) (f : Core -> Core * result failure A) : Core * result failure A :=
  match m with (c, Ok _) => f c | (c, Raise e) => (c, Raise (Plain e)) end.

Definition runtime_switch (verify : bool) (k : Commit) (c : Core)
    : Core * result failure (list pystr * list Verified) :=
  then_ (if bool_decide (retry_targets k = []) then (c, Ok tt) else settle_retries (retry_targets k) c) (fun c =>
  then_ (match planned_outage k with Some id => _suspend_display_consumers id c | None => (c, Ok tt) end) (fun c =>
  then_ (each (fun kn => stop_component kn.1 (Some kn.2)) (stop_targets k) c) (fun c =>
  then_ (each lease_again (dvalues (instances (super c))) c) (fun c =>
  then_ (_start_profile_components c) (fun c =>
  match health_targets k c with
  | Raise e => (c, Raise (Plain e))
  | Ok targets =>
      let '(c, verified) := if verify then _verify_catalog_health (generation_floor k) targets c else (c, Ok []) in
      match verified with
      | Raise f => (c, Raise f)
      | Ok verified => then_ (c, persist_preferences (overrides k) c) (fun c => (c, Ok (targets, verified)))
      end
  end))))).

(** Every failure of the switch is a typed one; with a transaction it says
    what the installer has to resume. *)
Definition setdefault (d : dict pystr pyval) (k : pystr) (v : pyval) : dict pystr pyval :=
  if dhas d k then d else dset d k v.

Definition switch_failure (tx : option Transaction) (resume : list pystr) (f : failure) : failure :=
  match f with
  | CatalogFailure code message details =>
      CatalogFailure code message
        (match tx with
         | Some tx => setdefault (setdefault details §"resume_components" (str_list resume))
                        §"package" (VStr (tx_package tx))
         | None => details
         end)
  | Plain e =>
      if caught e
      then CatalogFailure §"CATALOG_RELOAD_FAILED" §"installed catalog runtime switch failed"
             ([(§"reason", reason e)]
              ++ match tx with
                 | Some tx => [(§"package", VStr (tx_package tx)); (§"resume_components", str_list resume)]
                 | None => []
                 end)
      else Plain e
  end.

(** What the reload returns. *)
Record TransactionResult := {
  tr_pointer : option ppath;
  tr_epoch : Z;
  affected_components : list pystr;
  running_before : list pystr;
  resumed_components : list pystr;
  restarted_components : list (Verified * Z);
  generation_verified : bool;
}.

Record Reloaded := {
  r_added : list pystr;
  r_changed : list pystr;
  r_removed : list pystr;
  health_checked : list pystr;
  r_transaction : option TransactionResult;
}.

(** [{record["component"]: record}] gives the last record of a component. *)
Definition verified_by (k : pystr) (verified : list Verified) : option Verified :=
  last (List.filter (fun v => bool_decide (v_component v = k)) verified).

Definition restarted_records (k : Commit) (verified : list Verified) : list (Verified * Z) :=
  omap (fun key => match verified_by key verified with
                   | Some v => Some (v, dget_or (generation_floor k) key 0%Z)
                   | None => None
                   end) (sorted_strs (dkeys (generation_floor k))).

Definition reload_result (verify : bool) (pointer : option (option ppath)) (k : Commit)
    (targets : list pystr) (verified : list Verified) (c : Core) : Reloaded :=
  {| r_added := added k; r_changed := changed k; r_removed := removed k;
     health_checked := if verify then targets else [];
     r_transaction :=
       match pointer with
       | Some p => Some {| tr_pointer := p; tr_epoch := catalog_epoch (super c);
                           affected_components := sorted_strs (elements (transaction_affected k));
                           running_before := sorted_strs (runtime_before k);
                           resumed_components := sorted_strs (elements (restart_targets k));
                           restarted_components := restarted_records k verified;
                           generation_verified := verify |}
       | None => None
       end |}.

(** [_reload_installed_components_locked]; [pointer] is the result of the
    pointer's validation and [installed] that of loading the installed
    manifests, with the identities of the loaded objects. *)
Definition _reload_installed_components_locked (now : Z) (verify : bool) (tx : option Transaction)
    (pointer : result failure (option (option ppath)))
    (builtin : dict pystr Manifest.Component) (installed : py (dict pystr Manifest.Component))
    (objects : dict pystr nat) (profile : dict pystr pyval) (prefs : dict pystr pystr) (c : Core)
    : Core * result failure Reloaded :=
  match pointer with
  | Raise f => (c, Raise f)
  | Ok pointer =>
      match installed ← installed;
            let replacement := Manifest.replace_package_components builtin installed in
            DepGraph._validate_dependency_graph replacement;;
            Ok replacement
      with
      | Raise e => (c, Raise (Plain e))
      | Ok replacement =>
          match reload_commit now tx profile prefs replacement objects c with
          | (c, Raise f) => (c, Raise f)
          | (c, Ok k) =>
              match runtime_switch verify k c with
              | (c, Raise f) => (c, Raise (switch_failure tx (rollback_resume k) f))
              | (c, Ok (targets, verified)) => (c, Ok (reload_result verify pointer k targets verified c))
              end
          end
      end
  end.
End Switch.

(* ------------------------------------------------------------------ *)
(** ** The commit *)

Section CommitLemmas.
Context {lib : PyLib} {repr : PyRepr}.

Lemma dget_keep {V W} (f : pystr * V -> W) (d : dict pystr V) k :
  dget ((fun kv => (kv.1, f kv)) <$> d) k = (fun v => f (k, v)) <$> dget d k.
Proof.
  induction d as [|[k' v] d IH]; [done|]. cbn [fmap list_fmap dget fst].
  case_decide; [by subst|exact IH].
Qed.

Lemma sorted_filter_elem (f : pystr -> bool) l x : x ∈ sorted_strs (List.filter f l) <-> f x = true /\ x ∈ l.
Proof. rewrite sorted_strs_elem, !list_elem_of_In, filter_In. tauto. Qed.

Lemma dhas_is_Some {V} (d : dict pystr V) k : dhas d k = true <-> is_Some (dget d k).
Proof. unfold dhas. by rewrite bool_decide_eq_true. Qed.

Lemma keep_components_has prev repl k :
  is_Some (dget (keep_components prev repl) k) <-> is_Some (dget repl k).
Proof. unfold keep_components. rewrite dget_keep. apply fmap_is_Some. Qed.

Lemma removed_elem prev repl k : k ∈ removed_keys prev repl <-> is_Some (dget prev k) /\ dget repl k = None.
Proof.
  unfold removed_keys. rewrite sorted_filter_elem, dkeys_elem, negb_true_iff, dhas_false. tauto.
Qed.

Lemma added_elem prev repl k : k ∈ added_keys prev repl <-> dget prev k = None /\ is_Some (dget repl k).
Proof.
  unfold added_keys. rewrite sorted_filter_elem, dkeys_elem, negb_true_iff, dhas_false. tauto.
Qed.

Lemma changed_elem prev repl prev_objects objects k : k ∈ changed_keys prev repl prev_objects objects <->
  is_Some (dget prev k) /\ is_Some (dget repl k) /\ dget prev_objects k <> dget objects k.
Proof.
  unfold changed_keys.
  rewrite sorted_filter_elem, dkeys_elem, andb_true_iff, dhas_is_Some, negb_true_iff, bool_decide_eq_false. tauto.
Qed.

(** The planned outage of a reload touches only the outage itself. *)
Lemma planned_shape now affected c c' r : _begin_catalog_display_outage now affected c = (c', r) ->
  exists o id allowed,
    c' = set_display_outage o (set_next_display_outage_id id (set_super (set_recovery_allowed allowed (super c)) c)).
Proof.
  assert (exists o id allowed,
    c = set_display_outage o (set_next_display_outage_id id (set_super (set_recovery_allowed allowed (super c)) c))) as Hid.
  { exists (display_outage c), (next_display_outage_id c), (recovery_allowed (super c)). by destruct c as [[[] ? ?]]. }
  unfold _begin_catalog_display_outage.
  destruct (Roles.active_provider _ _) as [[p|]|e]; [|by intros [= <- _]..].
  destruct (_ || _); [by intros [= <- _]|]. destruct (dget _ p) as [n|]; [|by intros [= <- _]].
  destruct (match heap _ !! n with Some i => ready i | None => false end); [|by intros [= <- _]].
  unfold _begin_display_outage. destruct (heap _ !! n) as [i|]; [|by intros [= <- _]].
  destruct (_ || _); [by intros [= <- _]|].
  destruct (display_outage c) as [o|]; intros [= <- _].
  - match goal with |- context [set_display_outage (Some ?o') _] => generalize o' end. intros o'.
    exists (Some o'), (next_display_outage_id c), (Some ∅). by destruct c as [[[] ? ?]].
  - by eexists _, _, _.
Qed.

(** ... and its only error, an unknown role, is handled. *)
Lemma planned_Ok now affected c : roles_wf (super c) ->
  exists o, (_begin_catalog_display_outage now affected c).2 = Ok o.
Proof.
  intros Hwf. unfold _begin_catalog_display_outage.
  destruct (Roles.active_provider _ _) as [[p|]|e] eqn:Hp; [|by eexists|].
  - destruct (_ || _); [by eexists|]. destruct (dget _ p) as [n|]; [|by eexists].
    destruct (match heap _ !! n with Some i => ready i | None => false end); [|by eexists].
    destruct (_begin_display_outage _ _ _ _ _). by eexists.
  - revert Hp. unfold Roles.active_provider, Roles.active_providers.
    destruct (dget (Roles._roles (role_registry (super c))) DISPLAY_OUTPUT_ROLE) as [st|] eqn:Hs.
    + destruct (Roles.active_leases_total _ _ _ Hwf Hs) as (ts & _ & ->). done.
    + unfold Roles.active_leases, Roles._state. rewrite Hs. intros [= <-]. by eexists.
Qed.

(* ------------------------------------------------------------------ *)
(** ** The leases of the new registry *)

Lemma restore_preferences_spec prefs acc r valid : Roles.registry_wf acc.1 ->
  foldl restore_preference acc prefs = (r, valid) ->
  Roles.registry_wf r /\ Roles._leases r = Roles._leases acc.1 /\ Roles._roles r = Roles._roles acc.1 /\
  (forall role, is_Some (dget (Roles._preferred acc.1) role) -> is_Some (dget (Roles._preferred r) role)).
Proof.
  revert acc; induction prefs as [|[role p] prefs IH]; intros acc Hwf; cbn [foldl]; [by intros ->|].
  unfold restore_preference at 2. cbn [fst snd].
  destruct (Roles.select_preferred acc.1 role p) as [[r1 x]|e] eqn:Hs; [|by apply IH].
  intros Hf. apply IH in Hf as (H1 & H2 & H3 & H4); [|by eapply Roles.select_wf].
  unfold Roles.select_preferred in Hs. inv_result. cbn in H2, H3, H4. split; [exact H1|]. split; [exact H2|]. split; [exact H3|].
  intros role' Hr. apply H4. rewrite dget_dset. by case_decide.
Qed.

(** A lease of the new registry was held before, by an instance whose
    component the reload keeps. *)
Definition carried (s : Supervisor) (objects : dict pystr nat) (old_active : dict pystr (list pystr))
    (l : Roles.RoleLease) : Prop :=
  exists ps i, (Roles.lease_role l, ps) ∈ old_active /\ Roles.lease_provider l ∈ ps /\
    keeps_lease s objects (Roles.lease_provider l) = Some i /\
    Roles.holder l = Some (§"generation:" ++ dec_Z (generation i)).

Definition leases_carried s objects old_active (r : Roles.RoleRegistry) : Prop :=
  Roles.registry_wf r /\ forall t l, dget (Roles._leases r) t = Some l -> carried s objects old_active l.

Lemma restore_lease_carried s objects old_active role ps p r r' :
  (role, ps) ∈ old_active -> p ∈ ps -> restore_lease s objects role r p = Ok r' ->
  leases_carried s objects old_active r -> leases_carried s objects old_active r'.
Proof.
  intros Hin Hp. unfold restore_lease. destruct (keeps_lease s objects p) as [i|] eqn:Hk; [|by intros [= <-]].
  destruct (negb _); [by intros [= <-]|]. intros Hr. inv_result. destruct x; [|by inv_result].
  destruct (Roles.acquire r role (Some p) _) as [[r1 l]|e] eqn:Ha; [|done]. intros [Hwf Hl].
  split; [by eapply Roles.acquire_wf|]. intros t l'.
  apply Roles.acquire_Ok in Ha as (st & cand & ts & _ & _ & _ & _ & -> & Hc & ->). cbn. rewrite dget_dset.
  case_decide; [|apply Hl]. intros [= <-]. exists ps, i. cbn. by rewrite Hc.
Qed.

Lemma restore_leases_carried s objects old_active r r' :
  restore_leases s objects old_active r = Ok r' ->
  leases_carried s objects old_active r -> leases_carried s objects old_active r'.
Proof.
  unfold restore_leases.
  assert (forall todo r, (forall x, x ∈ todo -> x ∈ old_active) ->
    foldR (fun r ra => foldR (restore_lease s objects ra.1) r ra.2) r todo = Ok r' ->
    leases_carried s objects old_active r -> leases_carried s objects old_active r') as Hgen; [|by apply Hgen].
  clear r. induction todo as [|[role ps] todo IH]; intros r Hsub; cbn [foldR fst snd]; [by intros [= <-]|].
  intros Hf Hr. inv_result. eapply IH; [set_solver|done|].
  assert (forall qs r1, (forall p, p ∈ qs -> p ∈ ps) -> foldR (restore_lease s objects role) r1 qs = Ok x ->
    leases_carried s objects old_active r1 -> leases_carried s objects old_active x) as Hinner; [|by eapply Hinner].
  induction qs as [|p qs IHq]; intros r1 Hq; cbn [foldR]; [by intros [= <-]|].
  intros Hg Hr1. destruct (restore_lease s objects role r1 p) as [r2|] eqn:H2; [|done].
  eapply IHq; [set_solver|exact Hg|].
  eapply restore_lease_carried; [apply Hsub; by left|apply Hq; by left|exact H2|done].
Qed.

(* ------------------------------------------------------------------ *)
(** ** Renewed failure budgets *)

(** The keyed accounts of the supervisor are dictionaries. *)
Record budgets_wf (c : Core) : Prop := {
  bw_history : dict_wf (failure_history (super c));
  bw_times : dict_wf (quarantine_times (super c));
  bw_backoff : dict_wf (spawn_backoff_until c);
  bw_retries : dict_wf (spawn_retry_tasks c);
}.

(** What a failure leaves for a component. *)
Definition budget (c : Core) (k : pystr) : option (list Z) * bool * option Z * option Z * option nat :=
  (dget (failure_history (super c)) k, bool_decide (k ∈ quarantined (super c)),
   dget (quarantine_times (super c)) k, dget (spawn_backoff_until c) k, dget (spawn_retry_tasks c) k).

Lemma forget_account c k : super (forget_failures c k) = account (super c) (Renewed k).
Proof. reflexivity. Qed.

Lemma forget_spec c k : budgets_wf c -> budgets_wf (forget_failures c k) /\
  forall x, budget (forget_failures c k) x =
            if decide (x = k) then (None, false, None, None, None) else budget c x.
Proof.
  intros [H1 H2 H3 H4]. split; [by constructor; apply ddel_wf|]. intros x. unfold budget. cbn.
  rewrite !dget_ddel by done. case_decide as Hx.
  - subst. by rewrite (bool_decide_eq_false_2 (k ∈ _)) by set_solver.
  - do 3 f_equal. f_equal. apply bool_decide_ext. set_solver.
Qed.

Lemma forget_all_spec ks c : budgets_wf c -> forall x,
  budget (foldl forget_failures c ks) x = if decide (x ∈ ks) then (None, false, None, None, None) else budget c x.
Proof.
  revert c; induction ks as [|k ks IH]; intros c Hwf x; cbn [foldl].
  { by rewrite decide_False by apply not_elem_of_nil. }
  destruct (forget_spec c k Hwf) as [Hwf' Hb]. rewrite IH, Hb by done.
  repeat case_decide; set_solver.
Qed.

Lemma forget_frame ks c :
  let c' := foldl forget_failures c ks in
  heap (super c') = heap (super c) /\ instances (super c') = instances (super c) /\
  components (super c') = components (super c) /\ component_objects (super c') = component_objects (super c) /\
  role_registry (super c') = role_registry (super c) /\ service_catalog (super c') = service_catalog (super c) /\
  catalog_epoch (super c') = catalog_epoch (super c) /\ generations c' = generations c.
Proof.
  revert c; induction ks as [|k ks IH]; intros c; cbn [foldl]; [done|].
  destruct (IH (forget_failures c k)) as (-> & -> & -> & -> & -> & -> & -> & ->). done.
Qed.
End CommitLemmas.

(** What a committed reload is, for the catalog [repl] loaded with [objects]. *)
Record switched (repl : dict pystr Manifest.Component) (objects : dict pystr nat) (c c' : Core) (k : Commit)
    : Prop := {
  sw_epoch : catalog_epoch (super c') = (catalog_epoch (super c) + 1)%Z;
  (* a component is kept, and its object with it, exactly when its files are the same *)
  sw_component x : dget (components (super c')) x =
    match dget (components (super c)) x, dget repl x with
    | Some old, Some new => Some (if same_component old new then old else new)
    | _, new => new
    end;
  sw_object x : dget (component_objects (super c')) x =
    match dget (components (super c)) x, dget repl x with
    | Some old, Some new =>
        Some (if same_component old new
              then dget_or (component_objects (super c)) x (dget_or objects x 0%nat)
              else dget_or objects x 0%nat)
    | None, Some _ => Some (dget_or objects x 0%nat)
    | _, None => None
    end;
  sw_added x : x ∈ added k <-> dget (components (super c)) x = None /\ is_Some (dget repl x);
  sw_removed x : x ∈ removed k <-> is_Some (dget (components (super c)) x) /\ dget repl x = None;
  sw_changed x : x ∈ changed k <-> is_Some (dget (components (super c)) x) /\ is_Some (dget repl x) /\
    dget (component_objects (super c)) x <> dget (component_objects (super c')) x;
  (* stopped is whatever instance is current under a removed or changed key *)
  sw_targets x n : (x, n) ∈ stop_targets k <->
    dget (instances (super c)) x = Some n /\ (x ∈ removed k \/ x ∈ changed k);
  (* of the instances of the old catalog, these are those the new one does not contain *)
  sw_stops n i : dget (instances (super c)) (key i) = Some n -> heap (super c) !! n = Some i ->
    component_current (super c) i = true ->
    component_current (super c') i = negb (bool_decide ((key i, n) ∈ stop_targets k));
  (* a lease is carried over only by a ready instance of a kept component *)
  sw_leases role ls l : Roles.active_leases (role_registry (super c')) role = Ok ls -> l ∈ ls ->
    exists ps n i, Roles.active_providers (role_registry (super c)) role = Ok ps /\ Roles.lease_provider l ∈ ps /\
      dget (instances (super c)) (Roles.lease_provider l) = Some n /\ heap (super c) !! n = Some i /\
      ready i = true /\
      dget (component_objects (super c')) (Roles.lease_provider l) = Some (component_object i);
  (* changed and added components start with a fresh failure budget *)
  sw_budget x : budget c' x = if decide (x ∈ changed k ++ added k) then (None, false, None, None, None)
                              else budget c x;
}.

Record reload_input (repl : dict pystr Manifest.Component) (c : Core) : Prop := {
  ri_sane : sane c;
  ri_keyed : forall k m, dget repl k = Some m -> Manifest.key m = k;
  ri_objects : forall k, is_Some (dget (component_objects (super c)) k) -> is_Some (dget (components (super c)) k);
  ri_budgets : budgets_wf c;
}.

Section CommitTheorems.
Context {lib : PyLib} {repr : PyRepr}.

Lemma by_role_elem {A} (f : pystr -> py A) r d role a : by_role f r = Ok d -> (role, a) ∈ d -> f role = Ok a.
Proof.
  unfold by_role. intros Hd.
  assert (Forall (fun ra : pystr * A => f ra.1 = Ok ra.2) d) as Hall.
  { eapply mapR_Forall; [|exact Hd]. intros x [k v]. cbn. destruct (f x) eqn:Hx; [|done]. cbn. intros [= <- <-]. done. }
  rewrite Forall_forall in Hall. intros Hin. exact (Hall _ Hin).
Qed.

Lemma from_profile_fresh cs profile r : Roles.from_profile cs profile = Ok r ->
  Roles.registry_wf r /\ Roles._leases r = [].
Proof.
  unfold Roles.from_profile. intros Hr. inv_result. split; [by eapply Roles.make_wf|].
  revert Hr. unfold Roles.make. intros Hr. by inv_result.
Qed.

Definition resume_request (tx : option Transaction) : list pystr :=
  match tx with Some tx => resume_components tx | None => [] end.

(** The commit in closed form. *)
Lemma reload_commit_Ok now tx profile prefs repl objects c c' k :
  reload_commit now tx profile prefs repl objects c = (c', Ok k) ->
  let s := super c in
  let repl' := keep_components (components s) repl in
  let objects' := keep_objects (components s) (component_objects s) repl objects in
  exists o id allowed old_active registry,
    let c1 := set_display_outage o (set_next_display_outage_id id (set_super (set_recovery_allowed allowed s) c)) in
    by_role (Roles.active_providers (role_registry s)) (role_registry s) = Ok old_active /\
    leases_carried s objects' old_active registry /\
    removed k = removed_keys (components s) repl' /\
    changed k = changed_keys (components s) repl' (component_objects s) objects' /\
    added k = added_keys (components s) repl' /\
    stop_targets k = omap (fun x => pair x <$> dget (instances s) x) (removed k ++ changed k) /\
    rollback_resume k = sorted_strs (elements (list_to_set
      (List.filter (active_key s) (sorted_strs (changed k ++ removed k)) ++ resume_request tx) : gset pystr)) /\
    generation_floor k = (fun x => (x, floor_of c x)) <$>
      List.filter (fun x => bool_decide (x ∈ changed k ++ added k)) (sorted_strs (elements (restart_targets k))) /\
    c' = foldl forget_failures (set_super (set_catalog repl' objects' registry (super c1)) c1) (changed k ++ added k).
Proof.
  unfold reload_commit. intros Hr.
  set (repl' := keep_components _ repl) in *. set (objects' := keep_objects _ _ repl objects) in *.
  destruct (negb _); [done|].
  destruct (_begin_catalog_display_outage now _ c) as [c1 planned] eqn:Hp.
  destruct (planned_shape _ _ _ _ _ Hp) as (o & id & allowed & ->). clear Hp.
  match type of Hr with match ?m with _ => _ end = _ => destruct m as [[[[pl registry] valid] targets]|e] eqn:Hm end; [|done].
  inv_result. match goal with H0 : by_role (Roles.active_providers _) _ = Ok ?x |- _ => rename x into old_active end.
  destruct (foldl restore_preference _ prefs) as [r0 valid0] eqn:Hf. inv_result.
  match goal with Hfp : Roles.from_profile _ _ = Ok _ |- _ => apply from_profile_fresh in Hfp as [Hwf0 Hl0] end.
  apply restore_preferences_spec in Hf as (Hwf1 & Hl1 & _); [|done]. cbn [fst] in Hl1.
  exists o, id, allowed, old_active, registry.
  apply pair_equal_spec in Hr as [<- Hk]. apply (f_equal (fun r => match r with Ok k' => k' | Raise _ => k end)) in Hk.
  subst k. split; [done|]. split; [|do 6 (split; [reflexivity|]); reflexivity].
  eapply restore_leases_carried; [done|]. split; [done|]. intros t l. by rewrite Hl1, Hl0.
Qed.
End CommitTheorems.

Section Commits.
Context {lib : PyLib} {repr : PyRepr}.

Lemma keep_components_dget prev repl x : dget (keep_components prev repl) x =
  match dget prev x, dget repl x with
  | Some old, Some new => Some (if same_component old new then old else new)
  | _, new => new
  end.
Proof.
  unfold keep_components. rewrite (dget_keep (fun kc => if kept prev kc.1 kc.2 then _ else _)). unfold kept. cbn.
  destruct (dget repl x) as [new|]; cbn; [|by destruct (dget prev x)].
  by destruct (dget prev x) as [old|]; [destruct (same_component old new)|].
Qed.

Lemma keep_objects_dget prev prev_objects repl objects x : dget (keep_objects prev prev_objects repl objects) x =
  match dget prev x, dget repl x with
  | Some old, Some new =>
      Some (if same_component old new then dget_or prev_objects x (dget_or objects x 0%nat)
            else dget_or objects x 0%nat)
  | None, Some _ => Some (dget_or objects x 0%nat)
  | _, None => None
  end.
Proof.
  unfold keep_objects. cbn zeta.
  rewrite (dget_keep (fun kc => if kept prev kc.1 kc.2 then _ else _)). unfold kept. cbn.
  destruct (dget repl x) as [new|]; cbn; [|by destruct (dget prev x)].
  by destruct (dget prev x) as [old|]; [destruct (same_component old new)|].
Qed.

Lemma switch_elsewhere o id allowed cs objects registry ks c :
  let c1 := set_display_outage o (set_next_display_outage_id id (set_super (set_recovery_allowed allowed (super c)) c)) in
  Roles.registry_wf registry -> (forall k m, dget cs k = Some m -> Manifest.key m = k) ->
  elsewhere c (foldl forget_failures (set_super (set_catalog cs objects registry (super c1)) c1) ks).
Proof.
  intros c1 Hwf Hkeys. set (c2 := set_super _ c1).
  destruct (forget_frame ks c2) as (E1 & E2 & E3 & _ & E5 & _ & _ & E8). constructor.
  - intros n i Hi. exists i. by rewrite E1.
  - intros n. by rewrite E1.
  - by rewrite E2.
  - by rewrite E8.
  - intros _. unfold sane, roles_wf. rewrite E3, E5. done.
Qed.

(** The instances that the new catalog does not contain. *)
Lemma stops_iff (prev repl' : dict pystr Manifest.Component) (prev_objects objects' insts : dict pystr nat) k (n obj : nat) :
  dget insts k = Some n -> dget prev_objects k = Some obj -> is_Some (dget prev k) ->
  (dget objects' k = Some obj -> is_Some (dget repl' k)) ->
  bool_decide (dget objects' k = Some obj) =
  negb (bool_decide ((k, n) ∈ omap (fun x => pair x <$> dget insts x)
                       (removed_keys prev repl' ++ changed_keys prev repl' prev_objects objects'))).
Proof.
  intros Hn Ho Hp Hr. apply eq_true_iff_eq. rewrite negb_true_iff, bool_decide_eq_true, bool_decide_eq_false.
  rewrite list_elem_of_omap. split.
  - intros Hobj (x & Hx & Heq). destruct (dget insts x) as [n'|]; [|done]. injection Heq as -> ->.
    rewrite elem_of_app, removed_elem, changed_elem, Ho in Hx.
    destruct Hx as [[_ Hnone]|(_ & _ & Hne)]; [|congruence]. destruct (Hr Hobj) as [? ?]; congruence.
  - intros Hnot. destruct (decide (dget objects' k = Some obj)) as [|Hne]; [done|]. exfalso. apply Hnot.
    exists k. rewrite Hn, elem_of_app, removed_elem, changed_elem, Ho. split; [|done].
    destruct (dget repl' k) eqn:Hk; [right|by left]. split; [done|]. split; [done|congruence].
Qed.

Lemma stop_targets_elem (insts : dict pystr nat) (ks : list pystr) x n :
  (x, n) ∈ omap (fun x => pair x <$> dget insts x) ks <-> dget insts x = Some n /\ x ∈ ks.
Proof.
  rewrite list_elem_of_omap. split.
  - intros (y & Hy & Heq). destruct (dget insts y) as [n'|] eqn:Hn; [|done]. by injection Heq as -> ->.
  - intros [Hn Hx]. exists x. by rewrite Hn.
Qed.

Lemma carried_lease (s : Supervisor) objects old_active registry role ls l :
  by_role (Roles.active_providers (role_registry s)) (role_registry s) = Ok old_active ->
  leases_carried s objects old_active registry -> Roles.active_leases registry role = Ok ls -> l ∈ ls ->
  exists ps n i, Roles.active_providers (role_registry s) role = Ok ps /\ Roles.lease_provider l ∈ ps /\
    dget (instances s) (Roles.lease_provider l) = Some n /\ heap s !! n = Some i /\ ready i = true /\
    dget objects (Roles.lease_provider l) = Some (component_object i).
Proof.
  intros Hold [Hwf Hc] Hls Hl. destruct (Roles.active_leases_stored _ _ _ _ Hwf Hls Hl) as [Hst <-].
  destruct (Hc _ _ Hst) as (ps & i & Hin & Hp & Hk & _). revert Hk. unfold keeps_lease, current.
  destruct (dget (instances s) _) as [n|] eqn:Hn; [|done]. cbn.
  destruct (heap s !! n) as [j|] eqn:Hj; [|done]. destruct (ready j && _) eqn:Hr; [|done].
  apply andb_true_iff in Hr as [Hrd Hob]. bool_simp. intros [= ->]. exists ps, n, i.
  split; [by eapply by_role_elem|]. done.
Qed.

Lemma reload_commit_Raise now tx profile prefs repl objects c c' f :
  reload_commit now tx profile prefs repl objects c = (c', Raise f) ->
  exists o id allowed,
    c' = set_display_outage o (set_next_display_outage_id id (set_super (set_recovery_allowed allowed (super c)) c)).
Proof.
  unfold reload_commit. destruct (negb _).
  { intros [= <- _]. exists (display_outage c), (next_display_outage_id c), (recovery_allowed (super c)).
    by destruct c as [[[] ? ?]]. }
  destruct (_begin_catalog_display_outage now _ c) as [c1 planned] eqn:Hp.
  match goal with |- match ?m with _ => _ end = _ -> _ => destruct m as [[[[pl registry] valid] targets]|e] end; [done|].
  intros [= <- _]. by eapply planned_shape.
Qed.

(** C6: a reload replaces the catalog atomically.  When it fails under the
    catalog lock nothing of the catalog, the leases or the failure accounts has
    changed.  When it commits, the epoch advances by one; a component keeps its
    object exactly when its files are the same; the instances that are to be
    stopped are exactly the current ones of removed and changed components, and
    of the instances of the old catalog these are exactly those the new catalog
    does not contain (an instance of neither catalog, which an earlier failed
    switch left behind under an unchanged key, is not stopped); a role is leased
    in the new registry only to a ready instance of a kept component that held
    the lease before; and only changed and added components get a
    fresh failure budget.  No process is started or forgotten by it. *)
Theorem reload_commit_spec now tx profile prefs repl objects c c' r :
  reload_input repl c -> reload_commit now tx profile prefs repl objects c = (c', r) ->
  elsewhere c c' /\
  match r with
  | Ok k => switched repl objects c c' k
  | Raise _ =>
      components (super c') = components (super c) /\ component_objects (super c') = component_objects (super c) /\
      role_registry (super c') = role_registry (super c) /\ service_catalog (super c') = service_catalog (super c) /\
      catalog_epoch (super c') = catalog_epoch (super c) /\ forall x, budget c' x = budget c x
  end.
Proof.
  intros Hin Hr. destruct r as [k|f].
  2:{ destruct (reload_commit_Raise _ _ _ _ _ _ _ _ _ Hr) as (o & id & allowed & ->).
      split; [|done]. apply calm_elsewhere. by apply calm_frame. }
  destruct (reload_commit_Ok _ _ _ _ _ _ _ _ _ Hr)
    as (o & id & allowed & old_active & registry & Hold & Hl & Hrem & Hchg & Hadd & Hst & _ & _ & ->). clear Hr.
  pose proof (ri_sane _ _ Hin) as [Hroles Hkeys].
  set (prev := components (super c)) in *. set (repl' := keep_components prev repl) in *.
  set (objects' := keep_objects prev (component_objects (super c)) repl objects) in *.
  split.
  { apply switch_elsewhere; [by destruct Hl|]. intros x m. unfold repl'. rewrite keep_components_dget. fold prev in Hkeys.
    destruct (dget prev x) as [old|] eqn:Ho, (dget repl x) as [new|] eqn:Hn; [|done| |done].
    - destruct (same_component old new); intros [= <-]; [by apply Hkeys|by apply (ri_keyed _ _ Hin)].
    - intros [= <-]. by apply (ri_keyed _ _ Hin). }
  match goal with |- switched _ _ _ (foldl _ ?c2 ?ks) _ => destruct (forget_frame ks c2) as (E1 & E2 & E3 & E4 & E5 & E6 & E7 & E8) end.
  constructor.
  - by rewrite E7.
  - intros x. rewrite E3. apply keep_components_dget.
  - intros x. rewrite E4. apply keep_objects_dget.
  - intros x. rewrite Hadd, added_elem. unfold repl'. by rewrite keep_components_has.
  - intros x. rewrite Hrem, removed_elem. unfold repl'.
    by rewrite !eq_None_not_Some, keep_components_has.
  - intros x. rewrite E4, Hchg, changed_elem. unfold repl'. by rewrite keep_components_has.
  - intros x n. by rewrite Hst, stop_targets_elem, elem_of_app.
  - intros n i Hn Hi Hcur. unfold component_current in *. rewrite E4. bool_simp.
    rewrite Hst, Hrem, Hchg. apply stops_iff; [done|done|apply (ri_objects _ _ Hin); by rewrite Hcur|].
    unfold objects', repl'. rewrite keep_objects_dget, keep_components_has.
    destruct (dget prev _), (dget repl _); done.
  - intros role ls l. rewrite E4, E5. intros Hls Hin'. by eapply carried_lease.
  - intros x. rewrite forget_all_spec; [done|]. destruct (ri_budgets _ _ Hin). by constructor.
Qed.
End Commits.

(* ------------------------------------------------------------------ *)
(** ** What a reload reports *)

Section Reports.
Context {lib : PyLib} {repr : PyRepr} {files : FileSystem} {runtime : Runtime}.

(** [v] was recorded when [ensure_ready] returned a ready instance of [k] that
    is of the catalog of that moment and above its generation floor. *)
Definition healthy (floors : dict pystr Z) (k : pystr) (v : Verified) : Prop :=
  v_component v = k /\
  exists c c' n i m, await_ready k c = (c', Ok n) /\ heap (super c') !! n = Some i /\
    ready i = true /\ state i = §"ready" /\
    dget (components (super c')) k = Some m /\ dget (component_objects (super c')) k = Some (component_object i) /\
    v_generation v = generation i /\ v_version v = Manifest.package_version m /\
    forall floor, dget floors k = Some floor -> (floor < generation i)%Z.

Lemma check_health_Ok floors k n c v : check_health floors k n (super c) = Ok v ->
  v_component v = k /\ exists i m, heap (super c) !! n = Some i /\
    ready i = true /\ state i = §"ready" /\
    dget (components (super c)) k = Some m /\ dget (component_objects (super c)) k = Some (component_object i) /\
    v_generation v = generation i /\ v_version v = Manifest.package_version m /\
    forall floor, dget floors k = Some floor -> (floor < generation i)%Z.
Proof.
  unfold check_health. destruct (heap (super c) !! n) as [i|]; [|done]. intros Hc.
  destruct (negb (ready i) || _) eqn:Hr; [done|]. cbn [raise_if rbind] in Hc. apply orb_false_iff in Hr as [Hr Hs]. bool_simp.
  destruct (dget (components (super c)) k) as [m|]; [|done].
  destruct (negb (bool_decide _)) eqn:Ho; [done|]. cbn [raise_if rbind] in Hc. bool_simp.
  destruct (match dget floors k with Some _ => _ | None => false end) eqn:Hf; [done|]. cbn [raise_if rbind] in Hc.
  injection Hc as <-. split; [done|]. exists i, m. cbn. repeat (split; [done|]).
  intros floor Hfl. rewrite Hfl in Hf. lia.
Qed.

Lemma health_loop_Ok floors targets c c' fs vs : health_loop floors targets c = (c', Ok (fs, vs)) ->
  fs = [] -> Forall2 (healthy floors) targets vs.
Proof.
  revert c fs vs; induction targets as [|k targets IH]; intros c fs vs; cbn [health_loop].
  { intros [= _ <- <-]. constructor. }
  destruct (await_ready k c) as [c1 [n|e]] eqn:Ha; cbn [rbind].
  2:{ destruct (negb (caught e)); [done|]. destruct (health_loop floors targets c1) as [c2 [[fs' vs']|]]; [|done]. cbn. by intros [= _ <- _]. }
  destruct (check_health floors k n (super c1)) as [v|e] eqn:Hk.
  2:{ destruct (negb (caught e)); [done|]. destruct (health_loop floors targets c1) as [c2 [[fs' vs']|]]; [|done]. cbn. by intros [= _ <- _]. }
  destruct (health_loop floors targets c1) as [c2 [[fs' vs']|]] eqn:Hl; [|done]. cbn.
  intros [= -> <- <-] ->. constructor; [|by eapply IH].
  apply check_health_Ok in Hk as (Hv & i & m & Hi). split; [done|]. by exists c, c1, n, i, m.
Qed.

Lemma verify_Ok floors targets c c' vs : _verify_catalog_health floors targets c = (c', Ok vs) ->
  Forall2 (healthy floors) targets vs.
Proof.
  unfold _verify_catalog_health. destruct (health_loop floors targets c) as [c1 [[fs vs']|e]] eqn:Hl; [|done].
  destruct fs as [|f fs]; [|done]. intros [= <- <-]. by eapply health_loop_Ok.
Qed.

(** The outcome of the switch: what was verified and that nothing that had to
    restart was left out. *)
Lemma runtime_switch_Ok k c c' targets vs : runtime_switch true k c = (c', Ok (targets, vs)) ->
  Forall2 (healthy (generation_floor k)) targets vs /\
  forall x, x ∈ restart_targets k \/ x ∈ role_transition_targets k -> x ∈ targets.
Proof.
  unfold runtime_switch, then_. intros Hs.
  destruct (if bool_decide _ then _ else _) as [c1 [u1|e]]; [|done].
  destruct (match planned_outage k with Some id => _ | None => _ end) as [c2 [u2|e]]; [|done].
  destruct (each _ (stop_targets k) c2) as [c3 [u3|e]]; [|done].
  destruct (each lease_again _ c3) as [c4 [u4|e]]; [|done].
  destruct (_start_profile_components c4) as [c5 [u5|e]]; [|done].
  destruct (health_targets k c5) as [ts|e] eqn:Ht; [|done].
  destruct (_verify_catalog_health _ ts c5) as [c6 [vs'|e]] eqn:Hv; [|done].
  destruct (persist_preferences _ _); [|done]. injection Hs as _ <- <-. split; [by eapply verify_Ok|].
  unfold health_targets in Ht. inv_result. intros y Hy. apply sorted_strs_elem, fromkeys_elem.
  rewrite !elem_of_app, !elem_of_elements. tauto.
Qed.

Lemma floors_dget (f : pystr -> Z) l x : x ∈ l -> dget ((fun y => (y, f y)) <$> l) x = Some (f x).
Proof.
  induction l as [|y l IH]; [by intros ?%not_elem_of_nil|]. cbn. case_decide as Hxy; [by subst|].
  intros [?|]%elem_of_cons; [done|by apply IH].
Qed.

Lemma floor_elem (f : pystr -> Z) l x v : dget ((fun y => (y, f y)) <$> l) x = Some v -> v = f x.
Proof.
  induction l as [|y l IH]; [done|]. cbn. case_decide as Hxy; [by subst; intros [= ->]|done].
Qed.

Lemma verified_by_Some floors targets k vs v : Forall2 (healthy floors) targets vs -> verified_by k vs = Some v ->
  healthy floors k v.
Proof.
  intros Hall Hv. unfold verified_by in Hv. rewrite filter_bool in Hv.
  apply last_Some_elem_of, list_elem_of_filter in Hv as [Hk Hin].
  apply list_elem_of_lookup in Hin as [j Hj].
  destruct (Forall2_lookup_r _ _ _ _ _ Hall Hj) as (k' & _ & Hh). destruct (Hh) as [Hk' _]. congruence.
Qed.

(** What the switch raises of its own says which components are not healthy,
    and nothing of a package. *)
Lemma runtime_switch_failure verify k c c' code message details :
  runtime_switch verify k c = (c', Raise (CatalogFailure code message details)) ->
  dhas details §"package" = false /\ dhas details §"resume_components" = false.
Proof.
  unfold runtime_switch, then_. intros Hs.
  destruct (if bool_decide _ then _ else _) as [c1 [u1|e]]; [|done].
  destruct (match planned_outage k with Some id => _ | None => _ end) as [c2 [u2|e]]; [|done].
  destruct (each _ (stop_targets k) c2) as [c3 [u3|e]]; [|done].
  destruct (each lease_again _ c3) as [c4 [u4|e]]; [|done].
  destruct (_start_profile_components c4) as [c5 [u5|e]]; [|done].
  destruct (health_targets k c5) as [ts|e]; [|done]. destruct verify; [|by destruct (persist_preferences _ _)].
  unfold _verify_catalog_health in Hs. destruct (health_loop _ ts c5) as [c6 [[[|f fs] vs]|e]]; [| |done].
  - by destruct (persist_preferences _ _).
  - injection Hs as _ _ _ <-. done.
Qed.

(** C7: what a reload reports is what happened.  A verified success means that
    every checked component had, when it was checked, a ready instance of the
    new catalog; everything that had to restart and every new preferred role
    provider was checked; a component that was replaced is ready in a
    generation above every generation it had before the reload; and the
    restarts reported to the installer are such.  A failure after the commit is
    the cancellation of the reload itself or a typed catalog error; to an
    installer, that is when the reload has a transaction, the error names its
    package and exactly what to resume: the components it had asked for, and
    those of the changed and removed ones that were running. *)
Theorem reload_reports_what_happened now tx pointer builtin installed objects profile prefs c c1 c' k r :
  reload_commit now tx profile prefs (Manifest.replace_package_components builtin installed) objects c = (c1, Ok k) ->
  _reload_installed_components_locked now true tx pointer builtin (Ok installed) objects profile prefs c = (c', r) ->
  is_ok pointer = true ->
  is_ok (DepGraph._validate_dependency_graph (Manifest.replace_package_components builtin installed)) = true ->
  match r with
  | Ok r =>
      r_added r = added k /\ r_changed r = changed k /\ r_removed r = removed k /\
      (forall x, x ∈ health_checked r -> exists v, healthy (generation_floor k) x v) /\
      (forall x, x ∈ restart_targets k \/ x ∈ role_transition_targets k -> x ∈ health_checked r) /\
      (forall x, x ∈ restart_targets k -> x ∈ changed k ++ added k ->
         exists v, healthy (generation_floor k) x v /\ (floor_of c x < v_generation v)%Z) /\
      (forall t v f, r_transaction r = Some t -> (v, f) ∈ restarted_components t ->
         f = floor_of c (v_component v) /\ (f < v_generation v)%Z)
  | Raise (Plain e) => exn_type e = CancelledError
  | Raise (CatalogFailure _ _ details) => forall t, tx = Some t ->
      dget details §"package" = Some (VStr (tx_package t)) /\
      dget details §"resume_components" = Some (str_list (rollback_resume k)) /\
      forall x, x ∈ rollback_resume k <->
        x ∈ resume_components t \/ (x ∈ changed k \/ x ∈ removed k) /\ active_key (super c) x = true
  end.
Proof.
  intros Hc Hr Hp Hg. unfold _reload_installed_components_locked in Hr.
  destruct pointer as [p|f]; [|done]. cbn [rbind] in Hr.
  destruct (DepGraph._validate_dependency_graph _) as [u|e]; [|done]. cbn [rbind] in Hr. rewrite Hc in Hr.
  destruct (reload_commit_Ok _ _ _ _ _ _ _ _ _ Hc) as (_ & _ & _ & _ & _ & _ & _ & _ & _ & _ & _ & Hroll & Hfl & _).
  destruct (runtime_switch true k c1) as [c2 [[targets vs]|f]] eqn:Hs.
  - injection Hr as _ <-. apply runtime_switch_Ok in Hs as [Hall Htargets]. cbn.
    assert (forall x v f, healthy (generation_floor k) x v -> dget (generation_floor k) x = Some f ->
      f = floor_of c x /\ (f < v_generation v)%Z) as Hfloor.
    { intros x v f (_ & ? & ? & ? & i & ? & _ & _ & _ & _ & _ & _ & -> & _ & Hlt) Hf. split; [|by apply Hlt].
      rewrite Hfl in Hf. by apply floor_elem in Hf. }
    do 3 (split; [done|]). split; [|split; [done|split]].
    + intros x [j Hj]%list_elem_of_lookup. destruct (Forall2_lookup_l _ _ _ _ _ Hall Hj) as (v & _ & Hv). by exists v.
    + intros x Hx Hch. pose proof (Htargets x (or_introl Hx)) as [j Hj]%list_elem_of_lookup.
      destruct (Forall2_lookup_l _ _ _ _ _ Hall Hj) as (v & _ & Hv). exists v. split; [done|].
      destruct (Hfloor x v (floor_of c x) Hv) as [_ ?]; [|done]. rewrite Hfl. apply floors_dget.
      rewrite list_elem_of_In, filter_In, <- list_elem_of_In, sorted_strs_elem, bool_decide_eq_true. by rewrite elem_of_elements.
    + destruct p as [p|]; [|done]. intros t v f [= <-]. cbn. unfold restarted_records.
      intros (x & Hx & Hv)%list_elem_of_omap. destruct (verified_by x vs) as [v'|] eqn:Hvb; [|done].
      injection Hv as -> <-. pose proof (verified_by_Some _ _ _ _ _ Hall Hvb) as Hh.
      apply sorted_strs_elem, dkeys_elem in Hx as [f Hf]. unfold dget_or. rewrite Hf. cbn.
      destruct (Hh) as [<- _]. by eapply Hfloor.
  - injection Hr as _ <-.
    assert (forall t x, tx = Some t -> x ∈ rollback_resume k <->
      x ∈ resume_components t \/ (x ∈ changed k \/ x ∈ removed k) /\ active_key (super c) x = true) as Hresume.
    { intros t x ->. rewrite Hroll, sorted_strs_elem, elem_of_elements, elem_of_list_to_set, elem_of_app.
      rewrite (list_elem_of_In (List.filter _ _)), filter_In, <- list_elem_of_In, sorted_strs_elem, elem_of_app. cbn. tauto. }
    unfold switch_failure. destruct f as [code m d|e].
    + destruct (runtime_switch_failure _ _ _ _ _ _ _ Hs) as [Hd1 Hd2]. intros t ->. unfold setdefault. rewrite Hd2.
      assert (dhas (dset d §"resume_components" (str_list (rollback_resume k))) §"package" = false) as ->.
      { apply dhas_false. rewrite dget_dset_ne by done. by apply dhas_false. }
      split; [by rewrite dget_dset_eq|]. split; [by rewrite dget_dset_ne, dget_dset_eq|]. intros x. by apply Hresume.
    + destruct (caught e) eqn:He; [|revert He; unfold caught; intros; by bool_simp].
      intros t Ht. subst tx. cbn. split_and!; [done..|]. intros x. by apply Hresume.
Qed.
End Reports.

(* ------------------------------------------------------------------ *)
(** ** The preflight predicts the reload *)

Section Prediction.
Context {lib : PyLib} {repr : PyRepr}.

Lemma by_role_total {A} (f : pystr -> py A) r :
  (forall role, is_Some (dget (Roles._roles r) role) -> exists a, f role = Ok a) -> exists d, by_role f r = Ok d.
Proof.
  intros Hf. unfold by_role, Roles.list_roles.
  assert (forall l, (forall role, role ∈ l -> exists a, f role = Ok a) ->
    exists d, mapR (fun role => a ← f role; Ok (role, a)) l = Ok d) as Hgen.
  { induction l as [|x l IH]; intros Hl; [by eexists|]. cbn [mapR].
    destruct (Hl x (list_elem_of_here _ _)) as [a ->]. destruct IH as [d ->]; [set_solver|]. by eexists. }
  apply Hgen. intros role Hr. by apply Hf, dkeys_elem.
Qed.

Lemma preferred_total r role : is_Some (dget (Roles._roles r) role) -> exists p, Roles.preferred_provider r role = Ok p.
Proof. intros [s Hs]. unfold Roles.preferred_provider, Roles._state. rewrite Hs. by eexists. Qed.

Lemma providers_total r role : Roles.registry_wf r -> is_Some (dget (Roles._roles r) role) ->
  exists ps, Roles.active_providers r role = Ok ps.
Proof.
  intros Hwf [s Hs]. unfold Roles.active_providers.
  destruct (Roles.active_leases_total _ _ _ Hwf Hs) as (ts & _ & ->). by eexists.
Qed.

Lemma restore_lease_total s objects role r p : exists r', restore_lease s objects role r p = Ok r' /\
  Roles._roles r' = Roles._roles r /\ Roles._preferred r' = Roles._preferred r.
Proof.
  unfold restore_lease. destruct (keeps_lease s objects p) as [i|]; [|by eexists].
  case_bool_decide as Hin; [|by eexists]. cbn [negb]. apply dkeys_elem in Hin as [st Hst].
  unfold Roles.is_candidate, Roles.list_candidates, Roles._state. rewrite Hst. cbn [ok_or rbind].
  destruct (existsb _ _); [|by eexists].
  destruct (Roles.acquire r role (Some p) _) as [[r1 l]|e] eqn:Ha; [|by eexists]. exists r1. split; [done|].
  by apply Roles.acquire_Ok in Ha as (? & ? & ? & _ & _ & _ & _ & _ & _ & ->).
Qed.

Lemma foldR_total {A B} (R : A -> A -> Prop) (f : A -> B -> py A) l a : (forall a, R a a) ->
  (forall a b c, R a b -> R b c -> R a c) -> (forall a x, exists b, f a x = Ok b /\ R a b) ->
  exists b, foldR f a l = Ok b /\ R a b.
Proof.
  intros Hr Ht Hf. revert a; induction l as [|x l IH]; intros a; cbn [foldR]; [by exists a|].
  destruct (Hf a x) as (b & -> & Hb). destruct (IH b) as (d & Hd & Hbd). exists d. eauto.
Qed.

Lemma restore_leases_total s objects old_active r : exists r', restore_leases s objects old_active r = Ok r' /\
  Roles._roles r' = Roles._roles r /\ Roles._preferred r' = Roles._preferred r.
Proof.
  set (R := fun a b : Roles.RoleRegistry => Roles._roles b = Roles._roles a /\ Roles._preferred b = Roles._preferred a).
  assert (forall a b c, R a b -> R b c -> R a c) as Ht by (unfold R; intros a b c [-> ->] [-> ->]; done).
  apply (foldR_total R); [done|exact Ht|]. intros a ra. apply (foldR_total R); [done|exact Ht|].
  intros b p. apply restore_lease_total.
Qed.

Lemma keep_same prev repl :
  (forall k a b, dget prev k = Some a -> (k, b) ∈ repl -> same_component a b = true -> a = b) ->
  keep_components prev repl = repl.
Proof.
  intros Hs. unfold keep_components. rewrite <- (list_fmap_id repl) at 2. apply list_fmap_ext.
  intros i [k b] Hi%list_elem_of_lookup_2. cbn. f_equal. unfold kept.
  destruct (dget prev k) as [a|] eqn:Ha; [|done]. destruct (same_component a b) eqn:Hab; [|done]. cbn. by eapply Hs.
Qed.

Lemma lost_roles_none old new role : lost_roles old new = Ok [] -> has_provider old role = Ok true ->
  has_provider new role = Ok true.
Proof.
  unfold lost_roles. intros Hl Hhad. inv_result.
  match goal with Hm : mapR _ _ = Ok ?x |- _ => rename Hm into Hmap end.
  assert (role ∈ Roles.list_roles old) as Hin.
  { revert Hhad. unfold has_provider, Roles.preferred_provider, Roles._state.
    destruct (dget (Roles._roles old) role) eqn:Hr; [|done]. intros _. apply dkeys_elem. by rewrite Hr. }
  apply mapR_Ok in Hmap. apply list_elem_of_lookup in Hin as [j Hj].
  destruct (Forall2_lookup_l _ _ _ _ _ Hmap Hj) as (y & Hy & Hf). rewrite Hhad in Hf. cbn in Hf.
  assert (y = []) as ->.
  { destruct y as [|z y']; [done|]. exfalso. apply (not_elem_of_nil z). rewrite <- Hl. apply sorted_strs_elem.
    apply list_elem_of_join. exists (z :: y'). split; [by left|by eapply list_elem_of_lookup_2]. }
  case_bool_decide; [|by inv_result]. inv_result. by destruct x0.
Qed.
End Prediction.

Section Preflighted.
Context {lib : PyLib} {repr : PyRepr}.

(** What an accepted candidate guarantees about its prospective catalog. *)
Lemma preflight_Ok target root candidate builtin installed startup profile package shown s dir ids count :
  preflight_installed_candidate target root candidate builtin (Ok installed) startup profile package shown s
    = Ok (dir, ids, count) ->
  exists cand registry,
    let prospective := Manifest.replace_package_components builtin (Manifest.replace_package_components installed cand) in
    candidate (path_div dir (path_of §"manifest.json")) = Ok cand /\
    Forall (fun m => Manifest.package_id m = package) (dvalues cand) /\
    is_ok (DepGraph._validate_dependency_graph prospective) = true /\
    Roles.from_profile prospective profile = Ok registry /\
    (forall x, x ∈ startup -> is_Some (dget (components s) x) -> is_Some (dget prospective x)) /\
    lost_roles (role_registry s) registry = Ok [].
Proof.
  unfold preflight_installed_candidate, preflight_failure.
  match goal with |- match ?m with _ => _ end = _ -> _ => destruct m as [[[dir' ids'] count']|e] eqn:Hm end; [|by destruct (caught e)].
  intros [= -> <- <-]. inv_result. 
  match goal with Hc : candidate _ = Ok ?x |- _ => rename x into cand; rename Hc into Hcand end.
  match goal with Hc : check_prospective _ _ _ _ _ _ = _ |- _ => rename Hc into Hcheck end.
  unfold check_prospective in Hcheck. inv_result.
  match goal with Hf : Roles.from_profile _ _ = Ok ?x |- _ => rename x into registry end.
  exists cand, registry. cbn zeta. split; [done|]. split; [|split; [|split; [done|split]]].
  - apply Forall_forall. intros m Hmem. bool_simp. 
    match goal with Hall : forallb _ (dvalues cand) = true |- _ => pose proof (proj1 (forallb_forall _ _) Hall m ltac:(by apply list_elem_of_In)) as Hp end.
    by apply bool_decide_eq_true in Hp.
  - match goal with Hv : DepGraph._validate_dependency_graph _ = Ok _ |- _ => by rewrite Hv end.
  - intros y Hy Hold. bool_simp. destruct (dget (Manifest.replace_package_components _ _) y) eqn:Hg; [done|]. exfalso.
    match goal with Hr : removed_startup _ _ _ = [] |- _ => apply (not_elem_of_nil y); rewrite <- Hr end.
    unfold removed_startup. rewrite sorted_filter_elem, andb_true_iff, dhas_is_Some, negb_true_iff, dhas_false. done.
  - bool_simp. subst. done.
Qed.

(** C25: a candidate package that passes the preflight can be committed.  When
    it becomes part of the installed packages and nothing else has changed,
    the reload does reach its commit; no startup component of the profile is
    removed, and every role that had a provider still has one. *)
Theorem preflight_predicts_reload now target root candidate builtin installed startup profile package shown
    prefs objects c dir ids count cand :
  roles_wf (super c) ->
  preflight_installed_candidate target root candidate builtin (Ok installed) startup profile package shown (super c)
    = Ok (dir, ids, count) ->
  candidate (path_div dir (path_of §"manifest.json")) = Ok cand ->
  let repl := Manifest.replace_package_components builtin (Manifest.replace_package_components installed cand) in
  (forall k a b, dget (components (super c)) k = Some a -> (k, b) ∈ repl -> same_component a b = true -> a = b) ->
  is_ok (DepGraph._validate_dependency_graph repl) = true /\
  exists c' k, reload_commit now None profile prefs repl objects c = (c', Ok k) /\
    (forall x, x ∈ startup -> x ∉ removed k) /\
    (forall role, has_provider (role_registry (super c)) role = Ok true ->
       has_provider (role_registry (super c')) role = Ok true).
Proof.
  intros Hroles Hpre Hcand repl Hsame.
  destruct (preflight_Ok _ _ _ _ _ _ _ _ _ _ _ _ _ Hpre) as (cand' & registry & Hcand' & _ & Hgraph & Hprof & Hstart & Hlost).
  rewrite Hcand in Hcand'. injection Hcand' as <-. fold repl in Hgraph, Hprof, Hstart. split; [done|].
  unfold reload_commit. rewrite (keep_same _ repl Hsame). set (objects' := keep_objects _ _ repl objects).
  rewrite bool_decide_eq_true_2 by done. cbn [negb].
  set (affected := removed_keys _ repl ++ _).
  destruct (planned_Ok now affected c Hroles) as [pl Hpl].
  destruct (_begin_catalog_display_outage now affected c) as [c1 planned] eqn:Hp. cbn in Hpl. subst planned. cbn [rbind].
  destruct (by_role_total (Roles.active_providers (role_registry (super c))) (role_registry (super c))) as [old_active ->].
  { intros role Hr. by apply providers_total. }
  destruct (by_role_total (Roles.preferred_provider (role_registry (super c))) (role_registry (super c))) as [old_preferred ->].
  { intros role Hr. by apply preferred_total. }
  cbn [rbind]. rewrite Hprof. cbn [rbind].
  destruct (foldl restore_preference (registry, []) prefs) as [r0 valid] eqn:Hf.
  destruct (from_profile_fresh _ _ _ Hprof) as [Hwf _].
  apply restore_preferences_spec in Hf as (_ & _ & Hr0 & Hpref0); [|done]. cbn in Hr0, Hpref0.
  destruct (restore_leases_total (super c) objects' old_active r0) as (r1 & -> & Hr1 & Hpref1). cbn [rbind].
  destruct (by_role_total (Roles.preferred_provider r1) r1) as [tgt Htgt]; [intros role Hr; by apply preferred_total|].
  unfold transition_targets. rewrite Htgt. cbn [rbind]. eexists _, _. split; [reflexivity|]. cbn. split.
  - intros x Hx [Hold Hnone]%removed_elem. destruct (Hstart x Hx Hold) as [m Hm]. congruence.
  - intros role Hhad. pose proof (lost_roles_none _ _ _ Hlost Hhad) as Hnew.
    match goal with |- has_provider (role_registry (super (foldl _ ?c2 ?ks))) _ = _ =>
      destruct (forget_frame ks c2) as (_ & _ & _ & _ & -> & _) end. cbn.
    revert Hnew. unfold has_provider, Roles.preferred_provider, Roles._state. rewrite Hr1, Hr0, Hpref1.
    destruct (dget (Roles._roles registry) role) as [st|]; [|done]. cbn.
    destruct (dget (Roles._preferred registry) role) as [p|] eqn:Hp'.
    + destruct (Hpref0 role) as [p' ->]; [by rewrite Hp'|]. done.
    + by destruct (dget (Roles._preferred r0) role).
Qed.
End Preflighted.

(* ------------------------------------------------------------------ *)
(** ** Witnesses *)

(** A new version of a component. *)
Definition upgraded (m : Manifest.Component) : Manifest.Component :=
  {| Manifest.package_id := Manifest.package_id m; Manifest.package_version := §"2"; Manifest.id := Manifest.id m;
     Manifest.exec := Manifest.exec m; Manifest.lifecycle := Manifest.lifecycle m;
     Manifest.package_kind := Manifest.package_kind m; Manifest.package_name := Manifest.package_name m;
     Manifest.package_icons := []; Manifest.runtime := Manifest.runtime m; Manifest.restart := Manifest.restart m;
     Manifest.idle_timeout_ms := None; Manifest.cwd := None; Manifest.env := Manifest.env m;
     Manifest.readiness_mode := Manifest.readiness_mode m;
     Manifest.readiness_timeout_ms := Manifest.readiness_timeout_ms m; Manifest.provides := Manifest.provides m;
     Manifest.requires := []; Manifest.wants := []; Manifest.after := []; Manifest.windowing := Manifest.windowing m;
     Manifest.activation := []; Manifest.permissions := []; Manifest.isolation := Manifest.isolation m;
     Manifest.raw := []; Manifest.manifest_path := None; Manifest.package_summary := [];
     Manifest.package_i18n := VNone |}.

Definition updated_components : dict pystr Manifest.Component :=
  [(§"p:x11", sample_x11); (§"p:shell", upgraded sample_shell); (§"p:editor", sample_editor)].
Definition updated_objects : dict pystr nat := [(§"p:x11", 10%nat); (§"p:shell", 11%nat); (§"p:editor", 12%nat)].

Definition updated : Core * result failure Commit :=
  reload_commit 9%Z None [] [] updated_components updated_objects display_core.

Lemma display_reload_input : reload_input updated_components display_core.
Proof.
  constructor.
  - split; [|intros k m; cbn; by repeat (case_decide; [intros [= <-]; by subst k|])].
    change (Roles.registry_wf display_registry). unfold display_registry.
    destruct (Roles.make display_components [] []) as [r|] eqn:Hm; [|exfalso; vm_compute in Hm; discriminate Hm]. cbn [rbind].
    destruct (Roles.acquire r _ _ _) as [[r' l]|] eqn:Ha.
    + eapply Roles.acquire_wf; [|exact Ha]. by eapply Roles.make_wf.
    + exfalso. vm_compute in Hm. injection Hm as <-. vm_compute in Ha. discriminate Ha.
  - intros k m; cbn; by repeat (case_decide; [intros [= <-]; by subst k|]).
  - intros k. cbn. repeat (case_decide; [done|]). by intros [].
  - constructor; apply (bool_decide_unpack _); vm_compute; exact I.
Qed.

Lemma reload_commit_spec_witness :
  match updated with
  | (c', Ok k) => changed k = [§"p:shell"] /\ stop_targets k = [(§"p:shell", 2%nat)] /\
                  Roles.active_providers (role_registry (super c')) DISPLAY_OUTPUT_ROLE = Ok [§"p:x11"] /\
                  switched updated_components updated_objects display_core c' k
  | _ => False
  end.
Proof.
  destruct updated as [c' r] eqn:Hu.
  pose proof (reload_commit_spec 9%Z None [] [] updated_components updated_objects display_core c' r
                display_reload_input Hu) as [_ Hr].
  assert (match r with Ok k => changed k = [§"p:shell"] /\ stop_targets k = [(§"p:shell", 2%nat)] | Raise _ => False end) as Hk.
  { change r with (c', r).2. rewrite <- Hu. vm_compute. split; reflexivity. }
  destruct r as [k|f]; [|destruct Hk]. destruct Hk as [H1 H2]. split; [exact H1|]. split; [exact H2|]. split; [|exact Hr].
  change c' with (c', Ok (E := failure) k).1. rewrite <- Hu. vm_compute. reflexivity.
Defined.

(** A session in which every start succeeds at once. *)
Definition relaunch (k : pystr) (c : Core) : Core * py nat :=
  match dget (components (super c)) k, dget (component_objects (super c)) k, dget (instances (super c)) k with
  | Some m, Some obj, None =>
      (install k (new_instance 9 m obj 100 200) c, Ok (fresh (dom (heap (super c)))))
  | Some _, Some _, Some n => (c, Ok n)
  | _, _, _ => (c, Raise (runtime_error k))
  end.

#[local] Instance prompt_runtime : Runtime := {|
  settle_retries := fun _ c => (c, Ok tt);
  stop_component := fun k _ c => (modify (fun s => set_instances (ddel (instances s) k) s) c, Ok tt);
  await_ready := relaunch;
  lock_recovery := fun c => c;
  recover_consumers := fun _ c => (c, Ok tt);
  past_consumers := fun _ _ => [];
  persist_preferences := fun _ _ => Ok tt;
|}.

#[local] Instance no_files : FileSystem := {|
  path_exists := fun _ => false; path_is_file := fun _ => false; path_resolve := fun p => p;
  read_json := fun _ => Raise (value_error []); glob_manifests_recursive := fun _ => []; glob_manifests := fun _ => [];
|}.

Definition update_request : Transaction :=
  {| tx_package := §"p"; tx_removed := false; tx_version := §"2"; tx_path := §"/opt/p"; resume_components := [] |}.

Definition update_commit : Core * result failure Commit :=
  reload_commit 9%Z (Some update_request) [] [] (Manifest.replace_package_components [] updated_components)
    updated_objects display_core.
Definition update : Core * result failure Reloaded :=
  _reload_installed_components_locked 9%Z true (Some update_request) (Ok (Some None)) [] (Ok updated_components)
    updated_objects [] [] display_core.

Lemma reload_reports_what_happened_witness :
  match update_commit.2, update.2 with
  | Ok k, Ok r =>
      health_checked r = [§"p:shell"] /\
      exists v, healthy (generation_floor k) §"p:shell" v /\ (floor_of display_core §"p:shell" < v_generation v)%Z
  | _, _ => False
  end.
Proof.
  destruct update_commit as [c1 rk] eqn:Hc. destruct update as [c' r] eqn:Hr. cbn [snd].
  assert (match rk with Ok k => §"p:shell" ∈ restart_targets k /\ §"p:shell" ∈ changed k | Raise _ => False end) as Hk.
  { change rk with (c1, rk).2. rewrite <- Hc. vm_compute. split; [|by left].
    apply (bool_decide_unpack _). vm_compute. exact I. }
  assert (match r with Ok r => health_checked r = [§"p:shell"] | Raise _ => False end) as Hh.
  { change r with (c', r).2. rewrite <- Hr. vm_compute. reflexivity. }
  destruct rk as [k|]; [|destruct Hk]. destruct r as [r|]; [|destruct Hh]. split; [exact Hh|].
  destruct Hk as [Hk1 Hk2].
  pose proof (reload_reports_what_happened 9%Z (Some update_request) (Ok (Some None)) [] updated_components updated_objects
    [] [] display_core c1 c' k (Ok r) Hc Hr eq_refl ltac:(vm_compute; reflexivity)) as (_ & _ & _ & _ & _ & H & _).
  apply H; [exact Hk1|]. apply elem_of_app. left. exact Hk2.
Defined.

Definition sample_package (_ : ppath) : py (dict pystr Manifest.Component) := Ok updated_components.
Definition packages_root : ppath := path_of §"/opt/packages".
Definition candidate_root : ppath := path_of §"/opt/packages/p/versions/2".

Lemma preflight_predicts_reload_witness :
  exists c' k, reload_commit 9%Z None [] [] (Manifest.replace_package_components [] (Manifest.replace_package_components display_components updated_components))
      updated_objects display_core = (c', Ok k) /\ changed k = [§"p:shell"] /\
    has_provider (role_registry (super c')) DISPLAY_OUTPUT_ROLE = Ok true.
Proof.
  destruct (preflight_predicts_reload 9%Z (Ok candidate_root) (Ok packages_root) sample_package [] display_components
      [§"p:shell"] [] §"p" §"/opt/packages/p/versions/2" [] updated_objects display_core candidate_root
      [§"p:editor"; §"p:shell"; §"p:x11"] 3 updated_components) as (_ & c' & k & Hc & _ & Hrole).
  - apply display_reload_input.
  - vm_compute. reflexivity.
  - reflexivity.
  - intros k a b Ha Hb Hs. revert Ha Hs. vm_compute in Hb.
    repeat (apply elem_of_cons in Hb as [Hb|Hb]; [injection Hb as -> ->; vm_compute; intros [= <-]; first [discriminate|reflexivity]|]).
    by apply not_elem_of_nil in Hb.
  - exists c', k. split; [exact Hc|]. split.
    + assert (match (c', Ok (E := failure) k).2 with Ok k => changed k = [§"p:shell"] | Raise _ => False end) as Hk; [|exact Hk].
      rewrite <- Hc. vm_compute. reflexivity.
    + apply Hrole. vm_compute. reflexivity.
Defined.
End Reload.
