(* ===== verification/Migration.v ===== *)
(** * Moving the session to another display ([msys_core/msysd.py])

    The transaction that switches the display-output role: it queues a record,
    makes the new provider ready, moves the lease, restarts every visual client
    on the new display, commits the durable preference last, and undoes all of
    it when a step fails.  The code between two awaits is a function of the
    scene; what is awaited is the interface [Stagehands]. *)

From Stdlib Require Import ZArith.
From S2P Require Export Launch Lifecycle RoleSwitch.

Module Migration.
Import Msysd Calls Dispatch Foreground Restart Messages Launch Outage RoleSwitch.

Definition DISPLAY_MIGRATION_TOPIC : pystr := §"msys.display.migration".
Definition DISPLAY_MIGRATION_SCHEMA : pystr := §"msys.display-migration.v1".

(** Core with its role choices, and the choices in the file a start reads. *)
Record Scene := {
  stage : Core;
  choices : dict pystr pystr;
  durable : dict pystr pystr;
}.

Definition house (sc : Scene) : Supervisor := super (stage sc).
Definition set_stage (c : Core) (sc : Scene) : Scene := 
  {| stage := c; choices := choices sc; durable := durable sc |}.
Definition set_house (s : Supervisor) (sc : Scene) : Scene := set_stage (set_super s (stage sc)) sc.

(** The part of the scene a role switch works on. *)
Definition selection (sc : Scene) : Selection :=
  {| core_state := house sc; role_preference_overrides := choices sc |}.
Definition set_selection (st : Selection) (sc : Scene) : Scene :=
  {| stage := set_super (core_state st) (stage sc); choices := role_preference_overrides st; durable := durable sc |}.

(** An exception: a [DisplayMigrationError] with its details or any other. *)
Inductive mishap :=
| MigrationError (message : pystr) (details : dict pystr pyval)
| Other (e : exn).

Definition mishap_text (m : mishap) : pystr := match m with MigrationError t _ => t | Other e => exn_msg e end.
Definition mishap_details (m : mishap) : dict pystr pyval := match m with MigrationError _ d => d | Other _ => [] end.
(** Whether [except Exception] catches it. *)
Definition handled (m : mishap) : bool := match m with MigrationError _ _ => true | Other e => caught e end.

(** What the transaction awaits or writes. *)
Class Stagehands := {
  (** [ensure_ready(key)] *)
  make_ready : pystr -> Scene -> Scene * py nat;
  (** [stop_component(key, expected=instance)] *)
  stop_instance : pystr -> nat -> Scene -> Scene * py unit;
  (** [dispatch_call] of the reactivation of the foreground *)
  dispatch_reactivation : response -> Scene -> Scene * py unit;
  (** cancel a retry task and wait for its end *)
  settle_retry : nat -> Scene -> Scene;
  (** the other tasks, while the transaction waits for a lock or a packet *)
  meanwhile : Scene -> Scene;
  (** whether the file of the role preferences can be replaced *)
  write_preferences : dict pystr pystr -> py unit;
  (** the memory columns of the foreground list *)
  memory_snapshot : Z -> pyval;
  (** [time.time() * 1000], cut to an integer *)
  unix_ms : Scene -> Z;
}.

(** The transaction's private snapshot. *)
Record Snapshot := {
  sn_epoch : Z;
  sn_leases : list Roles.RoleLease;
  sn_active : option pystr;
  sn_preferred : option pystr;
  sn_provider : option pystr;
  sn_override : option pystr;
  sn_display : pystr;
  sn_object : option nat;
  sn_generation : option Z;
  sn_foreground : list pystr;
  sn_target : option nat;
  sn_outage : option DisplayOutage;
}.

(** The transaction: the scene, its public record, and what it has done. *)
Record Migration := {
  scene : Scene;
  record : dict pystr pyval;
  attempted : list pystr;
  moved : list pystr;
  switched_role : bool;
  originals : dict pystr (option nat);
}.

Definition set_scene (sc : Scene) (m : Migration) : Migration :=
  {| scene := sc; record := record m; attempted := attempted m; moved := moved m;
     switched_role := switched_role m; originals := originals m |}.
Definition note (d : dict pystr pyval) (m : Migration) : Migration :=
  {| scene := scene m; record := dupdate (record m) d; attempted := attempted m; moved := moved m;
     switched_role := switched_role m; originals := originals m |}.
Definition note_attempt (k : pystr) (m : Migration) : Migration :=
  {| scene := scene m; record := record m; attempted := attempted m ++ [k]; moved := moved m;
     switched_role := switched_role m; originals := originals m |}.
Definition note_moved (k : pystr) (m : Migration) : Migration :=
  note [(§"restarted", VList (VStr <$> moved m ++ [k]))]
    {| scene := scene m; record := record m; attempted := attempted m; moved := moved m ++ [k];
       switched_role := switched_role m; originals := originals m |}.
Definition note_switched (os : dict pystr (option nat)) (m : Migration) : Migration :=
  {| scene := scene m; record := record m; attempted := attempted m; moved := moved m;
     switched_role := true; originals := os |}.

(** Statements of the transaction. *)
Definition act (A : Type) : Type := Migration -> Migration * result mishap A.
Definition ret {A} (a : A) : act A := fun m => (m, Ok a).
Definition throw {A} (x : mishap) : act A := fun m => (m, Raise x).
Definition bind_act {A B} (x : act A) (f : A -> act B) : act B :=
  fun m => match x m with (m, Ok a) => f a m | (m, Raise e) => (m, Raise e) end.
Definition get : act Migration := fun m => (m, Ok m).
Definition change (f : Migration -> Migration) : act unit := fun m => (f m, Ok tt).
Definition calling {A} (f : Scene -> Scene * py A) : act A := fun m =>
  let '(sc, r) := f (scene m) in
  (set_scene sc m, match r with Ok a => Ok a | Raise e => Raise (Other e) end).
Definition pure {A} (r : py A) : act A := fun m =>
  (m, match r with Ok a => Ok a | Raise e => Raise (Other e) end).
Definition demand (b : bool) (x : mishap) : act unit := if b then ret tt else throw x.

Declare Scope migration_scope.
Notation "x ⇐ y ; z" := (bind_act y (fun x => z))
  (at level 20, y at level 100, z at level 200, only parsing) : migration_scope.
Notation "y ⨾ z" := (bind_act y (fun _ => z))
  (at level 100, z at level 200, right associativity, only parsing) : migration_scope.
Local Open Scope migration_scope.

Definition fail_with {A} (message : pystr) (details : dict pystr pyval) : act A := throw (MigrationError message details).

Section Transaction.
Context `{PyLib} `{PyRepr} `{Channel} `{Host} `{Stagehands}.
Context (session : Launch.Session).

Definition _publish_display_migration (rec : dict pystr pyval) (sc : Scene) : Scene * py unit :=
  let '(w, r) := broadcast DISPLAY_MIGRATION_TOPIC (VDict rec) §"msys.core" (world (stage sc)) in
  (meanwhile (set_stage (set_world w (stage sc)) sc), r).

(** [async with self.catalog_lock] *)
Definition take_lock : act unit := change (fun m => set_scene (meanwhile (scene m)) m).

(** The file is replaced as a whole, or not at all. *)
Definition _persist_role_preferences (sc : Scene) : Scene * py unit :=
  match write_preferences (choices sc) with
  | Ok _ => ({| stage := stage sc; choices := choices sc; durable := choices sc |}, Ok tt)
  | Raise e => (sc, Raise e)
  end.

(** [self._display_outage_matches(snapshot)] *)
Definition _display_outage_matches (o : DisplayOutage) (c : Core) : bool :=
  match display_outage c with
  | Some live => (outage_id live =? outage_id o)%Z && (revision live =? revision o)%Z
  | None => false
  end.

Definition matches_snapshot (sn : Snapshot) (c : Core) : bool :=
  match sn_outage sn with Some o => _display_outage_matches o c | None => true end.

(** [a or b] of two optional names *)
Definition or_name (a b : option pystr) : option pystr :=
  match a with Some p => if str_true p then a else b | None => b end.
Definition named (o : option pystr) : option pystr :=
  match o with Some p => if str_true p then Some p else None | None => None end.

Definition _snapshot_display_role (provider : pystr) (sc : Scene) : py Snapshot :=
  let s := house sc in
  let r := role_registry s in
  old_active ← Roles.active_provider r DISPLAY_OUTPUT_ROLE;
  old_preferred ← Roles.preferred_provider r DISPLAY_OUTPUT_ROLE;
  let old := or_name old_active old_preferred in
  let old_instance := named old ≫= current s in
  leases ← Roles.active_leases r DISPLAY_OUTPUT_ROLE;
  display ← _session_display session s;
  let outage := display_outage (stage sc) in
  Ok {| sn_epoch := catalog_epoch s; sn_leases := leases; sn_active := old_active; sn_preferred := old_preferred;
        sn_provider := old; sn_override := dget (choices sc) DISPLAY_OUTPUT_ROLE; sn_display := display;
        sn_object := match old_instance with
                     | Some i => Some (component_object i)
                     | None => old ≫= dget (component_objects s)
                     end;
        sn_generation := generation <$> old_instance;
        sn_foreground := match outage with Some o => foreground o | None => foreground_stack s end;
        sn_target := dget (instances s) provider; sn_outage := outage |}.

(* ------------------------------------------------------------------ *)
(** ** The role *)

Definition _apply_display_preference (mode provider : pystr) (gen : Z) (st : Selection) : doing unit :=
  let role := DISPLAY_OUTPUT_ROLE in
  also (if bool_decide (mode = §"reset")
        then match Roles.candidate_ids (registry st) role with
             | Raise e => (st, Raise e)
             | Ok ids =>
                 if negb (bool_decide (head ids = Some provider))
                 then (st, Raise (runtime_error §"display-output default changed during migration"))
                 else match Roles.reset_preferred (registry st) role with
                      | Ok (r, _) =>
                          (set_overrides (ddel (role_preference_overrides st) role) (set_registry r st), Ok tt)
                      | Raise e => (st, Raise e)
                      end
             end
        else change_preference mode role provider st) (fun _ st =>
  also (on_registry (clear_role role) st) (fun _ =>
  on_registry (acquire_for role provider (Some (§"generation:" ++ dec_Z gen))))).

(** A lease of the snapshot, for the generation of its provider that is ready
    now, if there is one. *)
Definition restored_holder (s : Supervisor) (l : Roles.RoleLease) : option pystr :=
  match current s (Roles.lease_provider l) with
  | Some i => if ready i then Some (§"generation:" ++ dec_Z (generation i)) else Roles.holder l
  | None => Roles.holder l
  end.

Fixpoint regrant_display (ls : list Roles.RoleLease) (st : Selection) : doing unit :=
  match ls with
  | [] => (st, Ok tt)
  | l :: ls =>
      match Roles.is_candidate (registry st) DISPLAY_OUTPUT_ROLE (Roles.lease_provider l) with
      | Raise e => (st, Raise e)
      | Ok false => regrant_display ls st
      | Ok true =>
          also (on_registry (acquire_for DISPLAY_OUTPUT_ROLE (Roles.lease_provider l)
                               (restored_holder (core_state st) l)) st) (fun _ => regrant_display ls)
      end
  end.

Definition restore_selection (sn : Snapshot) (st : Selection) : doing unit :=
  let role := DISPLAY_OUTPUT_ROLE in
  if negb (catalog_epoch (core_state st) =? sn_epoch sn)%Z
  then (st, Raise (runtime_error §"display role catalog changed during rollback"))
  else
    also (match sn_override sn with
          | Some p => match Roles.select_preferred (registry st) role p with
                      | Ok (r, _) =>
                          (set_overrides (dset (role_preference_overrides st) role p) (set_registry r st), Ok tt)
                      | Raise e => (st, Raise e)
                      end
          | None => match Roles.reset_preferred (registry st) role with
                    | Ok (r, _) =>
                        (set_overrides (ddel (role_preference_overrides st) role) (set_registry r st), Ok tt)
                    | Raise e => (st, Raise e)
                    end
          end) (fun _ st =>
    also (on_registry (clear_role role) st) (fun _ =>
    regrant_display (sn_leases sn))).

Definition on_selection (f : Selection -> doing unit) (sc : Scene) : Scene * py unit :=
  let '(st, r) := f (selection sc) in (set_selection st sc, r).

Definition _restore_display_role (sn : Snapshot) (sc : Scene) : Scene * py unit :=
  match on_selection (restore_selection sn) sc with
  | (sc, Ok _) => _persist_role_preferences sc
  | (sc, Raise e) => (sc, Raise e)
  end.

(** Whether a provider is needed for another role. *)
Definition _provider_active_outside_display (provider : pystr) (s : Supervisor) : py bool :=
  ps ← mapR (fun role => ps ← Roles.active_providers (role_registry s) role; Ok (role, ps))
         (Roles.list_roles (role_registry s));
  Ok (existsb (fun rp => negb (bool_decide (rp.1 = DISPLAY_OUTPUT_ROLE)) && bool_decide (provider ∈ rp.2)) ps).

(** Three attempts to stop the generation of a provider that is current. *)
Fixpoint retire_attempts (attempts : nat) (provider : pystr) (sc : Scene) : Scene * py unit :=
  match _provider_active_outside_display provider (house sc) with
  | Raise e => (sc, Raise e)
  | Ok true => (sc, Ok tt)
  | Ok false =>
      match dget (instances (house sc)) provider with
      | None => (sc, Ok tt)
      | Some n =>
          match attempts with
          | O => (sc, Raise (runtime_error (§"display provider kept replacing its generation: " ++ provider)))
          | S attempts =>
              match stop_instance provider n sc with
              | (sc, Ok _) => retire_attempts attempts provider sc
              | (sc, Raise e) => (sc, Raise e)
              end
          end
      end
  end.

Definition _retire_display_provider : pystr -> Scene -> Scene * py unit := retire_attempts 3.

(** [if provider is another one and is not needed elsewhere: retire it] *)
Definition retire_unless_needed (provider : pystr) (sc : Scene) : Scene * py unit :=
  match _provider_active_outside_display provider (house sc) with
  | Raise e => (sc, Raise e)
  | Ok true => (sc, Ok tt)
  | Ok false => _retire_display_provider provider sc
  end.

Definition _reactivate_foreground (sc : Scene) : Scene * py unit :=
  match reactivation_call memory_snapshot (house sc) with
  | None => (sc, Ok tt)
  | Some call => dispatch_reactivation call sc
  end.

(* ------------------------------------------------------------------ *)
(** ** The switch and the restarts *)

(** The clients to restart: with an outage its recorded ones first. *)
Definition migration_consumers (sn : Snapshot) (c : Core) : list pystr :=
  let s := super c in
  let running := _ordered_visual_consumers s (startup c) in
  match sn_outage sn with
  | None => _order_visual_consumer_keys (startup c) (foreground_stack s) (list_to_set running)
  | Some o =>
      let recorded := List.filter (fun k => match dget (components s) k with
                                            | Some m => _inherits_visual_session m
                                            | None => false
                                            end) (consumers o) in
      fromkeys (recorded ++ _order_visual_consumer_keys (startup c) (foreground_stack s)
                              (list_to_set running ∖ list_to_set recorded))
  end.

(** The section under the catalog lock; [n] is the ready instance of the new
    provider.  The result: the clients, the new display and whether the visual
    session has to be rebuilt. *)
Definition switch_display (mode provider : pystr) (sn : Snapshot) (n : nat) : act (list pystr * pystr * bool) :=
  m ⇐ get;
  let c := stage (scene m) in
  let s := super c in
  match heap s !! n with
  | None => fail_with §"new display provider became stale" []
  | Some i =>
      demand (catalog_epoch s =? sn_epoch sn)%Z (MigrationError §"display catalog changed before commit" []) ⨾
      demand (bool_decide (dget (component_objects s) provider = Some (component_object i)))
        (MigrationError §"new display provider became stale" []) ⨾
      demand (matches_snapshot sn c) (MigrationError §"display outage changed before provider commit" []) ⨾
      let consumers := migration_consumers sn c in
      change (note_switched ((fun k => (k, dget (instances s) k)) <$> consumers)) ⨾
      calling (on_selection (_apply_display_preference mode provider (generation i))) ⨾
      m ⇐ get;
      display ⇐ pure (_session_display session (house (scene m)));
      ret (consumers, display,
           negb (bool_decide (sn_display sn = display)) || negb (bool_decide (sn_provider sn = Some provider))
           || negb (bool_decide (sn_object sn = Some (component_object i)))
           || negb (bool_decide (sn_generation sn = Some (generation i)))
           || bool_decide (is_Some (sn_outage sn)))
  end.

Definition on_stage (f : Core -> Core) (sc : Scene) : Scene := set_stage (f (stage sc)) sc.

(** [ensure_ready(key)] between the admission of the client through the fence
    and its withdrawal; [live] is the outage that is active before. *)
Definition ready_behind_fence (live : option Z) (k : pystr) : act nat := fun m =>
  let '(sc, r) := make_ready k (scene m) in
  let sc := match live with
            | Some id => on_stage (fun c => if is_outage id c then set_super (disallow_recovery k (super c)) c else c) sc
            | None => sc
            end in
  (set_scene sc m, match r with Ok n => Ok n | Raise e => Raise (Other e) end).

Definition is_ready (n : nat) (s : Supervisor) : bool :=
  match heap s !! n with Some i => ready i && bool_decide (state i = §"ready") | None => false end.
Definition state_of (n : nat) (s : Supervisor) : pyval :=
  match heap s !! n with Some i => VStr (state i) | None => VNone end.

(** A client that stays down: it was or is quarantined. *)
Definition skip_quarantined (sn : Snapshot) (k : pystr) (s : Supervisor) : bool :=
  match sn_outage sn with
  | Some o => bool_decide (k ∈ preexisting_quarantine o) || bool_decide (k ∈ quarantined s)
  | None => false
  end.

(** The client is admitted with the failure budget it had before the outage. *)
Definition let_through (sn : Snapshot) (k : pystr) : act unit :=
  m ⇐ get;
  match sn_outage sn with
  | None => ret tt
  | Some o =>
      let live := display_outage (stage (scene m)) in
      change (fun m => set_scene (on_stage (_restore_outage_failure_budget o k) (scene m)) m) ⨾
      demand (bool_decide (is_Some live)) (MigrationError §"display outage disappeared during recovery" []) ⨾
      change (fun m => set_scene (on_stage (fun c => set_super (allow_recovery k (super c)) c) (scene m)) m)
  end.

Definition restart_consumer (sn : Snapshot) (k : pystr) : act unit :=
  m ⇐ get;
  demand (matches_snapshot sn (stage (scene m)))
    (MigrationError §"display outage changed while restarting consumers" []) ⨾
  let skip := skip_quarantined sn k (house (scene m)) in
  (if skip then ret tt else change (note_attempt k)) ⨾
  match mjoin (dget (originals m) k) with
  | Some n => calling (stop_instance k n)
  | None => ret tt
  end ⨾
  if skip then ret tt
  else
    m ⇐ get;
    let live := outage_id <$> display_outage (stage (scene m)) in
    let_through sn k ⨾
    n ⇐ ready_behind_fence live k;
    m ⇐ get;
    demand (is_ready n (house (scene m)))
      (MigrationError §"visual consumer did not become ready"
         [(§"component", VStr k); (§"state", state_of n (house (scene m)))]) ⨾
    change (note_moved k).

Fixpoint restart_consumers (sn : Snapshot) (keys : list pystr) : act unit :=
  match keys with
  | [] => ret tt
  | k :: keys => restart_consumer sn k ⨾ restart_consumers sn keys
  end.

(** Whether the new provider still owns the display, under the same catalog. *)
Definition owns (sn : Snapshot) (n : nat) (s : Supervisor) : bool :=
  (catalog_epoch s =? sn_epoch sn)%Z && owns_display n s.

Definition check_owner (sn : Snapshot) (n : nat) (message : pystr) : act unit :=
  m ⇐ get; demand (owns sn n (house (scene m))) (MigrationError message []).

(** The outage is over, and the fault it belongs to is reported. *)
Definition end_outage (sn : Snapshot) (n : nat) : act unit :=
  match sn_outage sn with
  | None => ret tt
  | Some o =>
      m ⇐ get;
      demand (matches_snapshot sn (stage (scene m)))
        (MigrationError §"display outage changed during provider retirement" []) ⨾
      change (fun m => set_scene (on_stage (fun c =>
        set_display_outage None (set_super (set_recovery_allowed None (super c)) c)) (scene m)) m) ⨾
      match fault_id o with
      | None => ret tt
      | Some id =>
          m ⇐ get;
          match heap (house (scene m)) !! n with
          | None => ret tt
          | Some i =>
              calling (fun sc =>
                let '(c, r) := _complete_display_fault i (moved m) [] (Some id) (stage sc) in
                (meanwhile (set_stage c sc), _ ← r; Ok tt))
          end
      end
  end.

(** What is durable, in its order: the preference first, then the old provider
    goes, then the outage ends. *)
Definition commit (provider : pystr) (sn : Snapshot) (n : nat) : act unit :=
  calling _persist_role_preferences ⨾
  m ⇐ get;
  demand (matches_snapshot sn (stage (scene m))) (MigrationError §"display outage changed before migration commit" []) ⨾
  match named (sn_provider sn) with
  | Some old => if bool_decide (old = provider) then ret tt else calling (retire_unless_needed old)
  | None => ret tt
  end ⨾
  end_outage sn n.

(** The [try] block after the switch: the clients, the display and whether the
    session has to be rebuilt are the result of the switch. *)
Definition rebuild_session (provider : pystr) (sn : Snapshot) (n : nat) (d : list pystr * pystr * bool)
    : act (dict pystr pyval) :=
  let '(consumers, display, invalidated) := d in
  m ⇐ get;
  change (note [(§"to_display", VStr display); (§"from_generation", opt_int (sn_generation sn));
                (§"to_generation", match heap (house (scene m)) !! n with
                                   | Some i => VInt (generation i) | None => VNone end);
                (§"session_invalidated", VBool invalidated); (§"consumers", VList (VStr <$> consumers))]) ⨾
  (if invalidated then restart_consumers sn consumers else ret tt) ⨾
  m ⇐ get;
  demand (match heap (house (scene m)) !! n with
          | Some i => bool_decide (dget (component_objects (house (scene m))) provider = Some (component_object i))
          | None => false
          end) (MigrationError §"new display provider generation changed during migration" []) ⨾
  check_owner sn n §"new display provider generation changed during migration" ⨾
  change (fun m => set_scene (set_house (_restore_foreground (sn_foreground sn) (house (scene m))) (scene m)) m) ⨾
  calling _reactivate_foreground ⨾
  check_owner sn n §"new display provider generation changed before commit" ⨾
  commit provider sn n ⨾
  take_lock ⨾
  m ⇐ get;
  summary ⇐ pure (_role_summary DISPLAY_OUTPUT_ROLE (house (scene m)));
  ret [(§"role_summary", VDict summary); (§"consumers", VList (VStr <$> consumers));
       (§"restarted", VList (VStr <$> moved m));
       (§"foreground", VList (VStr <$> foreground_stack (house (scene m))));
       (§"from_display", VStr (sn_display sn)); (§"to_display", VStr display)].

(** The [try] block. *)
Definition migrate_try (mode provider : pystr) (sn : Snapshot) : act (dict pystr pyval) :=
  n ⇐ calling (make_ready provider);
  m ⇐ get;
  demand (is_ready n (house (scene m)))
    (MigrationError §"new display provider did not become ready"
       [(§"provider", VStr provider); (§"state", state_of n (house (scene m)))]) ⨾
  take_lock ⨾
  d ⇐ switch_display mode provider sn n;
  rebuild_session provider sn n d.

(* ------------------------------------------------------------------ *)
(** ** The rollback *)

Definition failure : Type := (pystr * pystr)%type.

(** A step of the rollback: its failure is recorded, not raised. *)
Definition try_step (step : pystr) (x : act unit) : act (list failure) := fun m =>
  match x m with
  | (m, Ok _) => (m, Ok [])
  | (m, Raise e) => if handled e then (m, Ok [(step, take 256 (mishap_text e))]) else (m, Raise e)
  end.

Definition then_fail (x y : act (list failure)) : act (list failure) :=
  fs ⇐ x; gs ⇐ y; ret (fs ++ gs).

Definition each_key (f : pystr -> act (list failure)) (ks : list pystr) : act (list failure) :=
  foldr (fun k rest => then_fail (f k) rest) (ret []) ks.

(** The new generation of a client, if there is one, is stopped. *)
Definition stop_new_consumer (k : pystr) : act (list failure) :=
  m ⇐ get;
  let cur := dget (instances (house (scene m))) k in
  match cur with
  | None => ret []
  | Some n => if bool_decide (mjoin (dget (originals m) k) = Some n) then ret []
              else try_step (§"stop-new-consumer:" ++ k) (calling (stop_instance k n))
  end.

(** The old provider has its lease again, if it is ready and the preferred
    one: the failed provider's outage had taken it. *)
Definition lease_old_provider (old : pystr) (sc : Scene) : Scene * py unit :=
  let s := house sc in
  match current s old with
  | None => (sc, Ok tt)
  | Some i =>
      match Roles.active_provider (role_registry s) DISPLAY_OUTPUT_ROLE with
      | Raise e => (sc, Raise e)
      | Ok active =>
          match Roles.preferred_provider (role_registry s) DISPLAY_OUTPUT_ROLE with
          | Raise e => (sc, Raise e)
          | Ok preferred =>
              if ready i && bool_decide (dget (component_objects s) old = Some (component_object i))
                 && bool_decide (active = None) && bool_decide (preferred = Some old)
              then on_selection (on_registry (acquire_for DISPLAY_OUTPUT_ROLE old
                                                (Some (§"generation:" ++ dec_Z (generation i))))) sc
              else (sc, Ok tt)
          end
      end
  end.

Definition lease_during_outage (sn : Snapshot) : act unit :=
  match sn_outage sn, named (sn_provider sn) with
  | Some _, Some old => calling (lease_old_provider old)
  | _, _ => ret tt
  end.

Definition restore_role (sn : Snapshot) : act unit :=
  take_lock ⨾ calling (_restore_display_role sn) ⨾ lease_during_outage sn.

(** A provider that was started for this switch goes, unless it has a role. *)
Definition retire_new_provider (provider : pystr) (sn : Snapshot) : act (list failure) :=
  if negb (bool_decide (sn_provider sn = Some provider)) && bool_decide (sn_target sn = None)
  then m ⇐ get;
       needed ⇐ pure (_provider_active_outside_display provider (house (scene m)));
       if needed : bool then ret []
       else try_step (§"stop-new-provider:" ++ provider) (calling (_retire_display_provider provider))
  else ret [].

(** The clients wait for the old provider: their budgets are those of before
    the outage, and their retries end. *)
Definition settle_consumer (o : DisplayOutage) (k : pystr) : act unit :=
  m ⇐ get;
  let c := stage (scene m) in
  match dget (spawn_retry_tasks c) k with
  | None => ret tt
  | Some id =>
      change (fun m => set_scene (on_stage (fun c => set_spawn_retry_tasks (ddel (spawn_retry_tasks c) k) c)
                                    (scene m)) m) ⨾
      (if bool_decide (id ∈ retries_done c) then ret tt
       else change (fun m => set_scene (settle_retry id (scene m)) m))
  end ⨾
  change (fun m => set_scene (on_stage (fun c =>
    let c := _restore_outage_failure_budget o k c in
    if bool_decide (k ∈ preexisting_quarantine o) then c
    else set_super (pardon k (super c)) c) (scene m)) m).

Fixpoint settle_consumers (o : DisplayOutage) (ks : list pystr) : act unit :=
  match ks with
  | [] => ret tt
  | k :: ks => settle_consumer o k ⨾ settle_consumers o ks
  end.

(** The recovery of the old provider is scheduled when it owns the display. *)
Definition resume_recovery (old : pystr) (sc : Scene) : Scene :=
  match dget (instances (house sc)) old with
  | None => sc
  | Some n =>
      match heap (house sc) !! n with
      | None => sc
      | Some i =>
          if ready i && _owns_active_display_output n i (house sc)
          then on_stage (fun c => set_world (_schedule_display_recovery n i (world c)) c) sc
          else sc
      end
  end.

(** [ensure_ready(key)], whose result has to be ready. *)
Definition ready_again (k : pystr) : act (list failure) :=
  try_step (§"restore-consumer:" ++ k)
    (n ⇐ calling (make_ready k);
     m ⇐ get;
     match heap (house (scene m)) !! n with
     | Some i => demand (ready i) (Other (runtime_error (§"component state is " ++ state i)))
     | None => throw (Other (runtime_error §"component state is "))
     end).

(** A client as it was, or a new generation of it on the old display. *)
Definition restore_consumer (k : pystr) : act (list failure) :=
  m ⇐ get;
  let s := house (scene m) in
  match dget (instances s) k with
  | Some n =>
      if bool_decide (mjoin (dget (originals m) k) = Some n)
         && match heap s !! n with Some i => ready i | None => false end
      then ret []
      else fs ⇐ try_step (§"stop-rollback-consumer:" ++ k) (calling (stop_instance k n));
           match fs with
           | [] => ready_again k
           | _ => ret fs
           end
  | None => ready_again k
  end.

(** The end of the rollback: the clients are left to the recovery of the
    outage, or restored with the foreground. *)
Definition finish_rollback (sn : Snapshot) : act (list failure) :=
  m ⇐ get;
  match sn_outage sn with
  | Some o =>
      settle_consumers o (attempted m) ⨾
      match named (sn_provider sn) with
      | Some old => change (fun m => set_scene (resume_recovery old (scene m)) m)
      | None => ret tt
      end ⨾
      ret []
  | None =>
      then_fail (each_key restore_consumer (attempted m))
        (change (fun m => set_scene (set_house (_restore_foreground (sn_foreground sn) (house (scene m)))
                                       (scene m)) m) ⨾
         try_step §"restore-foreground" (calling _reactivate_foreground))
  end.

Definition _rollback_display_migration (provider : pystr) (sn : Snapshot) : act (list failure) :=
  match sn_outage sn with
  | Some o => change (fun m => set_scene (on_stage (fun c =>
                set_display_outage (Some o) (set_super (set_recovery_allowed (Some ∅) (super c)) c)) (scene m)) m)
  | None => ret tt
  end ⨾
  m ⇐ get;
  then_fail (each_key stop_new_consumer (rev (attempted m)))
  (then_fail match sn_outage sn, named (sn_provider sn) with
             | None, Some old => try_step (§"ready-old-provider:" ++ old)
                                   (calling (make_ready old) ⨾ ret tt)
             | _, _ => ret []
             end
  (then_fail (try_step §"restore-role" (restore_role sn))
  (then_fail (retire_new_provider provider sn) (finish_rollback sn)))).

(* ------------------------------------------------------------------ *)
(** ** The transaction *)

Definition failure_record (f : failure) : pyval := VDict [(§"step", VStr f.1); (§"message", VStr f.2)].

(** The handler of the [try] block: whatever was caught is raised again as a
    [DisplayMigrationError] that tells what was done and what could not be
    undone. *)
Definition undo (provider : pystr) (sn : Snapshot) (e : mishap) : act (dict pystr pyval) :=
  m ⇐ get;
  fs ⇐ (if switched_role m then _rollback_display_migration provider sn else retire_new_provider provider sn);
  fail_with (mishap_text e)
    (dupdate (mishap_details e)
       [(§"from_provider", opt_str (sn_provider sn)); (§"to_provider", VStr provider);
        (§"attempted", VList (VStr <$> attempted m)); (§"restarted", VList (VStr <$> moved m));
        (§"rollback_failures", VList (failure_record <$> fs))]).

(** The snapshot, under the catalog lock. *)
Definition begin_migration (provider : pystr) : act Snapshot :=
  take_lock ⨾
  m ⇐ get;
  pure (Roles.get_candidate (role_registry (house (scene m))) DISPLAY_OUTPUT_ROLE provider) ⨾
  pure (_snapshot_display_role provider (scene m)).

Definition _migrate_display_output (mode provider : pystr) : act (dict pystr pyval) :=
  sn ⇐ begin_migration provider;
  change (fun m => note
    [(§"phase", VStr §"switching"); (§"from_provider", opt_str (or_name (sn_active sn) (sn_preferred sn)));
     (§"from_display", VStr (sn_display sn)); (§"to_provider", VStr provider);
     (§"to_display", opt_str (_display_for_provider (dget (components (house (scene m))) provider)));
     (§"recovering_outage", VBool (bool_decide (is_Some (sn_outage sn))))] m) ⨾
  m ⇐ get;
  calling (_publish_display_migration (record m)) ⨾
  (fun m => match migrate_try mode provider sn m with
            | (m, Ok details) => (m, Ok details)
            | (m, Raise e) => if handled e then undo provider sn e m else (m, Raise e)
            end).

(** A transaction that has done nothing yet. *)
Definition fresh (rec : dict pystr pyval) (sc : Scene) : Migration :=
  {| scene := sc; record := rec; attempted := []; moved := []; switched_role := false; originals := [] |}.

(* ------------------------------------------------------------------ *)
(** ** The migrations of a session *)

(** The records Core keeps, by number. *)
Record Desk := {
  theatre : Scene;
  display_migrations : dict Z (dict pystr pyval);
  next_display_migration_id : Z;
  display_migration_active : option Z;
  display_migration_tasks : gset Z;
}.

Definition with_record (id : Z) (rec : dict pystr pyval) (d : Desk) : Desk :=
  {| theatre := theatre d; display_migrations := dset (display_migrations d) id rec;
     next_display_migration_id := next_display_migration_id d;
     display_migration_active := display_migration_active d; display_migration_tasks := display_migration_tasks d |}.
Definition with_theatre (sc : Scene) (d : Desk) : Desk :=
  {| theatre := sc; display_migrations := display_migrations d;
     next_display_migration_id := next_display_migration_id d;
     display_migration_active := display_migration_active d; display_migration_tasks := display_migration_tasks d |}.
Definition with_active (a : option Z) (d : Desk) : Desk :=
  {| theatre := theatre d; display_migrations := display_migrations d;
     next_display_migration_id := next_display_migration_id d;
     display_migration_active := a; display_migration_tasks := display_migration_tasks d |}.
Definition with_tasks (ts : gset Z) (d : Desk) : Desk :=
  {| theatre := theatre d; display_migrations := display_migrations d;
     next_display_migration_id := next_display_migration_id d;
     display_migration_active := display_migration_active d; display_migration_tasks := ts |}.

Definition sorted_ids (ids : list Z) : list Z := py_sorted Z.leb ids.

Definition _display_migration_status (migration_id : option Z) (d : Desk) : dict pystr pyval :=
  let selected := match migration_id with
                  | Some id => Some id
                  | None => match display_migration_active d with
                            | Some id => Some id
                            | None => last (sorted_ids (dkeys (display_migrations d)))
                            end
                  end in
  match selected ≫= dget (display_migrations d) with
  | None => [(§"schema", VStr DISPLAY_MIGRATION_SCHEMA); (§"phase", VStr §"idle");
             (§"active", opt_int (display_migration_active d))]
  | Some rec => dset rec §"active" (opt_int (display_migration_active d))
  end.

(** At most 32 records stay, apart from those of unfinished migrations. *)
Definition removable (d : Desk) : list Z :=
  filter (fun id => display_migration_active d ≠ Some id /\ id ∉ display_migration_tasks d)
    (sorted_ids (dkeys (display_migrations d))).

Definition _prune_display_migrations (d : Desk) : Desk :=
  if (length (display_migrations d) <=? 32)%nat then d
  else {| theatre := theatre d;
          display_migrations := foldl ddel (display_migrations d)
                                  (take (length (display_migrations d) - 32) (removable d));
          next_display_migration_id := next_display_migration_id d;
          display_migration_active := display_migration_active d;
          display_migration_tasks := display_migration_tasks d |}.

(** The callback of a migration task that is done. *)
Definition completed (id : Z) (d : Desk) : Desk :=
  _prune_display_migrations (with_tasks (display_migration_tasks d ∖ {[id]}) d).

Definition planned (id : Z) (provider mode source : pystr) (old : option pystr) (from to : option pystr) (now : Z)
    : dict pystr pyval :=
  [(§"schema", VStr DISPLAY_MIGRATION_SCHEMA); (§"id", VInt id); (§"phase", VStr §"planned");
   (§"queued", VBool true); (§"role", VStr DISPLAY_OUTPUT_ROLE); (§"preference_mode", VStr mode);
   (§"source", VStr source); (§"from_provider", opt_str old); (§"to_provider", VStr provider);
   (§"from_display", opt_str from); (§"to_display", opt_str to); (§"consumers", VList []);
   (§"restarted", VList []); (§"requested_at_unix_ms", VInt now)].

(** The checks of a request, under the catalog lock: the provider in force. *)
Definition request_section (provider mode : pystr) (s : Supervisor) : py (option pystr) :=
  let r := role_registry s in
  Roles.get_candidate r DISPLAY_OUTPUT_ROLE provider;;
  (if bool_decide (mode = §"reset")
   then ids ← Roles.candidate_ids r DISPLAY_OUTPUT_ROLE;
        if bool_decide (head ids = Some provider) then Ok tt
        else Raise (runtime_error §"display-output default changed during reset")
   else Ok tt);;
  active ← Roles.active_provider r DISPLAY_OUTPUT_ROLE;
  match active with
  | Some p => Ok (Some p)
  | None => Roles.preferred_provider r DISPLAY_OUTPUT_ROLE
  end.

(** A request is recorded, announced and given its task. *)
Definition _queue_display_migration (provider mode source : pystr) (d : Desk) : Desk * py (dict pystr pyval) :=
  let d := with_theatre (meanwhile (theatre d)) d in
  let s := house (theatre d) in
  match request_section provider mode s with
  | Raise e => (d, Raise e)
  | Ok old =>
      let id := next_display_migration_id d in
      let rec := planned id provider mode source old
                   (_display_for_provider (old ≫= dget (components s)))
                   (_display_for_provider (dget (components s) provider)) (unix_ms (theatre d)) in
      let d := {| theatre := theatre d; display_migrations := dset (display_migrations d) id rec;
                  next_display_migration_id := (id + 1)%Z;
                  display_migration_active := display_migration_active d;
                  display_migration_tasks := display_migration_tasks d |} in
      match _publish_display_migration rec (theatre d) with
      | (sc, Raise e) => (with_theatre sc d, Raise e)
      | (sc, Ok _) => (with_tasks (display_migration_tasks d ∪ {[id]}) (with_theatre sc d), Ok rec)
      end
  end.

Definition rolled_back (e : mishap) (now : Z) : dict pystr pyval :=
  let details := mishap_details e in
  [(§"phase", VStr §"rolled-back");
   (§"rollback_complete", VBool (negb (truthy (dget_or details §"rollback_failures" VNone))));
   (§"completed_at_unix_ms", VInt now);
   (§"error", VDict ([(§"code", VStr §"DISPLAY_MIGRATION_FAILED");
                      (§"message", VStr (take 512 (mishap_text e)))]
                     ++ match details with [] => [] | _ => [(§"details", VDict details)] end))].

(** The task of a migration, once it has the locks of the role, of reloads and
    of display recoveries. *)
Definition _execute_display_migration (id : Z) (provider mode : pystr) (d : Desk) : Desk * py unit :=
  match dget (display_migrations d) id with
  | None => (d, Raise (Exn KeyError (dec_Z id)))
  | Some rec =>
      let d := with_active (Some id) d in
      let rec := dupdate rec [(§"queued", VBool false); (§"started_at_unix_ms", VInt (unix_ms (theatre d)))] in
      let '(m, r) := _migrate_display_output mode provider (fresh rec (theatre d)) in
      let rec := match r with
                 | Ok result => dupdate (dupdate (record m) result)
                     [(§"phase", VStr §"succeeded"); (§"completed_at_unix_ms", VInt (unix_ms (scene m)))]
                 | Raise e => if handled e then dupdate (record m) (rolled_back e (unix_ms (scene m))) else record m
                 end in
      let d := with_active None (with_record id rec (with_theatre (scene m) d)) in
      let '(sc, published) := _publish_display_migration rec (theatre d) in
      (with_theatre sc d,
       published;; match r with
                   | Raise (Other e) => if caught e then Ok tt else Raise e
                   | _ => Ok tt
                   end)
  end.
End Transaction.
End Migration.
