(* ===== verification/MigrationSafety.v ===== *)
(** * What a display migration guarantees

    The choice of the display is changed in memory by the switch, written only
    when the session has been rebuilt, and as before after every failure. *)

From Stdlib Require Import ZArith.
From S2P Require Export Migration.

Module MigrationSafety.
Import Msysd Calls Dispatch Foreground Restart Messages Launch Outage RoleSwitch Migration.
Local Open Scope migration_scope.

Local Abbreviation D := DISPLAY_OUTPUT_ROLE (only parsing).
Definition register (sc : Scene) : Roles.RoleRegistry := role_registry (house sc).

(** What every step but the switch and its rollback leaves alone: the roles,
    the catalog and the choice of the display.  Another role switched at the
    same time writes all choices that are in memory. *)
Record undisturbed (sc sc' : Scene) : Prop := {
  u_wf : Roles.registry_wf (register sc) -> Roles.registry_wf (register sc');
  u_dict : dict_wf (choices sc) -> dict_wf (choices sc');
  u_roles : Roles._roles (register sc') = Roles._roles (register sc);
  u_epoch : catalog_epoch (house sc') = catalog_epoch (house sc);
  u_preferred : dget (Roles._preferred (register sc')) D = dget (Roles._preferred (register sc)) D;
  u_choice : dget (choices sc') D = dget (choices sc) D;
  u_durable : dget (durable sc') D = dget (durable sc) D \/ dget (durable sc') D = dget (choices sc) D;
}.

(** A migration holds the lock of the role and the lock of reloads, so nobody
    else changes the roles, the catalog or the choice of the display while it
    waits. *)
Class StagehandsLaws `{Stagehands} : Prop := {
  make_ready_law k sc : undisturbed sc (make_ready k sc).1;
  stop_instance_law k n sc : undisturbed sc (stop_instance k n sc).1;
  reactivation_law call sc : undisturbed sc (dispatch_reactivation call sc).1;
  settle_retry_law id sc : undisturbed sc (settle_retry id sc);
  meanwhile_law sc : undisturbed sc (meanwhile sc);
}.

#[export] Instance undisturbed_preorder : PreOrder undisturbed.
Proof.
  split.
  - intros sc. constructor; auto.
  - intros a b c [A1 A2 A3 A4 A5 A6 A7] [B1 B2 B3 B4 B5 B6 B7]. constructor; try congruence; try tauto.
    destruct A7, B7; intuition congruence.
Qed.

(** A step that changes neither roles, catalog nor choices. *)
Lemma untouched sc sc' : register sc' = register sc -> catalog_epoch (house sc') = catalog_epoch (house sc) ->
  choices sc' = choices sc -> durable sc' = durable sc -> undisturbed sc sc'.
Proof. intros A B C E. constructor; rewrite ?A, ?B, ?C, ?E; auto. Qed.

(** The choice of the display in the scene, in memory and in the file. *)
Record holds (R : dict pystr Roles.RoleState) (ep : Z) (c : option pystr) (ds : option pystr -> Prop)
    (sc : Scene) : Prop := {
  h_wf : Roles.registry_wf (register sc);
  h_dict : dict_wf (choices sc);
  h_roles : Roles._roles (register sc) = R;
  h_epoch : catalog_epoch (house sc) = ep;
  h_preferred : dget (Roles._preferred (register sc)) D = c;
  h_choice : dget (choices sc) D = c;
  h_durable : ds (dget (durable sc) D);
}.

Lemma holds_undisturbed R ep c (ds : option pystr -> Prop) sc sc' : ds c ->
  undisturbed sc sc' -> holds R ep c ds sc -> holds R ep c ds sc'.
Proof.
  intros Hc [] []. constructor; auto; try congruence. destruct u_durable0 as [->| ->]; [done|]. congruence.
Qed.

(** Steps that leave them alone. *)
Record smooth_step (m m' : Migration) : Prop := {
  ss_scene : undisturbed (scene m) (scene m');
  ss_switched : switched_role m' = switched_role m;
}.

#[export] Instance smooth_preorder : PreOrder smooth_step.
Proof. split; [by intros m|]. intros a b c [] []. constructor; [by etransitivity|congruence]. Qed.

(** Statements whose effect, whatever they end with, is within a relation. *)
Definition along (rel : relation Migration) {A} (x : act A) : Prop := forall m, rel m (x m).1.

(** The statements write neither list of clients. *)
Definition same_log (m m' : Migration) : Prop := attempted m' = attempted m /\ moved m' = moved m.
#[export] Instance same_log_preorder : PreOrder same_log.
Proof. split; [by intros m|]. intros a b c [A B] [C E]. split; congruence. Qed.

Local Abbreviation smooth := (along smooth_step).
Local Abbreviation quiet := (along same_log).

Section Along.
Context {rel : relation Migration} {preorder : PreOrder rel}.

Lemma along_ret {A} (a : A) : along rel (ret a).
Proof. intros m. cbn. reflexivity. Qed.
Lemma along_throw {A} e : along rel (@throw A e).
Proof. intros m. cbn. reflexivity. Qed.
Lemma along_get : along rel get.
Proof. intros m. cbn. reflexivity. Qed.
Lemma along_pure {A} (r : py A) : along rel (pure r).
Proof. intros m. cbn. reflexivity. Qed.
Lemma along_demand b e : along rel (demand b e).
Proof. destruct b; intros m; cbn; reflexivity. Qed.
Lemma along_bind {A B} (x : act A) (f : A -> act B) : along rel x -> (forall a, along rel (f a)) -> along rel (bind_act x f).
Proof.
  intros Hx Hf m. unfold bind_act. specialize (Hx m). destruct (x m) as [m1 [a|e]]; cbn in *; [|done].
  etransitivity; [exact Hx|apply Hf].
Qed.
Lemma along_change f : (forall m, rel m (f m)) -> along rel (change f).
Proof. intros Hf m. apply Hf. Qed.
Lemma along_try step x : along rel x -> along rel (try_step step x).
Proof.
  intros Hx m. unfold try_step. specialize (Hx m). destruct (x m) as [m1 [u|e]]; cbn in *; [done|].
  by destruct (handled e).
Qed.
End Along.

Lemma smooth_calling {A} (f : Scene -> Scene * py A) : (forall sc, undisturbed sc (f sc).1) -> smooth (calling f).
Proof. intros Hf m. unfold calling. specialize (Hf (scene m)). by destruct (f (scene m)). Qed.
Lemma smooth_scene (f : Scene -> Scene) : (forall sc, undisturbed sc (f sc)) ->
  smooth (change (fun m => set_scene (f (scene m)) m)).
Proof. intros Hf. apply along_change. intros m. by constructor. Qed.
Lemma quiet_calling {A} (f : Scene -> Scene * py A) : quiet (calling f).
Proof. intros m. unfold calling. by destruct (f (scene m)). Qed.
Lemma quiet_scene (f : Migration -> Scene) : quiet (change (fun m => set_scene (f m) m)).
Proof. by apply along_change. Qed.

Create HintDb along.
#[export] Hint Resolve quiet_calling quiet_scene : along.

Ltac along_step :=
  cbv zeta;
  lazymatch goal with
  | |- along _ (bind_act _ _) => apply along_bind; [|intros ?]
  | |- along _ (try_step _ _) => apply along_try
  | |- along _ (match ?x with _ => _ end) => destruct x
  | |- along _ (ret _) => apply along_ret
  | |- along _ (throw _) => apply along_throw
  | |- along _ (pure _) => apply along_pure
  | |- along _ (demand _ _) => apply along_demand
  | |- along _ get => apply along_get
  | |- along _ _ => solve [auto 1 with along nocore]
  end.
Ltac along := repeat along_step.

(* ------------------------------------------------------------------ *)
(** ** The steps of the transaction *)

Section Steps.
Context {lib : PyLib} {repr : PyRepr} {channel : Channel} {host : Host} {hands : Stagehands} {laws : StagehandsLaws}.
Context (session : Launch.Session).

Lemma published_undisturbed rec sc : undisturbed sc (_publish_display_migration rec sc).1.
Proof.
  unfold _publish_display_migration.
  match goal with |- context [broadcast ?t ?p ?s ?w] =>
    pose proof (broadcast_emits t p s w) as [Hsup _]; destruct (broadcast t p s w) as [w' r] end.
  cbn [fst] in *. etransitivity; [|apply meanwhile_law].
  apply untouched; try done; unfold register, house, super; cbn; by rewrite Hsup.
Qed.

Lemma take_lock_smooth : smooth take_lock.
Proof. apply (smooth_scene meanwhile). apply meanwhile_law. Qed.

Lemma persist_undisturbed sc : undisturbed sc (_persist_role_preferences sc).1.
Proof.
  unfold _persist_role_preferences. destruct (write_preferences _); [|done]. constructor; cbn; auto.
Qed.

Lemma stage_undisturbed (f : Core -> Core) sc : role_registry (super (f (stage sc))) = role_registry (super (stage sc)) ->
  catalog_epoch (super (f (stage sc))) = catalog_epoch (super (stage sc)) -> undisturbed sc (on_stage f sc).
Proof. intros A B. by apply untouched. Qed.

Lemma retire_attempts_undisturbed a provider sc : undisturbed sc (retire_attempts a provider sc).1.
Proof.
  revert sc; induction a as [|a IH]; intros sc; cbn [retire_attempts];
    (destruct (_provider_active_outside_display _ _) as [[|]|]; [done| |done]);
    (destruct (dget (instances (house sc)) provider) as [n|]; [|done]); [done|].
  pose proof (stop_instance_law provider n sc) as Hs. destruct (stop_instance provider n sc) as [sc1 [u|e]]; cbn [fst] in *; [|done].
  etransitivity; [exact Hs|apply IH].
Qed.

Lemma retire_unless_needed_undisturbed provider sc : undisturbed sc (retire_unless_needed provider sc).1.
Proof.
  unfold retire_unless_needed. destruct (_provider_active_outside_display _ _) as [[|]|]; [done| |done].
  apply retire_attempts_undisturbed.
Qed.

Lemma reactivate_undisturbed sc : undisturbed sc (_reactivate_foreground sc).1.
Proof.
  unfold _reactivate_foreground. destruct (reactivation_call _ _); [|done]. apply reactivation_law.
Qed.

Lemma restore_foreground_smooth fg :
  smooth (change (fun m => set_scene (set_house (_restore_foreground fg (house (scene m))) (scene m)) m)).
Proof. apply along_change. intros m. constructor; [|done]. by apply untouched. Qed.

Lemma stop_smooth k n : smooth (calling (stop_instance k n)).
Proof. apply smooth_calling. intros sc. apply stop_instance_law. Qed.
Lemma ready_smooth k : smooth (calling (make_ready k)).
Proof. apply smooth_calling. intros sc. apply make_ready_law. Qed.
Lemma reactivate_smooth : smooth (calling _reactivate_foreground).
Proof. apply smooth_calling, reactivate_undisturbed. Qed.
Lemma persist_smooth : smooth (calling _persist_role_preferences).
Proof. apply smooth_calling, persist_undisturbed. Qed.
Lemma retire_smooth k : smooth (calling (_retire_display_provider k)).
Proof. apply smooth_calling. intros sc. apply retire_attempts_undisturbed. Qed.
Lemma retire_unless_smooth k : smooth (calling (retire_unless_needed k)).
Proof. apply smooth_calling. intros sc. apply retire_unless_needed_undisturbed. Qed.
#[local] Hint Resolve take_lock_smooth restore_foreground_smooth stop_smooth ready_smooth reactivate_smooth
  persist_smooth retire_smooth retire_unless_smooth : along.

Lemma change_smooth f : (forall m, scene (f m) = scene m /\ switched_role (f m) = switched_role m) -> smooth (change f).
Proof. intros Hf. apply along_change. intros m. destruct (Hf m) as [A B]. constructor; [by rewrite A|done]. Qed.

Lemma let_through_smooth sn k : smooth (let_through sn k).
Proof.
  unfold let_through. apply along_bind; [apply along_get|intros m0]. destruct (sn_outage sn) as [o|]; [|apply along_ret].
  apply along_bind; [|intros _; apply along_bind; [apply along_demand|intros _]].
  - apply smooth_scene. intros sc. apply stage_undisturbed; unfold _restore_outage_failure_budget;
      by destruct (dget_or (failure_baseline o) k []).
  - apply smooth_scene. intros sc. by apply stage_undisturbed.
Qed.

Lemma behind_fence_smooth live k : smooth (ready_behind_fence live k).
Proof.
  intros m. unfold ready_behind_fence. pose proof (make_ready_law k (scene m)) as Hr.
  destruct (make_ready k (scene m)) as [sc r]. cbn [fst] in *. constructor; [|done]. cbn.
  etransitivity; [exact Hr|]. destruct live as [id|]; [|done]. apply stage_undisturbed; by destruct (is_outage id (stage sc)).
Qed.
#[local] Hint Resolve let_through_smooth behind_fence_smooth : along.

Lemma restart_consumer_smooth sn k : smooth (restart_consumer sn k).
Proof.
  unfold restart_consumer. apply along_bind; [apply along_get|intros m0].
  apply along_bind; [apply along_demand|intros _]. cbv zeta. destruct (skip_quarantined _ _ _).
  - along.
  - apply along_bind; [by apply change_smooth|intros _]. along.
    all: by apply change_smooth.
Qed.

Lemma restart_consumers_smooth sn ks : smooth (restart_consumers sn ks).
Proof.
  induction ks as [|k ks IH]; cbn [restart_consumers]; [apply along_ret|].
  apply along_bind; [apply restart_consumer_smooth|done].
Qed.

Lemma end_outage_smooth sn n : smooth (end_outage sn n).
Proof.
  unfold end_outage. destruct (sn_outage sn) as [o|]; [|apply along_ret].
  apply along_bind; [apply along_get|intros m0]. apply along_bind; [apply along_demand|intros _].
  apply along_bind; [apply smooth_scene; intros sc; by apply stage_undisturbed|intros _].
  destruct (fault_id o) as [id|]; [|apply along_ret]. apply along_bind; [apply along_get|intros m1].
  destruct (heap (house (scene m1)) !! n) as [i|]; [|apply along_ret]. apply smooth_calling. intros sc.
  assert (forall c' : Core, super c' = super (stage sc) -> undisturbed sc (meanwhile (set_stage c' sc))) as Hsame.
  { intros c' Hc. etransitivity; [|apply meanwhile_law]. by apply untouched; unfold register, house; cbn; rewrite ?Hc. }
  unfold _complete_display_fault. destruct (display_fault (stage sc)) as [f|]; [|by apply Hsame].
  destruct (_ || _); [by apply Hsame|].
  match goal with |- context [broadcast ?t ?p ?s ?w] =>
    pose proof (broadcast_emits t p s w) as [Hsup _]; destruct (broadcast t p s w) as [w' [u|e]] end;
    by apply Hsame.
Qed.

Lemma commit_smooth provider sn n : smooth (commit provider sn n).
Proof.
  unfold commit. along. all: apply end_outage_smooth.
Qed.
#[local] Hint Resolve restart_consumers_smooth commit_smooth : along.

Lemma rebuild_smooth provider sn n d : smooth (rebuild_session provider sn n d).
Proof.
  unfold rebuild_session, check_owner. destruct d as [[consumers display] invalidated]. along. by apply change_smooth.
Qed.
End Steps.

#[export] Hint Extern 0 (along smooth_step take_lock) => apply take_lock_smooth : along.
#[export] Hint Extern 0 (along smooth_step (calling _)) => first
  [ apply stop_smooth | apply ready_smooth | apply reactivate_smooth | apply persist_smooth | apply retire_smooth
  | apply retire_unless_smooth ] : along.
#[export] Hint Extern 0 (along smooth_step (change _)) => apply restore_foreground_smooth : along.

(* ------------------------------------------------------------------ *)
(** ** The role *)

(** A selection that differs in the registry and the choices only, where the
    choice of the display is [c]. *)
Definition chosen (c : option pystr) (st st' : Selection) : Prop :=
  exists r ov, st' = set_overrides ov (set_registry r st) /\ Roles.registry_wf r /\
    Roles._roles r = Roles._roles (registry st) /\ dget (Roles._preferred r) D = c /\ dict_wf ov /\ dget ov D = c.

Section Role.
Context {lib : PyLib} {repr : PyRepr} {channel : Channel} {host : Host} {hands : Stagehands} {laws : StagehandsLaws}.
Context (session : Launch.Session).

Lemma chosen_frame c st st' r : chosen c st st' -> lease_frame D (registry st') r -> chosen c st (set_registry r st').
Proof.
  intros (r1 & ov & -> & _ & Hro & Hp & Hd & Ho) [F1 F2 F3 _]. exists r, ov.
  split; [done|]. split; [done|]. split; [by etransitivity|]. split; [by rewrite <- Hp, F3|done].
Qed.

Lemma select_chosen st r p x : Roles.registry_wf (registry st) -> dict_wf (role_preference_overrides st) ->
  Roles.select_preferred (registry st) D p = Ok (r, x) ->
  chosen (Some p) st (set_overrides (dset (role_preference_overrides st) D p) (set_registry r st)).
Proof.
  intros Hwf Hd Hs. pose proof (Roles.select_wf _ _ _ _ _ Hwf Hs) as Hwf'. unfold Roles.select_preferred in Hs. inv_result.
  eexists _, _. split; [reflexivity|]. split; [done|]. split; [done|]. split; [apply dget_dset_eq|].
  split; [by apply dset_wf|apply dget_dset_eq].
Qed.

Lemma reset_chosen st r x : Roles.registry_wf (registry st) -> dict_wf (role_preference_overrides st) ->
  Roles.reset_preferred (registry st) D = Ok (r, x) ->
  chosen None st (set_overrides (ddel (role_preference_overrides st) D) (set_registry r st)).
Proof.
  intros Hwf Hd Hs. pose proof (Roles.reset_wf _ _ _ _ Hwf Hs) as Hwf'. unfold Roles.reset_preferred in Hs. inv_result.
  eexists _, _. split; [reflexivity|]. split; [done|]. split; [done|]. split.
  { cbn. rewrite dget_ddel by apply Hwf. by rewrite decide_True. }
  split; [by apply ddel_wf|]. cbn. rewrite dget_ddel by done. by rewrite decide_True.
Qed.

(** The provider in force when the choice is [c]. *)
Lemma preferred_of r r' : Roles._roles r' = Roles._roles r ->
  dget (Roles._preferred r') D = dget (Roles._preferred r) D -> Roles.preferred_provider r' D = Roles.preferred_provider r D.
Proof. intros A B. unfold Roles.preferred_provider, Roles._state. by rewrite A, B. Qed.

Lemma apply_spec mode provider gen st st' r : Roles.registry_wf (registry st) ->
  dict_wf (role_preference_overrides st) -> is_ok (Roles.get_candidate (registry st) D provider) = true ->
  _apply_display_preference mode provider gen st = (st', r) ->
  match r with
  | Ok _ => chosen (wanted mode provider) st st' /\ Roles.preferred_provider (registry st') D = Ok (Some provider)
  | Raise _ => st' = st
  end.
Proof.
  intros Hwf Hd Hcand. destruct (candidate_state _ _ _ Hcand) as (s & Hs & Hin). unfold _apply_display_preference.
  assert (forall st1, chosen (wanted mode provider) st st1 -> Roles.preferred_provider (registry st1) D = Ok (Some provider) ->
    (also (on_registry (clear_role D) st1) (fun _ =>
       on_registry (acquire_for D provider (Some (§"generation:" ++ dec_Z gen))))) = (st', r) ->
    match r with
    | Ok _ => chosen (wanted mode provider) st st' /\ Roles.preferred_provider (registry st') D = Ok (Some provider)
    | Raise _ => st' = st
    end) as Hmove.
  { intros st1 Hc Hp. assert (Hc' := Hc). destruct Hc' as (r1 & ov & E & Hwf1 & Hro1 & _). subst st1.
    destruct (clear_role_spec D r1 s Hwf1) as (r2 & Hcl & F2 & L2); [by rewrite Hro1|].
    unfold on_registry at 1. change (registry (set_overrides ov (set_registry r1 st))) with r1. rewrite Hcl. cbn [also].
    destruct (acquire_for_spec D provider (Some (§"generation:" ++ dec_Z gen)) r2 s [])
      as (r3 & l & Ha & F3 & _); [by destruct F2|by rewrite (lf_roles _ _ _ F2), Hro1|done..|].
    unfold on_registry. match goal with |- context [registry (set_registry r2 ?x)] => change (registry (set_registry r2 x)) with r2 end.
    rewrite Ha. intros [= <- <-]. pose proof (lease_frame_trans _ _ _ _ F2 F3) as F. split.
    - exact (chosen_frame _ _ _ r3 Hc F).
    - rewrite <- Hp. apply preferred_of; [exact (lf_roles _ _ _ F)|exact (f_equal (fun d => dget d D) (lf_preferred _ _ _ F))]. }
  case_bool_decide as Hm.
  - destruct (Roles.candidate_ids (registry st) D) as [ids|e] eqn:Hids; [|by intros [= <- <-]].
    destruct (negb _) eqn:Hh; [by intros [= <- <-]|]. bool_simp.
    destruct (Roles.reset_preferred (registry st) D) as [[r1 x]|e] eqn:Hr; [|by intros [= <- <-]].
    cbn [also]. apply Hmove.
    + unfold wanted. rewrite bool_decide_eq_false_2 by (rewrite Hm; discriminate). by eapply reset_chosen.
    + destruct (reset_frame D st r1 x Hwf Hd Hr) as (_ & B & C & _). cbn. rewrite B. by rewrite (C _ Hids), Hh.
  - destruct (change_preference mode D provider st) as [st1 [u|e]] eqn:Hc; cbn [also].
    + assert (Hc' := Hc). apply (change_preference_spec _ _ _ _ _ _ Hwf Hd Hcand) in Hc' as (_ & Hp & _).
      apply Hmove; [|done]. revert Hc. unfold change_preference, wanted.
      case_bool_decide; [|by rewrite bool_decide_eq_false_2].
      destruct (Roles.select_preferred (registry st) D provider) as [[r1 x]|e] eqn:Hsel; intros [= <- _].
      by eapply select_chosen.
    + intros [= <- <-]. by apply (change_preference_spec _ _ _ _ _ _ Hwf Hd Hcand) in Hc as [-> _].
Qed.

(** The choice of the scene after a change of its selection. *)
Lemma chosen_holds R ep c c' (ds : option pystr -> Prop) sc st' : holds R ep c ds sc -> chosen c' (selection sc) st' ->
  holds R ep c' ds (set_selection st' sc).
Proof.
  intros [] (r & ov & -> & Hwf & Hro & Hp & Hd & Ho). constructor; try done. rewrite <- h_roles0. exact Hro.
Qed.

(** What a snapshot says of the state it was taken in. *)
Record remembers (R : dict pystr Roles.RoleState) (ep : Z) (c : option pystr) (sn : Snapshot) : Prop := {
  re_epoch : sn_epoch sn = ep;
  re_override : sn_override sn = c;
  re_leases : exists s, dget R D = Some s /\
    Forall (fun l => Roles.lease_provider l ∈ Roles.provider_id <$> Roles.candidates s) (sn_leases sn) /\
    (Roles.state_exclusive s = true -> (length (sn_leases sn) <= 1)%nat) /\
    forall p, c = Some p -> p ∈ Roles.provider_id <$> Roles.candidates s;
}.

Definition with_holder (h : option pystr) (l : Roles.RoleLease) : Roles.RoleLease :=
  {| Roles.token := Roles.token l; Roles.lease_role := Roles.lease_role l;
     Roles.lease_provider := Roles.lease_provider l; Roles.holder := h |}.

Lemma regrant_display_as ls st :
  regrant_display ls st = regrant_all D ((fun l => with_holder (restored_holder (core_state st) l) l) <$> ls) st.
Proof.
  revert st; induction ls as [|l ls IH]; intros st; [done|]. cbn [regrant_display fmap list_fmap regrant_all].
  unfold regrant. cbn [with_holder Roles.lease_provider Roles.holder].
  destruct (Roles.is_candidate _ _ _) as [[|]|e]; cbn [also]; [|apply IH|done].
  unfold on_registry. destruct (acquire_for _ _ _ _) as [r [u|e]]; cbn [also]; [|done]. by rewrite IH.
Qed.

Lemma restore_selection_spec R ep c c0 ds sn sc : holds R ep c ds sc -> remembers R ep c0 sn ->
  exists st', restore_selection sn (selection sc) = (st', Ok tt) /\ chosen c0 (selection sc) st'.
Proof.
  intros [Hwf Hd Hro Hep _ _ _] [He Ho (s & Hs & Hl & Hx & Hc)]. unfold restore_selection.
  change (catalog_epoch (core_state (selection sc))) with (catalog_epoch (house sc)).
  rewrite Hep, He, Z.eqb_refl. cbn [negb]. rewrite Ho. change (registry (selection sc)) with (register sc).
  change (role_preference_overrides (selection sc)) with (choices sc).
  assert (forall st1, chosen c0 (selection sc) st1 -> exists st',
    also (on_registry (clear_role D) st1) (fun _ => regrant_display (sn_leases sn)) = (st', Ok tt) /\
    chosen c0 (selection sc) st') as Hrest.
  { intros st1 Hch. assert (Hch' := Hch). destruct Hch' as (r1 & ov & -> & Hwf1 & Hro1 & _).
    change (registry (selection sc)) with (register sc) in Hro1.
    destruct (clear_role_spec D r1 s Hwf1) as (r2 & Hcl & F2 & L2); [by rewrite Hro1, Hro|].
    unfold on_registry. change (registry (set_overrides ov (set_registry r1 (selection sc)))) with r1. rewrite Hcl. cbn [also].
    rewrite regrant_display_as. set (st2 := set_registry r2 _) in *.
    destruct (regrant_all_spec D s ((fun l => with_holder (restored_holder (core_state st2) l) l) <$> sn_leases sn) st2 [])
      as (r3 & ls & -> & F3 & _).
    - exact (lf_wf _ _ _ F2).
    - change (registry st2) with r2. by rewrite (lf_roles _ _ _ F2), Hro1, Hro.
    - by apply Forall_fmap.
    - done.
    - cbn [app]. by rewrite length_fmap.
    - eexists. split; [done|]. unfold st2.
      exact (chosen_frame _ _ _ r3 Hch (lease_frame_trans _ _ _ _ F2 F3)). }
  destruct c0 as [p|].
  - specialize (Hc p eq_refl).
    destruct (Roles.get_candidate_complete (register sc) D s p) as (cand & Hg & _); [by rewrite Hro|done|].
    destruct (Roles.select_preferred (register sc) D p) as [[r1 x]|e] eqn:Hsel.
    2:{ unfold Roles.select_preferred in Hsel. by rewrite Hg in Hsel. }
    cbn [also]. apply Hrest. by eapply select_chosen.
  - destruct (Roles.reset_preferred (register sc) D) as [[r1 x]|e] eqn:Hr.
    2:{ unfold Roles.reset_preferred, Roles.preferred_provider, Roles._state in Hr. cbn in Hr. by rewrite Hro, Hs in Hr. }
    cbn [also]. apply Hrest. by eapply reset_chosen.
Qed.

(** The restored role is saved; only the file can fail. *)
Lemma restore_role_spec R ep c c0 (ds : option pystr -> Prop) sn sc : holds R ep c ds sc -> remembers R ep c0 sn ->
  exists sc' r, _restore_display_role sn sc = (sc', r) /\
    holds R ep c0 (match r with Ok _ => eq c0 | Raise _ => ds end) sc'.
Proof.
  intros Hh Hr. destruct (restore_selection_spec _ _ _ _ _ _ _ Hh Hr) as (st' & Hs & Hc).
  unfold _restore_display_role, on_selection. rewrite Hs. pose proof (chosen_holds _ _ _ _ _ _ _ Hh Hc) as Hh'.
  unfold _persist_role_preferences. destruct (write_preferences (choices (set_selection st' sc))) as [u|e] eqn:Hw.
  - eexists _, _. split; [done|]. destruct Hh'. by constructor.
  - eexists _, _. split; [done|]. exact Hh'.
Qed.

Lemma lease_old_undisturbed old sc : undisturbed sc (lease_old_provider old sc).1.
Proof.
  unfold lease_old_provider. destruct (current (house sc) old) as [i|]; [|done].
  destruct (Roles.active_provider _ _) as [active|]; [|done]. destruct (Roles.preferred_provider _ _) as [preferred|]; [|done].
  destruct (_ && _ && _ && _); [|done]. unfold on_selection, on_registry, acquire_for.
  change (registry (selection sc)) with (register sc).
  destruct (Roles.acquire (register sc) D (Some old) _) as [[r' l]|e] eqn:Ha; cbn [fst]; [|by apply untouched].
  assert (Roles._roles r' = Roles._roles (register sc) /\ Roles._preferred r' = Roles._preferred (register sc)) as [Hro Hp].
  { by apply Roles.acquire_Ok in Ha as (s & c & ts & _ & _ & _ & _ & _ & _ & ->). }
  constructor; cbn; auto; [intros Hwf; by eapply Roles.acquire_wf|by rewrite Hp].
Qed.
End Role.

(* ------------------------------------------------------------------ *)
(** ** The rollback *)

(** Steps that leave the roles alone and raise only what a handler of
    [Exception] does not catch. *)
Definition contained {A} (x : act A) : Prop := forall m, Roles.registry_wf (register (scene m)) ->
  smooth_step m (x m).1 /\ match (x m).2 with Raise e => handled e = false | Ok _ => True end.

Lemma contained_ret {A} (a : A) : contained (ret a).
Proof. by intros m. Qed.
Lemma contained_get : contained get.
Proof. by intros m. Qed.
Lemma contained_bind {A B} (x : act A) (f : A -> act B) : contained x -> (forall a, contained (f a)) -> contained (bind_act x f).
Proof.
  intros Hx Hf m Hwf. unfold bind_act. destruct (Hx m Hwf) as [Hs He]. destruct (x m) as [m1 [a|e]]; cbn in *; [|done].
  destruct (Hf a m1) as [Hs' He']; [by apply (ss_scene _ _ Hs)|]. split; [by etransitivity|done].
Qed.
Lemma contained_change f : smooth (change f) -> contained (change f).
Proof. intros Hf m _. split; [apply Hf|done]. Qed.
Lemma contained_try step x : smooth x -> contained (try_step step x).
Proof.
  intros Hx m _. unfold try_step. specialize (Hx m). destruct (x m) as [m1 [u|e]]; cbn in *; [done|].
  by destruct (handled e) eqn:He.
Qed.
Lemma contained_then x y : contained x -> contained y -> contained (then_fail x y).
Proof.
  intros Hx Hy. apply contained_bind; [done|intros fs]. apply contained_bind; [done|intros gs]. apply contained_ret.
Qed.
Lemma contained_each f ks : (forall k, contained (f k)) -> contained (each_key f ks).
Proof. intros Hf. induction ks as [|k ks IH]; cbn; [apply contained_ret|]. by apply contained_then. Qed.

Ltac contained_step_tac :=
  cbv zeta;
  lazymatch goal with
  | |- contained (bind_act _ _) => apply contained_bind; [|intros ?]
  | |- contained (then_fail _ _) => apply contained_then
  | |- contained (each_key _ _) => apply contained_each; intros ?
  | |- contained (try_step _ _) => apply contained_try
  | |- contained (change _) => apply contained_change
  | |- contained (match ?x with _ => _ end) => destruct x
  | |- contained (ret _) => apply contained_ret
  | |- contained get => apply contained_get
  end.
Ltac contained := repeat contained_step_tac.

Section Rollback.
Context {lib : PyLib} {repr : PyRepr} {channel : Channel} {host : Host} {hands : Stagehands} {laws : StagehandsLaws}.
Context (session : Launch.Session).

Lemma outside_total provider s : Roles.registry_wf (role_registry s) ->
  exists b, _provider_active_outside_display provider s = Ok b.
Proof.
  intros Hwf. unfold _provider_active_outside_display.
  assert (forall l, (forall role, role ∈ l -> is_Some (dget (Roles._roles (role_registry s)) role)) ->
    exists ps, mapR (fun role => ps ← Roles.active_providers (role_registry s) role; Ok (role, ps)) l = Ok ps) as Hall.
  { induction l as [|x l IH]; intros Hl; [by eexists|]. cbn [mapR].
    destruct (Hl x (list_elem_of_here _ _)) as [st Hst]. destruct (Roles.active_leases_total _ _ _ Hwf Hst) as (ts & _ & Hal).
    rewrite (providers_of _ _ _ Hal). cbn [rbind].
    destruct IH as [ps ->]; [intros role Hr; apply Hl; by right|]. by eexists. }
  destruct (Hall (Roles.list_roles (role_registry s))) as [ps ->]; [intros role Hr; by apply dkeys_elem|]. by eexists.
Qed.

Lemma retire_new_contained provider sn : contained (retire_new_provider provider sn).
Proof.
  unfold retire_new_provider. destruct (_ && _); [|apply contained_ret]. intros m Hwf.
  unfold bind_act at 1, get. destruct (outside_total provider (house (scene m)) Hwf) as [b Hb].
  unfold bind_act, pure. rewrite Hb. destruct b; [by apply contained_ret|]. apply contained_try; [apply retire_smooth|done].
Qed.

Lemma ready_again_contained k : contained (ready_again k).
Proof. unfold ready_again. contained. along. Qed.

Lemma restore_consumer_contained k : contained (restore_consumer k).
Proof. unfold restore_consumer. contained; first [apply ready_again_contained|along]. Qed.

Lemma stop_new_contained k : contained (stop_new_consumer k).
Proof. unfold stop_new_consumer. contained. along. Qed.

Lemma settle_contained o ks : contained (settle_consumers o ks).
Proof.
  induction ks as [|k ks IH]; cbn [settle_consumers]; [apply contained_ret|]. apply contained_bind; [|done].
  unfold settle_consumer. contained.
  - apply smooth_scene. intros sc. by apply stage_undisturbed.
  - apply smooth_scene. intros sc. apply settle_retry_law.
  - apply smooth_scene. intros sc. apply stage_undisturbed; cbv zeta; unfold _restore_outage_failure_budget;
      destruct (bool_decide _), (dget_or (failure_baseline o) k []); reflexivity.
Qed.

Lemma finish_rollback_contained sn : contained (finish_rollback sn).
Proof.
  unfold finish_rollback. apply contained_bind; [apply contained_get|intros m0]. destruct (sn_outage sn) as [o|].
  - apply contained_bind; [apply settle_contained|intros _]. contained. apply smooth_scene. intros sc.
    unfold resume_recovery. destruct (dget _ _) as [n|]; [|done]. destruct (_ !! n) as [i|]; [|done].
    destruct (_ && _); [|done]. apply stage_undisturbed; unfold _schedule_display_recovery; by destruct (_ || _ || _).
  - contained; first [apply restore_consumer_contained|along].
Qed.

Lemma contained_holds {A} (x : act A) R ep c (ds : option pystr -> Prop) m : ds c -> contained x ->
  holds R ep c ds (scene m) ->
  holds R ep c ds (scene (x m).1) /\ match (x m).2 with Raise e => handled e = false | Ok _ => True end.
Proof.
  intros Hc Hx Hh. destruct (Hx m) as [Hs He]; [by destruct Hh|]. split; [|done].
  eapply holds_undisturbed; [done|apply Hs|done].
Qed.

Lemma lease_during_outage_smooth sn : smooth (lease_during_outage sn).
Proof.
  unfold lease_during_outage. along. apply smooth_calling, lease_old_undisturbed.
Qed.

(** A result that is as expected, or an exception nobody catches. *)
Definition ends {A} (P : A -> Migration -> Prop) (res : Migration * result mishap A) : Prop :=
  match res with (m, Ok a) => P a m | (_, Raise e) => handled e = false end.

(** Whether the role is restored, given the recorded failures. *)
Definition restored R ep c0 (ds : option pystr -> Prop) (fs : list failure) (sc : Scene) : Prop :=
  holds R ep c0 ds sc /\ (holds R ep c0 (eq c0) sc \/ exists t, (§"restore-role", t) ∈ fs).

Lemma restored_contained (x : act (list failure)) R ep c0 (ds : option pystr -> Prop) fs m : ds c0 -> contained x ->
  restored R ep c0 ds fs (scene m) ->
  ends (fun gs m' => restored R ep c0 ds (fs ++ gs) (scene m')) (x m).
Proof.
  intros Hc Hx [Hh Hor]. destruct (contained_holds x _ _ _ _ _ Hc Hx Hh) as [Hh' He].
  assert (holds R ep c0 (eq c0) (scene m) -> holds R ep c0 (eq c0) (scene (x m).1)) as Hkeep.
  { intros H0. by apply (contained_holds x _ _ _ _ _ eq_refl Hx H0). }
  destruct (x m) as [m1 [gs|e]]; cbn [fst snd] in *; [|done]. split; [done|].
  destruct Hor as [H0|[t Ht]]; [left; auto|]. right. exists t. apply elem_of_app. by left.
Qed.

Lemma restore_step R ep c c0 (ds : option pystr -> Prop) sn m : ds c -> ds c0 -> holds R ep c ds (scene m) ->
  remembers R ep c0 sn ->
  ends (fun fs m' => restored R ep c0 ds fs (scene m')) (try_step §"restore-role" (restore_role sn) m).
Proof.
  intros Hc Hc0 Hh Hr. unfold try_step, restore_role, bind_act at 1.
  pose proof (take_lock_smooth m) as [Hl _]. destruct (take_lock m) as [m1 [u|e]] eqn:Ht; [|done]. cbn [fst] in Hl.
  pose proof (holds_undisturbed _ _ _ _ _ _ Hc Hl Hh) as Hh1. clear Hh Ht Hl.
  unfold bind_act, calling at 1. destruct (restore_role_spec _ _ _ _ _ _ _ Hh1 Hr) as (sc & r & -> & Hh2).
  destruct r as [[]|e].
  2:{ destruct (handled (Other e)) eqn:He; [|done]. split; [done|]. right. eexists. by left. }
  assert (forall sc', undisturbed sc sc' -> holds R ep c0 (eq c0) sc' /\ holds R ep c0 ds sc') as Hkeep.
  { intros sc' Hu. pose proof (holds_undisturbed _ _ _ _ _ _ eq_refl Hu Hh2) as [E1 E2 E3 E4 E5 E6 E7].
    split; constructor; try done. by rewrite <- E7. }
  pose proof (lease_during_outage_smooth sn (set_scene sc m1)) as [Hu _].
  destruct (lease_during_outage sn _) as [m' [[]|e]]; cbn [fst] in Hu;
    destruct (Hkeep _ Hu) as [A B].
  - split; [done|by left].
  - destruct (handled e) eqn:He; [|exact He]. split; [done|]. right. eexists. by left.
Qed.

Lemma contained_bind_holds {A B} (x : act A) (f : A -> act B) R ep c (ds : option pystr -> Prop) P m :
  ds c -> contained x -> holds R ep c ds (scene m) ->
  (forall a m', holds R ep c ds (scene m') -> ends P (f a m')) -> ends P (bind_act x f m).
Proof.
  intros Hc Hx Hh Hf. destruct (contained_holds x _ _ _ _ _ Hc Hx Hh) as [Hh' He]. unfold bind_act.
  destruct (x m) as [m1 [a|e]]; cbn [fst snd] in *; [by apply Hf|done].
Qed.

Lemma restored_then (x y : act (list failure)) R ep c0 (ds : option pystr -> Prop) m : ds c0 -> contained y ->
  ends (fun fs m' => restored R ep c0 ds fs (scene m')) (x m) ->
  ends (fun fs m' => restored R ep c0 ds fs (scene m')) (then_fail x y m).
Proof.
  intros Hc Hy Hx. unfold then_fail, bind_act, ret. destruct (x m) as [m1 [fs|e]]; cbn [ends] in *; [|done].
  pose proof (restored_contained y _ _ _ _ _ _ Hc Hy Hx) as H0. by destruct (y m1) as [m2 [gs|e]].
Qed.

Lemma before_restore (x y : act (list failure)) R ep c c0 (ds : option pystr -> Prop) m : ds c -> contained x ->
  holds R ep c ds (scene m) ->
  (forall m', holds R ep c ds (scene m') -> ends (fun fs m' => restored R ep c0 ds fs (scene m')) (y m')) ->
  ends (fun fs m' => restored R ep c0 ds fs (scene m')) (then_fail x y m).
Proof.
  intros Hc Hx Hh Hy. apply (contained_bind_holds _ _ R ep c ds); [done|done|done|intros fs m1 Hh1].
  specialize (Hy m1 Hh1). unfold bind_act, ret. destruct (y m1) as [m2 [gs|e]]; cbn [ends] in *; [|done].
  destruct Hy as [A [B|[t B]]]; (split; [done|]); [by left|]. right. exists t. apply elem_of_app. by right.
Qed.

(** After a rollback the choice in memory is the old one, and so is the file
    unless the failure to restore it is recorded. *)
Lemma migration_rollback_spec R ep c c0 (ds : option pystr -> Prop) provider sn m : ds c -> ds c0 ->
  holds R ep c ds (scene m) -> remembers R ep c0 sn ->
  ends (fun fs m' => restored R ep c0 ds fs (scene m')) (_rollback_display_migration provider sn m).
Proof.
  intros Hc Hc0 Hh Hr. unfold _rollback_display_migration.
  apply (contained_bind_holds _ _ R ep c ds); [done| |done|intros _ m1 Hh1].
  { destruct (sn_outage sn) as [o|]; [|apply contained_ret]. apply contained_change, smooth_scene.
    intros sc. by apply stage_undisturbed. }
  apply (contained_bind_holds _ _ R ep c ds); [done|apply contained_get|done|intros m2 m3 Hh3].
  apply (before_restore _ _ R ep c); [done|apply contained_each, stop_new_contained|done|intros m4 Hh4].
  apply (before_restore _ _ R ep c); [done| |done|intros m5 Hh5].
  { destruct (sn_outage sn), (named (sn_provider sn)) as [old|]; try apply contained_ret. apply contained_try.
    apply along_bind; [apply ready_smooth|intros _; apply along_ret]. }
  apply restored_then; [done| |exact (restore_step _ _ _ _ _ _ _ Hc Hc0 Hh5 Hr)].
  apply contained_then; [apply retire_new_contained|apply finish_rollback_contained].
Qed.
End Rollback.

(* ------------------------------------------------------------------ *)
(** ** The clients of a rebuilt session *)

Section Clients.
Context `{PyLib} `{PyRepr} `{Channel} `{Host} `{Stagehands}.

(** The generation a client had, if it had one, has been stopped. *)
Definition old_stopped (old : option nat) (k : pystr) (sc sc' : Scene) : Prop :=
  match old with Some n => stop_instance k n sc = (sc', Ok tt) | None => sc' = sc end.

(** A client passes the fence of the outage the migration recovers from, with
    its earlier failure budget, for as long as it is being started. *)
Definition pass_fence (outage : option DisplayOutage) (k : pystr) (sc : Scene) : Scene :=
  match outage with
  | Some o => on_stage (fun c => set_super (allow_recovery k (super c)) c) (on_stage (_restore_outage_failure_budget o k) sc)
  | None => sc
  end.
Definition withdraw (live : option DisplayOutage) (k : pystr) (sc : Scene) : Scene :=
  match live with
  | Some o => on_stage (fun c => if is_outage (outage_id o) c then set_super (disallow_recovery k (super c)) c else c) sc
  | None => sc
  end.

Definition left_down (outage : option DisplayOutage) (k : pystr) (s : Supervisor) : Prop :=
  exists o, outage = Some o /\ (k ∈ preexisting_quarantine o \/ k ∈ quarantined s).

(** One client: stopped, started again and ready; or, when it is quarantined in
    an outage, stopped and left so. *)
Inductive client_moved (outage : option DisplayOutage) (old : option nat) (k : pystr) (sc : Scene) : bool -> Scene -> Prop :=
| cm_restarted sc1 sc2 n : ~ left_down outage k (house sc) -> old_stopped old k sc sc1 ->
    make_ready k (pass_fence outage k sc1) = (sc2, Ok n) ->
    let sc' := withdraw (display_outage (stage sc1)) k sc2 in
    is_ready n (house sc') = true -> client_moved outage old k sc true sc'
| cm_left sc' : left_down outage k (house sc) -> old_stopped old k sc sc' -> client_moved outage old k sc false sc'.

(** All clients of a plan, in its order, with those that were restarted. *)
Inductive clients_moved (outage : option DisplayOutage) (old : pystr -> option nat)
    : list pystr -> list pystr -> Scene -> Scene -> Prop :=
| cms_nil sc : clients_moved outage old [] [] sc sc
| cms_cons k ks (b : bool) ms sc sc1 sc2 : client_moved outage (old k) k sc b sc1 -> clients_moved outage old ks ms sc1 sc2 ->
    clients_moved outage old (k :: ks) ((if b then [k] else []) ++ ms) sc sc2.

Lemma clients_sublist outage old ks ms sc sc' : clients_moved outage old ks ms sc sc' -> ms `sublist_of` ks.
Proof.
  induction 1 as [|k ks b ms sc sc1 sc2 _ _ IH]; [done|]. destruct b; cbn [app]; [by apply sublist_skip|by apply sublist_cons].
Qed.

Lemma clients_all outage old ks ms sc sc' : clients_moved outage old ks ms sc sc' -> outage = None -> ms = ks.
Proof.
  induction 1 as [|k ks b ms sc sc1 sc2 Hc _ IH]; [done|]. intros Ho. rewrite (IH Ho).
  destruct Hc as [|sc' (o & Heq & _)]; [done|congruence].
Qed.

(** What a migration does to the session: the clients of the snapshot [sn],
    found when the provider had been [switched], are moved to the new display,
    unless nothing a client can notice has changed. *)
Record session_moved (session : Launch.Session) (provider : pystr) (sn : Snapshot) (switched : Scene)
    (rebuilds : bool) (restarted : list pystr) (details : dict pystr pyval) : Prop := {
  sm_provider : Roles.preferred_provider (register switched) D = Ok (Some provider);
  sm_rebuilds display : _session_display session (house switched) = Ok display ->
    sn_display sn <> display \/ sn_provider sn <> Some provider \/ is_Some (sn_outage sn) -> rebuilds = true;
  sm_clients : exists rebuilt, clients_moved (sn_outage sn) (fun k => dget (instances (house switched)) k)
    (if rebuilds then migration_consumers sn (stage switched) else []) restarted switched rebuilt;
  sm_consumers : dget details §"consumers" = Some (VList (VStr <$> migration_consumers sn (stage switched)));
  sm_restarted : dget details §"restarted" = Some (VList (VStr <$> restarted));
  sm_from : dget details §"from_display" = Some (VStr (sn_display sn));
  sm_to : exists display, _session_display session (house switched) = Ok display /\
    dget details §"to_display" = Some (VStr display);
}.
End Clients.

(* ------------------------------------------------------------------ *)
(** ** The beginning and the switch *)

Section Transaction.
Context {lib : PyLib} {repr : PyRepr} {channel : Channel} {host : Host} {hands : Stagehands} {laws : StagehandsLaws}.
Context (session : Launch.Session).

Lemma candidate_roles r r' p : Roles._roles r' = Roles._roles r ->
  is_ok (Roles.get_candidate r' D p) = is_ok (Roles.get_candidate r D p).
Proof. intros E. unfold Roles.get_candidate, Roles.list_candidates, Roles._state. by rewrite E. Qed.

Lemma snapshot_remembers R ep c ds provider sc sn : holds R ep c ds sc ->
  is_ok (Roles.get_candidate (register sc) D provider) = true ->
  _snapshot_display_role session provider sc = Ok sn -> remembers R ep c sn.
Proof.
  intros [Hwf Hd Hro Hep Hp Ho _] Hcand Hs. destruct (candidate_state _ _ _ Hcand) as (s & Hst & _).
  unfold _snapshot_display_role in Hs. destruct (Roles.active_leases_total _ _ _ Hwf Hst) as (ts & Hts & Hal).
  destruct (Roles.active_provider _ _) as [active|]; [|done]. destruct (Roles.preferred_provider _ _) as [preferred|]; [|done].
  cbn [rbind] in Hs. change (role_registry (house sc)) with (register sc) in Hs. rewrite Hal in Hs. cbn [rbind] in Hs.
  destruct (_session_display session (house sc)) as [display|]; [|done]. cbn [rbind] in Hs. injection Hs as <-.
  constructor; [done|done|]. exists s. cbn [sn_leases]. split; [by rewrite <- Hro|]. split; [|split].
  - apply Forall_forall. intros l Hl. destruct (Roles.active_leases_stored _ _ _ _ Hwf Hal Hl) as [Hsl Hrl].
    destruct (Roles.rw_candidates _ Hwf _ _ Hsl) as (s' & Hs' & Hin). rewrite Hrl in Hs'. congruence.
  - intros Hex. pose proof (Roles.rw_exclusive _ Hwf _ _ _ Hst Hex Hts) as Hlen. etransitivity; [|exact Hlen].
    rewrite <- (length_fmap Roles.token), Roles.omap_leases_tokens; [done|done|]. by eapply Roles.role_tokens_stored.
  - intros p ->. destruct (Roles.rw_preferred _ Hwf _ _ Hp) as (s' & Hs' & Hin). congruence.
Qed.

(** What the file may hold of the display before the choice is saved, and as long
    as it may have been: the choice of before, in memory or in the file, or the
    new one. *)
Definition unsaved (c d0 : option pystr) (x : option pystr) : Prop := x = c \/ x = d0.
Definition maybe (c d0 w : option pystr) (x : option pystr) : Prop := unsaved c d0 x \/ x = w.

Lemma begin_spec R ep c d0 provider m : holds R ep c (unsaved c d0) (scene m) ->
  match begin_migration session provider m with
  | (m', r) => smooth_step m m' /\ same_log m m' /\ holds R ep c (unsaved c d0) (scene m') /\
      match r with
      | Ok sn => remembers R ep c sn /\ is_ok (Roles.get_candidate (register (scene m')) D provider) = true /\
          exists start, _snapshot_display_role session provider start = Ok sn
      | Raise _ => True
      end
  end.
Proof.
  intros Hh. unfold begin_migration, bind_act, get, pure. pose proof (take_lock_smooth m) as Hl.
  assert (same_log m (take_lock m).1) as Hq by done.
  destruct (take_lock m) as [m1 [u|e]] eqn:Ht; [|done]. cbn [fst] in Hl, Hq.
  pose proof (holds_undisturbed _ _ _ _ _ _ (or_introl eq_refl) (ss_scene _ _ Hl) Hh) as Hh1.
  change (role_registry (house (scene m1))) with (register (scene m1)).
  destruct (Roles.get_candidate (register (scene m1)) D provider) as [cand|e] eqn:Hcand; [|done].
  destruct (_snapshot_display_role session provider (scene m1)) as [sn|e] eqn:Hs; [|done].
  assert (is_ok (Roles.get_candidate (register (scene m1)) D provider) = true) as Hc by (by rewrite Hcand).
  repeat (split; [done|]). split; [by eapply snapshot_remembers|]. split; [done|]. by exists (scene m1).
Qed.

(** What the [except] block finds. *)
Definition interrupted R ep c d0 (w : option pystr) (m : Migration) : Prop :=
  exists c', holds R ep c' (maybe c d0 w) (scene m) /\ (c' = c \/ c' = w) /\
    (switched_role m = false -> c' = c /\ holds R ep c (unsaved c d0) (scene m)).

(** What the rest of the [try] block starts from. *)
Definition switched_to R ep c d0 mode provider (m : Migration) : Prop :=
  switched_role m = true /\ holds R ep (wanted mode provider) (maybe c d0 (wanted mode provider)) (scene m) /\
  Roles.preferred_provider (register (scene m)) D = Ok (Some provider).

Lemma early_interrupted R ep c d0 w m : holds R ep c (unsaved c d0) (scene m) -> interrupted R ep c d0 w m.
Proof.
  intros Hh. exists c. split; [|split; [by left|done]]. destruct Hh. constructor; try done. by left.
Qed.

Lemma late_interrupted R ep c d0 mode provider m : switched_role m = true ->
  holds R ep (wanted mode provider) (maybe c d0 (wanted mode provider)) (scene m) ->
  interrupted R ep c d0 (wanted mode provider) m.
Proof. intros Hsw Hh. exists (wanted mode provider). split; [done|]. split; [by right|]. congruence. Qed.

(** What the switch decides for the clients. *)
Record planned (provider : pystr) (sn : Snapshot) (d : list pystr * pystr * bool) (m : Migration) : Prop := {
  pl_clients : d.1.1 = migration_consumers sn (stage (scene m));
  pl_originals k : k ∈ d.1.1 -> mjoin (dget (originals m) k) = dget (instances (house (scene m))) k;
  pl_display : _session_display session (house (scene m)) = Ok d.1.2;
  pl_rebuilds : sn_display sn <> d.1.2 \/ sn_provider sn <> Some provider \/ is_Some (sn_outage sn) -> d.2 = true;
}.

Lemma originals_dget (ks : list pystr) (s : Supervisor) k : k ∈ ks ->
  mjoin (dget ((fun k => (k, dget (instances s) k)) <$> ks) k) = dget (instances s) k.
Proof.
  intros Hk. induction ks as [|k' ks IH]; [by apply not_elem_of_nil in Hk|]. cbn. case_decide as Hd; [by subst|].
  apply IH. by apply elem_of_cons in Hk as [?|].
Qed.

Lemma switch_spec R ep c d0 mode provider sn n m : holds R ep c (unsaved c d0) (scene m) ->
  is_ok (Roles.get_candidate (register (scene m)) D provider) = true ->
  match switch_display session mode provider sn n m with
  | (m', Ok d) => switched_to R ep c d0 mode provider m' /\ same_log m m' /\ planned provider sn d m'
  | (m', Raise _) => interrupted R ep c d0 (wanted mode provider) m'
  end.
Proof.
  intros Hh Hcand. unfold switch_display, bind_act, get. destruct (heap _ !! n) as [i|]; [|by apply early_interrupted].
  unfold demand. destruct (_ =? _)%Z; [|by apply early_interrupted]. cbn [ret].
  destruct (bool_decide _); [|by apply early_interrupted]. cbn [ret].
  destruct (matches_snapshot _ _); [|by apply early_interrupted]. cbn [ret]. unfold change, calling, on_selection, pure, ret.
  cbn [scene note_switched].
  destruct (_apply_display_preference mode provider (generation i) (selection (scene m))) as [st r] eqn:Ha.
  apply apply_spec in Ha; [|apply Hh..|done]. destruct r as [u|e]; cbn [fst].
  2:{ subst st. exists c. split; [|split; [by left|done]]. destruct Hh. constructor; try done. by left. }
  destruct Ha as [Hch Hp]. pose proof (chosen_holds _ _ _ _ _ _ _ Hh Hch) as Hh'.
  assert (holds R ep (wanted mode provider) (maybe c d0 (wanted mode provider)) (set_selection st (scene m))) as Hds.
  { destruct Hh'. constructor; try done. by left. }
  destruct (_session_display session _) as [display|e] eqn:Hdis; [|by apply late_interrupted]. split; [done|]. split; [done|].
  destruct Hch as (r & ov & -> & _). constructor; cbn [fst snd scene set_scene originals note_switched].
  - by destruct m as [[[[] ? ?]]].
  - intros k Hk. exact (originals_dget _ (super (stage (scene m))) k Hk).
  - exact Hdis.
  - intros Hre. rewrite !orb_true_iff, !negb_true_iff, !bool_decide_eq_false, bool_decide_eq_true. tauto.
Qed.

(** The commit saves the choice. *)
Lemma commit_saves R ep c ds provider sn n m m' u : holds R ep c ds (scene m) -> commit provider sn n m = (m', Ok u) ->
  holds R ep c (eq c) (scene m').
Proof.
  intros Hh. unfold commit. unfold bind_act at 1, calling at 1, _persist_role_preferences at 1.
  destruct (write_preferences _) as [v|e]; [|done].
  match goal with |- ?f ?m1 = _ -> _ => assert (smooth f) as Hf; [|set (m0 := m1); intros Hrest] end.
  { along. all: apply end_outage_smooth. }
  specialize (Hf m0). rewrite Hrest in Hf. cbn [fst] in Hf. eapply holds_undisturbed; [done|apply Hf|].
  destruct Hh. by constructor.
Qed.

Lemma act_Ok {A B} (x : act A) (f : A -> act B) m m' b : bind_act x f m = (m', Ok b) ->
  exists m1 a, x m = (m1, Ok a) /\ f a m1 = (m', Ok b).
Proof. unfold bind_act. destruct (x m) as [m1 [a|e]]; [|done]. intros Hf. by exists m1, a. Qed.

Lemma quiet_log {A} (x : act A) m m1 r : quiet x -> x m = (m1, r) -> same_log m m1.
Proof. intros Hq Hx. specialize (Hq m). by rewrite Hx in Hq. Qed.

Lemma quiet_let_through sn k : quiet (let_through sn k).
Proof. unfold let_through. along. Qed.
Lemma quiet_fence live k : quiet (ready_behind_fence live k).
Proof. intros m. unfold ready_behind_fence. by destruct (make_ready k (scene m)). Qed.

Lemma change_Ok f m m' u : change f m = (m', Ok u) -> m' = f m.
Proof. by intros [= <- _]. Qed.
Lemma calling_Ok (f : Scene -> Scene * py unit) m m' u : calling f m = (m', Ok u) ->
  exists sc, f (scene m) = (sc, Ok tt) /\ m' = set_scene sc m.
Proof. unfold calling. destruct (f (scene m)) as [sc [[]|e]]; [|done]. intros [= <- _]. by exists sc. Qed.
Lemma demand_Ok b e m m' u : demand b e m = (m', Ok u) -> b = true /\ m' = m.
Proof. destruct b; [by intros [= <- _]|done]. Qed.

Lemma left_down_iff sn k s : skip_quarantined sn k s = true <-> left_down (sn_outage sn) k s.
Proof.
  unfold skip_quarantined, left_down. destruct (sn_outage sn) as [o|]; [|by split; [|intros (? & ? & _)]].
  rewrite orb_true_iff, !bool_decide_eq_true. split; [intros Hor; by exists o|by intros (? & [= <-] & ?)].
Qed.

Lemma let_through_Ok sn k m m' u : let_through sn k m = (m', Ok u) -> m' = set_scene (pass_fence (sn_outage sn) k (scene m)) m.
Proof.
  unfold let_through, pass_fence. intros (m1 & a & [= <- <-] & H0)%act_Ok. destruct (sn_outage sn) as [o|].
  - apply act_Ok in H0 as (m2 & ? & ->%change_Ok & H0). apply act_Ok in H0 as (m3 & ? & [_ ->]%demand_Ok & H0).
    by apply change_Ok in H0 as ->.
  - injection H0 as <- _. by destruct m.
Qed.

Lemma fence_Ok live k m m' n : ready_behind_fence (outage_id <$> live) k m = (m', Ok n) ->
  exists sc, make_ready k (scene m) = (sc, Ok n) /\ m' = set_scene (withdraw live k sc) m.
Proof.
  unfold ready_behind_fence, withdraw. destruct (make_ready k (scene m)) as [sc [x|e]]; [|done].
  intros [= <- ->]. exists sc. by destruct live.
Qed.

Lemma restart_spec sn k m m' u : restart_consumer sn k m = (m', Ok u) -> moved m = attempted m ->
  exists b : bool, client_moved (sn_outage sn) (mjoin (dget (originals m) k)) k (scene m) b (scene m') /\
    moved m' = moved m ++ (if b then [k] else []) /\ moved m' = attempted m' /\ originals m' = originals m.
Proof.
  intros H0 Hm. unfold restart_consumer in H0. apply act_Ok in H0 as (m1 & a & [= <- <-] & H0).
  apply act_Ok in H0 as (m2 & ? & [_ ->]%demand_Ok & H0). cbv zeta in H0.
  pose proof (left_down_iff sn k (house (scene m))) as Hskip. destruct (skip_quarantined sn k _).
  - apply act_Ok in H0 as (m3 & ? & [= <- _] & H0). apply act_Ok in H0 as (m4 & ? & H1 & [= <- _]). exists false.
    rewrite app_nil_r. assert (moved m4 = moved m /\ moved m4 = attempted m4 /\ originals m4 = originals m /\
      old_stopped (mjoin (dget (originals m) k)) k (scene m) (scene m4)) as (A & B & C & E).
    { destruct (mjoin _) as [n|]; [|by injection H1 as <- _]. by apply calling_Ok in H1 as (sc & ? & ->). }
    split; [|done]. apply cm_left; [by apply Hskip|done].
  - apply act_Ok in H0 as (m3 & ? & ->%change_Ok & H0). apply act_Ok in H0 as (m4 & ? & H1 & H0).
    assert (moved m4 = moved m /\ attempted m4 = attempted m ++ [k] /\ originals m4 = originals m /\
      old_stopped (mjoin (dget (originals m) k)) k (scene m) (scene m4)) as (A & B & C & E).
    { destruct (mjoin _) as [n|]; [|by injection H1 as <- _]. by apply calling_Ok in H1 as (sc & ? & ->). }
    apply act_Ok in H0 as (m5 & ? & [= <- <-] & H0). apply act_Ok in H0 as (m6 & ? & ->%let_through_Ok & H0).
    apply act_Ok in H0 as (m7 & n & H2 & H0). apply fence_Ok in H2 as (sc & Hready & ->).
    apply act_Ok in H0 as (m8 & ? & [= <- <-] & H0). apply act_Ok in H0 as (m9 & ? & [Hr ->]%demand_Ok & H0).
    apply change_Ok in H0 as ->. exists true. cbn. split; [|by rewrite A, B, Hm].
    eapply cm_restarted; [|exact E|exact Hready|exact Hr]. intros Hl%Hskip. done.
Qed.

(** The clients that have been restarted. *)
Lemma restarts_spec sn ks m m' u : restart_consumers sn ks m = (m', Ok u) -> moved m = attempted m ->
  exists ms, clients_moved (sn_outage sn) (fun k => mjoin (dget (originals m) k)) ks ms (scene m) (scene m') /\
    moved m' = moved m ++ ms /\ moved m' = attempted m'.
Proof.
  revert m; induction ks as [|k ks IH]; intros m; cbn [restart_consumers].
  { intros [= <- _] Hm. exists []. rewrite app_nil_r. by split; [apply cms_nil|]. }
  intros (m1 & v & Hk & Hr)%act_Ok Hm. destruct (restart_spec _ _ _ _ _ Hk Hm) as (b & Hc & H1 & H2 & H3).
  destruct (IH _ Hr H2) as (ms & Hcs & A1 & A2). rewrite H3 in Hcs. eexists. split; [exact (cms_cons _ _ k ks b ms _ _ _ Hc Hcs)|].
  split; [by rewrite A1, H1, app_assoc|done].
Qed.

Lemma clients_old outage old old' ks ms sc sc' : (forall k, k ∈ ks -> old k = old' k) ->
  clients_moved outage old ks ms sc sc' -> clients_moved outage old' ks ms sc sc'.
Proof.
  intros Heq Hc. induction Hc as [|k ks b ms sc sc1 sc2 Hc _ IH]; [apply cms_nil|].
  eapply cms_cons; [rewrite <- (Heq k (list_elem_of_here k ks)); exact Hc|]. apply IH. intros. apply Heq. by right.
Qed.

Lemma quiet_retire sn provider : quiet (match named (sn_provider sn) with
  | Some old => if bool_decide (old = provider) then ret tt else calling (retire_unless_needed old)
  | None => ret tt
  end).
Proof. along. Qed.
Lemma quiet_end_outage sn n : quiet (end_outage sn n).
Proof. unfold end_outage. along. Qed.
Lemma quiet_commit provider sn n : quiet (commit provider sn n).
Proof. unfold commit. along. apply quiet_end_outage. Qed.

Lemma rebuild_spec R ep c ds provider sn n d m m' details : ds c -> holds R ep c ds (scene m) ->
  Roles.preferred_provider (register (scene m)) D = Ok (Some provider) -> planned provider sn d m ->
  moved m = [] -> attempted m = [] -> rebuild_session provider sn n d m = (m', Ok details) ->
  holds R ep c (eq c) (scene m') /\ attempted m' = moved m' /\
  session_moved session provider sn (scene m) d.2 (moved m') details.
Proof.
  intros Hc Hh Hp [P1 P2 P3 P4] Hm0 Ha0. unfold rebuild_session, check_owner. destruct d as [[consumers display] invalidated]. intros H0.
  cbn [fst snd] in *.
  apply act_Ok in H0 as (m1 & a & [= <- <-] & H0). apply act_Ok in H0 as (m2 & ? & ->%change_Ok & H0).
  apply act_Ok in H0 as (m3 & ? & H1 & H0).
  assert (holds R ep c ds (scene m3) /\ moved m3 = attempted m3 /\
    clients_moved (sn_outage sn) (fun k => dget (instances (house (scene m))) k) (if invalidated then consumers else [])
      (moved m3) (scene m) (scene m3)) as (Hh3 & L1 & L2).
  { destruct invalidated.
    - match type of H1 with _ ?m0 = _ => pose proof (restart_consumers_smooth sn consumers m0) as [Hs _] end.
      rewrite H1 in Hs. cbn [fst] in Hs. apply restarts_spec in H1 as (ms & A1 & A2 & A3); [|by cbn; rewrite Hm0, Ha0].
      cbn in A2. rewrite Hm0 in A2. cbn in A2. rewrite A2. split; [by eapply holds_undisturbed|]. split; [by rewrite <- A3, A2|].
      eapply clients_old, A1. intros k Hk. by apply P2.
    - injection H1 as <- _. split; [done|]. cbn. rewrite Hm0, Ha0. split; [done|constructor]. }
  assert (forall A B (x : act A) (f : A -> act B) m m' b, smooth x -> quiet x ->
    (exists ds, ds c /\ holds R ep c ds (scene m)) /\ moved m = moved m3 /\ attempted m = attempted m3 ->
    bind_act x f m = (m', Ok b) -> exists m1 a, f a m1 = (m', Ok b) /\
    (exists ds, ds c /\ holds R ep c ds (scene m1)) /\ moved m1 = moved m3 /\ attempted m1 = attempted m3) as Hnext.
  { clear. intros A B x f m m' b Hs Hq [(ds & Hc & Hh) [L1 L2]] (m1 & a & Hx & Hf)%act_Ok. exists m1, a. split; [done|].
    specialize (Hs m). rewrite Hx in Hs. apply quiet_log in Hx as [Q1 Q2]; [|done].
    split; [|by rewrite Q1, Q2]. exists ds. split; [done|]. eapply holds_undisturbed; [done|apply Hs|done]. }
  assert ((exists ds, ds c /\ holds R ep c ds (scene m3)) /\ moved m3 = moved m3 /\ attempted m3 = attempted m3) as Hst
    by (split; [by exists ds|done]). clear H1 Hh Hh3.
  apply Hnext in H0 as (m4 & ? & H0 & Hst4); [|along|along|exact Hst].
  apply Hnext in H0 as (m5 & ? & H0 & Hst5); [|along|along|exact Hst4].
  apply Hnext in H0 as (m6 & ? & H0 & Hst6); [|along|along|exact Hst5].
  apply Hnext in H0 as (m7 & ? & H0 & Hst7); [|along|along|exact Hst6].
  apply Hnext in H0 as (m8 & ? & H0 & Hst8); [|along|along|exact Hst7].
  apply Hnext in H0 as (m9 & ? & H0 & (ds9 & _ & Hh9) & L9 & L9'); [|along|along|exact Hst8].
  apply act_Ok in H0 as (m10 & ? & Hcommit & H0).
  pose proof (commit_saves _ _ _ _ _ _ _ _ _ _ Hh9 Hcommit) as Hh10. apply quiet_log in Hcommit as [Q1 Q2]; [|apply quiet_commit].
  apply act_Ok in H0 as (m11 & ? & Hlock & H0). apply act_Ok in H0 as (m12 & ? & [= <- <-] & H0).
  apply act_Ok in H0 as (m13 & summary & Hsum & [= <- <-]). unfold pure in Hsum.
  destruct (_role_summary _ _) as [v|]; [|done]. injection Hsum as <- _.
  injection Hlock as <- _. cbn [scene set_scene attempted moved]. split.
  - eapply holds_undisturbed; [done|apply meanwhile_law|done].
  - split; [congruence|]. change (moved (set_scene (meanwhile (scene m10)) m10)) with (moved m10). rewrite Q2, L9. constructor; cbn [fst snd].
    + done.
    + intros display'. rewrite P3. by intros [= <-].
    + exists (scene m3). by rewrite <- P1.
    + by rewrite <- P1.
    + done.
    + done.
    + by exists display.
Qed.

Lemma interrupted_smooth R ep c d0 w m m' : smooth_step m m' -> interrupted R ep c d0 w m -> interrupted R ep c d0 w m'.
Proof.
  intros [Hu Hsw] (c' & Hh & Hc' & Hearly). exists c'. split; [|split; [done|]].
  - eapply holds_undisturbed; [|done|done]. destruct Hc'; [by left; left|by right].
  - rewrite Hsw. intros Hf. destruct (Hearly Hf) as [? H0]. split; [done|]. eapply holds_undisturbed; [by left|done|done].
Qed.

Lemma try_spec R ep c d0 mode provider sn m : holds R ep c (unsaved c d0) (scene m) ->
  is_ok (Roles.get_candidate (register (scene m)) D provider) = true -> moved m = [] -> attempted m = [] ->
  match migrate_try session mode provider sn m with
  | (m', Ok details) => holds R ep (wanted mode provider) (eq (wanted mode provider)) (scene m') /\
      Roles.preferred_provider (register (scene m')) D = Ok (Some provider) /\ attempted m' = moved m' /\
      exists switched rebuilds, session_moved session provider sn switched rebuilds (moved m') details
  | (m', Raise _) => interrupted R ep c d0 (wanted mode provider) m'
  end.
Proof.
  intros Hh Hcand Hm0 Ha0. unfold migrate_try.
  assert (forall A B (x : act A) (f : A -> act B) (P : Migration * result mishap B -> Prop) m, smooth x -> quiet x ->
    holds R ep c (unsaved c d0) (scene m) -> is_ok (Roles.get_candidate (register (scene m)) D provider) = true ->
    moved m = [] -> attempted m = [] ->
    (forall a m', holds R ep c (unsaved c d0) (scene m') -> is_ok (Roles.get_candidate (register (scene m')) D provider) = true ->
      moved m' = [] -> attempted m' = [] -> P (f a m')) ->
    (forall m' e, interrupted R ep c d0 (wanted mode provider) m' -> P (m', Raise e)) -> P (bind_act x f m)) as Hnext.
  { clear. intros A B x f P m Hs Hq Hh Hc Hm Ha Hf He. unfold bind_act. specialize (Hs m). specialize (Hq m).
    destruct (x m) as [m1 [a|e]]; cbn [fst] in *; destruct Hq as [Q1 Q2].
    - pose proof (holds_undisturbed _ _ _ _ _ _ (or_introl eq_refl) (ss_scene _ _ Hs) Hh) as Hh1.
      apply Hf; [done| |by rewrite Q2|by rewrite Q1]. rewrite <- Hc. apply candidate_roles, (u_roles _ _ (ss_scene _ _ Hs)).
    - apply He, early_interrupted. eapply holds_undisturbed, Hh; [by left|apply Hs]. }
  apply Hnext; try done; [along..|intros n m1 Hh1 Hc1 Hm1 Ha1].
  apply Hnext; try done; [along..|intros m1' m2 Hh2 Hc2 Hm2 Ha2].
  apply Hnext; try done; [along..|intros _ m3 Hh3 Hc3 Hm3 Ha3].
  apply Hnext; try done; [along..|intros _ m4 Hh4 Hc4 Hm4 Ha4].
  unfold bind_act. pose proof (switch_spec R ep c d0 mode provider sn n m4 Hh4 Hc4) as Hsw.
  destruct (switch_display _ _ _ _ _ m4) as [m5 [d|e]]; [|done]. destruct Hsw as ((Hs5 & Hh5 & Hp5) & [L1 L2] & Hpl).
  pose proof (rebuild_smooth provider sn n d m5) as Hs. destruct (rebuild_session provider sn n d m5) as [m6 [details|e]] eqn:Hr;
    cbn [fst] in Hs.
  - apply (rebuild_spec R ep (wanted mode provider) (maybe c d0 (wanted mode provider))) in Hr
      as (A & B & C); [|by right|done..|by rewrite L2|by rewrite L1]. split; [done|]. split; [|split; [done|by eexists _, _]].
    rewrite <- Hp5. apply preferred_of; apply (ss_scene _ _ Hs).
  - eapply interrupted_smooth; [exact Hs|by apply late_interrupted].
Qed.

Lemma undo_spec R ep c d0 w provider sn e m : interrupted R ep c d0 w m -> remembers R ep c sn ->
  match undo provider sn e m with
  | (_, Ok _) => False
  | (m', Raise e') => handled e' = true -> exists fs,
      (restored R ep c (maybe c d0 w) fs (scene m') \/ holds R ep c (unsaved c d0) (scene m')) /\
      dget (mishap_details e') §"rollback_failures" = Some (VList (failure_record <$> fs))
  end.
Proof.
  intros (c' & Hh & Hc' & Hearly) Hr. unfold undo. unfold bind_act at 1, get.
  assert (ends (fun fs m' => restored R ep c (maybe c d0 w) fs (scene m') \/ holds R ep c (unsaved c d0) (scene m'))
    ((if switched_role m then _rollback_display_migration provider sn else retire_new_provider provider sn) m)) as Hback.
  { destruct (switched_role m) eqn:Hsw.
    - pose proof (migration_rollback_spec R ep c' c (maybe c d0 w) provider sn m) as Hro.
      destruct (_rollback_display_migration provider sn m) as [m1 [fs|e1]]; cbn in *; [left|]; apply Hro; try done.
      all: try (destruct Hc' as [-> | ->]; [by left; left|by right]); by left; left.
    - destruct (Hearly eq_refl) as [-> H0].
      destruct (contained_holds _ _ _ _ _ _ (or_introl eq_refl) (retire_new_contained provider sn) H0) as [A B].
      destruct (retire_new_provider provider sn m) as [m1 [fs|e1]]; cbn in *; [by right|done]. }
  unfold bind_act. set (back := if switched_role m then _rollback_display_migration provider sn else _) in *. clearbody back.
  destruct (back m) as [m1 [fs|e1]]; cbn [ends] in Hback; [|congruence].
  cbn [fail_with throw]. intros _. exists fs. split; [done|]. cbn [mishap_details].
  rewrite dget_dupdate; [done|]. apply (bool_decide_unpack _). by vm_compute.
Qed.

End Transaction.

(* ------------------------------------------------------------------ *)
(** ** The records that stay *)

Definition unfinished (d : Desk) (id : Z) : Prop := display_migration_active d = Some id \/ id ∈ display_migration_tasks d.

Lemma dget_removed {V} (ids : list Z) (d : dict Z V) id : dict_wf d ->
  dict_wf (foldl ddel d ids) /\ dget (foldl ddel d ids) id = if decide (id ∈ ids) then None else dget d id.
Proof.
  revert d; induction ids as [|x ids IH]; intros d Hd; cbn [foldl]; [by rewrite decide_False by apply not_elem_of_nil|].
  destruct (IH (ddel d x)) as [A B]; [by apply ddel_wf|]. split; [done|]. rewrite B, dget_ddel by done.
  destruct (decide (id = x)) as [->|Hne].
  - rewrite (decide_True _ _ (list_elem_of_here x ids)). by case_decide.
  - destruct (decide (id ∈ ids)) as [Hin|Hout]; [by rewrite decide_True by by right|].
    rewrite decide_False; [done|]. intros [?|?]%elem_of_cons; done.
Qed.

Lemma length_removed {V} (ids : list Z) (d : dict Z V) : dict_wf d -> NoDup ids -> (forall id, id ∈ ids -> id ∈ dkeys d) ->
  (length (foldl ddel d ids) + length ids = length d)%nat.
Proof.
  revert d; induction ids as [|x ids IH]; intros d Hd Hn Hin; cbn [foldl length]; [lia|].
  apply NoDup_cons in Hn as [Hx Hn]. assert (S (length (ddel d x)) = length d) as <-.
  { assert (x ∈ dkeys d) as Hk by (apply Hin; by left). clear -Hk. induction d as [|[y v] d IH]; cbn; [by apply not_elem_of_nil in Hk|].
    case_decide; [done|]. cbn. rewrite IH; [done|]. by apply elem_of_cons in Hk as [?|]. }
  rewrite <- (IH (ddel d x)); [lia|by apply ddel_wf|done|].
  intros id Hid. assert (id ∈ dkeys d) as Hk by (apply Hin; by right). revert Hk. rewrite !dkeys_elem, dget_ddel by done.
  rewrite decide_False by congruence. done.
Qed.

Lemma removable_elem d id : id ∈ removable d <-> ~ unfinished d id /\ id ∈ dkeys (display_migrations d).
Proof. unfold removable, sorted_ids, unfinished. rewrite list_elem_of_filter, py_sorted_elem. tauto. Qed.

(** When a migration ends, the record of every unfinished one stays as it is;
    of the others the oldest go, until at most 32 records, or none but of
    unfinished migrations, are left. *)
Theorem prune_spec d : dict_wf (display_migrations d) ->
  let d' := _prune_display_migrations d in
  (forall id, unfinished d id -> dget (display_migrations d') id = dget (display_migrations d) id) /\
  ((length (display_migrations d') <= 32)%nat \/ forall id, id ∈ dkeys (display_migrations d') -> unfinished d' id) /\
  forall id kept, id ∈ dkeys (display_migrations d) -> id ∉ dkeys (display_migrations d') ->
    kept ∈ dkeys (display_migrations d') -> ~ unfinished d kept -> (id < kept)%Z.
Proof.
  intros Hd. unfold _prune_display_migrations. destruct (_ <=? 32)%nat eqn:Hlen.
  { apply Nat.leb_le in Hlen. cbn zeta. split; [done|]. split; [by left|]. done. }
  apply Nat.leb_gt in Hlen. cbn zeta. cbn [display_migrations]. set (k := (_ - 32)%nat). set (gone := take k (removable d)).
  assert (NoDup (removable d)) as Hnd by (by apply NoDup_filter, py_sorted_NoDup).
  assert (gone ++ drop k (removable d) = removable d) as Hsplit by apply take_drop.
  assert (forall id, id ∈ gone -> id ∈ removable d) as Hgone.
  { intros id Hid. rewrite <- Hsplit. apply elem_of_app. by left. }
  assert (NoDup gone) as Hng by (rewrite <- Hsplit in Hnd; by apply NoDup_app in Hnd as [? _]).
  assert (forall id, dget (foldl ddel (display_migrations d) gone) id =
    if decide (id ∈ gone) then None else dget (display_migrations d) id) as Hget by (intros id; by apply dget_removed).
  assert (length (foldl ddel (display_migrations d) gone) + length gone = length (display_migrations d))%nat as Hcount.
  { apply length_removed; [done|done|]. intros id Hid. by apply Hgone, removable_elem in Hid as [_ ?]. }
  split; [|split].
  - intros id Hun. rewrite Hget. apply decide_False. intros Hid. by apply Hgone, removable_elem in Hid as [? _].
  - destruct (decide (k <= length (removable d))%nat) as [Hk|Hk].
    + left. assert (length gone = k) as Hgk by (unfold gone; rewrite length_take; lia). unfold k in Hgk. lia.
    + right. intros id Hid. apply dkeys_elem in Hid as [v Hv]. rewrite Hget in Hv. unfold gone in Hv.
      rewrite take_ge in Hv by lia. case_decide as Hin; [done|]. rewrite removable_elem in Hin.
      apply dget_Some_key in Hv. unfold unfinished in *. cbn.
      destruct (decide (display_migration_active d = Some id)) as [?|Hact]; [by left|]. right.
      destruct (decide (id ∈ display_migration_tasks d)) as [?|Htask]; [done|]. exfalso. apply Hin. split; [|done]. by intros [|].
  - intros id kept Hid Hout Hkept Hnot.
    assert (forall x, x ∈ dkeys (foldl ddel (display_migrations d) gone) <-> x ∉ gone /\ x ∈ dkeys (display_migrations d)) as Hkeys.
    { intros x. rewrite !dkeys_elem, Hget. case_decide; [|tauto]. split; [by intros [? ?]|by intros [? _]]. }
    apply Hkeys in Hkept as [Hk1 Hk2]. assert (id ∈ gone) as Hin.
    { destruct (decide (id ∈ gone)); [done|]. exfalso. apply Hout. by apply Hkeys. }
    assert (kept ∈ removable d) as Hkr by (by apply removable_elem). rewrite <- Hsplit in Hkr. apply elem_of_app in Hkr as [?|Hkr]; [done|].
    assert (Z.leb id kept = true) as Hle%Z.leb_le.
    { refine (sorted_app_le Z.leb gone (drop k (removable d)) _ _ _ Hin Hkr). rewrite Hsplit. apply sorted_filter, py_sorted_sorted.
      - intros x y. rewrite !Z.leb_le. lia.
      - intros x y z. rewrite !Z.leb_le. lia. }
    assert (id ≠ kept) by congruence. lia.
Qed.

(* ------------------------------------------------------------------ *)
(** ** Witnesses *)

Definition sample_wayland : Manifest.Component :=
  display_component §"wayland" §"session"
    [{| Manifest.kind := §"role"; Manifest.name := DISPLAY_OUTPUT_ROLE; Manifest.priority := 0;
        Manifest.exclusive := true |}] [].

Definition two_displays : dict pystr Manifest.Component := display_components ++ [(§"p:wayland", sample_wayland)].

Definition free_registry : Roles.RoleRegistry :=
  match Roles.make two_displays [] [] with Ok r => r | Raise _ => empty_registry end.
Definition two_display_registry : Roles.RoleRegistry :=
  match Roles.acquire free_registry D (Some §"p:x11") (Some §"generation:1") with Ok (r, _) => r | Raise _ => free_registry end.

(** The shell and an application run on the first display; the second one is
    ready. *)
Definition two_display_supervisor : Supervisor :=
  {| heap := {[ 1%nat := sample_instance sample_x11 11; 2%nat := sample_instance sample_shell 12;
                3%nat := sample_instance sample_editor 13; 4%nat := sample_instance sample_wayland 14 ]};
     instances := [(§"p:x11", 1%nat); (§"p:shell", 2%nat); (§"p:editor", 3%nat); (§"p:wayland", 4%nat)];
     components := two_displays;
     component_objects := (fun kc => (kc.1, 0%nat)) <$> two_displays;
     role_registry := two_display_registry; service_catalog := Services.make two_displays;
     catalog_epoch := 0; next_request_id := 1; stopping := false; stop_requests := ∅;
     foreground_stack := [§"p:editor"]; backgrounded_components := ∅;
     failure_history := []; quarantined := ∅; quarantine_times := [];
     recovery_allowed := None; idle_tasks := ∅; futures := ∅ |}.

Definition two_display_scene : Scene :=
  {| stage := {| world := {| sup := two_display_supervisor; sent := []; spawned := [] |}; startup := [§"p:shell"];
       generations := []; spawn_backoff_until := []; spawn_retry_tasks := []; retries_done := ∅; launched := ∅;
       display_outage := None; next_display_outage_id := 1; display_fault := None; next_display_fault_id := 1 |};
     choices := []; durable := [] |}.

(** Every component starts but, if there is one, [broken]. *)
Definition crew (broken : option pystr) : Stagehands := {|
  make_ready k sc :=
    if bool_decide (broken = Some k) then (sc, Raise (runtime_error §"spawn failed"))
    else match dget (instances two_display_supervisor) k with
         | Some n => (set_house (set_instances (dset (instances (house sc)) k n) (house sc)) sc, Ok n)
         | None => (sc, Raise (Exn KeyError k))
         end;
  stop_instance k n sc := (set_house (set_instances (ddel (instances (house sc)) k) (house sc)) sc, Ok tt);
  dispatch_reactivation _ sc := (sc, Ok tt);
  settle_retry _ sc := sc;
  meanwhile sc := sc;
  write_preferences _ := Ok tt;
  memory_snapshot _ := VNone;
  unix_ms _ := 0%Z |}.

Lemma crew_laws broken : @StagehandsLaws (crew broken).
Proof.
  constructor; intros; try (by apply untouched); [].  cbn [make_ready crew].
  case_bool_decide; [by apply untouched|]. destruct (dget (instances two_display_supervisor) k); cbn [fst]; [by apply untouched|by apply untouched].
Qed.

Lemma two_displays_reachable : Roles.reachable two_display_registry.
Proof.
  eapply Roles.reach_step; [apply (Roles.reach_make two_displays [] []); vm_compute; reflexivity|].
  eapply (Roles.step_acquire free_registry D (Some §"p:x11") (Some §"generation:1")). vm_compute. reflexivity.
Qed.

Definition move_display (broken : option pystr) : Migration * result mishap (dict pystr pyval) :=
  @_migrate_display_output ascii_lib plain_repr no_channel sample_host (crew broken) sample_session
    §"select" §"p:wayland" (fresh [] two_display_scene).

End MigrationSafety.
