(* ===== verification/Introspect.v ===== *)
(** * What Core tells of its components ([msys_core/msysd.py])

    The summaries of components, services and processes that the control calls
    return, the presentation of a component in the language of the session, and
    the handlers of an intent. *)

From Stdlib Require Import ZArith.
From S2P Require Export Processes I18n Foreground Launch Dispatch.

Module Introspect.
Import Msysd Foreground Launch.

Definition PROCESS_LIST_SCHEMA : pystr := §"msys.process-list.v1".
Definition MAX_MANAGED_PROCESS_RESULTS : nat := 128.

(** [urlsplit] raises [ValueError] for some network locations. *)
Class UrlLib := { url_error : pystr -> option exn }.

(* ------------------------------------------------------------------ *)
(** ** Library functions *)

Section Lib.
Context `{PyLib}.

(** [urllib.parse.urlsplit(url).scheme] *)
Definition scheme_char (c : N) : bool := alnum_ascii c || one_of §"+-." c.
Definition clean_url (url : pystr) : pystr :=
  List.filter (fun c => negb (one_of [9; 10; 13] c)) (snd (str_span (fun c => c <=? 32) url)).
Definition urlsplit_scheme `{UrlLib} (url : pystr) : py pystr :=
  match url_error url with
  | Some e => Raise e
  | None =>
      let url := clean_url url in
      let head := str_before 58 url in
      Ok (if str_has 58 url && forallb scheme_char head
             && match head with c :: _ => alpha_ascii c | [] => false end
          then str_lower head else [])
  end.

(** The items of a bracket expression of [fnmatch]: single characters and
    ranges. *)
Fixpoint bracket_items (fuel : nat) (cs : pystr) : list (N * N) :=
  match fuel with
  | O => []
  | S fuel =>
      match cs with
      | a :: 45 :: b :: cs => (a, b) :: bracket_items fuel cs
      | a :: cs => (a, a) :: bracket_items fuel cs
      | [] => []
      end
  end.

Definition in_items (items : list (N * N)) (c : N) : bool := existsb (fun ab => (ab.1 <=? c) && (c <=? ab.2)) items.

(** The content of a bracket expression that is closed, and what follows: a
    closing bracket in first place is literal. *)
Definition bracket_content (s : pystr) : option (bool * pystr * pystr) :=
  let '(negated, s) := match s with 33 :: s => (true, s) | _ => (false, s) end in
  let '(first, rest) := match s with 93 :: s => ([93], s) | _ => ([], s) end in
  match str_after 93 rest with
  | Some after => Some (negated, first ++ str_before 93 rest, after)
  | None => None
  end.

Definition any_char : regex := RClass (fun _ => true).

Fixpoint glob (fuel : nat) (pattern : pystr) : regex :=
  match fuel with
  | O => REps
  | S fuel =>
      match pattern with
      | [] => REps
      | 42 :: rest => RSeq (RStar any_char) (glob fuel rest)
      | 63 :: rest => RSeq any_char (glob fuel rest)
      | 91 :: rest =>
          match bracket_content rest with
          | Some (negated, content, after) =>
              let items := bracket_items (length content) content in
              RSeq (RClass (fun c => xorb negated (in_items items c))) (glob fuel after)
          | None => RSeq (rchar 91) (glob fuel rest)
          end
      | c :: rest => RSeq (rchar c) (glob fuel rest)
      end
  end.

(** [fnmatch.fnmatchcase(name, pattern)] *)
Definition fnmatchcase (name pattern : pystr) : bool := fullmatch (glob (length pattern) pattern) name.
End Lib.

(* ------------------------------------------------------------------ *)
(** ** Presentation *)

(** What the presentation of components depends on: the session, the locale
    kept for it, the catalogs read so far, and the isolation the running
    generations were launched with. *)
Record View := {
  session : Launch.Session;
  _presentation_locale_value : option (option pystr);
  _presentation_catalogs : option I18n.PresentationCatalogCache;
  applied_isolation : gmap nat pyval;
}.

Definition set_locale_value (l : option (option pystr)) (v : View) : View :=
  {| session := session v; _presentation_locale_value := l; _presentation_catalogs := _presentation_catalogs v;
     applied_isolation := applied_isolation v |}.
Definition set_catalogs (c : I18n.PresentationCatalogCache) (v : View) : View :=
  {| session := session v; _presentation_locale_value := _presentation_locale_value v;
     _presentation_catalogs := Some c; applied_isolation := applied_isolation v |}.

(** Functions that read catalogs on demand. *)
Definition viewing (A : Type) : Type := View -> View * py A.
Definition vret {A} (a : A) : viewing A := fun v => (v, Ok a).
Definition vlift {A} (r : py A) : viewing A := fun v => (v, r).
Definition vbind {A B} (x : viewing A) (f : A -> viewing B) : viewing B :=
  fun v => match x v with (v, Ok a) => f a v | (v, Raise e) => (v, Raise e) end.
Fixpoint vmap {A B} (f : A -> viewing B) (l : list A) : viewing (list B) :=
  match l with
  | [] => vret []
  | x :: l => vbind (f x) (fun y => vbind (vmap f l) (fun ys => vret (y :: ys)))
  end.

Section Introspect.
Context `{PyLib} `{PyRepr} `{Host} `{I18n.CatalogFiles} `{Processes.Proc} `{UrlLib}.

Definition _profile_session_locale (se : Launch.Session) : option pystr :=
  dget (_supervisor_locale_environment (session_environment se)) §"MSYS_LOCALE".

Definition session_presentation_locale (se : Launch.Session) : option pystr :=
  if bool_decide (session_language se = §"system") then _profile_session_locale se else Some (session_language se).

(** An empty locale is kept as none. *)
Definition _presentation_locale : viewing (option pystr) := fun v =>
  match _presentation_locale_value v with
  | Some cached => (v, Ok cached)
  | None =>
      let locale := session_presentation_locale (session v) in
      let kept := match locale with Some l => if str_true l then Some l else None | None => None end in
      (set_locale_value (Some kept) v, Ok locale)
  end.

Definition _manifest_presentation_text (value : pyval) : option pystr :=
  match value with
  | VStr s => if str_true s && negb (str_has 0 s) then Some s else None
  | _ => None
  end.

Definition opt_or (a b : option pystr) : option pystr := match a with Some _ => a | None => b end.

(** The name and summary that are not translated. *)
Definition fallback_presentation (k : pystr) (c : Manifest.Component) : pystr * option pystr :=
  (default k (opt_or (_manifest_presentation_text (dget_or (Manifest.raw c) §"name" VNone))
                     (_manifest_presentation_text (VStr (Manifest.package_name c)))),
   opt_or (_manifest_presentation_text (dget_or (Manifest.raw c) §"summary" VNone))
          (_manifest_presentation_text (VStr (Manifest.package_summary c)))).

Definition translated (catalog : I18n.PresentationCatalog) (locale : option pystr)
    (declaration : dict pystr pyval) (field : pystr) (fallback : option pystr) : option pystr :=
  match dget declaration field with
  | Some (VStr message_key) =>
      if negb (str_true message_key) || (160 <? length message_key)%nat || str_has 0 message_key then fallback
      else match I18n.text catalog message_key locale with
           | Some t => if str_true t then Some t else fallback
           | None => fallback
           end
  | _ => fallback
  end.

(** A component's own declaration, even a malformed one, hides its package's. *)
Definition i18n_declaration (c : Manifest.Component) : pyval :=
  match dget (Manifest.raw c) §"x-msys-i18n" with Some d => d | None => Manifest.package_i18n c end.

Definition _localized_component_presentation (k : pystr) (c : Manifest.Component)
    : viewing (pystr * option pystr) := fun v =>
  let '(name, summary) := fallback_presentation k c in
  match i18n_declaration c, Manifest.manifest_path c with
  | VDict declaration, Some path =>
      let catalogs := default (I18n.make I18n.DEFAULT_CACHE_ENTRIES) (_presentation_catalogs v) in
      let '(catalogs, r) := I18n.get catalogs path (dget_or declaration §"catalog" VNone) in
      let v := set_catalogs catalogs v in
      match r with
      | Raise e => (v, Raise e)
      | Ok None => (v, Ok (name, summary))
      | Ok (Some catalog) =>
          let '(v, locale) := _presentation_locale v in
          (v, locale ← locale;
              let t := translated catalog locale declaration §"name_key" (Some name) in
              Ok (match t with Some n => if str_true n then n else name | None => name end,
                  translated catalog locale declaration §"summary_key" summary))
      end
  | _, _ => (v, Ok (name, summary))
  end.

(* ------------------------------------------------------------------ *)
(** ** Components *)

Definition _is_launchable (c : Manifest.Component) : bool :=
  match dget_or (Manifest.activation c) §"launchable" VNone with
  | VNone =>
      bool_decide (Manifest.lifecycle c = §"manual" \/ Manifest.lifecycle c = §"on-demand")
      && negb (existsb (fun p => bool_decide (Manifest.kind p = §"role")) (Manifest.provides c))
      && bool_decide (windowing_str c §"mode" = §"window" \/ windowing_str c §"mode" = §"fullscreen")
  | explicit => truthy explicit
  end.

Definition folded (c : Manifest.Component) (field : pystr) : pystr := str_casefold (str_strip (windowing_str c field)).

Definition _component_has_gui_window (c : Manifest.Component) : bool :=
  let mode := folded c §"mode" in
  let system := folded c §"system" in
  if bool_decide (mode ∈ [§"window"; §"fullscreen"; §"overlay"]) then true
  else if bool_decide (system ∈ [§"x11"; §"wayland"]) && negb (bool_decide (mode ∈ [[]; §"none"; §"headless"])) then true
  else match dget (Manifest.raw c) §"x-msys-role-windows" with
       | Some (VDict d) => match d with [] => false | _ => true end
       | _ => false
       end.

(** One declared icon, when its path stays inside the package. *)
Definition safe_icon (value : pyval) : option pyval :=
  match value with
  | VDict d =>
      match dget d §"path" with
      | Some (VStr path) =>
          let parsed := path_of (str_removeprefix §"@package/" path) in
          if negb (str_true path) || str_has 0 path || (1024 <? length path)%nat then None
          else if path_absolute parsed || bool_decide (pparts parsed = []) || bool_decide (§".." ∈ pparts parsed) then None
          else Some (VDict ([(§"path", VStr path)]
            ++ match dget d §"size" with
               | Some (VInt z) => if (1 <=? z)%Z && (z <=? 4096)%Z then [(§"size", VInt z)] else []
               | _ => []
               end
            ++ match dget d §"mime" with
               | Some (VStr m) => if str_true m && negb (str_has 0 m) && (length m <=? 128)%nat
                                  then [(§"mime", VStr m)] else []
               | _ => []
               end))
      | _ => None
      end
  | _ => None
  end.

Definition _safe_icon_declarations (raw : pyval) : list pyval :=
  match raw with VList l => omap safe_icon (take 32 l) | _ => [] end.

Definition _component_package_root (c : Manifest.Component) : option pystr :=
  match Manifest.manifest_path c with
  | None => None
  | Some path => match resolve_path false (I18n.path_parent path) with
                 | Ok root => Some (path_str root)
                 | Raise _ => None
                 end
  end.

Definition provide_summary (p : Manifest.Provide) : pyval :=
  VDict [(§"kind", VStr (Manifest.kind p)); (§"name", VStr (Manifest.name p));
         (§"exclusive", VBool (Manifest.exclusive p)); (§"priority", VInt (Manifest.priority p))].

(** [entry["component"]] of the foreground entries *)
Definition foreground_components (s : Supervisor) : list pystr :=
  omap (fun e => dget e §"component" ≫= as_str) (_foreground_entries (fun _ => VNone) s false).

Definition _component_summary (s : Supervisor) (k : pystr) (c : Manifest.Component) : viewing pyval := fun v =>
  let component_icons := _safe_icon_declarations (dget_or (Manifest.raw c) §"icons" VNone) in
  let icons := match component_icons with
               | [] => _safe_icon_declarations (VList (Manifest.package_icons c))
               | _ => component_icons
               end in
  vbind (_localized_component_presentation k c) (fun ns => vret
    (VDict ([(§"id", VStr k); (§"package", VStr (Manifest.package_id c));
             (§"package_version", VStr (Manifest.package_version c));
             (§"package_kind", VStr (Manifest.package_kind c)); (§"name", VStr ns.1);
             (§"runtime", VStr (Manifest.runtime c)); (§"lifecycle", VStr (Manifest.lifecycle c));
             (§"restart", VStr (Manifest.restart c)); (§"idle_timeout_ms", Processes.opt_int (Manifest.idle_timeout_ms c));
             (§"state", VStr (match current s k with Some i => state i | None => §"declared" end));
             (§"foreground", VBool (bool_decide (k ∈ foreground_components s)));
             (§"launchable", VBool (_is_launchable c));
             (§"provides", VList (provide_summary <$> Manifest.provides c));
             (§"windowing", VDict (Manifest.windowing c)); (§"activation", VDict (Manifest.activation c));
             (§"isolation", match dget (instances s) k with
                            | Some n => default (VDict []) (applied_isolation v !! n)
                            | None => Isolation.describe_isolation (Manifest.isolation c)
                            end)]
            ++ match icons with [] => [] | _ => [(§"icons", VList icons)] end
            ++ match ns.2 with Some t => [(§"summary", VStr t)] | None => [] end
            ++ match _component_package_root c with Some r => [(§"package_root", VStr r)] | None => [] end))) v.

Definition _window_activation_payload (c : Manifest.Component) : pyval :=
  let window_identity :=
    match dget_or (Manifest.windowing c) §"identity" (VDict []) with
    | VDict identity =>
        py_str (py_or (py_or (dget_or identity §"x11_wm_class" VNone) (dget_or identity §"app_id" VNone)) (VStr []))
    | identity => py_str (py_or identity (VStr []))
    end in
  let title := py_str (py_or (dget_or (Manifest.windowing c) §"title" VNone)
    (py_or (dget_or (Manifest.raw c) §"name" VNone)
       (py_or (VStr (Manifest.package_name c)) (VStr (Manifest.key c))))) in
  VDict [(§"component", VStr (Manifest.key c)); (§"identity", VStr window_identity); (§"title", VStr title)].

(* ------------------------------------------------------------------ *)
(** ** Services *)

Definition instance_state (s : Supervisor) (k : pystr) : pystr :=
  match current s k with Some i => state i | None => §"declared" end.

Definition provider_document (s : Supervisor) (p : Services.ServiceProvider) : py pyval :=
  c ← ok_or (dget (components s) (Services.component p)) (Exn KeyError (Services.component p));
  Ok (VDict [(§"component", VStr (Services.component p));
             (§"target", VStr (§"component:" ++ Services.component p));
             (§"priority", VInt (Services.priority p)); (§"exclusive", VBool (Services.exclusive p));
             (§"runtime", VStr (Manifest.runtime c)); (§"lifecycle", VStr (Manifest.lifecycle c));
             (§"state", VStr (instance_state s (Services.component p)))]).

Definition group_provider (s : Supervisor) (name : option pystr) (grouped : dict (pystr * pystr) (list pyval))
    (p : Services.ServiceProvider) : py (dict (pystr * pystr) (list pyval)) :=
  if match name with Some n => negb (bool_decide (Services.name p = n)) | None => false end then Ok grouped
  else d ← provider_document s p;
       let k := (Services.kind p, Services.name p) in
       Ok (dset grouped k (dget_or grouped k [] ++ [d])).

Definition service_document (g : pystr * pystr * list pyval) : pyval :=
  let '(service_kind, service_name, providers) := g in
  VDict [(§"kind", VStr service_kind); (§"name", VStr service_name);
         (§"target", if bool_decide (service_kind = §"interface") then VStr (§"interface:" ++ service_name) else VNone);
         (§"providers", VList providers)].

Definition _service_summaries (s : Supervisor) (kind name : option pystr) : py (list pyval) :=
  entries ← Services.entries (service_catalog s) kind;
  grouped ← foldR (group_provider s name) [] entries;
  Ok (service_document <$> grouped).

(* ------------------------------------------------------------------ *)
(** ** Intents *)

(** A request as the search reads it. *)
Record Intent := { action : pystr; scheme : pystr; mime : pystr; requested_name : pystr }.

Definition intent_of (request : dict pystr pyval) : py Intent :=
  let field k := py_str (dget_or request k (VStr [])) in
  scheme ← (if str_true (field §"uri") then scheme ← urlsplit_scheme (field §"uri"); Ok (str_lower scheme) else Ok []);
  Ok {| action := str_strip (field §"action"); scheme := scheme; mime := str_lower (field §"mime");
        requested_name := field §"name" |}.

Definition lowered (v : pyval) : py (list pystr) := vs ← py_strs v; Ok (str_lower <$> vs).

(** The priority of a declared intent that answers the request. *)
Definition intent_priority (r : Intent) (declared : pyval) : py (option Z) :=
  match declared with
  | VDict intent =>
      if negb (bool_decide (py_str (dget_or intent §"action" (VStr [])) = action r)) then Ok None
      else
        ok ← (if bool_decide (action r = §"open-uri")
              then schemes ← lowered (dget_or intent §"schemes" (VList [])); Ok (bool_decide (scheme r ∈ schemes))
              else if bool_decide (action r = §"open-mime")
              then patterns ← lowered (dget_or intent §"mime" (VList []));
                   Ok (str_true (mime r) && existsb (fnmatchcase (mime r)) patterns)
              else if bool_decide (action r = §"settings-panel")
              then Ok (bool_decide (py_str (dget_or intent §"name" (VStr [])) = requested_name r))
              else Ok true);
        if (ok : bool) then p ← py_int (dget_or intent §"priority" (VInt 0)); Ok (Some p) else Ok None
  | _ => Ok None
  end.

Record IntentMatch := { handler : pystr; handler_name : pyval; priority : Z; handler_runtime : pystr }.

Definition match_intent (r : Intent) (k : pystr) (c : Manifest.Component) (matches : dict pystr IntentMatch)
    (declared : pyval) : py (dict pystr IntentMatch) :=
  p ← intent_priority r declared;
  match p with
  | None => Ok matches
  | Some p =>
      if match dget matches k with Some previous => (priority previous <? p)%Z | None => true end
      then Ok (dset matches k {| handler := k;
                  handler_name := py_or (dget_or (Manifest.raw c) §"name" VNone)
                                        (py_or (VStr (Manifest.package_name c)) (VStr k));
                  priority := p; handler_runtime := Manifest.runtime c |})
      else Ok matches
  end.

Definition declared_intents (c : Manifest.Component) : py (list pyval) :=
  py_iter (py_or (dget_or (Manifest.activation c) §"intents" (VList [])) (VList [])).

Definition match_component (r : Intent) (matches : dict pystr IntentMatch) (kc : pystr * Manifest.Component)
    : py (dict pystr IntentMatch) :=
  intents ← declared_intents kc.2; foldR (match_intent r kc.1 kc.2) matches intents.

(** [key=lambda item: (-int(item["priority"]), str(item["component"]))] *)
Definition match_leb (a b : IntentMatch) : bool :=
  (priority b <? priority a)%Z || ((priority a =? priority b)%Z && str_leb (handler a) (handler b)).

Definition _intent_candidates (s : Supervisor) (request : dict pystr pyval) : py (list IntentMatch) :=
  if negb (str_true (str_strip (py_str (dget_or request §"action" (VStr []))))) then Ok []
  else
    r ← intent_of request;
    matches ← foldR (match_component r) [] (components s);
    Ok (py_sorted match_leb (dvalues matches)).

(* ------------------------------------------------------------------ *)
(** ** The process list *)

(** The live generations, by component. *)
Definition live_processes (s : Supervisor) : list (pystr * Instance * Z) :=
  omap (fun kn =>
    match heap s !! kn.2 with
    | Some i => match process i with
                | Some p => if bool_decide (returncode p = None) && (0 <? Msysd.pid p)%Z
                            then Some (kn.1, i, Msysd.pid p) else None
                | None => None
                end
    | None => None
    end) (py_sorted (fun a b => str_leb a.1 b.1) (instances s)).

(** What is known of a process whose [/proc] files cannot be read. *)
Definition unknown_process (p : Z) (name : pystr) : Processes.ProcRecord :=
  {| Processes.pid := p; Processes.ppid := None; Processes.process_group := 0; Processes.session := 0;
     Processes.uid := None; Processes.name := name; Processes.pstate := §"unknown"; Processes.rss_kib := None |}.

Definition renamed (name : pystr) (r : Processes.ProcRecord) : Processes.ProcRecord :=
  {| Processes.pid := Processes.pid r; Processes.ppid := Processes.ppid r;
     Processes.process_group := Processes.process_group r; Processes.session := Processes.session r;
     Processes.uid := Processes.uid r; Processes.name := name; Processes.pstate := Processes.pstate r;
     Processes.rss_kib := Processes.rss_kib r |}.

Definition core_owner : Processes.Owner :=
  {| Processes.source := §"msys-core"; Processes.msys_owned := true;
     Processes.owner_component := Some §"msys.core"; Processes.component_state := Some §"ready";
     Processes.owner_runtime := Some §"python"; Processes.owner_lifecycle := Some §"supervisor";
     Processes.owner_generation := None |}.

Definition instance_owner (k : pystr) (i : Instance) : Processes.Owner :=
  {| Processes.source := §"msys-supervisor"; Processes.msys_owned := true;
     Processes.owner_component := Some k; Processes.component_state := Some (state i);
     Processes.owner_runtime := Some (Manifest.runtime (component i));
     Processes.owner_lifecycle := Some (Manifest.lifecycle (component i));
     Processes.owner_generation := Some (generation i) |}.

Definition core_process (supervisor_pid : Z) : py pyval :=
  record ← Processes._proc_process_record supervisor_pid;
  Ok (Processes._public_process_record
        (renamed §"MSYS Core" (default (unknown_process supervisor_pid §"msysd") record)) core_owner).

Definition managed_process (k : pystr) (i : Instance) (p : Z) : viewing pyval :=
  vbind (vlift (Processes._proc_process_record p)) (fun record =>
  let record := default (unknown_process p (Processes._bounded_process_name k (dec_Z p))) record in
  vbind (_localized_component_presentation k (component i)) (fun ns =>
  vret (Processes._public_process_record (renamed (Processes._bounded_process_name ns.1 k) record)
          (instance_owner k i)))).

(** In the scope [headless-msys] components with windows do not appear. *)
Definition in_scope (headless : bool) (i : Instance) : bool :=
  negb (headless && _component_has_gui_window (component i)).

Fixpoint list_managed (headless : bool) (live : list (pystr * Instance * Z)) (managed : list pyval) (eligible : nat)
    : viewing (list pyval * nat) :=
  match live with
  | [] => vret (managed, eligible)
  | (k, i, p) :: live =>
      if negb (in_scope headless i) then list_managed headless live managed eligible
      else if (MAX_MANAGED_PROCESS_RESULTS <=? length managed)%nat
           then list_managed headless live managed (S eligible)
           else vbind (managed_process k i p) (fun d => list_managed headless live (managed ++ [d]) (S eligible))
  end.

Definition count (l : list pyval) : pyval := VInt (Z.of_nat (length l)).

Definition _process_list_snapshot (s : Supervisor) (supervisor_pid : Z) (scope : pystr) (include_system : bool)
    (system_limit : Z) : viewing pyval :=
  let live := live_processes s in
  vbind (vlift (core_process supervisor_pid)) (fun core =>
  vbind (list_managed (bool_decide (scope = §"headless-msys")) live [core] 1) (fun '(managed, eligible) =>
  vbind (vlift (if include_system
                then Processes.system_process_snapshot (list_to_set (snd <$> live)) system_limit supervisor_pid
                else Ok ([], false))) (fun '(system, system_truncated) =>
  vret (VDict [(§"schema", VStr PROCESS_LIST_SCHEMA); (§"scope", VStr scope); (§"filter", VStr scope);
               (§"include_system", VBool include_system); (§"system_limit", VInt system_limit);
               (§"managed_count", count managed); (§"system_count", count system);
               (§"managed_truncated", VBool (length managed <? eligible)%nat);
               (§"system_truncated", VBool system_truncated); (§"processes", VList (managed ++ system))])))).

(* ------------------------------------------------------------------ *)
(** ** The handlers of an intent *)

Definition match_of (k : pystr) (c : Manifest.Component) (p : Z) : IntentMatch :=
  {| handler := k;
     handler_name := py_or (dget_or (Manifest.raw c) §"name" VNone)
                           (py_or (VStr (Manifest.package_name c)) (VStr k));
     priority := p; handler_runtime := Manifest.runtime c |}.

(** The reference: a component answers with the greatest priority of its
    intents that match. *)
Definition component_match (r : Intent) (kc : pystr * Manifest.Component) : py (option IntentMatch) :=
  intents ← declared_intents kc.2;
  ps ← mapR (intent_priority r) intents;
  Ok (match omap id ps with [] => None | p :: ps => Some (match_of kc.1 kc.2 (foldl Z.max p ps)) end).

Lemma match_intents_more r k c (matches : dict pystr IntentMatch) intents p : k ∉ dkeys matches ->
  foldR (match_intent r k c) (matches ++ [(k, match_of k c p)]) intents =
  (ps ← mapR (intent_priority r) intents; Ok (matches ++ [(k, match_of k c (foldl Z.max p (omap id ps)))])).
Proof.
  intros Hk. revert p; induction intents as [|d intents IH]; intros p; [done|]. cbn [foldR mapR].
  unfold match_intent at 1. destruct (intent_priority r d) as [[q|]|e]; cbn [rbind]; [|rewrite IH; by destruct (mapR _ intents)|done].
  rewrite dget_snoc by done. cbn [priority match_of]. destruct (Z.ltb_spec p q) as [Hlt|Hge]; cbn [rbind];
    [change (dset _ k _) with (dset (matches ++ [(k, match_of k c p)]) k (match_of k c q)); rewrite dset_snoc by done|];
    rewrite IH; destruct (mapR _ intents) as [ps|e]; cbn; try done; do 4 f_equal; f_equal; f_equal; lia.
Qed.

Lemma match_intents_fresh r k c (matches : dict pystr IntentMatch) intents : k ∉ dkeys matches ->
  foldR (match_intent r k c) matches intents =
  (ps ← mapR (intent_priority r) intents;
   Ok (matches ++ match omap id ps with [] => [] | p :: ps => [(k, match_of k c (foldl Z.max p ps))] end)).
Proof.
  intros Hk. induction intents as [|d intents IH]; [cbn; by rewrite app_nil_r|]. cbn [foldR mapR].
  unfold match_intent at 1. destruct (intent_priority r d) as [[q|]|e]; cbn [rbind]; [|rewrite IH; by destruct (mapR _ intents)|done].
  rewrite (proj2 (dget_None _ _) Hk). cbn [rbind]. change (dset _ k _) with (dset matches k (match_of k c q)).
  rewrite dset_fresh, match_intents_more by done. by destruct (mapR _ intents).
Qed.

Lemma match_components_spec r cs (matches : dict pystr IntentMatch) : NoDup (dkeys cs) ->
  (forall k, k ∈ dkeys cs -> k ∉ dkeys matches) ->
  foldR (match_component r) matches cs =
  (ms ← mapR (component_match r) cs; Ok (matches ++ ((fun m => (handler m, m)) <$> omap id ms))).
Proof.
  revert matches; induction cs as [|[k c] cs IH]; intros matches Hnd Hfresh; [cbn; by rewrite app_nil_r|].
  apply NoDup_cons in Hnd as [Hk Hnd]. cbn [foldR mapR]. unfold match_component at 1, component_match at 1. cbn [fst snd].
  destruct (declared_intents c) as [intents|e]; [|done]. cbn [rbind].
  rewrite match_intents_fresh by (apply Hfresh; unfold dkeys; cbn; by left).
  destruct (mapR (intent_priority r) intents) as [ps|e]; [|done]. cbn [rbind].
  destruct (omap id ps) as [|p ps']; rewrite IH; try done;
    try (destruct (mapR _ cs) as [ms|e]; cbn; [rewrite <- ?app_assoc, ?app_nil_r; done|done]).
  - rewrite app_nil_r. intros k' Hk'. apply Hfresh. unfold dkeys in *. cbn. by right.
  - intros k' Hk'. unfold dkeys. rewrite fmap_app, not_elem_of_app. split.
    + apply Hfresh. unfold dkeys in *. cbn. by right.
    + cbn. intros ->%list_elem_of_singleton. done.
Qed.

(** C29: the search of handlers folds over all declared intents of all components,
    overwriting what it found when a later one has a greater priority; its
    result is the list of the components with a matching intent, each once with
    its greatest matching priority, by decreasing priority and then component
    id.  A malformed declaration anywhere raises the error of the first one. *)
Theorem intent_candidates_exact s request r :
  dict_wf (components s) -> intent_of request = Ok r -> action r ≠ [] ->
  _intent_candidates s request =
  (ms ← mapR (component_match r) (components s); Ok (py_sorted match_leb (omap id ms))).
Proof.
  intros Hwf Hr Ha. unfold _intent_candidates.
  assert (str_strip (py_str (dget_or request §"action" (VStr []))) = action r) as ->.
  { unfold intent_of in Hr. destruct (if str_true _ then _ else _); [|done]. by injection Hr as <-. }
  destruct (action r) as [|ch rest] eqn:He; [done|]. cbn [str_true negb]. rewrite Hr. cbn [rbind].
  rewrite match_components_spec by (done || set_solver). destruct (mapR _ _) as [ms|e]; [|done]. cbn [rbind app].
  unfold dvalues. rewrite <- list_fmap_compose. rewrite (list_fmap_ext _ id) by done. by rewrite list_fmap_id.
Qed.

(* ------------------------------------------------------------------ *)
(** ** The process list *)

Definition shown (headless : bool) (live : list (pystr * Instance * Z)) : list (pystr * Instance * Z) :=
  filter (fun x => in_scope headless x.1.2 = true) live.

Lemma list_managed_spec headless live managed eligible v :
  list_managed headless live managed eligible v =
  vbind (vmap (fun x => managed_process x.1.1 x.1.2 x.2)
           (take (MAX_MANAGED_PROCESS_RESULTS - length managed) (shown headless live)))
    (fun ds => vret (managed ++ ds, (eligible + length (shown headless live))%nat)) v.
Proof.
  revert managed eligible v; induction live as [|[[k i] p] live IH]; intros managed eligible v.
  { cbn. rewrite take_nil. cbn. unfold vbind, vret. by rewrite app_nil_r, Nat.add_0_r. }
  unfold shown in *. rewrite filter_cons. cbn [list_managed fst snd]. destruct (in_scope headless i); cbn [negb];
    [rewrite decide_True by done|rewrite decide_False by done; apply IH].
  destruct (Nat.leb_spec MAX_MANAGED_PROCESS_RESULTS (length managed)) as [Hge|Hlt].
  - rewrite IH. replace (_ - _)%nat with 0%nat by lia. cbn. unfold vbind, vret. by rewrite Nat.add_succ_r.
  - replace (MAX_MANAGED_PROCESS_RESULTS - length managed)%nat
      with (S (MAX_MANAGED_PROCESS_RESULTS - S (length managed))) by lia.
    cbn [take vmap fst snd]. unfold vbind at 1 2 3. destruct (managed_process k i p v) as [v' [d|e]]; [|done].
    rewrite IH, length_app. cbn [length]. rewrite Nat.add_1_r. unfold vbind.
    destruct (vmap _ _ v') as [v'' [ds|e]]; [|done]. unfold vret. rewrite <- app_assoc. cbn. do 3 f_equal. lia.
Qed.

Lemma vmap_length {A B} (f : A -> viewing B) l v v' ys : vmap f l v = (v', Ok ys) -> length ys = length l.
Proof.
  revert v ys; induction l as [|x l IH]; intros v ys; cbn; [by intros [= _ <-]|].
  unfold vbind, vret. destruct (f x v) as [v1 [y|e]]; [|done]. destruct (vmap f l v1) as [v2 [ys'|e]] eqn:Hl; [|done].
  intros [= -> <-]. cbn. by rewrite (IH _ _ Hl).
Qed.

(** The processes that are not components: those of the listing, without the
    leaders, groups and sessions of components. *)
Lemma system_excludes managed limit supervisor docs truncated :
  Processes.system_process_snapshot managed limit supervisor = Ok (docs, truncated) ->
  (length docs <= Z.to_nat limit)%nat /\
  forall d, d ∈ docs -> exists r, d = Processes._public_process_record r Processes.procfs_owner /\
    Processes.eligible managed supervisor r = true.
Proof.
  unfold Processes.system_process_snapshot. destruct (negb _) eqn:Hlim; [done|].
  destruct Processes.proc_entries as [entries|e]; [|destruct (is_os_error _); intros [= <- <-]; split; [cbn; lia|by intros d ?%not_elem_of_nil]].
  rewrite Processes.scan_listed. unfold Processes.listed.
  apply negb_false_iff, andb_true_iff in Hlim as [Hlim _]. apply Z.leb_le in Hlim.
  destruct (mapR _ entries) as [rs|e] eqn:Hrs; [|done]. cbn [rbind]. intros [= <- <-].
  rewrite length_fmap, py_sorted_length, Processes.keep_greatest by lia. split.
  { rewrite length_drop, py_sorted_length, length_rev. lia. }
  intros d (r & -> & Hr)%list_elem_of_fmap. exists r. split; [done|].
  rewrite py_sorted_elem in Hr. set (k := (_ - _)%nat) in Hr.
  assert (r ∈ py_sorted Processes.less_important (rev (omap id rs))) as Hin
    by (rewrite <- (take_drop k (py_sorted _ _)), elem_of_app; by right).
  rewrite py_sorted_elem, <- Permutation_rev in Hin. apply list_elem_of_omap in Hin as ([r'|] & Hr' & [= ->]).
  apply mapR_Ok in Hrs. apply list_elem_of_lookup in Hr' as [i Hi].
  destruct (Forall2_lookup_r _ _ _ _ _ Hrs Hi) as (n & _ & Hn). unfold Processes.listed_entry in Hn.
  destruct (Processes.process_entry n) as [[p|]|e]; cbn [rbind] in Hn; try done.
  destruct (Processes._proc_process_record p) as [[r0|]|e]; cbn in Hn; try done.
  destruct (Processes.eligible _ _ r0) eqn:He; [|done]. by injection Hn as ->.
Qed.

(** The answer of the call, from its three parts. *)
Definition process_document (scope : pystr) (include_system : bool) (limit : Z) (managed system : list pyval)
    (managed_truncated system_truncated : bool) : pyval :=
  VDict [(§"schema", VStr PROCESS_LIST_SCHEMA); (§"scope", VStr scope); (§"filter", VStr scope);
         (§"include_system", VBool include_system); (§"system_limit", VInt limit);
         (§"managed_count", count managed); (§"system_count", count system);
         (§"managed_truncated", VBool managed_truncated); (§"system_truncated", VBool system_truncated);
         (§"processes", VList (managed ++ system))].

(** The process list has Core first, then the first 127 generations in scope
    in the order of their component ids, and says whether some were left out;
    then at most the requested number of other processes, none when they are
    not asked for, and no process is listed there that belongs, by pid, process
    group or session, to the supervisor or to any live generation, whether that
    generation is in scope or not. *)
Theorem process_list_parts s supervisor scope include_system limit v v' doc :
  _process_list_snapshot s supervisor scope include_system limit v = (v', Ok doc) ->
  let generations := shown (bool_decide (scope = §"headless-msys")) (live_processes s) in
  exists core own others truncated,
    doc = process_document scope include_system limit (core :: own) others (127 <? length generations)%nat truncated /\
    core_process supervisor = Ok core /\
    vmap (fun x => managed_process x.1.1 x.1.2 x.2) (take 127 generations) v = (v', Ok own) /\
    (if include_system then (length others <= Z.to_nat limit)%nat else others = [] /\ truncated = false) /\
    forall d, d ∈ others -> exists r, d = Processes._public_process_record r Processes.procfs_owner /\
      Processes.pid r ≠ supervisor /\
      forall p, p ∈ snd <$> live_processes s ->
        Processes.pid r ≠ p /\ Processes.process_group r ≠ p /\ Processes.session r ≠ p.
Proof.
  unfold _process_list_snapshot. cbv zeta. set (generations := shown _ _). set (live := live_processes s) in *.
  unfold vbind at 1, vlift at 1. destruct (core_process supervisor) as [core|e] eqn:Hcore; [|done].
  unfold vbind at 1. rewrite list_managed_spec. fold generations. cbn [length].
  change (MAX_MANAGED_PROCESS_RESULTS - 1)%nat with 127%nat. unfold vbind at 1.
  destruct (vmap _ _ v) as [v1 [own|e]] eqn:Hown; [|done]. unfold vret at 1. unfold vbind at 1, vlift at 1.
  assert ((length ([core] ++ own) <? 1 + length generations)%nat = (127 <? length generations)%nat) as ->.
  { apply vmap_length in Hown. rewrite length_take in Hown. cbn [app length]. rewrite Hown.
    apply eq_true_iff_eq. rewrite !Nat.ltb_lt. lia. }
  destruct include_system.
  - destruct (Processes.system_process_snapshot _ _ _) as [[others truncated]|e] eqn:Hsys; [|done].
    intros [= <- <-]. apply system_excludes in Hsys as [Hlen Hex]. exists core, own, others, truncated.
    split_and!; try done. intros d Hd. destruct (Hex d Hd) as (r & -> & He). exists r. split; [done|].
    unfold Processes.eligible in He. rewrite andb_true_iff, negb_true_iff, !orb_false_iff, !bool_decide_eq_false in He.
    destruct He as [[[[Hs Hp] Hg] Hse] _]. split; [done|]. intros p Hpl.
    rewrite !elem_of_list_to_set in Hp, Hg, Hse. split_and!; congruence.
  - intros [= <- <-]. exists core, own, [], false. split_and!; try done. by intros d ?%not_elem_of_nil.
Qed.

(* ------------------------------------------------------------------ *)
(** ** The locale kept for the session *)

Definition locale_kept (se : Launch.Session) : option pystr :=
  match session_presentation_locale se with Some l => if str_true l then Some l else None | None => None end.

(** The kept locale is the one of the session. *)
Definition locale_coherent (v : View) : Prop :=
  match _presentation_locale_value v with Some l => l = locale_kept (session v) | None => True end.

Lemma presentation_locale_coherent v v' l : locale_coherent v -> _presentation_locale v = (v', l) ->
  locale_coherent v' /\ session v' = session v /\
  (l = Ok (locale_kept (session v)) \/ l = Ok (session_presentation_locale (session v))).
Proof.
  unfold locale_coherent, _presentation_locale. intros Hc. destruct (_presentation_locale_value v) as [c|] eqn:He.
  - intros [= <- <-]. rewrite He. subst c. auto.
  - intros [= <- <-]. cbn. split; [|auto]. reflexivity.
Qed.

(** What the listings do to the view: they fill its caches. *)
Definition steady {A} (x : viewing A) : Prop := forall v,
  session (x v).1 = session v /\ (locale_coherent v -> locale_coherent (x v).1).

Lemma steady_ret {A} (a : A) : steady (vret a).
Proof. done. Qed.
Lemma steady_lift {A} (r : py A) : steady (vlift r).
Proof. done. Qed.
Lemma steady_bind {A B} (x : viewing A) (f : A -> viewing B) : steady x -> (forall a, steady (f a)) -> steady (vbind x f).
Proof.
  intros Hx Hf v. unfold vbind. destruct (Hx v) as [Hs Hc]. destruct (x v) as [v1 [a|e]]; cbn [fst] in *; [|done].
  destruct (Hf a v1) as [Hs' Hc']. split; [congruence|auto].
Qed.
Lemma steady_map {A B} (f : A -> viewing B) l : (forall a, steady (f a)) -> steady (vmap f l).
Proof.
  intros Hf. induction l as [|x l IH]; [apply steady_ret|]. cbn [vmap].
  apply steady_bind; [apply Hf|]. intros y. apply steady_bind; [exact IH|]. intros ys. apply steady_ret.
Qed.

Lemma steady_presentation k c : steady (_localized_component_presentation k c).
Proof.
  intros v. unfold _localized_component_presentation. destruct (fallback_presentation k c) as [name summary].
  destruct (i18n_declaration c) as [| | | | | |declaration|]; try done. destruct (Manifest.manifest_path c) as [path|]; [|done].
  destruct (I18n.get _ path _) as [catalogs r].
  assert (session (set_catalogs catalogs v) = session v) as Hs by done.
  assert (locale_coherent v -> locale_coherent (set_catalogs catalogs v)) as Hc by done.
  destruct r as [[catalog|]|e]; [|by split..]. destruct (_presentation_locale (set_catalogs catalogs v)) as [v' l] eqn:Hl. cbn [fst]. split.
  - unfold _presentation_locale in Hl. destruct (_presentation_locale_value _); injection Hl as <- _; done.
  - intros Hv. by destruct (presentation_locale_coherent _ _ _ (Hc Hv) Hl).
Qed.

Lemma steady_summary s k c : steady (_component_summary s k c).
Proof. intros v. refine (steady_bind _ _ (steady_presentation k c) _ v). intros ns. apply steady_ret. Qed.

Lemma steady_managed headless live managed eligible : steady (list_managed headless live managed eligible).
Proof.
  revert managed eligible; induction live as [|[[k i] p] live IH]; intros managed eligible; cbn [list_managed]; [apply steady_ret|].
  destruct (negb _); [apply IH|]. destruct (_ <=? _)%nat; [apply IH|]. apply steady_bind; [|intros; apply IH].
  apply steady_bind; [apply steady_lift|]. intros record. apply steady_bind; [apply steady_presentation|]. intros ns. apply steady_ret.
Qed.

Lemma steady_processes s supervisor scope include_system limit :
  steady (_process_list_snapshot s supervisor scope include_system limit).
Proof.
  unfold _process_list_snapshot. cbv zeta. apply steady_bind; [apply steady_lift|]. intros core. apply steady_bind; [apply steady_managed|].
  intros [managed eligible]. apply steady_bind; [apply steady_lift|]. intros [system truncated]. apply steady_ret.
Qed.
End Introspect.

(* ------------------------------------------------------------------ *)
(** ** Witnesses *)

#[local] Instance sample_urls : UrlLib := {| url_error _ := None |}.

Definition sample_intent (schemes : list pystr) (p : Z) : pyval :=
  VDict [(§"action", VStr §"open-uri"); (§"schemes", VList (VStr <$> schemes)); (§"priority", VInt p)].

Definition sample_handler (cid : pystr) (intents : list pyval) : Manifest.Component :=
  let c := sample_app cid in
  {| Manifest.package_id := §"p"; Manifest.package_version := §"1"; Manifest.id := cid;
     Manifest.exec := Manifest.exec c; Manifest.lifecycle := §"manual";
     Manifest.package_kind := §"application"; Manifest.package_name := §"p";
     Manifest.package_icons := []; Manifest.runtime := §"custom"; Manifest.restart := §"never";
     Manifest.idle_timeout_ms := None; Manifest.cwd := None; Manifest.env := [];
     Manifest.readiness_mode := §"exec"; Manifest.readiness_timeout_ms := 5000;
     Manifest.provides := []; Manifest.requires := []; Manifest.wants := []; Manifest.after := [];
     Manifest.windowing := [(§"mode", VStr §"window")]; Manifest.activation := [(§"intents", VList intents)];
     Manifest.permissions := []; Manifest.isolation := Isolation.spec_default; Manifest.raw := [];
     Manifest.manifest_path := None; Manifest.package_summary := []; Manifest.package_i18n := VNone |}.

Definition with_components (cs : dict pystr Manifest.Component) (s : Supervisor) : Supervisor :=
  {| heap := heap s; instances := instances s; components := cs; component_objects := component_objects s;
     role_registry := role_registry s; service_catalog := service_catalog s; catalog_epoch := catalog_epoch s;
     next_request_id := next_request_id s; stopping := stopping s; stop_requests := stop_requests s;
     foreground_stack := foreground_stack s; backgrounded_components := backgrounded_components s;
     failure_history := failure_history s; quarantined := quarantined s; quarantine_times := quarantine_times s;
     recovery_allowed := recovery_allowed s; idle_tasks := idle_tasks s; futures := futures s |}.

(** The viewer answers twice, with priorities 1 and 4; the browser with 9; the
    mail client has another scheme. *)
Definition sample_handlers : Supervisor :=
  with_components [(§"p:mail", sample_handler §"mail" [sample_intent [§"mailto"] 20]);
                  (§"p:viewer", sample_handler §"viewer" [sample_intent [§"http"] 1; VStr §"?"; sample_intent [§"HTTP"; §"ftp"] 4]);
                  (§"p:browser", sample_handler §"browser" [sample_intent [§"https"; §"http"] 9])] sample_supervisor.

Definition sample_request : dict pystr pyval := Dispatch.normalize_intent_request (VDict [(§"uri", VStr §" Http://host/page")]).

Lemma intent_candidates_exact_witness :
  (cs ← _intent_candidates sample_handlers sample_request; Ok ((fun m => (handler m, priority m)) <$> cs))
  = Ok [(§"p:browser", 9%Z); (§"p:viewer", 4%Z)].
Proof.
  rewrite (intent_candidates_exact sample_handlers sample_request
    {| action := §"open-uri"; scheme := §"http"; mime := []; requested_name := [] |}).
  - vm_compute. reflexivity.
  - apply (bool_decide_unpack _). vm_compute. exact I.
  - vm_compute. reflexivity.
  - discriminate.
Defined.

#[local] Existing Instance sample_host.
#[local] Existing Instance I18n.sample_files.
#[local] Existing Instance Processes.sample_proc.

Definition sample_view : View :=
  {| session := sample_session; _presentation_locale_value := None; _presentation_catalogs := None;
     applied_isolation := ∅ |}.

(** The app whose pid is that of the editor hides it from the other processes. *)
Definition sample_apps : Supervisor :=
  set_heap {[ 1%nat := Foreground.sample_instance (sample_app §"mail") 7;
              2%nat := Foreground.sample_instance (sample_app §"maps") 12 ]} sample_supervisor.

Definition pids_of (doc : pyval) : list (option Z) :=
  match doc with
  | VDict d => match dget d §"processes" with Some (VList l) => Processes.pid_of <$> l | _ => [] end
  | _ => []
  end.

Lemma process_list_parts_witness : exists v' doc,
  _process_list_snapshot sample_apps 4 §"all" true 8 sample_view = (v', Ok doc) /\
  pids_of doc = Some <$> [4; 7; 12; 1]%Z /\
  exists core own others truncated,
    doc = process_document §"all" true 8 (core :: own) others false truncated /\ (length others <= 8)%nat.
Proof.
  destruct (_process_list_snapshot sample_apps 4 §"all" true 8 sample_view) as [v' [doc|e]] eqn:Hp;
    [|apply (f_equal snd) in Hp; vm_compute in Hp; discriminate Hp].
  exists v', doc. split; [reflexivity|]. split.
  { apply (f_equal (fun x => match snd x with Ok d => pids_of d | Raise _ => [] end)) in Hp.
    cbn beta iota in Hp. vm_compute in Hp. symmetry. exact Hp. }
  destruct (process_list_parts sample_apps 4 §"all" true 8 sample_view v' doc Hp)
    as (core & own & others & truncated & Hdoc & _ & _ & Hlen & _).
  exists core, own, others, truncated. split; [|exact Hlen]. rewrite Hdoc. reflexivity.
Defined.
End Introspect.
