(* ===== verification/Preferences.v ===== *)
(** * Session preferences ([msys_core/msysd.py])

    The language of the session: its validation, the file it is kept in, the
    call that changes it and the locale that follows from it.  The directory of
    preferences is a small file system whose steps may fail. *)

From Stdlib Require Import ZArith.
From S2P Require Export Introspect Json.

Module Preferences.
Import Launch Introspect.

Definition SESSION_PREFERENCES_SCHEMA : pystr := §"msys.session-preferences.v1".
Definition SESSION_PREFERENCES_TOPIC : pystr := §"msys.session.preferences.changed".

(** [session.json] and the temporary file beside it, as bytes. *)
Record Disk := { session_file : option (list N); temporary : option (list N) }.

(** The system calls of the writer. *)
Inductive step := MakeDirectory | OpenTemporary | WriteTemporary | SyncTemporary | ReplaceFile | UnlinkTemporary.

(** Which of them fail, and what a write that fails leaves behind.  Removing a
    temporary file that is not there is no failure. *)
Class Faults := {
  fault : step -> option exn;
  torn : list N -> list N;
}.

(** They fail with [OSError]. *)
Class FaultsLaw `{Faults} : Prop := { fault_os s e : fault s = Some e -> is_os_error (exn_type e) = true }.

Section Preferences.
Context `{PyLib} `{PyRepr} `{Host} `{Json.JsonLib} `{Faults}.

Definition preference_document (language : pystr) : pyval :=
  VDict [(§"schema", VStr SESSION_PREFERENCES_SCHEMA); (§"language", VStr language)].

(** The bytes of the file. *)
Definition preference_bytes (language : pystr) : py (list N) :=
  t ← Json.dumps (preference_document language);
  ok_or (utf8_encode (t ++ [10%N])) (Exn UnicodeEncodeError §"surrogates not allowed").

Definition set_temporary (t : option (list N)) (d : Disk) : Disk :=
  {| session_file := session_file d; temporary := t |}.

(** A system call, then the rest. *)
Definition guarded (s : step) (d : Disk) (rest : Disk * py unit) : Disk * py unit :=
  match fault s with Some e => (d, Raise e) | None => rest end.

Definition write_and_replace (language : pystr) (d : Disk) : Disk * py unit :=
  guarded OpenTemporary d (
  let d := set_temporary (Some []) d in
  match preference_bytes language with
  | Raise e => (d, Raise e)
  | Ok bytes =>
      match fault WriteTemporary with
      | Some e => (set_temporary (Some (torn bytes)) d, Raise e)
      | None =>
          let d := set_temporary (Some bytes) d in
          guarded SyncTemporary d (
          guarded ReplaceFile d ({| session_file := temporary d; temporary := None |}, Ok tt))
      end
  end).

(** The [finally] clause: the temporary file is removed, if it is there, after
    a success as well; the error of removing it replaces the outcome. *)
Definition remove_temporary (r : Disk * py unit) : Disk * py unit :=
  match fault UnlinkTemporary with
  | Some e => (r.1, Raise e)
  | None => (set_temporary None r.1, r.2)
  end.

Definition _persist_session_preferences (language : pystr) (d : Disk) : Disk * py unit :=
  guarded MakeDirectory d (remove_temporary (write_and_replace language d)).

(** [except (FileNotFoundError, OSError, UnicodeError, json.JSONDecodeError)] *)
Definition load_error (c : exn_class) : bool :=
  is_os_error c || bool_decide (c ∈ [UnicodeDecodeError; UnicodeEncodeError; JSONDecodeError]).

Definition read_session_file (d : Disk) : py pyval :=
  bytes ← ok_or (session_file d) (Exn OSError §"No such file or directory");
  t ← ok_or (utf8_decode bytes) (Exn UnicodeDecodeError []);
  Json.loads t.

(** The language after the preferences were loaded, from the one before. *)
Definition _load_session_preferences (d : Disk) (language : pystr) : py pystr :=
  match read_session_file d with
  | Raise e => if load_error (exn_type e) then Ok language else Raise e
  | Ok (VDict data) =>
      if negb (eq_str (dget_or data §"schema" VNone) SESSION_PREFERENCES_SCHEMA) then Ok language
      else match _validate_session_language (py_str (dget_or data §"language" (VStr §"system"))) with
           | Ok l => Ok l
           | Raise e => if is_value_error (exn_type e) then Ok language else Raise e
           end
  | Ok _ => Ok language
  end.

(** [resolved or ""] *)
Definition _session_preferences_payload (se : Session) : dict pystr pyval :=
  [(§"schema", VStr SESSION_PREFERENCES_SCHEMA); (§"language", VStr (session_language se));
   (§"resolved_language", VStr (default [] (session_presentation_locale se)))].

(* ------------------------------------------------------------------ *)
(** ** Changing the language *)

Record Prefs := { view : View; disk : Disk }.

Definition set_language (l : pystr) (v : View) : View :=
  {| session := {| profile := profile (session v); session_language := l; state_dir := state_dir (session v);
                   runtime_dir := runtime_dir (session v); builtin_objects := builtin_objects (session v) |};
     _presentation_locale_value := _presentation_locale_value v;
     _presentation_catalogs := _presentation_catalogs v; applied_isolation := applied_isolation v |}.

(** [self.__dict__.pop("_presentation_locale_value", None)] *)
Definition forget_locale (v : View) : View := set_locale_value None v.

(** What the call answers: the code and message of an error, or the payload and
    whether the change is announced. *)
Inductive answer :=
| Refused (code message : pystr)
| Changed (result : dict pystr pyval) (announced : bool).

Definition unknown_preferences (payload : dict pystr pyval) : list pystr :=
  sorted_strs (List.filter (fun k => negb (bool_decide (k = §"language"))) (dkeys payload)).

(** Store an accepted language, and undo it when the file cannot be written. *)
Definition store_language (language : pystr) (p : Prefs) : Prefs * py answer :=
  let previous := session_language (session (view p)) in
  let v := set_language language (view p) in
  match _persist_session_preferences language (disk p) with
  | (d, Raise e) =>
      if is_os_error (exn_type e)
      then ({| view := set_language previous v; disk := d |},
            Ok (Refused §"SESSION_PREFERENCES_WRITE_FAILED" (take 512 (exn_msg e))))
      else ({| view := v; disk := d |}, Raise e)
  | (d, Ok _) =>
      let v := forget_locale v in
      let changed := negb (bool_decide (previous = language)) in
      ({| view := v; disk := d |},
       Ok (Changed (_session_preferences_payload (session v)
                    ++ [(§"ok", VBool true); (§"changed", VBool changed)]) changed))
  end.

Definition set_session_preferences (payload : pyval) (p : Prefs) : Prefs * py answer :=
  match payload with
  | VDict payload =>
      match unknown_preferences payload, dget payload §"language" with
      | [], None => (p, Ok (Refused §"BAD_SESSION_PREFERENCES" §"set_session_preferences requires only language"))
      | [], Some value =>
          match _validate_session_language (py_str value) with
          | Raise e => (p, if is_value_error (exn_type e) then Ok (Refused §"BAD_LANGUAGE" (exn_msg e)) else Raise e)
          | Ok language => store_language language p
          end
      | unknown, _ => (p, Ok (Refused §"BAD_SESSION_PREFERENCES" (§"unknown session preference: " ++ str_join §", " unknown)))
      end
  | _ => (p, Ok (Refused §"BAD_PAYLOAD" §"session preferences payload must be an object"))
  end.
End Preferences.

(* ------------------------------------------------------------------ *)
(** ** Languages *)

Section Languages.
Context `{PyLib} `{PyRepr}.

Lemma canonical_tag_chars s : fullmatch I18n._CANONICAL_LOCALE s = true -> Forall (fun c => I18n.tag_char c = true) s.
Proof.
  intros Hm. apply fullmatch_spec in Hm. apply (matches_forall _ I18n._CANONICAL_LOCALE); [|exact Hm].
  cbn. repeat split; intros c Hc; unfold I18n.tag_char; apply orb_true_iff.
  all: try (right; rewrite N.eqb_sym; exact Hc).
  all: left; revert Hc; unfold I18n.lower_alnum; char_cases.
Qed.

Lemma tag_scalar s : Forall (fun c => I18n.tag_char c = true) s -> forallb is_scalar s = true.
Proof.
  intros Hs. apply forallb_elem. intros c Hc. rewrite Forall_forall in Hs. specialize (Hs c Hc).
  assert (c < 128)%N; [|unfold is_scalar; apply orb_true_iff; left; apply N.ltb_lt; lia].
  pose proof (I18n.tag_ascii [c] ltac:(by repeat constructor)) as Ha. apply Forall_cons in Ha as [Ha _].
  unfold isascii_c in Ha. by apply N.ltb_lt.
Qed.

(** A language that was accepted is accepted again, unchanged. *)
Lemma validate_spec value l : _validate_session_language value = Ok l ->
  Forall (fun c => I18n.tag_char c = true) l /\ _validate_session_language l = Ok l.
Proof.
  intros Hv. assert (l = str_strip value) as ->.
  { unfold _validate_session_language in Hv. case_bool_decide; [by injection Hv|].
    destruct (_normalize_msys_locale _) as [n|]; [|done]. case_bool_decide; [|done]. by injection Hv as <-. }
  assert (Forall (fun c => I18n.tag_char c = true) (str_strip value)) as Ht.
  { unfold _validate_session_language in Hv. case_bool_decide as Hs; [rewrite Hs; by repeat constructor|].
    destruct (_normalize_msys_locale _) as [n|] eqn:Hn; [|done]. case_bool_decide as He; [|done]. rewrite <- He.
    apply canonical_tag_chars. unfold _normalize_msys_locale in Hn. destruct (_ || _); [done|].
    destruct (canonical_tag _) as [canonical|]; [|done]. cbn [mbind option_bind] in Hn.
    destruct (fullmatch _ _) eqn:Hm; [|done]. by injection Hn as <-. }
  split; [exact Ht|]. unfold _validate_session_language in *. rewrite (I18n.strip_tag _ Ht). exact Hv.
Qed.

Lemma validate_error value e : _validate_session_language value = Raise e -> is_value_error (exn_type e) = true.
Proof.
  unfold _validate_session_language. case_bool_decide; [done|].
  destruct (_normalize_msys_locale _); [case_bool_decide; [done|]|]; by intros [= <-].
Qed.
End Languages.

(* ------------------------------------------------------------------ *)
(** ** The file and the session agree *)

Lemma document_plain l : Json.Plain (preference_document l).
Proof.
  constructor; [apply (bool_decide_unpack _); vm_compute; exact I|]. repeat constructor.
Qed.

Lemma escape_scalar l : forallb is_scalar l = true -> forallb is_scalar (Json.quoted l) = true.
Proof.
  intros Hl. unfold Json.quoted. cbn [forallb]. apply andb_true_iff. split; [done|]. rewrite forallb_app, andb_true_iff. split; [|done].
  apply forallb_elem. intros x (c & Hx & Hc)%list_elem_of_bind. rewrite forallb_elem in Hl. specialize (Hl c Hc).
  unfold Json.escape_char in Hx. destruct (dget Json.short_escapes c) as [e|] eqn:He.
  - apply dget_elem in He. unfold Json.short_escapes in He.
    assert (e < 128)%N as Hlt by (repeat (apply elem_of_cons in He as [[= -> ->]|He]; [vm_compute; reflexivity|]); by apply not_elem_of_nil in He).
    apply elem_of_cons in Hx as [->|Hx]; [done|]. apply list_elem_of_singleton in Hx as ->.
    unfold is_scalar. apply orb_true_iff. left. apply N.ltb_lt. lia.
  - destruct (N.ltb_spec c 32) as [Hc32|]; [|by apply list_elem_of_singleton in Hx as ->].
    repeat (apply elem_of_cons in Hx as [->|Hx]; [try done|]); try (by apply not_elem_of_nil in Hx).
    all: apply orb_true_iff; left; apply N.ltb_lt; unfold hex_digit;
      assert (c / 16 < 16)%N by (apply N.Div0.div_lt_upper_bound; lia); assert (c mod 16 < 16)%N by (by apply N.mod_lt);
      repeat match goal with |- context [(?a <? ?b)%N] => destruct (N.ltb_spec a b) end; lia.
Qed.

Section Durable.
Context `{PyLib} `{PyRepr} `{Host} `{Json.JsonLib} `{Faults} {HF : FaultsLaw}.
Context (encode_some : (0 < Json.encode_depth)%nat) (depth_le : (Json.encode_depth <= Json.decode_depth)%nat).

Lemma document_text l : forallb is_scalar l = true -> exists t,
  Json.dumps (preference_document l) = Ok t /\ forallb is_scalar (t ++ [10%N]) = true.
Proof using encode_some depth_le.
  intros Hl. unfold Json.dumps. destruct Json.encode_depth as [|d]; [lia|]. cbn [Json.text preference_document mapR snd fst].
  rewrite !Json.text_str. eexists; split; [reflexivity|]. cbn [fmap list_fmap str_join]. unfold Json.member_text. cbn [fst snd].
  repeat (rewrite forallb_app || rewrite andb_true_iff || cbn [forallb]). rewrite !escape_scalar by done.
  split_and!; done.
Qed.

(** An accepted language is written, and what was written is read back. *)
Lemma preference_bytes_spec l : forallb is_scalar l = true -> exists bytes,
  preference_bytes l = Ok bytes /\
  forall t, read_session_file {| session_file := Some bytes; temporary := t |} = Ok (preference_document l).
Proof using encode_some depth_le.
  intros Hl. destruct (document_text l) as (t & Ht & Hs); [done|]. unfold preference_bytes. rewrite Ht. cbn [rbind].
  exists ((t ++ [10%N]) ≫= utf8_char). unfold utf8_encode. rewrite Hs. split; [done|]. intros t'.
  unfold read_session_file. cbn [session_file ok_or rbind]. rewrite (utf8_decode_encode (t ++ [10%N])) by (unfold utf8_encode; by rewrite Hs).
  cbn [ok_or rbind]. apply Json.loads_dumps; [done|done|apply document_plain|by repeat constructor].
Qed.

(** What a supervisor that starts now would load. *)
Definition restart_loads (p : Prefs) : Prop :=
  _load_session_preferences (disk p) §"system" = Ok (session_language (session (view p))).

Lemma load_document l t before : Forall (fun c => I18n.tag_char c = true) l -> _validate_session_language l = Ok l ->
  forall bytes, preference_bytes l = Ok bytes ->
  _load_session_preferences {| session_file := Some bytes; temporary := t |} before = Ok l.
Proof using encode_some depth_le.
  intros Ht Hv bytes Hb. destruct (preference_bytes_spec l (tag_scalar l Ht)) as (bytes' & Hb' & Hread).
  rewrite Hb in Hb'. injection Hb' as <-. unfold _load_session_preferences. rewrite Hread. unfold preference_document.
  change (dget_or _ §"schema" VNone) with (VStr SESSION_PREFERENCES_SCHEMA).
  change (dget_or _ §"language" _) with (VStr l). unfold eq_str. rewrite bool_decide_eq_true_2 by done. cbn [negb py_str].
  by rewrite Hv.
Qed.

(** The file is replaced as a whole or not at all.  It may have been replaced by
    a write that fails: when only the removal of the temporary file failed. *)
Definition replaced_anyway (l : pystr) (d' : Disk) : Prop :=
  is_Some (fault UnlinkTemporary) /\ exists bytes, preference_bytes l = Ok bytes /\ session_file d' = Some bytes.

Lemma persist_spec l d d' r : Forall (fun c => I18n.tag_char c = true) l -> _persist_session_preferences l d = (d', r) ->
  match r with
  | Ok _ => exists bytes, preference_bytes l = Ok bytes /\ d' = {| session_file := Some bytes; temporary := None |}
  | Raise e => (session_file d' = session_file d \/ replaced_anyway l d') /\ is_os_error (exn_type e) = true
  end.
Proof using encode_some depth_le HF.
  intros Hl. destruct (preference_bytes_spec l (tag_scalar l Hl)) as (bytes & Hb & _).
  unfold _persist_session_preferences, write_and_replace, guarded, remove_temporary, replaced_anyway. rewrite Hb.
  destruct (fault MakeDirectory) as [e|] eqn:F1; [intros [= <- <-]; eauto using fault_os|].
  destruct (fault OpenTemporary) as [e|] eqn:F2; [|destruct (fault WriteTemporary) as [e|] eqn:F3;
    [|destruct (fault SyncTemporary) as [e|] eqn:F4; [|destruct (fault ReplaceFile) as [e|] eqn:F5]]]; cbn [temporary fst snd set_temporary].
  all: destruct (fault UnlinkTemporary) as [e'|] eqn:F6; intros [= <- <-]; try (split; [by left|eauto using fault_os]).
  - split; [right|by eapply fault_os]. split; [by eexists|by exists bytes].
  - by exists bytes.
Qed.

Lemma set_language_back l v : set_language (session_language (session v)) (set_language l v) = v.
Proof using. by destruct v as [[] ? ? ?]. Qed.

(** What is known when the call refuses, and when it changes the language. *)
Definition unchanged (p p' : Prefs) : Prop := view p' = view p /\ session_file (disk p') = session_file (disk p).

Lemma unchanged_keeps p p' : unchanged p p' -> restart_loads p -> locale_coherent (view p) ->
  restart_loads p' /\ locale_coherent (view p').
Proof using.
  intros [Hv Hf] Hl Hc. unfold restart_loads, _load_session_preferences, read_session_file in *. by rewrite Hv, Hf.
Qed.

Lemma store_language_spec language p p' r : Forall (fun c => I18n.tag_char c = true) language ->
  _validate_session_language language = Ok language -> store_language language p = (p', r) ->
  (exists code m, r = Ok (Refused code m) /\ (unchanged p p' \/ view p' = view p /\ replaced_anyway language (disk p'))) \/
  (exists result announced, r = Ok (Changed result announced) /\
    session_language (session (view p')) = language /\ restart_loads p' /\ locale_coherent (view p') /\
    (announced = true <-> session_language (session (view p)) ≠ language) /\
    dget result §"resolved_language" = Some (VStr (default [] (session_presentation_locale (session (view p')))))).
Proof using encode_some depth_le HF.
  intros Ht Hv. unfold store_language. destruct (_persist_session_preferences language (disk p)) as [d [[]|e]] eqn:Hp;
    pose proof (persist_spec _ _ _ _ Ht Hp) as Hspec; cbn beta iota in Hspec.
  - destruct Hspec as (bytes & Hb & ->). intros [= <- <-]. right. eexists _, _. split; [reflexivity|]. cbn.
    split; [done|]. split; [by apply load_document|]. split; [done|]. split; [|done].
    rewrite negb_true_iff, bool_decide_eq_false. done.
  - destruct Hspec as [Hf He]. rewrite He. intros [= <- <-]. left. eexists _, _. split; [reflexivity|].
    destruct Hf as [Hf|Hf]; [left|right]; (split; [apply set_language_back|exact Hf]).
Qed.

(** The payload asks for a language, and the file has it although the call
    failed and the session has kept the previous one. *)
Definition diverged (payload : pyval) (p p' : Prefs) : Prop :=
  view p' = view p /\ exists members value language, payload = VDict members /\ dget members §"language" = Some value /\
    _validate_session_language (py_str value) = Ok language /\ replaced_anyway language (disk p').

(** Changing the language of the session is a transaction, but for one failure.
    No exception leaves the call.  When it answers an error the language, the
    locale kept for it and the file are as before, unless the temporary file
    could not be removed after it had replaced the other; otherwise the language
    is the requested one, its locale is not stale, and the change is announced
    exactly when there was one.  But in the exceptional case a supervisor that
    starts afterwards loads the language of the session. *)
Lemma set_session_preferences_spec payload p p' r :
  restart_loads p -> locale_coherent (view p) -> set_session_preferences payload p = (p', r) ->
  (restart_loads p' \/ diverged payload p p') /\ locale_coherent (view p') /\
  exists a, r = Ok a /\
    match a with
    | Refused _ _ => view p' = view p /\ (session_file (disk p') = session_file (disk p) \/ diverged payload p p')
    | Changed result announced =>
        restart_loads p' /\
        (exists members value, payload = VDict members /\ dget members §"language" = Some value /\
           _validate_session_language (py_str value) = Ok (session_language (session (view p')))) /\
        (announced = true <-> session_language (session (view p)) ≠ session_language (session (view p'))) /\
        dget result §"resolved_language" = Some (VStr (default [] (session_presentation_locale (session (view p')))))
    end.
Proof using encode_some depth_le HF.
  intros Hload Hcoh Hr. unfold set_session_preferences in Hr.
  assert (forall code m, (p, Ok (Refused code m)) = (p', r) -> exists code m, r = Ok (Refused code m) /\ unchanged p p') as Hsame.
  { intros code m [= <- <-]. eexists _, _. by split. }
  match goal with |- ?G => assert ((exists code m, r = Ok (Refused code m) /\ unchanged p p') -> G) as Hrefused end.
  { intros (code & m & -> & Hu). destruct (unchanged_keeps _ _ Hu Hload Hcoh). split; [by left|split; [done|]].
    exists (Refused code m). split; [done|]. destruct Hu. split; [done|by left]. }
  destruct payload as [| | | | | |members|]; try (apply Hrefused; by eapply Hsame).
  destruct (unknown_preferences members); [|apply Hrefused; by eapply Hsame].
  destruct (dget members §"language") as [value|] eqn:Hval; [|apply Hrefused; by eapply Hsame].
  destruct (_validate_session_language (py_str value)) as [language|e] eqn:Hv;
    [|rewrite (validate_error _ _ Hv) in Hr; apply Hrefused; by eapply Hsame].
  destruct (validate_spec _ _ Hv) as [Htag Hagain].
  destruct (store_language_spec _ _ _ _ Htag Hagain Hr) as [(code & m & -> & [Hu|[Hvw Hra]])|(result & announced & -> & <- & Hrl & Hlc & Hann & Hres)];
    [apply Hrefused; by exists code, m| |].
  - assert (diverged (VDict members) p p') as Hd by (split; [done|]; by exists members, value, language).
    split; [by right|]. rewrite Hvw. split; [done|]. exists (Refused code m). split; [done|]. split; [done|by right].
  - split_and!; [by left|done|]. exists (Changed result announced). split; [done|].
    split_and!; [done| |exact Hann|exact Hres]. exists members, value. by split_and!.
Qed.
End Durable.

(* ------------------------------------------------------------------ *)
(** ** Witnesses *)

(** A disk that is full: writing fails after the first byte. *)
Definition full_disk : Faults :=
  {| fault s := match s with WriteTemporary => Some (Exn OSError §"No space left on device") | _ => None end;
     torn := take 1 |}.
Definition sound_disk : Faults := {| fault _ := None; torn b := b |}.

Lemma full_disk_law : @FaultsLaw full_disk.
Proof. constructor. intros [] e He; cbn in He; try discriminate He. by injection He as <-. Qed.
Lemma sound_disk_law : @FaultsLaw sound_disk.
Proof. by constructor. Qed.

Definition sample_json : Json.JsonLib :=
  {| Json.float_repr _ := §"0.5"; Json.float_of _ := Floats.SpecFloat.S754_nan; Json.encode_depth := 900; Json.decode_depth := 1000 |}.

#[local] Existing Instance sample_host.
#[local] Existing Instance sample_json.

Definition sample_prefs : Prefs := {| view := sample_view; disk := {| session_file := None; temporary := None |} |}.
Definition choose_language (l : pystr) : pyval := VDict [(§"language", VStr l)].

(** The language is changed; then a full disk refuses the next change, and the
    first one is still what a restart loads. *)
Definition chosen : Prefs := (@set_session_preferences _ _ _ _ sound_disk (choose_language §" zh-Hans-CN ") sample_prefs).1.
Definition refused : Prefs := (@set_session_preferences _ _ _ _ full_disk (choose_language §"de") chosen).1.

(** The file is replaced, then the disk becomes read-only. *)
Definition read_only_disk : Faults :=
  {| fault s := match s with UnlinkTemporary => Some (Exn OSError §"Read-only file system") | _ => None end; torn b := b |}.
Definition half_refused : Prefs * py answer := @set_session_preferences _ _ _ _ read_only_disk (choose_language §"de") chosen.

(** The call says that the preference could not be written and the session keeps
    its language, but the next supervisor starts with the refused one. *)
Lemma refused_language_is_loaded :
  half_refused.2 = Ok (Refused §"SESSION_PREFERENCES_WRITE_FAILED" §"Read-only file system") /\
  session_language (session (view half_refused.1)) = §"zh-Hans-CN" /\
  _load_session_preferences (disk half_refused.1) §"system" = Ok §"de".
Proof. split_and!; vm_compute; reflexivity. Qed.

End Preferences.
