(* ===== verification/Control.v ===== *)
(** * The control calls of Core ([_core_call] in [msys_core/msysd.py])

    Every method of the target [msys.core], one definition each, and their
    dispatch.  What a method awaits is the interface [Control]; what it computes
    is the other files'. *)

From Stdlib Require Import ZArith.
From S2P Require Export Introspect Preferences Reload Migration.

Module Control.
Import Msysd Calls Dispatch Foreground Restart Messages Launch Outage RoleSwitch Migration Introspect.

(** The supervisor: its records of migrations around Core, what presentation
    depends on, and the directory of preferences. *)
Record Desktop := { desk : Desk; look : View; store : Preferences.Disk }.

Definition scene_of (d : Desktop) : Scene := theatre (desk d).
Definition sup (d : Desktop) : Supervisor := house (scene_of d).

Definition set_desk (x : Desk) (d : Desktop) : Desktop := {| desk := x; look := look d; store := store d |}.
Definition set_scene_of (sc : Scene) (d : Desktop) : Desktop := set_desk (with_theatre sc (desk d)) d.
Definition set_sup (s : Supervisor) (d : Desktop) : Desktop := set_scene_of (set_house s (scene_of d)) d.
Definition set_look (v : View) (d : Desktop) : Desktop := {| desk := desk d; look := v; store := store d |}.

(** What the methods await, and the clock. *)
Class Control := {
  (** [ensure_ready(key, activation=...)] *)
  ensure_ready : pystr -> option (dict pystr pyval) -> Desktop -> Desktop * py nat;
  (** [stop_component(key)] *)
  stop_component : pystr -> Desktop -> Desktop * py unit;
  (** [dispatch_call(msg, source="msys.core")] *)
  dispatch_call : response -> Desktop -> Desktop * py response;
  (** [_forward_call(instance, msg, source="msys.core")] *)
  forward_call : nat -> response -> Desktop -> Desktop * py response;
  (** the other tasks, while a call waits for a lock *)
  wait_lock : Desktop -> Desktop;
  (** [int(time.monotonic() * 1000 + 30_000)] *)
  default_deadline : Desktop -> Z;
  (** [reload_installed_components] *)
  reload_installed_components : bool -> option Reload.Transaction -> Desktop -> Desktop * result Reload.failure pyval;
}.

(** What the preflights read. *)
Class Catalogs := {
  builtin_components : dict pystr Manifest.Component;
  load_installed : py (dict pystr Manifest.Component);
  load_candidate : ppath -> py (dict pystr Manifest.Component);
  resolve_candidate : pystr -> py ppath;
  packages_root : py ppath;
  profile_startup : list pystr;
  profile_document : dict pystr pyval;
}.

(** Core's own process, and what isolation the host supports. *)
Class Machine := { core_pid : Z; isolation_capabilities : Isolation.IsolationCapabilities }.

(* ------------------------------------------------------------------ *)
(** ** Answers *)

Definition call_id (msg : response) : pyval := dget_or msg §"id" (VInt 0).
Definition call_payload (msg : response) : pyval := dget_or msg §"payload" (VDict []).

Definition reply (msg : response) (payload : pyval) : response :=
  [(§"type", VStr §"return"); (§"id", call_id msg); (§"payload", payload)].
Definition refuse (msg : response) (code message : pystr) : response := error_response (call_id msg) code message.
Definition refuse_with (msg : response) (code message : pystr) (payload : pyval) : response :=
  refuse msg code message ++ [(§"payload", payload)].

(** Methods, once their message is known. *)
Definition method : Type := Desktop -> Desktop * py response.
Definition answer (r : response) : method := fun d => (d, Ok r).
Definition answer_py (r : py response) : method := fun d => (d, r).
Definition on_dict (msg : response) (message : pystr) (f : dict pystr pyval -> method) : method :=
  match call_payload msg with VDict p => f p | _ => answer (refuse msg §"BAD_PAYLOAD" message) end.
Definition awaiting {A} (x : Desktop * py A) (f : A -> method) : Desktop * py response :=
  match x with (d, Ok a) => f a d | (d, Raise e) => (d, Raise e) end.

Definition str_value (s : pystr) : pyval := VStr s.
Definition object (l : list (pystr * pyval)) : pyval := VDict l.

(** A function of the view, on the desktop. *)
Definition viewed {A} (x : viewing A) (d : Desktop) : Desktop * py A :=
  let '(v, r) := x (look d) in (set_look v d, r).

Section Control.
Context `{PyLib} `{PyRepr} `{Host} `{I18n.CatalogFiles} `{Processes.Proc} `{UrlLib} `{Json.JsonLib}.
Context `{Preferences.Faults} `{Channel} `{Stagehands} `{Switching} `{Control} `{Catalogs} `{Machine}.

(* ------------------------------------------------------------------ *)
(** ** Session preferences *)

Definition get_session_preferences (msg : response) : method := fun d =>
  (d, Ok (reply msg (VDict (Preferences._session_preferences_payload (session (look d)))))).

(** Publish an event to the components that listen. *)
Definition broadcast_event (topic : pystr) (payload : pyval) (source : pystr) (d : Desktop) : Desktop * py unit :=
  let c := stage (scene_of d) in
  let '(w, r) := broadcast topic payload source (world c) in
  (set_scene_of (set_stage (set_world w c) (scene_of d)) d, r).

Definition set_session_preferences (msg : response) (source : pystr) : method := fun d =>
  let '(p, r) := Preferences.set_session_preferences (call_payload msg)
                   {| Preferences.view := look d; Preferences.disk := store d |} in
  let d := {| desk := desk d; look := Preferences.view p; store := Preferences.disk p |} in
  match r with
  | Raise e => (d, Raise e)
  | Ok (Preferences.Refused code message) => (d, Ok (refuse msg code message))
  | Ok (Preferences.Changed result announced) =>
      if announced
      then awaiting (broadcast_event Preferences.SESSION_PREFERENCES_TOPIC (VDict result) source d)
             (fun _ => answer (reply msg (VDict result)))
      else (d, Ok (reply msg (VDict result)))
  end.

(* ------------------------------------------------------------------ *)
(** ** Back and Home *)

Definition APPLICATION_NAVIGATION_INTERFACE : pystr := §"org.msys.application-navigation.v1".

Definition unhandled (msg : response) (fallback : bool) (component : option pystr) (reason : pystr) : response :=
  reply msg (object ([(§"handled", VBool false); (§"fallback", VBool fallback)]
    ++ match component with Some k => [(§"component", VStr k)] | None => [] end ++ [(§"reason", VStr reason)])).

Definition supports_navigation (c : Manifest.Component) : bool :=
  existsb (fun p => bool_decide (Manifest.kind p = §"interface")
                    && bool_decide (Manifest.name p = APPLICATION_NAVIGATION_INTERFACE)) (Manifest.provides c).

(** The application in front, as [_foreground_entries()[0]] shows it. *)
Definition front_entry (s : Supervisor) : option (dict pystr pyval) :=
  match _foreground_entries memory_snapshot s false with
  | e :: _ => if eq_str (dget_or e §"state" VNone) §"background" then None else Some e
  | [] => None
  end.

Definition deadline_of (msg : response) : list (pystr * pyval) :=
  match dget msg §"deadline_ms" with Some v => [(§"deadline_ms", v)] | None => [] end.

Definition forwarded_back (msg : response) (k : pystr) : response :=
  [(§"type", VStr §"call"); (§"id", call_id msg); (§"target", VStr (§"component:" ++ k));
   (§"method", VStr §"navigation_back"); (§"payload", VDict [])] ++ deadline_of msg.

Definition navigation_answer (msg : response) (k : pystr) (r : response) : response :=
  if negb (field_is r §"type" §"return")
  then unhandled msg false (Some k) (py_str (py_or (dget_or r §"code" VNone) (VStr §"navigation-call-failed")))
  else
    let result := dget_or r §"payload" (VDict []) in
    let handled := match result with
                   | VDict p => match dget p §"handled" with Some (VBool true) => true | _ => false end
                   | _ => false
                   end in
    reply msg (object [(§"handled", VBool handled); (§"fallback", VBool (negb handled)); (§"component", VStr k);
                       (§"result", match result with VDict _ => result | _ => VDict [] end)]).

Definition navigation_back (msg : response) : method := fun d =>
  let s := sup d in
  match front_entry s with
  | None => (d, Ok (unhandled msg true None §"no-foreground-application"))
  | Some e =>
      let k := py_str (py_or (dget_or e §"component" VNone) (VStr [])) in
      if negb (match dget (components s) k with Some c => supports_navigation c | None => false end)
      then (d, Ok (unhandled msg true (Some k) §"interface-not-provided"))
      else match dget (instances s) k with
           | Some n =>
               if match heap s !! n with Some i => sock i && ready i | None => false end
               then awaiting (forward_call n (forwarded_back msg k) d)
                      (fun r => answer (navigation_answer msg k r))
               else (d, Ok (unhandled msg false (Some k) §"navigation-provider-unavailable"))
           | None => (d, Ok (unhandled msg false (Some k) §"navigation-provider-unavailable"))
           end
  end.

Definition background_component (msg : response) : method :=
  on_dict msg §"background payload must be an object" (fun request d =>
  match dget request §"component" with
  | Some (VStr k) =>
      if negb (str_true k)
      then (d, Ok (refuse msg §"BAD_COMPONENT" §"background_component requires a component"))
      else if negb (match current (sup d) k with
                    | Some i => running i && _is_foreground_app (component i)
                    | None => false
                    end)
      then (d, Ok (refuse msg §"COMPONENT_UNAVAILABLE" k))
      else let '(s, (accepted, already)) := _background_foreground k (sup d) in
           let d := set_sup s d in
           if negb accepted then (d, Ok (refuse msg §"NOT_FOREGROUND" k))
           else (d, Ok (reply msg (object [(§"ok", VBool true); (§"component", VStr k);
                                           (§"state", VStr §"background"); (§"already_background", VBool already)])))
  | _ => (d, Ok (refuse msg §"BAD_COMPONENT" §"background_component requires a component"))
  end).

(* ------------------------------------------------------------------ *)
(** ** Services and intents *)

Definition stripped (p : dict pystr pyval) (k : pystr) : pystr := str_strip (py_str (dget_or p k (VStr []))).
Definition nonempty (s : pystr) : option pystr := if str_true s then Some s else None.

Definition discover (msg : response) : method :=
  on_dict msg §"discover payload must be an object" (fun p d =>
  let raw_kind := stripped p §"kind" in
  if bool_decide (raw_kind ∈ [[]; §"interface"; §"capability"])
  then (d, services ← _service_summaries (sup d) (nonempty raw_kind) (nonempty (stripped p §"name"));
           Ok (reply msg (object [(§"services", VList services)])))
  else (d, Ok (refuse msg §"BAD_SERVICE_KIND" raw_kind))).

Definition match_document (m : IntentMatch) : pyval :=
  object [(§"component", VStr (handler m)); (§"name", handler_name m); (§"priority", VInt (priority m));
          (§"runtime", VStr (handler_runtime m))].
Definition candidates_document (ms : list IntentMatch) : pyval := object [(§"candidates", VList (match_document <$> ms))].

Definition resolve_intent (msg : response) : method := fun d =>
  (d, ms ← _intent_candidates (sup d) (normalize_intent_request (call_payload msg));
      Ok (reply msg (candidates_document ms))).

(** [try: send_packet(...) except OSError] *)
Definition _send_activation_event (n : nat) (activation : dict pystr pyval) (d : Desktop) : Desktop * py unit :=
  match heap (sup d) !! n with
  | Some i =>
      if negb (bool_decide (Manifest.readiness_mode (component i) = §"mipc-ready")) || negb (sock i) then (d, Ok tt)
      else
        let c := stage (scene_of d) in
        let '(w, r) := send_or_log n (event_packet §"msys.activation" (VDict activation) §"msys.core") (world c) in
        (set_scene_of (set_stage (set_world w c) (scene_of d)) d, r)
  | None => (d, Ok tt)
  end.

(** Objects stay in the heap: the other tasks only change them. *)
Definition instance_at (n : nat) (d : Desktop) : py Instance :=
  ok_or (heap (sup d) !! n) (Exn LookupError §"no such instance").

Definition window_call (c : Manifest.Component) (extra : list (pystr * pyval)) : response :=
  [(§"type", VStr §"call"); (§"id", VInt 0); (§"target", VStr §"role:window-manager");
   (§"method", VStr §"activate_component"); (§"payload", _window_activation_payload c)] ++ extra.

(** The window of an application is shown; what came of it joins the answer. *)
Definition show_window (k : pystr) (c : Manifest.Component) (result : list (pystr * pyval)) (msg : response) : method := fun d =>
  let d := set_sup (_mark_foreground k (sup d)) d in
  awaiting (dispatch_call (window_call c []) d) (fun activation => answer (reply msg (object (result ++
    [if field_is activation §"type" §"return"
     then (§"activation", dget_or activation §"payload" (VDict []))
     else (§"activation_error", object [(§"code", dget_or activation §"code" VNone);
                                        (§"message", dget_or activation §"message" VNone)])])))).

Definition bad_activation (msg : response) : response :=
  [(§"type", VStr §"error"); (§"id", call_id msg); (§"code", VStr §"BAD_ACTIVATION")].

(** [activation] is true for a request with members. *)
Definition start_component (msg : response) (k : pystr) (activation : option (dict pystr pyval)) : method := fun d =>
  awaiting (ensure_ready k activation d) (fun n d =>
  let request := match activation with Some (_ :: _ as a) => Some a | _ => None end in
  awaiting (match request with Some a => _send_activation_event n a d | None => (d, Ok tt) end) (fun _ d =>
  awaiting (d, instance_at n d) (fun i d =>
  let result := [(§"component", VStr k); (§"state", VStr (state i))]
                ++ match request with Some a => [(§"activation_request", VDict a)] | None => [] end in
  if _is_foreground_app (component i) then show_window k (component i) result msg d
  else (d, Ok (reply msg (object result)))))).

Definition start (msg : response) : method := fun d =>
  match component ← py_get (call_payload msg) §"component" (VStr []);
        activation ← py_get (call_payload msg) §"activation" VNone;
        Ok (py_str component, activation)
  with
  | Raise e => (d, Raise e)
  | Ok (k, VNone) => start_component msg k None d
  | Ok (k, VDict a) => start_component msg k (Some a) d
  | Ok _ => (d, Ok (bad_activation msg))
  end.

Definition stop (msg : response) : method := fun d =>
  awaiting (d, c ← py_get (call_payload msg) §"component" (VStr []); Ok (py_str c)) (fun k d =>
  awaiting (stop_component k d) (fun _ => answer (reply msg (object [(§"component", VStr k); (§"state", VStr §"stopped")])))).

(** The deadline of the user's choice. *)
Definition choice_deadline (msg : response) (d : Desktop) : pyval :=
  match dget msg §"deadline_ms" with
  | Some (VInt z) => VInt z
  | Some (VFloat f) => VFloat f
  | _ => VInt (default_deadline d)
  end.

Definition choice_call (msg : response) (request : dict pystr pyval) (ms : list IntentMatch) (d : Desktop) : response :=
  [(§"type", VStr §"call"); (§"id", VInt 0); (§"target", VStr §"role:chooser"); (§"method", VStr §"choose_intent");
   (§"payload", object [(§"request", VDict request); (§"candidates", VList (match_document <$> ms))]);
   (§"deadline_ms", choice_deadline msg d)].

Definition choice_failures : list pystr := [§"CHOICE_CANCELLED"; §"CHOICE_TIMEOUT"; §"CHOOSER_UI_ERROR"].

(** The component the user chose among several, or the error to answer. *)
Definition chosen (msg : response) (ms : list IntentMatch) (choice : response) : py (pystr + response) :=
  selected ← (if field_is choice §"type" §"return"
              then c ← py_get (dget_or choice §"payload" (VDict [])) §"component" (VStr []); Ok (py_str c)
              else Ok []);
  if bool_decide (selected ∈ handler <$> ms) then Ok (inl selected)
  else let code := str_field choice §"code" in
       Ok (inr (if bool_decide (code ∈ choice_failures)
                then refuse_with msg code (py_str (dget_or choice §"message" (VStr §"intent choice failed")))
                       (candidates_document ms)
                else refuse_with msg §"CHOICE_REQUIRED" §"multiple intent handlers" (candidates_document ms))).

(** Which component answers the intent. *)
Definition select_handler (msg : response) (request : dict pystr pyval) (ms : list IntentMatch) (d : Desktop)
    : Desktop * py (pystr + response) :=
  let selected := py_str (dget_or request §"component" (VStr [])) in
  if str_true selected then
    (d, Ok (if negb (dhas (components (sup d)) selected) then inr (refuse msg §"UNKNOWN_COMPONENT" selected)
            else if negb (bool_decide (ms = [] \/ selected ∈ handler <$> ms))
            then inr (refuse msg §"NOT_INTENT_HANDLER" selected)
            else inl selected))
  else match ms with
       | [] => (d, Ok (inr (refuse msg §"NO_INTENT_HANDLER" (py_str (dget_or request §"action" (VStr []))))))
       | [m] => (d, Ok (inl (handler m)))
       | _ => match dispatch_call (choice_call msg request ms d) d with
              | (d, Ok choice) => (d, chosen msg ms choice)
              | (d, Raise e) => (d, Raise e)
              end
       end.

(** The nested call [start], without the deadline of the original. *)
Definition start_call (msg : response) (k : pystr) (request : dict pystr pyval) : response :=
  [(§"type", VStr §"call"); (§"id", call_id msg); (§"method", VStr §"start");
   (§"payload", object [(§"component", VStr k); (§"activation", VDict request)])].

Definition with_intent (request : dict pystr pyval) (k : pystr) (r : response) : response :=
  if field_is r §"type" §"return"
  then dset r §"payload"
         (match dget_or r §"payload" (VDict []) with
          | VDict p => VDict (dset p §"intent" (object [(§"action", dget_or request §"action" VNone); (§"component", VStr k)]))
          | v => v
          end)
  else r.

Definition activate (msg : response) : method := fun d =>
  let request := normalize_intent_request (call_payload msg) in
  match _intent_candidates (sup d) request with
  | Raise e => (d, Raise e)
  | Ok ms =>
      awaiting (select_handler msg request ms d) (fun choice =>
      match choice with
      | inr refusal => answer refusal
      | inl k => fun d => awaiting (start (start_call msg k request) d) (fun r => answer (with_intent request k r))
      end)
  end.

(* ------------------------------------------------------------------ *)
(** ** Activating a role *)

Definition DISPLAY_MIGRATION_REJECTED : pystr := §"DISPLAY_MIGRATION_REJECTED".

(** The provider of a role and what the catalog says of it, or the error. *)
Definition role_provider (msg : response) (role : pystr) (s : Supervisor)
    : py (pystr * Manifest.Component + response) :=
  let r := role_registry s in
  if negb (bool_decide (role ∈ Roles.list_roles r)) then Ok (inr (refuse msg §"UNKNOWN_ROLE" role))
  else
    active ← Roles.active_provider r role;
    preferred ← (match active ≫= nonempty with Some p => Ok (Some p) | None => Roles.preferred_provider r role end);
    match preferred ≫= nonempty with
    | None => Ok (inr (refuse msg §"NO_PROVIDER" role))
    | Some p => match dget (components s) p with
                | None => Ok (inr (refuse msg §"NO_PROVIDER" p))
                | Some c => Ok (inl (p, c))
                end
    end.

(** Whether the catalog is still the one of [epoch], with the same component.
    The registry is replaced only together with the epoch. *)
Definition same_catalog (epoch : Z) (object : option nat) (p : pystr) (s : Supervisor) : bool :=
  (catalog_epoch s =? epoch)%Z && bool_decide (dget (component_objects s) p = object).

(** The loop under the lock of the role: its ready provider, an error, or
    nothing after three changes of the catalog. *)
Fixpoint role_attempts (attempts : nat) (msg : response) (role : pystr) (d : Desktop)
    : Desktop * py (option (pystr * Manifest.Component * nat + response)) :=
  match attempts with
  | O => (d, Ok None)
  | S attempts =>
      let d := wait_lock d in
      let s := sup d in
      match role_provider msg role s with
      | Raise e => (d, Raise e)
      | Ok (inr r) => (d, Ok (Some (inr r)))
      | Ok (inl (p, c)) =>
          let epoch := catalog_epoch s in
          let object := dget (component_objects s) p in
          match ensure_ready p None d with
          | (d, Raise e) =>
              if negb (caught e) then (d, Raise e)
              else
                let d := wait_lock d in
                if same_catalog epoch object p (sup d)
                then (d, Ok (Some (inr (refuse_with msg §"ROLE_UNAVAILABLE" (take 512 (exn_msg e))
                                          (VDict [(§"role", VStr role); (§"provider", VStr p)])))))
                else role_attempts attempts msg role d
          | (d, Ok n) =>
              let d := wait_lock d in
              if same_catalog epoch object p (sup d) && is_current (sup d) p n
              then (d, Ok (Some (inl (p, c, n))))
              else role_attempts attempts msg role d
          end
      end
  end.

Definition activation_failed (msg : response) (role p : pystr) (i : Instance) (r : response) : response :=
  refuse_with msg §"ROLE_ACTIVATION_FAILED"
    (take 512 (py_str (py_or (dget_or r §"message" VNone)
                         (py_or (dget_or r §"code" VNone) (VStr §"window activation failed")))))
    (object [(§"role", VStr role); (§"provider", VStr p); (§"generation", VInt (generation i)); (§"activation", VDict r)]).

Definition role_activated (msg : response) (role p : pystr) (i : Instance) (r : response) : response :=
  let activation := match dget_or r §"payload" (VDict []) with VDict a => a | _ => [] end in
  reply msg (object [(§"ok", VBool (negb (match dget activation §"ok" with Some (VBool false) => true | _ => false end)));
                     (§"role", VStr role); (§"provider", VStr p); (§"generation", VInt (generation i));
                     (§"state", VStr (state i)); (§"activation", VDict activation)]).

(** The window of the role's provider is activated. *)
Definition show_role (msg : response) (role p : pystr) (c : Manifest.Component) (n : nat) : method := fun d =>
  let d := if _is_foreground_app c then set_sup (_mark_foreground p (sup d)) d else d in
  awaiting (dispatch_call (window_call c (deadline_of msg)) d) (fun r d =>
  awaiting (d, instance_at n d) (fun i =>
  answer (if field_is r §"type" §"return" then role_activated msg role p i r else activation_failed msg role p i r))).

Definition _activate_role_call (msg : response) : method :=
  on_dict msg §"activate_role payload must be an object" (fun p =>
  match dget p §"role" with
  | Some (VStr raw) =>
      let role := str_strip raw in
      if negb (str_true role) then answer (refuse msg §"BAD_ROLE" §"activate_role requires a non-empty role")
      else if bool_decide (role = §"window-manager")
      then answer (refuse msg §"ROLE_ACTIVATION_RECURSION" §"window-manager cannot activate itself through window-manager")
      else fun d =>
        awaiting (role_attempts 3 msg role (wait_lock d)) (fun found =>
        match found with
        | None => answer (refuse msg §"ROLE_CHANGED" role)
        | Some (inr r) => answer r
        | Some (inl (p, c, n)) => show_role msg role p c n
        end)
  | _ => answer (refuse msg §"BAD_ROLE" §"activate_role requires a non-empty role")
  end).

(* ------------------------------------------------------------------ *)
(** ** Choosing the provider of a role *)

Definition list_roles (msg : response) : method := fun d =>
  (d, roles ← mapR (fun role => _role_summary role (sup d)) (Roles.list_roles (role_registry (sup d)));
      Ok (reply msg (object [(§"roles", VList (VDict <$> roles))]))).

(** A switch of a role on the desktop.  The file of the choices is written when
    the choices change. *)
Definition on_choices (f : Selection -> Selection * py response) : method := fun d =>
  let sc := scene_of d in
  let '(st, r) := f (selection sc) in
  let written := if bool_decide (role_preference_overrides st = choices sc) then durable sc else role_preference_overrides st in
  (set_scene_of {| stage := set_super (core_state st) (stage sc); choices := role_preference_overrides st;
                   durable := written |} d, r).

(** The display is not switched here: its migration is queued. *)
Definition queue_migration (msg : response) (provider mode source : pystr) : method := fun d =>
  let '(x, r) := _queue_display_migration provider mode source (desk d) in
  let d := set_desk x d in
  match r with
  | Ok migration => (d, Ok (reply msg (object [(§"migration", VDict migration)])))
  | Raise e => (d, if caught e then Ok (refuse msg DISPLAY_MIGRATION_REJECTED (take 512 (exn_msg e))) else Raise e)
  end.

Definition str_member (msg : response) (k : pystr) : py pystr :=
  v ← py_get (call_payload msg) k (VStr []); Ok (py_str v).

Definition select_role (msg : response) (source : pystr) : method := fun d =>
  match role ← str_member msg §"role"; provider ← str_member msg §"provider"; Ok (role, provider) with
  | Raise e => (d, Raise e)
  | Ok (role, provider) =>
      if bool_decide (role = DISPLAY_OUTPUT_ROLE) then queue_migration msg provider §"select" source d
      else on_choices (RoleSwitch.select_role (call_id msg) role provider) (wait_lock d)
  end.

Definition reset_role (msg : response) (source : pystr) : method := fun d =>
  match str_member msg §"role" with
  | Raise e => (d, Raise e)
  | Ok role =>
      let d := wait_lock d in
      if bool_decide (role = DISPLAY_OUTPUT_ROLE)
      then match Roles.candidate_ids (role_registry (sup d)) role with
           | Raise e => (d, Raise e)
           | Ok [] => (d, Ok (refuse msg §"NO_PROVIDER" role))
           | Ok (provider :: _) => queue_migration msg provider §"reset" source d
           end
      else on_choices (RoleSwitch.reset_role (call_id msg) role) d
  end.

Definition display_migration_status (msg : response) : method :=
  on_dict msg §"display migration status payload must be an object" (fun p d =>
  let status id := (d, Ok (reply msg (object [(§"migration", VDict (_display_migration_status id (desk d)))]))) in
  match dget_or p §"id" VNone with
  | VNone => status None
  | VInt z => if (0 <? z)%Z then status (Some z)
              else (d, Ok (refuse msg §"BAD_PAYLOAD" §"display migration id must be a positive integer"))
  | _ => (d, Ok (refuse msg §"BAD_PAYLOAD" §"display migration id must be a positive integer"))
  end).

(* ------------------------------------------------------------------ *)
(** ** The catalog *)

(** [except CatalogTransactionError]: the code, message and details. *)
Definition catalog_answer (msg : response) (r : result Reload.failure pyval) : py response :=
  match r with
  | Ok payload => Ok (reply msg payload)
  | Raise (Reload.CatalogFailure code message details) => Ok (refuse_with msg code message (VDict details))
  | Raise (Reload.Plain e) => Raise e
  end.

Definition candidate_document (package : pystr) (r : ppath * list pystr * nat) : pyval :=
  let '(target, keys, size) := r in
  object [(§"package", VStr package); (§"path", VStr (path_str target)); (§"components", Reload.str_list keys);
          (§"catalog_components", VInt (Z.of_nat size))].

Definition removal_document (package : pystr) (r : list pystr * nat) : pyval :=
  object [(§"package", VStr package); (§"components", Reload.str_list r.1); (§"catalog_components", VInt (Z.of_nat r.2))].

Definition preflight_registry (msg : response) : method :=
  on_dict msg §"preflight_registry payload must be an object" (fun p d =>
  let d := wait_lock d in
  let package := py_str (dget_or p §"package" (VStr [])) in
  let path := path_str (path_of (py_str (dget_or p §"path" (VStr [])))) in
  (d, catalog_answer msg (r ← Reload.preflight_installed_candidate (resolve_candidate path) packages_root load_candidate
                                builtin_components load_installed profile_startup profile_document package path (sup d);
                          Ok (candidate_document package r)))).

Definition preflight_registry_remove (msg : response) : method :=
  on_dict msg §"preflight_registry_remove payload must be an object" (fun p d =>
  let d := wait_lock d in
  let package := py_str (dget_or p §"package" (VStr [])) in
  (d, catalog_answer msg (r ← Reload.preflight_installed_removal builtin_components load_installed profile_startup
                                profile_document package (sup d);
                          Ok (removal_document package r)))).

Definition reload_registry (msg : response) : method :=
  on_dict msg §"reload_registry payload must be an object" (fun p d =>
  match dget_or p §"verify_health" (VBool true) with
  | VBool verify =>
      match Reload._catalog_transaction_request (dget_or p §"transaction" VNone) with
      | Raise e => (d, if is_value_error (exn_type e) then Ok (refuse msg §"BAD_PAYLOAD" (exn_msg e)) else Raise e)
      | Ok transaction =>
          let '(d, r) := reload_installed_components verify transaction d in
          (d, match r with
              | Raise (Reload.Plain e) =>
                  if caught e
                  then Ok (refuse_with msg §"CATALOG_RELOAD_FAILED" §"installed catalog reload failed"
                             (object [(§"reason", Reload.reason e)]))
                  else Raise e
              | r => catalog_answer msg r
              end)
      end
  | _ => (d, Ok (refuse msg §"BAD_PAYLOAD" §"verify_health must be a boolean"))
  end).

(* ------------------------------------------------------------------ *)
(** ** Listings *)

Definition by_id (cs : dict pystr Manifest.Component) : list (pystr * Manifest.Component) :=
  py_sorted (fun a b => str_leb a.1 b.1) cs.

Definition summaries (keep : Manifest.Component -> bool) (s : Supervisor) : viewing (list pyval) :=
  vmap (fun kc => _component_summary s kc.1 kc.2) (List.filter (fun kc => keep kc.2) (by_id (components s))).

Definition list_components (msg : response) : method := fun d =>
  awaiting (viewed (summaries (fun _ => true) (sup d)) d) (fun l => answer (reply msg (object [(§"components", VList l)]))).

Definition list_apps (msg : response) : method := fun d =>
  awaiting (viewed (summaries _is_launchable (sup d)) d) (fun l => answer (reply msg (object [(§"apps", VList l)]))).

Definition process_fields : list pystr := [§"scope"; §"include_system"; §"limit"].

(** What a valid request asks for, or the message of the refusal. *)
Definition process_request (p : dict pystr pyval) : pystr * bool * Z + pystr :=
  if negb (forallb (fun k => bool_decide (k ∈ process_fields)) (dkeys p)) then inr §"unknown process list field"
  else match dget_or p §"scope" (VStr §"headless-msys") with
       | VStr scope =>
           if negb (bool_decide (scope ∈ [§"headless-msys"; §"all-msys"]))
           then inr §"process list scope must be 'headless-msys' or 'all-msys'"
           else match dget_or p §"include_system" (VBool false) with
                | VBool include_system =>
                    match dget_or p §"limit" (VInt Processes.DEFAULT_SYSTEM_PROCESS_LIMIT) with
                    | VInt limit =>
                        if (1 <=? limit)%Z && (limit <=? Processes.MAX_SYSTEM_PROCESS_LIMIT)%Z
                        then inl (scope, include_system, limit)
                        else inr (§"process list limit must be an integer between 1 and "
                                    ++ dec_Z Processes.MAX_SYSTEM_PROCESS_LIMIT)
                    | _ => inr (§"process list limit must be an integer between 1 and "
                                  ++ dec_Z Processes.MAX_SYSTEM_PROCESS_LIMIT)
                    end
                | _ => inr §"include_system must be boolean"
                end
       | _ => inr §"process list scope must be 'headless-msys' or 'all-msys'"
       end.

Definition list_processes (msg : response) : method :=
  on_dict msg §"process list payload must be an object" (fun p d =>
  match process_request p with
  | inr message => (d, Ok (refuse msg §"BAD_PAYLOAD" message))
  | inl (scope, include_system, limit) =>
      awaiting (viewed (_process_list_snapshot (sup d) core_pid scope include_system limit) d)
        (fun doc => answer (reply msg doc))
  end).

Definition list_capabilities (msg : response) : method :=
  answer (reply msg (Isolation.capabilities_dict isolation_capabilities)).

Definition broadcast_call (msg : response) : method := fun d =>
  match topic ← py_get (call_payload msg) §"topic" (VStr []);
        payload ← py_get (call_payload msg) §"payload" (VDict []);
        Ok (topic, payload)
  with
  | Raise e => (d, Raise e)
  | Ok (topic, payload) =>
      awaiting (match topic with VStr t => broadcast_event t payload §"core-call" d | _ => (d, Ok tt) end)
        (fun _ => answer (reply msg (object [(§"ok", VBool true)])))
  end.

Definition foreground_stack_call (msg : response) : method := fun d =>
  let include_resources := match call_payload msg with
                           | VDict p => match dget p §"include_resources" with Some (VBool true) => true | _ => false end
                           | _ => false
                           end in
  (d, Ok (reply msg (object [(§"windows", VList (VDict <$> _foreground_entries memory_snapshot (sup d) include_resources))]))).

(* ------------------------------------------------------------------ *)
(** ** The methods *)

Definition methods (msg : response) (source : pystr) : list (pystr * method) :=
  [(§"activate_role", _activate_role_call msg);
   (§"get_session_preferences", get_session_preferences msg);
   (§"set_session_preferences", set_session_preferences msg source);
   (§"navigation_back", navigation_back msg);
   (§"background_component", background_component msg);
   (§"discover", discover msg);
   (§"resolve_intent", resolve_intent msg);
   (§"activate", activate msg);
   (§"list_roles", list_roles msg);
   (§"preflight_registry", preflight_registry msg);
   (§"preflight_registry_remove", preflight_registry_remove msg);
   (§"reload_registry", reload_registry msg);
   (§"select_role", select_role msg source);
   (§"reset_role", reset_role msg source);
   (§"display_migration_status", display_migration_status msg);
   (§"get_display_migration", display_migration_status msg);
   (§"list_components", list_components msg);
   (§"list_processes", list_processes msg);
   (§"isolation_capabilities", list_capabilities msg);
   (§"list_apps", list_apps msg);
   (§"start", start msg);
   (§"stop", stop msg);
   (§"broadcast", broadcast_call msg);
   (§"foreground_stack", foreground_stack_call msg)].

Definition _core_call (msg : response) (source : pystr) : method :=
  let name := dget_or msg §"method" VNone in
  match as_str name ≫= dget (methods msg source) with
  | Some m => m
  | None => answer (refuse msg §"NO_METHOD" (py_str name))
  end.
End Control.
End Control.
