(* ===== verification/ControlSafety.v ===== *)
(** * What the control calls of Core guarantee

    Every answer goes to its caller; the listings change nothing; an intent is
    only answered by a handler; and whatever is called, the language of the
    session is the one a restart would load. *)

From Stdlib Require Import ZArith.
From S2P Require Export Control.

Module ControlSafety.
Import Msysd Calls Dispatch Foreground Restart Messages Launch Outage RoleSwitch Migration Introspect Control.

Section Safety.
Context {lib : PyLib} {repr : PyRepr} {host : Host} {files : I18n.CatalogFiles} {proc : Processes.Proc}
  {urls : UrlLib} {json : Json.JsonLib} {faults : Preferences.Faults} {channel : Channel} {hands : Stagehands}
  {switching : Switching} {control : Control} {catalogs : Catalogs} {machine : Machine}.

(* ------------------------------------------------------------------ *)
(** ** Answers *)

(** An answer to the caller: a result with a payload, or an error with its
    code. *)
Definition answers (msg r : response) : Prop :=
  dget r §"id" = Some (call_id msg) /\
  ((dget r §"type" = Some (VStr §"return") /\ is_Some (dget r §"payload")) \/
   (dget r §"type" = Some (VStr §"error") /\ exists code, dget r §"code" = Some (VStr code))).

Definition answering (msg : response) (m : method) : Prop := forall d d' r, m d = (d', Ok r) -> answers msg r.

Lemma answers_reply msg p : answers msg (reply msg p).
Proof. split; [done|]. left. split; [done|]. by eexists. Qed.
Lemma answers_refuse msg code m : answers msg (refuse msg code m).
Proof. split; [done|]. right. split; [done|]. by eexists. Qed.
Lemma answers_refuse_with msg code m p : answers msg (refuse_with msg code m p).
Proof. split; [done|]. right. split; [done|]. by eexists. Qed.

Lemma answering_answer msg r : answers msg r -> answering msg (answer r).
Proof. by intros Hr d d' r' [= _ <-]. Qed.
Lemma answering_awaiting {A} msg (x : Desktop * py A) f d' r :
  awaiting x f = (d', Ok r) -> (forall a d, x = (d, Ok a) -> answering msg (f a)) -> answers msg r.
Proof. unfold awaiting. destruct x as [d [a|e]]; [|done]. intros Hf Ha. by apply (Ha a d eq_refl d d' r). Qed.

Lemma answering_on_dict msg m f : (forall p, answering msg (f p)) -> answering msg (on_dict msg m f).
Proof.
  intros Hf. unfold on_dict. destruct (call_payload msg); try apply Hf; apply answering_answer, answers_refuse.
Qed.

#[local] Create HintDb answers.
#[local] Hint Resolve answers_reply answers_refuse answers_refuse_with answering_answer answering_on_dict : answers.

(** One step through a method: what it awaits, its branches, its answer. *)
Local Ltac answer_step :=
  lazymatch goal with
  | |- answering _ (on_dict _ _ _) => apply answering_on_dict; intros ?p
  | |- answering _ _ => intros ?d ?d' ?r ?Hr; cbv beta in *
  | H : awaiting ?x _ = (_, Ok _) |- answers _ _ =>
      apply (answering_awaiting _ x _ _ _ H); clear H; intros ?a ?d ?Heq; clear Heq
  | H : (_, Ok _) = (_, Ok _) |- answers _ _ => injection H as _ <-; auto with answers
  | H : (_, Raise _) = (_, Ok _) |- _ => discriminate H
  | H : (_, rbind ?x _) = (_, Ok _) |- _ => destruct x; cbn [rbind] in H
  | H : match ?x with _ => _ end = (_, Ok _) |- _ => destruct x eqn:?
  | H : (_, match ?x with _ => _ end) = (_, Ok _) |- _ => destruct x eqn:?
  | H : answer _ _ = (_, Ok _) |- _ => injection H as _ <-; auto with answers
  end.
Local Ltac answers := repeat answer_step;
  repeat match goal with |- answers _ (if ?b then _ else _) => destruct b end; auto with answers.

Lemma answering_navigation msg : answering msg (navigation_back msg).
Proof.
  unfold navigation_back, navigation_answer, unhandled. answers.
Qed.

Lemma chosen_answers msg ms choice r : chosen msg ms choice = Ok (inr r) -> answers msg r.
Proof.
  unfold chosen. destruct (if field_is choice §"type" §"return" then _ else _) as [k|]; [|done]. cbn [rbind].
  case_bool_decide; [done|]. intros [= <-]. case_bool_decide; auto with answers.
Qed.

Lemma select_handler_answers msg request ms d d' r : select_handler msg request ms d = (d', Ok (inr r)) -> answers msg r.
Proof.
  unfold select_handler. destruct (str_true _).
  - intros [= _ Hr]. destruct (negb (dhas _ _)); [injection Hr as <-; auto with answers|].
    destruct (negb _); [injection Hr as <-; auto with answers|done].
  - destruct ms as [|m [|m' ms]]; [intros [= _ <-]; auto with answers|done|].
    destruct (dispatch_call _ d) as [d1 [choice|e]]; [|done]. intros [= _ Hr]. by eapply chosen_answers.
Qed.

Lemma select_handler_refuses msg request ms d d' r : select_handler msg request ms d = (d', Ok (inr r)) ->
  dget r §"type" = Some (VStr §"error").
Proof.
  unfold select_handler. destruct (str_true _).
  - intros [= _ Hr]. destruct (negb (dhas _ _)); [by injection Hr as <-|]. destruct (negb _); [by injection Hr as <-|done].
  - destruct ms as [|m [|m' ms]]; [by intros [= _ <-]|done|].
    destruct (dispatch_call _ d) as [d1 [choice|e]]; [|done]. intros [= _ Hr]. unfold chosen in Hr.
    destruct (if field_is choice §"type" §"return" then _ else _); [|done]. cbn [rbind] in Hr.
    case_bool_decide; [done|]. injection Hr as <-. by case_bool_decide.
Qed.

Lemma answering_start_component msg k a : answering msg (start_component msg k a).
Proof. unfold start_component, show_window. answers. Qed.

Lemma answering_start msg : answering msg (start msg).
Proof.
  assert (answers msg (bad_activation msg)) as Hbad by (split; [done|]; right; split; [done|]; by eexists).
  unfold start. answers; by eapply answering_start_component.
Qed.

Lemma answers_with_intent msg request k r : answers msg r -> answers msg (with_intent request k r).
Proof.
  unfold answers, with_intent. intros [Hid Hty]. destruct (field_is r §"type" §"return") eqn:Hr; [|done].
  rewrite !dget_dset_ne by done. split; [done|]. destruct Hty as [[Ht _]|[Ht _]].
  - left. split; [done|]. rewrite dget_dset_eq. by eexists.
  - unfold field_is, dget_or in Hr. rewrite Ht in Hr. discriminate Hr.
Qed.

Lemma answering_activate msg : answering msg (activate msg).
Proof.
  unfold activate. intros d d' r Hr. destruct (_intent_candidates _ _) as [ms|e]; [|discriminate Hr].
  apply (answering_awaiting _ _ _ _ _ Hr). clear Hr. intros [k|refusal] d1 Hsel.
  - intros d2 d2' r2 H2. apply (answering_awaiting _ _ _ _ _ H2). intros a d3 Ha.
    apply answering_answer, answers_with_intent. exact (answering_start _ _ _ _ Ha).
  - apply answering_answer. by eapply select_handler_answers.
Qed.

Lemma role_provider_answers msg role s r : role_provider msg role s = Ok (inr r) -> answers msg r.
Proof.
  unfold role_provider. destruct (negb _); [intros [= <-]; auto with answers|].
  destruct (Roles.active_provider _ role) as [active|]; [|done]. cbn [rbind].
  destruct (match active ≫= nonempty with Some p => Ok (Some p) | None => _ end) as [preferred|]; [|done]. cbn [rbind].
  destruct (preferred ≫= nonempty) as [p|]; [|intros [= <-]; auto with answers].
  destruct (dget (components s) p); [done|]. intros [= <-]; auto with answers.
Qed.

Lemma role_attempts_answers attempts msg role d d' r :
  role_attempts attempts msg role d = (d', Ok (Some (inr r))) -> answers msg r.
Proof.
  revert d; induction attempts as [|attempts IH]; intros d; cbn [role_attempts]; [done|].
  destruct (role_provider _ _ _) as [[[p c]|r0]|e] eqn:Hp; [|intros [= _ <-]; by eapply role_provider_answers|done].
  destruct (ensure_ready p None _) as [d1 [n|e]].
  - destruct (_ && _); [done|apply IH].
  - destruct (negb (caught e)); [done|]. destruct (same_catalog _ _ _ _); [intros [= _ <-]; auto with answers|apply IH].
Qed.

Lemma answering_activate_role msg : answering msg (_activate_role_call msg).
Proof.
  unfold _activate_role_call. apply answering_on_dict. intros p.
  destruct (dget p §"role") as [[]|]; auto with answers. destruct (negb _); [auto with answers|].
  case_bool_decide; [auto with answers|]. intros d d' r Hr. apply (answering_awaiting _ _ _ _ _ Hr). clear Hr.
  intros [[[[p' c] n]|r0]|] d1 Hf; [|apply answering_answer; by eapply role_attempts_answers|auto with answers].
  unfold show_role, role_activated, activation_failed. answers.
Qed.

Lemma switched_answers msg (x : doing (dict pystr pyval)) st r :
  switched_reply (call_id msg) x = (st, Ok r) -> answers msg r.
Proof. unfold switched_reply, also. destruct x as [st' [summary|e]]; [|done]. intros [= _ <-]. apply (answers_reply msg (VDict summary)). Qed.

Lemma on_choices_answers msg f d d' r : on_choices f d = (d', Ok r) ->
  (forall st st' r, f st = (st', Ok r) -> answers msg r) -> answers msg r.
Proof.
  unfold on_choices. intros Ho Hf. destruct (f _) as [st x] eqn:Hx. injection Ho as _ ->. by eapply Hf.
Qed.

Lemma queue_answers msg provider mode source : answering msg (queue_migration msg provider mode source).
Proof.
  intros d d' r. unfold queue_migration. destruct (_queue_display_migration _ _ _ _) as [x [m|e]]; [intros [= _ <-]; auto with answers|].
  destruct (caught e); [intros [= _ <-]; auto with answers|done].
Qed.

Lemma answering_select_role msg source : answering msg (select_role msg source).
Proof.
  intros d d' r. unfold select_role. destruct (rbind _ _) as [[role provider]|e]; [|done].
  case_bool_decide; [apply queue_answers|]. intros Hr. apply (on_choices_answers _ _ _ _ _ Hr).
  intros st st' r'. unfold RoleSwitch.select_role. apply switched_answers.
Qed.

Lemma answering_reset_role msg source : answering msg (reset_role msg source).
Proof.
  intros d d' r. unfold reset_role. destruct (str_member msg _) as [role|e]; [|done].
  case_bool_decide.
  - destruct (Roles.candidate_ids _ role) as [[|p ps]|e]; [intros [= _ <-]; auto with answers|apply queue_answers|done].
  - intros Hr. apply (on_choices_answers _ _ _ _ _ Hr). intros st st' r'. unfold RoleSwitch.reset_role.
    destruct (Roles.candidate_ids _ role) as [[|p ps]|e]; [intros [= _ <-]; apply (answers_refuse msg)|apply switched_answers|done].
Qed.

Lemma catalog_answers msg x r : catalog_answer msg x = Ok r -> answers msg r.
Proof. unfold catalog_answer. destruct x as [p|[code m details|e]]; [intros [= <-]; auto with answers|intros [= <-]; auto with answers|done]. Qed.
#[local] Hint Resolve answering_navigation answering_start answering_activate answering_activate_role answering_select_role
  answering_reset_role catalog_answers : answers.

Lemma answering_catalog msg : answering msg (preflight_registry msg) /\ answering msg (preflight_registry_remove msg) /\
  answering msg (reload_registry msg).
Proof.
  split_and!; apply answering_on_dict; intros p d d' r; cbv zeta beta.
  1-2: intros Hr; injection Hr as _ Hr; by eapply catalog_answers.
  destruct (dget_or p §"verify_health" _); try (intros [= _ <-]; auto with answers).
  destruct (Reload._catalog_transaction_request _) as [tx|e].
  - destruct (reload_installed_components _ _ _) as [d1 x]. intros [= _ Hr].
    destruct x as [v|[code m details|e]]; [by apply (catalog_answers _ _ _ Hr)..|].
    destruct (caught e); [injection Hr as <-; auto with answers|done].
  - destruct (is_value_error _); [intros [= _ <-]; auto with answers|done].
Qed.

Lemma answering_plain msg source m :
  m ∈ [get_session_preferences msg; set_session_preferences msg source; background_component msg; discover msg;
       resolve_intent msg; list_roles msg; display_migration_status msg; list_components msg; list_processes msg;
       list_capabilities msg; list_apps msg; stop msg; broadcast_call msg; foreground_stack_call msg] -> answering msg m.
Proof.
  intros Hm. repeat (apply elem_of_cons in Hm as [->|Hm]); [..|by apply not_elem_of_nil in Hm].
  all: unfold get_session_preferences, set_session_preferences, background_component, discover, resolve_intent, list_roles,
    display_migration_status, list_components, list_processes, list_capabilities, list_apps, stop, broadcast_call,
    foreground_stack_call; cbv zeta; answers.
Qed.

(** Whatever method is called, an answer it produces is addressed to the call
    it answers, including calls whose method does not exist or whose request is
    malformed, and is either a result with a payload or an error with a code. *)
Theorem core_call_answers_caller msg source d d' r : _core_call msg source d = (d', Ok r) -> answers msg r.
Proof.
  unfold _core_call. destruct (as_str _ ≫= _) as [m|] eqn:Hm; [|apply answering_answer, answers_refuse].
  destruct (as_str (dget_or msg §"method" VNone)) as [name|]; [|done]. cbn [mbind option_bind] in Hm.
  apply dget_elem in Hm. unfold methods in Hm. destruct (answering_catalog msg) as (Hc1 & Hc2 & Hc3).
  revert d d' r. change (answering msg m).
  repeat (apply elem_of_cons in Hm as [[= -> ->]|Hm]; [first [by auto with answers | apply (answering_plain _ source); set_solver]|]).
  by apply not_elem_of_nil in Hm.
Qed.

(* ------------------------------------------------------------------ *)
(** ** Listings *)

(** The part of the desktop that the calls are there to change. *)
Definition untouched (d d' : Desktop) : Prop :=
  desk d' = desk d /\ store d' = store d /\ session (look d') = session (look d).

Definition listing (m : method) : Prop := forall d, untouched d (m d).1.

Lemma untouched_refl d : untouched d d.
Proof. done. Qed.

Lemma untouched_viewed {A} (x : viewing A) d : steady x -> untouched d (viewed x d).1.
Proof. intros Hx. unfold viewed. destruct (Hx (look d)) as [Hs _]. by destruct (x (look d)). Qed.

Lemma listing_viewed {A} (x : Desktop -> viewing A) (f : A -> response) :
  (forall d, steady (x d)) -> listing (fun d => awaiting (viewed (x d) d) (fun a => answer (f a))).
Proof.
  intros Hx d. pose proof (untouched_viewed (x d) d (Hx d)) as Hu. unfold awaiting.
  destruct (viewed (x d) d) as [d1 [a|e]]; exact Hu.
Qed.

Lemma listing_on_dict msg m f : (forall p, listing (f p)) -> listing (on_dict msg m f).
Proof. intros Hf. unfold on_dict. destruct (call_payload msg); try done; apply Hf. Qed.

Lemma steady_summaries keep s : steady (summaries keep s).
Proof. apply steady_map. intros kc. apply steady_summary. Qed.

Definition listing_methods : list pystr :=
  [§"get_session_preferences"; §"discover"; §"resolve_intent"; §"list_roles"; §"display_migration_status";
   §"get_display_migration"; §"list_components"; §"list_processes"; §"isolation_capabilities"; §"list_apps";
   §"foreground_stack"].

(** The calls that only ask for something leave the supervisor, the
    preferences and the session as they are, whatever they answer and whether
    or not they fail; only the caches of presentation may grow. *)
Theorem listing_calls_change_nothing msg source d name :
  dget msg §"method" = Some (VStr name) -> name ∈ listing_methods -> untouched d (_core_call msg source d).1.
Proof.
  intros Hname Hin. unfold _core_call.
  assert (as_str (dget_or msg §"method" VNone) ≫= dget (methods msg source) = dget (methods msg source) name) as ->
    by (unfold dget_or; by rewrite Hname).
  unfold listing_methods in Hin. repeat (apply elem_of_cons in Hin as [->|Hin]; [|]); [..|by apply not_elem_of_nil in Hin].
  all: unfold methods; cbn [dget]; repeat (rewrite decide_False by discriminate); rewrite decide_True by done.
  all: try done.
  - refine (listing_on_dict _ _ _ _ d). intros p d0. cbv zeta. by case_bool_decide.
  - refine (listing_on_dict _ _ _ _ d). intros p d0. cbv zeta. destruct (dget_or p §"id" VNone); try done. by destruct (_ <? _)%Z.
  - refine (listing_on_dict _ _ _ _ d). intros p d0. cbv zeta. destruct (dget_or p §"id" VNone); try done. by destruct (_ <? _)%Z.
  - apply (listing_viewed (fun d => summaries (fun _ => true) (sup d))). intros. apply steady_summaries.
  - refine (listing_on_dict _ _ _ _ d). intros p d0. destruct (process_request p) as [[[scope include_system] limit]|m]; [|done].
    apply (listing_viewed (fun d => _process_list_snapshot (sup d) core_pid scope include_system limit)).
    intros. apply steady_processes.
  - apply (listing_viewed (fun d => summaries _is_launchable (sup d))). intros. apply steady_summaries.
Qed.

(* ------------------------------------------------------------------ *)
(** ** The language of the session *)

Definition prefs_of (d : Desktop) : Preferences.Prefs := {| Preferences.view := look d; Preferences.disk := store d |}.

(** A restart would load the language of the session, and the kept locale is
    the one of that language. *)
Definition coherent (d : Desktop) : Prop := Preferences.restart_loads (prefs_of d) /\ locale_coherent (look d).

(** The other tasks change the language only through these calls as well. *)
Class ControlLaws : Prop := {
  ensure_ready_coherent k a d : coherent d -> coherent (ensure_ready k a d).1;
  stop_component_coherent k d : coherent d -> coherent (stop_component k d).1;
  dispatch_call_coherent r d : coherent d -> coherent (dispatch_call r d).1;
  forward_call_coherent n r d : coherent d -> coherent (forward_call n r d).1;
  wait_lock_coherent d : coherent d -> coherent (wait_lock d);
  reload_coherent v t d : coherent d -> coherent (reload_installed_components v t d).1;
}.

Context {laws : ControlLaws} {fault_law : Preferences.FaultsLaw}.
Context (encode_some : (0 < Json.encode_depth)%nat) (depth_le : (Json.encode_depth <= Json.decode_depth)%nat).

Definition keeping (m : method) : Prop := forall d, coherent d -> coherent (m d).1.

Lemma coherent_untouched d d' : untouched d d' -> (locale_coherent (look d) -> locale_coherent (look d')) -> coherent d -> coherent d'.
Proof using.
  intros (_ & Hs & Hl) Hlc [Hr Hc]. split; [|auto]. unfold Preferences.restart_loads, prefs_of in *. cbn in *. by rewrite Hs, Hl.
Qed.

Lemma coherent_viewed {A} (x : viewing A) d : steady x -> coherent d -> coherent (viewed x d).1.
Proof using.
  intros Hx. apply coherent_untouched; [by apply untouched_viewed|]. unfold viewed.
  destruct (Hx (look d)) as [_ Hc]. by destruct (x (look d)).
Qed.

Lemma coherent_awaiting {A} (x : Desktop * py A) f : coherent x.1 -> (forall a, keeping (f a)) -> coherent (awaiting x f).1.
Proof using. intros Hx Hf. unfold awaiting. destruct x as [d [a|e]]; [by apply Hf|done]. Qed.

Lemma keeping_answer r : keeping (answer r).
Proof using. intros d Hd. exact Hd. Qed.

Lemma keeping_on_dict msg m f : (forall p, keeping (f p)) -> keeping (on_dict msg m f).
Proof using. intros Hf. unfold on_dict. destruct (call_payload msg); first [apply Hf | apply keeping_answer]. Qed.

Lemma coherent_broadcast topic payload source d : coherent d -> coherent (broadcast_event topic payload source d).1.
Proof using. intros Hd. unfold broadcast_event. destruct (broadcast _ _ _ _). exact Hd. Qed.

Lemma coherent_event n a d : coherent d -> coherent (_send_activation_event n a d).1.
Proof using.
  intros Hd. unfold _send_activation_event. destruct (heap _ !! n); [|done]. destruct (_ || _); [done|].
  destruct (send_or_log _ _ _). exact Hd.
Qed.

Lemma coherent_queue msg provider mode source : keeping (queue_migration msg provider mode source).
Proof using.
  intros d Hd. unfold queue_migration. destruct (_queue_display_migration _ _ _ _) as [x [m|e]]; exact Hd.
Qed.

Lemma coherent_choices f : keeping (on_choices f).
Proof using. intros d Hd. unfold on_choices. destruct (f _). exact Hd. Qed.

#[local] Create HintDb coherent.
#[local] Hint Resolve ensure_ready_coherent stop_component_coherent dispatch_call_coherent forward_call_coherent
  wait_lock_coherent reload_coherent coherent_broadcast coherent_event coherent_queue coherent_choices keeping_answer
  keeping_on_dict coherent_awaiting coherent_viewed steady_summaries steady_processes : coherent.

Local Ltac keep_step :=
  lazymatch goal with
  | |- keeping (on_dict _ _ _) => apply keeping_on_dict; intros ?p
  | |- keeping (answer _) => apply keeping_answer
  | |- keeping (queue_migration _ _ _ _) => apply coherent_queue
  | |- keeping (on_choices _) => apply coherent_choices
  | |- keeping _ => intros ?d ?Hd; cbv beta
  | |- coherent (awaiting _ _).1 => apply coherent_awaiting; [|intros ?a]
  | |- coherent (match ?x with _ => _ end).1 => destruct x eqn:?
  | |- coherent (answer _ _).1 => apply keeping_answer
  | |- coherent (_, _).1 => cbn [fst]
  | |- coherent (queue_migration _ _ _ _ _).1 => apply coherent_queue
  | |- coherent (on_choices _ _).1 => apply coherent_choices
  | Hd : coherent ?d, Hr : reload_installed_components ?v ?t ?d = (?d', _) |- coherent ?d' =>
      pose proof (reload_coherent v t d Hd) as Hc; rewrite Hr in Hc; exact Hc
  | |- coherent (set_sup ?s ?d) => change (coherent d)
  end.
Local Ltac keep := repeat keep_step; auto with coherent.

Lemma keeping_plain msg source m :
  m ∈ [get_session_preferences msg; navigation_back msg; background_component msg; discover msg; resolve_intent msg;
       list_roles msg; preflight_registry msg; preflight_registry_remove msg; reload_registry msg;
       select_role msg source; reset_role msg source; display_migration_status msg; list_components msg;
       list_processes msg; list_capabilities msg; list_apps msg; stop msg; broadcast_call msg; foreground_stack_call msg] ->
  keeping m.
Proof using laws.
  intros Hm. repeat (apply elem_of_cons in Hm as [->|Hm]); [..|by apply not_elem_of_nil in Hm].
  all: unfold get_session_preferences, navigation_back, background_component, discover, resolve_intent, list_roles,
    preflight_registry, preflight_registry_remove, reload_registry, select_role, reset_role, display_migration_status,
    list_components, list_processes, list_capabilities, list_apps, stop, broadcast_call, foreground_stack_call; cbv zeta; keep.
Qed.

Lemma keeping_start_component msg k a : keeping (start_component msg k a).
Proof using laws. unfold start_component, show_window. keep. Qed.

Lemma keeping_start msg : keeping (start msg).
Proof using laws. unfold start. keep; by apply keeping_start_component. Qed.

Lemma select_handler_coherent msg request ms d : coherent d -> coherent (select_handler msg request ms d).1.
Proof using laws.
  intros Hd. unfold select_handler. destruct (str_true _); [done|]. destruct ms as [|m [|m' ms]]; [done..|].
  pose proof (dispatch_call_coherent (choice_call msg request (m :: m' :: ms) d) d Hd) as Hc.
  by destruct (dispatch_call _ d) as [d' [choice|e]].
Qed.

Lemma keeping_activate msg : keeping (activate msg).
Proof using laws.
  intros d Hd. unfold activate. destruct (_intent_candidates _ _) as [ms|e]; [|done].
  apply coherent_awaiting; [by apply select_handler_coherent|]. intros [k|refusal]; [|apply keeping_answer].
  intros d1 Hd1. apply coherent_awaiting; [by apply keeping_start|]. intros r. apply keeping_answer.
Qed.

Lemma role_attempts_coherent attempts msg role d : coherent d -> coherent (role_attempts attempts msg role d).1.
Proof using laws.
  revert d; induction attempts as [|attempts IH]; intros d Hd; [done|]. cbn [role_attempts]. cbv zeta.
  pose proof (wait_lock_coherent d Hd) as Hw. destruct (role_provider _ _ _) as [[[p c]|r]|e]; [|done..].
  pose proof (ensure_ready_coherent p None _ Hw) as He. destruct (ensure_ready p None _) as [d1 [n|e]]; cbn [fst] in He.
  - apply wait_lock_coherent in He. destruct (_ && _); [done|by apply IH].
  - destruct (negb (caught e)); [done|]. apply wait_lock_coherent in He. destruct (same_catalog _ _ _ _); [done|by apply IH].
Qed.

Lemma keeping_show_role msg role p c n : keeping (show_role msg role p c n).
Proof using laws.
  intros d Hd. unfold show_role. cbv zeta. assert (coherent (if _is_foreground_app c then set_sup (_mark_foreground p (sup d)) d else d)) as Hd'
    by (destruct (_is_foreground_app c); exact Hd).
  apply coherent_awaiting; [by apply dispatch_call_coherent|]. intros r d1 Hd1.
  apply coherent_awaiting; [done|]. intros i. apply keeping_answer.
Qed.

Lemma keeping_activate_role msg : keeping (_activate_role_call msg).
Proof using laws.
  unfold _activate_role_call. apply keeping_on_dict. intros p.
  destruct (dget p §"role") as [[]|]; try apply keeping_answer. destruct (negb _); [apply keeping_answer|].
  case_bool_decide; [apply keeping_answer|]. intros d Hd. apply coherent_awaiting.
  - by apply role_attempts_coherent, wait_lock_coherent.
  - intros [[[[p' c] n]|r0]|]; [apply keeping_show_role|apply keeping_answer..].
Qed.

(** The session and its locale are those of before, but the file has the language
    that was asked for: it was replaced, and then the temporary file could not be
    removed. *)
Definition half_written (msg : response) (d d' : Desktop) : Prop :=
  dget msg §"method" = Some (VStr §"set_session_preferences") /\ session (look d') = session (look d) /\
  locale_coherent (look d') /\ is_Some (Preferences.fault Preferences.UnlinkTemporary) /\
  exists members value language bytes, call_payload msg = VDict members /\ dget members §"language" = Some value /\
    _validate_session_language (py_str value) = Ok language /\
    Preferences.preference_bytes language = Ok bytes /\ Preferences.session_file (store d') = Some bytes.

(** What the call that changes the language does: an error leaves the session
    and the file as they were, a result has the requested language. *)
Definition language_outcome (msg : response) (d d' : Desktop) (r : response) : Prop :=
  (field_is r §"type" §"error" = true /\ session (look d') = session (look d) /\
     (Preferences.session_file (store d') = Preferences.session_file (store d) \/ half_written msg d d')) \/
  (field_is r §"type" §"return" = true /\ exists members value, call_payload msg = VDict members /\
     dget members §"language" = Some value /\
     _validate_session_language (py_str value) = Ok (session_language (session (look d')))).

Lemma set_language_spec msg source d : coherent d -> dget msg §"method" = Some (VStr §"set_session_preferences") ->
  let d1 := (set_session_preferences msg source d).1 in
  (coherent d1 \/ half_written msg d d1) /\
  forall d' r, set_session_preferences msg source d = (d', Ok r) -> language_outcome msg d d' r.
Proof using fault_law encode_some depth_le.
  intros [Hr Hc] Hname. cbv zeta. unfold set_session_preferences. cbv zeta.
  destruct (Preferences.set_session_preferences _ _) as [p x] eqn:Hp. change (Preferences.Build_Prefs (look d) (store d)) with (prefs_of d) in Hp.
  destruct (Preferences.set_session_preferences_spec encode_some depth_le _ (prefs_of d) p x Hr Hc Hp) as (Hr' & Hc' & a & -> & Ha).
  set (d1 := {| desk := desk d; look := Preferences.view p; store := Preferences.disk p |}).
  assert (Preferences.diverged (call_payload msg) (prefs_of d) p -> half_written msg d d1) as Hhalf.
  { intros (Hv & members & value & language & E1 & E2 & E3 & Hun & bytes & E4 & E5). split; [done|].
    split; [unfold d1; cbn; by rewrite Hv|]. split; [exact Hc'|]. split; [done|]. by exists members, value, language, bytes. }
  assert (Preferences.restart_loads p -> coherent d1) as Hd1 by (intros Hrl; split; [by destruct p|exact Hc']).
  destruct a as [code m|result announced].
  - destruct Ha as [Hv Hf]. split; [destruct Hr' as [Hr'|Hr']; [left; by apply Hd1|right; by apply Hhalf]|].
    intros d' r [= <- <-]. left. split; [done|]. split; [unfold d1; cbn; by rewrite Hv|].
    destruct Hf as [Hf|Hf]; [by left|right; by apply Hhalf].
  - destruct Ha as (Hrl & Hlang & _ & _). specialize (Hd1 Hrl). destruct announced.
    + split; [left; apply coherent_awaiting; [by apply coherent_broadcast|intros; apply keeping_answer]|].
      intros d' r. unfold awaiting. destruct (broadcast_event _ _ _ d1) as [d2 [u|e]] eqn:Hb; [|done].
      intros [= <- <-]. right. split; [done|].
      assert (look d2 = look d1) as -> by (unfold broadcast_event in Hb; destruct (broadcast _ _ _ _); by injection Hb as <- _).
      exact Hlang.
    + split; [left; exact Hd1|]. intros d' r [= <- <-]. right. split; [done|]. exact Hlang.
Qed.

(** C21: through every call to Core, whatever the other tasks do meanwhile and
    whatever step of writing the preference file fails, the language of the
    session is the one that the file would give a supervisor started afterwards,
    and the locale kept for presentation is the one of that language; with one
    exception: when the new file is in place and then the temporary file cannot be
    removed, the call that changes the language answers an error and the session
    keeps its language, but the file has the new one.  But for that exception this
    call leaves session and file as they were when it answers an error; otherwise
    the session has the requested language. *)
Theorem session_language_is_durable msg source d : coherent d ->
  let d1 := (_core_call msg source d).1 in
  (coherent d1 \/ half_written msg d d1) /\
  (dget msg §"method" = Some (VStr §"set_session_preferences") ->
   forall d' r, _core_call msg source d = (d', Ok r) -> language_outcome msg d d' r).
Proof using laws fault_law encode_some depth_le.
  intros Hd d1.
  assert (dget msg §"method" = Some (VStr §"set_session_preferences") -> _core_call msg source d = set_session_preferences msg source d) as Hset.
  { intros Hname. unfold _core_call.
    assert (as_str (dget_or msg §"method" VNone) ≫= dget (methods msg source) = Some (set_session_preferences msg source)) as ->
      by (unfold dget_or; by rewrite Hname). done. }
  split.
  - assert (dget msg §"method" = Some (VStr §"set_session_preferences") \/ dget msg §"method" ≠ Some (VStr §"set_session_preferences"))
      as [Hname|Hname].
    { destruct (dget msg _) as [[| | | |name| | |]|]; try (by right). destruct (decide (name = §"set_session_preferences")) as [->|Hne];
        [by left|right; by intros [= ->]]. }
    { unfold d1. rewrite (Hset Hname). by apply set_language_spec. }
    left. unfold d1. clear d1 Hset. unfold _core_call. destruct (as_str _ ≫= _) as [m|] eqn:Hm; [|exact Hd].
    destruct (as_str (dget_or msg §"method" VNone)) as [name|] eqn:Hn; [|done]. cbn [mbind option_bind] in Hm.
    assert (name ≠ §"set_session_preferences") as Hne.
    { intros ->. apply Hname. unfold dget_or in Hn. destruct (dget msg §"method") as [[]|]; try done. by injection Hn as ->. }
    apply dget_elem in Hm. unfold methods in Hm.
    revert d Hd. change (keeping m).
    repeat (apply elem_of_cons in Hm as [[= -> ->]|Hm];
      [lazymatch goal with
       | |- keeping (_activate_role_call _) => apply keeping_activate_role
       | |- keeping (activate _) => apply keeping_activate
       | |- keeping (start _) => apply keeping_start
       | |- keeping (set_session_preferences _ _) => done
       | |- _ => apply (keeping_plain msg source); set_solver
       end|]).
    by apply not_elem_of_nil in Hm.
  - intros Hname. rewrite (Hset Hname). by apply set_language_spec.
Qed.
End Safety.

(* ------------------------------------------------------------------ *)
(** ** Who answers an intent, and who holds a role *)

Section Handlers.
Context {lib : PyLib} {repr : PyRepr} {host : Host} {files : I18n.CatalogFiles} {proc : Processes.Proc}
  {urls : UrlLib} {json : Json.JsonLib} {faults : Preferences.Faults} {channel : Channel} {hands : Stagehands}
  {switching : Switching} {control : Control} {catalogs : Catalogs} {machine : Machine}.

(** A component that declares an intent which matches. *)
Definition declares (s : Supervisor) (i : Intent) (k : pystr) : Prop :=
  exists c intents declared p, dget (components s) k = Some c /\ declared_intents c = Ok intents /\
    declared ∈ intents /\ intent_priority i declared = Ok (Some p).

Lemma candidate_declares s request i ms k : dict_wf (components s) -> intent_of request = Ok i ->
  _intent_candidates s request = Ok ms -> k ∈ handler <$> ms -> declares s i k.
Proof.
  intros Hwf Hi Hms (m & -> & Hm)%list_elem_of_fmap. unfold _intent_candidates in Hms.
  destruct (negb _); [injection Hms as <-; by apply not_elem_of_nil in Hm|]. rewrite Hi in Hms. cbn [rbind] in Hms.
  rewrite match_components_spec in Hms by (done || set_solver).
  destruct (mapR (component_match i) (components s)) as [cs|] eqn:Hcs; [|done]. cbn [rbind app] in Hms. injection Hms as <-.
  unfold dvalues in Hm. rewrite py_sorted_elem, <- list_fmap_compose, (list_fmap_ext _ id) in Hm by done. rewrite list_fmap_id in Hm.
  apply list_elem_of_omap in Hm as ([m'|] & Hm & [= ->]). apply list_elem_of_lookup in Hm as [j Hj]. apply mapR_Ok in Hcs.
  destruct (Forall2_lookup_r _ _ _ _ _ Hcs Hj) as ([k c] & Hkc & Hmatch).
  apply list_elem_of_lookup_2 in Hkc. apply elem_dget in Hkc; [|done].
  unfold component_match in Hmatch. cbn [fst snd] in Hmatch. destruct (declared_intents c) as [intents|] eqn:Hd; [|done]. cbn [rbind] in Hmatch.
  destruct (mapR (intent_priority i) intents) as [ps|] eqn:Hps; [|done]. cbn [rbind] in Hmatch.
  destruct (omap id ps) as [|p ps'] eqn:Hp; [done|]. injection Hmatch as <-. cbn.
  assert (p ∈ omap id ps) as Hin by (rewrite Hp; by left). apply list_elem_of_omap in Hin as ([q|] & Hq & [= ->]).
  apply list_elem_of_lookup in Hq as [j' Hj']. apply mapR_Ok in Hps.
  destruct (Forall2_lookup_r _ _ _ _ _ Hps Hj') as (declared & Hdecl & Hpr).
  exists c, intents, declared, p. split_and!; [done|done| |done]. by eapply list_elem_of_lookup_2.
Qed.

(** The component that was selected: a handler, or one named by the caller when
    there is no handler at all. *)
Lemma selected_handler msg request ms d d' k : select_handler msg request ms d = (d', Ok (inl k)) ->
  k ∈ handler <$> ms \/
  (ms = [] /\ k = py_str (dget_or request §"component" (VStr [])) /\ k ∈ dkeys (components (sup d))).
Proof.
  unfold select_handler. destruct (str_true _).
  - intros [= _ Hk]. destruct (negb (dhas _ _)) eqn:Hh; [done|]. apply negb_false_iff, dhas_true in Hh.
    destruct (negb _) eqn:Hb; [done|]. apply negb_false_iff, bool_decide_eq_true in Hb. injection Hk as <-.
    destruct Hb as [Hb|Hb]; [right|left]; auto.
  - destruct ms as [|m [|m' ms]]; [done|intros [= _ <-]; left; by left|].
    destruct (dispatch_call _ d) as [d1 [choice|e]]; [|done]. intros [= _ Hc]. left. unfold chosen in Hc.
    destruct (if field_is choice §"type" §"return" then _ else _) as [sel|]; [|done]. cbn [rbind] in Hc.
    case_bool_decide; [by injection Hc as <-|done].
Qed.

(** C19: opening an intent either starts exactly one component, through the call
    [start] with the request as its activation, or starts none.  The component
    it starts declares a matching intent, also when the user or the caller chose
    it; only when no component does may the caller name any component of the
    catalog. *)
Theorem intents_start_only_handlers msg d ms i :
  let request := normalize_intent_request (call_payload msg) in
  dict_wf (components (sup d)) -> intent_of request = Ok i -> _intent_candidates (sup d) request = Ok ms ->
  match select_handler msg request ms d with
  | (d1, Ok (inl k)) =>
      activate msg d = awaiting (start (start_call msg k request) d1) (fun r => answer (with_intent request k r)) /\
      (declares (sup d) i k \/
       (forall k', k' ∈ handler <$> ms -> False) /\ k = py_str (dget_or request §"component" (VStr [])) /\
         k ∈ dkeys (components (sup d)))
  | (d1, Ok (inr refusal)) => activate msg d = (d1, Ok refusal) /\ field_is refusal §"type" §"error" = true
  | (d1, Raise e) => activate msg d = (d1, Raise e)
  end.
Proof.
  intros request Hwf Hi Hms. unfold activate. fold request. rewrite Hms.
  destruct (select_handler msg request ms d) as [d1 [[k|refusal]|e]] eqn:Hsel; [| |done].
  - split; [done|]. destruct (selected_handler _ _ _ _ _ _ Hsel) as [Hk|(-> & Hk & Hc)].
    + left. by eapply candidate_declares.
    + right. split; [by intros k' ?%not_elem_of_nil|done].
  - split; [done|]. unfold field_is, dget_or. by rewrite (select_handler_refuses _ _ _ _ _ _ Hsel).
Qed.

(** The provider whose window is shown for a role is the one the registry named
    under the current catalog, and the generation that was made ready is still
    its current one. *)
Lemma role_attempts_current attempts msg role d d' p c n :
  role_attempts attempts msg role d = (d', Ok (Some (inl (p, c, n)))) ->
  exists s, role_provider msg role s = Ok (inl (p, c)) /\
    catalog_epoch (sup d') = catalog_epoch s /\
    dget (component_objects (sup d')) p = dget (component_objects s) p /\
    dget (instances (sup d')) p = Some n.
Proof.
  revert d; induction attempts as [|attempts IH]; intros d; cbn [role_attempts]; [done|]. cbv zeta.
  destruct (role_provider _ _ _) as [[[p' c']|r]|e] eqn:Hp; [|done..].
  destruct (ensure_ready p' None _) as [d1 [n'|e]].
  - destruct (same_catalog _ _ _ _) eqn:Hc; cbn [andb]; [|apply IH].
    destruct (is_current _ _ _) eqn:Hn; [|apply IH]. intros [= <- <- <- <-]. exists (sup (wait_lock d)).
    unfold same_catalog in Hc. apply andb_true_iff in Hc as [He Ho]. apply Z.eqb_eq in He. apply bool_decide_eq_true in Ho.
    unfold is_current in Hn. apply bool_decide_eq_true in Hn. by split_and!.
  - destruct (negb (caught e)); [done|]. destruct (same_catalog _ _ _ _); [done|apply IH].
Qed.
End Handlers.

(* ------------------------------------------------------------------ *)
(** ** Witnesses *)

#[local] Existing Instance sample_host.
#[local] Existing Instance I18n.sample_files.
#[local] Existing Instance Processes.sample_proc.
#[local] Existing Instance Introspect.sample_urls.
#[local] Existing Instance Preferences.sample_json.
#[local] Existing Instance Preferences.full_disk.

Definition idle_hands : Stagehands := {|
  make_ready k sc := (sc, Raise (runtime_error §"spawn failed"));
  stop_instance k n sc := (sc, Ok tt);
  dispatch_reactivation _ sc := (sc, Ok tt);
  settle_retry _ sc := sc;
  meanwhile sc := sc;
  write_preferences _ := Ok tt;
  memory_snapshot _ := VNone;
  unix_ms _ := 0%Z |}.

(** Every application that has an instance is ready; the chooser prefers the
    viewer. *)
Definition sample_control : Control := {|
  ensure_ready k _ d := match dget (instances (sup d)) k with
                        | Some n => (d, Ok n)
                        | None => (d, Raise (Exn KeyError k))
                        end;
  stop_component k d := (d, Ok tt);
  dispatch_call r d := (d, Ok (reply r (VDict [(§"component", VStr §"p:viewer")])));
  forward_call n r d := (d, Ok (reply r (VDict [(§"handled", VBool true)])));
  wait_lock d := d;
  default_deadline _ := 30000%Z;
  reload_installed_components _ _ d := (d, Ok (VDict [])) |}.

Definition sample_catalogs : Catalogs := {|
  builtin_components := []; load_installed := Ok []; load_candidate _ := Ok []; resolve_candidate p := Ok (path_of p);
  packages_root := Ok (path_of §"/opt/packages"); profile_startup := []; profile_document := [] |}.

Definition sample_capabilities : Isolation.IsolationCapabilities := {|
  Isolation.linux := true; Isolation.prctl := true; Isolation.unshare := false; Isolation.cap_namespaces := [];
  Isolation.cap_rlimits := []; Isolation.seccomp_helper := None |}.

Definition sample_machine : Machine :=
  {| core_pid := 4; isolation_capabilities := sample_capabilities |}.

#[local] Existing Instance idle_hands.
#[local] Existing Instance sample_control.
#[local] Instance sample_switching : Switching := flash true.
#[local] Existing Instance sample_catalogs.
#[local] Existing Instance sample_machine.

Definition scene_with (s : Supervisor) : Scene :=
  {| stage := {| world := {| Messages.sup := s; sent := []; spawned := [] |}; Outage.startup := [];
       generations := []; spawn_backoff_until := []; spawn_retry_tasks := []; retries_done := ∅; launched := ∅;
       display_outage := None; next_display_outage_id := 1; display_fault := None; next_display_fault_id := 1 |};
     choices := []; durable := [] |}.

Definition desktop_with (s : Supervisor) : Desktop :=
  {| desk := {| theatre := scene_with s; display_migrations := []; next_display_migration_id := 1;
                display_migration_active := None; display_migration_tasks := ∅ |};
     look := sample_view; store := {| Preferences.session_file := None; Preferences.temporary := None |} |}.

Definition call_of (name : pystr) (payload : pyval) : response :=
  [(§"type", VStr §"call"); (§"id", VInt 41); (§"method", VStr name); (§"payload", payload)].

Definition sample_desktop : Desktop := desktop_with sample_handlers.
Definition listing_call : response := call_of §"list_components" (VDict []).

Lemma core_call_answers_caller_witness : exists d r,
  _core_call (call_of §"reboot" VNone) §"public" sample_desktop = (d, Ok r) /\
  dget r §"id" = Some (VInt 41) /\ dget r §"code" = Some (VStr §"NO_METHOD").
Proof.
  destruct (_core_call (call_of §"reboot" VNone) §"public" sample_desktop) as [d [r|e]] eqn:Hc;
    [|apply (f_equal snd) in Hc; vm_compute in Hc; discriminate Hc].
  exists d, r. split; [reflexivity|]. split.
  - exact (proj1 (core_call_answers_caller _ _ _ _ _ Hc)).
  - apply (f_equal snd) in Hc. vm_compute in Hc. injection Hc as <-. reflexivity.
Defined.

Lemma listing_calls_change_nothing_witness :
  untouched sample_desktop (_core_call listing_call §"public" sample_desktop).1 /\
  match (_core_call listing_call §"public" sample_desktop).2 with Ok _ => True | Raise _ => False end.
Proof.
  split; [|vm_compute; exact I].
  apply (listing_calls_change_nothing listing_call §"public" sample_desktop §"list_components"); [reflexivity|].
  apply (bool_decide_unpack _). vm_compute. exact I.
Defined.

Lemma sample_control_laws : ControlLaws.
Proof.
  constructor; intros; try assumption. cbn. by destruct (dget _ k).
Qed.

(** A full disk: the language stays, and the call says so. *)
Definition language_msg : response := call_of §"set_session_preferences" (VDict [(§"language", VStr §"de")]).

Lemma session_language_is_durable_witness :
  coherent (_core_call language_msg §"public" sample_desktop).1 /\
  session_language (session (look (_core_call language_msg §"public" sample_desktop).1)) = §"system".
Proof.
  assert (coherent sample_desktop) as Hd by (split; [vm_compute; reflexivity|exact I]).
  destruct (session_language_is_durable (laws := sample_control_laws) (fault_law := Preferences.full_disk_law)
    ltac:(cbn; lia) ltac:(cbn; lia) language_msg §"public" sample_desktop Hd) as [Hc _].
  split; [|vm_compute; reflexivity]. destruct Hc as [Hc|(_ & _ & _ & Hu & _)]; [exact Hc|].
  destruct Hu as [e He]. vm_compute in He. discriminate He.
Defined.

Definition open_msg : response := call_of §"activate" (VDict [(§"uri", VStr §"http://host/page")]).

(** Two components open the address; the user picks the viewer. *)
Lemma intents_start_only_handlers_witness : exists d1,
  activate open_msg sample_desktop
  = awaiting (start (start_call open_msg §"p:viewer" (normalize_intent_request (call_payload open_msg))) d1)
      (fun r => answer (with_intent (normalize_intent_request (call_payload open_msg)) §"p:viewer" r)).
Proof.
  destruct (_intent_candidates (sup sample_desktop) (normalize_intent_request (call_payload open_msg))) as [ms|e] eqn:Hms;
    [|vm_compute in Hms; discriminate Hms].
  pose proof (intents_start_only_handlers open_msg sample_desktop ms
    {| action := §"open-uri"; scheme := §"http"; mime := []; requested_name := [] |}
    ltac:(apply (bool_decide_unpack _); vm_compute; exact I) ltac:(vm_compute; reflexivity) Hms) as Hspec.
  destruct (select_handler open_msg (normalize_intent_request (call_payload open_msg)) ms sample_desktop) as [d1 sel] eqn:Hsel.
  assert (sel = Ok (inl §"p:viewer")) as ->.
  { apply (f_equal snd) in Hsel. cbn [snd] in Hsel. rewrite <- Hsel. vm_compute in Hms. injection Hms as <-. vm_compute. reflexivity. }
  exists d1. exact (proj1 Hspec).
Defined.
End ControlSafety.
