(* ===== verification/Startup.v ===== *)
(** * Constructing the supervisor ([msys_core/msysd.py], [msys_core/manifest.py])

    [Msysd.__init__]: the catalog from the built-in, canonical and installed
    manifests, the profile, the language and the role choices of the last
    session, and the empty state everything else starts from.  The theorem at
    the end shows that a supervisor that is constructed satisfies the
    hypotheses about the initial state that the other components' theorems make. *)

From Stdlib Require Import ZArith.
From S2P Require Export ControlSafety LifecycleSafety Profile RolePreferences Reload.

Module Startup.
Import Msysd Launch Outage Migration Introspect Control.

(** The files of the last session below a state directory:
    [preferences/session.json] and [preferences/roles.json]. *)
Class SessionFiles := {
  session_disk : ppath -> Preferences.Disk;
  roles_disk : ppath -> RolePreferences.Disk;
}.

Section Startup.
Context {lib : PyLib} {repr : PyRepr} {limits : Isolation.Platform} {host : Host} {fs : FileSystem}
  {profiles : Profile.ProfileFiles} {json : Json.JsonLib} {files : SessionFiles}.

Definition load_profile (config_dir : ppath) (profile_id : pystr) : py (dict pystr pyval) :=
  safe_id ← Profile.validate_profile_id (VStr profile_id) §"$requested_profile";
  let path := path_div (path_div config_dir (path_of §"profiles")) (path_of (safe_id ++ §".json")) in
  Profile.load_profile_document path (VStr safe_id).

(** [Path(str(profile.get("state_dir") or os.environ.get("MSYS_STATE_DIR", ...)))] *)
Definition state_directory (profile : dict pystr pyval) : ppath :=
  path_of (py_str (py_or (dget_or profile §"state_dir" VNone)
    (VStr (dget_or environ §"MSYS_STATE_DIR" §"/opt/msys-state")))).

(** [str(x) for x in profile.get("startup", [])] of a valid profile. *)
Definition startup_components (profile : dict pystr pyval) : list pystr :=
  omap as_str (default [] (as_list (dget_or profile §"startup" (VList [])))).

(** The component objects of a loaded catalog, in its order. *)
Definition numbered (first : nat) (cs : dict pystr Manifest.Component) : dict pystr nat :=
  imap (fun i kc => (kc.1, (first + i)%nat)) cs.

(** The objects of [replace_package_components(builtin, installed)]. *)
Definition catalog_objects (builtin installed : dict pystr Manifest.Component) : dict pystr nat :=
  let base := numbered 0 builtin in
  let replacements := numbered (length builtin) installed in
  (fun kc => (kc.1, match dget replacements kc.1 with Some n => n | None => dget_or base kc.1 0%nat end))
    <$> Manifest.replace_package_components builtin installed.

(** [self.builtin_components] *)
Definition builtin_catalog (config : ppath) (manifest_paths : list ppath) : py (dict pystr Manifest.Component) :=
  fallback_components ← Manifest.load_manifests config;
  canonical_components ← Manifest.load_manifest_paths manifest_paths;
  Ok (Manifest.replace_package_components fallback_components canonical_components).

(** The attributes that start empty. *)
Definition fresh_supervisor (builtin installed : dict pystr Manifest.Component) (registry : Roles.RoleRegistry) : Supervisor :=
  let cs := Manifest.replace_package_components builtin installed in
  {| heap := ∅; instances := []; components := cs; component_objects := catalog_objects builtin installed;
     role_registry := registry; service_catalog := Services.make cs; catalog_epoch := 0; next_request_id := 1;
     stopping := false; stop_requests := ∅; foreground_stack := []; backgrounded_components := ∅;
     failure_history := []; quarantined := ∅; quarantine_times := []; recovery_allowed := None;
     idle_tasks := ∅; futures := ∅ |}.

Definition fresh_core (profile : dict pystr pyval) (s : Supervisor) : Core :=
  {| world := {| Messages.sup := s; Messages.sent := []; Messages.spawned := [] |}; startup := startup_components profile;
     generations := []; spawn_backoff_until := []; spawn_retry_tasks := []; retries_done := ∅; launched := ∅;
     display_outage := None; next_display_outage_id := 1; display_fault := None; next_display_fault_id := 1 |}.

Definition fresh_desk (sc : Scene) : Desk :=
  {| theatre := sc; display_migrations := []; next_display_migration_id := 1; display_migration_active := None;
     display_migration_tasks := ∅ |}.

Definition fresh_view (se : Session) : View :=
  {| session := se; _presentation_locale_value := None; _presentation_catalogs := None; applied_isolation := ∅ |}.

(** What is durable is all that the file holds, choices that this catalog does
    not offer included. *)
Definition __init__ (config runtime_dir : ppath) (profile_id : pystr) (manifest_paths : list ppath)
    : py (Desktop * Foreground.MemoryReclaimPolicy) :=
  builtin_components ← builtin_catalog config manifest_paths;
  profile ← load_profile config profile_id;
  let state_dir := state_directory profile in
  session_language ← Preferences._load_session_preferences (session_disk state_dir) §"system";
  installed_components ← Manifest.load_installed_manifests state_dir true;
  DepGraph._validate_dependency_graph (Manifest.replace_package_components builtin_components installed_components);;
  role_registry ← Roles.from_profile (Manifest.replace_package_components builtin_components installed_components) profile;
  '(role_registry, overrides) ← RolePreferences._load_role_preferences (roles_disk state_dir) (role_registry, []);
  policy ← Foreground.from_profile profile;
  let s := fresh_supervisor builtin_components installed_components role_registry in
  let se := {| Launch.profile := VDict profile; session_language := session_language; state_dir := state_dir;
               runtime_dir := runtime_dir; builtin_objects := numbered 0 builtin_components |} in
  Ok ({| desk := fresh_desk {| stage := fresh_core profile s; choices := overrides;
                           durable := RolePreferences.file_choices (roles_disk state_dir) |};
         look := fresh_view se; store := session_disk state_dir |}, policy).
End Startup.

(* ------------------------------------------------------------------ *)
(** ** The identities of the component objects *)

Lemma numbered_elem first cs k n :
  dget (numbered first cs) k = Some n ->
  exists i m, n = (first + i)%nat /\ (i < length cs)%nat /\ cs !! i = Some (k, m).
Proof.
  intros Hn%dget_elem. unfold numbered in Hn. apply elem_of_lookup_imap in Hn as (i & [k' m] & [= -> ->] & Hi).
  exists i, m. split_and!; [done| |done]. by eapply lookup_lt_Some.
Qed.

Lemma numbered_keys first cs : dkeys (numbered first cs) = dkeys cs.
Proof. unfold numbered, dkeys. rewrite fmap_imap. apply list_eq. intros i. rewrite list_lookup_imap, list_lookup_fmap. by destruct (cs !! i). Qed.

Lemma numbered_has first cs k : is_Some (dget (numbered first cs) k) <-> is_Some (dget cs k).
Proof. by rewrite <- !dkeys_elem, numbered_keys. Qed.

Lemma numbered_inj first cs k1 k2 n :
  dget (numbered first cs) k1 = Some n -> dget (numbered first cs) k2 = Some n -> k1 = k2.
Proof.
  intros (i & m & -> & _ & Hi)%numbered_elem (j & m' & Hj & _ & Hj')%numbered_elem.
  assert (i = j) as <- by lia. congruence.
Qed.

(** Objects of a loaded catalog and of one numbered after it are different. *)
Lemma numbered_apart cs cs' k1 k2 n :
  dget (numbered 0 cs) k1 = Some n -> dget (numbered (length cs) cs') k2 = Some n -> False.
Proof. intros (i & m & -> & Hi & _)%numbered_elem (j & m' & Hj & _ & _)%numbered_elem. lia. Qed.

Section Objects.
Context (builtin installed : dict pystr Manifest.Component)
  (Hb : dict_wf builtin) (Hi : dict_wf installed).

Lemma catalog_objects_get k : dget (catalog_objects builtin installed) k =
  match dget (Manifest.replace_package_components builtin installed) k with
  | Some _ => match dget (numbered (length builtin) installed) k with
              | Some n => Some n
              | None => dget (numbered 0 builtin) k
              end
  | None => None
  end.
Proof using Hb Hi.
  unfold catalog_objects. cbv zeta. rewrite Reload.dget_keep.
  destruct (dget (Manifest.replace_package_components builtin installed) k) as [m|] eqn:Hk; [|done]. cbn [fst].
  destruct (dget (numbered (length builtin) installed) k) as [n|] eqn:Hn; [done|].
  assert (is_Some (dget builtin k)) as [n' Hn'].
  { rewrite Manifest.replace_lookup in Hk by done. destruct (dget installed k) eqn:Hin.
    - exfalso. apply eq_None_not_Some in Hn. apply Hn, numbered_has. by rewrite Hin.
    - by destruct (dget builtin k). }
  unfold dget_or. destruct (dget (numbered 0 builtin) k) eqn:H0; [done|].
  exfalso. apply eq_None_not_Some in H0. apply H0, numbered_has. by rewrite Hn'.
Qed.
End Objects.

(* ------------------------------------------------------------------ *)
(** ** The role choices of the last session *)

Section Choices.
Context {lib : PyLib} {repr : PyRepr} {json : Json.JsonLib}.

(** A registry without leases whose preferences are the choices. *)
Record chosen (cs : dict pystr Manifest.Component) (st : Roles.RoleRegistry * dict pystr pystr) : Prop := {
  ch_reachable : Roles.reachable st.1;
  ch_leases : Roles._leases st.1 = [];
  ch_catalog : Roles._components st.1 = cs;
  ch_wf : dict_wf st.2;
  ch_preferred : forall role, dget (Roles._preferred st.1) role = dget st.2 role;
}.

Lemma from_profile_chosen cs profile r : Roles.from_profile cs profile = Ok r -> chosen cs (r, []).
Proof.
  unfold Roles.from_profile. intros Hr. inv_result. pose proof (Roles.reach_make _ _ _ _ Hr) as Hreach.
  unfold Roles.make in Hr. inv_result. split; cbn; [done..|constructor|done].
Qed.

Lemma restore_chosen cs st kv : chosen cs st -> chosen cs (RolePreferences.restore_choice st kv).
Proof.
  intros []. unfold RolePreferences.restore_choice.
  destruct (Roles.select_preferred st.1 kv.1 (py_str kv.2)) as [[r x]|e] eqn:Hs; [|done].
  pose proof (Roles.reach_step _ _ ch_reachable0 (Roles.step_select _ _ _ _ _ Hs)) as Hr.
  unfold Roles.select_preferred in Hs. inv_result. split; cbn; [done..|by apply dset_wf|].
  intros role. by rewrite !dget_dset, ch_preferred0.
Qed.

Lemma load_chosen cs d st st' : chosen cs st -> RolePreferences._load_role_preferences d st = Ok st' -> chosen cs st'.
Proof.
  intros Hst. unfold RolePreferences._load_role_preferences.
  destruct (RolePreferences.read_roles_file d) as [data|e]; [|by case_match; intros [= <-]].
  intros Hl. inv_result. clear -Hst. match goal with |- context [foldl _ _ ?l] => revert st Hst; induction l end; [done|].
  intros st Hst. cbn [foldl]. auto using restore_chosen.
Qed.
End Choices.

(* ------------------------------------------------------------------ *)
(** ** The supervisor that is constructed *)

Section Theorems.
Context {lib : PyLib} {repr : PyRepr} {limits : Isolation.Platform} {host : Host} {fs : FileSystem}
  {profiles : Profile.ProfileFiles} {json : Json.JsonLib} {files : SessionFiles}
  {chan : Messages.Channel} {plat : Lifecycle.Platform} {pres : Lifecycle.Presentation}.

(** What the theorems of the components ask of the first state. *)
Record initial (d : Desktop) : Prop := {
  (* the catalog, its objects and its services *)
  in_catalog : Manifest.catalog_wf (components (sup d));
  in_dependencies : DepGraph._validate_dependency_graph (components (sup d)) = Ok tt;
  in_objects k : is_Some (dget (component_objects (sup d)) k) <-> is_Some (dget (components (sup d)) k);
  in_distinct k1 k2 n : dget (component_objects (sup d)) k1 = Some n -> dget (component_objects (sup d)) k2 = Some n -> k1 = k2;
  in_services : service_catalog (sup d) = Services.make (components (sup d));
  (* nothing runs, nothing is called, nothing is in front, no display is lost *)
  in_system : LifecycleSafety.sys_reachable ∅ {| LifecycleSafety.core := stage (scene_of d); LifecycleSafety.locks := ∅; LifecycleSafety.frames := ∅ |};
  in_calls : Calls.calls_reachable (sup d, []);
  in_stack : Foreground.stack_reachable (sup d);
  in_outage : outage_reachable (stage (scene_of d), Idle);
  (* roles: no lease, and the preferences are the choices of the file that the
     catalog offers *)
  in_roles : Roles.reachable (role_registry (sup d)) /\ Roles._leases (role_registry (sup d)) = [];
  in_offers : Roles._components (role_registry (sup d)) = components (sup d);
  in_choices : dict_wf (durable (scene_of d)) /\
    choices (scene_of d) = filter (RolePreferences.offered (role_registry (sup d))) (durable (scene_of d));
  in_preferred role : dget (Roles._preferred (role_registry (sup d))) role = dget (choices (scene_of d)) role;
  (* a reload can start from here, and the language is the one on the disk *)
  in_reload repl : (forall k m, dget repl k = Some m -> Manifest.key m = k) -> Reload.reload_input repl (stage (scene_of d));
  in_language : ControlSafety.coherent d;
}.

(** Where a component of the catalog comes from: the installed package that
    replaces the built-in one, the canonical manifests, or the configuration.
    Only components that no installed package provides count as built in. *)
Record origins (fallback canonical installed : dict pystr Manifest.Component) (d : Desktop) : Prop := {
  or_component k m : dget (components (sup d)) k = Some m <->
    dget installed k = Some m \/
    dget installed k = None /\ Manifest.package_id m ∉ Manifest.package_id <$> dvalues installed /\
    (dget canonical k = Some m \/
     dget canonical k = None /\ Manifest.package_id m ∉ Manifest.package_id <$> dvalues canonical /\
     dget fallback k = Some m);
  or_builtin k m obj : dget (components (sup d)) k = Some m -> dget (component_objects (sup d)) k = Some obj ->
    is_builtin (session (look d)) m obj = true <-> dget installed k = None;
}.

(** The profile in force is the valid one that was asked for. *)
Definition profile_in_force (profile_id : pystr) (d : Desktop) : Prop :=
  exists p, Launch.profile (session (look d)) = VDict p /\ Profile.profile_ok p /\
    Profile.field p §"id" = VStr profile_id /\
    Profile.field p §"startup" = VList (VStr <$> startup (stage (scene_of d))).

Lemma load_profile_valid config profile_id p : load_profile config profile_id = Ok p ->
  Profile.profile_ok p /\ Profile.field p §"id" = VStr profile_id.
Proof.
  unfold load_profile, Profile.validate_profile_id. intros Hl. apply bind_Ok in Hl as (safe & Hs & Hl).
  apply Profile.named_Ok in Hs as [[= <-] _]. unfold Profile.load_profile_document in Hl.
  destruct (Profile.decode_file _ _ _) as [data|[e|e]]; [|done..].
  apply reraise_Ok in Hl. apply Profile.validate_profile_Ok in Hl as (_ & Hok & Hid). split; [done|].
  destruct (Hid _ eq_refl) as (id & [= ->] & Hf). done.
Qed.

Lemma startup_of_valid p : Profile.profile_ok p ->
  Profile.field p §"startup" = VList (VStr <$> startup_components p).
Proof.
  intros Hp. destruct (Profile.ok_startup p Hp) as (l & Hl & _). rewrite Hl. unfold startup_components. do 2 f_equal.
  unfold Profile.field, dget_or in *. destruct (dget p §"startup") as [v|]; [|done]. cbn in *. rewrite Hl. cbn.
  clear. by induction l; [done|]; cbn; f_equal.
Qed.

Lemma builtin_catalog_wf config paths b : builtin_catalog config paths = Ok b -> Manifest.catalog_wf b.
Proof.
  unfold builtin_catalog. intros Hb. inv_result. 
  eauto using Manifest.replace_catalog_wf, Manifest.load_manifests_catalog, Manifest.load_manifest_paths_catalog.
Qed.

(** The parts of a constructed supervisor. *)
Record built (config runtime_dir : ppath) (profile_id : pystr) (paths : list ppath)
    (builtin installed : dict pystr Manifest.Component) (p : dict pystr pyval) (r : Roles.RoleRegistry)
    (ov : dict pystr pystr) (lang : pystr) (d : Desktop) : Prop := {
  bu_builtin : builtin_catalog config paths = Ok builtin;
  bu_profile : load_profile config profile_id = Ok p;
  bu_language : Preferences._load_session_preferences (session_disk (state_directory p)) §"system" = Ok lang;
  bu_installed : Manifest.load_installed_manifests (state_directory p) true = Ok installed;
  bu_graph : DepGraph._validate_dependency_graph (Manifest.replace_package_components builtin installed) = Ok tt;
  bu_chosen : chosen (Manifest.replace_package_components builtin installed) (r, ov);
  bu_choices : dict_wf (RolePreferences.file_choices (roles_disk (state_directory p))) /\
    ov = filter (RolePreferences.offered r) (RolePreferences.file_choices (roles_disk (state_directory p)));
  bu_desktop : d =
    {| desk := fresh_desk {| stage := fresh_core p (fresh_supervisor builtin installed r); choices := ov;
                         durable := RolePreferences.file_choices (roles_disk (state_directory p)) |};
       look := fresh_view {| Launch.profile := VDict p; session_language := lang; state_dir := state_directory p;
         runtime_dir := runtime_dir; builtin_objects := numbered 0 builtin |};
       store := session_disk (state_directory p) |};
}.

Lemma init_built config rd pid paths d policy : __init__ config rd pid paths = Ok (d, policy) ->
  exists builtin installed p r ov lang, built config rd pid paths builtin installed p r ov lang d.
Proof.
  unfold __init__. intros Hd. apply bind_Ok in Hd as (builtin & Hb & Hd). apply bind_Ok in Hd as (p & Hp & Hd).
  cbv zeta in Hd. apply bind_Ok in Hd as (lang & Hl & Hd). apply bind_Ok in Hd as (installed & Hi & Hd).
  apply bind_Ok in Hd as ([] & Hg & Hd). apply bind_Ok in Hd as (r0 & Hr0 & Hd).
  apply bind_Ok in Hd as ([r ov] & Hr & Hd). apply bind_Ok in Hd as (pol & _ & Hd). injection Hd as <- _.
  exists builtin, installed, p, r, ov, lang. split; try done.
  - eapply load_chosen; [|exact Hr]. by eapply from_profile_chosen.
  - by eapply RolePreferences.load_choices.
Qed.

Section Built.
Context config rd pid paths builtin installed p r ov lang d
  (B : built config rd pid paths builtin installed p r ov lang d).
#[local] Abbreviation cs := (Manifest.replace_package_components builtin installed).

Lemma built_wf : Manifest.catalog_wf builtin /\ Manifest.catalog_wf installed /\ Manifest.catalog_wf cs.
Proof using B.
  destruct B. pose proof (builtin_catalog_wf _ _ _ bu_builtin0). pose proof (Manifest.load_installed_catalog _ _ _ bu_installed0).
  eauto using Manifest.replace_catalog_wf.
Qed.

Lemma built_object k obj : dget (catalog_objects builtin installed) k = Some obj ->
  match dget installed k with
  | Some _ => dget (numbered (length builtin) installed) k = Some obj
  | None => dget (numbered 0 builtin) k = Some obj
  end.
Proof using B.
  destruct built_wf as ([Hb _] & [Hi _] & _). rewrite catalog_objects_get by done.
  destruct (dget cs k); [|done]. destruct (dget (numbered (length builtin) installed) k) as [n|] eqn:Hn; intros Ho.
  - assert (is_Some (dget installed k)) as [m ->] by (by apply (numbered_has (length builtin)); rewrite Hn). exact Ho.
  - destruct (dget installed k) eqn:Hin; [|done]. exfalso. apply eq_None_not_Some in Hn. apply Hn, numbered_has. by rewrite Hin.
Qed.

Lemma built_objects k : is_Some (dget (catalog_objects builtin installed) k) <-> is_Some (dget cs k).
Proof using B.
  unfold catalog_objects. cbv zeta. rewrite Reload.dget_keep. apply fmap_is_Some.
Qed.

Lemma built_distinct k1 k2 n : dget (catalog_objects builtin installed) k1 = Some n ->
  dget (catalog_objects builtin installed) k2 = Some n -> k1 = k2.
Proof using B.
  intros H1%built_object H2%built_object. destruct (dget installed k1), (dget installed k2).
  - by eapply numbered_inj.
  - by destruct (numbered_apart _ _ _ _ _ H2 H1).
  - by destruct (numbered_apart _ _ _ _ _ H1 H2).
  - by eapply numbered_inj.
Qed.

Lemma built_sane : LifecycleSafety.sane (fresh_core p (fresh_supervisor builtin installed r)).
Proof using B.
  split; [|apply built_wf]. exact (Roles.reachable_wf _ (ch_reachable _ _ (bu_chosen _ _ _ _ _ _ _ _ _ _ _ B))).
Qed.

Lemma built_initial : initial d.
Proof using B.
  pose proof built_sane as Hsane. pose proof built_wf as (_ & _ & Hwf). pose proof built_objects as Hobj.
  pose proof built_distinct as Hdis. destruct B. subst d. destruct bu_chosen0. split.
  - exact Hwf.
  - exact bu_graph0.
  - exact Hobj.
  - exact Hdis.
  - done.
  - by constructor.
  - by constructor.
  - by constructor.
  - by constructor.
  - done.
  - done.
  - done.
  - done.
  - intros repl Hrepl. split; [done..|by intros k ?%Hobj|]. split; constructor.
  - by split.
Qed.

Lemma built_origins fallback canonical :
  Manifest.load_manifests config = Ok fallback -> Manifest.load_manifest_paths paths = Ok canonical ->
  origins fallback canonical installed d.
Proof using B.
  intros Hf Hc. destruct built_wf as ([Hbw _] & [Hiw _] & [_ Hkey]).
  pose proof built_object as Hobj. destruct B. subst d. unfold builtin_catalog in bu_builtin0. rewrite Hf, Hc in bu_builtin0.
  cbn [rbind] in bu_builtin0. injection bu_builtin0 as <-.
  pose proof (Manifest.load_manifests_catalog _ _ Hf) as [Hfw _].
  pose proof (Manifest.load_manifest_paths_catalog _ _ Hc) as [Hcw _]. split.
  - intros k m. cbn. rewrite !Manifest.replace_lookup by done.
    destruct (dget installed k), (dget canonical k), (dget fallback k); repeat case_decide; naive_solver.
  - intros k m obj Hm Ho. apply Hobj in Ho. unfold is_builtin. rewrite bool_decide_eq_true.
    cbn in Hm |- *. rewrite (Hkey _ _ Hm). destruct (dget installed k); [|done].
    split; [|done]. intros H0. by destruct (numbered_apart _ _ _ _ _ H0 Ho).
Qed.
End Built.

(** C5: a supervisor that is constructed starts from a good state: its catalog
    is keyed by component, closed and acyclic; nothing runs, no call, window
    stack entry or outage is left over, so it is an initial state of the
    transition systems of the components; roles have no lease and prefer
    exactly the choices of the file that the catalog still offers; a reload can commit from it; and its language
    is the one on the disk.  Each component comes from the installed package
    that replaces its built-in one, else from the canonical manifests, else from
    the configuration, and only those no installed package provides are exempt
    from isolation as built in.  The profile in force is valid and is the one
    that was asked for. *)
Theorem constructed_supervisor_is_initial config runtime_dir profile_id manifest_paths d policy :
  __init__ config runtime_dir profile_id manifest_paths = Ok (d, policy) ->
  initial d /\ profile_in_force profile_id d /\
  exists fallback canonical installed,
    Manifest.load_manifests config = Ok fallback /\ Manifest.load_manifest_paths manifest_paths = Ok canonical /\
    Manifest.load_installed_manifests (state_dir (session (look d))) true = Ok installed /\
    origins fallback canonical installed d.
Proof.
  intros (builtin & installed & p & r & ov & lang & B)%init_built. split; [by eapply built_initial|]. split.
  - destruct B as [_ Hp _ _ _ _ _ ->]. destruct (load_profile_valid _ _ _ Hp) as [Hok Hid]. exists p.
    auto using startup_of_valid.
  - pose proof (bu_builtin _ _ _ _ _ _ _ _ _ _ _ B) as Hb. unfold builtin_catalog in Hb.
    apply bind_Ok in Hb as (fallback & Hf & Hb). apply bind_Ok in Hb as (canonical & Hc & _).
    exists fallback, canonical, installed. split_and!; [done..| |by eapply built_origins].
    rewrite (bu_desktop _ _ _ _ _ _ _ _ _ _ _ B). exact (bu_installed _ _ _ _ _ _ _ _ _ _ _ B).
Qed.
End Theorems.

(* ------------------------------------------------------------------ *)
(** ** Witness *)

Definition demo_manifest (package : pystr) (components : list pyval) : pyval :=
  VDict [(§"schema", VStr §"msys.manifest.v1"); (§"package", VDict [(§"id", VStr package)]);
         (§"components", VList components)].
Definition demo_component (name : pystr) (after : list pyval) : pyval :=
  VDict [(§"id", VStr name); (§"exec", VList [VStr §"@package/bin/run"]); (§"after", VList after);
         (§"provides", VList [VDict [(§"role", VStr §"launcher")]])].

(** Two packages in the configuration, and an update of the second that drops
    one of its components. *)
#[local] Instance demo_files : FileSystem := {|
  path_exists p := bool_decide (p ∈ [path_of §"/var/lib/msys/registry/installed.json"; path_of §"/opt/demo/manifest.json"]);
  path_is_file _ := false; path_resolve p := p;
  read_json p :=
    if bool_decide (p = path_of §"/etc/msys/base/manifest.json") then Ok (demo_manifest §"org.base" [demo_component §"desk" []])
    else if bool_decide (p = path_of §"/etc/msys/demo/manifest.json")
    then Ok (demo_manifest §"org.demo" [demo_component §"home" []; demo_component §"old" []])
    else if bool_decide (p = path_of §"/opt/demo/manifest.json")
    then Ok (demo_manifest §"org.demo" [demo_component §"home" [VStr §"org.base:desk"]])
    else Ok (VDict [(§"packages", VList [VDict [(§"path", VStr §"/opt/demo")]])]);
  glob_manifests_recursive _ := [path_of §"/etc/msys/demo/manifest.json"; path_of §"/etc/msys/base/manifest.json"];
  glob_manifests _ := []; |}.
#[local] Instance demo_profiles : Profile.ProfileFiles :=
  {| Profile.decode_file := fun _ _ _ => Ok (VDict Profile.sample_profile) |}.
#[local] Instance demo_session : SessionFiles := {|
  session_disk _ := {| Preferences.session_file := None; Preferences.temporary := None |};
  roles_disk _ := {| RolePreferences.roles_file :=
    Some (str_replace_c 39 34 §"{'roles': {'launcher': 'org.base:desk', 'gone': 'org.demo:old'}}");
    RolePreferences.temporary := None |}; |}.
#[local] Existing Instances Isolation.linux_platform Launch.sample_host Protocol.sample_json Messages.open_sockets.
#[local] Instance demo_platform : Lifecycle.Platform :=
  {| Lifecycle.prepare := fun c m obj gen => Ok ([], []); Lifecycle.popen := fun _ _ gen _ => Ok (100 + gen)%Z;
     Lifecycle.killpg := fun _ _ _ => Ok tt |}.
#[local] Instance demo_presentation : Lifecycle.Presentation :=
  {| Lifecycle.wall_clock_ms := fun _ => 0%Z; Lifecycle.localized_title := fun _ m => Manifest.key m |}.

#[local] Abbreviation demo := (__init__ (path_of §"/etc/msys") (path_of §"/run/msys") §"desktop" []).

Lemma constructed_supervisor_is_initial_witness : exists d policy,
  demo = Ok (d, policy) /\ initial d /\ profile_in_force §"desktop" d /\
  dkeys (components (sup d)) = [§"org.base:desk"; §"org.demo:home"] /\
  choices (scene_of d) = [(§"launcher", §"org.base:desk")] /\
  durable (scene_of d) = [(§"launcher", §"org.base:desk"); (§"gone", §"org.demo:old")] /\
  dvalues (component_objects (sup d)) = [0%nat; 3%nat].
Proof.
  destruct demo as [[d policy]|e] eqn:Hd; [|vm_compute in Hd; discriminate Hd]. exists d, policy.
  destruct (constructed_supervisor_is_initial _ _ _ _ d policy Hd) as (Hi & Hp & _). split; [done|].
  split; [exact Hi|]. split; [exact Hp|]. vm_compute in Hd. injection Hd as <- _. vm_compute. repeat split.
Defined.
End Startup.
