(* ===== verification/Ownership.v ===== *)
(** * The life of a supervisor process ([msys_core/msysd.py])

    [main] and [run]: the claim of the runtime directory with [flock], the public
    socket, the end of the session and the release.  Several supervisors may run
    over one runtime directory; they share its lock file and its socket, and each
    may fail or be killed between any two system calls. *)

From Stdlib Require Import ZArith.
From stdpp Require Import gmap.
From S2P Require Export PyValue.

Module Ownership.

(** The runtime directory: which open file of [.msysd.lock] holds its lock, what
    is written in it, whose server is bound at [control.sock], and the number of
    the next open file. *)
Record Files := {
  holder : option nat;
  owner_text : pystr;
  bound : option nat;
  next : nat;
}.

Definition set_holder (h : option nat) (f : Files) : Files :=
  {| holder := h; owner_text := owner_text f; bound := bound f; next := next f |}.
Definition set_text (t : pystr) (f : Files) : Files :=
  {| holder := holder f; owner_text := t; bound := bound f; next := next f |}.
Definition set_bound (b : option nat) (f : Files) : Files :=
  {| holder := holder f; owner_text := owner_text f; bound := b; next := next f |}.

(** How [run] ends: normally, because the directory is owned, interrupted, or by
    another exception. *)
Inductive ending := Finished | AlreadyOwned | Interrupted | Raised (e : exn).

(** [main]: its exit code, or the exception it does not catch. *)
Definition main (e : ending) : Z + exn :=
  match e with
  | Finished => inl 0%Z
  | AlreadyOwned => inl 73%Z
  | Interrupted => inl 130%Z
  | Raised e => inr e
  end.

(* ------------------------------------------------------------------ *)
(** ** The lock *)

(** Open files are numbered. *)
Definition open_lock (f : Files) : Files * nat :=
  ({| holder := holder f; owner_text := owner_text f; bound := bound f; next := S (next f) |}, next f).

(** [flock(fd, LOCK_EX | LOCK_NB)]: nothing when it would block. *)
Definition flock (fd : nat) (f : Files) : option Files :=
  match holder f with
  | None => Some (set_holder (Some fd) f)
  | Some h => if bool_decide (h = fd) then Some f else None
  end.

(** [flock(fd, LOCK_UN)], or [close(fd)]: no lock is left on this file. *)
Definition unlock (fd : nat) (f : Files) : Files :=
  if bool_decide (holder f = Some fd) then set_holder None f else f.

(** What is written in the lock file. *)
Definition pid_line (pid : nat) : pystr := dec_N (N.of_nat pid) ++ [10%N].

#[global] Arguments pid_line : simpl never.

(** Where a supervisor is: its lock file open, locked, owned
    ([_runtime_lock_fd]), the old socket unlinked, the new one bound. *)
Inductive stage :=
| Starting
| Opened (fd : nat)
| Locked (fd : nat)
| Owning (fd : nat)
| Unlinked (fd : nat)
| Serving (fd : nat)
| Ended (e : option ending).

(** [_runtime_lock_fd] *)
Definition _runtime_lock_fd (st : stage) : option nat :=
  match st with Owning fd | Unlinked fd | Serving fd => Some fd | _ => None end.

Definition acquire_open (f : Files) : Files * stage := let '(f, fd) := open_lock f in (f, Opened fd).

Definition acquire_flock (fd : nat) (f : Files) : Files * stage :=
  match flock fd f with
  | Some f => (f, Locked fd)
  | None => (unlock fd f, Ended (Some AlreadyOwned))
  end.

Definition acquire_stamp (pid fd : nat) (f : Files) : Files * stage := (set_text (pid_line pid) f, Owning fd).

(** [except BaseException]: what was written by then is any text. *)
Definition stamp_failed (fd : nat) (text : pystr) (e : ending) (f : Files) : Files * stage :=
  (unlock fd (set_text text f), Ended (Some e)).

(** The system calls that may fail. *)
Class Syscalls := {
  open_fault : option exn;
  flock_fault : option exn;
  stamp_fault : option (ending * pystr);
}.

(** The whole of it, for a supervisor that is alone. *)
Definition _acquire_runtime_ownership `{Syscalls} (pid : nat) (lock_fd : option nat) (f : Files) : Files * stage :=
  match lock_fd with
  | Some fd => (f, Owning fd)
  | None =>
      match open_fault with
      | Some e => (f, Ended (Some (Raised e)))
      | None =>
          let '(f, fd) := open_lock f in
          match flock_fault with
          | Some e => (f, Ended (Some (Raised e)))
          | None =>
              match acquire_flock fd f with
              | (f, Locked fd) =>
                  match stamp_fault with
                  | Some (e, text) => stamp_failed fd text e f
                  | None => acquire_stamp pid fd f
                  end
              | refused => refused
              end
          end
      end
  end.

(** [finally: self._release_runtime_ownership()] *)
Definition _release_runtime_ownership (fd : nat) (e : ending) (f : Files) : Files * stage :=
  (unlock fd f, Ended (Some e)).

(** [_start_public_socket], call by call. *)
Definition unlink_socket (fd : nat) (f : Files) : Files * stage := (set_bound None f, Unlinked fd).
Definition bind_socket (pid fd : nat) (f : Files) : Files * stage := (set_bound (Some pid) f, Serving fd).

(** A process that dies closes its files. *)
Definition stage_fd (st : stage) : option nat :=
  match st with
  | Opened fd | Locked fd | Owning fd | Unlinked fd | Serving fd => Some fd
  | Starting | Ended _ => None
  end.
Definition killed (st : stage) (f : Files) : Files * stage :=
  (match stage_fd st with Some fd => unlock fd f | None => f end, Ended None).

(** One system call of the supervisor [pid], or its death.  An exception raised
    anywhere in the session, or its end, releases what it owns. *)
Inductive turn (pid : nat) (f : Files) : stage -> Files * stage -> Prop :=
| turn_open : turn pid f Starting (acquire_open f)
| turn_open_fails e : turn pid f Starting (f, Ended (Some (Raised e)))
| turn_flock fd : turn pid f (Opened fd) (acquire_flock fd f)
| turn_flock_fails fd e : turn pid f (Opened fd) (f, Ended (Some (Raised e)))
| turn_stamp fd : turn pid f (Locked fd) (acquire_stamp pid fd f)
| turn_stamp_fails fd text e : turn pid f (Locked fd) (stamp_failed fd text e f)
| turn_unlink fd : turn pid f (Owning fd) (unlink_socket fd f)
| turn_bind fd : turn pid f (Unlinked fd) (bind_socket pid fd f)
| turn_release st fd e : _runtime_lock_fd st = Some fd -> turn pid f st (_release_runtime_ownership fd e f)
| turn_killed st : turn pid f st (killed st f).

(** All supervisors over one runtime directory, by process id. *)
Record System := { files : Files; daemons : gmap nat stage }.

Definition running (st : stage) : bool := match st with Ended _ => false | _ => true end.

(** A process id may be used again when its process has ended. *)
Inductive step (s : System) : System -> Prop :=
| step_start pid : (forall st, daemons s !! pid = Some st -> running st = false) ->
    step s {| files := files s; daemons := <[pid := Starting]> (daemons s) |}
| step_turn pid st f st' : daemons s !! pid = Some st -> turn pid (files s) st (f, st') ->
    step s {| files := f; daemons := <[pid := st']> (daemons s) |}.

(** Whatever an earlier boot left behind, no lock is held. *)
Inductive reachable : System -> Prop :=
| reachable_boot f : holder f = None -> reachable {| files := f; daemons := ∅ |}
| reachable_step s s' : reachable s -> step s s' -> reachable s'.

(* ------------------------------------------------------------------ *)
(** ** The invariant *)

(** The open file a supervisor holds the lock with. *)
Definition holds (st : stage) : option nat :=
  match st with Locked fd | Owning fd | Unlinked fd | Serving fd => Some fd | _ => None end.

Record inv (s : System) : Prop := {
  fds_old : forall pid st fd, daemons s !! pid = Some st -> stage_fd st = Some fd -> (fd < next (files s))%nat;
  fds_distinct : forall pid pid' st st' fd, daemons s !! pid = Some st -> daemons s !! pid' = Some st' ->
    stage_fd st = Some fd -> stage_fd st' = Some fd -> pid = pid';
  holds_iff : forall pid st fd, daemons s !! pid = Some st -> stage_fd st = Some fd ->
    (holds st = Some fd <-> holder (files s) = Some fd);
  holder_lives : forall fd, holder (files s) = Some fd -> exists pid st, daemons s !! pid = Some st /\ holds st = Some fd;
  text_own : forall pid st fd, daemons s !! pid = Some st -> _runtime_lock_fd st = Some fd ->
    owner_text (files s) = pid_line pid;
  bound_own : forall pid fd, daemons s !! pid = Some (Serving fd) -> bound (files s) = Some pid;
}.
#[local] Create HintDb owner.

Lemma stage_fd_holds st fd : holds st = Some fd -> stage_fd st = Some fd.
Proof. by destruct st. Qed.
Lemma lock_fd_holds st fd : _runtime_lock_fd st = Some fd -> holds st = Some fd.
Proof. by destruct st. Qed.
#[local] Hint Resolve stage_fd_holds lock_fd_holds : owner.

(** The lock is held by one supervisor. *)
Lemma sole_holder s pid pid' st st' fd fd' : inv s -> daemons s !! pid = Some st -> daemons s !! pid' = Some st' ->
  holds st = Some fd -> holds st' = Some fd' -> pid = pid' /\ fd = fd' /\ holder (files s) = Some fd.
Proof.
  intros I H1 H2 Hh Hh'.
  pose proof (proj1 (holds_iff _ I pid st fd H1 (stage_fd_holds _ _ Hh)) Hh) as Hfd.
  pose proof (proj1 (holds_iff _ I pid' st' fd' H2 (stage_fd_holds _ _ Hh')) Hh') as Hfd'.
  rewrite Hfd in Hfd'. injection Hfd' as <-. split_and!; [|done..].
  eapply fds_distinct; eauto with owner.
Qed.

(** What a turn may do with the shared files. *)
Record fair (pid : nat) (f f' : Files) (st st' : stage) : Prop := {
  fair_next : (next f <= next f')%nat;
  fair_fd : forall fd, stage_fd st' = Some fd -> stage_fd st = Some fd \/ fd = next f /\ (fd < next f')%nat;
  fair_lock :
    holder f' = holder f /\ (forall fd, holds st' = Some fd <-> holds st = Some fd) \/
    (exists fd, stage_fd st = Some fd /\ holder f = None /\ holder f' = Some fd /\ holds st' = Some fd) \/
    (exists fd, stage_fd st = Some fd /\ holder f = Some fd /\ holder f' = None /\ stage_fd st' = None);
  fair_text : owner_text f' = owner_text f \/ is_Some (holds st);
  fair_own_text : is_Some (_runtime_lock_fd st') -> owner_text f' = pid_line pid \/
    is_Some (_runtime_lock_fd st) /\ owner_text f' = owner_text f;
  fair_bound : bound f' = bound f \/ is_Some (holds st);
  fair_own_bound : forall fd, st' = Serving fd -> bound f' = Some pid;
}.

Lemma fair_unlock pid fd f st e :
  stage_fd st = Some fd -> (holds st = Some fd <-> holder f = Some fd) -> fair pid f (unlock fd f) st (Ended e).
Proof.
  intros Hfd Hh. assert (forall f', next f' = next f -> owner_text f' = owner_text f -> bound f' = bound f ->
    holder f' = holder f /\ holds st = None \/ holder f = Some fd /\ holder f' = None -> fair pid f f' st (Ended e)) as Hf.
  { intros f' Hn Ht Hb Hl. constructor; [lia|done| |by left|by intros [? [=]]|by left|done].
    destruct Hl as [[Hl Hst]|[Hl Hl']]; [left; by rewrite Hst|right; right; by exists fd]. }
  unfold unlock. case_bool_decide as Hb; apply Hf; try done; [by right|left]. split; [done|].
  destruct (holds st) as [fd'|] eqn:Hst; [|done]. pose proof (stage_fd_holds _ _ Hst) as Hst'. rewrite Hfd in Hst'.
  injection Hst' as <-. destruct Hb. tauto.
Qed.

Ltac fair_turn := constructor; cbn; first [lia | by left | right; by eexists | naive_solver lia | idtac].

Lemma turn_fair pid f st r :
  (forall fd, stage_fd st = Some fd -> (holds st = Some fd <-> holder f = Some fd)) ->
  turn pid f st r -> fair pid f r.1 st r.2.
Proof.
  intros Hh Ht. destruct Ht; cbn [fst snd acquire_open open_lock acquire_stamp stamp_failed unlink_socket bind_socket _release_runtime_ownership].
  - fair_turn.
  - fair_turn.
  - specialize (Hh fd eq_refl). unfold acquire_flock, flock. destruct (holder f) as [h|] eqn:Hf.
    + case_bool_decide as Hb; [|cbn; apply fair_unlock; [done|by rewrite Hf]]. subst h. by destruct Hh as [_ Hh]; specialize (Hh eq_refl).
    + fair_turn.
  - fair_turn.
  - fair_turn.
  - unfold unlock. cbn [set_text holder]. rewrite (proj1 (Hh fd eq_refl)), bool_decide_true by done. fair_turn.
  - fair_turn.
  - fair_turn.
  - apply fair_unlock; [|apply Hh]; destruct st; naive_solver.
  - unfold killed. destruct (stage_fd st) as [fd|] eqn:Hfd; [apply fair_unlock; [done|by apply Hh]|].
    fair_turn. left. split; [done|]. intros fd. split; [done|]. intros Hst. apply stage_fd_holds in Hst. congruence.
Qed.

Lemma inv_start s pid : inv s -> (forall st, daemons s !! pid = Some st -> running st = false) ->
  inv {| files := files s; daemons := <[pid := Starting]> (daemons s) |}.
Proof.
  intros I Hp.
  assert (forall p st fd, <[pid := Starting]> (daemons s) !! p = Some st -> stage_fd st = Some fd -> daemons s !! p = Some st) as Hold.
  { intros p st fd. rewrite lookup_insert. case_decide; naive_solver. }
  constructor; cbn.
  - intros p st fd H1 H2. eapply (fds_old _ I); eauto.
  - intros p p' st st' fd H1 H2 H3 H4. eapply (fds_distinct _ I); eauto.
  - intros p st fd H1 H2. eapply (holds_iff _ I); eauto.
  - intros fd (p & st & H1 & H2)%(holder_lives _ I). exists p, st. split; [|done].
    rewrite lookup_insert_ne; [done|]. intros ->. specialize (Hp _ H1). by destruct st.
  - intros p st fd H1 H2. eapply (text_own _ I); eauto with owner.
  - intros p fd H1. eapply (bound_own _ I), Hold; eauto.
Qed.

Lemma inv_turn s pid st f st' : inv s -> daemons s !! pid = Some st -> fair pid (files s) f st st' ->
  inv {| files := f; daemons := <[pid := st']> (daemons s) |}.
Proof.
  intros I Hst F.
  assert (forall p st0, <[pid := st']> (daemons s) !! p = Some st0 -> p = pid /\ st0 = st' \/ p ≠ pid /\ daemons s !! p = Some st0) as Hold.
  { intros p st0. rewrite lookup_insert. case_decide; naive_solver. }
  assert (forall p st0 fd, p ≠ pid -> daemons s !! p = Some st0 -> stage_fd st0 = Some fd -> stage_fd st' = Some fd -> False) as Hsep.
  { intros p st0 fd Hne H1 H2 H3. destruct (fair_fd _ _ _ _ _ F fd H3) as [H4|[-> _]].
    - apply Hne. eapply (fds_distinct _ I); eauto.
    - pose proof (fds_old _ I _ _ _ H1 H2). lia. }
  pose proof (fair_next _ _ _ _ _ F) as Hnext.
  constructor; cbn.
  - intros p st0 fd [[-> ->]|[Hne H1]]%Hold H2.
    + destruct (fair_fd _ _ _ _ _ F fd H2) as [H4|[-> H4]]; [|done]. pose proof (fds_old _ I _ _ _ Hst H4). lia.
    + pose proof (fds_old _ I _ _ _ H1 H2). lia.
  - intros p p' st0 st1 fd [[-> ->]|[Hne H1]]%Hold [[-> ->]|[Hne' H2]]%Hold H3 H4; [done|by destruct (Hsep p' st1 fd)|by destruct (Hsep p st0 fd)|].
    eapply (fds_distinct _ I); eauto.
  - intros p st0 fd [[-> ->]|[Hne H1]]%Hold H2.
    + destruct (fair_lock _ _ _ _ _ F) as [[Hl Hiff]|[(fd' & H3 & H4 & H5 & H6)|(fd' & H3 & H4 & H5 & H6)]].
      * rewrite Hiff, Hl. destruct (fair_fd _ _ _ _ _ F fd H2) as [H4|[-> _]]; [by apply (holds_iff _ I pid)|].
        split.
        { intros H5%stage_fd_holds. pose proof (fds_old _ I _ _ _ Hst H5). lia. }
        intros (p & st1 & H5 & H6)%(holder_lives _ I). pose proof (fds_old _ I _ _ _ H5 (stage_fd_holds _ _ H6)). lia.
      * pose proof (stage_fd_holds _ _ H6) as H7. rewrite H2 in H7. by injection H7 as <-.
      * congruence.
    + rewrite (holds_iff _ I p st0 fd H1 H2).
      destruct (fair_lock _ _ _ _ _ F) as [[Hl _]|[(fd' & H3 & H4 & H5 & H6)|(fd' & H3 & H4 & H5 & H6)]]; [by rewrite Hl|..].
      * rewrite H4, H5. split; [done|]. intros [= ->]. exfalso. by eapply Hsep; eauto with owner.
      * rewrite H4, H5. split; [|done]. intros [= ->]. exfalso. apply Hne. by eapply (fds_distinct _ I); eauto.
  - intros fd Hfd. destruct (fair_lock _ _ _ _ _ F) as [[Hl Hiff]|[(fd' & H3 & H4 & H5 & H6)|(fd' & H3 & H4 & H5 & H6)]]; [| |congruence].
    + rewrite Hl in Hfd. destruct (holder_lives _ I fd Hfd) as (p & st0 & H1 & H2).
      destruct (decide (p = pid)) as [->|Hne].
      * exists pid, st'. rewrite lookup_insert_eq. split; [done|]. apply Hiff. congruence.
      * exists p, st0. by rewrite lookup_insert_ne.
    + exists pid, st'. rewrite lookup_insert_eq. split; [done|]. congruence.
  - intros p st0 fd [[-> ->]|[Hne H1]]%Hold H2.
    + destruct (fair_own_text _ _ _ _ _ F) as [Ht|[[fd' H3] Ht]]; [by eexists|done|]. rewrite Ht. by eapply (text_own _ I).
    + destruct (fair_text _ _ _ _ _ F) as [->|[fd' H3]]; [by eapply (text_own _ I)|].
      destruct (sole_holder _ _ _ _ _ _ _ I Hst H1 H3 (lock_fd_holds _ _ H2)) as [-> _]. done.
  - intros p fd [[-> <-]|[Hne H1]]%Hold.
    + by eapply (fair_own_bound _ _ _ _ _ F).
    + destruct (fair_bound _ _ _ _ _ F) as [->|[fd' H3]]; [by eapply (bound_own _ I)|].
      destruct (sole_holder _ _ _ _ _ _ _ I Hst H1 H3 eq_refl) as [-> _]. done.
Qed.

Lemma owner_reachable_inv s : reachable s -> inv s.
Proof.
  induction 1 as [f Hf|s s' _ I Hstep].
  - constructor; cbn; try done. intros fd. by rewrite Hf.
  - destruct Hstep as [pid Hp|pid st f st' Hst Ht]; [by apply inv_start|].
    eapply inv_turn; [done..|]. refine (turn_fair pid (files s) st (f, st') _ Ht).
    intros fd Hfd. by apply (holds_iff _ I pid).
Qed.

(** C22: one supervisor owns a runtime directory.  However many are started,
    whatever system call of theirs fails and whenever they are killed: two that
    own it are the same process; the lock file then has the pid of the owner and
    a bound control socket is the owner's, so that no other supervisor has
    unlinked or replaced it; one that asks for the lock is refused exactly when
    another live process holds it, so that an owner that ended, in any way,
    leaves the directory free. *)
Theorem one_owner_per_runtime s pid st fd :
  reachable s -> daemons s !! pid = Some st ->
  (_runtime_lock_fd st = Some fd ->
     owner_text (files s) = pid_line pid /\
     (st = Serving fd -> bound (files s) = Some pid) /\
     forall pid' st' fd', daemons s !! pid' = Some st' -> _runtime_lock_fd st' = Some fd' -> pid' = pid) /\
  (st = Opened fd ->
     ((acquire_flock fd (files s)).2 = Ended (Some AlreadyOwned) <->
      exists pid' st', pid' ≠ pid /\ daemons s !! pid' = Some st' /\ is_Some (holds st')) /\
     ((acquire_flock fd (files s)).2 = Locked fd <->
      forall pid' st', daemons s !! pid' = Some st' -> holds st' = None)).
Proof.
  intros I%owner_reachable_inv Hst. split.
  - intros Hfd. split; [by eapply (text_own _ I)|]. split; [intros ->; by eapply (bound_own _ I)|].
    intros pid' st' fd' H1 H2.
    by destruct (sole_holder _ _ _ _ _ _ _ I H1 Hst (lock_fd_holds _ _ H2) (lock_fd_holds _ _ Hfd)) as [-> _].
  - intros ->. unfold acquire_flock, flock. destruct (holder (files s)) as [h|] eqn:Hh.
    + destruct (holder_lives _ I h Hh) as (p & st' & H1 & H2).
      assert (p ≠ pid) as Hne by (intros ->; rewrite Hst in H1; by injection H1 as <-).
      rewrite bool_decide_false; cbn.
      * split; [split; [intros _; exists p, st'; by rewrite H2|done]|split; [done|]]. intros Hno. by rewrite (Hno _ _ H1) in H2.
      * intros ->. apply Hne. by eapply (fds_distinct _ I); eauto with owner.
    + cbn. assert (forall p st', daemons s !! p = Some st' -> holds st' = None) as Hno.
      { intros p st' H1. destruct (holds st') as [fd'|] eqn:H2; [|done].
        apply (holds_iff _ I p st' fd' H1 (stage_fd_holds _ _ H2)) in H2. congruence. }
      split; [split; [done|]|done]. intros (p & st' & _ & H1 & [fd' H2]). by rewrite (Hno _ _ H1) in H2.
Qed.

(** *** The claim as a whole *)

Inductive turns (pid : nat) : Files * stage -> Files * stage -> Prop :=
| turns_refl r : turns pid r r
| turns_step f st r r' : turn pid f st r -> turns pid r r' -> turns pid (f, st) r'.

Lemma turns_one pid f st r : turn pid f st r -> turns pid (f, st) r.
Proof. intros Ht. eapply turns_step; [exact Ht|constructor]. Qed.

(** The method is a sequence of the calls that may interleave, it takes a free
    directory when no call fails, and called again it changes nothing. *)
Lemma acquire_is_turns `{Syscalls} pid f : turns pid (f, Starting) (_acquire_runtime_ownership pid None f).
Proof.
  unfold _acquire_runtime_ownership. destruct open_fault as [e|]; [apply turns_one, turn_open_fails|].
  eapply turns_step; [apply turn_open|]. unfold acquire_open. cbn [open_lock]. set (f1 := {| holder := _ |}).
  destruct flock_fault as [e|]; [apply turns_one, turn_flock_fails|].
  eapply turns_step; [apply turn_flock|]. unfold acquire_flock. destruct (flock (next f) f1) as [f2|]; [|constructor].
  destruct stamp_fault as [[e text]|]; apply turns_one; [apply turn_stamp_fails|apply turn_stamp].
Qed.

Lemma acquire_free `{Syscalls} pid f : open_fault = None -> flock_fault = None -> stamp_fault = None -> holder f = None ->
  let '(f', st) := _acquire_runtime_ownership pid None f in
  _runtime_lock_fd st = holder f' /\ is_Some (holder f') /\ owner_text f' = pid_line pid /\
  _acquire_runtime_ownership pid (_runtime_lock_fd st) f' = (f', st).
Proof.
  intros H1 H2 H3 Hf. unfold _acquire_runtime_ownership. rewrite H1, H2, H3. cbn. unfold acquire_flock, flock. cbn. rewrite Hf.
  cbn. split_and!; [done|by eexists|done|done].
Qed.

(* ------------------------------------------------------------------ *)
(** ** Witness *)

(** Supervisor 5 serves; supervisor 7 has opened the lock file. *)
Definition sample_boot : Files := {| holder := None; owner_text := []; bound := Some 3%nat; next := 0%nat |}.
Definition sample_system : System :=
  {| files := {| holder := Some 0%nat; owner_text := pid_line 5; bound := Some 5%nat; next := 2%nat |};
     daemons := {[ 5%nat := Serving 0; 7%nat := Opened 1 ]} |}.

Definition started (pid : nat) (s : System) : System :=
  {| files := files s; daemons := <[pid := Starting]> (daemons s) |}.
Definition moved (pid : nat) (r : Files * stage) (s : System) : System :=
  {| files := r.1; daemons := <[pid := r.2]> (daemons s) |}.

Lemma reachable_started pid s : reachable s -> daemons s !! pid = None -> reachable (started pid s).
Proof. intros Hs Hp. eapply reachable_step; [exact Hs|]. apply step_start. congruence. Qed.

Lemma reachable_moved pid st r s : reachable s -> daemons s !! pid = Some st -> turn pid (files s) st r ->
  reachable (moved pid r s).
Proof. intros Hs Hp Ht. eapply reachable_step; [exact Hs|]. destruct r. by eapply step_turn. Qed.

Lemma sample_owner_reachable : reachable sample_system.
Proof.
  pose proof (reachable_started 5 _ (reachable_boot sample_boot eq_refl) eq_refl) as H1.
  pose proof (reachable_moved 5 _ _ _ H1 eq_refl (turn_open 5 _)) as H2.
  pose proof (reachable_moved 5 _ _ _ H2 eq_refl (turn_flock 5 _ 0)) as H3.
  pose proof (reachable_moved 5 _ _ _ H3 eq_refl (turn_stamp 5 _ 0)) as H4.
  pose proof (reachable_moved 5 _ _ _ H4 eq_refl (turn_unlink 5 _ 0)) as H5.
  pose proof (reachable_moved 5 _ _ _ H5 eq_refl (turn_bind 5 _ 0)) as H6.
  pose proof (reachable_started 7 _ H6 eq_refl) as H7.
  exact (reachable_moved 7 _ _ _ H7 eq_refl (turn_open 7 _)).
Qed.

Lemma one_owner_per_runtime_witness :
  owner_text (files sample_system) = pid_line 5 /\ (acquire_flock 1 (files sample_system)).2 = Ended (Some AlreadyOwned).
Proof.
  split.
  - exact (proj1 (proj1 (one_owner_per_runtime sample_system 5 (Serving 0) 0 sample_owner_reachable eq_refl) eq_refl)).
  - apply (proj2 (one_owner_per_runtime sample_system 7 (Opened 1) 1 sample_owner_reachable eq_refl) eq_refl).
    exists 5%nat, (Serving 0). split; [discriminate|]. split; [reflexivity|]. exists 0%nat. reflexivity.
Defined.
End Ownership.
